(* ===== verification/_CoqProject ===== *)
-Q . S2P
Prelude.v
Kube.v
AppService.v
AppStatus.v
Patch.v
Ensure.v
Store.v
StoreSync.v
PodStatus.v
Sequence.v
Controller.v
ControllerSpec.v
Task.v
Gc.v
Conversion.v
Gateway.v
Handle.v
HandleSpec.v
Discover.v
ConversionSpec.v
GatewaySpec.v
Monitor.v
Prober.v
ThirdParty.v
ThirdPartySpec.v
HelmApp.v
ImageGC.v
EventLog.v
EventLogSpec.v
EventFile.v
Variables.v
Volume.v
VolumeSpec.v
Version.v
VersionSpec.v
Plugin.v
PluginSpec.v
BuildSpec.v
Annotation.v
AnnotationSpec.v
GwModel.v
GwStore.v
GwStoreSpec.v
GwSync.v
GwSyncSpec.v
ComponentRows.v
ApiDao.v
RuleAction.v
RuleSpec.v
RuleFlow.v
Queue.v
QueueSpec.v
Operation.v
OperationSpec.v
Batch.v
BatchSpec.v
OperationFlow.v
ComponentDao.v
ComponentAction.v
ComponentParts.v
ComponentSpec.v
ComponentRequests.v
