(* ===== verification/Prelude.v ===== *)
(** * A verification of the Kato application runtime

    Kato runs applications on Kubernetes.  Its worker keeps a cache of every
    application component in memory, fills it from informer events, derives
    the component's status from it, and creates, updates, scales and removes
    the component's cluster objects.  This library models that core from the
    Go sources under [src/worker] and proves what it promises; with it the
    gateway, which turns the worker's ingresses into the configuration of nginx,
    the part of the API server that writes the rules of the gateway and that
    which starts, stops and upgrades components, and the queue of messages
    between API server and worker.

    ** How the parts interact

    Informers call the store ([worker/appm/store]), which finds or creates the
    cached component ([worker/appm/types/v1/v1.go]) and changes its slices of
    objects.  Status queries read the cache ([status.go]).  A controller
    ([worker/appm/controller]) takes a component built from the database,
    writes its objects to the cluster through the Kubernetes client, partly by
    the create-or-update functions of [worker/appm/f], tells the store what it
    deleted, and waits on the store until the component is ready, closed or
    upgraded.  What to do arrives as messages: the receiving loop
    ([worker/discover]) decodes a message and hands it to the handler of its
    type ([worker/handle]), which looks the component up in the store, builds
    the new one and starts a controller.  Among what a controller writes are the
    ingresses of a component; the gateway sees them by informers of its own, reads
    their annotations, lists servers and pools, and writes a file of servers if
    they differ from the running ones.  The rules those ingresses are made of
    come from users: the API server checks a request, writes rows in a
    transaction, and sends the worker a message to apply the rules.  It sends
    one as well for every operation on a component, alone or in a batch, after
    looking at its events; a message is a task in a queue that is kept in etcd,
    and the receiving loop takes it from there.

    ** Files

    - [Prelude]: record update, machine integers, errors, the state monad with
      errors and panics, slices of named objects seen as finite maps, the
      freedom the Go runtime has (map iteration, sorting).
    - [Kube]: the Kubernetes objects with the fields the code uses, the client
      as a record of operations, the class [KubeLaws] of documented server
      behaviour, and [RefKube], an in-memory server that satisfies it.
    - [AppService]: [types/v1/v1.go], the struct [AppService] and its methods.
    - [AppStatus]: [types/v1/status.go] and [pod_status.go].
    - [Patch]: [types/v1/patch.go], the merge patch of an upgrade.
    - [Ensure]: [worker/appm/f/function.go], writing objects to the cluster.
    - [Store]: [store/store.go] and [resource.go], informer callbacks,
      lookups, refresh, statuses, resource usage, probes.
    - [StoreSync]: the same file's image pull secrets and scaling records.
    - [PodStatus]: [worker/util/pod.go], the status of a pod shown to users.
    - [Sequence]: [controller/controller.go] and the [Begin] methods:
      dependency layers, the registry, the loop of the start controller, the
      WaitGroup protocol as a step relation.
    - [Controller]: what start, stop, scale, upgrade, restart and the smaller
      controllers do for one component, and the wait loops of [status.go].
    - [ControllerSpec]: the theorems about [Controller].
    - [Task]: [worker/discover/model/model.go], the bodies of queue messages
      and their decoding.
    - [Gc]: [worker/gc/gc.go], what a deleted component leaves behind, as the
      list of calls that remove it.
    - [Conversion]: [worker/appm/conversion], building a component from database rows: the
      list of conversions and its drivers, the base workload, configuration
      groups, autoscalers; [Gateway]: [gateway.go], services, ingresses and
      certificates of its ports; [Monitor]: [monitor.go].  [ConversionSpec]
      and [GatewaySpec] hold their theorems, the class [sound_conversion] of
      what one conversion owes the drivers, and
      [ConversionSpec.conversion_handler_laws], which gives the handlers theirs.
    - [Variables]: [ParseVariable] of [util/comman.go], the place holders of a
      text, and the paths and strings the pod template needs.  [Volume]:
      [worker/appm/volume], the volumes and claims of a component, kind by
      kind.  [Version]: [conversion/version.go] and [resource.go], the
      environment, the main container, affinities and the pod template.
      [Plugin]: [conversion/plugin.go], the containers of plugins and where
      they go.  [VolumeSpec], [VersionSpec] and [PluginSpec]: their theorems;
      [BuildSpec]: the base, the template and the plugins composed.
    - [Handle]: [worker/handle/manager.go], the task handlers, over a world of
      store, registry, open loggers and a trace of outputs; [HandleSpec]: their
      theorems, against the class [handler_laws] of what the conversion promises.
    - [Discover]: the receiving loop of [worker/discover/manager.go].
    - [Prober]: [util/prober], the manager of health probes and the probes it creates.
    - [ThirdParty]: [worker/appm/thirdparty], the endpoints of components
      outside the cluster and what an etcd directory reports about them;
      [ThirdPartySpec]: their theorems.
    - [HelmApp]: [worker/master/controller/helmapp] and the status methods of
      its resource in [pkg/apis], the control loop of Helm applications over a
      cluster, Helm and a work queue.
    - [ImageGC]: [node/nodem/gc], which images a node removes when its disk is full.
    - The gateway.  [Annotation]: [gateway/annotations], reading the settings
      of an ingress.  [GwModel]: [gateway/v1], servers, locations, pools and
      their comparison.  [GwStore]: [ListVirtualService] and [ListPool] of
      [gateway/store/store.go].  [GwSync]: the handlers of the same file,
      the nginx servers and files of [gateway/controller/openresty], and
      [syncGateway] of [controller.go].  [AnnotationSpec], [GwStoreSpec] and
      [GwSyncSpec]: their theorems.
    - [ComponentRows]: the rows of the parts of components.  [ApiDao]: the
      tables of the API server, statements that may fail,
      transactions, and the data access objects of [db/mysql/dao/gateway.go].
    - The rules of the gateway.  [RuleAction]: [api/handler/gateway_action.go],
      the requests, and the checks of [api/controller/gateway.go].  [RuleSpec]:
      their theorems; [RuleFlow]: a request followed through the tables, the
      worker and the gateway, free ports, and closing a port.
    - The queue.  [Queue]: [util/etcd], [mq/api] and [mq/client], any number
      of writers and readers over an etcd that the class [EtcdLaws] describes and
      [RefEtcd] implements; [QueueSpec]: its theorems.
    - Operations.  [Operation]: [api/handler/service_operation.go], one
      operation on one component, and [api/util/events.go], the events that record
      them; [OperationSpec]: their theorems; [OperationFlow]: an operation
      followed through the queue to the controller the worker starts for it.
      [Batch]: [api/handler/service_batch_operation.go], the order of starting,
      the memory and the events of many operations; [BatchSpec]: its theorems.
    - Components in the tables.  [ComponentDao]: the data access objects of
      their parts; [ComponentAction] and [ComponentParts]: the requests of
      [api/handler/service.go]; [ComponentSpec] and [ComponentRequests]: their theorems.
    - [EventLog]: [eventlog/store], the store of operation messages: barrels,
      its lock and channel and the goroutines that work on them, as steps;
      [EventLogSpec]: its theorems.  [EventFile]: [eventlog/db/eventFilePlugin.go],
      the files its messages are saved to and read from.

    ** How code is modelled

    A Go method becomes a definition of its name.  A struct is a record; a
    method with a pointer receiver maps the old struct to the new one.  Code
    that calls the cluster or changes the store runs in the monad [M W A],
    [W → W * result A]: the state reached is kept with an error or a panic.
    A nil dereference and an index out of range are [Panic]; log lines are left
    out.  The state of the store contains the cluster, so a controller runs in
    one state.  Components are shared by pointer in the store: the model names
    them by their key, and [Controller.app_ptr] reads through the key.  What
    the Go language leaves open, the order of map iteration and the result of
    an unstable sort, is the class [GoRuntime]; theorems hold for every
    instance that satisfies [GoRuntimeLaws].  Integers are [Z]; where the code
    computes in int32 or int64 the wrap-around is written out ([wrap]).

    A handler runs to its end without interference; what the other goroutines
    do happens between the rounds of the receiving loop ([Discover.rd_env]).

    The Kubernetes API, the database and the methods of [AppService] that the
    sources call without declaring ([IsCustomComponent], [IsThirdComponent],
    [SetWorkload], [DeleteWorkload]) are parameters.  The store and the handlers
    take [InitCacheAppService] and [InitAppService], which build a component
    from the database, as parameters: [Store.init_sound] states what the store
    needs of the former, [HandleSpec.handler_laws] what the handlers need of
    both, and [ConversionSpec] discharges them.  The drivers take the list of
    conversions as a parameter; each conversion that is modelled in full has an
    instance of [ConversionSpec.sound_conversion], and for the others the drivers'
    lemmas assume it (that of autoscalers could not have one as it stands: it
    stores nil autoscalers, which the cache of the model has no place for).
    No theorem assumes that a conversion does not panic: where one does, so does
    the task.  The parts of secrets, claims and
    configuration maps that the worker only passes on, the supply of fresh
    names, the decoder of stored JSON, the JSON of a plugin's configuration, the
    environment of the process and the database are parameters of [Volume],
    [Version] and [Plugin].

    ** What is proved

    - The cache refines finite maps: [AppService.cache_refines_maps],
      [AppService.cache_history]; what an update schedules for deletion:
      [AppService.deleted_resources_exact].
    - Status decisions: [AppStatus.status_running_iff],
      [AppStatus.status_abnormal_iff], [AppStatus.status_definite],
      [AppStatus.is_closed_iff]; of pods: [PodStatus.pod_type_by_stage]; of
      applications: [Store.app_status_decides].
    - Cluster writes: [Ensure.upgrade_replaces] (an upgrade leaves exactly the
      new objects), [Ensure.failed_update_deletes], [Ensure.apply_one_errors],
      [Ensure.create_or_update_secret_ok] and their neighbours.
    - The store: [Store.store_history] (the invariant under every sequence of
      inputs), [Store.refresh_tracks_cluster], [Store.tenant_resource_sums],
      [Store.statuses_exact], [Store.orphan_cleanup],
      [Store.probe_infos_exact], [StoreSync.pull_secret_synced].
    - Upgrades: the patch has the effect of merging the whole new manifest
      ([Patch.patch_is_merge]); when it is made ([Patch.upgrade_patch_set]).
    - Tasks: which controller a task starts ([HandleSpec.task_dispatched]),
      when it is put back ([HandleSpec.callback_iff]), that decoding and handlers
      agree ([HandleSpec.bodies_agree]), that no message is lost or executed twice
      ([Discover.tasks_accounted]), what a failed tenant deletion reports
      ([HandleSpec.delete_tenant_outcome]), what collection removes ([Gc.gc_confined]).
    - Building components: the workload a row asks for
      ([ConversionSpec.base_builds_workload]), when stored sources crash the worker
      ([ConversionSpec.service_source_panics]), autoscalers
      ([ConversionSpec.autoscalers_built]); the network of a component
      ([GatewaySpec.build_outcome], [GatewaySpec.regist_network]) and its
      monitors ([Monitor.monitors_target_ports]).
    - Pods: the template a component gets ([VersionSpec.version_builds_template]),
      who decides a variable ([VersionSpec.env_precedence]), resources
      ([VersionSpec.resources_admissible]), affinities and the labels that crash
      the worker ([VersionSpec.affinity_outcome]), host aliases
      ([VersionSpec.host_aliases_group]); place holders
      ([Variables.parse_variable_substitutes]); every mount has its volume and no
      path is taken twice ([VolumeSpec.volumes_fit_pod]), every volume has its
      claim ([VolumeSpec.claims_behind_volumes]); the order of plugin
      containers ([PluginSpec.plugins_placed]), the address of their discovery
      service ([PluginSpec.discover_url_host]), what makes them crash
      ([PluginSpec.plugin_conversion_safe], [PluginSpec.gone_dependency_panics]);
      the workload that all of them build ([BuildSpec.build_workload],
      [BuildSpec.workload_admissible]).
    - Controllers: [ControllerSpec.start_creates],
      [ControllerSpec.stop_removes], [ControllerSpec.waits_end_well],
      [ControllerSpec.start_timeout_constant]; their scheduling:
      [Sequence.sequence_topological], [Sequence.sequence_diverges],
      [Sequence.restart_waits_for_all], [Sequence.begin_may_return_early],
      [Sequence.start_begins_last_only].
    - Probes and third-party components: what the prober is asked for is what
      runs ([Prober.update_services_refines]) and its exceptions
      ([Prober.reverted_probe_kept], [Prober.added_twice_crashes]), how failures
      are counted ([Prober.failures_counted]), what each event does to the
      endpoints of a component ([ThirdPartySpec.probe_event_moves],
      [ThirdPartySpec.new_address_event], [ThirdPartySpec.etcd_delete_ignored]), and
      when endpoints and services fit ([ThirdPartySpec.endpoints_match_services]).
    - Helm applications: the loop reaches the version asked for
      with Helm having installed it ([HelmApp.reconcile_converges], against the
      class [HelmApp.HelmReleases], which says what a successful call of Helm leaves),
      installs nothing unchecked
      ([HelmApp.install_guarded]), and what it loses
      ([HelmApp.detect_failure_lost], [HelmApp.setup_overwrites_spec],
      [HelmApp.reverted_upgrade_stuck]).
    - The gateway: it understands what the worker writes
      ([AnnotationSpec.http_rule_understood], [AnnotationSpec.tcp_rule_understood]);
      which hosts, paths and ports it serves and by which nodes
      ([GwStoreSpec.paths_served], [GwStoreSpec.pools_exact],
      [GwStoreSpec.ports_exact], [GwStoreSpec.server_names_distinct]); that
      equal configurations route alike ([GwSyncSpec.equal_configs_route_alike]),
      that nginx keeps files it can load ([GwSyncSpec.sync_keeps_valid_files],
      [GwSyncSpec.write_file_outcome]), that synchronising settles
      ([GwSyncSpec.sync_settles]) while ingresses are listed in one order, which is
      up to the lister and matters ([GwSyncSpec.listing_order_matters]), and what becomes of a rejected configuration
      ([GwSyncSpec.rejected_config_recorded]) and a renewed certificate
      ([GwSyncSpec.renewed_certificate_stored]).
    - The rules of users: a request is all or nothing
      ([RuleSpec.requests_atomic]) and keeps keys unique
      ([RuleSpec.keys_unique]); what it asks for is what the gateway reads
      ([RuleFlow.request_reaches_gateway]); the port proposed is free
      ([RuleFlow.available_port]), the rule accepted for a port stored
      ([RuleFlow.tcp_rule_accepted]); what closing a port removes
      ([RuleFlow.port_closed]); a change of a rule that is not there is taken for
      a success ([RuleFlow.missing_rule_accepted]).
    - The queue: a topic is one list ([QueueSpec.queue_is_fifo]), a reader gets
      its head ([QueueSpec.reader_gets_head]), tasks arrive as they were sent
      ([QueueSpec.tasks_arrive_in_order]); topics that overlap and answers that get
      lost ([QueueSpec.topics_clash], [QueueSpec.answer_lost]).
    - Operations: one message or nothing ([OperationSpec.upgrade_or_nothing],
      [OperationSpec.start_stop_outcome]), which controller it leads to
      ([OperationFlow.operation_reaches_worker]), whether it may begin
      ([OperationSpec.event_gate]); in a batch the order
      ([BatchSpec.startup_sequence_exact], [BatchSpec.ring_not_cut]), the memory
      ([BatchSpec.memory_granted]) and the answers ([BatchSpec.batch_answers]).
    - Components in the tables: one is deleted with what belongs to it or not
      at all, and what stays ([ComponentSpec.component_deleted],
      [ComponentSpec.variables_left]); requests with a transaction are all or
      nothing ([ComponentRequests.requests_all_or_nothing]); a component keeps its
      state while volumes need it ([ComponentRequests.state_kept]).
    - Event messages: none is lost with one receiver
      ([EventLogSpec.messages_conserved]), their order and the log a user reads
      ([EventLogSpec.events_in_order], [EventFile.log_complete]), files
      ([EventFile.saved_then_read], [EventFile.long_message_forges]), bounds
      ([EventLogSpec.barrels_bounded]), a race and a deadlock
      ([EventLogSpec.creation_race_loses], [EventLogSpec.append_race_loses],
      [EventLogSpec.append_race_doubles], [EventLogSpec.blocking_sends_deadlock]).
    - Images: which ones go and in what order ([ImageGC.eviction_prefix]), that
      enough of them go ([ImageGC.gc_reaches_low]), what is recorded of them
      ([ImageGC.detection_tracks]).

    ** Bounds and fuel

    [Sequence.foundsequence] has a bound on its recursion depth: the number of
    components is enough when dependencies are acyclic, and no bound is enough
    otherwise; both are theorems.  [Ensure.persist_loop] has the five tries of
    the source.  A wait loop follows a [select_run], the finite list of what
    its [select] sees until the timer fires, a tick with whatever the informers did to
    the store before it; the timer of the source makes every run finite.  [Batch.buildLinkListByHead] has one more step than
    there are relations, which is enough ([BatchSpec.sequence_some]).  Every
    other recursion is structural.

    ** What is not modelled

    The goroutine of a probe is a number that is running or not; the requests
    it makes are left out, and so is the sharing of spare capacity between the
    slices of addresses of one subset.

    Helm ([pkg/helm], over the Helm library) and the attempts of
    [RetryOnConflict] are parameters of [HelmApp].  The two loops of the image
    manager run one round at a time; the percentage of disk used is its integral
    part.

    Of the event log a step of [EventLog] is what happens under one acquisition
    of the lock, or up to a send that may block; the append to a barrel, which
    receivers do inside the shared read lock, is two steps, reading the barrel and
    storing it, so that receivers race for it; what only one of them depends on (the
    flags and counters of the barrel) is set with the second.  The metrics counters are left out.

    Of the gateway the text that the templates make of servers and the test
    and reload of nginx are parameters of [GwSync], like the parser of
    certificates; the task queue, the metrics themselves, and the watching of
    addresses and leases ([gateway/cluster]) are left out.

    A database is a sequence of statements of which any may fail, changing
    nothing; a transaction sees its own tables and is not disturbed by others.
    Comparison of strings is exact, rows come in any order, and among several
    rows for one key the first is read.  The decoding of a request and the
    validation its tags ask for come before the model starts.

    A request to etcd is answered, fails, or fails after it was carried out; a
    watch may also end without an event.  Sequential and ephemeral keys, the
    connections and the REST side of the queue are left out.  The requests of a
    batch, retrying, bulk insertion and the memory in use are parameters of
    [Batch]; the environment and the settings of a build are left out of its
    message.  Inserting many rows at once, the status of a component, the
    licence and the decoder of endpoints are parameters of [ComponentAction] and
    [ComponentParts]; listings, builds and the synchronisation of whole
    applications are left out there.  Of an error message the ids in it are left out.

    Component definitions ([worker/appm/componentdefinition], templates that
    the CUE library evaluates), elements [null] of a stored plugin configuration,
    and storing autoscalers (one that is nil has no counterpart in
    the cache), the other master controllers ([worker/master]), the rest of the API server, builder,
    node agent, monitor, and of the event log the stores of container logs and
    monitoring data and the transport.  The loops that start informers and
    goroutines are glue.  Of [controller.go] the goroutines of [Begin] are
    modelled by their WaitGroup protocol, and the work inside one goroutine by
    the functions of [Controller]; interleavings of two controllers on one
    component are not. *)

From Stdlib Require Export ZArith Lia.
From stdpp Require Export gmap strings list sorting.
From stdpp Require Export fin_maps.

(** ** Record update *)

(** [Eta R] gives the eta expansion of a record type; a setter for a
    projection is obtained from it by abstracting that projection. *)
Class Eta (R : Type) := eta : R → R.
Class Setter {R T : Type} (proj : R → T) := set_field : (T → T) → R → R.

Arguments set_field {R T} proj {_} _ _.
#[export] Hint Mode Setter + + + : typeclass_instances.

Ltac build_setter R T proj :=
  let e := eval hnf in (_ : Eta R) in
  exact (fun (f : T → T) (r : R) =>
    ltac:(let b := eval cbv beta in (e r) in
          let p := eval pattern (proj r) in b in
          match p with
          | ?g _ => let t := eval cbv beta in (g (f (proj r))) in exact t
          end)).

#[export] Hint Extern 1 (@Setter ?R ?T ?proj) =>
  build_setter R T proj : typeclass_instances.

Declare Scope kato_scope.
Delimit Scope kato_scope with kato.
Notation "r <| p := v |>" := (set_field p (λ _, v) r)
  (at level 1, left associativity, p at level 9, v at level 99) : kato_scope.
Notation "r <| p ::= f |>" := (set_field p f r)
  (at level 1, left associativity, p at level 9, f at level 99) : kato_scope.
#[global] Open Scope kato_scope.

(** Case analysis on the decisions of the goal only. *)
Ltac split_decide :=
  repeat match goal with |- context [decide ?P] => destruct (decide P) end.

(** ** Machine integers *)

(** Go's [intN(x)] conversion: reduction modulo 2^N into the signed range. *)
Definition wrap (w z : Z) : Z := ((z + 2 ^ (w - 1)) mod 2 ^ w - 2 ^ (w - 1))%Z.
Abbreviation int32 := (wrap 32).
Abbreviation int64 := (wrap 64).

Definition in_int32 (z : Z) : Prop := (- 2 ^ 31 ≤ z < 2 ^ 31)%Z.
Definition in_int64 (z : Z) : Prop := (- 2 ^ 63 ≤ z < 2 ^ 63)%Z.

Lemma wrap_small w z : (0 < w)%Z → (- 2 ^ (w - 1) ≤ z < 2 ^ (w - 1))%Z → wrap w z = z.
Proof.
  intros Hw Hz. unfold wrap.
  assert (2 ^ w = 2 * 2 ^ (w - 1))%Z as Hp.
  { rewrite <- Z.pow_succ_r by lia. f_equal. lia. }
  rewrite Z.mod_small; lia.
Qed.

Lemma wrap_range w z : (0 < w)%Z → (- 2 ^ (w - 1) ≤ wrap w z < 2 ^ (w - 1))%Z.
Proof.
  intros Hw. unfold wrap.
  assert (2 ^ w = 2 * 2 ^ (w - 1))%Z as Hp.
  { rewrite <- Z.pow_succ_r by lia. f_equal. lia. }
  pose proof (Z.mod_pos_bound (z + 2 ^ (w - 1)) (2 ^ w)).
  assert (0 < 2 ^ (w - 1))%Z by (apply Z.pow_pos_nonneg; lia). lia.
Qed.

Lemma int32_small z : in_int32 z → int32 z = z.
Proof. intros H. apply wrap_small; [lia|exact H]. Qed.
Lemma int64_small z : in_int64 z → int64 z = z.
Proof. intros H. apply wrap_small; [lia|exact H]. Qed.

Lemma wrap_wrap_add w a b : (0 < w)%Z → wrap w (wrap w a + b) = wrap w (a + b).
Proof.
  intros Hw. unfold wrap. f_equal. assert (0 < 2 ^ w)%Z by (apply Z.pow_pos_nonneg; lia).
  replace ((a + 2 ^ (w - 1)) mod 2 ^ w - 2 ^ (w - 1) + b + 2 ^ (w - 1))%Z
    with ((a + 2 ^ (w - 1)) mod 2 ^ w + b)%Z by lia.
  rewrite Zplus_mod_idemp_l. f_equal. lia.
Qed.

(** ** Strings *)

(** [len(s) > 0] *)
Definition nonempty_string (s : string) : bool := negb (bool_decide (s = ""%string)).

(** [strings.Contains] *)
Fixpoint str_contains (s sub : string) : bool :=
  String.prefix sub s ||
  match s with
  | EmptyString => false
  | String _ s' => str_contains s' sub
  end.

Lemma prefix_cons c a d b : String.prefix (String c a) (String d b) = if Ascii.ascii_dec c d then String.prefix a b else false.
Proof. reflexivity. Qed.

Lemma prefix_app p s : String.prefix p s = true → ∃ r, s = p +:+ r.
Proof.
  revert s. induction p as [|c p IH]; intros s; [by exists s|]. destruct s as [|d s]; [done|].
  rewrite prefix_cons. destruct (Ascii.ascii_dec c d) as [<-|]; [|done]. intros [r ->]%IH. by exists r.
Qed.

Lemma app_prefix p r : String.prefix p (p +:+ r) = true.
Proof.
  induction p as [|c p IH]; [by destruct r|]. change (String c p +:+ r) with (String c (p +:+ r)).
  rewrite prefix_cons. by destruct (Ascii.ascii_dec c c).
Qed.

Lemma prefix_comparable a b s : String.prefix a s = true → String.prefix b s = true →
  String.prefix a b = true ∨ String.prefix b a = true.
Proof.
  revert b s. induction a as [|c a IH]; intros b s Ha Hb; [left; by destruct b|].
  destruct b as [|d b]; [right; done|]. destruct s as [|x s]; [done|]. rewrite prefix_cons in Ha, Hb |- *. rewrite prefix_cons.
  destruct (Ascii.ascii_dec c x) as [<-|]; [|done]. destruct (Ascii.ascii_dec d c) as [<-|]; [|done].
  destruct (Ascii.ascii_dec d d); [|done]. by apply (IH b s).
Qed.

(** ** Errors, panics and the effect monad *)

(** The reasons of a Kubernetes [StatusError], as classified by
    [errors.IsNotFound] and its siblings. *)
Inductive api_error :=
  | NotFound | AlreadyExists | Conflict | Invalid | Forbidden
  | OtherReason (msg : string).

#[export] Instance api_error_eq_dec : EqDecision api_error.
Proof. solve_decision. Defined.

(** Go [error] values: sentinels are compared by identity, [fmt.Errorf]
    makes a new value around the text of an older one. *)
Inductive error :=
  | EApi (e : api_error)
  | EWaitTimeOut
  | EWaitCancel
  | ECallback
  | ERecordNotFound
  | EServiceNotFound
  | EMsg (msg : string)
  | EWrap (msg : string) (e : error).

#[export] Instance error_eq_dec : EqDecision error.
Proof. solve_decision. Defined.

Definition IsNotFound (e : api_error) : bool := bool_decide (e = NotFound).
Definition IsAlreadyExists (e : api_error) : bool := bool_decide (e = AlreadyExists).
Definition IsConflict (e : api_error) : bool := bool_decide (e = Conflict).
Definition IsInvalid (e : api_error) : bool := bool_decide (e = Invalid).
Definition IsForbidden (e : api_error) : bool := bool_decide (e = Forbidden).

(** The result of running Go code: a value, a returned error, or a panic
    (nil dereference, index out of range). *)
Inductive result (A : Type) :=
  | Ok (a : A)
  | Err (e : error)
  | Panic.
Arguments Ok {A} _.
Arguments Err {A} _.
Arguments Panic {A}.

Definition then_do {A B} (r : result A) (f : A → result B) : result B :=
  match r with Ok a => f a | Err e => Err e | Panic => Panic end.

Lemma then_do_ok {A B} (r : result A) (f : A → result B) b :
  then_do r f = Ok b → ∃ a, r = Ok a ∧ f a = Ok b.
Proof. destruct r as [a| |]; simpl; [by exists a|done..]. Qed.

(** State passing with errors and panics.  Both keep the state reached. *)
Definition M (W A : Type) : Type := W → W * result A.

#[export] Instance M_ret {W} : MRet (M W) := λ A a w, (w, Ok a).
#[export] Instance M_bind {W} : MBind (M W) := λ A B f m w,
  match m w with
  | (w', Ok a) => f a w'
  | (w', Err e) => (w', Err e)
  | (w', Panic) => (w', Panic)
  end.

Definition fail {W A} (e : error) : M W A := λ w, (w, Err e).
Definition panic {W A} : M W A := λ w, (w, Panic).
Definition gets {W A} (f : W → A) : M W A := λ w, (w, Ok (f w)).
Definition modify {W} (f : W → W) : M W unit := λ w, (f w, Ok ()).

(** [catch m] turns a returned error into a value the caller inspects, as
    Go code does with [if err != nil]; panics are not caught. *)
Definition catch {W A} (m : M W A) : M W (error + A) := λ w,
  match m w with
  | (w', Ok a) => (w', Ok (inr a))
  | (w', Err e) => (w', Ok (inl e))
  | (w', Panic) => (w', Panic)
  end.

(** [return fmt.Errorf("msg ...", err.Error())] around a callee's error. *)
Definition wrap_err {W A} (msg : string) (m : M W A) : M W A := λ w,
  match m w with
  | (w', Err e) => (w', Err (EWrap msg e))
  | r => r
  end.

Definition when {W} (b : bool) (m : M W unit) : M W unit :=
  if b then m else mret ().

(** [for _, x := range l { f x }] *)
Fixpoint forM {W A} (l : list A) (f : A → M W unit) : M W unit :=
  match l with
  | [] => mret ()
  | x :: l' => f x ≫= λ _, forM l' f
  end.

(** A loop that threads a local variable. *)
Fixpoint foldM {W A B} (f : B → A → M W B) (b : B) (l : list A) : M W B :=
  match l with
  | [] => mret b
  | x :: l' => f b x ≫= λ b', foldM f b' l'
  end.

Lemma bind_unfold {W A B} (m : M W A) (f : A → M W B) w :
  (m ≫= f) w =
  match m w with
  | (w', Ok a) => f a w'
  | (w', Err e) => (w', Err e)
  | (w', Panic) => (w', Panic)
  end.
Proof. done. Qed.

Lemma bind_ok_inv {W A B} (m : M W A) (f : A → M W B) w w' b :
  (m ≫= f) w = (w', Ok b) → ∃ w1 a, m w = (w1, Ok a) ∧ f a w1 = (w', Ok b).
Proof.
  unfold mbind, M_bind. destruct (m w) as [w1 [a|e|]] eqn:E; [|discriminate..]. eauto.
Qed.

Lemma bind_ok {W A B} (m : M W A) (f : A → M W B) w w1 a :
  m w = (w1, Ok a) → (m ≫= f) w = f a w1.
Proof. intros E. unfold mbind, M_bind. by rewrite E. Qed.

(** [total m]: the code neither panics nor returns an error; [safe m]: it
    does not panic. *)
Record total {W A} (m : M W A) : Prop := { total_run w : ∃ w' a, m w = (w', Ok a) }.
Record safe {W A} (m : M W A) : Prop := { safe_run w : (m w).2 ≠ Panic }.

Create HintDb kato.

Lemma total_safe {W A} (m : M W A) : total m → safe m.
Proof. intros [Hm]. split. intros w. by destruct (Hm w) as (w' & a & ->). Qed.

Lemma total_ret {W A} (a : A) : total (W := W) (mret a).
Proof. split. intros w. eexists _, _. reflexivity. Qed.

Lemma total_bind {W A B} (m : M W A) (f : A → M W B) :
  total m → (∀ a, total (f a)) → total (m ≫= f).
Proof.
  intros [Hm] Hf. split. intros w. destruct (Hm w) as (w1 & a & E).
  destruct (total_run _ (Hf a) w1) as (w2 & b & E2). exists w2, b. by rewrite (bind_ok _ _ _ _ _ E).
Qed.

Lemma total_when {W} (b : bool) (m : M W unit) : total m → total (when b m).
Proof. destruct b; [done|]. intros _. apply total_ret. Qed.

Lemma total_forM {W A} (l : list A) (f : A → M W unit) :
  (∀ x, total (f x)) → total (forM l f).
Proof. intros Hf. induction l; simpl; [apply total_ret|]. by apply total_bind. Qed.

Lemma total_catch {W A} (m : M W A) : safe m → total (catch m).
Proof.
  intros [Hm]. split. intros w. specialize (Hm w). unfold catch.
  destruct (m w) as [w' [a|e|]]; [eauto..|done].
Qed.

Lemma safe_ret {W A} (a : A) : safe (W := W) (mret a).
Proof. by split. Qed.

Lemma safe_fail {W A} e : safe (W := W) (A := A) (fail e).
Proof. by split. Qed.

Lemma safe_bind {W A B} (m : M W A) (f : A → M W B) :
  safe m → (∀ a, safe (f a)) → safe (m ≫= f).
Proof.
  intros [Hm] Hf. split. intros w. specialize (Hm w). unfold mbind, M_bind.
  destruct (m w) as [w' [a|e|]]; [apply Hf|done|done].
Qed.

Lemma safe_forM {W A} (l : list A) (f : A → M W unit) :
  (∀ x, safe (f x)) → safe (forM l f).
Proof. intros Hf. induction l; simpl; [apply safe_ret|]. by apply safe_bind. Qed.

#[export] Hint Resolve total_ret total_bind total_when total_forM total_catch total_safe
  safe_ret safe_fail safe_bind safe_forM : kato.

(** ** Lists *)

Lemma sublist_map {A B} (f : A → B) l l' : l `sublist_of` l' → (f <$> l) `sublist_of` (f <$> l').
Proof. induction 1; rewrite ?fmap_cons; by constructor. Qed.

Lemma sorted_snoc {A} (R : A → A → Prop) l x : StronglySorted R l → (∀ y, y ∈ l → R y x) → StronglySorted R (l ++ [x]).
Proof.
  induction 1 as [|y l Hl IH Hy]; intros Hx; [repeat constructor|]. cbn. constructor.
  - apply IH. intros z Hz. apply Hx. by constructor.
  - apply Forall_app. split; [done|]. constructor; [apply Hx; constructor|constructor].
Qed.

Lemma sublist_sorted {A} (R : A → A → Prop) l l' : l `sublist_of` l' → StronglySorted R l' → StronglySorted R l.
Proof.
  induction 1 as [|x l l' Hsub IH|x l l' Hsub IH]; intros Hs; [constructor|..]; apply StronglySorted_inv in Hs as [Hs Hx].
  - constructor; [by apply IH|]. rewrite Forall_forall in Hx |- *. intros y Hy. apply Hx. by eapply elem_of_sublist.
  - by apply IH.
Qed.

Lemma list_filter_all {A} (P : A → Prop) `{∀ x, Decision (P x)} (l : list A) : (∀ x, x ∈ l → P x) → base.filter P l = l.
Proof.
  induction l as [|x l IH]; intros Hl; [done|]. rewrite filter_cons_True by (apply Hl; constructor).
  f_equal. apply IH. intros y Hy. apply Hl. by constructor.
Qed.

(** ** Slices of named objects

    The runtime keeps every family of cluster objects in a slice searched by
    name.  [upsert] is the loop "replace the first element of that name, else
    append", [remove_first] the loop "cut out the first element of that name",
    [find_by] the linear search.  Seen through [to_map] they are insertion,
    deletion and lookup of a finite map, as long as names are distinct. *)
Section keyed.
Context {A : Type} (nm : A → string).

Fixpoint upsert (d : A) (l : list A) : list A :=
  match l with
  | [] => [d]
  | x :: l' => if decide (nm x = nm d) then d :: l' else x :: upsert d l'
  end.

Fixpoint remove_first (s : string) (l : list A) : list A :=
  match l with
  | [] => []
  | x :: l' => if decide (nm x = s) then l' else x :: remove_first s l'
  end.

Fixpoint find_by (s : string) (l : list A) : option A :=
  match l with
  | [] => None
  | x :: l' => if decide (nm x = s) then Some x else find_by s l'
  end.

Definition uniq (l : list A) : Prop := NoDup (nm <$> l).

Definition to_map (l : list A) : gmap string A := list_to_map ((λ x, (nm x, x)) <$> l).

Lemma names_upsert d l :
  nm <$> upsert d l = if decide (nm d ∈ nm <$> l) then nm <$> l else (nm <$> l) ++ [nm d].
Proof.
  induction l as [|x l IH]; cbn [upsert].
  { rewrite decide_False by apply not_elem_of_nil. done. }
  destruct (decide (nm x = nm d)) as [Hx|Hx]; rewrite !fmap_cons.
  - assert (nm d ∈ nm x :: (nm <$> l)) by (rewrite <- Hx; apply list_elem_of_here).
    rewrite decide_True by done. congruence.
  - rewrite IH. rewrite (decide_ext (nm d ∈ nm x :: (nm <$> l)) (nm d ∈ nm <$> l))
      by (rewrite elem_of_cons; naive_solver).
    by case_decide.
Qed.

Lemma elem_of_upsert d l x : x ∈ upsert d l → x = d ∨ x ∈ l.
Proof. induction l as [|y l IH]; simpl; [set_solver|]. case_decide; set_solver. Qed.

Lemma elem_of_remove_first s l x : x ∈ remove_first s l → x ∈ l.
Proof. induction l as [|y l IH]; simpl; [done|]. case_decide; set_solver. Qed.

Lemma uniq_upsert d l : uniq l → uniq (upsert d l).
Proof.
  unfold uniq. rewrite names_upsert. case_decide; [done|]. intros Hl.
  apply NoDup_app; repeat split; [done|set_solver|apply NoDup_singleton].
Qed.

Lemma names_remove_first s l : (nm <$> remove_first s l) ⊆ (nm <$> l).
Proof.
  intros x [y [-> Hy]]%list_elem_of_fmap. apply list_elem_of_fmap.
  eauto using elem_of_remove_first.
Qed.

Lemma uniq_remove_first s l : uniq l → uniq (remove_first s l).
Proof.
  unfold uniq. induction l as [|x l IH]; simpl; [done|].
  intros [Hx Hl]%NoDup_cons. case_decide; [done|].
  simpl. apply NoDup_cons. split; [|auto].
  intros Hin. by apply Hx, (names_remove_first s).
Qed.

Lemma find_by_None s l : find_by s l = None ↔ s ∉ nm <$> l.
Proof.
  induction l as [|x l IH]; simpl; [set_solver|].
  case_decide; [split; [done|set_solver]|]. rewrite IH. set_solver.
Qed.

Lemma find_by_Some s l x : find_by s l = Some x → nm x = s ∧ x ∈ l.
Proof.
  induction l as [|y l IH]; simpl; [done|]. case_decide.
  - intros [= ->]. set_solver.
  - intros [? ?]%IH. set_solver.
Qed.

Lemma find_by_upsert s d l :
  find_by s (upsert d l) = if decide (s = nm d) then Some d else find_by s l.
Proof.
  induction l as [|x l IH]; simpl; [split_decide; congruence|].
  destruct (decide (nm x = nm d)); simpl; [|rewrite IH]; split_decide; congruence.
Qed.

Lemma find_by_remove_first s s' l : uniq l →
  find_by s (remove_first s' l) = if decide (s = s') then None else find_by s l.
Proof.
  induction l as [|x l IH]; simpl; [by split_decide|].
  intros [Hx Hl]%NoDup_cons. destruct (decide (nm x = s')) as [Hxs|]; simpl.
  - destruct (decide (s = s')); [|by rewrite decide_False by congruence].
    subst. by apply find_by_None.
  - rewrite IH by done. split_decide; congruence.
Qed.

Lemma lookup_to_map l s : to_map l !! s = find_by s l.
Proof.
  unfold to_map. induction l as [|x l IH]; cbn [find_by]; [apply lookup_empty|].
  rewrite fmap_cons, list_to_map_cons, lookup_insert, IH. split_decide; congruence.
Qed.

Lemma to_map_upsert d l : to_map (upsert d l) = <[nm d := d]> (to_map l).
Proof.
  apply map_eq. intros s. rewrite lookup_insert, !lookup_to_map, find_by_upsert.
  split_decide; congruence.
Qed.

Lemma to_map_remove_first s l : uniq l → to_map (remove_first s l) = delete s (to_map l).
Proof.
  intros Hl. apply map_eq. intros s'.
  rewrite lookup_delete, !lookup_to_map, find_by_remove_first by done.
  split_decide; congruence.
Qed.

Lemma length_upsert d l :
  length (upsert d l) = if decide (nm d ∈ nm <$> l) then length l else S (length l).
Proof.
  rewrite <- (length_fmap nm), names_upsert.
  split_decide; rewrite ?length_app, !length_fmap; simpl; lia.
Qed.
End keyed.

#[export] Hint Resolve uniq_upsert uniq_remove_first : kato.

(** ** Deleting from a slice while ranging over it

    The loop [for i, x := range s { if p(x) { s = append(s[:i], s[i+1:]...) } }].
    [range] keeps the slice it started with: every iteration reads the array
    behind it, in which the deletion has moved the elements to the left, while
    [s] gets shorter; slicing [s[i+1:]] beyond its length panics.  The state is
    the array and the length of [s]. *)
Section range_delete.
Context {A : Type} (p : A → bool).

Definition cut_at (i : nat) (st : list A * nat) : option (list A * nat) :=
  let '(arr, len) := st in
  if decide (S i ≤ len)
  then Some (take i arr ++ take (len - S i) (drop (S i) arr) ++ drop (len - 1) arr, len - 1)
  else None.

Fixpoint range_cut (k i : nat) (st : list A * nat) : option (list A * nat) :=
  match k with
  | O => Some st
  | S k =>
    match st.1 !! i with
    | Some x => if p x then st' ← cut_at i st; range_cut k (S i) st' else range_cut k (S i) st
    | None => Some st
    end
  end.

(** The slice after the loop, and what the slice the loop started with now reads. *)
Definition range_delete (l : list A) : option (list A * list A) :=
  '(arr, len) ← range_cut (length l) 0 (l, length l); Some (take len arr, arr).

Lemma range_cut_skip k i st :
  (∀ j x, i ≤ j → st.1 !! j = Some x → p x = false) → range_cut k i st = Some st.
Proof.
  revert i. induction k as [|k IH]; intros i Hp; [done|]. cbn [range_cut].
  destruct (st.1 !! i) as [x|] eqn:E; [|done]. rewrite (Hp i x) by done.
  apply IH. intros j y Hj. apply Hp. lia.
Qed.

(** One element to delete: the loop does what it means to. *)
Lemma range_delete_one l1 x l2 : p x = true → Forall (λ y, p y = false) (l1 ++ l2) →
  ∃ arr, range_delete (l1 ++ x :: l2) = Some (l1 ++ l2, arr).
Proof.
  intros Hx Hall. apply Forall_app in Hall as [H1 H2].
  assert (∀ l0 l1 k, Forall (λ y, p y = false) l1 →
    range_cut (length l1 + k) (length l0) (l0 ++ l1 ++ x :: l2, length (l0 ++ l1 ++ x :: l2)) =
    range_cut k (length l0 + length l1) (l0 ++ l1 ++ x :: l2, length (l0 ++ l1 ++ x :: l2))) as Hskip.
  { intros l0 l1' k Hl. revert l0. induction Hl as [|y l1' Hy _ IH]; intros l0; simpl.
    - by rewrite Nat.add_0_r.
    - rewrite lookup_app_r, Nat.sub_diag by lia. simpl. rewrite Hy.
      specialize (IH (l0 ++ [y])). rewrite length_app, <- !app_assoc in IH. simpl in IH.
      rewrite Nat.add_1_r in IH. rewrite IH. f_equal. lia. }
  unfold range_delete. specialize (Hskip [] l1 (length (x :: l2)) H1).
  rewrite <- length_app in Hskip. cbn [app length plus] in Hskip. rewrite Hskip. clear Hskip.
  cbn [length range_cut fst].
  rewrite lookup_app_r, Nat.sub_diag by lia. simpl. rewrite Hx. unfold cut_at.
  rewrite decide_True by (rewrite length_app; simpl; lia). cbn [mbind option_bind].
  rewrite take_app_length.
  assert (drop (S (length l1)) (l1 ++ x :: l2) = l2) as ->.
  { replace (S (length l1)) with (length (l1 ++ [x])) by (rewrite length_app; simpl; lia).
    change (l1 ++ x :: l2) with (l1 ++ [x] ++ l2). by rewrite (app_assoc l1 [x] l2), drop_app_length. }
  assert (length (l1 ++ x :: l2) - S (length l1) = length l2) as -> by (rewrite length_app; simpl; lia).
  rewrite firstn_all, range_cut_skip.
  - cbn [mbind option_bind]. eexists. f_equal. f_equal.
    rewrite app_assoc. apply take_app_length'. rewrite !length_app. simpl. lia.
  - intros j y Hj. cbn [fst]. destruct l2 as [|z l2] using rev_ind.
    + rewrite lookup_app_r by lia. intros Hy. exfalso. apply lookup_lt_Some in Hy.
      rewrite app_nil_l, length_drop, length_app in Hy. simpl in Hy. lia.
    + clear IHl2. intros Hy.
      assert (y ∈ l2 ++ [z]) as Hin; [|rewrite Forall_forall in H2; by apply H2].
      rewrite lookup_app_r in Hy by lia. apply list_elem_of_lookup_2 in Hy.
      apply elem_of_app in Hy as [Hy|Hy]; [done|].
      replace (length (l1 ++ x :: l2 ++ [z]) - 1) with (length (l1 ++ x :: l2)) in Hy
        by (rewrite !length_app; simpl; rewrite length_app; simpl; lia).
      rewrite app_comm_cons, app_assoc, drop_app_length in Hy. set_solver.
Qed.

Lemma range_delete_none l : Forall (λ y, p y = false) l → range_delete l = Some (l, l).
Proof.
  intros Hl. unfold range_delete. rewrite range_cut_skip.
  - cbn [mbind option_bind]. by rewrite firstn_all.
  - intros j x _ Hx. rewrite Forall_lookup in Hl. by eapply Hl.
Qed.
End range_delete.

(** On names that are distinct the loop is [remove_first]. *)
Lemma range_delete_uniq {A} (nm : A → string) s l : uniq nm l →
  ∃ arr, range_delete (λ x, bool_decide (nm x = s)) l = Some (remove_first nm s l, arr).
Proof.
  intros Hl. destruct (decide (s ∈ nm <$> l)) as [Hin|Hnin].
  - apply list_elem_of_fmap in Hin as (x & -> & Hx). apply list_elem_of_split in Hx as (l1 & l2 & ->).
    unfold uniq in Hl. rewrite fmap_app, fmap_cons in Hl. apply NoDup_app in Hl as (_ & Hd & Hl2).
    apply NoDup_cons in Hl2 as [Hx2 _].
    assert (nm x ∉ nm <$> l1) as Hx1 by (intros H; apply (Hd _ H), list_elem_of_here). clear Hd.
    assert (remove_first nm (nm x) (l1 ++ x :: l2) = l1 ++ l2) as ->.
    { induction l1 as [|y l1 IH]; simpl; [by rewrite decide_True|]. rewrite fmap_cons, not_elem_of_cons in Hx1.
      destruct Hx1 as [Hy Hx1]. rewrite decide_False by congruence. by rewrite IH. }
    apply range_delete_one; [by apply bool_decide_eq_true|]. apply Forall_forall. intros y Hy.
    apply bool_decide_eq_false. intros E. apply elem_of_app in Hy as [Hy|Hy]; [apply Hx1|apply Hx2];
      rewrite <- E; by apply list_elem_of_fmap_2.
  - exists l. rewrite range_delete_none.
    + f_equal. f_equal. induction l as [|y l IH]; [done|]. rewrite fmap_cons, not_elem_of_cons in Hnin.
      simpl. rewrite decide_False by (intros E; by apply (proj1 Hnin)).
      rewrite <- IH; [done| |tauto]. unfold uniq in *. rewrite fmap_cons in Hl. by apply NoDup_cons in Hl as [_ Hl].
    + apply Forall_forall. intros y Hy. apply bool_decide_eq_false. intros E. apply Hnin. rewrite <- E.
      by apply list_elem_of_fmap_2.
Qed.

(** ** What Go leaves to the runtime *)

(** The order in which [range] visits a map and the order [sort.Sort] gives
    to elements that compare equal are unspecified by the language. *)
Class GoRuntime := {
  range_order : ∀ {V : Type}, gmap string V → list (string * V);
  sort_slice : ∀ {A : Type}, (A → A → bool) → list A → list A
}.

(** [less] is a strict weak order, what [sort.Interface] asks of [Less]. *)
Record strict_weak {A} (less : A → A → bool) : Prop := {
  sw_irrefl x : less x x = false;
  sw_trans x y z : less x y = true → less y z = true → less x z = true;
  sw_neg_trans x y z : less x y = false → less y z = false → less x z = false
}.

Class GoRuntimeLaws `{GoRuntime} : Prop := {
  range_order_perm V (m : gmap string V) : range_order m ≡ₚ map_to_list m;
  sort_slice_perm A (less : A → A → bool) l : sort_slice less l ≡ₚ l;
  sort_slice_sorted A (less : A → A → bool) l :
    strict_weak less → StronglySorted (λ x y, less y x = false) (sort_slice less l)
}.

(** A runtime that satisfies these laws: maps in the order of their
    representation, and a stable insertion sort. *)
Fixpoint insert_sorted {A} (less : A → A → bool) (x : A) (l : list A) : list A :=
  match l with
  | [] => [x]
  | y :: l' => if less x y then x :: l else y :: insert_sorted less x l'
  end.

Fixpoint insertion_sort {A} (less : A → A → bool) (l : list A) : list A :=
  match l with
  | [] => []
  | x :: l' => insert_sorted less x (insertion_sort less l')
  end.

Lemma insert_sorted_perm {A} (less : A → A → bool) x l : insert_sorted less x l ≡ₚ x :: l.
Proof.
  induction l as [|y l IH]; simpl; [done|].
  destruct (less x y); [done|]. rewrite IH. apply Permutation_swap.
Qed.

Lemma insertion_sort_perm {A} (less : A → A → bool) l : insertion_sort less l ≡ₚ l.
Proof. induction l as [|x l IH]; simpl; [done|]. by rewrite insert_sorted_perm, IH. Qed.

Lemma insert_sorted_sorted {A} (less : A → A → bool) x l : strict_weak less →
  StronglySorted (λ a b, less b a = false) l →
  StronglySorted (λ a b, less b a = false) (insert_sorted less x l).
Proof.
  intros Hw Hl. induction Hl as [|y l Hl IH Hy]; simpl; [by repeat constructor|].
  destruct (less x y) eqn:E.
  - assert (less y x = false) as Hyx.
    { destruct (less y x) eqn:E'; [|done].
      pose proof (sw_trans _ Hw x y x E E') as H. by rewrite (sw_irrefl _ Hw) in H. }
    constructor; [by constructor|]. constructor; [done|].
    eapply Forall_impl; [exact Hy|]. intros z Hz. exact (sw_neg_trans _ Hw z y x Hz Hyx).
  - constructor; [done|]. rewrite insert_sorted_perm. by constructor.
Qed.

Lemma insertion_sort_sorted {A} (less : A → A → bool) l : strict_weak less →
  StronglySorted (λ a b, less b a = false) (insertion_sort less l).
Proof. intros Hw. induction l; simpl; [constructor|]. by apply insert_sorted_sorted. Qed.

Definition ref_runtime : GoRuntime := {|
  range_order V m := map_to_list m;
  sort_slice A less l := insertion_sort less l
|}.

Lemma ref_runtime_laws : @GoRuntimeLaws ref_runtime.
Proof.
  split; simpl; [done|intros; apply insertion_sort_perm|].
  intros. by apply insertion_sort_sorted.
Qed.

(** ** strconv.Atoi *)

Definition digit_value (c : Ascii.ascii) : option Z :=
  let n := Z.of_nat (Ascii.nat_of_ascii c) in
  if decide (48 ≤ n ≤ 57)%Z then Some (n - 48)%Z else None.

Fixpoint parse_digits (acc : Z) (s : string) : option Z :=
  match s with
  | EmptyString => Some acc
  | String c s' => d ← digit_value c; parse_digits (acc * 10 + d)%Z s'
  end.

(** The number returned and whether an error comes with it: a syntax error
    gives 0, a range error the nearest 64-bit value. *)
Definition Atoi (s : string) : Z * bool :=
  let '(sign, body) :=
    match s with
    | String c s' =>
      if decide (Ascii.nat_of_ascii c = 45) then ((-1)%Z, s')
      else if decide (Ascii.nat_of_ascii c = 43) then (1%Z, s')
      else (1%Z, s)
    | EmptyString => (1%Z, s)
    end in
  match body with
  | EmptyString => (0%Z, false)
  | _ =>
    match parse_digits 0 body with
    | None => (0%Z, false)
    | Some n =>
      let v := (sign * n)%Z in
      if decide (v < - 2 ^ 63)%Z then ((- 2 ^ 63)%Z, false)
      else if decide (2 ^ 63 ≤ v)%Z then ((2 ^ 63 - 1)%Z, false)
      else (v, true)
    end
  end.
