(* ===== verification/Kube.v ===== *)
(** * Cluster objects and the Kubernetes client

    The Kubernetes types are third-party code.  A record below lists the
    fields of a type that the runtime reads or writes; what it only passes
    along is kept as an [opaque] value.  The client is a parameter: the record
    [KubeClient] gives its operations, the class [KubeLaws] the documented
    behaviour that theorems about whole controllers rely on, and [RefKube] an
    in-memory API server that satisfies these laws. *)
From S2P Require Import Prelude.

(** The part of a struct that is carried around and never looked into. *)
Definition opaque := string.

(** ** metav1 and corev1 data *)

Record ObjectMeta := mkMeta {
  m_Name : string;
  m_Namespace : string;
  m_UID : string;
  m_ResourceVersion : string;
  m_Labels : gmap string string;
  m_Annotations : gmap string string;
  m_CreationTimestamp : Z;
  m_DeletionTimestamp : option Z;
  m_DeletionGracePeriodSeconds : option Z;
  m_GenerateName : string
}.
#[export] Instance eta_ObjectMeta : Eta ObjectMeta := λ m,
  mkMeta (m_Name m) (m_Namespace m) (m_UID m) (m_ResourceVersion m) (m_Labels m)
    (m_Annotations m) (m_CreationTimestamp m) (m_DeletionTimestamp m)
    (m_DeletionGracePeriodSeconds m) (m_GenerateName m).

(** Reading a Go map: a missing key gives the zero value. *)
Definition get_str (m : gmap string string) (k : string) : string := default ""%string (m !! k).

(** The objects whose content the runtime does not look at. *)
Record Plain := mkPlain { pl_meta : ObjectMeta; pl_rest : opaque }.
#[export] Instance eta_Plain : Eta Plain := λ p, mkPlain (pl_meta p) (pl_rest p).

(** ** Pods *)

(** A variable has a value, or takes the one of a field of the pod. *)
Record EnvVar := mkEnv { env_Name : string; env_Value : string; env_FieldPath : option string }.
#[export] Instance eta_EnvVar : Eta EnvVar := λ e, mkEnv (env_Name e) (env_Value e) (env_FieldPath e).

Record VolumeMount := mkMount { vm_Name : string; vm_MountPath : string; vm_ReadOnly : bool; vm_SubPath : string }.

Inductive VolumeSource :=
  | EmptyDir (medium : string)
  | HostPath (path type : string)
  | PersistentVolumeClaim (claimName : string) (readOnly : bool)
  | ConfigMapSource (name key path : string).
Record Volume := mkVolume { vol_Name : string; vol_Source : VolumeSource }.

Record ContainerPort := mkContainerPort { cp_ContainerPort : Z; cp_Protocol : string }.

Inductive ProbeHandler :=
  | TCPSocket (port : Z)
  | HTTPGet (path : string) (port : Z) (headers : list (string * string)).
Record Probe := mkProbe {
  kp_FailureThreshold : Z;
  kp_SuccessThreshold : Z;
  kp_InitialDelaySeconds : Z;
  kp_TimeoutSeconds : Z;
  kp_PeriodSeconds : Z;
  kp_Handler : ProbeHandler
}.

(** Quantities appear as the numbers [Value()] and [MilliValue()] return. *)
Record Container := mkContainer {
  c_Name : string;
  c_Image : string;
  c_req_memory : Z;
  c_req_cpu : Z;
  c_lim_memory : Z;
  c_lim_cpu : Z;
  c_ReadinessProbe : option Probe;
  c_LivenessProbe : option Probe;
  c_Args : list string;
  c_Ports : list ContainerPort;
  c_Env : list EnvVar;
  c_EnvFrom : list string;
  c_VolumeMounts : list VolumeMount;
  c_Privileged : bool;
  c_PostStart : list string
}.
#[export] Instance eta_Container : Eta Container := λ c,
  mkContainer (c_Name c) (c_Image c) (c_req_memory c) (c_req_cpu c) (c_lim_memory c) (c_lim_cpu c)
    (c_ReadinessProbe c) (c_LivenessProbe c) (c_Args c) (c_Ports c) (c_Env c) (c_EnvFrom c)
    (c_VolumeMounts c) (c_Privileged c) (c_PostStart c).

Definition c_readiness_delay (c : Container) : option Z := kp_InitialDelaySeconds <$> c_ReadinessProbe c.
Definition c_liveness_delay (c : Container) : option Z := kp_InitialDelaySeconds <$> c_LivenessProbe c.

(** A requirement on a node label: key, operator, values. *)
Record NodeRequirement := mkRequirement { nr_Key : string; nr_Operator : string; nr_Values : list string }.

(** Terms select pods by their label [name] in a namespace. *)
Record Affinity := mkAffinity {
  af_NodeAffinity : list NodeRequirement;
  af_PodAffinity : list (string * string);
  af_PodAntiAffinity : list (string * string)
}.

Record PodSpec := mkPodSpec {
  sp_Volumes : list Volume;
  sp_ImagePullSecrets : list string;
  sp_NodeSelector : gmap string string;
  sp_Tolerations : list (string * string);
  sp_Affinity : option Affinity;
  sp_HostAliases : list (string * list string);
  sp_Hostname : string;
  sp_NodeName : string;
  sp_HostNetwork : bool;
  sp_SchedulerName : string;
  sp_TerminationGracePeriodSeconds : option Z
}.
#[export] Instance eta_PodSpec : Eta PodSpec := λ s,
  mkPodSpec (sp_Volumes s) (sp_ImagePullSecrets s) (sp_NodeSelector s) (sp_Tolerations s) (sp_Affinity s)
    (sp_HostAliases s) (sp_Hostname s) (sp_NodeName s) (sp_HostNetwork s) (sp_SchedulerName s)
    (sp_TerminationGracePeriodSeconds s).
Definition zero_podspec : PodSpec := mkPodSpec [] [] ∅ [] None [] "" "" false "" None.

Record PodTemplateSpec := mkTemplate {
  pt_Labels : gmap string string;
  pt_Containers : list Container;
  pt_InitContainers : list Container;
  pt_Name : string;
  pt_Annotations : gmap string string;
  pt_Spec : PodSpec
}.
#[export] Instance eta_PodTemplateSpec : Eta PodTemplateSpec := λ t,
  mkTemplate (pt_Labels t) (pt_Containers t) (pt_InitContainers t) (pt_Name t) (pt_Annotations t) (pt_Spec t).

Record Terminated := mkTerminated {
  t_ExitCode : Z; t_Reason : string; t_Message : string
}.

(** [Waiting] carries its reason. *)
Record ContainerState := mkCState {
  st_Waiting : option string;
  st_Terminated : option Terminated
}.

Record ContainerStatus := mkCStatus {
  cs_Name : string;
  cs_Image : string;
  cs_Ready : bool;
  cs_State : ContainerState;
  cs_LastTerminationState : ContainerState
}.

Inductive condition_status := ConditionTrue | ConditionFalse | ConditionUnknown.
#[export] Instance condition_status_eq_dec : EqDecision condition_status.
Proof. solve_decision. Defined.

Record PodCondition := mkCondition {
  pc_Type : string;
  pc_Status : condition_status;
  pc_Reason : string;
  pc_Message : string
}.

Record Pod := mkPod {
  pod_meta : ObjectMeta;
  pod_NodeName : string;
  pod_Containers : list Container;
  pod_Phase : string;
  pod_Reason : string;
  pod_Message : string;
  pod_Conditions : list PodCondition;
  pod_ContainerStatuses : list ContainerStatus;
  pod_InitContainerStatuses : list ContainerStatus
}.

(** ** apps/v1: StatefulSet, Deployment, ReplicaSet *)

(** [StatefulSet] and [Deployment] share the fields the runtime uses. *)
Record Workload := mkWorkload {
  wl_meta : ObjectMeta;
  wl_Replicas : option Z;
  wl_Template : PodTemplateSpec;
  wl_ReadyReplicas : Z;
  wl_Selector : gmap string string;
  wl_Strategy : string;
  wl_ServiceName : string;
  wl_VolumeClaimTemplates : list Plain;
  wl_rest : opaque
}.
#[export] Instance eta_Workload : Eta Workload := λ w,
  mkWorkload (wl_meta w) (wl_Replicas w) (wl_Template w) (wl_ReadyReplicas w) (wl_Selector w)
    (wl_Strategy w) (wl_ServiceName w) (wl_VolumeClaimTemplates w) (wl_rest w).
Abbreviation StatefulSet := Workload (only parsing).
Abbreviation Deployment := Workload (only parsing).

Record ReplicaSet := mkReplicaSet {
  rs_meta : ObjectMeta;
  rs_Replicas : Z;
  rs_ReadyReplicas : Z;
  rs_AvailableReplicas : Z
}.

(** ** The remaining kinds *)

Record ServicePort := mkServicePort {
  sp_Name : string;
  sp_Protocol : string;
  sp_Port : Z;
  sp_TargetPort : Z
}.

Record ServiceSpec := mkServiceSpec {
  ssp_Ports : list ServicePort;
  ssp_Selector : gmap string string;
  ssp_Type : string;
  ssp_ClusterIP : string;
  ssp_PublishNotReadyAddresses : bool;
  ssp_rest : opaque
}.
#[export] Instance eta_ServiceSpec : Eta ServiceSpec := λ s,
  mkServiceSpec (ssp_Ports s) (ssp_Selector s) (ssp_Type s) (ssp_ClusterIP s)
    (ssp_PublishNotReadyAddresses s) (ssp_rest s).

Record Service := mkService { svc_meta : ObjectMeta; svc_Spec : ServiceSpec }.
#[export] Instance eta_Service : Eta Service := λ s, mkService (svc_meta s) (svc_Spec s).

Definition svc_Ports (s : Service) : list ServicePort := ssp_Ports (svc_Spec s).
Definition svc_Selector (s : Service) : gmap string string := ssp_Selector (svc_Spec s).
Definition svc_Type (s : Service) : string := ssp_Type (svc_Spec s).

Record IngressBackend := mkBackend { ib_ServiceName : string; ib_ServicePort : Z }.
(** A rule: its host and its paths, each with a backend. *)
Record IngressRule := mkIngressRule { ir_Host : string; ir_Paths : list (string * IngressBackend) }.
Record IngressTLS := mkTLS { tls_Hosts : list string; tls_SecretName : string }.
Record Ingress := mkIngress {
  ing_meta : ObjectMeta;
  ing_Rules : list IngressRule;
  ing_TLS : list IngressTLS;
  ing_Backend : option IngressBackend;
  ing_rest : opaque
}.
#[export] Instance eta_Ingress : Eta Ingress := λ i,
  mkIngress (ing_meta i) (ing_Rules i) (ing_TLS i) (ing_Backend i) (ing_rest i).

(** Addresses by IP, ports by name and number. *)
Record EndpointSubset := mkSubset {
  ss_Addresses : list string;
  ss_NotReadyAddresses : list string;
  ss_Ports : list (string * Z)
}.
#[export] Instance EndpointSubset_eq_dec : EqDecision EndpointSubset.
Proof. solve_decision. Defined.
Record Endpoints := mkEndpoints { ep_meta : ObjectMeta; ep_Subsets : list EndpointSubset }.
#[export] Instance eta_Endpoints : Eta Endpoints := λ e, mkEndpoints (ep_meta e) (ep_Subsets e).

(** Kinds of which the code only touches the metadata. *)
Abbreviation ConfigMap := Plain (only parsing).
Abbreviation Secret := Plain (only parsing).
Abbreviation Claim := Plain (only parsing).
Abbreviation HPA := Plain (only parsing).
Abbreviation ServiceMonitor := Plain (only parsing).
Abbreviation StorageClass := Plain (only parsing).

(** ** Kinds and the typed client *)

Inductive kind :=
  | KNamespace | KConfigMap | KClaim | KStatefulSet | KDeployment | KService
  | KSecret | KIngress | KHPA | KServiceMonitor | KEndpoints | KPod
  | KReplicaSet.

#[export] Instance kind_eq_dec : EqDecision kind.
Proof. solve_decision. Defined.

Definition obj (k : kind) : Type :=
  match k with
  | KNamespace | KConfigMap | KClaim | KSecret | KHPA | KServiceMonitor => Plain
  | KStatefulSet | KDeployment => Workload
  | KService => Service
  | KIngress => Ingress
  | KEndpoints => Endpoints
  | KPod => Pod
  | KReplicaSet => ReplicaSet
  end.

Definition obj_meta {k : kind} : obj k → ObjectMeta :=
  match k return obj k → ObjectMeta with
  | KNamespace | KConfigMap | KClaim | KSecret | KHPA | KServiceMonitor => pl_meta
  | KStatefulSet | KDeployment => wl_meta
  | KService => svc_meta
  | KIngress => ing_meta
  | KEndpoints => ep_meta
  | KPod => pod_meta
  | KReplicaSet => rs_meta
  end.

Definition obj_name {k : kind} (o : obj k) : string := m_Name (obj_meta o).
Definition obj_ns {k : kind} (o : obj k) : string := m_Namespace (obj_meta o).

(** A typed call returns an object and an error, both possibly nil. *)
Definition reply (k : kind) : Type := option (obj k) * option api_error.

(** [client.<Group>().<Kind>(namespace).Get/Create/...] over a cluster state
    [S]; the discovery of the ServiceMonitor CRD goes with it. *)
Record KubeClient (S : Type) := mkClient {
  kc_get : ∀ k, string → string → S → S * reply k;
  kc_create : ∀ k, string → obj k → S → S * reply k;
  (** a create call that is passed a nil object *)
  kc_create_nil : ∀ k, string → S → S * reply k;
  kc_update : ∀ k, string → obj k → S → S * reply k;
  kc_update_status : string → Service → S → S * reply KService;
  kc_delete : kind → string → string → S → S * option api_error;
  kc_patch : kind → string → string → string → S → S * option api_error;
  kc_has_monitor_crd : S → bool;
  kc_has_monitor_client : S → bool
}.
Arguments kc_get {S} _ _ _ _ _.
Arguments kc_create {S} _ _ _ _ _.
Arguments kc_create_nil {S} _ _ _ _.
Arguments kc_update {S} _ _ _ _ _.
Arguments kc_update_status {S} _ _ _ _.
Arguments kc_delete {S} _ _ _ _ _.
Arguments kc_patch {S} _ _ _ _ _ _.
Arguments kc_has_monitor_crd {S} _ _.
Arguments kc_has_monitor_client {S} _ _.

(** Writing the metadata of an object of any kind. *)
Definition set_meta {k : kind} (f : ObjectMeta → ObjectMeta) : obj k → obj k :=
  match k return obj k → obj k with
  | KNamespace | KConfigMap | KClaim | KSecret | KHPA | KServiceMonitor =>
    λ o, o <| pl_meta ::= f |>
  | KStatefulSet | KDeployment => λ o, o <| wl_meta ::= f |>
  | KService => λ o, o <| svc_meta ::= f |>
  | KIngress => λ o, o <| ing_meta ::= f |>
  | KEndpoints => λ o, o <| ep_meta ::= f |>
  | KPod => λ o, mkPod (f (pod_meta o)) (pod_NodeName o) (pod_Containers o) (pod_Phase o)
      (pod_Reason o) (pod_Message o) (pod_Conditions o) (pod_ContainerStatuses o)
      (pod_InitContainerStatuses o)
  | KReplicaSet => λ o, mkReplicaSet (f (rs_meta o)) (rs_Replicas o) (rs_ReadyReplicas o)
      (rs_AvailableReplicas o)
  end.

Lemma obj_meta_set_meta {k} f (o : obj k) : obj_meta (set_meta f o) = f (obj_meta o).
Proof. by destruct k. Qed.

(** Calls in the effect monad: [api] keeps both results, [try_api] turns the
    error into a returned error. *)
Definition api {S k} (call : S → S * reply k) : M S (reply k) := λ s,
  let '(s', r) := call s in (s', Ok r).
Definition try_api {S k} (call : S → S * reply k) : M S (option (obj k)) := λ s,
  match call s with
  | (s', (o, None)) => (s', Ok o)
  | (s', (_, Some e)) => (s', Err (EApi e))
  end.
Definition api_err {S} (call : S → S * option api_error) : M S (option api_error) := λ s,
  let '(s', r) := call s in (s', Ok r).

(** ** What the API server documents

    [kl_lookup] observes the stored objects.  An object marked for deletion
    is still stored but already [gone]: it disappears once its finalizers and
    its grace period are through.  Calls touch no object but the one they
    name. *)
Definition gone {k} (o : option (obj k)) : Prop :=
  match o with
  | None => True
  | Some o => m_DeletionTimestamp (obj_meta o) ≠ None
  end.

Class KubeLaws {S} (kc : KubeClient S) (kl_lookup : S → ∀ k, string → string → option (obj k))
  : Prop := {
  kl_get_state s k ns n : (kc_get kc k ns n s).1 = s;
  kl_get_found s k ns n o :
    (kc_get kc k ns n s).2 = (o, None) → ∃ x, o = Some x ∧ kl_lookup s k ns n = Some x;
  kl_get_missing s k ns n o :
    (kc_get kc k ns n s).2 = (o, Some NotFound) → kl_lookup s k ns n = None;
  kl_create_ok s k ns o s' r :
    kc_create kc k ns o s = (s', (r, None)) →
    ∃ x, r = Some x ∧ obj_name x = obj_name o ∧ kl_lookup s' k ns (obj_name o) = Some x;
  kl_create_exists s k ns o s' r :
    kc_create kc k ns o s = (s', (r, Some AlreadyExists)) →
    s' = s ∧ is_Some (kl_lookup s k ns (obj_name o));
  kl_create_frame s k ns o k' ns' n' :
    (k', ns', n') ≠ (k, ns, obj_name o) →
    kl_lookup (kc_create kc k ns o s).1 k' ns' n' = kl_lookup s k' ns' n';
  (** no create call removes anything *)
  kl_create_keeps s k ns o k' ns' n' :
    is_Some (kl_lookup s k' ns' n') → is_Some (kl_lookup (kc_create kc k ns o s).1 k' ns' n');
  kl_update_ok s k ns o s' r :
    kc_update kc k ns o s = (s', (r, None)) →
    ∃ x, r = Some x ∧ obj_name x = obj_name o ∧ kl_lookup s' k ns (obj_name o) = Some x;
  kl_update_frame s k ns o k' ns' n' :
    (k', ns', n') ≠ (k, ns, obj_name o) →
    kl_lookup (kc_update kc k ns o s).1 k' ns' n' = kl_lookup s k' ns' n';
  kl_update_status_frame s ns o k' ns' n' :
    (k', ns', n') ≠ (KService, ns, obj_name (k := KService) o) →
    kl_lookup (kc_update_status kc ns o s).1 k' ns' n' = kl_lookup s k' ns' n';
  (** the status subresource: a write to it leaves the spec alone *)
  kl_update_status_spec s ns o n :
    svc_Spec <$> kl_lookup (kc_update_status kc ns o s).1 KService ns n =
    svc_Spec <$> kl_lookup s KService ns n;
  kl_delete_ok s k ns n s' :
    kc_delete kc k ns n s = (s', None) → gone (kl_lookup s' k ns n);
  kl_delete_missing s k ns n s' :
    kc_delete kc k ns n s = (s', Some NotFound) → s' = s ∧ kl_lookup s k ns n = None;
  (** nor does a delete call bring an object back *)
  kl_delete_keeps s k ns n k' ns' n' :
    gone (kl_lookup s k' ns' n') → gone (kl_lookup (kc_delete kc k ns n s).1 k' ns' n');
  kl_delete_frame s k ns n k' ns' n' :
    (k', ns', n') ≠ (k, ns, n) →
    kl_lookup (kc_delete kc k ns n s).1 k' ns' n' = kl_lookup s k' ns' n'
}.

(** What is stored after a creation or an update: the object that was given, as
    the server completes it.  [stored o x]: [x] is what becomes of [o]. *)
Class StoresObjects {S} (kc : KubeClient S) (kl_lookup : S → ∀ k, string → string → option (obj k))
    (stored : ∀ k, obj k → obj k → Prop) : Prop := {
  so_create s k ns o s' r :
    kc_create kc k ns o s = (s', (r, None)) → ∃ x, kl_lookup s' k ns (obj_name o) = Some x ∧ stored k o x;
  so_update s k ns o s' r :
    kc_update kc k ns o s = (s', (r, None)) → ∃ x, kl_lookup s' k ns (obj_name o) = Some x ∧ stored k o x
}.

(** ** An in-memory API server *)
Module RefKube.

Definition cluster : Type := ∀ k : kind, gmap (string * string) (obj k).

Definition empty : cluster := λ k, ∅.

Definition lookup (s : cluster) (k : kind) (ns n : string) : option (obj k) := s k !! (ns, n).

Definition upd (k : kind) (f : gmap (string * string) (obj k) → gmap (string * string) (obj k))
    (s : cluster) : cluster := λ k',
  match decide (k = k') with
  | left e =>
    match e in _ = k0 return gmap (string * string) (obj k0) → gmap (string * string) (obj k0)
    with eq_refl => f end (s k')
  | right _ => s k'
  end.

Definition get k ns n (s : cluster) : cluster * reply k :=
  match lookup s k ns n with
  | Some o => (s, (Some o, None))
  | None => (s, (None, Some NotFound))
  end.

Definition create k ns (o : obj k) (s : cluster) : cluster * reply k :=
  match lookup s k ns (obj_name o) with
  | Some _ => (s, (None, Some AlreadyExists))
  | None => (upd k <[(ns, obj_name o) := o]> s, (Some o, None))
  end.

Definition update k ns (o : obj k) (s : cluster) : cluster * reply k :=
  match lookup s k ns (obj_name o) with
  | None => (s, (None, Some NotFound))
  | Some _ => (upd k <[(ns, obj_name o) := o]> s, (Some o, None))
  end.

Definition update_status ns (o : Service) (s : cluster) : cluster * reply KService :=
  match lookup s KService ns (obj_name (k := KService) o) with
  | None => (s, (None, Some NotFound))
  | Some old => (s, (Some old, None))
  end.

Definition remove k ns n (s : cluster) : cluster * option api_error :=
  match lookup s k ns n with
  | None => (s, Some NotFound)
  | Some _ => (upd k (delete (ns, n)) s, None)
  end.

Definition client : KubeClient cluster := {|
  kc_get := get;
  kc_create := create;
  kc_create_nil k ns s := (s, (None, Some Invalid));
  kc_update := update;
  kc_update_status := update_status;
  kc_delete := remove;
  kc_patch k ns n body s :=
    (s, match lookup s k ns n with Some _ => None | None => Some NotFound end);
  kc_has_monitor_crd s := false;
  kc_has_monitor_client s := false
|}.

Lemma lookup_upd_same k f s ns n : lookup (upd k f s) k ns n = f (s k) !! (ns, n).
Proof.
  unfold lookup, upd. destruct (decide (k = k)) as [e|]; [|done].
  by rewrite (proof_irrel e eq_refl).
Qed.

Lemma lookup_upd_other k f s k' ns n : k ≠ k' → lookup (upd k f s) k' ns n = lookup s k' ns n.
Proof. intros H. unfold lookup, upd. by destruct (decide (k = k')). Qed.

Lemma lookup_insert_frame k o s ns n k' ns' n' : (k', ns', n') ≠ (k, ns, n) →
  lookup (upd k <[(ns, n) := o]> s) k' ns' n' = lookup s k' ns' n'.
Proof.
  intros H. destruct (decide (k = k')) as [<-|]; [|by apply lookup_upd_other].
  rewrite lookup_upd_same, lookup_insert_ne; [done|congruence].
Qed.

Lemma lookup_delete_frame k s ns n k' ns' n' : (k', ns', n') ≠ (k, ns, n) →
  lookup (upd k (delete (ns, n)) s) k' ns' n' = lookup s k' ns' n'.
Proof.
  intros H. destruct (decide (k = k')) as [<-|]; [|by apply lookup_upd_other].
  rewrite lookup_upd_same, lookup_delete_ne; [done|congruence].
Qed.

Lemma create_keeps s k ns o k' ns' n' :
  is_Some (lookup s k' ns' n') → is_Some (lookup (create k ns o s).1 k' ns' n').
Proof.
  intros H. unfold create. destruct (lookup s k ns (obj_name o)) eqn:E; [done|]. simpl.
  destruct (decide ((k', ns', n') = (k, ns, obj_name o))) as [Heq|];
    [|by rewrite lookup_insert_frame].
  injection Heq as -> -> ->. rewrite E in H. by destruct H.
Qed.

Lemma remove_keeps s k ns n k' ns' n' :
  gone (lookup s k' ns' n') → gone (lookup (remove k ns n s).1 k' ns' n').
Proof.
  intros H. unfold remove. destruct (lookup s k ns n) eqn:E; [|done]. simpl.
  destruct (decide ((k', ns', n') = (k, ns, n))) as [Heq|]; [|by rewrite lookup_delete_frame].
  injection Heq as -> -> ->. rewrite lookup_upd_same. by rewrite lookup_delete_eq.
Qed.

#[global] Instance laws : KubeLaws client lookup.
Proof.
  split; try exact create_keeps; try exact remove_keeps; simpl; unfold get, create, update, update_status, remove;
    intros; repeat case_match; simplify_eq; simpl;
    rewrite ?lookup_upd_same, ?lookup_insert_eq, ?lookup_delete_eq; eauto;
    first [by apply lookup_insert_frame | by apply lookup_delete_frame | idtac];
    simplify_eq/=; eauto.
Qed.

End RefKube.
