(* ===== verification/AppService.v ===== *)
(** * The cached state of one application component

    [worker/appm/types/v1/v1.go]: the struct [AppService], its base
    information and its methods.  A method with a pointer receiver becomes a
    function from the old to the new struct; a nil dereference is [Panic]. *)
From S2P Require Import Prelude Kube.

Record AppServiceBase := mkBase {
  b_TenantID : string;
  b_TenantName : string;
  b_AppID : string;
  b_ServiceID : string;
  b_ServiceAlias : string;
  b_ServiceType : string;
  b_ServiceKind : string;
  b_DeployVersion : string;
  b_ContainerCPU : Z;
  b_ContainerMemory : Z;
  b_UpgradeMethod : string;
  b_Replicas : Z;
  b_NeedProxy : bool;
  b_IsWindowsService : bool;
  b_CreaterID : string;
  b_Dependces : list string;
  b_ExtensionSet : gmap string string;
  b_GovernanceMode : string
}.
#[export] Instance eta_AppServiceBase : Eta AppServiceBase := λ b,
  mkBase (b_TenantID b) (b_TenantName b) (b_AppID b) (b_ServiceID b) (b_ServiceAlias b)
    (b_ServiceType b) (b_ServiceKind b) (b_DeployVersion b) (b_ContainerCPU b)
    (b_ContainerMemory b) (b_UpgradeMethod b) (b_Replicas b) (b_NeedProxy b)
    (b_IsWindowsService b) (b_CreaterID b) (b_Dependces b) (b_ExtensionSet b)
    (b_GovernanceMode b).

(** The third-party-component object a custom component may run as, and any
    other runtime object, known by its kind.  [ROUnstructured] carries the
    result of decoding its JSON as a ThirdComponent. *)
Inductive component_phase := PhasePending | PhaseRunning | PhaseFailed | PhaseOther (p : string).
Inductive runtime_object :=
  | ROThird (gvk_kind : string) (phase : component_phase)
  | ROUnstructured (gvk_kind : string) (decoded : option component_phase)
  | ROOther (gvk_kind : string).

(** [workload] is declared by no file of the package, but read and written by
    [status.go] and the store. *)
Record AppService := mkApp {
  base : AppServiceBase;
  tenant : option Plain;
  statefulset : option StatefulSet;
  deployment : option Deployment;
  workload : option runtime_object;
  hpas : list HPA;
  delHPAs : list HPA;
  replicasets : list ReplicaSet;
  services : list Service;
  delServices : list Service;
  endpoints : list Endpoints;
  configMaps : list ConfigMap;
  ingresses : list Ingress;
  delIngs : list Ingress;
  secrets : list Secret;
  delSecrets : list Secret;
  pods : list Pod;
  claims : list Claim;
  serviceMonitor : list ServiceMonitor;
  claimsmanual : list Claim;
  podMemoryRequest : Z;
  podCPURequest : Z;
  BootSeqContainer : option Container;
  storageClasses : list StorageClass;
  UpgradePatch : gmap string string;
  CustomParams : option (gmap string string);
  envVarSecrets : list Secret
}.
#[export] Instance eta_AppService : Eta AppService := λ a,
  mkApp (base a) (tenant a) (statefulset a) (deployment a) (workload a) (hpas a) (delHPAs a)
    (replicasets a) (services a) (delServices a) (endpoints a) (configMaps a) (ingresses a)
    (delIngs a) (secrets a) (delSecrets a) (pods a) (claims a) (serviceMonitor a)
    (claimsmanual a) (podMemoryRequest a) (podCPURequest a) (BootSeqContainer a)
    (storageClasses a) (UpgradePatch a) (CustomParams a) (envVarSecrets a).

Definition TenantID (a : AppService) : string := b_TenantID (base a).
Definition ServiceID (a : AppService) : string := b_ServiceID (base a).
Definition ServiceAlias (a : AppService) : string := b_ServiceAlias (base a).
Definition Replicas (a : AppService) : Z := b_Replicas (base a).
Definition DeployVersion (a : AppService) : string := b_DeployVersion (base a).

(** Names, as [GetName()] reads them. *)
Definition pl_name (p : Plain) : string := m_Name (pl_meta p).
Definition wl_name (w : Workload) : string := m_Name (wl_meta w).
Definition svc_name (s : Service) : string := m_Name (svc_meta s).
Definition ing_name (i : Ingress) : string := m_Name (ing_meta i).
Definition ep_name (e : Endpoints) : string := m_Name (ep_meta e).
Definition pod_name (p : Pod) : string := m_Name (pod_meta p).
Definition rs_name (r : ReplicaSet) : string := m_Name (rs_meta r).

(** ** Workloads *)

Definition GetDeployment (a : AppService) : option Deployment := deployment a.
Definition GetStatefulSet (a : AppService) : option StatefulSet := statefulset a.

Definition mem_sum (l : list Container) : Z :=
  foldl (λ acc c, int64 (acc + Z.quot (Z.quot (c_req_memory c) 1024) 1024))%Z 0%Z l.
Definition cpu_sum (l : list Container) : Z :=
  foldl (λ acc c, int64 (acc + c_req_cpu c))%Z 0%Z l.

Definition calculateComponentMemoryRequest (a : AppService) : AppService :=
  let cs (w : option Workload) :=
    match w with Some w => pt_Containers (wl_Template w) | None => [] end in
  let all := cs (statefulset a) ++ cs (deployment a) in
  a <| podMemoryRequest := mem_sum all |> <| podCPURequest := cpu_sum all |>.

(** The version label of the template overrides the recorded version. *)
Definition template_version (d : Workload) (old : string) : string :=
  match pt_Labels (wl_Template d) !! "version"%string with
  | Some v => if decide (v = ""%string) then old else v
  | None => old
  end.

Definition SetDeployment (d : Deployment) (a : AppService) : result AppService :=
  let a := a <| deployment := Some d |> in
  let a := a <| base ::= λ b, b <| b_DeployVersion ::= template_version d |> |> in
  match wl_Replicas d with
  | None => Panic
  | Some n =>
    let a := a <| base ::= λ b, b <| b_Replicas := n |> |> in
    Ok (calculateComponentMemoryRequest a)
  end.

Definition DeleteDeployment (d : Deployment) (a : AppService) : AppService :=
  a <| deployment := None |>.

Definition SetStatefulSet (d : StatefulSet) (a : AppService) : result AppService :=
  let a := a <| statefulset := Some d |> in
  let a := a <| base ::= λ b, b <| b_DeployVersion ::= template_version d |> |> in
  match wl_Replicas d with
  | None => Panic
  | Some n =>
    let a := a <| base ::= λ b, b <| b_Replicas := n |> |> in
    Ok (calculateComponentMemoryRequest a)
  end.

Definition DeleteStatefulSet (d : StatefulSet) (a : AppService) : AppService :=
  a <| statefulset := None |>.

Definition SetPodTemplate (d : PodTemplateSpec) (a : AppService) : AppService :=
  let set (w : option Workload) := (λ w, w <| wl_Template := d |>) <$> w in
  calculateComponentMemoryRequest
    (a <| statefulset ::= set |> <| deployment ::= set |>).

Definition GetPodTemplate (a : AppService) : option PodTemplateSpec :=
  match statefulset a with
  | Some s => Some (wl_Template s)
  | None => wl_Template <$> deployment a
  end.

(** ** Replica sets *)

Definition SetReplicaSets (d : ReplicaSet) (a : AppService) : AppService :=
  a <| replicasets ::= upsert rs_name d |>.
Definition DeleteReplicaSet (d : ReplicaSet) (a : AppService) : AppService :=
  a <| replicasets ::= remove_first rs_name (rs_name d) |>.
Definition GetReplicaSets (a : AppService) : list ReplicaSet := replicasets a.

Definition rs_created (r : ReplicaSet) : Z := m_CreationTimestamp (rs_meta r).

Definition newer (newest rs : ReplicaSet) : ReplicaSet :=
  if decide (rs_created newest < rs_created rs)%Z then rs else newest.

Definition GetNewestReplicaSet (a : AppService) : option ReplicaSet :=
  match replicasets a with
  | [] => None
  | r :: _ => Some (foldl newer r (replicasets a))
  end.

Definition revision_annotation : string := "deployment.kubernetes.io/revision".

Definition GetReplicaSetVersion (rs : ReplicaSet) : Z :=
  match m_Annotations (rs_meta rs) !! revision_annotation with
  | Some version => (Atoi version).1
  | None => 0
  end.

Definition GetCurrentReplicaSet (a : AppService) : option ReplicaSet :=
  d ← deployment a;
  revision ← m_Annotations (wl_meta d) !! revision_annotation;
  List.find (λ rs, bool_decide (get_str (m_Annotations (rs_meta rs)) revision_annotation = revision))
    (replicasets a).

(** Whether a pod belongs to the newest replica set: [true] for a new pod. *)
Definition DistinguishPod (pod : Pod) (a : AppService) : bool :=
  match GetNewestReplicaSet a with
  | None => true
  | Some rs => negb (bool_decide (m_CreationTimestamp (pod_meta pod) < rs_created rs)%Z)
  end.

(** ** Families of named objects *)

Definition SetConfigMap (d : ConfigMap) (a : AppService) : AppService :=
  a <| configMaps ::= upsert pl_name d |>.
Definition GetConfigMaps (a : AppService) : list ConfigMap := configMaps a.
Definition DeleteConfigMaps (d : ConfigMap) (a : AppService) : AppService :=
  a <| configMaps ::= remove_first pl_name (pl_name d) |>.

Definition SetService (d : Service) (a : AppService) : AppService :=
  a <| services ::= upsert svc_name d |>.
Definition SetServices (svcs : list Service) (a : AppService) : AppService :=
  a <| services := svcs |>.
Definition GetServices (a : AppService) : list Service := services a.
Definition GetDelServices (a : AppService) : list Service := delServices a.
Definition DeleteServices (d : Service) (a : AppService) : AppService :=
  a <| services ::= remove_first svc_name (svc_name d) |>.

Definition AddEndpoints (ep : Endpoints) (a : AppService) : AppService :=
  a <| endpoints ::= upsert ep_name ep |>.
Definition GetEndpoints (a : AppService) : list Endpoints := endpoints a.
Definition GetEndpointsByName (s : string) (a : AppService) : option Endpoints :=
  find_by ep_name s (endpoints a).
Definition DelEndpoints (ep : Endpoints) (a : AppService) : AppService :=
  a <| endpoints ::= remove_first ep_name (ep_name ep) |>.

Definition GetIngress (a : AppService) : list Ingress := ingresses a.
Definition GetDelIngs (a : AppService) : list Ingress := delIngs a.
Definition SetIngress (d : Ingress) (a : AppService) : AppService :=
  a <| ingresses ::= upsert ing_name d |>.
Definition SetIngresses (l : list Ingress) (a : AppService) : AppService :=
  a <| ingresses := l |>.
Definition DeleteIngress (d : Ingress) (a : AppService) : AppService :=
  a <| ingresses ::= remove_first ing_name (ing_name d) |>.

(** [SetSecret] ignores a nil argument. *)
Definition SetSecret (d : option Secret) (a : AppService) : AppService :=
  match d with
  | None => a
  | Some d => a <| secrets ::= upsert pl_name d |>
  end.
Definition SetSecrets (l : list Secret) (a : AppService) : AppService := a <| secrets := l |>.
Definition SetAllSecrets (l : list Secret) (a : AppService) : AppService := a <| secrets := l |>.
Definition DeleteSecrets (d : Secret) (a : AppService) : AppService :=
  a <| secrets ::= remove_first pl_name (pl_name d) |>.
Definition GetSecrets (a : AppService) : list Secret := secrets a.
Definition GetDelSecrets (a : AppService) : list Secret := delSecrets a.
Definition SetEnvVarSecrets (l : list Secret) (a : AppService) : AppService :=
  a <| envVarSecrets := l |>.
Definition GetEnvVarSecrets (a : AppService) : list Secret := envVarSecrets a.

Definition SetPods (d : Pod) (a : AppService) : AppService :=
  a <| pods ::= upsert pod_name d |>.
Definition DeletePods (d : Pod) (a : AppService) : AppService :=
  a <| pods ::= remove_first pod_name (pod_name d) |>.
Definition GetPods (a : AppService) : list Pod := pods a.
Definition GetPodsByName (s : string) (a : AppService) : option Pod :=
  find_by pod_name s (pods a).

Definition SetTenant (d : option Plain) (a : AppService) : AppService := a <| tenant := d |>.
Definition GetTenant (a : AppService) : option Plain := tenant a.

(** [claim.Namespace = a.TenantID] comes before the search. *)
Definition in_tenant (a : AppService) (c : Claim) : Claim :=
  c <| pl_meta ::= λ m, m <| m_Namespace := TenantID a |> |>.
Definition GetClaims (a : AppService) : list Claim := claims a.
Definition GetClaimsManually (a : AppService) : list Claim := claimsmanual a.
Definition SetClaim (c : Claim) (a : AppService) : AppService :=
  a <| claims ::= upsert pl_name (in_tenant a c) |>.
Definition SetClaimManually (c : Claim) (a : AppService) : AppService :=
  a <| claimsmanual ::= upsert pl_name (in_tenant a c) |>.
Definition DeleteClaim (c : Claim) (a : AppService) : AppService :=
  a <| claims ::= remove_first pl_name (pl_name c) |>.

Definition SetHPAs (l : list HPA) (a : AppService) : AppService := a <| hpas := l |>.
Definition SetHPA (d : HPA) (a : AppService) : AppService := a <| hpas ::= upsert pl_name d |>.
Definition GetHPAs (a : AppService) : list HPA := hpas a.
Definition GetDelHPAs (a : AppService) : list HPA := delHPAs a.
Definition DelHPA (d : HPA) (a : AppService) : AppService :=
  a <| hpas ::= remove_first pl_name (pl_name d) |>.

Definition SetServiceMonitor (d : ServiceMonitor) (a : AppService) : AppService :=
  a <| serviceMonitor ::= upsert pl_name d |>.
Definition DeleteServiceMonitor (d : ServiceMonitor) (a : AppService) : AppService :=
  a <| serviceMonitor ::= remove_first pl_name (pl_name d) |>.
Definition GetServiceMonitors (a : AppService) : list ServiceMonitor := serviceMonitor a.

(** [SetStorageClass] has no [return] in its loop: it replaces every class of
    that name, then appends another copy. *)
Definition SetStorageClass (sc : StorageClass) (a : AppService) : AppService :=
  a <| storageClasses ::= λ l,
    ((λ old, if decide (pl_name old = pl_name sc) then sc else old) <$> l) ++ [sc] |>.
Definition DeleteStorageClass (sc : StorageClass) (a : AppService) : AppService :=
  a <| storageClasses ::= remove_first pl_name (pl_name sc) |>.

(** ** Resources that an update removes *)

(** The two nested loops: the old objects no new object has the name of. *)
Definition missing_from {A} (nm : A → string) (new old : list A) : list A :=
  filter (λ o, Forall (λ n, nm o ≠ nm n) new) old.

Definition SetDeletedResources (old : option AppService) (a : AppService) : AppService :=
  match old with
  | None => a
  | Some old =>
    let a := a <| delIngs ::= λ l, l ++ missing_from ing_name (ingresses a) (ingresses old) |> in
    let a := a <| delSecrets ::= λ l, l ++ missing_from pl_name (secrets a) (secrets old) |> in
    let a := a <| delServices ::= λ l, l ++ missing_from svc_name (services a) (services old) |> in
    a <| delHPAs ::= λ l, l ++ missing_from pl_name (hpas a) (hpas old) |>
  end.

(** ** Resource accounting *)

Record PodResource := mkPodResource {
  pr_MemoryRequest : Z;
  pr_MemoryLimit : Z;
  pr_CPURequest : Z;
  pr_CPULimit : Z;
  pr_NodeName : string
}.

Definition zero_resource : PodResource := mkPodResource 0 0 0 0 "".

Definition unscheduled (con : PodCondition) : bool :=
  bool_decide (pc_Type con = "PodScheduled"%string ∧ pc_Status con = ConditionFalse).

Definition add_container (pr : PodResource) (con : Container) : PodResource :=
  mkPodResource (int64 (pr_MemoryRequest pr + c_req_memory con))
    (int64 (pr_MemoryLimit pr + c_lim_memory con))
    (int64 (pr_CPURequest pr + c_req_cpu con))
    (int64 (pr_CPULimit pr + c_lim_cpu con)) (pr_NodeName pr).

(** A pod that the scheduler has turned down counts for nothing. *)
Definition CalculatePodResource (pod : Pod) : PodResource :=
  if existsb unscheduled (pod_Conditions pod) then zero_resource
  else
    let pr := foldl add_container zero_resource (pod_Containers pod) in
    mkPodResource (pr_MemoryRequest pr) (pr_MemoryLimit pr) (pr_CPURequest pr)
      (pr_CPULimit pr) (pod_NodeName pod).

Definition GetMemoryRequest (a : AppService) : Z :=
  foldl (λ res pod, int64 (res +
    Z.quot (Z.quot (pr_MemoryRequest (CalculatePodResource pod)) 1024) 1024))%Z 0%Z (pods a).

Definition GetCPURequest (a : AppService) : Z :=
  foldl (λ res pod, int64 (res + pr_CPURequest (CalculatePodResource pod)))%Z 0%Z (pods a).

(** ** The operations of the cache, as data *)

Inductive app_op :=
  | OpSetDeployment (d : Deployment) | OpDeleteDeployment (d : Deployment)
  | OpSetStatefulSet (d : StatefulSet) | OpDeleteStatefulSet (d : StatefulSet)
  | OpSetReplicaSets (d : ReplicaSet) | OpDeleteReplicaSet (d : ReplicaSet)
  | OpSetConfigMap (d : ConfigMap) | OpDeleteConfigMaps (d : ConfigMap)
  | OpSetService (d : Service) | OpDeleteServices (d : Service)
  | OpAddEndpoints (d : Endpoints) | OpDelEndpoints (d : Endpoints)
  | OpSetIngress (d : Ingress) | OpDeleteIngress (d : Ingress)
  | OpSetSecret (d : option Secret) | OpDeleteSecrets (d : Secret)
  | OpSetPods (d : Pod) | OpDeletePods (d : Pod)
  | OpSetClaim (d : Claim) | OpSetClaimManually (d : Claim) | OpDeleteClaim (d : Claim)
  | OpSetHPA (d : HPA) | OpDelHPA (d : HPA)
  | OpSetServiceMonitor (d : ServiceMonitor) | OpDeleteServiceMonitor (d : ServiceMonitor)
  | OpSetPodTemplate (d : PodTemplateSpec)
  | OpSetStorageClass (d : StorageClass) | OpDeleteStorageClass (d : StorageClass).

Definition apply_op (op : app_op) (a : AppService) : result AppService :=
  match op with
  | OpSetDeployment d => SetDeployment d a
  | OpDeleteDeployment d => Ok (DeleteDeployment d a)
  | OpSetStatefulSet d => SetStatefulSet d a
  | OpDeleteStatefulSet d => Ok (DeleteStatefulSet d a)
  | OpSetReplicaSets d => Ok (SetReplicaSets d a)
  | OpDeleteReplicaSet d => Ok (DeleteReplicaSet d a)
  | OpSetConfigMap d => Ok (SetConfigMap d a)
  | OpDeleteConfigMaps d => Ok (DeleteConfigMaps d a)
  | OpSetService d => Ok (SetService d a)
  | OpDeleteServices d => Ok (DeleteServices d a)
  | OpAddEndpoints d => Ok (AddEndpoints d a)
  | OpDelEndpoints d => Ok (DelEndpoints d a)
  | OpSetIngress d => Ok (SetIngress d a)
  | OpDeleteIngress d => Ok (DeleteIngress d a)
  | OpSetSecret d => Ok (SetSecret d a)
  | OpDeleteSecrets d => Ok (DeleteSecrets d a)
  | OpSetPods d => Ok (SetPods d a)
  | OpDeletePods d => Ok (DeletePods d a)
  | OpSetClaim d => Ok (SetClaim d a)
  | OpSetClaimManually d => Ok (SetClaimManually d a)
  | OpDeleteClaim d => Ok (DeleteClaim d a)
  | OpSetHPA d => Ok (SetHPA d a)
  | OpDelHPA d => Ok (DelHPA d a)
  | OpSetServiceMonitor d => Ok (SetServiceMonitor d a)
  | OpDeleteServiceMonitor d => Ok (DeleteServiceMonitor d a)
  | OpSetPodTemplate d => Ok (SetPodTemplate d a)
  | OpSetStorageClass d => Ok (SetStorageClass d a)
  | OpDeleteStorageClass d => Ok (DeleteStorageClass d a)
  end.

Fixpoint run_ops (ops : list app_op) (a : AppService) : result AppService :=
  match ops with
  | [] => Ok a
  | op :: ops' =>
    match apply_op op a with
    | Ok a' => run_ops ops' a'
    | Err e => Err e
    | Panic => Panic
    end
  end.

(** Distinct names in every family; storage classes are left out, see
    [SetStorageClass]. *)
Record wf (a : AppService) : Prop := {
  wf_replicasets : uniq rs_name (replicasets a);
  wf_configMaps : uniq pl_name (configMaps a);
  wf_services : uniq svc_name (services a);
  wf_endpoints : uniq ep_name (endpoints a);
  wf_ingresses : uniq ing_name (ingresses a);
  wf_secrets : uniq pl_name (secrets a);
  wf_pods : uniq pod_name (pods a);
  wf_claims : uniq pl_name (claims a);
  wf_claimsmanual : uniq pl_name (claimsmanual a);
  wf_hpas : uniq pl_name (hpas a);
  wf_serviceMonitor : uniq pl_name (serviceMonitor a)
}.

(** The struct [InitCacheAppService] starts from: base information only. *)
Definition empty_app (b : AppServiceBase) : AppService :=
  mkApp b None None None None [] [] [] [] [] [] [] [] [] [] [] [] [] [] [] 0 0 None [] ∅ None [].

(** ** The abstract cache: one finite map per family *)

Record app_view := mkView {
  v_statefulset : option StatefulSet;
  v_deployment : option Deployment;
  v_replicasets : gmap string ReplicaSet;
  v_configMaps : gmap string ConfigMap;
  v_services : gmap string Service;
  v_endpoints : gmap string Endpoints;
  v_ingresses : gmap string Ingress;
  v_secrets : gmap string Secret;
  v_pods : gmap string Pod;
  v_claims : gmap string Claim;
  v_claimsmanual : gmap string Claim;
  v_hpas : gmap string HPA;
  v_serviceMonitor : gmap string ServiceMonitor
}.
#[export] Instance eta_app_view : Eta app_view := λ v,
  mkView (v_statefulset v) (v_deployment v) (v_replicasets v) (v_configMaps v) (v_services v)
    (v_endpoints v) (v_ingresses v) (v_secrets v) (v_pods v) (v_claims v) (v_claimsmanual v)
    (v_hpas v) (v_serviceMonitor v).

Definition view (a : AppService) : app_view :=
  mkView (statefulset a) (deployment a) (to_map rs_name (replicasets a))
    (to_map pl_name (configMaps a)) (to_map svc_name (services a))
    (to_map ep_name (endpoints a)) (to_map ing_name (ingresses a))
    (to_map pl_name (secrets a)) (to_map pod_name (pods a)) (to_map pl_name (claims a))
    (to_map pl_name (claimsmanual a)) (to_map pl_name (hpas a))
    (to_map pl_name (serviceMonitor a)).

(** What each operation does to the abstract cache; [tid] is the tenant that
    claims are moved into. *)
Definition spec_op (tid : string) (op : app_op) (v : app_view) : app_view :=
  let claim c := c <| pl_meta ::= λ m, m <| m_Namespace := tid |> |> in
  match op with
  | OpSetDeployment d => v <| v_deployment := Some d |>
  | OpDeleteDeployment _ => v <| v_deployment := None |>
  | OpSetStatefulSet d => v <| v_statefulset := Some d |>
  | OpDeleteStatefulSet _ => v <| v_statefulset := None |>
  | OpSetReplicaSets d => v <| v_replicasets ::= <[rs_name d := d]> |>
  | OpDeleteReplicaSet d => v <| v_replicasets ::= delete (rs_name d) |>
  | OpSetConfigMap d => v <| v_configMaps ::= <[pl_name d := d]> |>
  | OpDeleteConfigMaps d => v <| v_configMaps ::= delete (pl_name d) |>
  | OpSetService d => v <| v_services ::= <[svc_name d := d]> |>
  | OpDeleteServices d => v <| v_services ::= delete (svc_name d) |>
  | OpAddEndpoints d => v <| v_endpoints ::= <[ep_name d := d]> |>
  | OpDelEndpoints d => v <| v_endpoints ::= delete (ep_name d) |>
  | OpSetIngress d => v <| v_ingresses ::= <[ing_name d := d]> |>
  | OpDeleteIngress d => v <| v_ingresses ::= delete (ing_name d) |>
  | OpSetSecret (Some d) => v <| v_secrets ::= <[pl_name d := d]> |>
  | OpSetSecret None => v
  | OpDeleteSecrets d => v <| v_secrets ::= delete (pl_name d) |>
  | OpSetPods d => v <| v_pods ::= <[pod_name d := d]> |>
  | OpDeletePods d => v <| v_pods ::= delete (pod_name d) |>
  | OpSetClaim d => v <| v_claims ::= <[pl_name d := claim d]> |>
  | OpSetClaimManually d => v <| v_claimsmanual ::= <[pl_name d := claim d]> |>
  | OpDeleteClaim d => v <| v_claims ::= delete (pl_name d) |>
  | OpSetHPA d => v <| v_hpas ::= <[pl_name d := d]> |>
  | OpDelHPA d => v <| v_hpas ::= delete (pl_name d) |>
  | OpSetServiceMonitor d => v <| v_serviceMonitor ::= <[pl_name d := d]> |>
  | OpDeleteServiceMonitor d => v <| v_serviceMonitor ::= delete (pl_name d) |>
  | OpSetPodTemplate d =>
    let set w := (λ w : Workload, w <| wl_Template := d |>) <$> w in
    v <| v_statefulset ::= set |> <| v_deployment ::= set |>
  | OpSetStorageClass _ | OpDeleteStorageClass _ => v
  end.

(** ** Lemmas *)

Lemma wf_empty_app b : wf (empty_app b).
Proof. split; apply NoDup_nil_2. Qed.

Lemma pl_name_in_tenant a c : pl_name (in_tenant a c) = pl_name c.
Proof. done. Qed.

(** Operations only fail by dereferencing a nil replica count. *)
Lemma apply_op_ok op a :
  (∃ a', apply_op op a = Ok a') ∨
  apply_op op a = Panic ∧
    (∃ d, (op = OpSetDeployment d ∨ op = OpSetStatefulSet d) ∧ wl_Replicas d = None).
Proof.
  destruct op; try (left; eexists; reflexivity); simpl;
    unfold SetDeployment, SetStatefulSet; destruct (wl_Replicas d) eqn:E; eauto 10.
Qed.

Lemma apply_op_wf op a a' : wf a → apply_op op a = Ok a' → wf a'.
Proof.
  intros [] H. destruct op as [d|d|d|d|d|d|d|d|d|d|d|d|d|d|[d|]|d|d|d|d|d|d|d|d|d|d|d|d|d];
    simpl in H; unfold SetDeployment, SetStatefulSet in H;
    try destruct (wl_Replicas d); simplify_eq; split; simpl; auto with kato.
Qed.

Lemma apply_op_base op a a' :
  apply_op op a = Ok a' → b_TenantID (base a') = b_TenantID (base a).
Proof.
  intros H. destruct op as [d|d|d|d|d|d|d|d|d|d|d|d|d|d|[d|]|d|d|d|d|d|d|d|d|d|d|d|d|d];
    simpl in H; unfold SetDeployment, SetStatefulSet in H;
    try destruct (wl_Replicas d); simplify_eq; done.
Qed.

Lemma apply_op_id op a a' : apply_op op a = Ok a' → ServiceID a' = ServiceID a.
Proof.
  intros H. destruct op as [d|d|d|d|d|d|d|d|d|d|d|d|d|d|[d|]|d|d|d|d|d|d|d|d|d|d|d|d|d];
    simpl in H; unfold SetDeployment, SetStatefulSet in H;
    try destruct (wl_Replicas d); simplify_eq; done.
Qed.

Lemma apply_op_view op a a' :
  wf a → apply_op op a = Ok a' → view a' = spec_op (TenantID a) op (view a).
Proof.
  intros [] E. revert E.
  destruct op as [d|d|d|d|d|d|d|d|d|d|d|d|d|d|[d|]|d|d|d|d|d|d|d|d|d|d|d|d|d]; simpl;
    unfold SetDeployment, SetStatefulSet; try destruct (wl_Replicas d); intros; simplify_eq;
    unfold view; simpl; rewrite ?to_map_upsert, ?to_map_remove_first by done; done.
Qed.

Lemma run_ops_view ops a a' : wf a → run_ops ops a = Ok a' →
  wf a' ∧ view a' = foldl (λ v op, spec_op (TenantID a) op v) (view a) ops.
Proof.
  revert a. induction ops as [|op ops IH]; intros a Hwf H; simpl in *; [by simplify_eq|].
  destruct (apply_op op a) as [a1| |] eqn:E; try done.
  destruct (IH a1) as [? Hv]; [by eapply apply_op_wf|done|]. split; [done|].
  rewrite Hv, (apply_op_view _ _ _ Hwf E).
  unfold TenantID. by rewrite (apply_op_base _ _ _ E).
Qed.

Lemma elem_of_missing_from {A} (nm : A → string) new old o :
  o ∈ missing_from nm new old ↔ o ∈ old ∧ nm o ∉ nm <$> new.
Proof.
  unfold missing_from. rewrite list_elem_of_filter, Forall_forall.
  split; intros [H1 H2]; split; try done.
  - intros [n [Hn ?]]%list_elem_of_fmap. by eapply H1.
  - intros n Hn Heq. apply H2. rewrite Heq. apply list_elem_of_fmap. eauto.
Qed.

Lemma foldl_newer l r :
  (foldl newer r l = r ∨ foldl newer r l ∈ l) ∧
  (rs_created r ≤ rs_created (foldl newer r l))%Z ∧
  ∀ x, x ∈ l → (rs_created x ≤ rs_created (foldl newer r l))%Z.
Proof.
  revert r. induction l as [|y l IH]; intros r; simpl.
  { split_and!; [by left|lia|by intros x ?%not_elem_of_nil]. }
  destruct (IH (newer r y)) as (H1 & H2 & H3).
  assert (newer r y = r ∨ newer r y = y) as Hn by (unfold newer; split_decide; auto).
  assert (rs_created r ≤ rs_created (newer r y) ∧ rs_created y ≤ rs_created (newer r y))%Z
    as [] by (unfold newer; split_decide; lia).
  split_and!; [|lia|].
  - destruct H1 as [H1|H1]; [|set_solver]. rewrite H1. destruct Hn as [->| ->]; set_solver.
  - intros x [->|Hx]%elem_of_cons; [lia|auto].
Qed.

Lemma newest_spec a :
  match GetNewestReplicaSet a with
  | None => replicasets a = []
  | Some r => r ∈ replicasets a ∧ ∀ x, x ∈ replicasets a → (rs_created x ≤ rs_created r)%Z
  end.
Proof.
  unfold GetNewestReplicaSet. destruct (replicasets a) as [|r l]; [done|].
  destruct (foldl_newer (r :: l) r) as (H1 & H2 & H3). split; [|done].
  destruct H1 as [H1|H1]; [rewrite H1; set_solver|done].
Qed.

(** A sum of non-negative terms that fits an int64 never wraps on the way. *)
Definition zsum (l : list Z) : Z := foldr Z.add 0%Z l.

Lemma zsum_cons x l : zsum (x :: l) = (x + zsum l)%Z.
Proof. done. Qed.

Lemma zsum_nonneg l : Forall (λ z, 0 ≤ z)%Z l → (0 ≤ zsum l)%Z.
Proof. induction 1; rewrite ?zsum_cons; [done|lia]. Qed.

Lemma zsum_le l k : Forall2 Z.le l k → (zsum l ≤ zsum k)%Z.
Proof. induction 1; rewrite ?zsum_cons; [done|lia]. Qed.

Lemma elem_of_zsum_le x l : Forall (λ z, 0 ≤ z)%Z l → x ∈ l → (x ≤ zsum l)%Z.
Proof.
  induction 1 as [|y l Hy Hl IH]; intros Hx; [by apply not_elem_of_nil in Hx|].
  rewrite zsum_cons. apply zsum_nonneg in Hl.
  apply elem_of_cons in Hx as [->|Hx]; [lia|]. specialize (IH Hx). lia.
Qed.

Lemma foldl_int64_sum {A} (f : A → Z) l acc :
  (0 ≤ acc)%Z → Forall (λ x, 0 ≤ f x)%Z l → (acc + zsum (f <$> l) < 2 ^ 63)%Z →
  foldl (λ s x, int64 (s + f x)) acc l = (acc + zsum (f <$> l))%Z.
Proof.
  revert acc. induction l as [|x l IH]; intros acc Ha Hl Hb.
  { simpl. unfold zsum. simpl. lia. }
  cbn [foldl]. rewrite fmap_cons, zsum_cons in Hb |- *.
  apply Forall_cons in Hl as [Hx Hl].
  assert (0 ≤ zsum (f <$> l))%Z by (apply zsum_nonneg, Forall_fmap; done).
  rewrite int64_small by (split; lia).
  rewrite IH; [lia|lia|done|lia].
Qed.

Lemma memory_of_containers l pr :
  pr_MemoryRequest (foldl add_container pr l) =
  foldl (λ s c, int64 (s + c_req_memory c)) (pr_MemoryRequest pr) l.
Proof. revert pr. by induction l as [|c l IH]; intros pr; simpl; [|rewrite IH]. Qed.

(** What a pod asks for: nothing while the scheduler turns it down. *)
Definition pod_memory (pod : Pod) : Z :=
  if existsb unscheduled (pod_Conditions pod) then 0%Z
  else zsum (c_req_memory <$> pod_Containers pod).

Lemma pod_memory_exact pod :
  Forall (λ c, 0 ≤ c_req_memory c)%Z (pod_Containers pod) →
  (zsum (c_req_memory <$> pod_Containers pod) < 2 ^ 63)%Z →
  pr_MemoryRequest (CalculatePodResource pod) = pod_memory pod.
Proof.
  intros Hpos Hfit. unfold CalculatePodResource, pod_memory.
  destruct (existsb _ _); [done|]. simpl. rewrite memory_of_containers.
  rewrite (foldl_int64_sum c_req_memory) by (done || lia). simpl. lia.
Qed.

Lemma pod_memory_bounds pod :
  Forall (λ c, 0 ≤ c_req_memory c)%Z (pod_Containers pod) →
  (0 ≤ pod_memory pod ≤ zsum (c_req_memory <$> pod_Containers pod))%Z.
Proof.
  intros H. assert (0 ≤ zsum (c_req_memory <$> pod_Containers pod))%Z
    by (apply zsum_nonneg, Forall_fmap; done).
  unfold pod_memory. destruct (existsb _ _); lia.
Qed.

(** ** Properties *)

(** C1 (refinement): on a cache with distinct names every operation that sets
    or deletes one workload, pod template or named object does to the slices
    what insertion and deletion do to one finite map per family, a lookup by
    name then finds what the map has, names stay distinct, and the operation
    goes wrong only by dereferencing the replica count of a workload that has
    none.  Storage classes, which are not kept distinct, and the setters that
    replace a whole slice are not among these operations. *)
Theorem cache_refines_maps (op : app_op) (a : AppService) (Hwf : wf a) :
  match apply_op op a with
  | Ok a' => wf a' ∧ view a' = spec_op (TenantID a) op (view a) ∧
      (∀ s, GetPodsByName s a' = v_pods (spec_op (TenantID a) op (view a)) !! s) ∧
      (∀ s, GetEndpointsByName s a' = v_endpoints (spec_op (TenantID a) op (view a)) !! s)
  | Err _ => False
  | Panic => ∃ d, (op = OpSetDeployment d ∨ op = OpSetStatefulSet d) ∧ wl_Replicas d = None
  end.
Proof.
  destruct (apply_op_ok op a) as [[a' E]|[E H]]; rewrite E; [|done].
  assert (wf a') as Hwf' by (by eapply apply_op_wf). split; [done|]. rewrite <- (apply_op_view _ _ _ Hwf E).
  split; [done|]. simpl. split; intros s; unfold GetPodsByName, GetEndpointsByName; by rewrite lookup_to_map by apply Hwf'.
Qed.

(** Whatever the informers report, in whatever order, a cache
    that started empty holds at most one object per name in each family, and
    a lookup by name finds the object last stored and not deleted since. *)
Theorem cache_history (b : AppServiceBase) (ops : list app_op) (a : AppService)
    (Hrun : run_ops ops (empty_app b) = Ok a) :
  let v := foldl (λ v op, spec_op (b_TenantID b) op v) (view (empty_app b)) ops in
  wf a ∧ (∀ s, GetPodsByName s a = v_pods v !! s) ∧
  (∀ s, GetEndpointsByName s a = v_endpoints v !! s) ∧
  GetStatefulSet a = v_statefulset v ∧ GetDeployment a = v_deployment v.
Proof.
  destruct (run_ops_view _ _ _ (wf_empty_app b) Hrun) as [Hwf Hv].
  change (TenantID (empty_app b)) with (b_TenantID b) in Hv. intros v. subst v.
  rewrite <- Hv. split; [done|]. simpl. split_and!; try done; intros s;
    unfold GetPodsByName, GetEndpointsByName; by rewrite lookup_to_map.
Qed.

(** [SetDeletedResources] schedules for deletion exactly the
    objects of the old component that no object of the new one is named after;
    nothing the new component still uses is deleted. *)
Theorem deleted_resources_exact (old a : AppService)
    (Hnone : delIngs a = [] ∧ delSecrets a = [] ∧ delServices a = [] ∧ delHPAs a = []) :
  let a' := SetDeletedResources (Some old) a in
  (∀ o, o ∈ GetDelIngs a' ↔ o ∈ ingresses old ∧ ing_name o ∉ ing_name <$> ingresses a) ∧
  (∀ o, o ∈ GetDelSecrets a' ↔ o ∈ secrets old ∧ pl_name o ∉ pl_name <$> secrets a) ∧
  (∀ o, o ∈ GetDelServices a' ↔ o ∈ services old ∧ svc_name o ∉ svc_name <$> services a) ∧
  (∀ o, o ∈ GetDelHPAs a' ↔ o ∈ hpas old ∧ pl_name o ∉ pl_name <$> hpas a).
Proof.
  destruct Hnone as (H1 & H2 & H3 & H4). simpl.
  unfold GetDelIngs, GetDelSecrets, GetDelServices, GetDelHPAs. simpl.
  rewrite H1, H2, H3, H4. split_and!; intros o; apply elem_of_missing_from.
Qed.

(** A pod counts as new exactly when no replica set of the
    component was created after it. *)
Theorem distinguish_pod_newest (pod : Pod) (a : AppService) :
  DistinguishPod pod a = true ↔
  ∀ rs, rs ∈ GetReplicaSets a → (rs_created rs ≤ m_CreationTimestamp (pod_meta pod))%Z.
Proof.
  unfold DistinguishPod, GetReplicaSets. pose proof (newest_spec a) as H.
  destruct (GetNewestReplicaSet a) as [r|].
  - destruct H as [Hin Hmax]. rewrite negb_true_iff, bool_decide_eq_false.
    split; [intros Hn rs Hrs|intros Hn; specialize (Hn r Hin); lia].
    specialize (Hmax rs Hrs). lia.
  - rewrite H. split; [by intros _ rs ?%not_elem_of_nil|done].
Qed.

(** [SetStorageClass] is not idempotent.  Storing a class
    [n] times leaves [n] copies behind those already there, and a deletion
    removes one, so the deleted class stays listed after two updates. *)
Theorem storage_class_copies (sc : StorageClass) (n : nat) (a : AppService)
    (Hnew : storageClasses a = []) :
  storageClasses (Nat.iter n (SetStorageClass sc) a) = replicate n sc ∧
  storageClasses (DeleteStorageClass sc (Nat.iter n (SetStorageClass sc) a)) =
    replicate (pred n) sc.
Proof.
  assert (storageClasses (Nat.iter n (SetStorageClass sc) a) = replicate n sc) as H.
  { induction n as [|n IH]; [done|]. simpl. rewrite IH.
    rewrite fmap_replicate, decide_True by done. by rewrite <- replicate_S_end. }
  split; [done|]. unfold DeleteStorageClass. simpl. rewrite H.
  destruct n; simpl; [done|]. by rewrite decide_True.
Qed.

(** As long as the bytes requested by all containers fit an
    int64, the 64-bit accumulators never wrap: a pod's request is the sum over
    its containers (zero if unscheduled), the component's is the sum of the
    pods' requests, each rounded down to MiB. *)
Theorem memory_request_exact (a : AppService)
    (Hpos : Forall (λ pod, Forall (λ c, 0 ≤ c_req_memory c)%Z (pod_Containers pod)) (pods a))
    (Hfit : (zsum ((λ pod, zsum (c_req_memory <$> pod_Containers pod)) <$> pods a) < 2 ^ 63)%Z) :
  Forall (λ pod, pr_MemoryRequest (CalculatePodResource pod) = pod_memory pod) (pods a) ∧
  GetMemoryRequest a = zsum ((λ pod, pod_memory pod / (1024 * 1024))%Z <$> pods a).
Proof.
  set (raw pod := zsum (c_req_memory <$> pod_Containers pod)) in *.
  assert (Forall (λ z, 0 ≤ z)%Z (raw <$> pods a)) as Hraw.
  { apply Forall_fmap. eapply Forall_impl; [exact Hpos|]. intros p Hp. simpl.
    apply zsum_nonneg, Forall_fmap. done. }
  assert (Forall (λ pod, pr_MemoryRequest (CalculatePodResource pod) = pod_memory pod ∧
    0 ≤ pod_memory pod ≤ raw pod)%Z (pods a)) as Hall.
  { rewrite Forall_forall in Hpos |- *. intros p Hp. split; [|by apply pod_memory_bounds, Hpos].
    apply pod_memory_exact; [by apply Hpos|].
    assert (raw p ∈ raw <$> pods a) as Hin by (apply list_elem_of_fmap; eauto).
    pose proof (elem_of_zsum_le _ _ Hraw Hin). fold (raw p). lia. }
  split; [eapply Forall_impl; [exact Hall|]; by intros ? []|].
  unfold GetMemoryRequest.
  assert ((λ pod, Z.quot (Z.quot (pr_MemoryRequest (CalculatePodResource pod)) 1024) 1024) <$>
    pods a = (λ pod, pod_memory pod / (1024 * 1024))%Z <$> pods a) as <-.
  { apply list_fmap_ext. intros i p Hp%list_elem_of_lookup_2.
    rewrite Forall_forall in Hall. destruct (Hall p Hp) as [-> ?].
    rewrite Z.quot_quot, Z.quot_div_nonneg; lia. }
  rewrite foldl_int64_sum; [lia|lia| |].
  - eapply Forall_impl; [exact Hall|]. intros p [-> ?]. simpl.
    rewrite Z.quot_quot, Z.quot_div_nonneg by lia. apply Z.div_pos; lia.
  - eapply Z.le_lt_trans; [|exact Hfit]. rewrite Z.add_0_l.
    apply zsum_le, Forall2_fmap, Forall_Forall2_diag.
    eapply Forall_impl; [exact Hall|]. intros p [-> ?]. simpl.
    rewrite Z.quot_quot, Z.quot_div_nonneg by lia.
    pose proof (Z.div_le_upper_bound (pod_memory p) (1024 * 1024) (raw p)). lia.
Qed.

(** ** Witnesses *)

Definition demo_meta (n : string) : ObjectMeta := mkMeta n "tenant" "" "" ∅ ∅ 0 None None "".
Definition demo_base : AppServiceBase :=
  mkBase "tenant" "" "" "svc" "svc" "" "" "v1" 0 0 "" 1 false false "" [] ∅ "".
Definition demo_container : Container := mkContainer "c" "img" 2097152 100 0 0 None None [] [] [] [] [] false [].
Definition demo_pod (n : string) : Pod :=
  mkPod (demo_meta n) "node" [demo_container; demo_container] "Running" "" "" [] [] [].
Definition demo_plain (n : string) : Plain := mkPlain (demo_meta n) "".
Definition demo_workload : Workload :=
  mkWorkload (demo_meta "web") (Some 2%Z) (mkTemplate ∅ [demo_container] [] "" ∅ zero_podspec) 2 ∅ "" "" [] "".
Definition demo_app : AppService :=
  (empty_app demo_base) <| pods := [demo_pod "p1"; demo_pod "p2"] |>
    <| secrets := [demo_plain "s1"; demo_plain "s2"] |>.

Lemma wf_demo_app : wf demo_app.
Proof. split; simpl; unfold uniq; simpl; apply (bool_decide_unpack _); vm_compute; exact I. Qed.

Lemma cache_refines_maps_witness :
  view (SetPods (demo_pod "p3") demo_app) =
  spec_op "tenant" (OpSetPods (demo_pod "p3")) (view demo_app).
Proof. exact (proj1 (proj2 (cache_refines_maps (OpSetPods (demo_pod "p3")) demo_app wf_demo_app))). Defined.

Lemma cache_history_witness :
  ∃ a, run_ops [OpSetPods (demo_pod "p1"); OpSetDeployment demo_workload;
                OpSetPods (demo_pod "p2"); OpDeletePods (demo_pod "p1")]
         (empty_app demo_base) = Ok a ∧
    GetPodsByName "p1" a = None ∧ Replicas a = 2%Z ∧ wf a.
Proof.
  eexists. split; [reflexivity|]. split; [reflexivity|]. split; [reflexivity|].
  eapply (cache_history demo_base [OpSetPods (demo_pod "p1"); OpSetDeployment demo_workload;
    OpSetPods (demo_pod "p2"); OpDeletePods (demo_pod "p1")]). reflexivity.
Defined.

Lemma deleted_resources_exact_witness :
  GetDelSecrets (SetDeletedResources (Some demo_app)
    ((empty_app demo_base) <| secrets := [demo_plain "s2"] |>)) = [demo_plain "s1"] ∧
  ∀ o, o ∈ [demo_plain "s1"] ↔
    o ∈ [demo_plain "s1"; demo_plain "s2"] ∧ pl_name o ∉ ["s2"%string].
Proof.
  split; [reflexivity|].
  apply (proj1 (proj2 (deleted_resources_exact demo_app
    ((empty_app demo_base) <| secrets := [demo_plain "s2"] |>)
    ltac:(repeat split; reflexivity)))).
Defined.

Lemma storage_class_copies_witness :
  storageClasses (DeleteStorageClass (demo_plain "ssd")
    (Nat.iter 2 (SetStorageClass (demo_plain "ssd")) demo_app)) = [demo_plain "ssd"].
Proof. exact (proj2 (storage_class_copies (demo_plain "ssd") 2 demo_app eq_refl)). Defined.

Lemma memory_request_exact_witness : GetMemoryRequest demo_app = 8%Z.
Proof.
  rewrite (proj2 (memory_request_exact demo_app
    ltac:(repeat constructor; discriminate) ltac:(vm_compute; reflexivity))).
  reflexivity.
Defined.
