(* ===== verification/AppStatus.v ===== *)
(** * The status of a component, computed from its cached objects

    [worker/appm/types/v1/status.go] and [pod_status.go]. *)
From S2P Require Import Prelude Kube AppService.

(** These methods are called by [status.go] and [store.go] but declared by no
    file of the package. *)
Class ComponentKinds := {
  IsCustomComponent : AppService → bool;
  IsThirdComponent : AppService → bool;
  SetWorkload : runtime_object → AppService → AppService;
  DeleteWorkload : runtime_object → AppService → AppService
}.

Definition RUNNING : string := "running".
Definition CLOSED : string := "closed".
Definition STARTING : string := "starting".
Definition STOPPING : string := "stopping".
Definition ABNORMAL : string := "abnormal".
Definition SOMEABNORMAL : string := "some_abnormal".
Definition UNKNOW : string := "unknow".
Definition UPGRADE : string := "upgrade".
Definition BUILDING : string := "building".
Definition BUILDEFAILURE : string := "build_failure".
Definition UNDEPLOY : string := "undeploy".

(** ** Pods *)

Definition IsPodTerminated (pod : Pod) : bool :=
  bool_decide (pod_Phase pod ∉ ["Pending"; "Running"; "Unknown"]%string).

Definition IsPodNodeLost (pod : Pod) : bool :=
  match m_DeletionTimestamp (pod_meta pod) with
  | Some _ => bool_decide (pod_Reason pod = "NodeLost"%string)
  | None => false
  end.

(** One container terminated with an error, or was restarted. *)
Definition terminated_abnormally (con : ContainerStatus) : bool :=
  match st_Terminated (cs_State con) with
  | Some t => negb (bool_decide (t_ExitCode t = 0%Z))
  | None => false
  end ||
  match st_Terminated (cs_LastTerminationState con) with Some _ => true | None => false end.

Definition isHaveTerminatedContainer (pods : list Pod) : bool :=
  existsb (λ pod, existsb terminated_abnormally (pod_ContainerStatuses pod)) pods.

Definition terminated_normally (con : ContainerStatus) : bool :=
  match st_Terminated (cs_State con) with
  | Some t => bool_decide (t_ExitCode t = 0%Z)
  | None => false
  end.

Definition isHaveNormalTerminatedContainer (pods : list Pod) : bool :=
  existsb (λ pod, existsb terminated_normally (pod_ContainerStatuses pod)) pods.

(** ** Replicas and versions *)

Definition workload_ready (w : option Workload) (a : AppService) : bool :=
  match w with
  | Some w => bool_decide (int32 (Replicas a) ≤ wl_ReadyReplicas w)%Z
  | None => false
  end.

Definition Ready (a : AppService) : bool :=
  workload_ready (statefulset a) a || workload_ready (deployment a) a.

Definition GetReadyReplicas (a : AppService) : Z :=
  match statefulset a with
  | Some s => wl_ReadyReplicas s
  | None => match deployment a with Some d => wl_ReadyReplicas d | None => 0 end
  end.

Definition GetRunningVersion (a : AppService) : string :=
  match statefulset a with
  | Some s => get_str (m_Labels (wl_meta s)) "version"
  | None =>
    match deployment a with
    | Some d => get_str (m_Labels (wl_meta d)) "version"
    | None => ""
    end
  end.

Definition at_version (a : AppService) (pod : Pod) : bool :=
  bool_decide (get_str (m_Labels (pod_meta pod)) "version" = DeployVersion a).

Definition UpgradeComlete (a : AppService) : bool :=
  if forallb (at_version a) (pods a) then Ready a else false.

(** ** Closed components *)

Definition IsEmpty (a : AppService) : bool :=
  bool_decide (pods a = []) || forallb IsPodNodeLost (pods a).

Definition unsaved (w : option Workload) : bool :=
  match w with
  | Some w => bool_decide (m_ResourceVersion (wl_meta w) = ""%string)
  | None => false
  end.

Definition is_none {A} (o : option A) : bool :=
  match o with None => true | Some _ => false end.

Section status.
Context `{ComponentKinds}.

Definition IsClosed (a : AppService) : bool :=
  if IsCustomComponent a then is_none (workload a)
  else if IsThirdComponent a then bool_decide (endpoints a = [])
  else if IsEmpty a && is_none (statefulset a) && is_none (deployment a) then true
  else if IsEmpty a && unsaved (statefulset a) then true
  else IsEmpty a && unsaved (deployment a).

Definition conversionThirdComponent (o : runtime_object) : option component_phase :=
  match o with
  | ROThird _ phase => Some phase
  | ROUnstructured _ decoded => decoded
  | ROOther _ => None
  end.

Definition runtime_kind (o : runtime_object) : string :=
  match o with ROThird k _ | ROUnstructured k _ | ROOther k => k end.

Definition custom_status (a : AppService) : string :=
  match workload a with
  | None => CLOSED
  | Some o =>
    if decide (runtime_kind o = "ThirdComponent"%string) then
      match conversionThirdComponent o with
      | Some PhaseFailed => ABNORMAL
      | Some PhaseRunning => RUNNING
      | Some PhasePending => STARTING
      | _ => RUNNING
      end
    else RUNNING
  end.

Definition third_status (a : AppService) : string :=
  match GetEndpoints a with
  | [] => CLOSED
  | eps =>
    let size := foldl (λ n ed,
      foldl (λ n s, n + Z.of_nat (length (ss_Addresses s)))%Z n (ep_Subsets ed)) 0%Z eps in
    if decide (0 < size)%Z then RUNNING else ABNORMAL
  end.

(** The last branches: fewer ready replicas than asked for. *)
Definition unready_status (bad : string) (a : AppService) : string :=
  if isHaveTerminatedContainer (pods a) then bad
  else if isHaveNormalTerminatedContainer (pods a) then STOPPING
  else STARTING.

Definition some_unready (w : option Workload) (a : AppService) : bool :=
  match w with
  | Some w => bool_decide (wl_ReadyReplicas w < int32 (Replicas a) ∧ wl_ReadyReplicas w ≠ 0)%Z
  | None => false
  end.

Definition none_ready (w : option Workload) : bool :=
  match w with Some w => bool_decide (wl_ReadyReplicas w = 0)%Z | None => false end.

Definition GetServiceStatus (a : AppService) : string :=
  let n := Z.of_nat (length (pods a)) in
  let done := if UpgradeComlete a then RUNNING else UPGRADE in
  if IsCustomComponent a then custom_status a
  else if IsThirdComponent a then third_status a
  else if IsClosed a then CLOSED
  else if is_none (statefulset a) && is_none (deployment a) && bool_decide (0 < n)%Z
  then STOPPING
  else if (negb (is_none (statefulset a)) || negb (is_none (deployment a))) &&
          bool_decide (n < Replicas a)%Z
  then STARTING
  else if workload_ready (statefulset a) a then done
  else if workload_ready (deployment a) a then done
  else if some_unready (deployment a) a then unready_status SOMEABNORMAL a
  else if none_ready (deployment a) then unready_status ABNORMAL a
  else if some_unready (statefulset a) a then unready_status SOMEABNORMAL a
  else if none_ready (statefulset a) then unready_status ABNORMAL a
  else UNKNOW.
End status.

(** [IsWaitting]: the probe init container has not finished yet.  [image] is
    [GetProbeMeshImageName()], which reads the environment. *)
Definition probe_unfinished (image : string) (con : ContainerStatus) : bool :=
  bool_decide (cs_Image con = image) &&
  match st_Terminated (cs_State con) with
  | Some t => negb (bool_decide (t_ExitCode t = 0%Z))
  | None => true
  end.

Definition init_containers (w : option Workload) : option (list Container) :=
  (λ w, pt_InitContainers (wl_Template w)) <$> w.

Definition IsWaitting (image : string) (a : AppService) : bool :=
  match init_containers (statefulset a), init_containers (deployment a) with
  | Some [], _ => false
  | _, Some [] => false
  | s, d =>
    let initcontainer := match d with Some l => l | None => default [] s end in
    if existsb (λ c, bool_decide (c_Image c = image)) initcontainer then
      match pods a with
      | [] => true
      | firstPod :: _ => existsb (probe_unfinished image) (pod_InitContainerStatuses firstPod)
      end
    else false
  end.

(** ** Lemmas *)

Lemma is_none_None {A} (o : option A) : is_none o = true ↔ o = None.
Proof. by destruct o. Qed.

Lemma is_empty_iff a : IsEmpty a = true ↔ Forall (λ p, IsPodNodeLost p = true) (pods a).
Proof.
  unfold IsEmpty. rewrite orb_true_iff, bool_decide_eq_true, forallb_forall, Forall_forall.
  split.
  - intros [->|H] p Hp; [by apply not_elem_of_nil in Hp|]. by apply H, list_elem_of_In.
  - intros H. right. intros p Hp. by apply H, list_elem_of_In.
Qed.

Lemma upgrade_complete_iff a :
  UpgradeComlete a = true ↔ Ready a = true ∧ Forall (λ p, at_version a p = true) (pods a).
Proof.
  unfold UpgradeComlete. destruct (forallb _ _) eqn:E.
  - rewrite forallb_forall in E. split; [intros Hr|by intros []]. split; [done|].
    apply Forall_forall. intros p Hp. by apply E, list_elem_of_In.
  - split; [done|]. intros [_ H]. rewrite Forall_forall in H.
    assert (forallb (at_version a) (pods a) = true); [|congruence].
    apply forallb_forall. intros p Hp. by apply H, list_elem_of_In.
Qed.

(** One comparison of ready against wanted replicas always applies. *)
Lemma workload_cases (w : Workload) a :
  workload_ready (Some w) a = true ∨
  workload_ready (Some w) a = false ∧ some_unready (Some w) a = true ∨
  workload_ready (Some w) a = false ∧ some_unready (Some w) a = false ∧ none_ready (Some w) = true.
Proof.
  simpl. destruct (decide (int32 (Replicas a) ≤ wl_ReadyReplicas w)%Z).
  { left. by apply bool_decide_eq_true. }
  right. rewrite (bool_decide_eq_false_2 (int32 (Replicas a) ≤ _)%Z) by done.
  destruct (decide (wl_ReadyReplicas w = 0)%Z).
  - right. split_and!; [done|apply bool_decide_eq_false|by apply bool_decide_eq_true].
    by intros [].
  - left. split; [done|]. apply bool_decide_eq_true. split; [lia|done].
Qed.

Section status_lemmas.
Context `{ComponentKinds}.

(** A component run by a StatefulSet or a Deployment. *)
Definition built_in (a : AppService) : Prop :=
  IsCustomComponent a = false ∧ IsThirdComponent a = false.

(** It is neither closed nor short of pods, and has a workload. *)
Definition populated (a : AppService) : Prop :=
  IsClosed a = false ∧ (statefulset a ≠ None ∨ deployment a ≠ None) ∧
  (Replicas a ≤ Z.of_nat (length (pods a)))%Z.

Lemma closed_without_pods a :
  built_in a → statefulset a = None → deployment a = None → pods a = [] → IsClosed a = true.
Proof.
  intros [H1 H2] Hs Hd Hp. unfold IsClosed. rewrite H1, H2, Hs, Hd.
  unfold IsEmpty. by rewrite Hp.
Qed.

(** For built-in components, the branches of [GetServiceStatus] by what
    holds of the component. *)
Lemma status_cases a : built_in a →
  IsClosed a = true ∧ GetServiceStatus a = CLOSED ∨
  IsClosed a = false ∧ statefulset a = None ∧ deployment a = None ∧
    GetServiceStatus a = STOPPING ∨
  IsClosed a = false ∧ (statefulset a ≠ None ∨ deployment a ≠ None) ∧
    (Z.of_nat (length (pods a)) < Replicas a)%Z ∧ GetServiceStatus a = STARTING ∨
  populated a ∧ Ready a = true ∧
    GetServiceStatus a = (if UpgradeComlete a then RUNNING else UPGRADE) ∨
  populated a ∧ Ready a = false ∧
    ∃ bad, (bad = ABNORMAL ∨ bad = SOMEABNORMAL) ∧ GetServiceStatus a = unready_status bad a.
Proof.
  intros Hb. pose proof (closed_without_pods a Hb) as Hnp. destruct Hb as [H1 H2].
  unfold GetServiceStatus. rewrite H1, H2. destruct (IsClosed a) eqn:Hc; [by left|right].
  destruct (statefulset a) as [s|] eqn:Hs, (deployment a) as [d|] eqn:Hd;
    cbn [is_none negb andb orb].
  4: { rewrite bool_decide_eq_true_2; [by left|].
       destruct (pods a); [specialize (Hnp eq_refl eq_refl eq_refl); congruence|simpl; lia]. }
  all: right; case_bool_decide; [left; split_and!; naive_solver|right].
  all: assert (populated a) by (unfold populated; rewrite Hs, Hd; split_and!; [done|naive_solver|lia]).
  all: unfold Ready; rewrite Hs, Hd.
  - destruct (workload_ready (Some s) a) eqn:?; [left; done|].
    destruct (workload_cases d a) as [->|[[-> ->]|(-> & -> & ->)]]; [left; done|right; eauto 6..].
  - destruct (workload_cases s a) as [->|[[-> ->]|(-> & -> & ->)]]; [left; done|right; eauto 6..].
  - destruct (workload_cases d a) as [->|[[-> ->]|(-> & -> & ->)]]; [left; done|right; eauto 6..].
Qed.

Lemma unready_status_cases bad a :
  unready_status bad a = bad ∧ isHaveTerminatedContainer (pods a) = true ∨
  isHaveTerminatedContainer (pods a) = false ∧
    (unready_status bad a = STOPPING ∨ unready_status bad a = STARTING).
Proof.
  unfold unready_status. destruct (isHaveTerminatedContainer _); [by left|right].
  destruct (isHaveNormalTerminatedContainer _); auto.
Qed.

(** The container has exited with an error, or was restarted. *)
Definition failed_container (c : ContainerStatus) : Prop :=
  (∃ t, st_Terminated (cs_State c) = Some t ∧ t_ExitCode t ≠ 0%Z) ∨
  is_Some (st_Terminated (cs_LastTerminationState c)).

Lemma terminated_abnormally_iff c : terminated_abnormally c = true ↔ failed_container c.
Proof.
  unfold terminated_abnormally, failed_container. rewrite orb_true_iff.
  destruct (st_Terminated (cs_State c)) as [t|], (st_Terminated (cs_LastTerminationState c));
    rewrite ?negb_true_iff, ?bool_decide_eq_false; unfold is_Some; naive_solver.
Qed.

Lemma terminated_container_iff l :
  isHaveTerminatedContainer l = true ↔
  Exists (λ p, Exists failed_container (pod_ContainerStatuses p)) l.
Proof.
  unfold isHaveTerminatedContainer. rewrite existsb_exists, Exists_exists.
  setoid_rewrite list_elem_of_In. setoid_rewrite existsb_exists.
  setoid_rewrite Exists_exists. setoid_rewrite terminated_abnormally_iff.
  by setoid_rewrite list_elem_of_In.
Qed.

Ltac status_neq := unfold RUNNING, CLOSED, STARTING, STOPPING, ABNORMAL, SOMEABNORMAL,
  UNKNOW, UPGRADE in *; congruence.

Lemma populated_open a : populated a → IsClosed a = false.
Proof. by intros []. Qed.

Lemma status_in (a : AppService) : GetServiceStatus a ∈
  [CLOSED; STOPPING; STARTING; RUNNING; UPGRADE; ABNORMAL; SOMEABNORMAL].
Proof.
  destruct (IsCustomComponent a) eqn:H1.
  { unfold GetServiceStatus. rewrite H1. unfold custom_status.
    repeat case_match; rewrite !elem_of_cons; tauto. }
  destruct (IsThirdComponent a) eqn:H2.
  { unfold GetServiceStatus. rewrite H1, H2. unfold third_status.
    repeat case_match; rewrite !elem_of_cons; tauto. }
  destruct (status_cases a) as
    [[_ ->]|[(_ & _ & _ & ->)|[(_ & _ & _ & ->)|[(_ & _ & ->)|(_ & _ & bad & Hbad & ->)]]]];
    [done|rewrite ?elem_of_cons; tauto..| |].
  { destruct (UpgradeComlete a); rewrite !elem_of_cons; tauto. }
  destruct (unready_status_cases bad a) as [[-> _]|[_ [->| ->]]];
    [destruct Hbad as [->| ->]| |]; rewrite !elem_of_cons; tauto.
Qed.

Lemma status_known (a : AppService) : GetServiceStatus a ≠ UNKNOW.
Proof.
  intros Hu. pose proof (status_in a) as Hin. rewrite Hu in Hin.
  revert Hin. apply (bool_decide_unpack _). by vm_compute.
Qed.

(** ** Properties *)

(** The final [return UNKNOW] is dead code; every component
    gets one of seven definite statuses.  So the branch of the store
    that refreshes a component of unknown status is never taken. *)
Theorem status_definite (a : AppService) :
  GetServiceStatus a ≠ UNKNOW ∧
  GetServiceStatus a ∈
    [CLOSED; STOPPING; STARTING; RUNNING; UPGRADE; ABNORMAL; SOMEABNORMAL].
Proof. split; [apply status_known|apply status_in]. Qed.

(** A built-in component is closed exactly when all its
    pods were lost with their node and none of its workloads has been saved
    by the cluster. *)
Theorem is_closed_iff (a : AppService) (Hb : built_in a) :
  IsClosed a = true ↔
  Forall (λ p, IsPodNodeLost p = true) (pods a) ∧
  (statefulset a = None ∧ deployment a = None ∨
   unsaved (statefulset a) = true ∨ unsaved (deployment a) = true).
Proof.
  destruct Hb as [H1 H2]. unfold IsClosed. rewrite H1, H2, <- is_empty_iff.
  rewrite <- (is_none_None (statefulset a)), <- (is_none_None (deployment a)).
  destruct (IsEmpty a), (is_none (statefulset a)), (is_none (deployment a)),
    (unsaved (statefulset a)), (unsaved (deployment a)); simpl; intuition congruence.
Qed.
(** C8 (functional): the status of a built-in component.  CLOSED: all its pods, if
    any, were lost with their node, and it has no workload or one the cluster has not
    saved.  RUNNING: it is not closed, has a workload and at least as many pods as
    replicas, a workload of it has at least as many ready replicas, and every pod
    carries the component's deploy version.  UPGRADE: the same, but some pod carries
    another version. *)
Theorem status_running_iff (a : AppService) (Hb : built_in a) :
  (GetServiceStatus a = CLOSED ↔
     Forall (λ p, IsPodNodeLost p = true) (pods a) ∧
     (statefulset a = None ∧ deployment a = None ∨
      unsaved (statefulset a) = true ∨ unsaved (deployment a) = true)) ∧
  (GetServiceStatus a = RUNNING ↔
     populated a ∧ Ready a = true ∧ Forall (λ p, at_version a p = true) (pods a)) ∧
  (GetServiceStatus a = UPGRADE ↔
     populated a ∧ Ready a = true ∧ ¬ Forall (λ p, at_version a p = true) (pods a)).
Proof.
  rewrite <- (is_closed_iff a Hb).
  pose proof (upgrade_complete_iff a) as Hu. pose proof (populated_open a) as Ho.
  destruct (status_cases a Hb) as
    [[Hc ->]|[(Hc & Hs & Hd & ->)|[(Hc & _ & Hl & ->)|[(Hp & Hr & ->)|(Hp & Hr & bad & Hbad & ->)]]]].
  - split_and!; split; try done; intros [? _]; rewrite Ho in Hc; done.
  - split_and!; split; try status_neq; intros ((_ & [?|?] & _) & _); congruence.
  - split_and!; split; try status_neq; intros ((_ & _ & ?) & _); lia.
  - specialize (Ho Hp). rewrite Hr in Hu. destruct (UpgradeComlete a).
    + destruct Hu as [Hu _]. destruct (Hu eq_refl) as [_ Hall].
      split_and!; split; try status_neq; [done|]. by intros (_ & _ & []).
    + assert (¬ Forall (λ p, at_version a p = true) (pods a))
        by (intros Hall; by destruct Hu as [_ Hu]; discriminate Hu).
      split_and!; split; try status_neq; [|done]. by intros (_ & _ & ?).
  - specialize (Ho Hp). assert (unready_status bad a ∈ [ABNORMAL; SOMEABNORMAL; STOPPING; STARTING])
      as Hin.
    { destruct (unready_status_cases bad a) as [[-> _]|[_ [->| ->]]];
        [destruct Hbad as [->| ->]| |]; rewrite !elem_of_cons; tauto. }
    rewrite !elem_of_cons in Hin.
    split_and!; split; try (intros; congruence); try (intros (_ & ? & _); congruence);
      intros Heq; destruct Hin as [Hx|[Hx|[Hx|[Hx|Hx%not_elem_of_nil]]]]; try done; status_neq.
Qed.

(** A built-in component is reported abnormal (wholly or in
    part) exactly when it is populated, not ready, and some container of some
    pod has exited with an error or been restarted. *)
Theorem status_abnormal_iff (a : AppService) (Hb : built_in a) :
  GetServiceStatus a = ABNORMAL ∨ GetServiceStatus a = SOMEABNORMAL ↔
  populated a ∧ Ready a = false ∧
  Exists (λ p, Exists failed_container (pod_ContainerStatuses p)) (pods a).
Proof.
  rewrite <- terminated_container_iff.
  destruct (status_cases a Hb) as
    [[Hc ->]|[(Hc & Hs & Hd & ->)|[(Hc & _ & Hl & ->)|[(Hp & Hr & ->)|(Hp & Hr & bad & Hbad & ->)]]]].
  - split; [intros [?|?]; status_neq|intros ((? & _) & _); congruence].
  - split; [intros [?|?]; status_neq|intros ((_ & [?|?] & _) & _); congruence].
  - split; [intros [?|?]; status_neq|intros ((_ & _ & ?) & _); lia].
  - split; [|intros (_ & ? & _); congruence].
    destruct (UpgradeComlete a); intros [?|?]; status_neq.
  - destruct (unready_status_cases bad a) as [[Hx Ht]|[Ht [Hx|Hx]]]; rewrite Hx, Ht.
    + split; [done|]. intros _. destruct Hbad; auto.
    + split; [intros [?|?]; status_neq|by intros (_ & _ & ?)].
    + split; [intros [?|?]; status_neq|by intros (_ & _ & ?)].
Qed.

End status_lemmas.

(** ** Witnesses *)

Definition demo_kinds : ComponentKinds :=
  {| IsCustomComponent a := false; IsThirdComponent a := false;
     SetWorkload o a := a <| workload := Some o |>;
     DeleteWorkload o a := a <| workload := None |> |}.
#[local] Existing Instance demo_kinds.

Definition demo_running : AppService :=
  demo_app <| deployment := Some (demo_workload <| wl_meta ::= λ m, m <| m_ResourceVersion := "7" |> |>) |>
    <| base ::= λ b, b <| b_DeployVersion := "" |> <| b_Replicas := 2%Z |> |>.

Definition demo_crashed_pod : Pod :=
  mkPod (demo_meta "p1") "node" [] "Running" "" "" []
    [mkCStatus "c" "img" false (mkCState None (Some (mkTerminated 1 "Error" "")))
       (mkCState None None)] [].

Definition demo_crashed : AppService :=
  demo_running <| pods := [demo_crashed_pod; demo_pod "p2"] |>
    <| deployment ::= fmap (λ w, w <| wl_ReadyReplicas := 1%Z |>) |>.

Lemma status_running_iff_witness :
  GetServiceStatus demo_running = RUNNING ∧ populated demo_running ∧ Ready demo_running = true.
Proof.
  split; [reflexivity|].
  assert (populated demo_running ∧ Ready demo_running = true ∧
    Forall (λ p, at_version demo_running p = true) (pods demo_running)) as (? & ? & _);
    [|by split].
  apply (proj1 (proj2 (status_running_iff demo_running ltac:(by split)))). reflexivity.
Defined.

Lemma status_abnormal_iff_witness :
  GetServiceStatus demo_crashed = SOMEABNORMAL ∧ Ready demo_crashed = false.
Proof.
  split; [reflexivity|].
  apply (status_abnormal_iff demo_crashed ltac:(by split)). right. reflexivity.
Defined.

Lemma is_closed_iff_witness :
  IsClosed (empty_app demo_base) = true ∧ IsClosed demo_running = false.
Proof.
  split; [|reflexivity].
  apply (is_closed_iff (empty_app demo_base) ltac:(by split)).
  split; [constructor|left; by split].
Defined.
