(* ===== verification/Patch.v ===== *)
(** * The upgrade patch of a workload

    [worker/appm/types/v1/patch.go]: the difference of two workloads, as the
    JSON merge patch that is sent to the cluster. *)
From S2P Require Import Prelude Kube AppService.

(** ** JSON *)

(** A value that is not an object is kept as its text. *)
Inductive json :=
  | JVal (text : string)
  | JObj (fields : list (string * json)).

Definition null : json := JVal "null".

Section json_ind.
Context (P : json → Prop).
Context (Hval : ∀ t, P (JVal t)) (Hobj : ∀ fs, Forall (λ kv, P kv.2) fs → P (JObj fs)).

Fixpoint json_ind' (j : json) : P j :=
  match j with
  | JVal t => Hval t
  | JObj fs => Hobj fs
      ((fix go fs : Forall (λ kv, P kv.2) fs :=
          match fs with
          | [] => Forall_nil_2 _
          | (k, v) :: fs' => Forall_cons_2 _ (k, v) fs' (json_ind' v) (go fs')
          end) fs)
  end.
End json_ind.

Fixpoint json_eqb (x y : json) : bool :=
  match x, y with
  | JVal s, JVal t => bool_decide (s = t)
  | JObj fs, JObj gs =>
    (fix go fs gs :=
       match fs, gs with
       | [], [] => true
       | (k, v) :: fs', (l, w) :: gs' => bool_decide (k = l) && json_eqb v w && go fs' gs'
       | _, _ => false
       end) fs gs
  | _, _ => false
  end.

Lemma json_eqb_eq x y : json_eqb x y = true ↔ x = y.
Proof.
  revert y. induction x as [t|fs IH] using json_ind'; intros [u|gs]; simpl; try done.
  { rewrite bool_decide_eq_true. naive_solver. }
  assert (∀ gs, (fix go fs gs :=
       match fs, gs with
       | [], [] => true
       | (k, v) :: fs', (l, w) :: gs' => bool_decide (k = l) && json_eqb v w && go fs' gs'
       | _, _ => false
       end) fs gs = true ↔ fs = gs) as ->; [|naive_solver].
  clear gs. induction IH as [|[k v] fs Hv _ IH]; intros [|[l w] gs]; try done. simpl in *.
  rewrite !andb_true_iff, bool_decide_eq_true, Hv, IH. naive_solver.
Qed.

#[export] Instance json_eq_dec : EqDecision json.
Proof.
  intros x y. destruct (json_eqb x y) eqn:E; [left|right].
  - by apply json_eqb_eq.
  - intros ->. apply not_true_iff_false in E. apply E. by apply json_eqb_eq.
Defined.

Fixpoint field {A} (k : string) (fs : list (string * A)) : option A :=
  match fs with
  | [] => None
  | (k', v) :: fs' => if decide (k = k') then Some v else field k fs'
  end.

(** ** The difference of two documents *)

(** [body] is the text a node was decoded from, [None] for the zero node; the
    encoder's texts are compared as the values they stand for. *)
Inductive EncodeNode :=
  mkNode (body : option json) (value : option string) (Field : option (list (string * EncodeNode))).

Definition e_body (e : EncodeNode) : option json := match e with mkNode b _ _ => b end.
Definition e_value (e : EncodeNode) : option string := match e with mkNode _ v _ => v end.
Definition e_Field (e : EncodeNode) : option (list (string * EncodeNode)) :=
  match e with mkNode _ _ f => f end.

Definition zero_node : EncodeNode := mkNode None None None.

(** [UnmarshalJSON] *)
Fixpoint decode (j : json) : EncodeNode :=
  match j with
  | JVal t => mkNode (Some j) (Some t) None
  | JObj fs => mkNode (Some j) None (Some (map (λ '(k, v), (k, decode v)) fs))
  end.

(** [MarshalJSON]; [None] is the "marshal error" of a node with neither a
    value nor fields. *)
Fixpoint MarshalJSON (e : EncodeNode) : option json :=
  match e with
  | mkNode _ (Some t) _ => Some (JVal t)
  | mkNode _ None (Some fs) =>
    JObj <$> (fix go fs :=
      match fs with
      | [] => Some []
      | (k, v) :: fs' =>
        match MarshalJSON v, go fs' with
        | Some j, Some js => Some ((k, j) :: js)
        | _, _ => None
        end
      end) fs
  | mkNode _ None None => None
  end.

(** [old.Field[k]]: a missing key, or a nil map, reads as the zero node. *)
Definition old_field (old : EncodeNode) (k : string) : EncodeNode :=
  default zero_node (e_Field old ≫= field k).

Fixpoint getChange (old new : EncodeNode) {struct new} : option EncodeNode :=
  match new with
  | mkNode body value Field =>
    if decide (e_body old = body) then None else
    match e_Field old, Field with
    | None, None => Some (if decide (e_value old = value) then zero_node else mkNode None value None)
    | _, None | _, Some [] => Some zero_node
    | _, Some fs =>
      Some (mkNode None None (Some ((fix go fs :=
        match fs with
        | [] => []
        | (k, v) :: fs' =>
          match getChange (old_field old k) v with
          | Some c => (k, c) :: go fs'
          | None => go fs'
          end
        end) fs)))
    end
  end.

(** [getchange]: a nil change is marshalled as null. *)
Definition getchange (old new : json) : option json :=
  match getChange (decode old) (decode new) with
  | None => Some null
  | Some c => MarshalJSON c
  end.

Definition quote : string := String (Ascii.ascii_of_nat 34) "".

(** The text of a patch; the code writes the keys in the order in which the
    map yields them. *)
Fixpoint print (j : json) : string :=
  match j with
  | JVal t => t
  | JObj fs =>
    ("{" +:+ (fix go (fs : list (string * json)) : string :=
      match fs with
      | [] => ""
      | (k, v) :: fs' =>
        quote +:+ k +:+ quote +:+ ":" +:+ print v +:+
        match fs' with [] => "" | _ => "," +:+ go fs' end
      end) fs +:+ "}")%string
  end.

(** ** Patching a workload *)

Definition isContainsBootSequence (l : list Container) : bool :=
  existsb (λ c, str_contains (c_Name c) "probe-mesh-") l.

Section upgrade.
(** The JSON encodings of a stateful set restricted to its fields that may be
    patched, and of a deployment. *)
Context (encode_statefulset encode_deployment : Workload → json).

(** An old component started after others has a boot container; the new one
    must keep it. *)
Definition keep_boot_sequence (boot : option Container) (old new : Workload) : Workload :=
  match boot with
  | Some c =>
    if isContainsBootSequence (pt_InitContainers (wl_Template old)) &&
       negb (isContainsBootSequence (pt_InitContainers (wl_Template new)))
    then new <| wl_Template ::= λ t, t <| pt_InitContainers ::= λ l, l ++ [c] |> |>
    else new
  | None => new
  end.

(** [old.Status = new.Status] writes into the cached workload. *)
Definition copy_status (new old : Workload) : Workload :=
  old <| wl_ReadyReplicas := wl_ReadyReplicas new |>.

Definition no_upgrade : error := EMsg "no upgrade".

(** One of the two branches: the changed old and new workloads, and the patch. *)
Definition workload_patch (encode : Workload → json) (boot : option Container) (old new : Workload) :
    Workload * Workload * (error + string) :=
  let new := keep_boot_sequence boot old new in
  let old := copy_status new old in
  (old, new,
   match getchange (encode old) (encode new) with
   | None => inl (EMsg "marshal error")
   | Some p => if decide (print p = ""%string) then inl no_upgrade else inr (print p)
   end).

(** The receiver and the argument after the call, and the error. *)
Definition patch_statefulset (a new : AppService) : AppService * AppService * option error :=
  match statefulset a, statefulset new with
  | Some old, Some n =>
    let '(old, n, r) := workload_patch encode_statefulset (BootSeqContainer new) old n in
    let a := a <| statefulset := Some old |> in
    let new := new <| statefulset := Some n |> in
    match r with
    | inl e => (a, new, Some e)
    | inr p => (a, new <| UpgradePatch ::= <["statefulset"%string := p]> |>, None)
    end
  | _, _ => (a, new, None)
  end.

Definition patch_deployment (a new : AppService) : AppService * AppService * option error :=
  match deployment a, deployment new with
  | Some old, Some n =>
    let '(old, n, r) := workload_patch encode_deployment (BootSeqContainer new) old n in
    let a := a <| deployment := Some old |> in
    let new := new <| deployment := Some n |> in
    match r with
    | inl e => (a, new, Some e)
    | inr p => (a, new <| UpgradePatch ::= <["deployment"%string := p]> |>, None)
    end
  | _, _ => (a, new, None)
  end.

Definition SetUpgradePatch (a new : AppService) : AppService * AppService * option error :=
  match patch_statefulset a new with
  | (a, new, Some e) => (a, new, Some e)
  | (a, new, None) =>
    match patch_deployment a new with
    | (a, new, Some e) => (a, new, Some e)
    | (a, new, None) => (a <| base := base new |>, new, None)
    end
  end.
End upgrade.

(** ** Merge patches (RFC 7386), as the API server applies them *)

Fixpoint set_field_at (k : string) (v : json) (fs : list (string * json)) : list (string * json) :=
  match fs with
  | [] => [(k, v)]
  | (k', w) :: fs' => if decide (k = k') then (k, v) :: fs' else (k', w) :: set_field_at k v fs'
  end.

Definition remove_field (k : string) (fs : list (string * json)) : list (string * json) :=
  filter (λ kv, kv.1 ≠ k) fs.

Definition fields_of (j : json) : list (string * json) :=
  match j with JObj fs => fs | JVal _ => [] end.

Fixpoint merge_patch (target patch : json) {struct patch} : json :=
  match patch with
  | JVal t => JVal t
  | JObj ps =>
    JObj ((fix go fs ps :=
      match ps with
      | [] => fs
      | (k, v) :: ps' =>
        go (if decide (v = null) then remove_field k fs
            else set_field_at k (merge_patch (default null (field k fs)) v) fs) ps'
      end) (fields_of target) ps)
  end.

(** ** Lemmas *)

(** The loops of the functions above, as functions of their own. *)
Definition change_fields (old : EncodeNode) : list (string * EncodeNode) → list (string * EncodeNode) :=
  fix go fs :=
    match fs with
    | [] => []
    | (k, v) :: fs' =>
      match getChange (old_field old k) v with
      | Some c => (k, c) :: go fs'
      | None => go fs'
      end
    end.

Definition marshal_fields : list (string * EncodeNode) → option (list (string * json)) :=
  fix go fs :=
    match fs with
    | [] => Some []
    | (k, v) :: fs' =>
      match MarshalJSON v, go fs' with
      | Some j, Some js => Some ((k, j) :: js)
      | _, _ => None
      end
    end.

Definition merge_step (fs : list (string * json)) (kv : string * json) : list (string * json) :=
  if decide (kv.2 = null) then remove_field kv.1 fs
  else set_field_at kv.1 (merge_patch (default null (field kv.1 fs)) kv.2) fs.

Lemma merge_patch_obj target ps :
  merge_patch target (JObj ps) = JObj (foldl merge_step (fields_of target) ps).
Proof.
  simpl. f_equal. generalize (fields_of target). induction ps as [|[k v] ps IH]; intros fs; [done|].
  simpl. by rewrite IH.
Qed.

(** Objects have each key once; a clean document has no null in it. *)
Fixpoint uniq_keys (j : json) : Prop :=
  match j with
  | JVal _ => True
  | JObj fs => NoDup fs.*1 ∧
    (fix go fs := match fs with [] => True | (k, v) :: fs' => uniq_keys v ∧ go fs' end) fs
  end.

Fixpoint no_null (j : json) : Prop :=
  match j with
  | JVal t => t ≠ "null"%string
  | JObj fs => (fix go fs := match fs with [] => True | (k, v) :: fs' => no_null v ∧ go fs' end) fs
  end.

Lemma uniq_keys_obj fs : uniq_keys (JObj fs) ↔ NoDup fs.*1 ∧ Forall (λ kv, uniq_keys kv.2) fs.
Proof.
  simpl. f_equiv. induction fs as [|[k v] fs IH]; [by split; [constructor|]|].
  rewrite Forall_cons. by rewrite IH.
Qed.

Lemma no_null_obj fs : no_null (JObj fs) ↔ Forall (λ kv, no_null kv.2) fs.
Proof.
  simpl. induction fs as [|[k v] fs IH]; [by split; [constructor|]|].
  rewrite Forall_cons. by rewrite IH.
Qed.

(** What a difference can express: a value never replaces an object, and an
    empty object is only there if it was there before. *)
Fixpoint diffable (old : option json) (new : json) : Prop :=
  old = Some new ∨
  match new with
  | JVal _ => match old with Some (JObj _) => False | _ => True end
  | JObj fs => fs ≠ [] ∧
    (fix go fs :=
      match fs with
      | [] => True
      | (k, v) :: fs' => diffable (field k (fields_of (default null old))) v ∧ go fs'
      end) fs
  end.

Lemma diffable_obj old fs :
  diffable old (JObj fs) ↔
  old = Some (JObj fs) ∨
  fs ≠ [] ∧ Forall (λ kv, diffable (field kv.1 (fields_of (default null old))) kv.2) fs.
Proof.
  cbn [diffable]. f_equiv. f_equiv. generalize (fields_of (default null old)). intros os.
  induction fs as [|[k v] fs IH]; [by split; [constructor|]|].
  rewrite Forall_cons. by rewrite IH.
Qed.

(** What a document says at a path: a value's text, or that there is an
    object; a null is as good as nothing. *)
Fixpoint get (ks : list string) (j : json) : option (option string) :=
  match ks, j with
  | [], JVal t => if decide (t = "null"%string) then None else Some (Some t)
  | [], JObj _ => Some None
  | _ :: _, JVal _ => None
  | k :: ks', JObj fs => field k fs ≫= get ks'
  end.

(** The node of a document that may be missing. *)
Definition node_of (o : option json) : EncodeNode := default zero_node (decode <$> o).

Lemma body_node_of o : e_body (node_of o) = o.
Proof. by destruct o as [[]|]. Qed.

Lemma field_fmap k fs :
  field k (map (λ '(k, v), (k, decode v)) fs) = decode <$> field k fs.
Proof. induction fs as [|[k' v] fs IH]; simpl; [done|]. by case_decide. Qed.

Lemma old_field_node o k :
  old_field (node_of o) k = node_of (field k (fields_of (default null o))).
Proof. destruct o as [[t|fs]|]; [done| |done]. unfold old_field. simpl. by rewrite field_fmap. Qed.

Lemma get_null ks : get ks null = None.
Proof. by destruct ks. Qed.

(** *** Fields *)

Lemma field_elem {A} k (v : A) fs : field k fs = Some v → (k, v) ∈ fs.
Proof. induction fs as [|[k' w] fs IH]; simpl; [done|]. case_decide; set_solver. Qed.

Lemma field_none {A} k (fs : list (string * A)) : field k fs = None ↔ k ∉ fs.*1.
Proof. induction fs as [|[k' w] fs IH]; simpl; [set_solver|]. case_decide; set_solver. Qed.

Lemma field_nodup {A} k (v : A) fs : NoDup fs.*1 → (k, v) ∈ fs → field k fs = Some v.
Proof.
  induction fs as [|[k' w] fs IH]; simpl; [set_solver|]. rewrite NoDup_cons, elem_of_cons.
  intros [Hk Hnd] [[= -> ->]|Hin]; [by rewrite decide_True|].
  rewrite decide_False; [by apply IH|]. intros ->. apply Hk, list_elem_of_fmap. by exists (k', v).
Qed.

Lemma field_set k k' v fs :
  field k (set_field_at k' v fs) = if decide (k = k') then Some v else field k fs.
Proof.
  induction fs as [|[l w] fs IH]; simpl; [done|].
  repeat (case_decide; simplify_eq; simpl); congruence.
Qed.

Lemma field_remove k k' fs :
  field k (remove_field k' fs) = if decide (k = k') then None else field k fs.
Proof.
  unfold remove_field. induction fs as [|[l w] fs IH]; simpl; [by case_decide|].
  rewrite filter_cons. simpl. repeat (case_decide; simplify_eq; simpl); congruence.
Qed.

(** The field of a merged object. *)
Definition merged (o : option json) (v : json) : option json :=
  if decide (v = null) then None else Some (merge_patch (default null o) v).

Lemma field_merge_step k fs k' v :
  field k (merge_step fs (k', v)) = if decide (k = k') then merged (field k fs) v else field k fs.
Proof.
  unfold merge_step, merged. simpl. destruct (decide (v = null)) as [->|Hv].
  - by rewrite field_remove.
  - rewrite field_set. by case_decide; subst.
Qed.

Lemma field_merge k fs ps : NoDup ps.*1 →
  field k (foldl merge_step fs ps) =
    match field k ps with Some v => merged (field k fs) v | None => field k fs end.
Proof.
  revert fs. induction ps as [|[k' v] ps IH]; intros fs Hnd; [done|]. simpl in Hnd.
  apply NoDup_cons in Hnd as [Hk Hnd]. simpl. rewrite IH, field_merge_step by done.
  case_decide; [|done]. subst. by apply field_none in Hk as ->.
Qed.

Lemma get_merge_cons k ks target ps : NoDup ps.*1 →
  get (k :: ks) (merge_patch target (JObj ps)) =
    match field k ps with
    | Some v => merged (field k (fields_of target)) v ≫= get ks
    | None => field k (fields_of target) ≫= get ks
    end.
Proof. intros Hnd. rewrite merge_patch_obj. simpl. rewrite field_merge by done. by destruct (field k ps). Qed.

Lemma uniq_keys_field k v fs : uniq_keys (JObj fs) → field k fs = Some v → uniq_keys v.
Proof.
  rewrite uniq_keys_obj. intros [_ Hall] Hf. rewrite Forall_forall in Hall.
  apply (Hall (k, v)). by apply field_elem.
Qed.

(** Merging a document with itself changes nothing. *)
Lemma merge_self v : uniq_keys v → ∀ ks, get ks (merge_patch v v) = get ks v.
Proof.
  induction v as [t|fs IH] using json_ind'; [done|]. intros Hu [|k ks]; [by rewrite merge_patch_obj|].
  rewrite get_merge_cons by (by apply uniq_keys_obj in Hu as []). simpl.
  destruct (field k fs) as [v|] eqn:E; simpl; [|done]. unfold merged. case_decide; subst.
  { by rewrite get_null. }
  simpl. rewrite Forall_forall in IH. apply (IH (k, v)); [by apply field_elem|].
  by eapply uniq_keys_field.
Qed.

(** *** The change of an object *)

Lemma getChange_obj old fs : old ≠ Some (JObj fs) → fs ≠ [] →
  getChange (node_of old) (decode (JObj fs)) =
    Some (mkNode None None (Some (change_fields (node_of old) (map (λ '(k, v), (k, decode v)) fs)))).
Proof.
  intros Hne Hfs. cbn [decode getChange]. rewrite body_node_of, decide_False by done.
  destruct fs as [|[k v] fs]; [done|]. by destruct (e_Field (node_of old)).
Qed.

Definition fields_clean (cs : list (string * EncodeNode)) : Prop :=
  Forall (λ kc, is_Some (MarshalJSON kc.2)) cs.

Lemma marshal_fields_field cs ps k : marshal_fields cs = Some ps →
  field k ps = field k cs ≫= MarshalJSON.
Proof.
  revert ps. induction cs as [|[k' c] cs IH]; simpl; [by intros ps [= <-]|].
  intros ps. destruct (MarshalJSON c) eqn:Ec; [|done]. destruct (marshal_fields cs); [|done].
  intros [= <-]. simpl. case_decide; [done|]. by apply IH.
Qed.

Lemma marshal_fields_keys cs ps : marshal_fields cs = Some ps → ps.*1 = cs.*1.
Proof.
  revert ps. induction cs as [|[k' c] cs IH]; simpl; [by intros ps [= <-]|].
  intros ps. destruct (MarshalJSON c); [|done]. destruct (marshal_fields cs); [|done].
  intros [= <-]. simpl. f_equal. by apply IH.
Qed.

Lemma marshal_fields_some cs : is_Some (marshal_fields cs) ↔ fields_clean cs.
Proof.
  unfold fields_clean. induction cs as [|[k c] cs IH]; simpl; [split; [constructor|by eexists]|].
  rewrite Forall_cons, <- IH. simpl. unfold is_Some.
  destruct (MarshalJSON c), (marshal_fields cs); naive_solver.
Qed.

Definition decode_fields (fs : list (string * json)) : list (string * EncodeNode) :=
  map (λ '(k, v), (k, decode v)) fs.

Lemma change_fields_sub old cs : (change_fields old cs).*1 ⊆ cs.*1.
Proof.
  induction cs as [|[k c] cs IH]; simpl; [done|]. destruct (getChange _ _); simpl; set_solver.
Qed.

Lemma change_fields_nodup old cs : NoDup cs.*1 → NoDup (change_fields old cs).*1.
Proof.
  induction cs as [|[k c] cs IH]; simpl; [done|]. rewrite NoDup_cons. intros [Hk Hnd].
  destruct (getChange _ _); [|by apply IH]. simpl. apply NoDup_cons. split; [|by apply IH].
  intros Hin. by apply Hk, (change_fields_sub old).
Qed.

Lemma change_fields_field old cs k : NoDup cs.*1 →
  field k (change_fields old cs) = field k cs ≫= getChange (old_field old k).
Proof.
  induction cs as [|[k' c] cs IH]; simpl; [done|]. rewrite NoDup_cons. intros [Hk Hnd].
  destruct (getChange (old_field old k') c) eqn:Ec; simpl; case_decide; subst; simpl; auto.
  rewrite Ec. apply field_none. intros Hin. by apply Hk, (change_fields_sub old).
Qed.

Lemma decode_fields_keys fs : (decode_fields fs).*1 = fs.*1.
Proof. induction fs as [|[k v] fs IH]; simpl; [done|]. by f_equal. Qed.

(** The change of a document that may be missing before, as a patch. *)
Definition change (old : option json) (new : json) : option json :=
  getChange (node_of old) (decode new) ≫= MarshalJSON.

Lemma getChange_none old new : getChange (node_of old) (decode new) = None ↔ old = Some new.
Proof.
  destruct new as [t|fs]; cbn [decode getChange]; rewrite body_node_of; (case_decide; [done|]);
    split; try done; intros E; exfalso.
  - by destruct (e_Field (node_of old)).
  - destruct (e_Field (node_of old)), (map _ fs); done.
Qed.

Lemma change_val old t : old ≠ Some (JVal t) →
  change old (JVal t) = match old with Some (JObj _) => None | _ => Some (JVal t) end.
Proof.
  intros Hne. unfold change. cbn [decode getChange]. rewrite body_node_of, decide_False by done.
  destruct old as [[u|gs]|]; simpl; try done. rewrite decide_False; [done|congruence].
Qed.

Lemma change_empty old : old ≠ Some (JObj []) → change old (JObj []) = None.
Proof.
  intros Hne. unfold change. cbn [decode getChange map]. rewrite body_node_of, decide_False by done.
  by destruct (e_Field (node_of old)).
Qed.

Lemma change_obj old fs : old ≠ Some (JObj fs) → fs ≠ [] →
  change old (JObj fs) = JObj <$> marshal_fields (change_fields (node_of old) (decode_fields fs)).
Proof. intros Hne Hfs. unfold change. by rewrite getChange_obj. Qed.

(** The field of a change: nothing for an unchanged field. *)
Lemma change_obj_field old fs p : old ≠ Some (JObj fs) → NoDup fs.*1 → change old (JObj fs) = Some p →
  ∃ ps, p = JObj ps ∧ NoDup ps.*1 ∧
    (∀ k, field k ps = field k fs ≫= change (field k (fields_of (default null old)))) ∧
    (∀ k v, field k fs = Some v → field k (fields_of (default null old)) ≠ Some v →
      is_Some (change (field k (fields_of (default null old))) v)).
Proof.
  intros Hne Hnd Hc. destruct (decide (fs = [])) as [->|Hfs]; [by rewrite change_empty in Hc|].
  rewrite change_obj in Hc by done.
  destruct (marshal_fields _) as [ps|] eqn:Em; simplify_eq/=. exists ps. split; [done|].
  split.
  { rewrite (marshal_fields_keys _ _ Em). apply change_fields_nodup. by rewrite decode_fields_keys. }
  assert (∀ k, field k (change_fields (node_of old) (decode_fields fs)) =
    (decode <$> field k fs) ≫= getChange (node_of (field k (fields_of (default null old))))) as Hf.
  { intros k. rewrite change_fields_field by (by rewrite decode_fields_keys).
    unfold decode_fields. by rewrite field_fmap, old_field_node. }
  split.
  - intros k. rewrite (marshal_fields_field _ _ k Em), Hf. by destruct (field k fs).
  - intros k v Hk Hne'. specialize (Hf k). rewrite Hk in Hf. simpl in Hf. unfold change.
    destruct (getChange _ (decode v)) as [c|] eqn:Ec; [|by apply getChange_none in Ec].
    assert (fields_clean (change_fields (node_of old) (decode_fields fs))) as Hcl.
    { apply marshal_fields_some. by eexists. }
    unfold fields_clean in Hcl. rewrite Forall_forall in Hcl. apply (Hcl (k, c)). by apply field_elem.
Qed.

(** What a patch says is new, and different from what was there. *)
Lemma change_minimal new : ∀ old p, uniq_keys new → old ≠ Some new → change old new = Some p →
  ∀ ks t, get ks p = Some (Some t) → old ≫= get ks ≠ Some (Some t) ∧ get ks new = Some (Some t).
Proof.
  induction new as [u|fs IH] using json_ind'; intros old p Hu Hne Hc ks t Hg.
  { rewrite change_val in Hc by done. destruct old as [[u'|]|]; simplify_eq; destruct ks; simpl in *;
      try done; repeat case_decide; simplify_eq; split; congruence. }
  pose proof (proj1 (uniq_keys_obj fs) Hu) as [Hnd _].
  destruct (change_obj_field old fs p Hne Hnd Hc) as (ps & -> & Hnd' & Hf & Hsome).
  destruct ks as [|k ks]; [done|]. simpl in Hg. rewrite Hf in Hg. simpl.
  destruct (field k fs) as [v|] eqn:Ev; simpl in *; [|done].
  destruct (change _ v) as [c|] eqn:Ec; simpl in Hg; [|done].
  rewrite Forall_forall in IH.
  destruct (IH (k, v) (field_elem _ _ _ Ev) (field k (fields_of (default null old))) c
    (uniq_keys_field _ _ _ Hu Ev)) with (ks := ks) (t := t) as [Hold Hnew]; try done.
  { intros Heq. unfold change in Ec. by rewrite (proj2 (getChange_none _ v) Heq) in Ec. }
  split; [|done]. by destruct old as [[|gs]|].
Qed.

Lemma change_null old new p : old ≠ Some new → NoDup (fields_of new).*1 → change old new = Some p →
  p = null ↔ new = null.
Proof.
  intros Hne Hnd Hc. destruct new as [u|fs].
  - rewrite change_val in Hc by done. by destruct old as [[]|]; simplify_eq.
  - by destruct (change_obj_field old fs p Hne Hnd Hc) as (ps & -> & _).
Qed.

(** Merging the change is merging the whole of the new document. *)
Lemma change_merge new : ∀ old p, uniq_keys new → old ≠ Some new → change old new = Some p →
  ∀ ks, get ks (merge_patch (default null old) p) = get ks (merge_patch (default null old) new).
Proof.
  induction new as [u|fs IH] using json_ind'; intros old p Hu Hne Hc ks.
  { rewrite change_val in Hc by done. by destruct old as [[]|]; simplify_eq. }
  pose proof (proj1 (uniq_keys_obj fs) Hu) as [Hnd Hall].
  destruct (change_obj_field old fs p Hne Hnd Hc) as (ps & -> & Hnd' & Hf & Hsome).
  destruct ks as [|k ks]; [by rewrite !merge_patch_obj|]. rewrite !get_merge_cons by done. rewrite Hf.
  set (os := field k (fields_of (default null old))).
  destruct (field k fs) as [v|] eqn:Ev; simpl; [|done].
  pose proof (uniq_keys_field _ _ _ Hu Ev) as Huv.
  destruct (decide (os = Some v)) as [Heq|Hos].
  { unfold change. rewrite (proj2 (getChange_none os v) Heq). simpl. rewrite Heq. unfold merged. simpl.
    case_decide; subst; [by rewrite get_null|]. simpl. by rewrite merge_self. }
  destruct (change os v) as [c|] eqn:Ec.
  - unfold merged. assert (NoDup (fields_of v).*1) as Hndv.
    { destruct v; [constructor|]. by apply uniq_keys_obj in Huv as []. }
    pose proof (change_null os v c Hos Hndv Ec) as Hnull.
    destruct (decide (v = null)) as [->|Hv]; [by rewrite decide_True by (by apply Hnull)|].
    rewrite decide_False by (by rewrite Hnull). simpl. rewrite Forall_forall in IH.
    apply (IH (k, v)); try done. by apply field_elem.
  - exfalso. destruct (Hsome k v Ev Hos) as [c Hc']. fold os in Hc'. congruence.
Qed.

(** *** When there is a change *)

Lemma change_some new : ∀ old, old ≠ Some new → is_Some (change old new) ↔ diffable old new.
Proof.
  induction new as [u|fs IH] using json_ind'; intros old Hne.
  { rewrite change_val by done. simpl. unfold is_Some. destruct old as [[]|]; naive_solver. }
  rewrite diffable_obj. destruct (decide (fs = [])) as [->|Hfs].
  { rewrite change_empty by done. unfold is_Some. naive_solver. }
  rewrite change_obj, fmap_is_Some, marshal_fields_some by done.
  transitivity (Forall (λ kv, diffable (field kv.1 (fields_of (default null old))) kv.2) fs); [|naive_solver].
  clear Hne Hfs. unfold fields_clean. induction IH as [|[k v] fs Hv _ IH]; [by split; constructor|].
  rewrite Forall_cons, <- IH. simpl. rewrite old_field_node.
  set (os := field k (fields_of (default null old))).
  destruct (decide (os = Some v)) as [Heq|Hos].
  - rewrite (proj2 (getChange_none os v) Heq). assert (diffable os v) by (destruct v; by left). tauto.
  - rewrite <- (Hv os Hos). unfold change.
    destruct (getChange (node_of os) (decode v)) as [c|] eqn:Ec; [|by apply getChange_none in Ec].
    rewrite Forall_cons. simpl. by rewrite Ec.
Qed.

Lemma getchange_change old new :
  getchange old new = if decide (old = new) then Some null else change (Some old) new.
Proof.
  unfold getchange, change.
  assert (getChange (decode old) (decode new) = None ↔ Some old = Some new) as Hn
    by apply (getChange_none (Some old) new).
  change (node_of (Some old)) with (decode old). case_decide as Heq.
  - by rewrite (proj2 Hn) by congruence.
  - destruct (getChange _ _) eqn:E; [done|]. exfalso. apply Heq. by injection (proj1 Hn eq_refl).
Qed.

Lemma print_change fs gs p : getchange (JObj fs) (JObj gs) = Some p → print p ≠ ""%string.
Proof.
  rewrite getchange_change. case_decide as Heq; [by intros [= <-]|]. intros Hc.
  destruct (decide (gs = [])) as [->|Hgs]; [rewrite change_empty in Hc; congruence|].
  rewrite change_obj in Hc by congruence. by destruct (marshal_fields _); simplify_eq/=.
Qed.

(** ** Properties *)

(** C21 (refinement): the patch of two documents is the merge patch that the
    new document itself is, less what has not changed: where a patch exists,
    the cluster's document after merging the patch says the same, at every
    path, as after merging the whole new document, and every value in the patch is one
    of the new document that the old one does not have there. There is a patch exactly
    when no value of the new document replaces an object and no object in
    it is empty that was not so before; equal documents give a [null]. *)
Theorem patch_is_merge old new (Hu : uniq_keys new) :
  (old = new → getchange old new = Some null) ∧
  (old ≠ new → is_Some (getchange old new) ↔ diffable (Some old) new) ∧
  (∀ p, old ≠ new → getchange old new = Some p →
    (∀ ks, get ks (merge_patch old p) = get ks (merge_patch old new)) ∧
    (∀ ks t, get ks p = Some (Some t) → get ks old ≠ Some (Some t) ∧ get ks new = Some (Some t))).
Proof.
  rewrite getchange_change. case_decide as Heq; [naive_solver|].
  assert (Some old ≠ Some new) as Hne by congruence.
  split; [done|]. split; [by intros _; apply change_some|]. intros p _ Hc. split.
  - by apply (change_merge new (Some old)).
  - by apply (change_minimal new (Some old) p).
Qed.

Definition old_doc : json :=
  JObj [("kind", JVal "a"); ("spec", JObj [("replicas", JVal "1"); ("name", JVal "x")])]%string.
Definition new_doc : json :=
  JObj [("kind", JVal "a"); ("spec", JObj [("replicas", JVal "2"); ("name", JVal "x"); ("image", JVal "i")])]%string.

Lemma patch_is_merge_witness :
  getchange old_doc new_doc = Some (JObj [("spec", JObj [("replicas", JVal "2"); ("image", JVal "i")])]%string) ∧
  diffable (Some old_doc) new_doc ∧
  ¬ is_Some (getchange old_doc (JObj [("status", JObj [])]))%string.
Proof.
  split; [reflexivity|]. split.
  - refine (proj1 (proj1 (proj2 (patch_is_merge old_doc new_doc _)) _) _);
      [|discriminate|by eexists].
    cbn [uniq_keys new_doc]. repeat split; apply (bool_decide_unpack (NoDup _)); vm_compute; exact I.
  - vm_compute. by intros [].
Defined.

Section upgrade_spec.
Context (encode_statefulset encode_deployment : Workload → json).
(** Both encodings are of Go structs. *)
Context (Hs : ∀ w, ∃ fs, encode_statefulset w = JObj fs) (Hd : ∀ w, ∃ fs, encode_deployment w = JObj fs).

(** The old and new workloads whose difference is the patch. *)
Definition upgraded (boot : option Container) (old n : Workload) : Workload * Workload :=
  let n := keep_boot_sequence boot old n in (copy_status n old, n).

Definition patch_of (encode : Workload → json) (boot : option Container) (wo wn : option Workload) : option string :=
  match wo, wn with
  | Some old, Some n =>
    let '(old, n) := upgraded boot old n in print <$> getchange (encode old) (encode n)
  | _, _ => None
  end.

Lemma workload_patch_spec encode (He : ∀ w, ∃ fs, encode w = JObj fs) boot old n :
  let n' := keep_boot_sequence boot old n in
  let old' := copy_status n' old in
  workload_patch encode boot old n =
    (old', n', match print <$> getchange (encode old') (encode n') with
               | None => inl (EMsg "marshal error") | Some p => inr p end).
Proof.
  unfold workload_patch. simpl. do 2 f_equal. set (n' := keep_boot_sequence _ _ _).
  destruct (He (copy_status n' old)) as [fs ->], (He n') as [gs ->].
  destruct (getchange _ _) as [p|] eqn:Ep; simpl; [|done].
  rewrite decide_False; [done|]. by eapply print_change.
Qed.

Definition patch_error (p : option string) : option error :=
  match p with Some _ => None | None => Some (EMsg "marshal error") end.

Definition put_patch (k : string) (p : option string) (a : AppService) : AppService :=
  match p with Some p => a <| UpgradePatch ::= <[k := p]> |> | None => a end.

Lemma patch_statefulset_spec a new :
  patch_statefulset encode_statefulset a new =
    match statefulset a, statefulset new with
    | Some old, Some n =>
      let p := patch_of encode_statefulset (BootSeqContainer new) (Some old) (Some n) in
      (a <| statefulset := Some (upgraded (BootSeqContainer new) old n).1 |>,
       put_patch "statefulset" p (new <| statefulset := Some (upgraded (BootSeqContainer new) old n).2 |>), patch_error p)
    | _, _ => (a, new, None)
    end.
Proof.
  unfold patch_statefulset. destruct (statefulset a) as [old|], (statefulset new) as [n|]; try done.
  rewrite (workload_patch_spec _ Hs). cbn [patch_of upgraded fst snd].
  by destruct (print <$> getchange (encode_statefulset _) (encode_statefulset _)).
Qed.

Lemma patch_deployment_spec a new :
  patch_deployment encode_deployment a new =
    match deployment a, deployment new with
    | Some old, Some n =>
      let p := patch_of encode_deployment (BootSeqContainer new) (Some old) (Some n) in
      (a <| deployment := Some (upgraded (BootSeqContainer new) old n).1 |>,
       put_patch "deployment" p (new <| deployment := Some (upgraded (BootSeqContainer new) old n).2 |>), patch_error p)
    | _, _ => (a, new, None)
    end.
Proof.
  unfold patch_deployment. destruct (deployment a) as [old|], (deployment new) as [n|]; try done.
  rewrite (workload_patch_spec _ Hd). cbn [patch_of upgraded fst snd].
  by destruct (print <$> getchange (encode_deployment _) (encode_deployment _)).
Qed.

#[local] Arguments patch_of : simpl never.
#[local] Arguments upgraded : simpl never.

(** Equal documents give a patch that says null. *)
Lemma patch_of_same encode boot old n : let '(old', n') := upgraded boot old n in
  encode old' = encode n' → patch_of encode boot (Some old) (Some n) = Some "null"%string.
Proof.
  unfold patch_of. destruct (upgraded boot old n) as [old' n']. intros ->.
  rewrite getchange_change. by rewrite decide_True.
Qed.

(** Setting the upgrade patch of an application never says
    that there is nothing to upgrade: the only error is that a difference cannot be
    written. When there is none, each kind of workload that both
    applications have is patched with the difference of the cached workload, given
    the new status, and the new one, given the boot container the cached one has;
    the other entries stay, and the cached application takes the new base.
    For workloads that do not differ the patch is [null]. *)
Theorem upgrade_patch_set a new a' new' err :
  SetUpgradePatch encode_statefulset encode_deployment a new = (a', new', err) →
  let ps := patch_of encode_statefulset (BootSeqContainer new) (statefulset a) (statefulset new) in
  let pd := patch_of encode_deployment (BootSeqContainer new) (deployment a) (deployment new) in
  let both (x y : option Workload) := is_Some x ∧ is_Some y in
  (err = None ∨ err = Some (EMsg "marshal error")) ∧
  (err = None ↔ (both (statefulset a) (statefulset new) → is_Some ps) ∧
                (both (deployment a) (deployment new) → is_Some pd)) ∧
  (err = None →
    base a' = base new ∧
    UpgradePatch new' !! "statefulset"%string =
      (if ps is Some p then Some p else UpgradePatch new !! "statefulset"%string) ∧
    UpgradePatch new' !! "deployment"%string =
      (if pd is Some p then Some p else UpgradePatch new !! "deployment"%string)) ∧
  (∀ old n, statefulset a = Some old → statefulset new = Some n →
    let '(old', n') := upgraded (BootSeqContainer new) old n in
    statefulset a' = Some old' ∧ statefulset new' = Some n' ∧
    (encode_statefulset old' = encode_statefulset n' → ps = Some "null"%string)).
Proof.
  unfold SetUpgradePatch. rewrite patch_statefulset_spec.
  pose proof (patch_of_same encode_statefulset (BootSeqContainer new)) as Hsame.
  destruct (statefulset a) as [os|] eqn:Eos, (statefulset new) as [ns|] eqn:Ens; cbv zeta;
    [specialize (Hsame os ns);
     destruct (patch_of encode_statefulset _ _ _) as [q|] eqn:Eq; cbn [patch_error put_patch]|..].
  all: rewrite ?patch_deployment_spec; simpl;
    destruct (deployment a) as [od|] eqn:Eod, (deployment new) as [nd|] eqn:End; simpl;
    try destruct (patch_of encode_deployment _ (Some od) (Some nd)) as [r|]; simpl;
    intros [= <- <- <-]; simpl.
  all: split; [by auto|split; [unfold is_Some; naive_solver|split; [|by intros ?? [= <-] [= <-]]]].
  all: intros; simplify_eq; simpl; repeat split; simplify_map_eq; done.
Qed.
End upgrade_spec.

(** An encoding that shows whether there are two replicas. *)
Definition demo_encode (w : Workload) : json :=
  JObj [("spec", JObj [("replicas", JVal (if decide (wl_Replicas w = Some 2%Z) then "2" else "5"))])]%string.

Definition demo_old : AppService := demo_app <| statefulset := Some demo_workload |>.
Definition demo_scaled : AppService :=
  demo_app <| statefulset := Some (demo_workload <| wl_Replicas := Some 5%Z |>) |>.

(** A change of the replicas is patched; without a change the patch is null. *)
Lemma upgrade_patch_set_witness :
  UpgradePatch (SetUpgradePatch demo_encode demo_encode demo_old demo_scaled).1.2 !! "statefulset"%string =
    print <$> getchange (demo_encode demo_workload) (demo_encode (demo_workload <| wl_Replicas := Some 5%Z |>)) ∧
  UpgradePatch (SetUpgradePatch demo_encode demo_encode demo_old demo_old).1.2 !! "statefulset"%string =
    Some "null"%string.
Proof.
  assert (∀ w, ∃ fs, demo_encode w = JObj fs) as He by (intros w; by eexists).
  split.
  - apply (upgrade_patch_set demo_encode demo_encode He He demo_old demo_scaled _ _ _ eq_refl). reflexivity.
  - apply (upgrade_patch_set demo_encode demo_encode He He demo_old demo_old _ _ _ eq_refl). reflexivity.
Defined.
