(* ===== verification/Ensure.v ===== *)
(** * Writing cluster objects: create-or-update functions

    [worker/appm/f/function.go].  Every function runs over a Kubernetes client
    and its cluster state; log lines are left out, returned errors and panics
    are kept. *)
From S2P Require Import Prelude Kube AppService.

(** [parser.GetAnnotationWithPrefix] *)
Definition GetAnnotationWithPrefix (suffix : string) : string :=
  "nginx.ingress.kubernetes.io/" +:+ suffix.

Definition clientRetryCount : nat := 5.

Definition with_version_of {k} (o n : obj k) : obj k :=
  set_meta (λ m, m <| m_UID := m_UID (obj_meta o) |>
                   <| m_ResourceVersion := m_ResourceVersion (obj_meta o) |>) n.

(** [for i, item := range old { oldMap[item.Name] = old[i] }] *)
Definition name_map {k} (l : list (obj k)) : gmap string (obj k) :=
  foldl (λ m o, <[obj_name o := o]> m) ∅ l.

Section ensure.
Context {C : Type} (kc : KubeClient C) `{GoRuntime}.

Definition Op (A : Type) : Type := M C A.

Definition get k ns n : Op (reply k) := api (kc_get kc k ns n).
Definition create k ns (o : obj k) : Op (reply k) := api (kc_create kc k ns o).
Definition create_opt k ns (o : option (obj k)) : Op (reply k) :=
  match o with Some o => create k ns o | None => api (kc_create_nil kc k ns) end.
Definition update k ns (o : obj k) : Op (reply k) := api (kc_update kc k ns o).
Definition delete_ k ns n : Op (option api_error) := api_err (kc_delete kc k ns n).

(** ** Single objects *)

(** The retry loop; [i] tries are left and [err] is the last error. *)
Fixpoint persist_loop (i : nat) (err : option api_error) (service : Service) : Op unit :=
  match i with
  | 0 => match err with None => mret () | Some e => fail (EApi e) end
  | S i' =>
    r ← api (kc_update_status kc (m_Namespace (svc_meta service)) service);
    match r.2 with
    | None => mret ()
    | Some e =>
      if IsNotFound e then mret ()
      else if IsConflict e then
        fail (EWrap "not persisting update to service that has been changed" (EApi e))
      else persist_loop i' (Some e) service
    end
  end.

Definition persistUpdate (service : Service) : Op unit :=
  persist_loop clientRetryCount None service.

(** A creation error is only logged: the function then returns nil. *)
Definition ensureService (new : Service) : Op unit :=
  let ns := m_Namespace (svc_meta new) in
  r ← get KService ns (svc_name new);
  match r with
  | (_, Some e) =>
    if IsNotFound e then _ ← create KService ns new; mret ()
    else fail (EApi e)
  | (None, None) => panic
  | (Some old, None) =>
    persistUpdate
      (mkService
         ((svc_meta old) <| m_Labels := m_Labels (svc_meta new) |>
                       <| m_Annotations := m_Annotations (svc_meta new) |>)
         (svc_Spec new))
  end.

Definition EnsureService (new : Service) : Op unit := ensureService new.

(** Update, and create if there is nothing to update; errors are logged. *)
Definition ensureIngress (ingress : Ingress) : Op unit :=
  let ns := m_Namespace (ing_meta ingress) in
  r ← update KIngress ns ingress;
  match r.2 with
  | Some e => if IsNotFound e then _ ← create KIngress ns ingress; mret () else mret ()
  | None => mret ()
  end.

Definition ensureSecret (secret : Secret) : Op unit :=
  let ns := m_Namespace (pl_meta secret) in
  r ← update KSecret ns secret;
  match r.2 with
  | Some e => if IsNotFound e then _ ← create KSecret ns secret; mret () else mret ()
  | None => mret ()
  end.

Definition EnsureEndpoints (ep : Endpoints) : Op unit :=
  let ns := m_Namespace (ep_meta ep) in
  r ← get KEndpoints ns (ep_name ep);
  current ←
    match r with
    | (_, Some e) =>
      if IsNotFound e then
        mret (mkEndpoints (mkMeta (ep_name ep) "" "" "" (m_Labels (ep_meta ep)) ∅ 0 None None "") [])
      else fail (EApi e)
    | (None, None) => panic
    | (Some o, None) => mret (M := M C) o
    end;
  let createEndpoints := bool_decide (m_ResourceVersion (ep_meta current) = ""%string) in
  if negb createEndpoints && bool_decide (ep_Subsets current = ep_Subsets ep) &&
     bool_decide (m_Labels (ep_meta current) = m_Labels (ep_meta ep))
  then mret ()
  else
    let newEndpoints :=
      mkEndpoints ((ep_meta current) <| m_Labels := m_Labels (ep_meta ep) |>) (ep_Subsets ep) in
    r ← (if createEndpoints then create KEndpoints ns newEndpoints
         else update KEndpoints ns newEndpoints);
    match r.2 with Some e => fail (EApi e) | None => mret () end.

Definition EnsureHPA (new : HPA) : Op unit :=
  let ns := m_Namespace (pl_meta new) in
  r ← get KHPA ns (pl_name new);
  match r.2 with
  | Some e => if IsNotFound e then _ ← create KHPA ns new; mret () else mret ()
  | None => _ ← update KHPA ns new; mret ()
  end.

Definition CreateOrUpdateSecret (secret : Secret) : Op unit :=
  let ns := m_Namespace (pl_meta secret) in
  r ← get KSecret ns (pl_name secret);
  match r with
  | (_, Some e) =>
    if negb (IsNotFound e) then fail (EApi e)
    else r ← create KSecret ns secret;
         match r.2 with Some e => fail (EApi e) | None => mret () end
  | (None, None) => panic
  | (Some old, None) =>
    let secret := secret <| pl_meta ::= λ m,
      m <| m_ResourceVersion := m_ResourceVersion (pl_meta old) |> |> in
    r ← update KSecret ns secret;
    match r.2 with Some e => fail (EApi e) | None => mret () end
  end.

(** ** Applying the rules of a component *)

(** The namespace is created on demand.  The test after the creation repeats
    [err != nil]: an [AlreadyExists] from a concurrent creation is let through
    by the first test and returned by the second. *)
Definition check_namespace (app : AppService) : Op unit :=
  r ← get KNamespace "" (TenantID app);
  match r.2 with
  | None => mret ()
  | Some e =>
    if IsNotFound e then
      r ← create_opt KNamespace "" (GetTenant app);
      match r.2 with
      | None => mret ()
      | Some e =>
        if negb (IsAlreadyExists e) then fail (EWrap "error creating namespace" (EApi e))
        else fail (EWrap "error checking namespace" (EApi e))
      end
    else fail (EWrap "error checking namespace" (EApi e))
  end.

(** [update ingress] for one custom domain: the first rule names it. *)
Definition apply_domain (app : AppService) (domain : string) : Op unit :=
  forM (GetIngress app) (λ ing,
    match ing_Rules ing with
    | rule :: _ =>
      when (bool_decide (ir_Host rule = domain)) (
        _ ← match ing_TLS ing with
            | tls :: _ =>
              forM (GetSecrets app) (λ secret,
                when (bool_decide (tls_SecretName tls = pl_name secret))
                  (ensureSecret secret))
            | [] => mret ()
            end;
        ensureIngress ing)
    | [] => mret ()
    end).

Definition l4_address (ing : Ingress) : option string :=
  let ann := m_Annotations (ing_meta ing) in
  host ← ann !! GetAnnotationWithPrefix "l4-host";
  Some (host +:+ ":" +:+ get_str ann (GetAnnotationWithPrefix "l4-port")).

Definition apply_tcp (app : AppService) (address : string) : Op unit :=
  forM (GetIngress app) (λ ing,
    when (bool_decide (l4_address ing = Some address)) (ensureIngress ing)).

(** An error of a step that the caller only logs. *)
Definition logged (m : Op unit) : Op unit := _ ← catch m; mret ().

Definition apply_custom (app : AppService) (params : gmap string string) : Op unit :=
  _ ← match params !! "domain"%string with
      | Some d => apply_domain app d
      | None => mret ()
      end;
  match params !! "tcp-address"%string with
  | Some d => apply_tcp app d
  | None => mret ()
  end.

Definition apply_all (app : AppService) : Op unit :=
  _ ← forM (GetServices app) (λ s, logged (ensureService s));
  _ ← forM (GetSecrets app) ensureSecret;
  _ ← forM (GetEndpoints app) (λ ep, logged (EnsureEndpoints ep));
  forM (GetIngress app) ensureIngress.

Definition apply_deletions (app : AppService) : Op unit :=
  _ ← forM (GetDelIngs app) (λ ing,
        _ ← delete_ KIngress (m_Namespace (ing_meta ing)) (ing_name ing); mret ());
  _ ← forM (GetDelSecrets app) (λ s,
        _ ← delete_ KSecret (m_Namespace (pl_meta s)) (pl_name s); mret ());
  forM (GetDelServices app) (λ s,
    _ ← delete_ KService (m_Namespace (svc_meta s)) (svc_name s); mret ()).

Definition ApplyOne (app : AppService) : Op unit :=
  _ ← check_namespace app;
  _ ← match CustomParams app with
      | Some params => apply_custom app params
      | None => apply_all app
      end;
  apply_deletions app.

(** ** Replacing the old objects of a component by the new ones

    [handleErr] is the caller's policy: it swallows the error or returns one.
    The functions return the component with the stored objects, and the new
    objects as their metadata was rewritten in place. *)

Definition on_error {A} (handleErr : api_error → option error) (e : api_error) (a : A) : Op A :=
  match handleErr e with
  | Some e' => fail e'
  | None => mret a
  end.

(** What a loop iteration passes on: the component, the old objects not yet
    matched, the new objects already visited (latest first). *)
Definition upgrade_state (k : kind) : Type := AppService * gmap string (obj k) * list (obj k).

(** The common shape of [UpgradeIngress], [UpgradeSecrets] and
    [UpgradeServiceMonitor].  [set_updated] stores the object of a successful
    update, given the local object and the answer of the server, whose name
    is printed; an old object leaves the map only when its update succeeds. *)
Definition upgrade_step (k : kind) (handleErr : api_error → option error)
    (set_updated : obj k → obj k → AppService → AppService)
    (set_created : obj k → AppService → AppService)
    (st : upgrade_state k) (n : obj k) : Op (upgrade_state k) :=
  let '(as_, oldMap, done) := st in
  match oldMap !! obj_name n with
  | Some o =>
    let n := with_version_of o n in
    r ← update k (obj_ns n) n;
    match r with
    | (_, Some e) => on_error handleErr e (as_, oldMap, n :: done)
    | (None, None) => panic
    | (Some x, None) =>
      mret (set_updated n x as_, delete (obj_name o) oldMap, n :: done)
    end
  | None =>
    r ← create k (obj_ns n) n;
    match r with
    | (_, Some e) => on_error handleErr e (as_, oldMap, n :: done)
    | (None, None) => panic
    | (Some x, None) => mret (set_created x as_, oldMap, n :: done)
    end
  end.

(** The last loop: whatever is left in the map is deleted. *)
Definition delete_unmatched (k : kind) (handleErr : api_error → option error)
    (oldMap : gmap string (obj k)) : Op unit :=
  forM (range_order oldMap) (λ '(_, o),
    r ← delete_ k (obj_ns o) (obj_name o);
    match r with
    | Some e => on_error handleErr e ()
    | None => mret ()
    end).

Definition upgrade_objects (k : kind) (handleErr : api_error → option error)
    (set_updated : obj k → obj k → AppService → AppService)
    (set_created : obj k → AppService → AppService)
    (as_ : AppService) (old new : list (obj k)) : Op (AppService * list (obj k)) :=
  st ← foldM (upgrade_step k handleErr set_updated set_created) (as_, name_map old, []) new;
  let '(as_, oldMap, done) := st in
  _ ← delete_unmatched k handleErr oldMap;
  mret (as_, rev done).

Definition UpgradeIngress (handleErr : api_error → option error) (as_ : AppService)
    (old new : list Ingress) : Op (AppService * list Ingress) :=
  upgrade_objects KIngress handleErr (λ _ ing, SetIngress ing) SetIngress as_ old new.

Definition UpgradeSecrets (handleErr : api_error → option error) (as_ : AppService)
    (old new : list Secret) : Op (AppService * list Secret) :=
  upgrade_objects KSecret handleErr (λ _ sec, SetSecret (Some sec)) (λ sec, SetSecret (Some sec))
    as_ old new.

(** An updated monitor is stored as the component has it, a created one as
    the server answered. *)
Definition UpgradeServiceMonitor (handleErr : api_error → option error) (as_ : AppService)
    (old new : list ServiceMonitor) : Op (AppService * list ServiceMonitor) :=
  upgrade_objects KServiceMonitor handleErr (λ n _, SetServiceMonitor n) SetServiceMonitor
    as_ old new.

(** A loop some of whose iterations end the function without an error: the
    component and the new objects then are what they are. *)
Fixpoint upgrade_loop {k : kind}
    (step : upgrade_state k → obj k → Op ((AppService * list (obj k)) + upgrade_state k))
    (st : upgrade_state k) (new : list (obj k)) : Op ((AppService * list (obj k)) + upgrade_state k) :=
  match new with
  | [] => mret (inr st)
  | n :: new' =>
    r ← step st n;
    match r with
    | inr st => upgrade_loop step st new'
    | inl (as_, done) => mret (inl (as_, rev done ++ new'))
    end
  end.

Definition upgrade_or_return {k : kind}
    (step : upgrade_state k → obj k → Op ((AppService * list (obj k)) + upgrade_state k))
    (handleErr : api_error → option error) (as_ : AppService) (old new : list (obj k)) :
    Op (AppService * list (obj k)) :=
  r ← upgrade_loop step (as_, name_map old, []) new;
  match r with
  | inl res => mret res
  | inr (as_, oldMap, done) => _ ← delete_unmatched k handleErr oldMap; mret (as_, rev done)
  end.

(** [if e := handleErr(...); err != nil { return e }] tests the outer error: the
    function returns, with what the policy made of that error. *)
Definition return_error {k : kind} (handleErr : api_error → option error) (e : api_error) (as_ : AppService)
    (done : list (obj k)) : Op ((AppService * list (obj k)) + upgrade_state k) :=
  match handleErr e with
  | Some e' => fail e'
  | None => mret (inl (as_, done))
  end.

(** A claim that is not among the old ones is looked up and created if
    missing.  The object the lookup returned is then tested and stored, also
    after a creation, whose answer is dropped; another error of the lookup ends
    the function. *)
Definition claim_new_step (handleErr : api_error → option error)
    (st : upgrade_state KClaim) (n : Claim) : Op ((AppService * list Claim) + upgrade_state KClaim) :=
  let '(as_, oldMap, done) := st in
  let finish (claim : option Claim) : Op ((AppService * list Claim) + upgrade_state KClaim) :=
    match claim with
    | Some claim => mret (inr (SetClaim claim as_, oldMap, n :: done))
    | None =>
      r ← update KClaim (m_Namespace (pl_meta n)) n;
      match r with
      | (_, Some e) => on_error handleErr e (inr (as_, oldMap, n :: done))
      | (None, None) => panic
      | (Some claim, None) => mret (inr (SetClaim claim as_, oldMap, n :: done))
      end
    end in
  r ← get KClaim (m_Namespace (pl_meta n)) (pl_name n);
  match r with
  | (claim, None) => finish claim
  | (claim, Some e) =>
    if IsNotFound e then
      r ← create KClaim (m_Namespace (pl_meta n)) n;
      match r.2 with
      | Some e => on_error handleErr e (inr (as_, oldMap, n :: done))
      | None => finish claim
      end
    else return_error (k := KClaim) handleErr e as_ (n :: done)
  end.

Definition claim_step (handleErr : api_error → option error)
    (st : upgrade_state KClaim) (n : Claim) : Op ((AppService * list Claim) + upgrade_state KClaim) :=
  let '(as_, oldMap, done) := st in
  match oldMap !! pl_name n with
  | Some o =>
    let n := with_version_of (k := KClaim) o n in
    r ← update KClaim (m_Namespace (pl_meta n)) n;
    match r with
    | (_, Some e) => on_error handleErr e (inr (as_, oldMap, n :: done))
    | (None, None) => panic
    | (Some claim, None) => mret (inr (SetClaim claim as_, delete (pl_name o) oldMap, n :: done))
    end
  | None => claim_new_step handleErr st n
  end.

Definition UpgradeClaims (handleErr : api_error → option error) (as_ : AppService)
    (old new : list Claim) : Op (AppService * list Claim) :=
  upgrade_or_return (k := KClaim) (claim_step handleErr) handleErr as_ old new.

(** Endpoints that exist are read again for their resource version.  A missing
    one is created, and the lookup error then ends the function all the same. *)
Definition endpoints_existing (handleErr : api_error → option error) (st : upgrade_state KEndpoints)
    (o n : Endpoints) : Op ((AppService * list Endpoints) + upgrade_state KEndpoints) :=
  let '(as_, oldMap, done) := st in
  r ← get KEndpoints (m_Namespace (ep_meta n)) (ep_name n);
  match r with
  | (None, None) => panic
  | (Some oldEndpoint, None) =>
    let n := n <| ep_meta ::= λ m, m <| m_ResourceVersion := m_ResourceVersion (ep_meta oldEndpoint) |> |> in
    r ← update KEndpoints (m_Namespace (ep_meta n)) n;
    match r with
    | (_, Some e) => on_error handleErr e (inr (as_, oldMap, n :: done))
    | (None, None) => panic
    | (Some ep, None) => mret (inr (AddEndpoints ep as_, delete (ep_name o) oldMap, n :: done))
    end
  | (_, Some e) =>
    if IsNotFound e then
      r ← create KEndpoints (m_Namespace (ep_meta n)) n;
      match r.2 with
      | Some e => on_error handleErr e (inr (as_, oldMap, n :: done))
      | None => return_error (k := KEndpoints) handleErr e as_ (n :: done)
      end
    else return_error (k := KEndpoints) handleErr e as_ (n :: done)
  end.

Definition endpoints_step (handleErr : api_error → option error)
    (st : upgrade_state KEndpoints) (n : Endpoints) : Op ((AppService * list Endpoints) + upgrade_state KEndpoints) :=
  let '(as_, oldMap, done) := st in
  match oldMap !! ep_name n with
  | Some o => endpoints_existing handleErr st o n
  | None =>
    r ← create KEndpoints (m_Namespace (ep_meta n)) n;
    match r.2 with
    | Some e => on_error handleErr e (inr (as_, oldMap, n :: done))
    | None => mret (inr (AddEndpoints n as_, oldMap, n :: done))
    end
  end.

Definition UpgradeEndpoints (handleErr : api_error → option error) (as_ : AppService)
    (old new : list Endpoints) : Op (AppService * list Endpoints) :=
  upgrade_or_return (k := KEndpoints) (endpoints_step handleErr) handleErr as_ old new.
End ensure.

(** ** Lemmas *)

Section ensure_lemmas.
Context {C : Type} (kc : KubeClient C) `{GoRuntime}.

Lemma total_api k (call : C → C * reply k) : total (api call).
Proof. split. intros c. unfold api. destruct (call c). eauto. Qed.

Lemma total_api_err (call : C → C * option api_error) : total (api_err call).
Proof. split. intros c. unfold api_err. destruct (call c). eauto. Qed.

#[local] Hint Resolve total_api total_api_err : kato.

Lemma total_ensureIngress ing : total (ensureIngress kc ing).
Proof.
  apply total_bind; [apply total_api|]. intros [? [e|]]; simpl; [|auto with kato].
  destruct (IsNotFound e); auto with kato. apply total_bind; [apply total_api|auto with kato].
Qed.

Lemma total_ensureSecret sec : total (ensureSecret kc sec).
Proof.
  apply total_bind; [apply total_api|]. intros [? [e|]]; simpl; [|auto with kato].
  destruct (IsNotFound e); auto with kato. apply total_bind; [apply total_api|auto with kato].
Qed.

Lemma safe_persist_loop i err svc : safe (persist_loop kc i err svc).
Proof.
  revert err. induction i as [|i IH]; intros err; cbn [persist_loop].
  { destruct err; [apply safe_fail|apply safe_ret]. }
  apply safe_bind; [apply total_safe, total_api|]. intros [? [e|]]; simpl; [|apply safe_ret].
  destruct (IsNotFound e); [apply safe_ret|].
  destruct (IsConflict e); [apply safe_fail|apply IH].
Qed.

Section with_laws.
Context (kl : C → ∀ k, string → string → option (obj k)) `{!KubeLaws kc kl}.

(** A lookup never returns neither object nor error. *)
Lemma get_inv k ns n (f : reply k → M C unit) :
  (∀ x, safe (f (Some x, None))) → (∀ o e, safe (f (o, Some e))) → safe (get kc k ns n ≫= f).
Proof.
  intros H1 H2. split. intros c. unfold get, api, mbind, M_bind.
  pose proof (kl_get_found c k ns n) as Hf.
  destruct (kc_get kc k ns n c) as [c' [o [e|]]] eqn:E; simpl in *.
  - apply H2.
  - destruct (Hf o eq_refl) as (x & -> & _). apply H1.
Qed.

Lemma safe_ensureService svc : safe (ensureService kc svc).
Proof.
  apply (get_inv KService); cbn beta iota.
  - intros x. apply safe_persist_loop.
  - intros [o|] e; (destruct (IsNotFound e); [|apply safe_fail]);
    apply total_safe; (apply total_bind; [apply total_api|auto with kato]).
Qed.

Lemma safe_EnsureEndpoints ep : safe (EnsureEndpoints kc ep).
Proof.
  assert (∀ cur, safe (if negb (bool_decide (m_ResourceVersion (ep_meta cur) = ""%string)) &&
      bool_decide (ep_Subsets cur = ep_Subsets ep) &&
      bool_decide (m_Labels (ep_meta cur) = m_Labels (ep_meta ep)) then mret ()
    else
      r ← (if bool_decide (m_ResourceVersion (ep_meta cur) = ""%string)
           then create kc KEndpoints (m_Namespace (ep_meta ep))
             (mkEndpoints ((ep_meta cur) <| m_Labels := m_Labels (ep_meta ep) |>) (ep_Subsets ep))
           else update kc KEndpoints (m_Namespace (ep_meta ep))
             (mkEndpoints ((ep_meta cur) <| m_Labels := m_Labels (ep_meta ep) |>) (ep_Subsets ep)));
      match r.2 with Some e => fail (EApi e) | None => mret () end)) as Hk.
  { intros cur. destruct (negb _ && _ && _); [apply safe_ret|].
    apply safe_bind.
    - apply total_safe. destruct (bool_decide _); apply total_api.
    - intros [? [e|]]; [apply safe_fail|apply safe_ret]. }
  apply (get_inv KEndpoints); cbn beta iota.
  - intros x. split. intros c. apply Hk.
  - intros [o|] e; (destruct (IsNotFound e); [|apply safe_fail]);
    (split; intros c; apply Hk).
Qed.

Lemma total_logged (m : M C unit) : safe m → total (logged m).
Proof. intros Hm. apply total_bind; [by apply total_catch|auto with kato]. Qed.

Lemma total_apply_all app : total (apply_all kc app).
Proof.
  repeat (apply total_bind; [apply total_forM; intros x|intros _]).
  - apply total_logged, safe_ensureService.
  - apply total_ensureSecret.
  - apply total_logged, safe_EnsureEndpoints.
  - apply total_forM, total_ensureIngress.
Qed.

Lemma total_apply_custom app params : total (apply_custom kc app params).
Proof.
  apply total_bind; [|intros _].
  - destruct (params !! _); [|apply total_ret]. apply total_forM. intros ing.
    destruct (ing_Rules ing); [apply total_ret|]. apply total_when.
    apply total_bind; [|intros _; apply total_ensureIngress].
    destruct (ing_TLS ing); [apply total_ret|]. apply total_forM. intros sec.
    apply total_when, total_ensureSecret.
  - destruct (params !! _); [|apply total_ret]. apply total_forM. intros ing.
    apply total_when, total_ensureIngress.
Qed.

Lemma total_apply_deletions app : total (apply_deletions kc app).
Proof.
  repeat (apply total_bind; [|intros _]); apply total_forM; intros x;
    (apply total_bind; [apply total_api_err|intros _; apply total_ret]).
Qed.

(** *** The upgrade loops *)

(** Every object of the map is filed under its own name. *)
Definition keyed {k} (m : gmap string (obj k)) : Prop :=
  ∀ s o, m !! s = Some o → obj_name o = s.

Lemma keyed_name_map {k} (l : list (obj k)) : keyed (name_map l).
Proof.
  unfold name_map. assert (keyed (k := k) ∅) as H0 by (intros s o; by rewrite lookup_empty).
  revert H0. generalize (∅ : gmap string (obj k)).
  induction l as [|x l IH]; intros m Hm; simpl; [done|]. apply IH.
  intros s o. rewrite lookup_insert. split_decide; [congruence|apply Hm].
Qed.

Lemma name_map_lookup {k} (l : list (obj k)) s :
  is_Some (name_map l !! s) ↔ s ∈ obj_name <$> l.
Proof.
  unfold name_map. cut (∀ m : gmap string (obj k),
    is_Some (foldl (λ m o, <[obj_name o := o]> m) m l !! s) ↔
    s ∈ obj_name <$> l ∨ is_Some (m !! s)).
  { intros ->. rewrite lookup_empty. split; [by intros [?|[? ?]]|by left]. }
  induction l as [|x l IH]; intros m; cbn [foldl].
  { split; [by right|]. intros [H'%not_elem_of_nil|?]; done. }
  rewrite IH, fmap_cons, elem_of_cons, lookup_insert. split_decide; naive_solver.
Qed.

Definition key (k : kind) (o : obj k) : kind * string * string := (k, obj_ns o, obj_name o).
Arguments key {k} o.

Definition at_key (c : C) (x : kind * string * string) : option (obj x.1.1) :=
  kl c x.1.1 x.1.2 x.2.

(** Only the objects listed in [ks] may differ. *)
Definition only (ks : list (kind * string * string)) (c c' : C) : Prop :=
  ∀ x, x ∉ ks → at_key c' x = at_key c x.

Lemma only_refl ks c : only ks c c.
Proof. by intros x _. Qed.

Lemma only_trans ks1 ks2 c1 c2 c3 : only ks1 c1 c2 → only ks2 c2 c3 → only (ks1 ++ ks2) c1 c3.
Proof.
  intros H1 H2 x Hx. rewrite not_elem_of_app in Hx. destruct Hx.
  by rewrite H2, H1.
Qed.

Lemma only_mono ks ks' c c' : ks ⊆ ks' → only ks c c' → only ks' c c'.
Proof. intros Hs H1 x Hx. apply H1. set_solver. Qed.

Lemma with_version_of_key {k} (o n : obj k) :
  obj_ns (with_version_of o n) = obj_ns n ∧ obj_name (with_version_of o n) = obj_name n.
Proof. by destruct k. Qed.

Definition strict (handleErr : api_error → option error) : Prop := ∀ e, handleErr e ≠ None.

Lemma on_error_strict {A} h e (a b : A) (c c' : C) :
  strict h → on_error h e a c = (c', Ok b) → False.
Proof. intros Hs. unfold on_error. specialize (Hs e). by destruct (h e). Qed.

Lemma create_present k (n : obj k) c c' x :
  kc_create kc k (obj_ns n) n c = (c', (Some x, None)) → is_Some (at_key c' (key n)) ∧ only [key n] c c'.
Proof.
  intros E. split.
  - destruct (kl_create_ok _ _ _ _ _ _ E) as (y & _ & _ & Hy). unfold at_key. simpl. eauto.
  - intros [[k' ns'] n'] Hx. unfold at_key. simpl.
    replace c' with (kc_create kc k (obj_ns n) n c).1 by (by rewrite E).
    apply kl_create_frame. unfold key in Hx. set_solver.
Qed.

Lemma update_present k (n n0 : obj k) c c' x :
  obj_ns n = obj_ns n0 → obj_name n = obj_name n0 → kc_update kc k (obj_ns n) n c = (c', (Some x, None)) →
  is_Some (at_key c' (key n0)) ∧ only [key n0] c c'.
Proof.
  intros Hns Hnm E. split.
  - destruct (kl_update_ok _ _ _ _ _ _ E) as (y & _ & _ & Hy). unfold at_key. simpl. rewrite <- Hns, <- Hnm. eauto.
  - intros [[k' ns'] n'] Hx. unfold at_key. simpl.
    replace c' with (kc_update kc k (obj_ns n) n c).1 by (by rewrite E).
    apply kl_update_frame. unfold key in Hx. rewrite Hns, Hnm. set_solver.
Qed.

Section replacing.
Context (stored : ∀ k, obj k → obj k → Prop) `{!StoresObjects kc kl stored}.

(** [as_given n o c]: at the key of [n] the cluster has [o], as the server completed it. *)
Definition as_given {k} (n o : obj k) (c : C) : Prop := ∃ y, at_key c (key n) = Some y ∧ stored k o y.

Lemma create_key k (n : obj k) c c' x :
  kc_create kc k (obj_ns n) n c = (c', (Some x, None)) →
  as_given n n c' ∧ only [key n] c c'.
Proof.
  intros E. split; [exact (so_create _ _ _ _ _ _ E)|]. by apply (create_present k n c c' x).
Qed.

Lemma update_key k (n n0 : obj k) c c' x :
  obj_ns n = obj_ns n0 → obj_name n = obj_name n0 →
  kc_update kc k (obj_ns n) n c = (c', (Some x, None)) →
  as_given n0 n c' ∧ only [key n0] c c'.
Proof.
  intros Hns Hnm E. split; [|by apply (update_present k n n0 c c' x)].
  destruct (so_update _ _ _ _ _ _ E) as (y & Hy & Hs). exists y. split; [|done].
  unfold at_key. simpl. by rewrite <- Hns, <- Hnm.
Qed.

(** The new object as it is sent: with the version of the old one it replaces. *)
Definition sent {k} (m : gmap string (obj k)) (n : obj k) : obj k :=
  match m !! obj_name n with Some o => with_version_of o n | None => n end.

Lemma upgrade_step_ok k h su sc a m d n c c' a' m' d' :
  strict h → keyed m →
  upgrade_step kc k h su sc (a, m, d) n c = (c', Ok (a', m', d')) →
  m' = delete (obj_name n) m ∧ as_given n (sent m n) c' ∧ only [key n] c c'.
Proof.
  intros Hs Hm. unfold upgrade_step, sent. destruct (m !! obj_name n) as [o|] eqn:Eo.
  - unfold update, api, mbind, M_bind. set (n' := with_version_of o n).
    destruct (kc_update kc k (obj_ns n') n' c) as [c1 [[x|] [e|]]] eqn:E; simpl;
      intros Hr; try (by eapply on_error_strict in Hr); [|done].
    injection Hr as <- <- <- <-. rewrite (Hm _ _ Eo). split; [done|].
    destruct (with_version_of_key o n). by eapply update_key.
  - unfold create, api, mbind, M_bind.
    destruct (kc_create kc k (obj_ns n) n c) as [c1 [[x|] [e|]]] eqn:E; simpl;
      intros Hr; try (by eapply on_error_strict in Hr); [|done].
    injection Hr as <- <- <- <-. split; [by rewrite delete_id|]. by eapply create_key.
Qed.

Lemma upgrade_fold_ok k h su sc new : strict h → NoDup (obj_name <$> new) →
  ∀ a m d c c' a' m' d', keyed m →
  foldM (upgrade_step kc k h su sc) (a, m, d) new c = (c', Ok (a', m', d')) →
  keyed m' ∧ (∀ s, s ∈ obj_name <$> new → m' !! s = None) ∧
  (∀ s, s ∉ obj_name <$> new → m' !! s = m !! s) ∧
  (∀ n, n ∈ new → as_given n (sent m n) c') ∧ only (key <$> new) c c'.
Proof.
  intros Hs. induction new as [|n new IH]; intros Hnd a m d c c' a' m' d' Hm Hr.
  { injection Hr as <- <- <- <-. split_and!; try done; [by intros ? ?%not_elem_of_nil..]. }
  rewrite fmap_cons in Hnd |- *. apply NoDup_cons in Hnd as [Hn Hnd].
  cbn [foldM] in Hr. apply bind_ok_inv in Hr as (c1 & [[a1 m1] d1] & H1 & H2).
  apply upgrade_step_ok in H1 as (-> & Hpres & Honly); [|done..].
  apply IH in H2 as (Hk & Hgone & Hsame & Hall & Ho2); [|done|].
  2: { intros s o. rewrite lookup_delete. split_decide; [done|apply Hm]. }
  split; [done|]. split; [|split; [|split]].
  - intros s [->|Hin]%elem_of_cons; [|auto]. by rewrite Hsame, lookup_delete_eq.
  - intros s [Hne Hin]%not_elem_of_cons. rewrite Hsame, lookup_delete_ne by done. done.
  - intros x [->|Hin]%elem_of_cons.
    2: { specialize (Hall x Hin). unfold sent in *. rewrite lookup_delete_ne in Hall; [done|].
         intros E. apply Hn. rewrite E. by apply list_elem_of_fmap_2. }
    destruct Hpres as (y0 & Hy0 & Hst). exists y0. split; [|done].
    rewrite Ho2; [done|]. intros (y & Hy & Hin)%list_elem_of_fmap.
    apply Hn, list_elem_of_fmap. exists y. split; [|done]. by injection Hy.
  - eapply only_mono; [|by eapply only_trans]. rewrite fmap_cons. set_solver.
Qed.

Lemma delete_key k (o : obj k) c c' :
  kc_delete kc k (obj_ns o) (obj_name o) c = (c', None) ∨
  kc_delete kc k (obj_ns o) (obj_name o) c = (c', Some NotFound) →
  gone (at_key c' (key o)) ∧ only [key o] c c'.
Proof.
  intros HE. split.
  - destruct HE as [E|E].
    + by apply kl_delete_ok in E.
    + apply kl_delete_missing in E as [-> E]. unfold at_key. simpl. by rewrite E.
  - intros [[k' ns'] n'] Hx. unfold at_key. simpl.
    replace c' with (kc_delete kc k (obj_ns o) (obj_name o) c).1 by (by destruct HE as [-> | ->]).
    apply kl_delete_frame. unfold key in Hx. set_solver.
Qed.

Lemma delete_loop_ok k h (l : list (string * obj k)) : strict h → NoDup l.*1 →
  (∀ s o, (s, o) ∈ l → obj_name o = s) →
  ∀ c c' u, forM l (λ '(_, o), r ← delete_ kc k (obj_ns o) (obj_name o);
      match r with Some e => on_error h e () | None => mret () end) c = (c', Ok u) →
  (∀ s o, (s, o) ∈ l → gone (at_key c' (key o))) ∧ only (key <$> l.*2) c c'.
Proof.
  intros Hs. induction l as [|[s o] l IH]; intros Hnd Hk c c' u Hr.
  { injection Hr as <- <-. split; [by intros ? ? ?%not_elem_of_nil|done]. }
  apply NoDup_cons in Hnd as [Hn Hnd]. cbn [forM] in Hr.
  apply bind_ok_inv in Hr as (c1 & [] & H1 & H2).
  apply bind_ok_inv in H1 as (c2 & r & H1 & H3).
  unfold delete_, api_err in H1. destruct (kc_delete _ _ _ _ c) as [c3 r'] eqn:E. simplify_eq.
  destruct r as [e|]; [by eapply on_error_strict in H3|]. injection H3 as ->.
  destruct (delete_key k o c c1 (or_introl E)) as [Hgone Ho].
  apply IH in H2 as [Hall Ho2]; [|done|by set_solver]. split.
  - intros s' o' [Heq|Hin]%elem_of_cons; [|by eapply Hall].
    simplify_eq. rewrite Ho2; [done|].
    intros (y & Hy & (p & -> & Hin)%list_elem_of_fmap)%list_elem_of_fmap. destruct p as [s'' o''].
    apply Hn, list_elem_of_fmap. exists (s'', o''). split; [|done]. simpl.
    rewrite <- (Hk s'' o'') by set_solver. rewrite <- (Hk s o) by set_solver. by injection Hy.
  - eapply only_mono; [|by eapply only_trans]. cbn. set_solver.
Qed.

Lemma name_map_Some {k} (l : list (obj k)) s o :
  name_map l !! s = Some o → o ∈ l ∧ obj_name o = s.
Proof.
  intros Hs. split; [|by eapply keyed_name_map]. revert Hs. unfold name_map.
  cut (∀ m : gmap string (obj k), foldl (λ m o, <[obj_name o := o]> m) m l !! s = Some o →
    o ∈ l ∨ m !! s = Some o).
  { intros Hc [?|Hs]%Hc; [done|by rewrite lookup_empty in Hs]. }
  induction l as [|x l IH]; intros m; cbn [foldl]; [by right|].
  intros [?|Hi]%IH; [set_solver|]. rewrite lookup_insert in Hi.
  destruct (decide (obj_name x = s)); [|by right]. simplify_eq. set_solver.
Qed.

Lemma name_map_elem {k} (l : list (obj k)) o :
  NoDup (obj_name <$> l) → o ∈ l → name_map l !! obj_name o = Some o.
Proof.
  intros Hnd Ho. destruct (proj2 (name_map_lookup l (obj_name o))) as [o' Eo'].
  { apply list_elem_of_fmap. eauto. }
  rewrite Eo'. apply name_map_Some in Eo' as [Hin Hn]. f_equal.
  apply list_elem_of_lookup in Hin as [i Hi], Ho as [j Hj].
  assert (i = j) as ->; [|congruence].
  eapply (NoDup_lookup _ _ _ (obj_name o)); [exact Hnd|..];
    rewrite list_lookup_fmap, ?Hi, ?Hj; simpl; congruence.
Qed.

(** The cluster after a replacement: every new object is stored as it was given,
    with the version of the old one of its name, every old object without a successor is gone, and nothing else was touched. *)
Record upgraded (k : kind) (old new : list (obj k)) (c c' : C) : Prop := {
  upg_new n : n ∈ new → as_given n (sent (name_map old) n) c';
  upg_old o : o ∈ old → obj_name o ∉ obj_name <$> new → gone (at_key c' (key o));
  upg_only : only (key <$> new ++ old) c c'
}.

Lemma upgrade_objects_ok `{!GoRuntimeLaws} k h su sc a old new c c' r :
  strict h → NoDup (obj_name <$> new) → NoDup (obj_name <$> old) →
  upgrade_objects kc k h su sc a old new c = (c', Ok r) → upgraded k old new c c'.
Proof.
  intros Hs Hn Ho Hr. unfold upgrade_objects in Hr.
  apply bind_ok_inv in Hr as (c1 & [[a1 m1] d1] & H1 & H2).
  apply upgrade_fold_ok in H1 as (Hk & Hgone & Hsame & Hall & Hon1);
    [|done|done|apply keyed_name_map].
  apply bind_ok_inv in H2 as (c2 & [] & H2 & H3). injection H3 as <- _.
  assert (∀ s o, (s, o) ∈ range_order m1 ↔ m1 !! s = Some o) as Hin.
  { intros s o. rewrite range_order_perm. apply elem_of_map_to_list. }
  apply delete_loop_ok in H2 as [Hdel Hon2]; [|done| |].
  2: { rewrite range_order_perm. apply NoDup_fst_map_to_list. }
  2: { intros s o Hso. by apply Hk, Hin. }
  assert (∀ s o, m1 !! s = Some o → o ∈ old ∧ s ∉ obj_name <$> new) as Hm1.
  { intros s o Hso. destruct (decide (s ∈ obj_name <$> new)) as [Hs'|Hs'].
    - by rewrite Hgone in Hso.
    - rewrite Hsame in Hso by done. by apply name_map_Some in Hso as []. }
  split.
  - intros n Hnn. destruct (Hall n Hnn) as (y0 & Hy0 & Hst). exists y0. split; [|done]. rewrite Hon2; [done|].
    intros (o & Hy & ([s o'] & -> & Hso)%list_elem_of_fmap)%list_elem_of_fmap. simpl in Hy.
    apply Hin in Hso. apply (Hm1 s o'); [done|]. apply Hk in Hso as <-.
    apply list_elem_of_fmap. exists n. split; [by injection Hy|done].
  - intros o Hoo Hnn. eapply Hdel, Hin. rewrite Hsame by done. by apply name_map_elem.
  - eapply only_mono; [|by eapply only_trans]. rewrite fmap_app.
    intros x [?|(o & -> & ([s o'] & -> & Hso)%list_elem_of_fmap)%list_elem_of_fmap]%elem_of_app;
      [set_solver|].
    apply elem_of_app. right. apply list_elem_of_fmap. exists o'. split; [done|].
    by eapply Hm1, Hin.
Qed.

End replacing.

Lemma persist_keeps_spec i err svc c ns n :
  svc_Spec <$> kl (persist_loop kc i err svc c).1 KService ns n =
  svc_Spec <$> kl c KService ns n.
Proof.
  revert err c. induction i as [|i IH]; intros err c; cbn [persist_loop]; [by destruct err|].
  unfold api at 1, mbind at 1, M_bind at 1.
  pose proof (kl_update_status_frame c (m_Namespace (svc_meta svc)) svc KService ns n) as Hf.
  pose proof (kl_update_status_spec c (m_Namespace (svc_meta svc)) svc) as Hspec.
  assert (svc_Spec <$>
    kl (kc_update_status kc (m_Namespace (svc_meta svc)) svc c).1 KService ns n =
    svc_Spec <$> kl c KService ns n) as Heq.
  { destruct (decide (ns = m_Namespace (svc_meta svc))) as [->|Hne]; [apply Hspec|].
    rewrite Hf; [done|congruence]. }
  destruct (kc_update_status kc _ svc c) as [c1 [r [e|]]]; simpl in *; [|done].
  destruct (IsNotFound e); [done|]. destruct (IsConflict e); [done|].
  rewrite IH. done.
Qed.

Lemma safe_check_namespace app : safe (check_namespace kc app).
Proof.
  unfold check_namespace. apply safe_bind; [apply total_safe, total_api|].
  intros [? [e|]]; cbn [snd]; [|apply safe_ret].
  destruct (IsNotFound e); [|apply safe_fail]. apply safe_bind.
  - unfold create_opt. destruct (GetTenant app); apply total_safe, total_api.
  - intros [? [e'|]]; cbn [snd]; [|apply safe_ret].
    destruct (negb (IsAlreadyExists e')); apply safe_fail.
Qed.

(** *** Properties *)

(** C4 (refinement): with an error policy that gives up on the first error, a
    replacement of ingresses, secrets or service monitors that returns without
    error leaves every new object stored as it was given, with the version of
    the old object of its name, and every old object without a successor gone
    or being deleted, and touches nothing else in the cluster.  [stored] is what
    the server makes of an object it is given. *)
Theorem upgrade_replaces `{!GoRuntimeLaws} (stored : ∀ k, obj k → obj k → Prop)
    `{!StoresObjects kc kl stored} (h : api_error → option error) (a : AppService)
    (c c' : C) (Hstrict : strict h) :
  (∀ old new r, NoDup (obj_name (k := KIngress) <$> new) → NoDup (obj_name (k := KIngress) <$> old) →
     UpgradeIngress kc h a old new c = (c', Ok r) → upgraded stored KIngress old new c c') ∧
  (∀ old new r, NoDup (obj_name (k := KSecret) <$> new) → NoDup (obj_name (k := KSecret) <$> old) →
     UpgradeSecrets kc h a old new c = (c', Ok r) → upgraded stored KSecret old new c c') ∧
  (∀ old new r, NoDup (obj_name (k := KServiceMonitor) <$> new) →
     NoDup (obj_name (k := KServiceMonitor) <$> old) →
     UpgradeServiceMonitor kc h a old new c = (c', Ok r) → upgraded stored KServiceMonitor old new c c').
Proof. split_and!; intros old new r Hn Ho Hr; by eapply upgrade_objects_ok. Qed.

(** The same replacement under a policy that swallows errors, as
    the upgrade controller uses it, deletes an object whose update failed: an
    old object leaves the map of leftovers only after a successful update, and
    leftovers are deleted at the end. *)
Theorem failed_update_deletes `{!GoRuntimeLaws} (h : api_error → option error) (a : AppService)
    (o n : Secret) (c c1 : C) (res : option Secret) (e : api_error)
    (Hlenient : ∀ e, h e = None) (Hname : pl_name n = pl_name o)
    (Hfail : kc_update kc KSecret (obj_ns (k := KSecret) n)
      (with_version_of (k := KSecret) o n) c = (c1, (res, Some e))) :
  (UpgradeSecrets kc h a [o] [n] c).1 =
  (kc_delete kc KSecret (obj_ns (k := KSecret) o) (pl_name o) c1).1.
Proof.
  unfold UpgradeSecrets, upgrade_objects. cbn [foldM].
  assert (name_map (k := KSecret) [o] = {[pl_name o := o]}) as Hm by done.
  assert ((upgrade_step kc KSecret h (λ _ sec, SetSecret (Some sec)) (λ sec, SetSecret (Some sec))
    (a, name_map (k := KSecret) [o], []) n c) = (c1, Ok (a, name_map (k := KSecret) [o], [with_version_of (k := KSecret) o n])))
    as Hstep.
  { unfold upgrade_step. rewrite Hm. change (obj_name (k := KSecret) n) with (pl_name n).
    rewrite Hname, lookup_singleton_eq. unfold update, api, mbind, M_bind.
    change (obj_ns (k := KSecret) (with_version_of (k := KSecret) o n))
      with (obj_ns (k := KSecret) n).
    rewrite Hfail. unfold on_error. destruct res; by rewrite Hlenient. }
  unfold mbind at 1, M_bind at 1. unfold mbind at 1, M_bind at 1. rewrite Hstep. simpl.
  assert (range_order (name_map (k := KSecret) [o]) = [(pl_name o, o)]) as Hord.
  { apply Permutation_singleton_r. rewrite range_order_perm, Hm.
    by rewrite map_to_list_singleton. }
  unfold delete_unmatched. rewrite Hord. simpl.
  unfold delete_, api_err, mbind, M_bind.
  change (obj_name (k := KSecret) o) with (pl_name o).
  destruct (kc_delete _ _ _ _ c1) as [c2 [e2|]]; simpl; [|done].
  unfold on_error. by rewrite Hlenient.
Qed.

(** The specification of an existing service never changes, since
    [persistUpdate] writes it through the status subresource. *)
Theorem ensure_service_keeps_spec (new old : Service) (c : C)
    (Hold : kl c KService (m_Namespace (svc_meta new)) (svc_name new) = Some old) :
  svc_Spec <$> kl (EnsureService kc new c).1 KService (m_Namespace (svc_meta new)) (svc_name new)
  = Some (svc_Spec old).
Proof.
  pose proof (kl_get_state c KService (m_Namespace (svc_meta new)) (svc_name new)) as Hst.
  unfold EnsureService, ensureService, get, api, mbind at 1, M_bind at 1.
  destruct (kc_get kc KService _ _ c) as [c1 [r [e|]]] eqn:E; simpl in Hst; subst c1.
  - destruct (IsNotFound e) eqn:En.
    + apply bool_decide_eq_true in En as ->.
      assert (kl c KService (m_Namespace (svc_meta new)) (svc_name new) = None); [|congruence].
      eapply kl_get_missing. by rewrite E.
    + destruct r; simpl; by rewrite Hold.
  - destruct r as [got|]; [|simpl; by rewrite Hold].
    unfold persistUpdate. rewrite persist_keeps_spec. by rewrite Hold.
Qed.

Lemma safe_ApplyOne app : safe (ApplyOne kc app).
Proof.
  apply safe_bind; [apply safe_check_namespace|]. intros _. apply safe_bind.
  - apply total_safe. destruct (CustomParams app); [apply total_apply_custom|apply total_apply_all].
  - intros _. apply total_safe, total_apply_deletions.
Qed.

(** Applying the rules of a component cannot panic, and the only
    error it returns is that of the namespace check; every later failure is
    swallowed. *)
Theorem apply_one_errors (app : AppService) (c : C) :
  match check_namespace kc app c with
  | (c1, Ok _) => ∃ c', ApplyOne kc app c = (c', Ok ())
  | (c1, Err e) => ApplyOne kc app c = (c1, Err e)
  | (c1, Panic) => False
  end.
Proof.
  pose proof (safe_run _ (safe_check_namespace app) c) as Hs.
  assert (total (_ ← match CustomParams app with
      | Some params => apply_custom kc app params
      | None => apply_all kc app
      end; apply_deletions kc app)) as Ht.
  { apply total_bind; [|intros _; apply total_apply_deletions].
    destruct (CustomParams app); [apply total_apply_custom|apply total_apply_all]. }
  unfold ApplyOne. rewrite bind_unfold. revert Hs.
  destruct (check_namespace kc app c) as [c1 [[]|e|]]; intros Hs; [|reflexivity|by apply Hs].
  destruct (total_run _ Ht c1) as (c' & [] & E). eauto.
Qed.

(** Losing the race to create the namespace makes the whole
    application of rules fail, although the code means to tolerate it. *)
Theorem namespace_race_fails (app : AppService) (c c1 : C) (ns : Plain) r r'
    (Htenant : tenant app = Some ns)
    (Hget : kc_get kc KNamespace "" (TenantID app) c = (c, (r, Some NotFound)))
    (Hcreate : kc_create kc KNamespace "" ns c = (c1, (r', Some AlreadyExists))) :
  ApplyOne kc app c =
    (c1, Err (EWrap "error checking namespace" (EApi AlreadyExists))).
Proof.
  unfold ApplyOne, check_namespace, get, create_opt, GetTenant, create, api, mbind, M_bind.
  rewrite Hget. simpl. rewrite Htenant. by rewrite Hcreate.
Qed.

(** Creating or updating a secret returns without error only
    with the secret stored, and touches no other object. *)
Theorem create_or_update_secret_ok (secret : Secret) (c c' : C) u
    (Hok : CreateOrUpdateSecret kc secret c = (c', Ok u)) :
  is_Some (at_key c' (key (k := KSecret) secret)) ∧ only [key (k := KSecret) secret] c c'.
Proof.
  unfold CreateOrUpdateSecret, get in Hok. rewrite bind_unfold in Hok. unfold api in Hok.
  pose proof (kl_get_state c KSecret (m_Namespace (pl_meta secret)) (pl_name secret)) as Hst.
  destruct (kc_get kc KSecret _ _ c) as [c1 [r [e|]]] eqn:E; simpl in Hst; subst c1.
  - assert (IsNotFound e = true ∧ (create kc KSecret (obj_ns (k := KSecret) secret) secret ≫=
      λ r, match r.2 with Some e => fail (EApi e) | None => mret () end) c = (c', Ok u)) as [_ Hc].
    { destruct (IsNotFound e); [split; [done|]; by destruct r|by destruct r]. }
    unfold create, api in Hc. rewrite bind_unfold in Hc.
    destruct (kc_create kc KSecret _ _ c) as [c2 [x [e'|]]] eqn:Ec; [done|].
    injection Hc as ->. destruct (kl_create_ok _ _ _ _ _ _ Ec) as (y & -> & _ & _).
    by eapply create_present.
  - destruct r as [old|]; [|done]. unfold update, api in Hok. rewrite bind_unfold in Hok.
    destruct (kc_update kc KSecret _ _ c) as [c2 [x [e'|]]] eqn:Ec; [done|].
    injection Hok as ->. destruct (kl_update_ok _ _ _ _ _ _ Ec) as (y & -> & _ & _).
    by apply (update_present KSecret (secret <| pl_meta ::= λ m : ObjectMeta,
      m <| m_ResourceVersion := m_ResourceVersion (pl_meta old) |> |>) secret c c' y).
Qed.
End with_laws.
End ensure_lemmas.

(** ** Witnesses *)

#[local] Existing Instance ref_runtime.
#[local] Existing Instance ref_runtime_laws.

Definition demo_secret (n rest : string) : Plain := mkPlain (demo_meta n) rest.
Definition demo_cluster : RefKube.cluster :=
  (RefKube.create KSecret "tenant" (demo_secret "s2" "old")
     (RefKube.create KSecret "tenant" (demo_secret "s1" "old") RefKube.empty).1).1.

Definition strict_policy (e : api_error) : option error := Some (EApi e).

Lemma strict_policy_strict : strict strict_policy.
Proof. by intros e. Qed.

Definition demo_upgrade : RefKube.cluster * result (AppService * list Plain) :=
  UpgradeSecrets RefKube.client strict_policy demo_app
    [demo_secret "s1" "old"; demo_secret "s2" "old"]
    [demo_secret "s2" "new"; demo_secret "s3" "new"] demo_cluster.

Definition demo_upgraded : AppService * list Plain :=
  match demo_upgrade.2 with Ok r => r | _ => (demo_app, []) end.

(** The reference server stores what it is given. *)
Definition stored_exactly (k : kind) (o x : obj k) : Prop := x = o.
#[export] Instance ref_stores : StoresObjects RefKube.client RefKube.lookup stored_exactly.
Proof.
  split; intros s k ns o s' x; cbn; unfold RefKube.create, RefKube.update; destruct (RefKube.lookup s k ns _);
    intros [= <- _]; exists o; (split; [|done]); rewrite RefKube.lookup_upd_same; apply lookup_insert_eq.
Qed.

Lemma upgrade_replaces_witness :
  gone (RefKube.lookup demo_upgrade.1 KSecret "tenant" "s1") ∧
  RefKube.lookup demo_upgrade.1 KSecret "tenant" "s2" = Some (demo_secret "s2" "new").
Proof.
  assert (upgraded RefKube.lookup stored_exactly KSecret
    [demo_secret "s1" "old"; demo_secret "s2" "old"]
    [demo_secret "s2" "new"; demo_secret "s3" "new"] demo_cluster demo_upgrade.1) as [Hn Ho _].
  { apply (proj1 (proj2 (upgrade_replaces RefKube.client RefKube.lookup stored_exactly strict_policy demo_app
      demo_cluster demo_upgrade.1 strict_policy_strict)) _ _ demo_upgraded).
    - apply (bool_decide_unpack _). vm_compute. exact I.
    - apply (bool_decide_unpack _). vm_compute. exact I.
    - reflexivity. }
  split.
  - exact (Ho (demo_secret "s1" "old") ltac:(set_solver)
      ltac:(apply (bool_decide_unpack _); vm_compute; exact I)).
  - destruct (Hn (demo_secret "s2" "new") ltac:(set_solver)) as (y & Hy & ->). exact Hy.
Defined.

(** A server on which every update conflicts. *)
Definition conflicting : KubeClient RefKube.cluster := {|
  kc_get := RefKube.get;
  kc_create := RefKube.create;
  kc_create_nil k ns s := (s, (None, Some Invalid));
  kc_update k ns o s := (s, (None, Some Conflict));
  kc_update_status := RefKube.update_status;
  kc_delete := RefKube.remove;
  kc_patch k ns n body s := (s, Some Conflict);
  kc_has_monitor_crd s := false;
  kc_has_monitor_client s := false
|}.

Lemma failed_update_deletes_witness :
  RefKube.lookup demo_cluster KSecret "tenant" "s1" = Some (demo_secret "s1" "old") ∧
  RefKube.lookup
    (UpgradeSecrets conflicting (λ _, None) demo_app [demo_secret "s1" "old"]
       [demo_secret "s1" "new"] demo_cluster).1 KSecret "tenant" "s1" = None.
Proof.
  split; [reflexivity|].
  rewrite (failed_update_deletes conflicting (λ _, None) demo_app (demo_secret "s1" "old")
    (demo_secret "s1" "new") demo_cluster demo_cluster None Conflict); reflexivity.
Defined.

Definition demo_service (port : Z) : Service :=
  mkService (demo_meta "web")
    (mkServiceSpec [mkServicePort "tcp" "TCP" port port] ∅ "ClusterIP" "" false "").
Definition service_cluster : RefKube.cluster :=
  (RefKube.create KService "tenant" (demo_service 80) RefKube.empty).1.

Lemma ensure_service_keeps_spec_witness :
  svc_Spec <$> RefKube.lookup
    (EnsureService RefKube.client (demo_service 8080) service_cluster).1
    KService "tenant" "web" = Some (svc_Spec (demo_service 80)).
Proof.
  exact (ensure_service_keeps_spec RefKube.client RefKube.lookup (demo_service 8080)
    (demo_service 80) service_cluster eq_refl).
Defined.

Lemma apply_one_errors_witness :
  ∃ c', ApplyOne RefKube.client (demo_app <| tenant := Some (demo_plain "tenant") |>)
    RefKube.empty = (c', Ok ()).
Proof.
  exact (apply_one_errors RefKube.client RefKube.lookup
    (demo_app <| tenant := Some (demo_plain "tenant") |>) RefKube.empty).
Defined.

(** A server where another client creates the namespace between the two calls. *)
Definition racing : KubeClient RefKube.cluster := {|
  kc_get k ns n s := (s, (None, Some NotFound));
  kc_create k ns o s := (s, (None, Some AlreadyExists));
  kc_create_nil k ns s := (s, (None, Some Invalid));
  kc_update := RefKube.update;
  kc_update_status := RefKube.update_status;
  kc_delete := RefKube.remove;
  kc_patch k ns n body s := (s, None);
  kc_has_monitor_crd s := false;
  kc_has_monitor_client s := false
|}.

Lemma namespace_race_fails_witness :
  (ApplyOne racing (demo_app <| tenant := Some (demo_plain "tenant") |>) RefKube.empty).2 =
  Err (EWrap "error checking namespace" (EApi AlreadyExists)).
Proof.
  rewrite (namespace_race_fails racing (demo_app <| tenant := Some (demo_plain "tenant") |>)
    RefKube.empty RefKube.empty (demo_plain "tenant") None None); reflexivity.
Defined.

Lemma create_or_update_secret_ok_witness :
  ∃ c', CreateOrUpdateSecret RefKube.client (demo_secret "s3" "new") demo_cluster = (c', Ok ()) ∧
    is_Some (RefKube.lookup c' KSecret "tenant" "s3").
Proof.
  eexists. split; [reflexivity|].
  eapply (proj1 (create_or_update_secret_ok RefKube.client RefKube.lookup
    (demo_secret "s3" "new") demo_cluster _ () eq_refl)).
Defined.
