(* ===== verification/Store.v ===== *)
(** * The runtime store: informer events, lookups, statuses

    [worker/appm/store/store.go] and [resource.go].  The store maps service
    ids to cached components.  Informer callbacks ([OnAdd], [OnUpdate],
    [OnDeletes] and the pod handlers) are state transformers; a cached
    component is shared by pointer, so a write through a component returned
    by the store is a write to the store's map. *)
From stdpp Require Import pretty.
From S2P Require Import Prelude Kube AppService AppStatus.

(** The objects the informers report. *)
Inductive informer_object :=
  | IThirdComponent (labels : gmap string string) (o : runtime_object)
  | IDeployment (d : Deployment)
  | IStatefulSet (d : StatefulSet)
  | IReplicaSet (d : ReplicaSet)
  | ISecret (d : Secret)
  | IService (d : Service)
  | IIngress (d : Ingress)
  | IConfigMap (d : ConfigMap)
  | IHPA (d : HPA)
  | IStorageClass (d : StorageClass)
  | IClaim (d : Claim)
  | IServiceMonitor (d : ServiceMonitor).

(** A health probe for one endpoint of a third-party component. *)
Record ProbeInfo := mkProbeInfo { pi_Sid : string; pi_UUID : string; pi_IP : string; pi_Port : Z }.
#[export] Instance ProbeInfo_eq_dec : EqDecision ProbeInfo.
Proof. solve_decision. Defined.

(** What the store tells the outside world: offers on the listener channels
    (dropped by a listener that is not ready) and messages to the prober. *)
Inductive store_event :=
  | PodUpdated (p : Pod)
  | VolumeTypeSeen (sc : StorageClass)
  | ProbeCreated (infos : list ProbeInfo)
  | ProbeUpdated (infos : list ProbeInfo)
  | ProbeDeleted (uuids : list string).

(** ** Probes of third-party endpoints *)

Definition probe_of (sid ip : string) (port : string * Z) : ProbeInfo :=
  mkProbeInfo sid (ip +:+ "_" +:+ pretty port.2) ip port.2.

Definition same_probe (c pi : ProbeInfo) : bool :=
  bool_decide (pi_IP c = pi_IP pi ∧ pi_Port c = pi_Port pi).

Definition addProbe (infos : list ProbeInfo) (pi : ProbeInfo) : list ProbeInfo :=
  if existsb (λ c, same_probe c pi) infos then infos else infos ++ [pi].

Definition domain_of (ep : Endpoints) : option string :=
  domain ← m_Annotations (ep_meta ep) !! "domain"%string;
  if decide (domain = ""%string) then None else Some domain.

Definition subset_probes (sid : string) (infos : list ProbeInfo) (s : EndpointSubset) :
    list ProbeInfo :=
  foldl (λ infos port,
    foldl (λ infos ip, addProbe infos (probe_of sid ip port)) infos
      (ss_NotReadyAddresses s ++ ss_Addresses s)) infos (ss_Ports s).

(** A domain endpoint has one probe, for the first port there is. *)
Definition listProbeInfos (ep : Endpoints) (sid : string) : list ProbeInfo :=
  match domain_of ep, mjoin (ss_Ports <$> ep_Subsets ep) with
  | Some domain, port :: _ => [probe_of sid domain port]
  | _, _ => foldl (subset_probes sid) [] (ep_Subsets ep)
  end.

Definition isThirdParty (ep : Endpoints) : bool :=
  bool_decide (get_str (m_Labels (ep_meta ep)) "service-kind" = "third_party"%string).

(** The probes to stop are named after the first port of each subset, which
    must exist. *)
Fixpoint stop_uuids (l : list EndpointSubset) : option (list string) :=
  match l with
  | [] => Some []
  | s :: l' =>
    match ss_Ports s, stop_uuids l' with
    | port :: _, Some uuids => Some (port.1 :: uuids)
    | _, _ => None
    end
  end.

Inductive endpoints_event :=
  | EpAdded (ep : Endpoints) | EpChanged (old ep : Endpoints) | EpRemoved (ep : Endpoints).

Abbreviation NamespaceResource := (gmap string PodResource).

Record Store (C : Type) := mkStore {
  st_cluster : C;
  st_apps : gmap string AppService;
  st_count : Z;
  st_resources : gmap string (gmap string PodResource);
  st_events : list store_event
}.
Arguments mkStore {C} _ _ _ _ _.
Arguments st_cluster {C} _.
Arguments st_apps {C} _.
Arguments st_count {C} _.
Arguments st_resources {C} _.
Arguments st_events {C} _.
#[export] Instance eta_Store C : Eta (Store C) := λ s,
  mkStore (st_cluster s) (st_apps s) (st_count s) (st_resources s) (st_events s).

(** ** The resource cache ([resource.go]) *)

Abbreviation resource_cache := (gmap string NamespaceResource).

Definition cache_set (pod : Pod) (r : resource_cache) : resource_cache :=
  let re := CalculatePodResource pod in
  let namespace := m_Namespace (pod_meta pod) in
  match r !! namespace with
  | Some nr => <[namespace := <[pod_name pod := re]> nr]> r
  | None => <[namespace := {[pod_name pod := re]}]> r
  end.

Definition cache_remove (pod : Pod) (r : resource_cache) : resource_cache :=
  let namespace := m_Namespace (pod_meta pod) in
  match r !! namespace with
  | Some nr => <[namespace := delete (pod_name pod) nr]> r
  | None => r
  end.

Record TenantResource := mkTenantResource {
  tr_Namespace : string;
  tr_MemoryRequest : Z;
  tr_MemoryLimit : Z;
  tr_CPURequest : Z;
  tr_CPULimit : Z
}.

Definition add_resource (tr : TenantResource) (v : PodResource) : TenantResource :=
  mkTenantResource (tr_Namespace tr) (int64 (tr_MemoryRequest tr + pr_MemoryRequest v))
    (int64 (tr_MemoryLimit tr + pr_MemoryLimit v)) (int64 (tr_CPURequest tr + pr_CPURequest v))
    (int64 (tr_CPULimit tr + pr_CPULimit v)).

Definition getTenantResource `{GoRuntime} (nr : option NamespaceResource) : TenantResource :=
  let zero := mkTenantResource "" 0 0 0 0 in
  match nr with
  | None => zero
  | Some nr => foldl add_resource zero (range_order nr).*2
  end.

Definition name_resource (namespace : string) (tr : TenantResource) : TenantResource :=
  mkTenantResource namespace (tr_MemoryRequest tr) (tr_MemoryLimit tr) (tr_CPURequest tr)
    (tr_CPULimit tr).

Definition GetTenantResource `{GoRuntime} (namespace : string) (r : resource_cache) :
    TenantResource := name_resource namespace (getTenantResource (r !! namespace)).

Definition GetAllTenantResource `{GoRuntime} (r : resource_cache) : list TenantResource :=
  (λ '(k, _), name_resource k (getTenantResource (r !! k))) <$> range_order r.

(** What a pod informer reports. *)
Inductive pod_event := PodAdded (p : Pod) | PodChanged (old p : Pod) | PodRemoved (p : Pod).

Definition cache_event (e : pod_event) : resource_cache → resource_cache :=
  match e with
  | PodAdded p | PodChanged _ p => cache_set p
  | PodRemoved p => cache_remove p
  end.

(** The labels every managed object carries. *)
Record owner := mkOwner { ow_service : string; ow_version : string; ow_creater : string }.
Definition owner_of (labels : gmap string string) : owner :=
  mkOwner (get_str labels "service_id") (get_str labels "version") (get_str labels "creater_id").

Definition owned (ow : owner) : bool := nonempty_string (ow_service ow) && nonempty_string (ow_creater ow).
Definition owned_version (ow : owner) : bool := owned ow && nonempty_string (ow_version ow).

(** Initialising a component reads the database. *)
Inductive init_error := ErrServiceNotFound | InitFailure.
#[export] Instance init_error_eq_dec : EqDecision init_error.
Proof. solve_decision. Defined.

Section store.
Context {C : Type} (kc : KubeClient C) `{ComponentKinds}.
(** [conversion.InitCacheAppService] (service id, creator id). *)
Context (InitCacheAppService : string → string → init_error + AppService).
(** [VolumeTypeDao().DeleteModelByVolumeTypes]: whether it succeeds. *)
Context (delete_volume_type : string → bool).

Abbreviation SM := (M (Store C)).

(** ** Lookup and registration *)

Definition RegistAppService (app : AppService) : SM unit :=
  modify (λ s, s <| st_apps ::= <[ServiceID app := app]> |> <| st_count ::= λ n, int32 (n + 1) |>).

(** The body of [DeleteAppService] is commented out. *)
Definition DeleteAppService (app : AppService) : SM unit := mret ().

Definition DeleteAppServiceByKey (k : string) : SM unit :=
  modify (λ s, s <| st_apps ::= delete k |> <| st_count ::= λ n, int32 (n - 1) |>).

Definition GetAppService (serviceID : string) (s : Store C) : option AppService :=
  st_apps s !! serviceID.

Definition GetAllAppServices `{GoRuntime} (s : Store C) : list AppService :=
  (range_order (st_apps s)).*2.

(** The component is named by the key it is stored under: [Some key], or the
    error of its initialisation, or nothing. *)
Definition getAppService (serviceID createrID : string) (creator : bool) :
    SM (option string * option init_error) := λ s,
  match GetAppService serviceID s with
  | Some _ => (s, Ok (Some serviceID, None))
  | None =>
    if creator then
      match InitCacheAppService serviceID createrID with
      | inl err => (s, Ok (None, Some err))
      | inr app => (RegistAppService app ≫= λ _, mret (Some (ServiceID app), None)) s
      end
    else (s, Ok (None, None))
  end.

(** A method call on a stored component. *)
Definition update_app (key : string) (f : AppService → result AppService) : SM unit := λ s,
  match st_apps s !! key with
  | None => (s, Ok ())
  | Some a =>
    match f a with
    | Ok a' => (s <| st_apps ::= <[key := a']> |>, Ok ())
    | Err e => (s, Err e)
    | Panic => (s, Panic)
    end
  end.

Definition on_cluster {A} (m : M C A) : SM A := λ s,
  let '(c, r) := m (st_cluster s) in (s <| st_cluster := c |>, r).

(** ** OnAdd *)

(** The common body of the branches: find or create the component, delete the
    object when the database does not know the service, store it otherwise. *)
Definition attach (ow : owner) (orphan : SM unit) (f : AppService → result AppService) : SM bool :=
  r ← getAppService (ow_service ow) (ow_creater ow) true;
  let '(app, err) := r in
  _ ← (if decide (err = Some ErrServiceNotFound) then orphan else mret ());
  match app with
  | Some key => _ ← update_app key f; mret true
  | None => mret false
  end.

Definition drop (k : kind) (ns n : string) : SM unit :=
  _ ← on_cluster (api_err (kc_delete kc k ns n)); mret ().

Definition drop_obj (k : kind) (o : obj k) : SM unit := drop k (obj_ns o) (obj_name o).

(** An old replica set without pods is removed once a newer one is current. *)
Definition checkReplicasetWhetherDelete (key : string) (rs : ReplicaSet) : SM unit := λ s,
  match st_apps s !! key ≫= GetCurrentReplicaSet with
  | Some current =>
    if negb (bool_decide (rs_name current = rs_name rs)) &&
       bool_decide (GetReplicaSetVersion rs < GetReplicaSetVersion current)%Z &&
       bool_decide (rs_Replicas rs = 0 ∧ rs_ReadyReplicas rs = 0 ∧ rs_AvailableReplicas rs = 0)%Z
    then drop KReplicaSet (m_Namespace (rs_meta rs)) (rs_name rs) s
    else (s, Ok ())
  | None => (s, Ok ())
  end.

Definition pure_op (f : AppService → AppService) (a : AppService) : result AppService := Ok (f a).

Definition add_third (labels : gmap string string) (o : runtime_object) : SM unit :=
  let ow := owner_of labels in
  when (owned ow) (_ ← attach ow (mret ()) (pure_op (SetWorkload o)); mret ()).

Definition add_deployment (d : Deployment) : SM unit :=
  let ow := owner_of (m_Labels (wl_meta d)) in
  when (owned_version ow)
    (_ ← attach ow (drop_obj KDeployment d) (SetDeployment d); mret ()).

Definition add_statefulset (d : StatefulSet) : SM unit :=
  let ow := owner_of (m_Labels (wl_meta d)) in
  when (owned_version ow)
    (_ ← attach ow (drop_obj KStatefulSet d) (SetStatefulSet d); mret ()).

(** The orphan branch names the replica set but deletes a Deployment. *)
Definition add_replicaset (d : ReplicaSet) : SM unit :=
  let ow := owner_of (m_Labels (rs_meta d)) in
  when (owned_version ow) (
    r ← getAppService (ow_service ow) (ow_creater ow) true;
    let '(app, err) := r in
    _ ← (if decide (err = Some ErrServiceNotFound)
         then drop KDeployment (m_Namespace (rs_meta d)) (rs_name d) else mret ());
    match app with
    | Some key => _ ← update_app key (pure_op (SetReplicaSets d)); checkReplicasetWhetherDelete key d
    | None => mret ()
    end).

Definition add_secret (d : Secret) : SM unit :=
  let ow := owner_of (m_Labels (pl_meta d)) in
  when (owned ow)
    (_ ← attach ow (drop_obj KSecret d) (pure_op (SetSecret (Some d))); mret ()).

Definition add_service (d : Service) : SM unit :=
  let ow := owner_of (m_Labels (svc_meta d)) in
  when (owned ow)
    (_ ← attach ow (drop_obj KService d) (pure_op (SetService d)); mret ()).

Definition add_ingress (d : Ingress) : SM unit :=
  let ow := owner_of (m_Labels (ing_meta d)) in
  when (owned ow)
    (_ ← attach ow (drop_obj KIngress d) (pure_op (SetIngress d)); mret ()).

Definition add_configmap (d : ConfigMap) : SM unit :=
  let ow := owner_of (m_Labels (pl_meta d)) in
  when (owned ow)
    (_ ← attach ow (drop_obj KConfigMap d) (pure_op (SetConfigMap d)); mret ()).

Definition add_hpa (d : HPA) : SM unit :=
  let ow := owner_of (m_Labels (pl_meta d)) in
  when (owned_version ow)
    (_ ← attach ow (drop_obj KHPA d) (pure_op (SetHPA d)); mret ()).

Definition add_storageclass (d : StorageClass) : SM unit :=
  modify (λ s, s <| st_events ::= λ l, l ++ [VolumeTypeSeen d] |>).

Definition add_claim (d : Claim) : SM unit :=
  let ow := owner_of (m_Labels (pl_meta d)) in
  when (owned ow)
    (_ ← attach ow (drop_obj KClaim d) (pure_op (SetClaim d)); mret ()).

Definition add_monitor (d : ServiceMonitor) : SM unit :=
  let ow := owner_of (m_Labels (pl_meta d)) in
  when (owned ow)
    (_ ← attach ow
      (b ← gets (λ s, kc_has_monitor_client kc (st_cluster s));
       when b (drop_obj KServiceMonitor d))
      (pure_op (SetServiceMonitor d)); mret ()).

(** An object has one type, so one branch of the chain of type tests runs. *)
Definition OnAdd (o : informer_object) : SM unit :=
  match o with
  | IThirdComponent labels o => add_third labels o
  | IDeployment d => add_deployment d
  | IStatefulSet d => add_statefulset d
  | IReplicaSet d => add_replicaset d
  | ISecret d => add_secret d
  | IService d => add_service d
  | IIngress d => add_ingress d
  | IConfigMap d => add_configmap d
  | IHPA d => add_hpa d
  | IStorageClass d => add_storageclass d
  | IClaim d => add_claim d
  | IServiceMonitor d => add_monitor d
  end.


(** ** OnUpdate *)

(** An ingress may move to another component. *)
Definition OnUpdate (oldObj newObj : informer_object) : SM unit :=
  _ ← match oldObj, newObj with
      | IIngress oldIngress, IIngress ingress =>
        let ow := owner_of (m_Labels (ing_meta oldIngress)) in
        if decide (ow_service ow = ow_service (owner_of (m_Labels (ing_meta ingress)))) then mret ()
        else
          r ← getAppService (ow_service ow) (ow_creater ow) true;
          match r.1 with
          | Some oldComponent => update_app oldComponent (pure_op (DeleteIngress oldIngress))
          | None => mret ()
          end
      | _, IIngress _ => panic
      | _, _ => mret ()
      end;
  OnAdd newObj.

(** ** OnDeletes *)

(** [if appservice.IsClosed() { a.DeleteAppService(appservice) }] *)
Definition drop_closed (key : string) : SM unit := λ s,
  match st_apps s !! key with
  | Some a => (when (IsClosed a) (DeleteAppService a)) s
  | None => (s, Ok ())
  end.

(** The common body: find (or create) the component and take the object out.
    The result says whether the function returned. *)
Definition detach (ok : bool) (ow : owner) (creator : bool) (f : AppService → AppService)
    (after : string → SM unit) : SM bool :=
  if ok then
    r ← getAppService (ow_service ow) (ow_creater ow) creator;
    match r.1 with
    | Some key => _ ← update_app key (pure_op f); _ ← after key; mret true
    | None => mret false
    end
  else mret false.

Definition detach_closed (ok : bool) (ow : owner) (creator : bool) (f : AppService → AppService) :
    SM bool := detach ok ow creator f drop_closed.

Definition delete_object (o : informer_object) : SM bool :=
  match o with
  | IThirdComponent labels o =>
    let ow := owner_of labels in detach_closed (owned_version ow) ow true (DeleteWorkload o)
  | IDeployment d =>
    let ow := owner_of (m_Labels (wl_meta d)) in
    detach_closed (owned_version ow) ow false (DeleteDeployment d)
  | IStatefulSet d =>
    let ow := owner_of (m_Labels (wl_meta d)) in
    detach_closed (owned_version ow) ow false (DeleteStatefulSet d)
  | IReplicaSet d =>
    let ow := owner_of (m_Labels (rs_meta d)) in
    detach_closed (owned_version ow) ow false (DeleteReplicaSet d)
  | ISecret d =>
    let ow := owner_of (m_Labels (pl_meta d)) in
    detach_closed (owned ow) ow false (DeleteSecrets d)
  | IService d =>
    let ow := owner_of (m_Labels (svc_meta d)) in
    detach_closed (owned ow) ow false (DeleteServices d)
  | IIngress d =>
    let ow := owner_of (m_Labels (ing_meta d)) in
    detach_closed (owned ow) ow false (DeleteIngress d)
  | IConfigMap d =>
    let ow := owner_of (m_Labels (pl_meta d)) in
    detach_closed (owned ow) ow false (DeleteConfigMaps d)
  | IHPA d =>
    let ow := owner_of (m_Labels (pl_meta d)) in
    detach_closed (owned_version ow) ow false (DelHPA d)
  | IStorageClass d => mret (negb (delete_volume_type (pl_name d)))
  | IClaim d =>
    let ow := owner_of (m_Labels (pl_meta d)) in
    detach_closed (owned ow) ow false (DeleteClaim d)
  | IServiceMonitor d =>
    let ow := owner_of (m_Labels (pl_meta d)) in
    detach (owned ow) ow true (DeleteServiceMonitor d) (λ _, mret ())
  end.

(** The [return]s inside the loop leave the objects after the first one that
    belongs to a cached component untouched. *)
Fixpoint OnDeletes (objs : list informer_object) : SM unit :=
  match objs with
  | [] => mret ()
  | o :: objs' => stop ← delete_object o; if (stop : bool) then mret () else OnDeletes objs'
  end.

Definition OnDelete (o : informer_object) : SM unit := OnDeletes [o].

(** ** Pod events *)

(** A pod counts for its namespace before its owner is looked up. *)
Definition store_pod (pod : Pod) : SM unit :=
  _ ← modify (λ s, s <| st_resources ::= cache_set pod |>);
  let ow := owner_of (m_Labels (pod_meta pod)) in
  when (owned_version ow) (_ ← attach ow (drop_obj KPod pod) (pure_op (SetPods pod)); mret ()).

(** The three handlers of [podEventHandler]. *)
Definition podEventHandler (e : pod_event) : SM unit :=
  match e with
  | PodAdded pod => store_pod pod
  | PodChanged _ pod =>
    _ ← store_pod pod;
    modify (λ s, s <| st_events ::= λ l, l ++ [PodUpdated pod] |>)
  | PodRemoved pod =>
    _ ← modify (λ s, s <| st_resources ::= cache_remove pod |>);
    let ow := owner_of (m_Labels (pod_meta pod)) in
    _ ← detach_closed (owned_version ow) ow false (DeletePods pod); mret ()
  end.

(** ** Endpoints events: the three handlers of [epEventHandler] *)

Definition send (e : store_event) : SM unit := modify (λ s, s <| st_events ::= λ l, l ++ [e] |>).

Definition store_endpoints (ep : Endpoints) (after : SM unit) : SM unit :=
  let ow := owner_of (m_Labels (ep_meta ep)) in
  when (owned ow) (
    b ← attach ow (mret ()) (pure_op (AddEndpoints ep));
    when b after).

Definition epEventHandler (e : endpoints_event) : SM unit :=
  match e with
  | EpAdded ep =>
    store_endpoints ep (when (isThirdParty ep && negb (bool_decide (ep_Subsets ep = [])))
      (send (ProbeCreated (listProbeInfos ep (ow_service (owner_of (m_Labels (ep_meta ep))))))))
  | EpChanged _ ep =>
    store_endpoints ep (when (isThirdParty ep)
      (send (ProbeUpdated (listProbeInfos ep (ow_service (owner_of (m_Labels (ep_meta ep))))))))
  | EpRemoved ep =>
    let ow := owner_of (m_Labels (ep_meta ep)) in
    b ← detach_closed (owned ow) ow false (DelEndpoints ep);
    when (b && isThirdParty ep)
      match stop_uuids (ep_Subsets ep) with
      | Some uuids => send (ProbeDeleted uuids)
      | None => panic
      end
  end.

(** ** Refreshing a component from the informers' caches *)

Context (lister : ∀ k : kind, string → string → reply k).

(** [Get] on a lister, then delete if it reports NotFound, set if it returns
    an object. *)
Definition refresh {k : kind} (nm : obj k) (del : AppService → AppService)
    (set : obj k → AppService → result AppService) (a : AppService) : result AppService :=
  let '(o, err) := lister k (obj_ns nm) (obj_name nm) in
  let a := match err with Some e => if IsNotFound e then del a else a | None => a end in
  match o with Some o => set o a | None => Ok a end.

Fixpoint refresh_all {k : kind} (l : list (obj k)) (del : obj k → AppService → AppService)
    (set : obj k → AppService → result AppService) (a : AppService) : result AppService :=
  match l with
  | [] => Ok a
  | o :: l' =>
    match refresh o (del o) set a with
    | Ok a' => refresh_all l' del set a'
    | Err e => Err e
    | Panic => Panic
    end
  end.

Definition refresh_app (a : AppService) : result AppService :=
  then_do (match GetStatefulSet a with
           | Some w => refresh (k := KStatefulSet) w (DeleteStatefulSet w) SetStatefulSet a
           | None => Ok a end) (λ a,
  then_do (match GetDeployment a with
           | Some w => refresh (k := KDeployment) w (DeleteDeployment w) SetDeployment a
           | None => Ok a end) (λ a,
  then_do (refresh_all (k := KService) (GetServices a) DeleteServices
             (λ o, pure_op (SetService o)) a) (λ a,
  then_do (refresh_all (k := KIngress) (GetIngress a) DeleteIngress
             (λ o, pure_op (SetIngress o)) a) (λ a,
  then_do (refresh_all (k := KSecret) (GetSecrets a) DeleteSecrets
             (λ o, pure_op (SetSecret (Some o))) a) (λ a,
  refresh_all (k := KPod) (GetPods a) DeletePods (λ o, pure_op (SetPods o)) a))))).

Definition UpdateGetAppService (serviceID : string) : SM (option AppService) :=
  r ← gets (GetAppService serviceID);
  match r with
  | None => mret None
  | Some _ => _ ← update_app serviceID refresh_app; gets (GetAppService serviceID)
  end.

(** ** Statuses *)

(** [TenantServiceDao().GetServiceByID]: whether the row exists and is of the
    third-party kind. *)
Context (service_row : string → option bool).
(** [VersionInfoDao().GetVersionByServiceID]: the number of versions, and
    whether the error is [gorm.ErrRecordNotFound]. *)
Context (version_rows : string → nat * bool).

Definition undeployed (serviceID : string) : bool :=
  let '(versions, missing) := version_rows serviceID in
  missing || bool_decide (versions = 0%nat).

Definition GetAppServiceStatus (serviceID : string) : SM string :=
  app ← gets (GetAppService serviceID);
  match app with
  | None => mret
    match service_row serviceID with
    | None => UNKNOW
    | Some true => CLOSED
    | Some false => if undeployed serviceID then UNDEPLOY else CLOSED
    end
  | Some app =>
    let status := GetServiceStatus app in
    if decide (status = UNKNOW) then
      app ← UpdateGetAppService serviceID;
      mret match app with
           | None => if undeployed serviceID then UNDEPLOY else CLOSED
           | Some app => GetServiceStatus app
           end
    else mret status
  end.

Definition collect_status (keep : string → bool) (statusMap : gmap string string)
    (serviceID : string) : SM (gmap string string) :=
  status ← GetAppServiceStatus serviceID;
  mret (if keep status then <[serviceID := status]> statusMap else statusMap).

Definition collect_statuses `{GoRuntime} (keep : string → bool) (serviceIDs : list string) :
    SM (gmap string string) :=
  match serviceIDs with
  | [] =>
    apps ← gets GetAllAppServices;
    foldM (collect_status keep) ∅ (ServiceID <$> (apps : list AppService))
  | _ => foldM (collect_status keep) ∅ serviceIDs
  end.

Definition GetAppServicesStatus `{GoRuntime} : list string → SM (gmap string string) :=
  collect_statuses (λ _, true).

Definition isClosedStatus (curStatus : string) : bool :=
  bool_decide (curStatus ∈ [BUILDEFAILURE; CLOSED; UNDEPLOY; BUILDING; UNKNOW]).

Definition GetNeedBillingStatus `{GoRuntime} : list string → SM (gmap string string) :=
  collect_statuses (λ status, negb (isClosedStatus status)).

Definition GetTenantRunningApp `{GoRuntime} (tenantID : string) (s : Store C) : list AppService :=
  filter (λ app, (TenantID app = tenantID ∨ tenantID = ""%string) ∧ IsClosed app = false)
    (GetAllAppServices s).

(** [TenantServiceDao().ListByAppID] *)
Context (app_components : string → result (list string)).

Definition app_pods (pods_of : list string → list Pod) (appID : string) : result (list Pod) :=
  match app_components appID with
  | Ok [] => Ok []
  | Ok ids => Ok (pods_of ids)
  | Err e => Err e
  | Panic => Panic
  end.

Definition app_container (acc : Z * Z) (c : Container) : Z * Z :=
  (int64 (acc.1 + c_req_cpu c), int64 (acc.2 + Z.quot (Z.quot (c_lim_memory c) 1024) 1024)).

(** [pods_of]: the pod lister with the selector "service_id in ids". *)
Definition GetAppResources (pods_of : list string → list Pod) (appID : string) : result (Z * Z) :=
  then_do (app_pods pods_of appID) (λ pods,
    Ok (foldl (λ acc pod, foldl app_container acc (pod_Containers pod)) (0, 0)%Z pods)).
End store.

(** ** The status of an application, from those of its components *)

Inductive AppStatus_Status :=
  | AppStatus_NIL | AppStatus_RUNNING | AppStatus_CLOSED | AppStatus_ABNORMAL
  | AppStatus_STARTING | AppStatus_STOPPING.

Definition appNil (statuses : list string) : bool :=
  forallb (λ status, bool_decide (status = UNDEPLOY)) statuses.
Definition appClosed (statuses : list string) : bool :=
  forallb (λ status, bool_decide (status = CLOSED)) statuses.
Definition appAbnormal (statuses : list string) : bool :=
  existsb (λ status, bool_decide (status = ABNORMAL ∨ status = SOMEABNORMAL)) statuses.
Definition appStarting (statuses : list string) : bool :=
  existsb (λ status, bool_decide (status = STARTING)) statuses.

Fixpoint stopping_loop (stopping : bool) (statuses : list string) : bool :=
  match statuses with
  | [] => stopping
  | status :: l =>
    if decide (status = STOPPING) then stopping_loop true l
    else if decide (status = CLOSED) then stopping_loop stopping l
    else false
  end.
Definition appStopping : list string → bool := stopping_loop false.

Definition getAppStatus `{GoRuntime} (componentStatuses : gmap string string) : AppStatus_Status :=
  let statuses := filter (λ status, status ≠ UNDEPLOY) (range_order componentStatuses).*2 in
  if bool_decide (statuses = []) || appNil statuses then AppStatus_NIL
  else if appClosed statuses then AppStatus_CLOSED
  else if appAbnormal statuses then AppStatus_ABNORMAL
  else if appStarting statuses then AppStatus_STARTING
  else if appStopping statuses then AppStatus_STOPPING
  else AppStatus_RUNNING.

(** ** Lemmas *)

(** The laws the undeclared methods must have for the cache to stay sound. *)
Class ComponentKindsLaws `{ComponentKinds} : Prop := {
  set_workload_wf o a : wf a → wf (SetWorkload o a);
  set_workload_id o a : ServiceID (SetWorkload o a) = ServiceID a;
  delete_workload_wf o a : wf a → wf (DeleteWorkload o a);
  delete_workload_id o a : ServiceID (DeleteWorkload o a) = ServiceID a
}.

(** A method that keeps a component well formed and under its key. *)
Record preserving (f : AppService → result AppService) : Prop := {
  pres_run a a' : wf a → f a = Ok a' → wf a' ∧ ServiceID a' = ServiceID a
}.

Lemma preserving_op op : preserving (apply_op op).
Proof. split. eauto using apply_op_wf, apply_op_id. Qed.

Lemma preserving_then f g :
  preserving f → preserving g → preserving (λ a, then_do (f a) g).
Proof.
  intros [Hf] [Hg]. split. intros a a' Hwf. destruct (f a) as [a1| |] eqn:E; simpl; try done.
  intros Hr. destruct (Hf a a1 Hwf E) as [Hwf1 <-]. eauto.
Qed.

Lemma preserving_ok : preserving Ok.
Proof. split. by intros a a' Hwf [= <-]. Qed.

#[export] Hint Resolve preserving_op preserving_ok : kato.

(** The store maps each service id to a well-formed component of that id. *)
Definition store_ok {C} (s : Store C) : Prop :=
  ∀ k a, st_apps s !! k = Some a → ServiceID a = k ∧ wf a.

Record stable {C A} (m : M (Store C) A) : Prop := {
  stable_run s : store_ok s → store_ok (m s).1
}.

Lemma stable_ret {C A} (a : A) : stable (C := C) (mret a).
Proof. by split. Qed.

Lemma stable_bind {C A B} (m : M (Store C) A) (f : A → M (Store C) B) :
  stable m → (∀ a, stable (f a)) → stable (m ≫= f).
Proof.
  intros [Hm] Hf. split. intros s Hs. specialize (Hm s Hs). rewrite bind_unfold.
  destruct (m s) as [s' [a|e|]]; [by apply Hf|done..].
Qed.

Lemma stable_when {C} b (m : M (Store C) unit) : stable m → stable (when b m).
Proof. destruct b; [done|]. intros _. apply stable_ret. Qed.

Lemma stable_forM {C A} (l : list A) (f : A → M (Store C) unit) :
  (∀ x, stable (f x)) → stable (forM l f).
Proof. intros Hf. induction l; simpl; [apply stable_ret|]. by apply stable_bind. Qed.

Lemma stable_frame {C} (f : Store C → Store C) :
  (∀ s, st_apps (f s) = st_apps s) → stable (modify f).
Proof. intros Hf. split. intros s Hs k a. simpl. rewrite Hf. apply Hs. Qed.

Lemma stable_gets {C A} (f : Store C → A) : stable (gets f).
Proof. by split. Qed.

Lemma stable_panic {C A} : stable (C := C) (A := A) panic.
Proof. by split. Qed.

#[export] Hint Resolve stable_ret stable_bind stable_when stable_forM stable_gets
  stable_panic : kato.

Lemma stable_update_app {C} key f : preserving f → stable (update_app (C := C) key f).
Proof.
  intros [Hf]. split. intros s Hs. unfold update_app.
  destruct (st_apps s !! key) as [a|] eqn:Ek; [|done].
  destruct (f a) as [a'| |] eqn:Ef; [|done..]. destruct (Hs key a Ek) as [Hid Hwf].
  destruct (Hf a a' Hwf Ef) as [Hwf' Hid']. intros k b. simpl. rewrite lookup_insert_Some.
  intros [[<- <-]|[_ Hb]]; [split; congruence|by apply Hs].
Qed.

Lemma stable_on_cluster {C A} (m : M C A) : stable (on_cluster m).
Proof. split. intros s Hs. unfold on_cluster. by destruct (m (st_cluster s)). Qed.

Lemma stable_drop {C} (kc : KubeClient C) k ns n : stable (drop kc k ns n).
Proof. apply stable_bind; [apply stable_on_cluster|]. intros _. apply stable_ret. Qed.

#[export] Hint Resolve stable_update_app stable_on_cluster stable_drop : kato.

Section invariant.
Context {C : Type} (kc : KubeClient C) `{ComponentKindsLaws}.
Context (InitCacheAppService : string → string → init_error + AppService).
Context (delete_volume_type : string → bool).
Context (lister : ∀ k : kind, string → string → reply k).

(** What [InitCacheAppService] returns: a fresh component of that id. *)
Definition init_sound : Prop := ∀ sid cid a,
  InitCacheAppService sid cid = inr a → ServiceID a = sid ∧ wf a.
Context (Hinit : init_sound).

Abbreviation getAppService := (getAppService (C := C) InitCacheAppService).
Abbreviation OnAdd := (OnAdd kc InitCacheAppService).

Lemma stable_getAppService sid cid creator : stable (getAppService sid cid creator).
Proof.
  split. intros s Hs. unfold Store.getAppService.
  destruct (GetAppService sid s); [done|]. destruct creator; [|done].
  destruct (InitCacheAppService sid cid) as [e|a] eqn:E; [done|]. simpl.
  intros k b. simpl. rewrite lookup_insert_Some. intros [[<- <-]|[_ Hb]]; [|by apply Hs].
  by destruct (Hinit _ _ _ E).
Qed.
#[local] Hint Resolve stable_getAppService : kato.

Lemma stable_attach ow orphan f :
  stable orphan → preserving f → stable (attach (C := C) InitCacheAppService ow orphan f).
Proof.
  intros Ho Hf. apply stable_bind; [auto with kato|]. intros [app err].
  apply stable_bind; [destruct (decide _); auto with kato|]. intros _.
  destruct app; auto with kato.
Qed.

Lemma stable_check key rs : stable (checkReplicasetWhetherDelete kc key rs).
Proof.
  split. intros s Hs. unfold checkReplicasetWhetherDelete.
  destruct (st_apps s !! key ≫= GetCurrentReplicaSet) as [current|]; [|done].
  destruct (_ && _); [|done]. by apply stable_drop.
Qed.

Lemma preserving_workload o : preserving (pure_op (SetWorkload o)).
Proof. split. intros a a' Hwf [= <-]. split; [by apply set_workload_wf|apply set_workload_id]. Qed.

Lemma preserving_unload o : preserving (pure_op (DeleteWorkload o)).
Proof.
  split. intros a a' Hwf [= <-]. split; [by apply delete_workload_wf|apply delete_workload_id].
Qed.
#[local] Hint Resolve stable_check preserving_workload preserving_unload : kato.

(** Every method the callbacks use is an operation of the cache. *)
Ltac as_op o := exact (preserving_op o).
#[local] Hint Extern 1 (preserving (SetDeployment ?d)) => as_op (OpSetDeployment d) : kato.
#[local] Hint Extern 1 (preserving (SetStatefulSet ?d)) => as_op (OpSetStatefulSet d) : kato.
#[local] Hint Extern 1 (preserving (pure_op (SetReplicaSets ?d))) =>
  as_op (OpSetReplicaSets d) : kato.
#[local] Hint Extern 1 (preserving (pure_op (SetSecret ?d))) => as_op (OpSetSecret d) : kato.
#[local] Hint Extern 1 (preserving (pure_op (SetService ?d))) => as_op (OpSetService d) : kato.
#[local] Hint Extern 1 (preserving (pure_op (SetIngress ?d))) => as_op (OpSetIngress d) : kato.
#[local] Hint Extern 1 (preserving (pure_op (SetConfigMap ?d))) => as_op (OpSetConfigMap d) : kato.
#[local] Hint Extern 1 (preserving (pure_op (SetHPA ?d))) => as_op (OpSetHPA d) : kato.
#[local] Hint Extern 1 (preserving (pure_op (SetClaim ?d))) => as_op (OpSetClaim d) : kato.
#[local] Hint Extern 1 (preserving (pure_op (SetPods ?d))) => as_op (OpSetPods d) : kato.
#[local] Hint Extern 1 (preserving (pure_op (SetServiceMonitor ?d))) =>
  as_op (OpSetServiceMonitor d) : kato.
#[local] Hint Extern 1 (preserving (pure_op (DeleteDeployment ?d))) =>
  as_op (OpDeleteDeployment d) : kato.
#[local] Hint Extern 1 (preserving (pure_op (DeleteStatefulSet ?d))) =>
  as_op (OpDeleteStatefulSet d) : kato.
#[local] Hint Extern 1 (preserving (pure_op (DeleteReplicaSet ?d))) =>
  as_op (OpDeleteReplicaSet d) : kato.
#[local] Hint Extern 1 (preserving (pure_op (DeleteSecrets ?d))) => as_op (OpDeleteSecrets d) : kato.
#[local] Hint Extern 1 (preserving (pure_op (DeleteServices ?d))) =>
  as_op (OpDeleteServices d) : kato.
#[local] Hint Extern 1 (preserving (pure_op (DeleteIngress ?d))) => as_op (OpDeleteIngress d) : kato.
#[local] Hint Extern 1 (preserving (pure_op (DeleteConfigMaps ?d))) =>
  as_op (OpDeleteConfigMaps d) : kato.
#[local] Hint Extern 1 (preserving (pure_op (DelHPA ?d))) => as_op (OpDelHPA d) : kato.
#[local] Hint Extern 1 (preserving (pure_op (DeleteClaim ?d))) => as_op (OpDeleteClaim d) : kato.
#[local] Hint Extern 1 (preserving (pure_op (DeletePods ?d))) => as_op (OpDeletePods d) : kato.
#[local] Hint Extern 1 (preserving (pure_op (DeleteServiceMonitor ?d))) =>
  as_op (OpDeleteServiceMonitor d) : kato.

Lemma stable_OnAdd o : stable (OnAdd o).
Proof.
  destruct o; cbn [Store.OnAdd].
  10: { by apply stable_frame. }
  all: apply stable_when.
  4: { apply stable_bind; [auto with kato|]. intros [app err].
       apply stable_bind; [destruct (decide _); auto with kato|]. intros _.
       destruct app; auto with kato. }
  all: apply stable_bind; [apply stable_attach; auto with kato|]; auto with kato.
  all: try (apply stable_bind; unfold drop_obj; auto with kato).
Qed.

Lemma stable_OnUpdate o n : stable (OnUpdate kc InitCacheAppService o n).
Proof.
  apply stable_bind; [|intros; apply stable_OnAdd].
  destruct o, n; auto with kato. cbv zeta. split_decide; [auto with kato|].
  apply stable_bind; [auto with kato|]. intros [[key|] err]; simpl; auto with kato.
Qed.

Lemma stable_drop_closed key : stable (C := C) (drop_closed key).
Proof.
  split. intros s Hs. unfold drop_closed. destruct (st_apps s !! key); [|done].
  by destruct (IsClosed a).
Qed.
#[local] Hint Resolve stable_drop_closed : kato.

Lemma stable_detach ok ow creator f after : preserving (pure_op f) → (∀ k, stable (after k)) →
  stable (detach (C := C) InitCacheAppService ok ow creator f after).
Proof.
  intros Hf Ha. destruct ok; [|apply stable_ret]. apply stable_bind; [auto with kato|].
  intros [[key|] err]; [|apply stable_ret].
  apply stable_bind; [by apply stable_update_app|]. auto with kato.
Qed.

Lemma stable_delete_object o :
  stable (delete_object (C := C) InitCacheAppService delete_volume_type o).
Proof.
  destruct o; cbn [delete_object]; try (apply stable_detach; auto with kato). apply stable_ret.
Qed.

Lemma stable_OnDeletes os : stable (OnDeletes (C := C) InitCacheAppService delete_volume_type os).
Proof.
  induction os as [|o os IH]; simpl; [apply stable_ret|].
  apply stable_bind; [apply stable_delete_object|]. intros []; auto with kato.
Qed.

Lemma stable_store_pod pod : stable (store_pod kc InitCacheAppService pod).
Proof.
  apply stable_bind; [by apply stable_frame|]. intros _. apply stable_when.
  apply stable_bind; [|auto with kato]. apply stable_attach; [|auto with kato].
  unfold drop_obj. auto with kato.
Qed.

Lemma stable_endpoints e : stable (epEventHandler (C := C) InitCacheAppService e).
Proof.
  assert (∀ ep after, stable after →
    stable (store_endpoints (C := C) InitCacheAppService ep after)) as Hst.
  { intros ep after Ha. apply stable_when. apply stable_bind; [|intros b; by apply stable_when].
    apply stable_attach; [auto with kato|]. exact (preserving_op (OpAddEndpoints ep)). }
  assert (∀ ev, stable (C := C) (send ev)) as Hsend by (intros; by apply stable_frame).
  destruct e as [ep|old ep|ep]; cbn [epEventHandler]; [auto with kato..|].
  apply stable_bind.
  - apply stable_detach; [exact (preserving_op (OpDelEndpoints ep))|auto with kato].
  - intros b. apply stable_when. destruct (stop_uuids _); auto with kato.
Qed.

Lemma stable_pod e : stable (podEventHandler kc InitCacheAppService e).
Proof.
  destruct e; cbn [podEventHandler].
  - apply stable_store_pod.
  - apply stable_bind; [apply stable_store_pod|]. intros _. by apply stable_frame.
  - apply stable_bind; [by apply stable_frame|]. intros _.
    apply stable_bind; [apply stable_detach|]; auto with kato.
Qed.

(** Refreshing is a sequence of deletions and sets. *)
Lemma preserving_refresh k (nm : obj k) del set :
  preserving (pure_op del) → (∀ o, preserving (set o)) → preserving (refresh lister nm del set).
Proof.
  intros [Hd] Hs. split. intros a a' Hwf. unfold refresh.
  destruct (lister k (obj_ns nm) (obj_name nm)) as [o err].
  set (a1 := match err with Some e => if IsNotFound e then del a else a | None => a end).
  assert (wf a1 ∧ ServiceID a1 = ServiceID a) as [Hwf1 Hid].
  { subst a1. destruct err as [e|]; [destruct (IsNotFound e)|]; auto. }
  destruct o as [o|]; [|by intros [= <-]]. intros Hr.
  destruct (pres_run _ (Hs o) a1 a' Hwf1 Hr). split; congruence.
Qed.

Lemma preserving_refresh_all k (l : list (obj k)) del set :
  (∀ o, preserving (pure_op (del o))) → (∀ o, preserving (set o)) →
  preserving (refresh_all lister l del set).
Proof.
  intros Hd Hs. induction l as [|o l IH]; simpl; [apply preserving_ok|].
  apply (preserving_then _ (refresh_all lister l del set)); [by apply preserving_refresh|done].
Qed.

Lemma preserving_at {B} (g : AppService → B) (F : B → AppService → result AppService) :
  (∀ b, preserving (F b)) → preserving (λ a, F (g a) a).
Proof. intros HF. split. intros a a'. apply HF. Qed.

Lemma preserving_opt {B} (g : AppService → option B) (F : B → AppService → result AppService) :
  (∀ b, preserving (F b)) → preserving (λ a, match g a with Some b => F b a | None => Ok a end).
Proof. intros HF. split. intros a a'. destruct (g a); [apply HF|apply preserving_ok]. Qed.

Lemma preserving_refresh_app : preserving (refresh_app lister).
Proof.
  unfold refresh_app. eapply preserving_then.
  { apply (preserving_opt GetStatefulSet
      (λ w, refresh (k := KStatefulSet) lister w (DeleteStatefulSet w) SetStatefulSet)).
    intros w. apply preserving_refresh; auto with kato. }
  eapply preserving_then.
  { apply (preserving_opt GetDeployment
      (λ w, refresh (k := KDeployment) lister w (DeleteDeployment w) SetDeployment)).
    intros w. apply preserving_refresh; auto with kato. }
  do 3 (eapply preserving_then;
    [eapply (preserving_at _ (λ l a, refresh_all lister l _ _ a)); intros l;
     apply preserving_refresh_all; auto with kato|]).
  eapply (preserving_at _ (λ l a, refresh_all lister l _ _ a)); intros l.
  apply preserving_refresh_all; auto with kato.
Qed.

(** What the informers and the RPC server make the store do. *)
Inductive store_input :=
  | InAdd (o : informer_object)
  | InUpdate (old new : informer_object)
  | InDelete (os : list informer_object)
  | InPod (e : pod_event)
  | InEndpoints (e : endpoints_event)
  | InRegist (app : AppService)
  | InForget (key : string)
  | InRefresh (serviceID : string).

Definition handle_input (i : store_input) : M (Store C) unit :=
  match i with
  | InAdd o => OnAdd o
  | InUpdate o n => OnUpdate kc InitCacheAppService o n
  | InDelete os => OnDeletes InitCacheAppService delete_volume_type os
  | InPod e => podEventHandler kc InitCacheAppService e
  | InEndpoints e => epEventHandler InitCacheAppService e
  | InRegist app => RegistAppService app
  | InForget key => DeleteAppServiceByKey key
  | InRefresh sid => _ ← UpdateGetAppService lister sid; mret ()
  end.

Lemma stable_input i :
  (∀ app, i = InRegist app → wf app) → stable (handle_input i).
Proof.
  intros Hi. destruct i as [o|o n|os|e|e|app|key|sid]; cbn [handle_input].
  - apply stable_OnAdd.
  - apply stable_OnUpdate.
  - apply stable_OnDeletes.
  - apply stable_pod.
  - apply stable_endpoints.
  - split. intros s Hs k b. simpl. rewrite lookup_insert_Some.
    intros [[<- <-]|[_ Hb]]; [by split; [|apply Hi]|by apply Hs].
  - split. intros s Hs k b. simpl. rewrite lookup_delete_Some. intros [_ Hb]. by apply Hs.
  - apply stable_bind; [|auto with kato]. apply stable_bind; [auto with kato|].
    intros [a|]; [|auto with kato]. apply stable_bind; [|auto with kato].
    apply stable_update_app, preserving_refresh_app.
Qed.

Lemma history_sound (inputs : list store_input) (s : Store C)
    (Hs : store_ok s) (Hreg : ∀ app, InRegist app ∈ inputs → wf app) :
  store_ok (forM inputs handle_input s).1.
Proof.
  revert s Hs. induction inputs as [|i inputs IH]; intros s Hs; [done|].
  simpl. rewrite bind_unfold.
  assert (store_ok (handle_input i s).1) as H1.
  { apply stable_run; [|done]. apply stable_input. intros app ->. apply Hreg. set_solver. }
  destruct (handle_input i s) as [s1 [[]|e|]]; [|done..].
  apply IH; [|done]. intros app ?. apply Hreg. set_solver.
Qed.

(** C2 (invariant): whatever the informers report and the RPC server asks, in
    any order, errors and panics included, the store maps every service id to
    a component of that id whose families hold each object name once. *)
Theorem store_history (inputs : list store_input) (s : Store C)
    (Hs : store_ok s) (Hreg : ∀ app, InRegist app ∈ inputs → wf app) :
  store_ok (forM inputs handle_input s).1.
Proof. by apply history_sound. Qed.
End invariant.

(** ** Components stay

    [DeleteAppService] does nothing, so only [DeleteAppServiceByKey], which nothing
    calls, takes a component out of the store. *)
Record keeping {C A} (key : string) (m : M (Store C) A) : Prop := {
  keeping_run s : is_Some (st_apps s !! key) → is_Some (st_apps (m s).1 !! key)
}.

Create HintDb kept.

Section kept.
Context {C : Type} (kc : KubeClient C) `{ComponentKinds}.
Context (InitCacheAppService : string → string → init_error + AppService).
Context (delete_volume_type : string → bool).
Context (lister : ∀ k : kind, string → string → reply k).
Context (key : string).

Lemma keeping_ret {A} (a : A) : keeping (C := C) key (mret a).
Proof. by split. Qed.

Lemma keeping_gets {A} (f : Store C → A) : keeping key (gets f).
Proof. by split. Qed.

Lemma keeping_panic {A} : keeping (C := C) (A := A) key panic.
Proof. by split. Qed.

Lemma keeping_bind {A B} (m : M (Store C) A) (f : A → M (Store C) B) :
  keeping key m → (∀ a, keeping key (f a)) → keeping key (m ≫= f).
Proof.
  intros [Hm] Hf. split. intros s Hs. specialize (Hm s Hs). rewrite bind_unfold.
  destruct (m s) as [s' [a|e|]]; [by apply Hf|done..].
Qed.

Lemma keeping_when b (m : M (Store C) unit) : keeping key m → keeping key (when b m).
Proof. destruct b; [done|]. intros _. apply keeping_ret. Qed.

Lemma keeping_frame (f : Store C → Store C) : (∀ s, st_apps (f s) = st_apps s) → keeping key (modify f).
Proof. intros Hf. split. intros s Hs. simpl. by rewrite Hf. Qed.

Lemma insert_keeps (k : string) (a : AppService) (m : gmap string AppService) :
  is_Some (m !! key) → is_Some (<[k := a]> m !! key).
Proof. rewrite lookup_insert_is_Some'. by right. Qed.

Lemma keeping_update_app k f : keeping (C := C) key (update_app k f).
Proof.
  split. intros s Hs. unfold update_app. destruct (st_apps s !! k); [|done].
  destruct (f _); [by apply insert_keeps|done..].
Qed.

Lemma keeping_on_cluster {A} (m : M C A) : keeping key (on_cluster m).
Proof. split. intros s Hs. unfold on_cluster. by destruct (m (st_cluster s)). Qed.

Lemma keeping_drop k ns n : keeping key (drop kc k ns n).
Proof. apply keeping_bind; [apply keeping_on_cluster|]. intros _. apply keeping_ret. Qed.

Lemma keeping_check k rs : keeping key (checkReplicasetWhetherDelete kc k rs).
Proof.
  split. intros s Hs. unfold checkReplicasetWhetherDelete.
  destruct (st_apps s !! k ≫= GetCurrentReplicaSet) as [current|]; [|done].
  destruct (_ && _); [|done]. by apply keeping_drop.
Qed.

Lemma keeping_drop_closed k : keeping (C := C) key (drop_closed k).
Proof.
  split. intros s Hs. unfold drop_closed. destruct (st_apps s !! k) as [a|]; [|done]. by destruct (IsClosed a).
Qed.

Lemma keeping_getAppService sid cid creator : keeping (C := C) key (getAppService InitCacheAppService sid cid creator).
Proof.
  split. intros s Hs. unfold getAppService.
  destruct (GetAppService sid s); [done|]. destruct creator; [|done].
  destruct (InitCacheAppService sid cid) as [e|a]; [done|]. by apply insert_keeps.
Qed.
#[local] Hint Resolve keeping_ret keeping_gets keeping_panic keeping_bind keeping_when keeping_update_app
  keeping_on_cluster keeping_drop keeping_check keeping_drop_closed keeping_getAppService : kept.
#[local] Hint Extern 1 (keeping _ (modify _)) => (by apply keeping_frame) : kept.

Lemma keeping_attach ow orphan f : keeping key orphan → keeping (C := C) key (attach InitCacheAppService ow orphan f).
Proof.
  intros Ho. apply keeping_bind; [auto with kept|]. intros [app err].
  apply keeping_bind; [destruct (decide _); auto with kept|]. intros _. destruct app; auto with kept.
Qed.

Lemma keeping_detach ok ow creator f after : (∀ k, keeping key (after k)) →
  keeping (C := C) key (detach InitCacheAppService ok ow creator f after).
Proof.
  intros Ha. destruct ok; [|apply keeping_ret]. apply keeping_bind; [auto with kept|].
  intros [[k|] err]; [|apply keeping_ret]. apply keeping_bind; [auto with kept|]. auto with kept.
Qed.
#[local] Hint Resolve keeping_attach keeping_detach : kept.

Lemma keeping_OnAdd o : keeping key (OnAdd kc InitCacheAppService o).
Proof.
  destruct o; cbn [OnAdd]; [..|by apply keeping_frame| |]; apply keeping_when;
    try (apply keeping_bind; [apply keeping_attach; unfold drop_obj; auto with kept|auto with kept]).
  apply keeping_bind; [auto with kept|]. intros [app err].
  apply keeping_bind; [destruct (decide _); auto with kept|]. intros _. destruct app; auto with kept.
Qed.

Lemma keeping_OnUpdate o n : keeping key (OnUpdate kc InitCacheAppService o n).
Proof.
  apply keeping_bind; [|intros; apply keeping_OnAdd].
  destruct o, n; auto with kept. cbv zeta. split_decide; [auto with kept|].
  apply keeping_bind; [auto with kept|]. intros [[k|] err]; simpl; auto with kept.
Qed.

Lemma keeping_OnDeletes os : keeping (C := C) key (OnDeletes InitCacheAppService delete_volume_type os).
Proof.
  induction os as [|o os IH]; simpl; [apply keeping_ret|]. apply keeping_bind.
  - destruct o; cbn [delete_object]; try (apply keeping_detach; auto with kept). apply keeping_ret.
  - intros []; auto with kept.
Qed.

Lemma keeping_pod e : keeping key (podEventHandler kc InitCacheAppService e).
Proof.
  assert (∀ pod, keeping key (store_pod kc InitCacheAppService pod)) as Hst.
  { intros pod. apply keeping_bind; [by apply keeping_frame|]. intros _. apply keeping_when.
    apply keeping_bind; [|auto with kept]. apply keeping_attach. unfold drop_obj. auto with kept. }
  destruct e; cbn [podEventHandler]; [done|..].
  - apply keeping_bind; [done|]. intros _. by apply keeping_frame.
  - apply keeping_bind; [by apply keeping_frame|]. intros _. apply keeping_bind; [apply keeping_detach|]; auto with kept.
Qed.

Lemma keeping_endpoints e : keeping (C := C) key (epEventHandler InitCacheAppService e).
Proof.
  assert (∀ ep after, keeping key after → keeping (C := C) key (store_endpoints InitCacheAppService ep after)) as Hst.
  { intros ep after Ha. apply keeping_when. apply keeping_bind; [|intros b; by apply keeping_when].
    apply keeping_attach. auto with kept. }
  assert (∀ ev, keeping (C := C) key (send ev)) as Hsend by (intros; by apply keeping_frame).
  destruct e as [ep|old ep|ep]; cbn [epEventHandler]; [auto with kept..|].
  apply keeping_bind; [apply keeping_detach; auto with kept|].
  intros b. apply keeping_when. destruct (stop_uuids _); auto with kept.
Qed.

Lemma keeping_input i : (∀ k, i ≠ InForget k) → keeping key (handle_input kc InitCacheAppService delete_volume_type lister i).
Proof.
  intros Hi. destruct i as [o|o n|os|e|e|app|k|sid]; cbn [handle_input].
  - apply keeping_OnAdd.
  - apply keeping_OnUpdate.
  - apply keeping_OnDeletes.
  - apply keeping_pod.
  - apply keeping_endpoints.
  - split. intros s Hs. by apply insert_keeps.
  - by destruct (Hi k).
  - apply keeping_bind; [|auto with kept]. apply keeping_bind; [auto with kept|].
    intros [a|]; auto with kept.
Qed.

Lemma history_keeps inputs s : (∀ k, InForget k ∉ inputs) → is_Some (st_apps s !! key) →
  is_Some (st_apps (forM inputs (handle_input kc InitCacheAppService delete_volume_type lister) s).1 !! key).
Proof.
  revert s. induction inputs as [|i inputs IH]; intros s Hf Hs; [done|]. simpl. rewrite bind_unfold.
  assert (keeping key (handle_input kc InitCacheAppService delete_volume_type lister i)) as [Hi].
  { apply keeping_input. intros k ->. apply (Hf k). set_solver. }
  specialize (Hi s Hs). destruct (handle_input _ _ _ _ i s) as [s1 [[]|e|]]; [|done..].
  apply IH; [|done]. intros k Hk. apply (Hf k). set_solver.
Qed.
End kept.

(** ** Refreshing against the informers' caches *)

Section refresh.
Context (lister : ∀ k : kind, string → string → reply k).

(** A lister returns the object it is asked for, or NotFound; the API server
    fills in the replica count of every workload. *)
Record lister_sound : Prop := {
  ls_answer k ns n :
    (∃ o, lister k ns n = (Some o, None) ∧ obj_name o = n) ∨
    lister k ns n = (None, Some NotFound);
  ls_replicas k ns n (w : obj k) :
    (lister k ns n).1 = Some w →
    match k return obj k → Prop with
    | KStatefulSet | KDeployment => λ w, wl_Replicas w ≠ None
    | _ => λ _, True
    end w
}.
Context (Hls : lister_sound).

(** What the cluster says of an object the component holds. *)
Definition current {k : kind} (o : obj k) : option (obj k) := (lister k (obj_ns o) (obj_name o)).1.

Lemma refresh_frame {T} (q : AppService → T) {k} (nm : obj k) del set a a' :
  (∀ a, q (del a) = q a) → (∀ o a a', set o a = Ok a' → q a' = q a) →
  refresh lister nm del set a = Ok a' → q a' = q a.
Proof.
  intros Hd Hs. unfold refresh. destruct (lister _ _ _) as [o err]. intros E.
  assert (q (match err with Some e => if IsNotFound e then del a else a | None => a end) = q a)
    as Hq by (destruct err as [e|]; [destruct (IsNotFound e)|]; auto).
  destruct o as [o|]; [by rewrite (Hs _ _ _ E)|]. by injection E as <-.
Qed.

Lemma refresh_all_frame {T} (q : AppService → T) {k} (l : list (obj k)) del set a a' :
  (∀ o a, q (del o a) = q a) → (∀ o a a', set o a = Ok a' → q a' = q a) →
  refresh_all lister l del set a = Ok a' → q a' = q a.
Proof.
  intros Hd Hs. revert a. induction l as [|o l IH]; simpl; intros a E; [by injection E as <-|].
  destruct (refresh lister o (del o) set a) as [a1| |] eqn:E1; try done.
  rewrite (IH a1 E). by apply (refresh_frame q o (del o) set).
Qed.

(** A family [pr] of objects searched by name, with its two operations. *)
Lemma refresh_all_family {k} (pr : AppService → list (obj k)) (del : obj k → AppService → AppService)
    (set : obj k → AppService → AppService) (l : list (obj k)) a :
  (∀ o a, pr (del o a) = remove_first obj_name (obj_name o) (pr a)) →
  (∀ o a, pr (set o a) = upsert obj_name o (pr a)) →
  uniq obj_name l → uniq obj_name (pr a) →
  ∃ a', refresh_all lister l del (λ o, pure_op (set o)) a = Ok a' ∧
    ∀ n, find_by obj_name n (pr a') =
      match find_by obj_name n l with Some o => current o | None => find_by obj_name n (pr a) end.
Proof.
  intros Hd Hs. revert a. induction l as [|o l IH]; intros a Hl Hu; simpl; [by exists a|].
  apply NoDup_cons in Hl as [Ho Hl].
  set (a1 := match current o with Some x => set x a | None => del o a end).
  assert (refresh lister o (del o) (λ o, pure_op (set o)) a = Ok a1 ∧
    uniq obj_name (pr a1) ∧
    ∀ n, find_by obj_name n (pr a1) =
      if decide (obj_name o = n) then current o else find_by obj_name n (pr a)) as (-> & Hu1 & Hf1).
  { subst a1. unfold refresh, current.
    destruct (ls_answer Hls k (obj_ns o) (obj_name o)) as [(x & -> & Hx)| ->]; simpl.
    - rewrite Hs. split_and!; [done|auto with kato|]. intros n. rewrite find_by_upsert, Hx.
      split_decide; congruence.
    - rewrite Hd. split_and!; [done|auto with kato|]. intros n. rewrite find_by_remove_first by done.
      split_decide; congruence. }
  destruct (IH a1 Hl Hu1) as (a' & -> & Hf). exists a'. split; [done|]. intros n.
  rewrite Hf, Hf1. destruct (decide (obj_name o = n)) as [<-|]; [|done].
  by replace (find_by obj_name (obj_name o) l) with (@None (obj k))
    by (symmetry; by apply find_by_None).
Qed.

(** The two workloads. *)
Lemma refresh_statefulset a :
  ∃ a', match GetStatefulSet a with
        | Some w => refresh (k := KStatefulSet) lister w (DeleteStatefulSet w) SetStatefulSet a
        | None => Ok a end = Ok a' ∧
    statefulset a' = statefulset a ≫= current (k := KStatefulSet) ∧
    deployment a' = deployment a ∧ services a' = services a ∧ ingresses a' = ingresses a ∧
    secrets a' = secrets a ∧ pods a' = pods a.
Proof.
  unfold GetStatefulSet. destruct (statefulset a) as [w|] eqn:Ew; [|exists a; by rewrite Ew].
  unfold refresh, current. pose proof (ls_replicas Hls KStatefulSet) as Hr. simpl.
  specialize (Hr (obj_ns (k := KStatefulSet) w) (obj_name (k := KStatefulSet) w)).
  destruct (ls_answer Hls KStatefulSet (obj_ns (k := KStatefulSet) w)
    (obj_name (k := KStatefulSet) w)) as [(x & E & _)|E]; rewrite E in Hr |- *; simpl.
  - unfold SetStatefulSet. specialize (Hr x eq_refl). simpl in Hr.
    destruct (wl_Replicas x); [|done]. eexists. split; [done|]. by split_and!.
  - eexists. split; [done|]. by split_and!.
Qed.

Lemma refresh_deployment a :
  ∃ a', match GetDeployment a with
        | Some w => refresh (k := KDeployment) lister w (DeleteDeployment w) SetDeployment a
        | None => Ok a end = Ok a' ∧
    deployment a' = deployment a ≫= current (k := KDeployment) ∧
    statefulset a' = statefulset a ∧ services a' = services a ∧ ingresses a' = ingresses a ∧
    secrets a' = secrets a ∧ pods a' = pods a.
Proof.
  unfold GetDeployment. destruct (deployment a) as [w|] eqn:Ew; [|exists a; by rewrite Ew].
  unfold refresh, current. pose proof (ls_replicas Hls KDeployment) as Hr. simpl.
  specialize (Hr (obj_ns (k := KDeployment) w) (obj_name (k := KDeployment) w)).
  destruct (ls_answer Hls KDeployment (obj_ns (k := KDeployment) w)
    (obj_name (k := KDeployment) w)) as [(x & E & _)|E]; rewrite E in Hr |- *; simpl.
  - unfold SetDeployment. specialize (Hr x eq_refl). simpl in Hr.
    destruct (wl_Replicas x); [|done]. eexists. split; [done|]. by split_and!.
  - eexists. split; [done|]. by split_and!.
Qed.

Lemma refresh_family {k} (pr : AppService → list (obj k)) (del : obj k → AppService → AppService)
    (set : obj k → AppService → AppService) a :
  (∀ o a, pr (del o a) = remove_first obj_name (obj_name o) (pr a)) →
  (∀ o a, pr (set o a) = upsert obj_name o (pr a)) →
  uniq obj_name (pr a) →
  ∃ a', refresh_all lister (pr a) del (λ o, pure_op (set o)) a = Ok a' ∧
    (∀ n, find_by obj_name n (pr a') = find_by obj_name n (pr a) ≫= current) ∧
    (∀ T (q : AppService → T), (∀ o a, q (del o a) = q a) → (∀ o a, q (set o a) = q a) →
       q a' = q a).
Proof.
  intros Hd Hs Hu. destruct (refresh_all_family pr del set (pr a) a) as (a' & E & F); [done..|].
  exists a'. split; [done|]. split; [intros n; rewrite F; by destruct (find_by _ _ _)|].
  intros T q Hqd Hqs. eapply (refresh_all_frame q); [exact Hqd| |exact E].
  by intros o b b' [= <-].
Qed.

Lemma refresh_app_spec (a : AppService) (Hwf : wf a) :
  ∃ a', refresh_app lister a = Ok a' ∧
    statefulset a' = statefulset a ≫= current (k := KStatefulSet) ∧
    deployment a' = deployment a ≫= current (k := KDeployment) ∧
    (∀ n, find_by svc_name n (services a') =
       find_by svc_name n (services a) ≫= current (k := KService)) ∧
    (∀ n, find_by ing_name n (ingresses a') =
       find_by ing_name n (ingresses a) ≫= current (k := KIngress)) ∧
    (∀ n, find_by pl_name n (secrets a') =
       find_by pl_name n (secrets a) ≫= current (k := KSecret)) ∧
    (∀ n, GetPodsByName n a' = GetPodsByName n a ≫= current (k := KPod)).
Proof.
  destruct Hwf. unfold refresh_app.
  destruct (refresh_statefulset a) as (a1 & -> & S1 & D1 & V1 & I1 & X1 & P1). cbn [then_do].
  destruct (refresh_deployment a1) as (a2 & -> & D2 & S2 & V2 & I2 & X2 & P2). cbn [then_do].
  destruct (refresh_family (k := KService) services DeleteServices SetService a2)
    as (a3 & E3 & F3 & Q3); [done|done|by rewrite V2, V1|].
  unfold GetServices. rewrite E3. cbn [then_do].
  destruct (refresh_family (k := KIngress) ingresses DeleteIngress SetIngress a3)
    as (a4 & E4 & F4 & Q4); [done|done|by rewrite (Q3 _ ingresses), I2, I1|].
  unfold GetIngress. rewrite E4. cbn [then_do].
  destruct (refresh_family (k := KSecret) secrets DeleteSecrets (λ o, SetSecret (Some o)) a4)
    as (a5 & E5 & F5 & Q5);
    [done|done|by rewrite (Q4 _ secrets), (Q3 _ secrets), X2, X1|].
  unfold GetSecrets. rewrite E5. cbn [then_do].
  destruct (refresh_family (k := KPod) pods DeletePods SetPods a5) as (a6 & E6 & F6 & Q6);
    [done|done|by rewrite (Q5 _ pods), (Q4 _ pods), (Q3 _ pods), P2, P1|].
  unfold GetPods. rewrite E6. exists a6. split; [done|].
  split; [by rewrite (Q6 _ statefulset), (Q5 _ statefulset), (Q4 _ statefulset),
    (Q3 _ statefulset), S2, S1|].
  split; [by rewrite (Q6 _ deployment), (Q5 _ deployment), (Q4 _ deployment),
    (Q3 _ deployment), D2, D1|].
  split; [intros n; rewrite (Q6 _ services), (Q5 _ services), (Q4 _ services) by done;
    rewrite <- V1, <- V2; apply F3|].
  split; [intros n; rewrite (Q6 _ ingresses), (Q5 _ ingresses) by done;
    rewrite <- I1, <- I2, <- (Q3 _ ingresses) by done; apply F4|].
  split; [intros n; rewrite (Q6 _ secrets) by done;
    rewrite <- X1, <- X2, <- (Q3 _ secrets), <- (Q4 _ secrets) by done; apply F5|].
  intros n. unfold GetPodsByName.
  rewrite <- P1, <- P2, <- (Q3 _ pods), <- (Q4 _ pods), <- (Q5 _ pods) by done. apply F6.
Qed.

(** C11 (functional): against listers that answer with the object asked for or
    NotFound, refreshing a well-formed component never fails and leaves it with
    exactly those of its workloads, services, ingresses, secrets and pods that the
    listers still have, in their version.  The other families (configuration maps,
    autoscalers, replica sets) are not refreshed. *)
Theorem refresh_tracks_cluster (a : AppService) (Hwf : wf a) :
  ∃ a', refresh_app lister a = Ok a' ∧
    statefulset a' = statefulset a ≫= current (k := KStatefulSet) ∧
    deployment a' = deployment a ≫= current (k := KDeployment) ∧
    (∀ n, find_by svc_name n (services a') =
       find_by svc_name n (services a) ≫= current (k := KService)) ∧
    (∀ n, find_by ing_name n (ingresses a') =
       find_by ing_name n (ingresses a) ≫= current (k := KIngress)) ∧
    (∀ n, find_by pl_name n (secrets a') =
       find_by pl_name n (secrets a) ≫= current (k := KSecret)) ∧
    (∀ n, GetPodsByName n a' = GetPodsByName n a ≫= current (k := KPod)).
Proof. exact (refresh_app_spec a Hwf). Qed.
End refresh.

(** ** Statuses of applications *)

Lemma elem_of_range `{GoRuntimeLaws} {V} (m : gmap string V) v :
  v ∈ (range_order m).*2 ↔ ∃ k, m !! k = Some v.
Proof.
  rewrite range_order_perm, list_elem_of_fmap. split.
  - intros ([k x] & -> & Hk%elem_of_map_to_list). by exists k.
  - intros [k Hk]. exists (k, v). split; [done|]. by apply elem_of_map_to_list.
Qed.

Lemma forallb_elem {A} (f : A → bool) l : forallb f l = true ↔ ∀ x, x ∈ l → f x = true.
Proof. rewrite forallb_forall. by setoid_rewrite list_elem_of_In. Qed.

Lemma existsb_elem {A} (f : A → bool) l : existsb f l = true ↔ ∃ x, x ∈ l ∧ f x = true.
Proof. rewrite existsb_exists. by setoid_rewrite list_elem_of_In. Qed.

Lemma stopping_loop_spec l b :
  stopping_loop b l = true ↔
  (∀ s, s ∈ l → s = STOPPING ∨ s = CLOSED) ∧ (b = true ∨ STOPPING ∈ l).
Proof.
  revert b. induction l as [|s l IH]; intros b; simpl.
  { split; [intros ->; split; [by intros ? ?%not_elem_of_nil|by left]|].
    intros [_ [?|?%not_elem_of_nil]]; done. }
  destruct (decide (s = STOPPING)) as [->|]; [|destruct (decide (s = CLOSED)) as [->|]].
  - rewrite IH. setoid_rewrite elem_of_cons. naive_solver.
  - rewrite IH. setoid_rewrite elem_of_cons. naive_solver.
  - split; [done|]. intros [Hall _]. destruct (Hall s (list_elem_of_here _ _)); done.
Qed.

Lemma not_all_witness (P : string → Prop) `{∀ s, Decision (P s)} (l : list string) :
  ¬ (∀ s, s ∈ l → P s) → ∃ s, s ∈ l ∧ ¬ P s.
Proof.
  intros Hn. destruct (decide (Exists (λ s, ¬ P s) l)) as [He|He]; [by apply Exists_exists in He|].
  exfalso. apply Hn. intros s Hs. destruct (decide (P s)); [done|].
  exfalso. apply He, Exists_exists. eauto.
Qed.

Lemma appNil_iff (l : list string) : appNil l = true ↔ ∀ s, s ∈ l → s = UNDEPLOY.
Proof. unfold appNil. rewrite forallb_elem. by setoid_rewrite bool_decide_eq_true. Qed.
Lemma appClosed_iff (l : list string) : appClosed l = true ↔ ∀ s, s ∈ l → s = CLOSED.
Proof. unfold appClosed. rewrite forallb_elem. by setoid_rewrite bool_decide_eq_true. Qed.
Lemma appAbnormal_iff (l : list string) : appAbnormal l = true ↔ ABNORMAL ∈ l ∨ SOMEABNORMAL ∈ l.
Proof.
  unfold appAbnormal. rewrite existsb_elem. setoid_rewrite bool_decide_eq_true.
  split; [intros (s & Hs & [-> | ->]); auto|intros [?|?]; eauto].
Qed.
Lemma appStarting_iff (l : list string) : appStarting l = true ↔ STARTING ∈ l.
Proof.
  unfold appStarting. rewrite existsb_elem. setoid_rewrite bool_decide_eq_true.
  split; [by intros (s & Hs & ->)|eauto].
Qed.

(** The status of an application depends only on which
    statuses its deployed components have, not on the order a map is visited
    in: nothing deployed is NIL, all closed is CLOSED, one abnormal makes it
    ABNORMAL, else one starting makes it STARTING, all stopping or closed is
    STOPPING, everything else RUNNING. *)
Theorem app_status_decides `{GoRuntimeLaws} (m : gmap string string) :
  let has s := ∃ id, m !! id = Some s in
  match getAppStatus m with
  | AppStatus_NIL => ∀ s, has s → s = UNDEPLOY
  | AppStatus_CLOSED => has CLOSED ∧ ∀ s, has s → s = UNDEPLOY ∨ s = CLOSED
  | AppStatus_ABNORMAL => has ABNORMAL ∨ has SOMEABNORMAL
  | AppStatus_STARTING => has STARTING ∧ ¬ has ABNORMAL ∧ ¬ has SOMEABNORMAL
  | AppStatus_STOPPING =>
    has STOPPING ∧ ∀ s, has s → s = UNDEPLOY ∨ s = CLOSED ∨ s = STOPPING
  | AppStatus_RUNNING =>
    ¬ has ABNORMAL ∧ ¬ has SOMEABNORMAL ∧ ¬ has STARTING ∧
    ∃ s, has s ∧ s ≠ UNDEPLOY ∧ s ≠ CLOSED ∧ s ≠ STOPPING
  end.
Proof.
  intros has. unfold getAppStatus.
  set (l := filter (λ status, status ≠ UNDEPLOY) (range_order m).*2).
  assert (∀ s, s ∈ l ↔ s ≠ UNDEPLOY ∧ has s) as Hl.
  { intros s. unfold l. by rewrite list_elem_of_filter, elem_of_range. }
  assert (∀ s, s ≠ UNDEPLOY → has s ↔ s ∈ l) as Hin by (intros s; rewrite Hl; tauto).
  assert (∀ s, has s → s = UNDEPLOY ∨ s ∈ l) as Hor.
  { intros s Hs. destruct (decide (s = UNDEPLOY)); [by left|right; by apply Hl]. }
  destruct (bool_decide (l = []) || appNil l) eqn:Enil.
  { assert (∀ s, s ∈ l → s = UNDEPLOY) as Hnil; [|intros s Hs; destruct (Hor s Hs); auto].
    apply orb_true_iff in Enil as [E|E]; [|by rewrite appNil_iff in E].
    apply bool_decide_eq_true in E. rewrite E. by intros s ?%not_elem_of_nil. }
  apply orb_false_iff in Enil as [Hne%bool_decide_eq_false _].
  destruct (appClosed l) eqn:Ec.
  { rewrite appClosed_iff in Ec. destruct l as [|x l']; [done|].
    split; [|intros s Hs; destruct (Hor s Hs); auto].
    rewrite <- (Ec x (list_elem_of_here _ _)). apply Hl, list_elem_of_here. }
  apply not_true_iff_false in Ec. rewrite appClosed_iff in Ec.
  apply not_all_witness in Ec as (y & Hy & Hyc); [|apply _].
  destruct (appAbnormal l) eqn:Ea; [apply appAbnormal_iff in Ea; by rewrite !Hin|].
  apply not_true_iff_false in Ea. rewrite appAbnormal_iff in Ea.
  destruct (appStarting l) eqn:Es; [apply appStarting_iff in Es; rewrite !Hin by done; tauto|].
  apply not_true_iff_false in Es. rewrite appStarting_iff in Es.
  destruct (appStopping l) eqn:Eo; unfold appStopping in Eo.
  { apply stopping_loop_spec in Eo as [Hall [?|Hs]]; [done|]. split; [by apply Hin|].
    intros s Hs'. destruct (Hor s Hs') as [|Hi]; [by left|]. destruct (Hall s Hi); auto. }
  apply not_true_iff_false in Eo. rewrite stopping_loop_spec in Eo.
  rewrite !Hin by done. split_and!; [tauto..|].
  assert (∃ z, z ∈ l ∧ ¬ (z = STOPPING ∨ z = CLOSED)) as (z & Hz & Hzn).
  { apply (not_all_witness _). intros Hall. apply Eo. split; [done|right]. by destruct (Hall y Hy) as [<-|]. }
  apply Hl in Hz as [? ?]. exists z. split_and!; [done|done|tauto|tauto].
Qed.

(** ** The resource cache against the pods that are alive *)

(** The pods of a namespace, by name, after an event. *)
Definition track (ns : string) (live : gmap string Pod) (e : pod_event) : gmap string Pod :=
  match e with
  | PodAdded p | PodChanged _ p =>
    if decide (m_Namespace (pod_meta p) = ns) then <[pod_name p := p]> live else live
  | PodRemoved p =>
    if decide (m_Namespace (pod_meta p) = ns) then delete (pod_name p) live else live
  end.

Definition live_pods (ns : string) (events : list pod_event) : gmap string Pod :=
  foldl (track ns) ∅ events.

Definition cache_after (events : list pod_event) : resource_cache :=
  foldl (λ r e, cache_event e r) ∅ events.

Lemma cache_event_track ns e r live :
  default ∅ (r !! ns) = CalculatePodResource <$> live →
  default ∅ (cache_event e r !! ns) = CalculatePodResource <$> track ns live e.
Proof.
  intros Hr. destruct e as [p|old p|p]; simpl; unfold cache_set, cache_remove; cbv zeta.
  1,2: destruct (r !! m_Namespace (pod_meta p)) as [nr|] eqn:E; rewrite lookup_insert;
    split_decide; try done; subst; rewrite E in Hr; simpl in Hr |- *;
    rewrite fmap_insert, <- Hr; [done|]; by rewrite insert_empty.
  destruct (r !! m_Namespace (pod_meta p)) as [nr|] eqn:E.
  - rewrite lookup_insert. split_decide; try done. subst. rewrite E in Hr. simpl in Hr |- *.
    by rewrite fmap_delete, <- Hr.
  - split_decide; [|done]. subst. rewrite E in Hr |- *. simpl in Hr |- *.
    by rewrite fmap_delete, <- Hr, delete_empty.
Qed.

Lemma cache_after_live ns events :
  default ∅ (cache_after events !! ns) = CalculatePodResource <$> live_pods ns events.
Proof.
  unfold cache_after, live_pods. generalize (fmap_empty (M := gmap string) CalculatePodResource).
  assert (default ∅ ((∅ : resource_cache) !! ns) = CalculatePodResource <$> ∅) as H.
  { by rewrite lookup_empty, fmap_empty. }
  intros _. revert H. generalize (∅ : resource_cache) as r. generalize (∅ : gmap string Pod) as live.
  induction events as [|e events IH]; intros live r H; [done|]. simpl. by apply IH, cache_event_track.
Qed.

Lemma zsum_perm l k : l ≡ₚ k → zsum l = zsum k.
Proof. induction 1; rewrite ?zsum_cons; lia. Qed.

Lemma foldl_wrap_sum {A} (f : A → Z) l acc :
  foldl (λ s x, int64 (s + f x)) (int64 acc) l = int64 (acc + zsum (f <$> l)).
Proof.
  revert acc. induction l as [|x l IH]; intros acc; cbn [foldl]; [by rewrite Z.add_0_r|].
  rewrite wrap_wrap_add by lia. rewrite IH. f_equal. rewrite fmap_cons, zsum_cons. lia.
Qed.

Lemma fold_add_resource l tr :
  let tr' := foldl add_resource tr l in
  tr_MemoryRequest tr' = foldl (λ s x, int64 (s + pr_MemoryRequest x))%Z (tr_MemoryRequest tr) l ∧
  tr_MemoryLimit tr' = foldl (λ s x, int64 (s + pr_MemoryLimit x))%Z (tr_MemoryLimit tr) l ∧
  tr_CPURequest tr' = foldl (λ s x, int64 (s + pr_CPURequest x))%Z (tr_CPURequest tr) l ∧
  tr_CPULimit tr' = foldl (λ s x, int64 (s + pr_CPULimit x))%Z (tr_CPULimit tr) l.
Proof. revert tr. induction l as [|x l IH]; intros tr; simpl; [done|]. apply IH. Qed.

(** The usage of a namespace is the sum over the pods that
    were last reported alive in it, each counted once in its last version,
    modulo 2^64, whatever the order of the map iteration. *)
Theorem tenant_resource_sums `{GoRuntimeLaws} (events : list pod_event) (ns : string) :
  let pods := (map_to_list (live_pods ns events)).*2 in
  let total f := int64 (zsum ((λ p, f (CalculatePodResource p)) <$> pods)) in
  let tr := GetTenantResource ns (cache_after events) in
  tr_Namespace tr = ns ∧
  tr_MemoryRequest tr = total pr_MemoryRequest ∧ tr_MemoryLimit tr = total pr_MemoryLimit ∧
  tr_CPURequest tr = total pr_CPURequest ∧ tr_CPULimit tr = total pr_CPULimit.
Proof.
  intros pods total tr. split; [done|].
  set (nr := default ∅ (cache_after events !! ns)).
  assert (getTenantResource (cache_after events !! ns) =
    foldl add_resource (mkTenantResource "" 0 0 0 0) (range_order nr).*2) as E.
  { unfold nr, getTenantResource. destruct (cache_after events !! ns); simpl; [done|].
    pose proof (range_order_perm PodResource ∅) as Hp. rewrite map_to_list_empty in Hp.
    apply Permutation_nil_r in Hp. by rewrite Hp. }
  assert ((range_order nr).*2 ≡ₚ CalculatePodResource <$> pods) as Hp.
  { rewrite range_order_perm. unfold nr, pods. rewrite cache_after_live, map_to_list_fmap.
    by rewrite <- !list_fmap_compose. }
  assert (∀ f, foldl (λ s x, int64 (s + f x)) 0%Z (range_order nr).*2 = total f) as Hf.
  { intros f. unfold total. change 0%Z with (int64 0). rewrite foldl_wrap_sum. f_equal.
    rewrite (zsum_perm _ _ (fmap_Permutation f _ _ Hp)). by rewrite <- list_fmap_compose. }
  unfold tr, GetTenantResource, name_resource. simpl. rewrite E.
  destruct (fold_add_resource (range_order nr).*2 (mkTenantResource "" 0 0 0 0))
    as (-> & -> & -> & ->). simpl. by rewrite !Hf.
Qed.

(** ** Status queries *)

Section queries.
Context {C : Type} `{ComponentKinds}.
Context (lister : ∀ k : kind, string → string → reply k).
Context (service_row : string → option bool) (version_rows : string → nat * bool).

Abbreviation query := (GetAppServiceStatus (C := C) lister service_row version_rows).

(** What a status query answers: the cached component's status, or what the
    database knows of a component that is not cached. *)
Definition status_of (s : Store C) (serviceID : string) : string :=
  match st_apps s !! serviceID with
  | Some app => GetServiceStatus app
  | None =>
    match service_row serviceID with
    | None => UNKNOW
    | Some true => CLOSED
    | Some false => if undeployed version_rows serviceID then UNDEPLOY else CLOSED
    end
  end.

Lemma query_status id s : query id s = (s, Ok (status_of s id)).
Proof.
  unfold GetAppServiceStatus, status_of, mbind, M_bind. simpl. unfold GetAppService.
  destruct (st_apps s !! id) as [a|]; [|done]. by rewrite decide_False by apply status_known.
Qed.

Lemma collect_loop keep s ids m0 :
  ∃ m, foldM (collect_status (C := C) lister service_row version_rows keep) m0 ids s = (s, Ok m) ∧
    ∀ id st, m !! id = Some st ↔
      (id ∈ ids ∧ keep (status_of s id) = true ∧ st = status_of s id) ∨
      ((id ∉ ids ∨ keep (status_of s id) = false) ∧ m0 !! id = Some st).
Proof.
  revert m0. induction ids as [|x ids IH]; intros m0; cbn [foldM].
  { exists m0. split; [done|]. intros id st. set_solver. }
  rewrite bind_unfold. unfold collect_status at 1, mbind at 1, M_bind at 1. rewrite query_status. simpl.
  destruct (IH (if keep (status_of s x) then <[x := status_of s x]> m0 else m0)) as (m & E & Hm).
  exists m. split; [exact E|]. intros id st. rewrite Hm, elem_of_cons.
  destruct (keep (status_of s x)) eqn:Ek.
  - rewrite lookup_insert_Some. destruct (decide (id = x)) as [->|]; [|intuition congruence].
    rewrite Ek. destruct (decide (x ∈ ids)); intuition congruence.
  - destruct (decide (id = x)) as [->|]; [|intuition congruence]. rewrite Ek.
    intuition congruence.
Qed.

Lemma billed st :
  isClosedStatus st = false ↔ st ∉ [CLOSED; UNDEPLOY; UNKNOW; BUILDING; BUILDEFAILURE].
Proof. unfold isClosedStatus. rewrite bool_decide_eq_false, !elem_of_cons. tauto. Qed.

(** A status query changes nothing and answers exactly the
    requested components (every cached one if none is named) with their
    status; the billing query leaves out those whose status is closed,
    undeployed, unknown or still building. *)
Theorem statuses_exact `{GoRuntimeLaws} (s : Store C) (ids : list string) (Hs : store_ok s) :
  let wanted id := match ids with [] => is_Some (st_apps s !! id) | _ => id ∈ ids end in
  ∃ m b, GetAppServicesStatus lister service_row version_rows ids s = (s, Ok m) ∧
    GetNeedBillingStatus lister service_row version_rows ids s = (s, Ok b) ∧
    (∀ id st, m !! id = Some st ↔ wanted id ∧ st = status_of s id) ∧
    (∀ id st, b !! id = Some st ↔
       wanted id ∧ st = status_of s id ∧
       st ∉ [CLOSED; UNDEPLOY; UNKNOW; BUILDING; BUILDEFAILURE]).
Proof.
  intros wanted.
  set (l := match ids with [] => ServiceID <$> GetAllAppServices s | _ => ids end).
  assert (∀ keep, collect_statuses lister service_row version_rows keep ids s =
    foldM (collect_status lister service_row version_rows keep) ∅ l s) as Hl by (by destruct ids).
  assert (∀ id, wanted id ↔ id ∈ l) as Hw.
  { intros id. unfold wanted, l. destruct ids; [|done]. rewrite list_elem_of_fmap. split.
    - intros [a Ha]. exists a. destruct (Hs id a Ha). split; [done|].
      apply elem_of_range. eauto.
    - intros (a & -> & [k Hk]%elem_of_range). destruct (Hs k a Hk) as [-> _]. eauto. }
  unfold GetAppServicesStatus, GetNeedBillingStatus. rewrite !Hl.
  destruct (collect_loop (λ _, true) s l ∅) as (m & -> & Hm).
  destruct (collect_loop (λ st, negb (isClosedStatus st)) s l ∅) as (b & -> & Hb).
  exists m, b. split_and!; [done..| |]; intros id st.
  - rewrite Hm, Hw, lookup_empty. naive_solver.
  - rewrite Hb, Hw, lookup_empty, negb_true_iff, billed. naive_solver.
Qed.
End queries.

(** ** Objects of components the database does not know *)

Section orphans.
Context {C : Type} (kc : KubeClient C) `{ComponentKinds}.
Context (InitCacheAppService : string → string → init_error + AppService).

(** The labels, whether the branch asks for a version label, and the kind and
    name of the object, for the kinds whose orphans are deleted. *)
Definition orphan_view (o : informer_object) : option (bool * ObjectMeta * kind) :=
  match o with
  | IDeployment d => Some (true, wl_meta d, KDeployment)
  | IStatefulSet d => Some (true, wl_meta d, KStatefulSet)
  | IReplicaSet d => Some (true, rs_meta d, KReplicaSet)
  | ISecret d => Some (false, pl_meta d, KSecret)
  | IService d => Some (false, svc_meta d, KService)
  | IIngress d => Some (false, ing_meta d, KIngress)
  | IConfigMap d => Some (false, pl_meta d, KConfigMap)
  | IHPA d => Some (true, pl_meta d, KHPA)
  | IClaim d => Some (false, pl_meta d, KClaim)
  | IThirdComponent _ _ | IStorageClass _ | IServiceMonitor _ => None
  end.

(** The kind the branch passes to the delete call. *)
Definition deleted_kind (k : kind) : kind :=
  match k with KReplicaSet => KDeployment | _ => k end.

Definition is_orphan (versioned : bool) (m : ObjectMeta) (s : Store C) : Prop :=
  let ow := owner_of (m_Labels m) in
  (if versioned then owned_version ow else owned ow) = true ∧
  GetAppService (ow_service ow) s = None ∧
  InitCacheAppService (ow_service ow) (ow_creater ow) = inl ErrServiceNotFound.

Lemma orphan_attach ow drop f s : GetAppService (ow_service ow) s = None →
  InitCacheAppService (ow_service ow) (ow_creater ow) = inl ErrServiceNotFound →
  attach (C := C) InitCacheAppService ow drop f s =
    match drop s with (s', Ok _) => (s', Ok false) | (s', Err e) => (s', Err e)
    | (s', Panic) => (s', Panic) end.
Proof.
  intros Hg Hi. unfold attach, mbind, M_bind, getAppService. rewrite Hg, Hi.
  rewrite decide_True by done. by destruct (drop s) as [s' [[]| |]].
Qed.

Lemma run_drop k ns n s :
  drop kc k ns n s = (s <| st_cluster := (kc_delete kc k ns n (st_cluster s)).1 |>, Ok ()).
Proof.
  unfold drop, mbind, M_bind, on_cluster, api_err.
  by destruct (kc_delete kc k ns n (st_cluster s)) as [c e].
Qed.

(** An object whose component the database does not know is
    deleted from the cluster and enters no cache; only for a replica set the
    call names a Deployment. *)
Theorem orphan_cleanup (o : informer_object) (s : Store C) versioned m k
    (Hview : orphan_view o = Some (versioned, m, k)) (Horphan : is_orphan versioned m s) :
  OnAdd kc InitCacheAppService o s =
  (s <| st_cluster :=
      (kc_delete kc (deleted_kind k) (m_Namespace m) (m_Name m) (st_cluster s)).1 |>, Ok ()).
Proof.
  destruct Horphan as (Ho & Hg & Hi).
  destruct o; simpl in Hview; simplify_eq; simpl;
    unfold add_deployment, add_statefulset, add_replicaset, add_secret, add_service,
      add_ingress, add_configmap, add_hpa, add_claim; rewrite Ho; unfold when.
  3: { unfold mbind, M_bind, getAppService. rewrite Hg, Hi, decide_True by done.
       by rewrite run_drop. }
  all: rewrite bind_unfold, orphan_attach by done; unfold drop_obj; by rewrite run_drop.
Qed.

(** So an orphaned replica set is never deleted; a Deployment
    that happens to bear its name is, if the cluster has one. *)
Theorem orphan_replicaset_stays {kl} (HL : KubeLaws kc kl) (d : ReplicaSet) (s : Store C)
    (Horphan : is_orphan true (rs_meta d) s) :
  let ns := m_Namespace (rs_meta d) in
  let s' := (OnAdd kc InitCacheAppService (IReplicaSet d) s).1 in
  kl (st_cluster s') KReplicaSet ns (rs_name d) = kl (st_cluster s) KReplicaSet ns (rs_name d) ∧
  ((kc_delete kc KDeployment ns (rs_name d) (st_cluster s)).2 = None →
   gone (kl (st_cluster s') KDeployment ns (rs_name d))).
Proof.
  destruct Horphan as (Ho & Hg & Hi). intros ns s'.
  assert (st_cluster s' = (kc_delete kc KDeployment ns (rs_name d) (st_cluster s)).1) as ->.
  { unfold s'. simpl. unfold add_replicaset. rewrite Ho. unfold when, mbind, M_bind, getAppService.
    rewrite Hg, Hi, decide_True by done. by rewrite run_drop. }
  split; [by apply kl_delete_frame|].
  destruct (kc_delete kc KDeployment ns (rs_name d) (st_cluster s)) as [c e] eqn:E. simpl.
  intros ->. eapply kl_delete_ok, E.
Qed.
End orphans.

(** ** Probes *)

Section probes.
Context (sid : string).

(** Probes of this component, each endpoint once. *)
Definition probes_ok (l : list ProbeInfo) : Prop :=
  NoDup l ∧ Forall (λ pi, pi = probe_of sid (pi_IP pi) (""%string, pi_Port pi)) l.

(** [f] adds the probes that satisfy [P]. *)
Definition collects (f : list ProbeInfo → list ProbeInfo) (P : ProbeInfo → Prop) : Prop :=
  ∀ l, probes_ok l → probes_ok (f l) ∧ ∀ pi, pi ∈ f l ↔ pi ∈ l ∨ P pi.

Lemma addProbe_collects ip port :
  collects (λ l, addProbe l (probe_of sid ip port)) (λ pi, pi = probe_of sid ip port).
Proof.
  intros l [Hnd Hall]. unfold addProbe.
  destruct (existsb _ l) eqn:E.
  - assert (probe_of sid ip port ∈ l) as Hin.
    { apply existsb_elem in E as (c & Hc & [E1 E2]%bool_decide_eq_true).
      rewrite Forall_forall in Hall. simpl in *. rewrite (Hall c Hc) in Hc. by rewrite E1, E2 in Hc. }
    split; [done|]. intros pi. split; [auto|]. by intros [?| ->].
  - assert (probe_of sid ip port ∉ l) as Hnin.
    { intros Hin. apply not_true_iff_false in E. apply E, existsb_elem.
      exists (probe_of sid ip port). split; [done|]. by apply bool_decide_eq_true. }
    split; [|intros pi; rewrite elem_of_app, list_elem_of_singleton; done]. split.
    + apply NoDup_app. split_and!; [done| |apply NoDup_singleton].
      by intros x Hx ->%list_elem_of_singleton.
    + apply Forall_app. split; [done|]. by repeat constructor.
Qed.

Lemma foldl_collects {A} (f : list ProbeInfo → A → list ProbeInfo) (P : A → ProbeInfo → Prop) xs :
  (∀ x, collects (λ l, f l x) (P x)) →
  collects (λ l, foldl f l xs) (λ pi, ∃ x, x ∈ xs ∧ P x pi).
Proof.
  intros Hf. induction xs as [|x xs IH]; intros l Hl; simpl.
  { split; [done|]. intros pi. split; [auto|]. by intros [?|(x & ?%not_elem_of_nil & _)]. }
  destruct (Hf x l Hl) as [Hok Hmem]. destruct (IH _ Hok) as [Hok' Hmem']. split; [done|].
  intros pi. rewrite Hmem', Hmem. setoid_rewrite elem_of_cons. naive_solver.
Qed.

(** A third-party component gets exactly one probe for every
    address and port of its endpoints, ready or not; an endpoint that stands
    for a domain gets a single probe. *)
Theorem probe_infos_exact (ep : Endpoints) :
  match domain_of ep, mjoin (ss_Ports <$> ep_Subsets ep) with
  | Some domain, port :: _ => listProbeInfos ep sid = [probe_of sid domain port]
  | _, _ => NoDup (listProbeInfos ep sid) ∧
    ∀ pi, pi ∈ listProbeInfos ep sid ↔
      ∃ s port ip, s ∈ ep_Subsets ep ∧ port ∈ ss_Ports s ∧
        (ip ∈ ss_NotReadyAddresses s ∨ ip ∈ ss_Addresses s) ∧ pi = probe_of sid ip port
  end.
Proof.
  assert (let l := foldl (subset_probes sid) [] (ep_Subsets ep) in
    NoDup l ∧ ∀ pi, pi ∈ l ↔ ∃ s port ip, s ∈ ep_Subsets ep ∧ port ∈ ss_Ports s ∧
      (ip ∈ ss_NotReadyAddresses s ∨ ip ∈ ss_Addresses s) ∧ pi = probe_of sid ip port) as H.
  2: { unfold listProbeInfos. by destruct (domain_of ep), (mjoin (ss_Ports <$> ep_Subsets ep)). }
  destruct (foldl_collects (subset_probes sid) (λ s pi, ∃ port, port ∈ ss_Ports s ∧ ∃ ip,
      ip ∈ ss_NotReadyAddresses s ++ ss_Addresses s ∧ pi = probe_of sid ip port)
    (ep_Subsets ep)) with (l := @nil ProbeInfo) as [[Hnd _] Hmem].
  - intros s. unfold subset_probes.
    apply (foldl_collects _ (λ port pi, ∃ ip, ip ∈ ss_NotReadyAddresses s ++ ss_Addresses s ∧
      pi = probe_of sid ip port)). intros port.
    apply (foldl_collects _ (λ ip pi, pi = probe_of sid ip port)). intros ip.
    apply addProbe_collects.
  - split; [apply NoDup_nil_2|constructor].
  - split; [done|]. intros pi. rewrite Hmem. setoid_rewrite elem_of_app.
    split; [intros [?%not_elem_of_nil|(s & ? & port & ? & ip & ? & ?)]; [done|eauto 10]|].
    intros (s & port & ip & ? & ? & ? & ?). right. eauto 10.
Qed.
End probes.

(** ** Witnesses *)

#[local] Existing Instance demo_kinds.
#[local] Existing Instance ref_runtime.
#[local] Existing Instance ref_runtime_laws.

Definition demo_init (sid cid : string) : init_error + AppService :=
  if decide (sid = "gone"%string) then inl ErrServiceNotFound
  else inr (empty_app (demo_base <| b_ServiceID := sid |>)).

Definition demo_labels (sid : string) : gmap string string :=
  list_to_map [("service_id", sid); ("version", "v1"); ("creater_id", "c")]%string.
Definition demo_owned (n sid : string) : ObjectMeta := (demo_meta n) <| m_Labels := demo_labels sid |>.

Definition demo_secret : Secret := mkPlain (demo_owned "s" "svc") "".
Definition demo_orphan : ReplicaSet := mkReplicaSet (demo_owned "web" "gone") 0 0 0.
Definition demo_owned_pod : Pod :=
  mkPod (demo_owned "p" "svc") "node" [demo_container] "Running" "" "" [] [] [].

Definition demo_store (c : RefKube.cluster) : Store RefKube.cluster := mkStore c ∅ 0 ∅ [].

Lemma demo_kinds_laws : ComponentKindsLaws.
Proof.
  split; intros o a; try done; intros []; split; done.
Qed.

Lemma demo_init_sound : init_sound demo_init.
Proof.
  intros sid cid a. unfold demo_init. destruct (decide _); intros [= <-].
  split; [done|apply wf_empty_app].
Qed.

Definition demo_inputs : list store_input :=
  [InAdd (ISecret demo_secret); InPod (PodAdded demo_owned_pod); InDelete [ISecret demo_secret]].

Lemma store_history_witness :
  let s := (forM demo_inputs (handle_input RefKube.client demo_init (λ _, true)
    (λ k _ _, (None, Some NotFound))) (demo_store RefKube.empty)).1 in
  store_ok s ∧ (length <$> (pods <$> st_apps s !! "svc"%string)) = Some 1%nat.
Proof.
  split; [|reflexivity].
  apply (@store_history _ RefKube.client demo_kinds demo_kinds_laws demo_init (λ _, true)
    (λ k _ _, (None, Some NotFound)) demo_init_sound demo_inputs (demo_store RefKube.empty)).
  - intros k a E. unfold demo_store in E. simpl in E. rewrite lookup_empty in E. discriminate E.
  - intros app Hin. apply list_elem_of_In in Hin. simpl in Hin. intuition discriminate.
Defined.

Definition demo_lister (k : kind) (ns n : string) : reply k :=
  match k return reply k with
  | KPod => if decide (n = "p1"%string) then (Some (demo_pod "p1"), None) else (None, Some NotFound)
  | _ => (None, Some NotFound)
  end.

Lemma demo_lister_sound : lister_sound demo_lister.
Proof.
  split; intros k ns n; destruct k; simpl; try (by right); try done.
  destruct (decide (n = "p1"%string)) as [->|]; [left; by eexists|by right].
Qed.

Lemma refresh_tracks_cluster_witness :
  ∃ a', refresh_app demo_lister demo_app = Ok a' ∧
    GetPodsByName "p1" a' = Some (demo_pod "p1") ∧ GetPodsByName "p2" a' = None.
Proof.
  destruct (refresh_tracks_cluster demo_lister demo_lister_sound demo_app wf_demo_app)
    as (a' & E & _ & _ & _ & _ & _ & Hp).
  exists a'. split; [exact E|]. rewrite !Hp. split; reflexivity.
Defined.

Lemma app_status_decides_witness :
  getAppStatus (<["a" := RUNNING]> {["b" := SOMEABNORMAL]}) = AppStatus_ABNORMAL ∧
  ¬ ∃ id, ({["b" := CLOSED]} : gmap string string) !! id = Some STARTING.
Proof.
  split; [reflexivity|].
  pose proof (app_status_decides ({["b" := CLOSED]} : gmap string string)) as H.
  vm_compute in H. destruct H as [_ H]. intros Hs. destruct (H _ Hs); discriminate.
Defined.

Lemma tenant_resource_sums_witness :
  tr_MemoryRequest (GetTenantResource "tenant"
    (cache_after [PodAdded (demo_pod "p1"); PodAdded (demo_pod "p2");
                  PodRemoved (demo_pod "p1")])) = 4194304%Z.
Proof.
  rewrite (proj1 (proj2 (tenant_resource_sums
    [PodAdded (demo_pod "p1"); PodAdded (demo_pod "p2"); PodRemoved (demo_pod "p1")] "tenant"))).
  reflexivity.
Defined.

Lemma statuses_exact_witness :
  ∃ m, GetAppServicesStatus demo_lister (λ _, Some false) (λ _, (0%nat, false)) ["x"]
    (demo_store RefKube.empty) = (demo_store RefKube.empty, Ok m) ∧ m !! "x"%string = Some UNDEPLOY.
Proof.
  destruct (statuses_exact demo_lister (λ _, Some false) (λ _, (0%nat, false))
    (demo_store RefKube.empty) ["x"%string]) as (m & b & E & _ & Hm & _).
  { intros k a Ek. simpl in Ek. rewrite lookup_empty in Ek. discriminate Ek. }
  exists m. split; [exact E|]. apply Hm. split; [constructor|reflexivity].
Defined.

Lemma demo_is_orphan : is_orphan demo_init true (rs_meta demo_orphan) (demo_store RefKube.empty).
Proof. by split_and!. Qed.

Lemma orphan_cleanup_witness :
  OnAdd RefKube.client demo_init (IReplicaSet demo_orphan) (demo_store RefKube.empty) =
  (demo_store (RefKube.remove KDeployment "tenant" "web" RefKube.empty).1, Ok ()).
Proof.
  exact (orphan_cleanup RefKube.client demo_init (IReplicaSet demo_orphan)
    (demo_store RefKube.empty) true (rs_meta demo_orphan) KReplicaSet eq_refl demo_is_orphan).
Defined.

Definition demo_cluster : RefKube.cluster :=
  RefKube.upd KDeployment <[("tenant", "web") := demo_workload]>
    (RefKube.upd KReplicaSet <[("tenant", "web") := demo_orphan]> RefKube.empty).

Lemma orphan_replicaset_stays_witness :
  let s' := (OnAdd RefKube.client demo_init (IReplicaSet demo_orphan) (demo_store demo_cluster)).1 in
  RefKube.lookup (st_cluster s') KReplicaSet "tenant" "web" = Some demo_orphan ∧
  gone (RefKube.lookup (st_cluster s') KDeployment "tenant" "web").
Proof.
  destruct (orphan_replicaset_stays RefKube.client demo_init RefKube.laws demo_orphan
    (demo_store demo_cluster)) as [H1 H2]; [by split_and!|].
  split; [exact H1|]. apply H2. reflexivity.
Defined.
