(* ===== verification/StoreSync.v ===== *)
(** * What the store keeps in step with the cluster besides its cache

    [worker/appm/store/store.go]: the image pull secret copied into every
    managed namespace, and the scaling records taken from cluster events. *)
From S2P Require Import Prelude Kube AppService AppStatus.

(** ** Image pull secrets *)

Record PullSecret := mkPullSecret { ps_Type : string; ps_Data : gmap string string }.

(** The informer's cache hands out pointers, so a write through one changes
    the cache; the API server has its own copy.  [sy_api] lists the outcomes
    of the coming write calls, an exhausted list means success. *)
Record Sync := mkSync {
  sy_cache : gmap (string * string) PullSecret;
  sy_cluster : gmap (string * string) PullSecret;
  sy_api : list (option api_error)
}.
#[export] Instance eta_Sync : Eta Sync := λ s, mkSync (sy_cache s) (sy_cluster s) (sy_api s).

Definition secretByKey (key : string * string) (s : Sync) : PullSecret + api_error :=
  match sy_cache s !! key with Some x => inl x | None => inr NotFound end.

(** A Create or an Update call: the next outcome decides. *)
Definition write_secret (key : string * string) (x : PullSecret) : M Sync (option api_error) :=
  λ s,
    let s' := s <| sy_api ::= tl |> in
    match hd None (sy_api s) with
    | None => (s' <| sy_cluster ::= <[key := x]> |>, Ok None)
    | Some e => (s', Ok (Some e))
    end.

(** The informer catches up. *)
Definition resync (s : Sync) : Sync := s <| sy_cache := sy_cluster s |>.

Definition isImagePullSecretEqual `{GoRuntime} (a b : PullSecret) : bool :=
  bool_decide (size (ps_Data a) = size (ps_Data b)) &&
  forallb (λ '(key, av), bool_decide (ps_Data b !! key = Some av)) (range_order (ps_Data a)).

Definition msg_get : string := "get secret".
Definition msg_create : string := "create secret for pulling images".
Definition msg_update : string := "update secret for pulling images".

(** [ns = rbd] is no special case: the secret then equals itself. *)
Definition createOrUpdateImagePullSecret `{GoRuntime} (imagePullSecretName rbd ns : string) :
    M Sync unit :=
  if decide (imagePullSecretName = ""%string) then mret () else
  raw ← gets (secretByKey (rbd, imagePullSecretName));
  match raw with
  | inr e => fail (EWrap msg_get (EApi e))
  | inl rawSecret =>
    let key := (ns, imagePullSecretName) in
    cur ← gets (secretByKey key);
    match cur with
    | inr e =>
      if IsNotFound e then
        err ← write_secret key (mkPullSecret (ps_Type rawSecret) (ps_Data rawSecret));
        match err with Some e => fail (EWrap msg_create (EApi e)) | None => mret () end
      else fail (EWrap msg_get (EApi e))
    | inl curSecret =>
      if isImagePullSecretEqual rawSecret curSecret then mret () else
      let curSecret := mkPullSecret (ps_Type curSecret) (ps_Data rawSecret) in
      _ ← modify (λ s, s <| sy_cache ::= <[key := curSecret]> |>);
      err ← write_secret key curSecret;
      match err with Some e => fail (EWrap msg_update (EApi e)) | None => mret () end
    end
  end.

Record Namespace := mkNamespace {
  nsp_Name : string; nsp_Labels : gmap string string; nsp_Phase : string
}.

(** Namespaces of old versions are recognised by the length of an id. *)
Definition filterOutNotKatoNamespace (ns : Namespace) : bool :=
  bool_decide (get_str (nsp_Labels ns) "creator" = "Kato"%string) ||
  bool_decide (String.length (nsp_Name ns) = 32%nat).

(** The [UpdateFunc] of [nsEventHandler]; the error is logged. *)
Definition nsEventHandler `{GoRuntime} (imagePullSecretName rbd : string) (ns : Namespace) :
    M Sync unit :=
  if filterOutNotKatoNamespace ns then
    if decide (nsp_Phase ns = "Terminating"%string) then mret ()
    else _ ← catch (createOrUpdateImagePullSecret imagePullSecretName rbd (nsp_Name ns)); mret ()
  else mret ().

(** ** Scaling records *)

Record Event := mkEvent {
  ev_Name : string;
  ev_Kind : string;
  ev_Namespace : string;
  ev_Object : string;
  ev_ResourceVersion : string;
  ev_Count : Z;
  ev_Reason : string;
  ev_Message : string;
  ev_LastTimestamp : Z
}.

Record ScalingRecord := mkScalingRecord {
  sr_ServiceID : string;
  sr_RuleID : string;
  sr_EventName : string;
  sr_RecordType : string;
  sr_Count : Z;
  sr_Reason : string;
  sr_Description : string;
  sr_Operator : string;
  sr_LastTime : Z
}.

Definition rc2RecordType : gmap string string :=
  list_to_map [("Deployment", "mumaul"); ("Statefulset", "mumaul");
               ("HorizontalPodAutoscaler", "hpa")]%string.

Section records.
Context (lister : ∀ k : kind, string → string → reply k).

Definition labels_of (k : kind) (evt : Event) : result (string * string) :=
  match lister k (ev_Namespace evt) (ev_Object evt) with
  | (_, Some _) => Ok (""%string, ""%string)
  | (Some o, None) =>
    let l := m_Labels (obj_meta o) in Ok (get_str l "service_id", get_str l "rule_id")
  | (None, None) => Panic
  end.

Definition scalingRecordServiceAndRuleID (evt : Event) : result (string * string) :=
  if decide (ev_Kind evt = "Deployment"%string) then labels_of KDeployment evt
  else if decide (ev_Kind evt = "Statefulset"%string) then labels_of KStatefulSet evt
  else if decide (ev_Kind evt = "HorizontalPodAutoscaler"%string) then labels_of KHPA evt
  else Ok (""%string, ""%string).

(** The record built from an event, if any; [operator] differs between the
    two handlers. *)
Definition scaling_record (operator : string) (evt : Event) : result (option ScalingRecord) :=
  match rc2RecordType !! ev_Kind evt with
  | None => Ok None
  | Some recordType =>
    match scalingRecordServiceAndRuleID evt with
    | Ok (serviceID, ruleID) =>
      if decide (serviceID = ""%string ∨ ruleID = ""%string) then Ok None
      else Ok (Some (mkScalingRecord serviceID ruleID (ev_Name evt) recordType (ev_Count evt)
        (ev_Reason evt) (ev_Message evt) operator (ev_LastTimestamp evt)))
    | Err e => Err e
    | Panic => Panic
    end
  end.

Definition evtAdded (evt : Event) : result (option ScalingRecord) := scaling_record "system" evt.

Definition evtUpdated (old cur : Event) : result (option ScalingRecord) :=
  match rc2RecordType !! ev_Kind cur with
  | None => Ok None
  | Some _ =>
    if decide (ev_ResourceVersion old = ev_ResourceVersion cur) then Ok None
    else scaling_record "" cur
  end.
End records.

(** ** Lemmas *)

Lemma range_forallb `{GoRuntimeLaws} {V} (f : string * V → bool) (m : gmap string V) :
  forallb f (range_order m) = true ↔ ∀ k v, m !! k = Some v → f (k, v) = true.
Proof.
  rewrite forallb_forall. split.
  - intros Hf k v Hk. apply Hf, list_elem_of_In. rewrite range_order_perm.
    by apply elem_of_map_to_list.
  - intros Hf [k v] Hin. apply Hf. apply list_elem_of_In in Hin.
    rewrite range_order_perm in Hin. by apply elem_of_map_to_list in Hin.
Qed.

(** Equal sizes make the one-sided comparison of the loop an equality. *)
Lemma secret_equal_iff `{GoRuntimeLaws} a b :
  isImagePullSecretEqual a b = true ↔ ps_Data a = ps_Data b.
Proof.
  unfold isImagePullSecretEqual. rewrite andb_true_iff, bool_decide_eq_true, range_forallb.
  setoid_rewrite bool_decide_eq_true. split.
  - intros [Hsize Hsub]. assert (ps_Data a ⊆ ps_Data b) as Hs by by apply map_subseteq_spec.
    apply map_subseteq_size_eq in Hs; [done|]. lia.
  - intros ->. auto.
Qed.

Section pull_secret.
Context `{GoRuntimeLaws}.
Context (name rbd ns : string).

Abbreviation sync := (createOrUpdateImagePullSecret name rbd ns).

(** One run, by what the informer's cache holds. *)
Lemma sync_cases s raw (Hname : name ≠ ""%string) (Hraw : sy_cache s !! (rbd, name) = Some raw) :
  sync s =
  match sy_cache s !! (ns, name) with
  | None =>
    let x := mkPullSecret (ps_Type raw) (ps_Data raw) in
    match hd None (sy_api s) with
    | None => (s <| sy_api ::= tl |> <| sy_cluster ::= <[(ns, name) := x]> |>, Ok ())
    | Some e => (s <| sy_api ::= tl |>, Err (EWrap msg_create (EApi e)))
    end
  | Some cur =>
    if decide (ps_Data raw = ps_Data cur) then (s, Ok ()) else
    let x := mkPullSecret (ps_Type cur) (ps_Data raw) in
    let s1 := s <| sy_cache ::= <[(ns, name) := x]> |> <| sy_api ::= tl |> in
    match hd None (sy_api s) with
    | None => (s1 <| sy_cluster ::= <[(ns, name) := x]> |>, Ok ())
    | Some e => (s1, Err (EWrap msg_update (EApi e)))
    end
  end.
Proof.
  unfold createOrUpdateImagePullSecret. rewrite decide_False by done.
  rewrite bind_unfold. simpl. unfold secretByKey at 1. rewrite Hraw, bind_unfold. simpl.
  unfold secretByKey. destruct (sy_cache s !! (ns, name)) as [cur|].
  - destruct (isImagePullSecretEqual raw cur) eqn:E.
    { apply secret_equal_iff in E. by rewrite decide_True. }
    rewrite decide_False by (intros Heq%secret_equal_iff; congruence).
    unfold mbind, M_bind, write_secret. simpl.
    by destruct (hd None (sy_api s)).
  - unfold mbind, M_bind, write_secret. simpl. by destruct (hd None (sy_api s)).
Qed.

(** When the informer is up to date and the API call
    succeeds, the namespace ends with the pull secret's current data and no
    other secret changes. *)
Theorem pull_secret_synced (s : Sync) raw (Hname : name ≠ ""%string)
    (Hraw : sy_cache s !! (rbd, name) = Some raw)
    (Hfresh : sy_cache s !! (ns, name) = sy_cluster s !! (ns, name))
    (Hapi : hd None (sy_api s) = None) :
  ∃ s', sync s = (s', Ok ()) ∧
    ps_Data <$> sy_cluster s' !! (ns, name) = Some (ps_Data raw) ∧
    ∀ key, key ≠ (ns, name) → sy_cluster s' !! key = sy_cluster s !! key.
Proof.
  rewrite (sync_cases s raw Hname Hraw), Hapi, Hfresh.
  destruct (sy_cluster s !! (ns, name)) as [cur|] eqn:Ecl.
  - split_decide; eexists; (split; [done|]); simpl; [rewrite Ecl; split; [simpl; congruence|done]|].
    rewrite lookup_insert_eq. split; [done|]. intros. by rewrite lookup_insert_ne.
  - eexists. split; [done|]. simpl. rewrite lookup_insert_eq. split; [done|]. intros.
    by rewrite lookup_insert_ne.
Qed.

(** A failed update is forgotten.  The new data was already
    written into the informer's own object, so the next run sees two equal
    secrets and reports success, while the cluster keeps the old data. *)
Theorem pull_secret_lost_update (s : Sync) raw cur e (Hname : name ≠ ""%string) (Hns : ns ≠ rbd)
    (Hraw : sy_cache s !! (rbd, name) = Some raw) (Hcur : sy_cache s !! (ns, name) = Some cur)
    (Hdiff : ps_Data raw ≠ ps_Data cur) (Hapi : hd None (sy_api s) = Some e) :
  ∃ s1, sync s = (s1, Err (EWrap msg_update (EApi e))) ∧ sy_cluster s1 = sy_cluster s ∧
    sync s1 = (s1, Ok ()).
Proof.
  rewrite (sync_cases s raw Hname Hraw), Hcur, Hapi, decide_False by done.
  eexists. split; [done|]. split; [done|].
  rewrite (sync_cases _ raw Hname); simpl; [|rewrite lookup_insert_ne by congruence; done].
  by rewrite lookup_insert_eq, decide_True.
Qed.
End pull_secret.

(** Only Deployments and autoscalers ever get a scaling
    record.  The table and the switch spell the third kind "Statefulset",
    while the cluster reports events on a "StatefulSet". *)
Theorem scaling_records_kinds (lister : ∀ k : kind, string → string → reply k) (evt : Event) (r : ScalingRecord)
    (Hrec : evtAdded lister evt = Ok (Some r)) :
  ev_Kind evt ≠ "StatefulSet"%string ∧
  (ev_Kind evt = "Deployment" ∧ sr_RecordType r = "mumaul" ∨
   ev_Kind evt = "Statefulset" ∧ sr_RecordType r = "mumaul" ∨
   ev_Kind evt = "HorizontalPodAutoscaler" ∧ sr_RecordType r = "hpa")%string ∧
  scalingRecordServiceAndRuleID lister evt = Ok (sr_ServiceID r, sr_RuleID r) ∧
  sr_ServiceID r ≠ ""%string ∧ sr_RuleID r ≠ ""%string.
Proof.
  unfold evtAdded, scaling_record in Hrec.
  destruct (rc2RecordType !! ev_Kind evt) as [ty|] eqn:Ety; [|done].
  destruct (scalingRecordServiceAndRuleID lister evt) as [[sid rid]|e|] eqn:Es; [|done..].
  destruct (decide _) as [|Hn] in Hrec; [done|]. injection Hrec as <-. simpl.
  apply elem_of_list_to_map_2 in Ety. rewrite !elem_of_cons in Ety.
  destruct Ety as [E|[E|[E|E%not_elem_of_nil]]]; [..|done]; injection E as E ->; rewrite E;
    split_and!; first [done|tauto|intros ->; tauto].
Qed.

(** ** Witnesses *)

#[local] Existing Instance ref_runtime.
#[local] Existing Instance ref_runtime_laws.

Definition demo_old : PullSecret := mkPullSecret "docker" {["auth" := "old"]}.
Definition demo_new : PullSecret := mkPullSecret "docker" {["auth" := "new"]}.
Definition demo_sync (api : list (option api_error)) : Sync :=
  let m := <[("kato-system", "pull") := demo_new]> {[("team", "pull") := demo_old]} in
  mkSync m m api.

Lemma pull_secret_synced_witness :
  ∃ s', createOrUpdateImagePullSecret "pull" "kato-system" "team" (demo_sync []) = (s', Ok ()) ∧
    ps_Data <$> sy_cluster s' !! ("team", "pull") = Some {["auth" := "new"]}.
Proof.
  destruct (pull_secret_synced "pull" "kato-system" "team" (demo_sync []) demo_new
    ltac:(discriminate) eq_refl eq_refl eq_refl) as (s' & E & H & _). exists s'. split; [exact E|exact H].
Defined.

Lemma pull_secret_lost_update_witness :
  ∃ s1, createOrUpdateImagePullSecret "pull" "kato-system" "team" s1 = (s1, Ok ()) ∧
    ps_Data <$> sy_cluster s1 !! ("team", "pull") = Some {["auth" := "old"]}.
Proof.
  destruct (pull_secret_lost_update "pull" "kato-system" "team" (demo_sync [Some Conflict])
    demo_new demo_old Conflict ltac:(discriminate) ltac:(discriminate) eq_refl eq_refl
    ltac:(discriminate) eq_refl) as (s1 & _ & Hc & E).
  exists s1. split; [exact E|]. rewrite Hc. reflexivity.
Defined.

Definition demo_lister (k : kind) (ns n : string) : reply k :=
  match k return reply k with
  | KHPA => (Some (mkPlain ((demo_meta n) <| m_Labels :=
      list_to_map [("service_id", "s1"); ("rule_id", "r1")] |>) ""), None)
  | _ => (None, Some NotFound)
  end.
Definition demo_event : Event :=
  mkEvent "e1" "HorizontalPodAutoscaler" "team" "hpa1" "7" 1 "Scaled" "" 0.

Lemma scaling_records_kinds_witness :
  ∃ r, evtAdded demo_lister demo_event = Ok (Some r) ∧ sr_ServiceID r ≠ ""%string.
Proof.
  eexists. split; [reflexivity|].
  exact (proj1 (proj2 (proj2 (proj2 (scaling_records_kinds demo_lister demo_event _ eq_refl))))).
Defined.
