(* ===== verification/PodStatus.v ===== *)
(** * The status of a pod as shown to users

    [worker/util/pod.go]: [DescribePodStatus] reads the deletion mark, the
    conditions and the containers of a pod. *)
From stdpp Require Import pretty.
From S2P Require Import Prelude Kube AppService AppStatus.

Inductive PodStatus_Type :=
  | PS_PENDING | PS_RUNNING | PS_SUCCEEDED | PS_FAILED | PS_UNKNOWN | PS_TEMINATING
  | PS_ABNORMAL | PS_INITIATING | PS_SCHEDULING | PS_NOTREADY | PS_UNHEALTHY.
#[export] Instance PodStatus_Type_eq_dec : EqDecision PodStatus_Type.
Proof. solve_decision. Defined.

Definition type_string (t : PodStatus_Type) : string :=
  match t with
  | PS_PENDING => "PENDING" | PS_RUNNING => "RUNNING" | PS_SUCCEEDED => "SUCCEEDED"
  | PS_FAILED => "FAILED" | PS_UNKNOWN => "UNKNOWN" | PS_TEMINATING => "TEMINATING"
  | PS_ABNORMAL => "ABNORMAL" | PS_INITIATING => "INITIATING" | PS_SCHEDULING => "SCHEDULING"
  | PS_NOTREADY => "NOTREADY" | PS_UNHEALTHY => "UNHEALTHY"
  end.

Record PodStatus := mkPodStatus {
  pst_Type : PodStatus_Type;
  pst_TypeStr : string;
  pst_Reason : string;
  pst_Message : string;
  pst_Advice : string
}.
#[export] Instance eta_PodStatus : Eta PodStatus := λ p,
  mkPodStatus (pst_Type p) (pst_TypeStr p) (pst_Reason p) (pst_Message p) (pst_Advice p).

Definition PodStatusAdviceOOM : string := "OutOfMemory".
Definition PodStatusAdviceUnhealthy : string := "Unhealthy".
Definition PodStatusAdviceInitiating : string := "Initiating".

Definition podStatusTbl : gmap string PodStatus_Type :=
  list_to_map [("Pending", PS_INITIATING); ("Running", PS_RUNNING); ("Succeeded", PS_ABNORMAL);
    ("Failed", PS_ABNORMAL); ("Unknown", PS_UNKNOWN); ("Ready", PS_NOTREADY);
    ("Initialized", PS_INITIATING); ("PodScheduled", PS_SCHEDULING);
    ("ContainersReady", PS_NOTREADY)]%string.

(** A missing key reads as the zero value of the enumeration. *)
Definition status_type (k : string) : PodStatus_Type := default PS_PENDING (podStatusTbl !! k).

Definition podConditionTbl : gmap string Z :=
  list_to_map [("PodScheduled", 0%Z); ("Initialized", 1%Z); ("Ready", 2%Z);
    ("ContainersReady", 3%Z)]%string.

Definition rank (c : PodCondition) : Z := default 0%Z (podConditionTbl !! pc_Type c).

(** [SortableConditionType.Less]: late stages first. *)
Definition Less (x y : PodCondition) : bool := bool_decide (rank y < rank x)%Z.

(** The loop over the sorted conditions: the last one that is not true. *)
Definition condition_step (st : PodStatus) (c : PodCondition) : PodStatus :=
  if decide (pc_Status c = ConditionTrue) then st
  else st <| pst_Type := status_type (pc_Type c) |> <| pst_Reason := pc_Reason c |>
         <| pst_Message := pc_Message c |>.

Definition from_conditions `{GoRuntime} (pod : Pod) (st : PodStatus) : PodStatus :=
  foldl condition_step (st <| pst_Type := PS_RUNNING |>) (sort_slice Less (pod_Conditions pod)).

Definition from_phase (pod : Pod) (st : PodStatus) : PodStatus :=
  let st := st <| pst_Type := status_type (pod_Phase pod) |> in
  let st := if nonempty_string (pod_Reason pod) then st <| pst_Reason := pod_Reason pod |> else st in
  if nonempty_string (pod_Message pod) then st <| pst_Message := pod_Message pod |> else st.

Definition grace_message (n : Z) : string :=
  "Termination Grace Period:" +:+ String (Ascii.ascii_of_nat 9) (pretty n +:+ "s").

(** The first part: a type from the mark, the phase or the conditions. *)
Definition first_status `{GoRuntime} (pod : Pod) (st : PodStatus) : result PodStatus :=
  match m_DeletionTimestamp (pod_meta pod) with
  | Some _ =>
    match m_DeletionGracePeriodSeconds (pod_meta pod) with
    | Some n => Ok (st <| pst_Type := PS_TEMINATING |> <| pst_Message := grace_message n |>)
    | None => Panic
    end
  | None =>
    match pod_Conditions pod with
    | [] => Ok (from_phase pod st)
    | _ => Ok (from_conditions pod st)
    end
  end.

Definition probe_failed (msg : string) : bool :=
  str_contains msg "Liveness probe failed" || str_contains msg "Readiness probe failed".

(** The loop over the containers of a pod that is not ready; [events] is what
    the event listing returns, [None] for a nil list. *)
Fixpoint unready_loop (events : option (list string)) (l : list ContainerStatus) (st : PodStatus) :
    PodStatus :=
  match l with
  | [] => st
  | c :: l' =>
    if cs_Ready c then unready_loop events l' st else
    match st_Terminated (cs_State c) with
    | Some t =>
      let st := st <| pst_Type := PS_ABNORMAL |> in
      if decide (t_Reason t = "OOMKilled"%string) then st <| pst_Advice := PodStatusAdviceOOM |>
      else st
    | None =>
      if existsb probe_failed (default [] events)
      then st <| pst_Type := PS_UNHEALTHY |> <| pst_Advice := PodStatusAdviceUnhealthy |>
      else
        match st_Waiting (cs_State c) with
        | Some reason =>
          if decide (reason ≠ "PodInitializing"%string ∧ reason ≠ "ContainerCreating"%string)
          then st <| pst_Type := PS_ABNORMAL |>
          else unready_loop events l' st
        | None => unready_loop events l' st
        end
    end
  end.

(** The second part refines two of the types by looking at the containers. *)
Definition refine_status (events : option (list string)) (pod : Pod) (st : PodStatus) : PodStatus :=
  if decide (pst_Type st = PS_INITIATING) then
    let st := st <| pst_Advice := PodStatusAdviceInitiating |> in
    match pod_ContainerStatuses pod with
    | [] => st
    | l => if forallb cs_Ready l then st <| pst_Type := PS_RUNNING |> else st
    end
  else if decide (pst_Type st = PS_NOTREADY) then
    unready_loop events (pod_ContainerStatuses pod) st
  else st.

Definition DescribePodStatus `{GoRuntime} (f : Pod → option (list string)) (pod : Pod)
    (podStatus : PodStatus) : result PodStatus :=
  match first_status pod podStatus with
  | Ok st =>
    let st := refine_status (f pod) pod st in
    Ok (st <| pst_TypeStr := type_string (pst_Type st) |>)
  | Err e => Err e
  | Panic => Panic
  end.

(** ** Lemmas *)

Lemma Less_strict_weak : strict_weak Less.
Proof.
  split; unfold Less; intros *; rewrite ?bool_decide_eq_false, ?bool_decide_eq_true; lia.
Qed.

Definition untrue (pod : Pod) (c : PodCondition) : Prop :=
  c ∈ pod_Conditions pod ∧ pc_Status c ≠ ConditionTrue.

Lemma condition_loop l st :
  StronglySorted (λ x y, Less y x = false) l →
  let r := foldl condition_step st l in
  (Forall (λ c, pc_Status c = ConditionTrue) l ∧ r = st) ∨
  (∃ c, c ∈ l ∧ pc_Status c ≠ ConditionTrue ∧
     (∀ c', c' ∈ l → pc_Status c' ≠ ConditionTrue → (rank c ≤ rank c')%Z) ∧
     pst_Type r = status_type (pc_Type c) ∧ pst_Reason r = pc_Reason c ∧
     pst_Message r = pc_Message c).
Proof.
  intros Hs. induction l as [|c l IH] using rev_ind; [by left|].
  apply StronglySorted_app in Hs as (Hlast & Hs & _). specialize (IH Hs).
  rewrite foldl_app. simpl. unfold condition_step at 1 3 5 7.
  destruct (decide (pc_Status c = ConditionTrue)) as [Hc|Hc].
  - destruct IH as [[Hall Hr]|(d & Hd & Hn & Hmin & Hr)]; [left|right].
    + split; [|done]. apply Forall_app. auto.
    + exists d. split_and!; [set_solver|done| |tauto..].
      intros c' [Hc'| ->%list_elem_of_singleton]%elem_of_app Hn'; [auto|done].
  - right. exists c. split_and!; [set_solver|done| |done..].
    intros c' [Hc'| ->%list_elem_of_singleton]%elem_of_app Hn'; [|done].
    specialize (Hlast c' c Hc' (list_elem_of_here _ _)). unfold Less in Hlast.
    apply bool_decide_eq_false in Hlast. lia.
Qed.

(** What a container that is not ready says about its pod, if anything. *)
Definition container_verdict (events : option (list string)) (c : ContainerStatus) :
    option PodStatus_Type :=
  if cs_Ready c then None else
  match st_Terminated (cs_State c) with
  | Some _ => Some PS_ABNORMAL
  | None =>
    if existsb probe_failed (default [] events) then Some PS_UNHEALTHY else
    reason ← st_Waiting (cs_State c);
    if decide (reason = "PodInitializing" ∨ reason = "ContainerCreating")%string then None
    else Some PS_ABNORMAL
  end.

Lemma unready_loop_verdict events l st :
  pst_Type (unready_loop events l st) =
  default (pst_Type st) (head (omap (container_verdict events) l)).
Proof.
  induction l as [|c l IH]; [done|]. simpl. unfold container_verdict at 1.
  destruct (cs_Ready c); [done|]. destruct (st_Terminated (cs_State c)); [by split_decide|].
  destruct (existsb probe_failed _); [done|]. destruct (st_Waiting (cs_State c)); [|done].
  simpl. split_decide; first [done|tauto|idtac].
Qed.

(** The four conditions Kubernetes sets on every pod. *)
Definition standard_conditions (pod : Pod) : Prop :=
  Forall (λ c, pc_Type c ∈ ["PodScheduled"; "Initialized"; "Ready"; "ContainersReady"]%string)
    (pod_Conditions pod).

(** The pod has a condition of type [ct] that is not true. *)
Definition blocked (pod : Pod) (ct : string) : Prop :=
  Exists (λ c, pc_Type c = ct ∧ pc_Status c ≠ ConditionTrue) (pod_Conditions pod).

Lemma blocked_stage `{GoRuntimeLaws} (pod : Pod) st (Hstd : standard_conditions pod) :
  let t := pst_Type (from_conditions pod st) in
  if decide (blocked pod "PodScheduled") then t = PS_SCHEDULING
  else if decide (blocked pod "Initialized") then t = PS_INITIATING
  else if decide (blocked pod "Ready" ∨ blocked pod "ContainersReady") then t = PS_NOTREADY
  else t = PS_RUNNING.
Proof.
  intros t. unfold blocked.
  set (l := sort_slice Less (pod_Conditions pod)).
  assert (∀ c, c ∈ l ↔ c ∈ pod_Conditions pod) as Hl.
  { intros c. unfold l. by rewrite (sort_slice_perm PodCondition Less (pod_Conditions pod)). }
  destruct (condition_loop l (st <| pst_Type := PS_RUNNING |>)
    (sort_slice_sorted _ _ _ Less_strict_weak)) as [[Hall Hr]|(c & Hc & Hn & Hmin & Ht & _)].
  - unfold t, from_conditions. fold l. rewrite Hr.
    assert (∀ ct, ¬ Exists (λ c, pc_Type c = ct ∧ pc_Status c ≠ ConditionTrue)
      (pod_Conditions pod)) as Hnone.
    { intros ct (c & Hc & _ & Hn)%Exists_exists. apply Hn.
      rewrite Forall_forall in Hall. by apply Hall, Hl. }
    rewrite !decide_False; [done|by intros [?%Hnone|?%Hnone]|apply Hnone..].
  - change (foldl condition_step _ l) with (from_conditions pod st) in Ht. fold t in Ht.
    assert (∀ ct, Exists (λ c, pc_Type c = ct ∧ pc_Status c ≠ ConditionTrue)
      (pod_Conditions pod) → (rank c ≤ default 0 (podConditionTbl !! ct))%Z) as Hle.
    { intros ct (c' & Hc' & <- & Hn')%Exists_exists. apply Hmin; [by apply Hl|done]. }
    assert (Exists (λ c', pc_Type c' = pc_Type c ∧ pc_Status c' ≠ ConditionTrue)
      (pod_Conditions pod)) as Hex by (apply Exists_exists; exists c; split; [by apply Hl|done]).
    unfold standard_conditions in Hstd. rewrite Forall_forall in Hstd.
    specialize (Hstd c (proj1 (Hl c) Hc)). unfold rank in Hle.
    rewrite !elem_of_cons in Hstd. destruct Hstd as [E|[E|[E|[E|E%not_elem_of_nil]]]]; [..|done];
      rewrite E in Hle, Hex, Ht; split_decide; try done;
      match goal with H : Exists _ _ |- _ => specialize (Hle _ H); done | _ => tauto end.
Qed.

(** A pod that is not being deleted is described by the
    first lifecycle stage it is stuck in.  A pod stuck in initialisation whose
    main containers are all ready counts as running; a pod that is not ready
    gets the verdict of its first telling container. *)
Theorem pod_type_by_stage `{GoRuntimeLaws} (f : Pod → option (list string)) (pod : Pod)
    (st : PodStatus) (Halive : m_DeletionTimestamp (pod_meta pod) = None)
    (Hcond : pod_Conditions pod ≠ []) (Hstd : standard_conditions pod) :
  ∃ st', DescribePodStatus f pod st = Ok st' ∧ pst_TypeStr st' = type_string (pst_Type st') ∧
    let t := pst_Type st' in
    let cs := pod_ContainerStatuses pod in
    if decide (blocked pod "PodScheduled") then t = PS_SCHEDULING
    else if decide (blocked pod "Initialized") then
      t = if decide (cs ≠ [] ∧ Forall (λ c, cs_Ready c = true) cs) then PS_RUNNING
          else PS_INITIATING
    else if decide (blocked pod "Ready" ∨ blocked pod "ContainersReady") then
      t = default PS_NOTREADY (head (omap (container_verdict (f pod)) cs))
    else t = PS_RUNNING.
Proof.
  pose proof (blocked_stage pod st Hstd) as Hstage. unfold DescribePodStatus, first_status.
  rewrite Halive.
  assert (match pod_Conditions pod with
          | [] => Ok (from_phase pod st) | _ => Ok (from_conditions pod st) end =
          Ok (from_conditions pod st)) as -> by (clear Hstage; by destruct (pod_Conditions pod)).
  eexists. split; [done|]. split; [done|]. simpl. unfold refine_status. simpl in Hstage.
  destruct (decide (blocked pod "PodScheduled")); [by rewrite Hstage|].
  destruct (decide (blocked pod "Initialized")).
  { rewrite Hstage, decide_True by done. destruct (pod_ContainerStatuses pod) as [|c l] eqn:Ecs.
    { rewrite decide_False; [done|by intros [[] _]]. }
    rewrite <- Ecs. destruct (forallb cs_Ready (pod_ContainerStatuses pod)) eqn:Er.
    - rewrite decide_True; [done|]. split; [congruence|]. apply Forall_forall.
      rewrite forallb_forall in Er. intros x Hx. by apply Er, list_elem_of_In.
    - rewrite decide_False; [done|]. intros [_ Hall]. apply not_true_iff_false in Er. apply Er.
      apply forallb_forall. rewrite Forall_forall in Hall. intros x Hx. by apply Hall, list_elem_of_In. }
  destruct (decide (_ ∨ _)) as [Hr|Hr].
  - rewrite Hstage. simpl. rewrite unready_loop_verdict. by rewrite Hstage.
  - by rewrite Hstage.
Qed.

(** The function panics exactly for a pod that is marked for
    deletion without a grace period; otherwise such a pod is terminating. *)
Theorem pod_describe_panics `{GoRuntime} (f : Pod → option (list string)) (pod : Pod)
    (st : PodStatus) :
  (DescribePodStatus f pod st = Panic ↔
     m_DeletionTimestamp (pod_meta pod) ≠ None ∧
     m_DeletionGracePeriodSeconds (pod_meta pod) = None) ∧
  (∀ st', m_DeletionTimestamp (pod_meta pod) ≠ None → DescribePodStatus f pod st = Ok st' →
     pst_Type st' = PS_TEMINATING).
Proof.
  unfold DescribePodStatus, first_status.
  destruct (m_DeletionTimestamp (pod_meta pod)), (m_DeletionGracePeriodSeconds (pod_meta pod)),
    (pod_Conditions pod); split; try naive_solver; by intros st' _ [= <-].
Qed.

(** ** Witnesses *)

#[local] Existing Instance ref_runtime.
#[local] Existing Instance ref_runtime_laws.

Definition demo_conditions (init ready : condition_status) : list PodCondition :=
  [mkCondition "Ready" ready "R" ""; mkCondition "PodScheduled" ConditionTrue "" "";
   mkCondition "Initialized" init "I" ""].

Definition demo_stuck (ready : condition_status) (cs : list ContainerStatus) : Pod :=
  mkPod (demo_meta "p") "node" [] "Running" "" "" (demo_conditions ConditionTrue ready) cs [].

Definition demo_waiting : ContainerStatus :=
  mkCStatus "c" "img" false (mkCState (Some "CrashLoopBackOff"%string) None) (mkCState None None).
Definition demo_blank : PodStatus := mkPodStatus PS_PENDING "" "" "" "".

Lemma pod_type_by_stage_witness :
  ∃ st', DescribePodStatus (λ _, None) (demo_stuck ConditionFalse [demo_waiting]) demo_blank = Ok st' ∧
    pst_Type st' = PS_ABNORMAL.
Proof.
  destruct (pod_type_by_stage (λ _, None) (demo_stuck ConditionFalse [demo_waiting]) demo_blank
    eq_refl ltac:(discriminate) ltac:(apply (bool_decide_unpack _); vm_compute; exact I))
    as (st' & E & _ & Ht).
  exists st'. split; [exact E|]. vm_compute in Ht. exact Ht.
Defined.
