(* ===== verification/Sequence.v ===== *)
(** * Which components a controller starts, and in which order

    [worker/appm/controller/controller.go] and the [Begin] methods: the
    dependency layers of [decisionSequence], the registry of running
    controllers, the loop of [startController.Begin] and the WaitGroup
    protocol all [Begin] methods share. *)
From S2P Require Import Prelude Kube AppService.

(** ** Dependency layers *)

Definition sequence := list AppService.
Definition sequencelist := list sequence.

Definition Dependces (a : AppService) : list string := b_Dependces (base a).

Definition Contains (sl : sequencelist) (id : string) : bool :=
  existsb (existsb (λ a, bool_decide (ServiceID a = id))) sl.

Definition Add (ids : sequence) (sl : sequencelist) : sequencelist := sl ++ [ids].

(** [continue source] unless every dependency is in an earlier layer. *)
Definition startable (sl : sequencelist) (a : AppService) : bool :=
  forallb (Contains sl) (Dependces a).

(** [list = append(list, source[d]); delete(source, d)], a missing key
    reading as nil. *)
Fixpoint take_keys (keys : list string) (source : gmap string AppService) :
    option sequence * gmap string AppService :=
  match keys with
  | [] => (Some [], source)
  | d :: keys' =>
    let '(l, rest) := take_keys keys' (delete d source) in
    (match source !! d, l with Some a, Some l => Some (a :: l) | _, _ => None end, rest)
  end.

Section sequence.
Context `{GoRuntime}.

(** One pass over the map. *)
Definition found_pass (source : gmap string AppService) (sl : sequencelist) :
    option (gmap string AppService * sequencelist) :=
  let deleteKey := ServiceID <$> filter (λ a, startable sl a = true) (range_order source).*2 in
  match take_keys deleteKey source with
  | (Some l, rest) => Some (rest, Add l sl)
  | (None, _) => None
  end.

(** The recursion, with a bound on its depth; [None] when the bound is
    reached (or a nil component was taken). *)
Fixpoint foundsequence (fuel : nat) (source : gmap string AppService) (sl : sequencelist) :
    option sequencelist :=
  if decide (source = ∅) then Some sl else
  match fuel with
  | 0 => None
  | S fuel' =>
    match found_pass source sl with
    | Some (rest, sl') => foundsequence fuel' rest sl'
    | None => None
    end
  end.

Definition source_of (apps : list AppService) : gmap string AppService :=
  foldl (λ m a, <[ServiceID a := a]> m) ∅ apps.

Definition decisionSequence (fuel : nat) (apps : list AppService) : option sequencelist :=
  foundsequence fuel (source_of apps) [].
End sequence.

(** ** Lemmas *)

Definition placed (sl : sequencelist) (id : string) : Prop :=
  ∃ l a, l ∈ sl ∧ a ∈ l ∧ ServiceID a = id.

Lemma contains_iff sl id : Contains sl id = true ↔ placed sl id.
Proof.
  unfold Contains, placed. rewrite existsb_exists. split.
  - intros (l & Hl & (a & Ha & E%bool_decide_eq_true)%existsb_exists).
    exists l, a. rewrite !list_elem_of_In. auto.
  - intros (l & a & Hl & Ha & E). exists l. rewrite <- list_elem_of_In. split; [done|].
    apply existsb_exists. exists a. rewrite <- list_elem_of_In. split; [done|].
    by apply bool_decide_eq_true.
Qed.

Lemma startable_iff sl a :
  startable sl a = true ↔ ∀ d, d ∈ Dependces a → placed sl d.
Proof.
  unfold startable. rewrite forallb_forall. setoid_rewrite contains_iff.
  by setoid_rewrite list_elem_of_In.
Qed.

(** Every key names its component. *)
Definition source_ok (source : gmap string AppService) : Prop :=
  map_Forall (λ k a, ServiceID a = k) source.

Lemma source_ok_delete k source : source_ok source → source_ok (delete k source).
Proof. apply map_Forall_delete. Qed.

Lemma source_of_ok apps : source_ok (source_of apps).
Proof.
  unfold source_of. assert (source_ok ∅) as H by apply map_Forall_empty. revert H.
  generalize (∅ : gmap string AppService). induction apps as [|a apps IH]; intros m Hm; [done|].
  simpl. apply IH. by apply map_Forall_insert_2.
Qed.

(** Taking a family of distinct components out of the map. *)
Lemma take_keys_components (l : list AppService) (source : gmap string AppService) :
  NoDup (ServiceID <$> l) → (∀ a, a ∈ l → source !! ServiceID a = Some a) →
  take_keys (ServiceID <$> l) source =
  (Some l, foldr (λ a m, delete (ServiceID a) m) source l).
Proof.
  revert source. induction l as [|a l IH]; intros source Hnd Hin; [done|].
  rewrite fmap_cons in Hnd |- *. apply NoDup_cons in Hnd as [Ha Hnd]. cbn [take_keys].
  rewrite IH; [|done|].
  - rewrite (Hin a (list_elem_of_here _ _)). f_equal. cbn [foldr].
    clear. induction l as [|b l IH]; [done|]. simpl. by rewrite IH, delete_delete.
  - intros b Hb. rewrite lookup_delete_ne; [apply Hin; set_solver|].
    intros E. apply Ha. rewrite E. by apply list_elem_of_fmap_2.
Qed.

Lemma lookup_foldr_delete (l : list AppService) (m : gmap string AppService) k a :
  foldr (λ a m, delete (ServiceID a) m) m l !! k = Some a ↔ k ∉ ServiceID <$> l ∧ m !! k = Some a.
Proof.
  induction l as [|b l IH]; [set_solver|]. simpl. rewrite lookup_delete_Some, IH. set_solver.
Qed.

Section sequence_lemmas.
Context `{GoRuntimeLaws}.

Lemma range_values (m : gmap string AppService) a :
  source_ok m → a ∈ (range_order m).*2 ↔ m !! ServiceID a = Some a.
Proof.
  intros Hok. rewrite range_order_perm, list_elem_of_fmap. split.
  - intros ([k b] & -> & Hk%elem_of_map_to_list). simpl. by rewrite (Hok k b Hk).
  - intros Ha. exists (ServiceID a, a). split; [done|]. by apply elem_of_map_to_list.
Qed.

Lemma range_values_nodup (m : gmap string AppService) :
  source_ok m → NoDup (ServiceID <$> (range_order m).*2).
Proof.
  intros Hok. rewrite range_order_perm.
  assert (ServiceID <$> (map_to_list m).*2 = (map_to_list m).*1) as ->; [|apply NoDup_fst_map_to_list].
  rewrite <- list_fmap_compose. apply list_fmap_ext. intros i [k a] Hi%list_elem_of_lookup_2.
  apply elem_of_map_to_list in Hi. by apply Hok.
Qed.

(** What one pass does: exactly the startable components move from the map
    to a new last layer. *)
Lemma found_pass_spec source sl : source_ok source →
  ∃ l rest, found_pass source sl = Some (rest, Add l sl) ∧ source_ok rest ∧
    NoDup (ServiceID <$> l) ∧
    (∀ a, a ∈ l ↔ source !! ServiceID a = Some a ∧ startable sl a = true) ∧
    (∀ k a, rest !! k = Some a ↔ source !! k = Some a ∧ startable sl a = false).
Proof.
  intros Hok. unfold found_pass.
  set (l := filter (λ a, startable sl a = true) (range_order source).*2).
  assert (∀ a, a ∈ l ↔ source !! ServiceID a = Some a ∧ startable sl a = true) as Hl.
  { intros a. unfold l. rewrite list_elem_of_filter, range_values by done. tauto. }
  assert (NoDup (ServiceID <$> l)) as Hnd.
  { eapply sublist_NoDup; [apply (range_values_nodup source Hok)|].
    apply fmap_sublist. unfold l. apply sublist_filter. }
  rewrite take_keys_components; [|done|intros a Ha; by apply Hl].
  exists l, (foldr (λ a m, delete (ServiceID a) m) source l). split; [done|].
  assert (∀ k a, foldr (λ a m, delete (ServiceID a) m) source l !! k = Some a ↔
    source !! k = Some a ∧ startable sl a = false) as Hrest.
  { intros k a. rewrite lookup_foldr_delete. split.
    - intros [Hk Ha]. split; [done|]. apply not_true_iff_false. intros Hs. apply Hk.
      apply list_elem_of_fmap. exists a. pose proof (Hok k a Ha) as E. simpl in E.
      split; [done|]. apply Hl. by rewrite E.
    - intros [Ha Hs]. split; [|done]. intros (b & -> & [Hb1 Hb2]%Hl)%list_elem_of_fmap. congruence. }
  split_and!; [|done..]. intros k a [Ha _]%Hrest. by apply Hok.
Qed.

Definition values (m : gmap string AppService) : list AppService := (map_to_list m).*2.

Lemma elem_of_values m a : source_ok m → a ∈ values m ↔ m !! ServiceID a = Some a.
Proof. intros Hok. rewrite <- (range_values m a Hok). unfold values. by rewrite range_order_perm. Qed.

Lemma NoDup_values m : source_ok m → NoDup (values m).
Proof.
  intros Hok. apply (NoDup_fmap_1 ServiceID). pose proof (range_values_nodup m Hok) as Hn.
  unfold values. by rewrite range_order_perm in Hn.
Qed.

(** Dependencies come in earlier layers. *)
Definition layered (sl : sequencelist) : Prop :=
  ∀ i l a d, sl !! i = Some l → a ∈ l → d ∈ Dependces a → placed (take i sl) d.

Lemma layered_add l sl :
  layered sl → (∀ a, a ∈ l → startable sl a = true) → layered (Add l sl).
Proof.
  intros Hsl Hl i l' a d Hi Ha Hd. unfold Add in *. apply lookup_snoc_Some in Hi as [[Hlt Hi]|[-> ->]].
  - rewrite take_app_le by lia. by eapply Hsl.
  - rewrite take_app_length. by apply (proj1 (startable_iff sl a) (Hl a Ha)).
Qed.

Lemma placed_add l sl d : placed (Add l sl) d ↔ placed sl d ∨ ∃ a, a ∈ l ∧ ServiceID a = d.
Proof.
  unfold placed, Add. setoid_rewrite elem_of_app. setoid_rewrite list_elem_of_singleton.
  split; [intros (l' & a & [?| ->] & ? & ?); eauto 6|].
  intros [(l' & a & ? & ? & ?)|(a & ? & ?)]; eauto 7.
Qed.

(** Every dependency of a waiting component is waiting or placed, and the
    waiting ones are ranked. *)
Definition ranked (rank : string → nat) (source : gmap string AppService) (sl : sequencelist) : Prop :=
  ∀ k a d, source !! k = Some a → d ∈ Dependces a →
    placed sl d ∨ is_Some (source !! d) ∧ rank d < rank k.

Lemma ranked_progress rank source sl :
  ranked rank source sl → source ≠ ∅ → ∃ k a, source !! k = Some a ∧ startable sl a = true.
Proof.
  intros Hr (k & a & Hk)%map_choose.
  assert (∀ n k a, rank k < n → source !! k = Some a →
    ∃ k a, source !! k = Some a ∧ startable sl a = true) as Hmin; [|apply (Hmin (S (rank k)) k a); [lia|done]].
  clear k a Hk. induction n as [|n IH]; intros k a Hn Hk; [lia|].
  destruct (startable sl a) eqn:Es; [by eauto|].
  assert (Exists (λ d, Contains sl d = false) (Dependces a)) as (d & Hd & Hc)%Exists_exists.
  { apply not_true_iff_false in Es. unfold startable in Es.
    destruct (decide (Forall (λ d, Contains sl d = true) (Dependces a))) as [Hall|Hn'].
    - exfalso. apply Es, forallb_forall. rewrite Forall_forall in Hall. intros x Hx.
      by apply Hall, list_elem_of_In.
    - apply not_Forall_Exists in Hn'; [|apply _]. eapply Exists_impl; [exact Hn'|].
      intros x Hx. by apply not_true_iff_false. }
  destruct (Hr k a d Hk Hd) as [Hp|[[b Hb] Hlt]].
  - apply contains_iff in Hp. congruence.
  - apply (IH d b); [lia|done].
Qed.

Lemma foundsequence_ranked rank fuel source sl :
  source_ok source → ranked rank source sl → layered sl → size source ≤ fuel →
  ∃ res, foundsequence fuel source sl = Some res ∧ layered res ∧
    concat res ≡ₚ concat sl ++ values source.
Proof.
  revert source sl. induction fuel as [|fuel IH]; intros source sl Hok Hr Hsl Hsize; simpl.
  { assert (source = ∅) as -> by (apply map_size_empty_iff; lia). rewrite decide_True by done.
    exists sl. split_and!; [done..|]. unfold values. by rewrite map_to_list_empty, app_nil_r. }
  destruct (decide (source = ∅)) as [->|Hne].
  { exists sl. split_and!; [done..|]. unfold values. by rewrite map_to_list_empty, app_nil_r. }
  destruct (found_pass_spec source sl Hok) as (l & rest & -> & Hok' & Hnd & Hl & Hrest).
  assert (∀ k a, source !! k = Some a → ServiceID a = k) as Hid by (intros; by apply Hok).
  destruct (IH rest (Add l sl)) as (res & E & Hres & Hp); [done| | | |].
  - intros k a d [Hk _]%Hrest Hd. destruct (Hr k a d Hk Hd) as [?|[[b Hb] Hlt]].
    { left. apply placed_add. by left. }
    destruct (startable sl b) eqn:Eb.
    + left. apply placed_add. right. exists b. rewrite (Hid d b Hb). split; [|done].
      apply Hl. by rewrite (Hid d b Hb).
    + right. split; [|done]. exists b. by apply Hrest.
  - apply layered_add; [done|]. by intros a [_ ?]%Hl.
  - destruct (ranked_progress _ _ _ Hr Hne) as (k & a & Hk & Hs).
    assert (rest ⊂ source) as Hsub; [|apply map_subset_size in Hsub; lia].
    apply map_subset_alt. split; [apply map_subseteq_spec; by intros k' b [? _]%Hrest|].
    exists k. split; [|by exists a]. apply eq_None_not_Some. intros [b [Hb Hn]%Hrest]. congruence.
  - exists res. split_and!; [done..|]. rewrite Hp. unfold Add.
    rewrite concat_app. simpl. rewrite app_nil_r, <- app_assoc. f_equiv.
    symmetry. apply NoDup_Permutation; [by apply NoDup_values| |].
    + apply NoDup_app. split_and!; [by apply (NoDup_fmap_1 ServiceID)| |by apply NoDup_values].
      intros a [_ Hs]%Hl [_ Hn]%(elem_of_values rest a Hok')%Hrest. congruence.
    + intros a. rewrite elem_of_app, !elem_of_values, Hl, Hrest by done.
      destruct (startable sl a); naive_solver.
Qed.

(** C9 (termination): when every dependency of a component is in the given
    set and the dependencies have no cycle, the recursion ends within one
    pass per component; every component is in exactly one layer, and a
    component's dependencies are in earlier layers. *)
Theorem sequence_topological (rank : string → nat) (source : gmap string AppService)
    (Hok : source_ok source)
    (Hdeps : ∀ k a d, source !! k = Some a → d ∈ Dependces a →
       is_Some (source !! d) ∧ rank d < rank k) :
  ∃ sl, foundsequence (size source) source [] = Some sl ∧ concat sl ≡ₚ values source ∧
    ∀ i l a d, sl !! i = Some l → a ∈ l → d ∈ Dependces a → placed (take i sl) d.
Proof.
  destruct (foundsequence_ranked rank (size source) source []) as (sl & E & Hl & Hp);
    [done|intros k a d Hk Hd; right; eauto|by intros [|i] l a d Hi|done|].
  exists sl. by split_and!.
Qed.

(** A component that depends, through others, on itself or
    on a component that is not being started keeps the recursion going: no
    depth is enough. *)
Theorem sequence_diverges (X : string → Prop) (source : gmap string AppService)
    (Hok : source_ok source) (Hne : ∃ k, X k ∧ is_Some (source !! k))
    (Hblocked : ∀ k a, X k → source !! k = Some a →
       ∃ d, d ∈ Dependces a ∧ (X d ∨ source !! d = None)) :
  ∀ fuel, foundsequence fuel source [] = None.
Proof.
  intros fuel.
  assert (∀ sl, (∀ k a, X k → source !! k = Some a → ∃ d, d ∈ Dependces a ∧ ¬ placed sl d ∧
    (X d ∨ source !! d = None)) → foundsequence fuel source sl = None) as Hgen.
  2: { apply Hgen. intros k a Hx Hk. destruct (Hblocked k a Hx Hk) as (d & ? & ?). exists d.
       split_and!; [done| |done]. by intros (l & b & ?%not_elem_of_nil & _). }
  clear Hblocked. revert source Hok Hne. induction fuel as [|fuel IH];
    intros source Hok (k0 & Hx0 & [a0 Ha0]) sl Hb; simpl;
    (rewrite decide_False by (intros ->; by rewrite lookup_empty in Ha0)); [done|].
  destruct (found_pass_spec source sl Hok) as (l & rest & -> & Hok' & _ & Hl & Hrest).
  assert (∀ k a, X k → source !! k = Some a → rest !! k = Some a) as Hkeep.
  { intros k a Hx Hk. apply Hrest. split; [done|]. destruct (Hb k a Hx Hk) as (d & Hd & Hp & _).
    apply not_true_iff_false. rewrite startable_iff. intros Hs. by apply Hp, Hs. }
  apply IH; [done|exists k0; split; [done|]; exists a0; by apply Hkeep|].
  intros k a Hx [Hk _]%Hrest. destruct (Hb k a Hx Hk) as (d & Hd & Hp & Hor). exists d.
  split; [done|]. rewrite placed_add. split.
  - intros [?|(b & [Hb1 Hb2]%Hl & <-)]; [done|]. destruct Hor as [Hxd|Hn]; [|congruence].
    specialize (Hkeep _ b Hxd Hb1). apply Hrest in Hkeep as [_ ?]. congruence.
  - destruct Hor as [?|Hn]; [by left|right]. apply eq_None_not_Some.
    intros [b [Hb1 _]%Hrest]. congruence.
Qed.
End sequence_lemmas.

(** ** The registry of running controllers *)

Inductive TypeController :=
  | TypeStartController | TypeStopController | TypeRestartController | TypeUpgradeController
  | TypeScalingController | TypeApplyRuleController | TypeApplyConfigController
  | TypeControllerRefreshHPA | UnknownController (name : string).

Record Controller := mkController { ct_type : TypeController; ct_apps : list AppService }.

(** [controllers] of the [Manager]; every access is under its lock. *)
Definition Manager := gmap string Controller.

Definition GetControllerSize (m : Manager) : nat := size m.

(** [controllerID] is the fresh UUID.  The new controller is registered and
    its [Begin] started in a goroutine. *)
Definition StartController (controllerID : string) (controllerType : TypeController)
    (apps : list AppService) (m : Manager) : Manager * result Controller :=
  let start c := (<[controllerID := c]> m, Ok c) in
  match controllerType with
  | UnknownController _ => (m, Err (EMsg "No support controller"))
  | TypeApplyConfigController =>
    match apps with
    | a :: _ => start (mkController controllerType [a])
    | [] => (m, Panic)
    end
  | _ => start (mkController controllerType apps)
  end.

Definition callback (controllerID : string) (m : Manager) : Manager := delete controllerID m.

(** ** The loop of [startController.Begin]

    [for _, a := range s.appService { list = append(list, &a) }]: before Go
    1.22 the loop has one variable [a], so [list] holds the same pointer
    several times; it is dereferenced after the loop.  The fold keeps the
    variable and the number of pointers taken. *)
Definition start_loop (apps : list AppService) : option AppService * nat :=
  foldl (λ st a, (Some a, S st.2)) (None, 0) apps.

(** The components the goroutines are started with. *)
Definition start_targets (apps : list AppService) : list AppService :=
  let '(a, pointers) := start_loop apps in
  match a with Some a => replicate pointers a | None => [] end.

Lemma start_loop_snoc l a : start_loop (l ++ [a]) = (Some a, S (start_loop l).2).
Proof. unfold start_loop. by rewrite foldl_app. Qed.

Lemma start_loop_length l : (start_loop l).2 = length l.
Proof.
  induction l as [|a l IH] using rev_ind; [done|].
  rewrite start_loop_snoc, length_app. simpl. rewrite IH. lia.
Qed.

(** Starting several components at once starts the last one
    that many times and none of the others. *)
Theorem start_begins_last_only (l : list AppService) (a : AppService) :
  start_targets (l ++ [a]) = replicate (S (length l)) a.
Proof. unfold start_targets. by rewrite start_loop_snoc, start_loop_length. Qed.

(** ** The WaitGroup protocol of [Begin] *)

(** A goroutine is spawned, counted and running, or done. *)
Inductive goroutine := GSpawned | GRunning | GDone.

(** The goroutine of [Begin] itself: in its loop, in [Wait], or past it (it
    has called [callback]). *)
Inductive main_pc := Looping (left : nat) | Waiting | Returned.

Record group := mkGroup { g_threads : list goroutine; g_count : nat; g_main : main_pc }.

(** [early]: [wait.Add(1)] comes before the [go] statement (restart) instead
    of inside the goroutine (start, stop, scaling, upgrade and the others). *)
Inductive group_step (early : bool) : group → group → Prop :=
  | step_spawn ts c n :
      group_step early (mkGroup ts c (Looping (S n)))
        (mkGroup (ts ++ [GSpawned]) (if early then S c else c) (Looping n))
  | step_wait ts c :
      group_step early (mkGroup ts c (Looping 0)) (mkGroup ts c Waiting)
  | step_return ts :
      group_step early (mkGroup ts 0 Waiting) (mkGroup ts 0 Returned)
  | step_begin ts c m i :
      ts !! i = Some GSpawned →
      group_step early (mkGroup ts c m)
        (mkGroup (<[i := GRunning]> ts) (if early then c else S c) m)
  | step_done ts c m i :
      ts !! i = Some GRunning →
      group_step early (mkGroup ts (S c) m) (mkGroup (<[i := GDone]> ts) c m).

Definition begin_state (n : nat) : group := mkGroup [] 0 (Looping n).

Definition unfinished (g : goroutine) : nat := match g with GDone => 0 | _ => 1 end.

Lemma unfinished_insert ts i g g' :
  ts !! i = Some g →
  sum_list_with unfinished (<[i := g']> ts) + unfinished g =
  sum_list_with unfinished ts + unfinished g'.
Proof.
  revert i. induction ts as [|x ts IH]; intros [|i] Hi; simplify_eq/=; [lia|].
  specialize (IH i Hi). lia.
Qed.

(** Counting before spawning: the counter is the number of unfinished
    goroutines, and the loop's bound is kept. *)
Definition counted (n : nat) (s : group) : Prop :=
  g_count s = sum_list_with unfinished (g_threads s) ∧
  match g_main s with
  | Looping k => length (g_threads s) + k = n
  | Waiting => length (g_threads s) = n
  | Returned => length (g_threads s) = n ∧ sum_list_with unfinished (g_threads s) = 0
  end.

Lemma counted_step n s s' : counted n s → group_step true s s' → counted n s'.
Proof.
  intros [Hc Hm] Hs. destruct Hs as [ts c k|ts c|ts|ts c m i Hi|ts c m i Hi];
    unfold counted in *; simpl in *.
  - rewrite sum_list_with_app, length_app. simpl. lia.
  - lia.
  - auto with lia.
  - pose proof (unfinished_insert ts i GSpawned GRunning Hi). simpl in *.
    rewrite length_insert. split; [lia|]. destruct m; intuition lia.
  - pose proof (unfinished_insert ts i GRunning GDone Hi). simpl in *.
    rewrite length_insert. split; [lia|]. destruct m; intuition lia.
Qed.

(** [restartController.Begin] counts each goroutine before it
    spawns it, so its controller is dropped only after all of them are done. *)
Theorem restart_waits_for_all (n : nat) (s : group)
    (Hreach : rtc (group_step true) (begin_state n) s) (Hmain : g_main s = Returned) :
  g_threads s = replicate n GDone.
Proof.
  assert (counted n s) as [_ Hc].
  { assert (counted n (begin_state n)) as H0 by by split. revert H0. clear Hmain.
    induction Hreach as [|s1 s2 s3 Hs _ IH]; [done|]. intros H1. by eapply IH, counted_step. }
  rewrite Hmain in Hc. destruct Hc as [<- Hz]. clear -Hz.
  induction (g_threads s) as [|g ts IH]; [done|]. simpl in *.
  destruct g; simpl in Hz; try lia. f_equal. by apply IH.
Qed.

Lemma spawn_all early ts c n :
  rtc (group_step early) (mkGroup ts c (Looping n))
    (mkGroup (ts ++ replicate n GSpawned) (if early then n + c else c) (Looping 0)).
Proof.
  revert ts c. induction n as [|n IH]; intros ts c; simpl.
  { rewrite app_nil_r. by destruct early. }
  eapply rtc_l; [apply step_spawn|]. specialize (IH (ts ++ [GSpawned]) (if early then S c else c)).
  rewrite <- app_assoc in IH. destruct early; [|done]. by rewrite Nat.add_succ_r in IH.
Qed.

(** Every other [Begin] counts inside the goroutine, so it can
    return, and its controller be dropped, before any component was touched. *)
Theorem begin_may_return_early (n : nat) :
  ∃ s, rtc (group_step false) (begin_state n) s ∧ g_main s = Returned ∧
    g_threads s = replicate n GSpawned.
Proof.
  exists (mkGroup (replicate n GSpawned) 0 Returned). split; [|done].
  etrans; [apply (spawn_all false [] 0 n)|]. simpl.
  eapply rtc_l; [apply step_wait|]. eapply rtc_l; [apply step_return|]. done.
Qed.

(** ** Witnesses *)

#[local] Existing Instance ref_runtime.
#[local] Existing Instance ref_runtime_laws.

Definition demo_component (id : string) (deps : list string) : AppService :=
  empty_app (demo_base <| b_ServiceID := id |> <| b_Dependces := deps |>).

Definition demo_source : gmap string AppService :=
  source_of [demo_component "web" ["db"; "cache"]; demo_component "cache" ["db"];
             demo_component "db" []].

Definition demo_rank (id : string) : nat :=
  if decide (id = "web"%string) then 2 else if decide (id = "cache"%string) then 1 else 0.

Definition deps_ranked (source : gmap string AppService) (rank : string → nat) : Prop :=
  map_Forall (λ k a, Forall (λ d, is_Some (source !! d) ∧ rank d < rank k) (Dependces a)) source.

Lemma sequence_topological_witness :
  ∃ sl, foundsequence 3 demo_source [] = Some sl ∧
    map (map ServiceID) sl = [["db"]; ["cache"]; ["web"]]%string ∧
    concat sl ≡ₚ values demo_source.
Proof.
  assert (deps_ranked demo_source demo_rank) as Hd
    by (apply (bool_decide_unpack _); vm_compute; exact I).
  destruct (sequence_topological demo_rank demo_source (source_of_ok _)) as (sl & E & Hp & _).
  { intros k a d Hk Hd'. specialize (Hd k a Hk). rewrite Forall_forall in Hd. by apply Hd. }
  exists sl. split; [exact E|]. split; [|exact Hp].
  vm_compute in E. injection E as <-. reflexivity.
Defined.

Definition demo_cycle : gmap string AppService :=
  source_of [demo_component "a" ["b"]; demo_component "b" ["a"]; demo_component "c" []].

Definition blocked_by (X : list string) (source : gmap string AppService) : Prop :=
  map_Forall (λ k a, k ∈ X → Exists (λ d, d ∈ X ∨ source !! d = None) (Dependces a)) source.

Lemma sequence_diverges_witness : foundsequence 1000 demo_cycle [] = None.
Proof.
  apply (sequence_diverges (λ k, k ∈ ["a"; "b"]%string) demo_cycle (source_of_ok _)).
  - exists "a"%string. split; [constructor|]. by eexists.
  - assert (blocked_by ["a"; "b"] demo_cycle) as Hb.
    { intros k a Hk Hx. apply elem_of_cons in Hx as [->|Hx].
      - vm_compute in Hk. injection Hk as <-. apply Exists_exists. exists "b"%string.
        split; [constructor|]. left. right. constructor.
      - apply list_elem_of_singleton in Hx as ->. vm_compute in Hk. injection Hk as <-.
        apply Exists_exists. exists "a"%string. split; [constructor|]. left. constructor. }
    intros k a Hx Hk. specialize (Hb k a Hk Hx). apply Exists_exists in Hb as (d & Hd & Hor). eauto.
Defined.

Lemma restart_waits_for_all_witness :
  ∃ s, rtc (group_step true) (begin_state 1) s ∧ g_threads s = replicate 1 GDone.
Proof.
  assert (rtc (group_step true) (begin_state 1) (mkGroup [GDone] 0 Returned)) as Hr.
  { eapply rtc_l; [apply step_spawn|]. eapply rtc_l; [apply (step_begin _ _ _ _ 0); reflexivity|].
    eapply rtc_l; [apply (step_done _ _ _ _ 0); reflexivity|].
    eapply rtc_l; [apply step_wait|]. eapply rtc_l; [apply step_return|]. apply rtc_refl. }
  eexists. split; [exact Hr|]. exact (restart_waits_for_all 1 _ Hr eq_refl).
Defined.
