(* ===== verification/Controller.v ===== *)
(** * The runtime controllers: start, stop, scale, upgrade, restart

    [worker/appm/controller]: what each controller does for one component
    ([startOne], [stopOne] and so on) and the wait loops of [status.go].  The
    state is the store, with the cluster inside it; log lines are left out.
    The goroutines around these functions are the subject of [Sequence]. *)
From S2P Require Import Prelude Kube AppService AppStatus Ensure Store.

(** ** Waiting *)

(** How the [select] of a wait loop goes, round by round: cancelled, timed
    out, or woken by the ticker after the informers changed the store by
    [env].  The timer makes every such run finite. *)
Inductive select_run (W : Type) :=
  | SelCancel
  | SelTimer
  | SelTick (env : W → W) (rest : select_run W).
Arguments SelCancel {W}.
Arguments SelTimer {W}.
Arguments SelTick {W} _ _.

(** A [*v1.AppService] held by a controller: the key it is stored under and
    the contents it had when it was last looked at.  The store shares it, so
    it reads as the stored component as long as the key is there. *)
Record app_ptr := mkPtr { ap_key : string; ap_seen : AppService }.

Definition deref {C} (p : app_ptr) (s : Store C) : AppService :=
  default (ap_seen p) (st_apps s !! ap_key p).

Definition lookup_ptr {C} (serviceID : string) (s : Store C) : option app_ptr :=
  mkPtr serviceID <$> GetAppService serviceID s.

(** Durations are nanoseconds in an int64. *)
Definition Second : Z := 1000000000.

(** [CreateKubeService] and the tests on returned errors. *)
Section one.
Context {C : Type} (kc : KubeClient C) `{GoRuntime, ComponentKinds}.
Context (InitCacheAppService : string → string → init_error + AppService).
Context (delete_volume_type : string → bool).
Context (lister : ∀ k : kind, string → string → reply k).

Abbreviation SM := (M (Store C)).
Abbreviation COp := (M C).

Definition create_err k ns (o : obj k) : COp (option api_error) :=
  r ← create kc k ns o; mret r.2.

(** [if err != nil && !ok(err) { return fmt.Errorf(msg, err) }] *)
Definition must (ok : api_error → bool) (msg : string) (call : COp (option api_error)) : COp unit :=
  err ← call;
  match err with
  | None => mret ()
  | Some e => if ok e then mret () else fail (EWrap msg (EApi e))
  end.

Definition never (e : api_error) : bool := false.

(** The first attempt; the services to try again are collected. *)
Definition service_attempt (ns : string) (retry : list Service) (svc : Service) :
    COp (list Service) :=
  err ← create_err KService ns svc;
  match err with
  | None => mret retry
  | Some e =>
    if negb (IsAlreadyExists e) && negb (IsInvalid e) then mret (retry ++ [svc])
    else
      r ← update kc KService ns svc;
      mret match r.2 with Some _ => retry ++ [svc] | None => retry end
  end.

Definition service_retry (ns : string) (svc : Service) : COp unit :=
  err ← create_err KService ns svc;
  match err with
  | None => mret ()
  | Some e => if IsAlreadyExists e then mret () else fail (EApi e)
  end.

Definition CreateKubeService (ns : string) (services : list Service) : COp unit :=
  retryService ← foldM (service_attempt ns) [] services;
  forM retryService (service_retry ns).

(** [status.go]: in the fourth round and later the component is refreshed and
    the pointer replaced by the one the store returns. *)
Definition reload (p : option app_ptr) : SM (option app_ptr) :=
  match p with
  | None => panic
  | Some p =>
    id ← gets (λ s, ServiceID (deref p s));
    r ← UpdateGetAppService lister id;
    mret (mkPtr id <$> r)
  end.

(** The three loops differ in the test and in the rounds that refresh. *)
Fixpoint wait_loop (refresh : nat → bool) (done : AppService → bool) (i : nat)
    (p : option app_ptr) (run : select_run (Store C)) : SM unit :=
  p ← (if refresh i then reload p else mret p);
  match p with
  | None => panic
  | Some p =>
    a ← gets (deref p);
    if done a then mret () else
    match run with
    | SelCancel => fail EWaitCancel
    | SelTimer => fail EWaitTimeOut
    | SelTick env rest =>
      _ ← modify env; wait_loop refresh done (S i) (Some (mkPtr (ap_key p) a)) rest
    end
  end.

(** A nil component panics in the first round. *)
Definition WaitReady (p : option app_ptr) (run : select_run (Store C)) : SM unit :=
  wait_loop (λ i, Nat.ltb 2 i) Ready 0 p run.

(** [i] is incremented before the test. *)
Definition WaitStop (p : option app_ptr) (run : select_run (Store C)) : SM unit :=
  match p with
  | None => mret ()
  | Some _ => wait_loop (λ i, Nat.ltb 2 (S i)) IsClosed 0 p run
  end.

(** This loop never refreshes the component. *)
Definition WaitUpgradeReady (p : option app_ptr) (run : select_run (Store C)) : SM unit :=
  match p with
  | None => mret ()
  | Some _ => wait_loop (λ _, false) UpgradeComlete 0 p run
  end.

(** ** Timeouts *)

(** The first container with a probe decides. *)
Fixpoint probe_delay (l : list Container) : Z :=
  match l with
  | [] => 0
  | c :: l' =>
    match c_readiness_delay c, c_liveness_delay c with
    | Some d, _ => d
    | None, Some d => d
    | None, None => probe_delay l'
    end
  end.

Definition template_delay (app : AppService) : Z :=
  match GetPodTemplate app with Some t => probe_delay (pt_Containers t) | None => 0 end.

(** [time.Duration(initTime * int32(app.Replicas))]: no unit. *)
Definition start_timeout (app : AppService) : Z :=
  let initTime := int32 (template_delay app + 40) in
  let timeout := int32 (initTime * int32 (Replicas app)) in
  if decide (timeout < 40 * Second)%Z then (40 * Second)%Z else timeout.

(** [Containers[0]] panics on an empty template. *)
Definition scaling_timeout (app stored : AppService) : result Z :=
  let finish d :=
    let initTime := int32 (d + 40) in
    let waiting := Z.abs (Replicas stored - GetReadyReplicas stored) in
    let timeout := int32 (initTime * int32 waiting) in
    Ok (if decide (timeout < 40 * Second)%Z then (40 * Second)%Z else timeout) in
  match GetPodTemplate app with
  | None => finish 0%Z
  | Some t =>
    match pt_Containers t with
    | [] => Panic
    | c :: _ => finish (default 0%Z (c_readiness_delay c))
    end
  end.

(** [waiting] overrides the computed time. *)
Definition stop_timeout (stored : option AppService) (waiting : Z) : Z :=
  let timeout := (40 * Second)%Z in
  let timeout :=
    match stored with
    | Some a => if decide (0 < Replicas a)%Z then int64 (Replicas a * timeout) else timeout
    | None => timeout
    end in
  if decide (waiting ≠ 0)%Z then waiting else timeout.

Definition upgrade_timeout (app : AppService) (stored : option AppService) : Z :=
  let timeout := int64 (Second * int32 (40 + template_delay app)) in
  match stored with
  | Some a => if decide (0 ≤ Replicas a)%Z then int64 (timeout * int64 (Replicas a * 2)) else timeout
  | None => timeout
  end.

(** ** Start *)

Definition start_namespace (app : AppService) : COp unit :=
  r ← get kc KNamespace "" (TenantID app);
  match r.2 with
  | None => mret ()
  | Some e =>
    if IsNotFound e then
      must never "create or check namespace failure" (
        r ← create_opt kc KNamespace "" (GetTenant app); mret r.2)
    else fail (EWrap "create or check namespace failure" (EApi e))
  end.

Definition unsaved_meta (m : ObjectMeta) : bool := bool_decide (m_ResourceVersion m = ""%string).

(** Create an object that may be there already. *)
Definition create_once k ns (msg : string) (o : obj k) : COp unit :=
  must IsAlreadyExists msg (create_err k ns o).

Definition start_monitors (app : AppService) : COp unit :=
  crd ← gets (kc_has_monitor_crd kc);
  has ← gets (kc_has_monitor_client kc);
  when (crd && negb (bool_decide (GetServiceMonitors app = [])) && has)
    (forM (GetServiceMonitors app) (λ sm,
       when (unsaved_meta (pl_meta sm))
         (_ ← create_err KServiceMonitor (m_Namespace (pl_meta sm)) sm; mret ()))).

Definition opt_do {A} (o : option A) (f : A → COp unit) : COp unit :=
  match o with Some x => f x | None => mret () end.

(** Steps 1 to 7 of [startOne]. *)
Definition start_resources (app : AppService) : COp unit :=
  let ns := TenantID app in
  _ ← start_namespace app;
  _ ← forM (GetConfigMaps app) (create_once KConfigMap ns "create config map failure");
  _ ← forM (GetClaimsManually app) (create_once KClaim ns "create claims");
  _ ← opt_do (GetStatefulSet app) (λ w,
        must never "create statefulset failure" (create_err KStatefulSet ns w));
  _ ← opt_do (GetDeployment app) (λ w,
        must never "create deployment failure" (create_err KDeployment ns w));
  _ ← wrap_err "Create service failure" (CreateKubeService ns (GetServices app));
  _ ← forM (GetSecrets app ++ GetEnvVarSecrets app) (λ x,
        when (unsaved_meta (pl_meta x)) (create_once KSecret ns "create secret failure" x));
  _ ← forM (GetIngress app) (λ x,
        when (unsaved_meta (ing_meta x)) (create_once KIngress ns "create ingress failure" x));
  _ ← forM (GetHPAs app) (λ x,
        when (unsaved_meta (pl_meta x))
          (create_once KHPA (m_Namespace (pl_meta x)) "create hpa" x));
  start_monitors app.

Definition start_waiting (app : AppService) (run : select_run (Store C)) : SM unit :=
  p ← gets (lookup_ptr (ServiceID app)); WaitReady p run.

Definition startOne (app : AppService) (run : select_run (Store C)) : SM unit :=
  _ ← on_cluster (start_resources app); start_waiting app run.

(** ** Stop *)

(** Delete an object that may be gone already. *)
Definition remove_once k ns n (msg : string) : COp unit :=
  must IsNotFound msg (delete_ kc k ns n).

Definition remove_named k ns (msg : string) (o : obj k) : COp unit :=
  when (nonempty_string (obj_name o)) (remove_once k ns (obj_name o) msg).

(** Steps 1 to 4. *)
Definition stop_network (app : AppService) : COp unit :=
  let ns := TenantID app in
  _ ← forM (GetServices app) (remove_named KService ns "delete service failure");
  _ ← forM (GetSecrets app) (remove_named KSecret ns "delete secret failure");
  _ ← forM (GetIngress app) (remove_named KIngress ns "delete ingress failure");
  forM (GetConfigMaps app) (remove_named KConfigMap ns "delete config map failure").

Definition stop_monitors (app : AppService) : COp unit :=
  crd ← gets (kc_has_monitor_crd kc);
  has ← gets (kc_has_monitor_client kc);
  when (crd && negb (bool_decide (GetServiceMonitors app = [])) && has)
    (forM (GetServiceMonitors app) (λ sm,
       _ ← delete_ kc KServiceMonitor (m_Namespace (pl_meta sm)) (pl_name sm); mret ())).

(** Steps 6 to 8. *)
Definition stop_pods (app : AppService) : COp unit :=
  _ ← forM (GetPods app) (remove_named KPod (TenantID app) "delete pod failure");
  _ ← forM (GetHPAs app) (λ x,
        remove_once KHPA (m_Namespace (pl_meta x)) (pl_name x) "delete hpa");
  stop_monitors app.

Definition forget (o : informer_object) : SM unit :=
  OnDeletes InitCacheAppService delete_volume_type [o].

(** Step 5: the store is told at once that the workload is gone. *)
Definition stop_workloads (app : AppService) : SM unit :=
  _ ← match GetStatefulSet app with
      | Some w =>
        _ ← on_cluster (remove_once KStatefulSet (TenantID app) (wl_name w)
              "delete statefulset failure");
        forget (IStatefulSet w)
      | None => mret ()
      end;
  match GetDeployment app with
  | Some w =>
    when (nonempty_string (wl_name w)) (
      _ ← on_cluster (remove_once KDeployment (TenantID app) (wl_name w)
            "delete deployment failure");
      forget (IDeployment w))
  | None => mret ()
  end.

Definition stop_resources (app : AppService) : SM unit :=
  _ ← on_cluster (stop_network app);
  _ ← stop_workloads app;
  on_cluster (stop_pods app).

Definition stop_waiting (app : AppService) (run : select_run (Store C)) : SM unit :=
  p ← gets (lookup_ptr (ServiceID app)); WaitStop p run.

Definition stopOne (app : AppService) (run : select_run (Store C)) : SM unit :=
  _ ← stop_resources app; stop_waiting app run.

(** The goroutine of [startController.Begin]: an error other than the timeout
    removes what was created. *)
Definition start_service (app : AppService) (run stop_run : select_run (Store C)) : SM unit :=
  r ← catch (startOne app run);
  match r with
  | inr _ => mret ()
  | inl err =>
    if decide (err = EWaitTimeOut) then mret ()
    else _ ← catch (stopOne app stop_run); mret ()
  end.

(** ** Scale *)

Definition patch k ns n (body : string) : COp (option api_error) :=
  api_err (kc_patch kc k ns n body).

(** [body] is [Replicas(int(service.Replicas))]. *)
Definition scale_workloads (body : string) (service : AppService) : COp unit :=
  _ ← opt_do (GetStatefulSet service) (λ w,
        err ← patch KStatefulSet (m_Namespace (wl_meta w)) (wl_name w) body;
        match err with Some e => fail (EApi e) | None => mret () end);
  opt_do (GetDeployment service) (λ w,
    err ← patch KDeployment (m_Namespace (wl_meta w)) (wl_name w) body;
    match err with Some e => fail (EApi e) | None => mret () end).

(** Computing the timeout dereferences the stored component. *)
Definition scaling_waiting (app : AppService) (run : select_run (Store C)) : SM unit :=
  p ← gets (lookup_ptr (ServiceID app));
  match p with
  | None => panic
  | Some p =>
    a ← gets (deref p);
    match scaling_timeout app a with
    | Ok _ => WaitReady (Some p) run
    | Err e => fail e
    | Panic => panic
    end
  end.

Definition scalingOne (body : string) (service : AppService) (run : select_run (Store C)) : SM unit :=
  _ ← on_cluster (scale_workloads body service); scaling_waiting service run.

(** ** Upgrade *)

(** [map[string]*T] filled from a slice; an entry is set to nil when a new
    object took it over. *)
Definition ptr_map {A} (nm : A → string) (l : list A) : gmap string (option A) :=
  foldl (λ m o, <[nm o := Some o]> m) ∅ l.

(** Storing the result of an API call: a nil result panics on its name. *)
Definition store_reply {A} (key : string) (f : A → AppService → AppService) (o : option A) : SM unit :=
  match o with
  | Some x => update_app key (pure_op (f x))
  | None => panic
  end.

(** [store.GetAppService(id)] used without a nil check. *)
Definition now_app (serviceID : string) : SM AppService :=
  r ← gets (GetAppService serviceID);
  match r with Some a => mret a | None => panic end.

Definition configmap_step (key ns : string) (m : gmap string (option ConfigMap)) (new : ConfigMap) :
    SM (gmap string (option ConfigMap)) :=
  match m !! pl_name new with
  | Some None => panic
  | Some (Some nowConfig) =>
    let new := new <| pl_meta ::= λ x, x <| m_UID := m_UID (pl_meta nowConfig) |> |> in
    r ← on_cluster (update kc KConfigMap ns new);
    _ ← store_reply key SetConfigMap r.1;
    mret (<[pl_name new := None]> m)
  | None =>
    r ← on_cluster (create kc KConfigMap ns new);
    _ ← store_reply key SetConfigMap r.1;
    mret m
  end.

(** The objects no new one took over. *)
Definition delete_rest {A} (k : kind) (ns : string) (m : gmap string (option A)) : COp unit :=
  forM (range_order m) (λ '(name, handle),
    match handle with
    | Some _ => _ ← delete_ kc k ns name; mret ()
    | None => mret ()
    end).

Definition upgradeConfigMap (newapp : AppService) : SM unit :=
  let key := ServiceID newapp in
  nowApp ← now_app key;
  m ← foldM (configmap_step key (TenantID nowApp)) (ptr_map pl_name (GetConfigMaps nowApp))
        (GetConfigMaps newapp);
  on_cluster (delete_rest KConfigMap (TenantID nowApp) m).

(** The cached service is rewritten in place before the update call. *)
Definition service_step (key ns : string) (m : gmap string (option Service)) (new : Service) :
    SM (gmap string (option Service)) :=
  match m !! svc_name new with
  | Some None => panic
  | Some (Some nowConfig) =>
    let changed := nowConfig
      <| svc_Spec ::= λ x, x <| ssp_Ports := svc_Ports new |> <| ssp_Type := svc_Type new |> |>
      <| svc_meta ::= λ x, x <| m_Labels := m_Labels (svc_meta new) |> |> in
    _ ← update_app key (pure_op (λ a, a <| services ::=
          fmap (λ s, if decide (svc_name s = svc_name new) then changed else s) |>));
    r ← on_cluster (update kc KService ns changed);
    _ ← store_reply key SetService r.1;
    mret (<[svc_name new := None]> m)
  | None =>
    _ ← on_cluster (logged (CreateKubeService ns [new]));
    _ ← update_app key (pure_op (SetService new));
    mret m
  end.

Definition upgradeService (newapp : AppService) : SM unit :=
  let key := ServiceID newapp in
  nowApp ← now_app key;
  m ← foldM (service_step key (TenantID nowApp)) (ptr_map svc_name (GetServices nowApp))
        (GetServices newapp);
  on_cluster (delete_rest KService (TenantID nowApp) m).

(** No claim is ever deleted: what is left in the map is ignored. *)
Definition upgrade_claim_step (key : string) (m : gmap string Claim) (n : Claim) :
    SM (gmap string Claim) :=
  let ns := m_Namespace (pl_meta n) in
  match m !! pl_name n with
  | Some o =>
    let n := n <| pl_meta ::= λ x, x <| m_UID := m_UID (pl_meta o) |>
      <| m_ResourceVersion := m_ResourceVersion (pl_meta o) |> |> in
    r ← on_cluster (update kc KClaim ns n);
    match r.2 with
    | Some _ => mret m
    | None => _ ← store_reply key SetClaim r.1; mret (delete (pl_name o) m)
    end
  | None =>
    r ← on_cluster (create kc KClaim ns n);
    match r with
    | (None, _) => panic
    | (Some _, Some _) => mret m
    | (Some claim, None) => _ ← update_app key (pure_op (SetClaim claim)); mret m
    end
  end.

Definition upgradeClaim (newapp : AppService) : SM unit :=
  let key := ServiceID newapp in
  nowApp ← now_app key;
  _ ← foldM (upgrade_claim_step key) (name_map (k := KClaim) (GetClaims nowApp)) (GetClaims newapp);
  mret ().

Definition patch_workload k (msg body : string) (w : Workload) : COp unit :=
  err ← patch k (m_Namespace (wl_meta w)) (wl_name w) body;
  match err with Some e => fail (EWrap msg (EApi e)) | None => mret () end.

(** Errors of secrets, ingresses and monitors are ignored. *)
Definition ignore_error (e : api_error) : option error := None.

(** The part of [upgradeOne] after the workloads, with the old component. *)
Definition upgrade_rest (app : AppService) : SM unit :=
  oldApp ← gets (GetAppService (ServiceID app));
  _ ← upgradeService app;
  match oldApp with
  | None => panic
  | Some oldApp =>
    now ← gets (λ s, deref (mkPtr (ServiceID app) oldApp) s);
    r ← on_cluster (catch (UpgradeSecrets kc ignore_error app (GetSecrets now) (GetSecrets app)));
    let app := match r with inr (app, _) => app | inl _ => app end in
    r ← on_cluster (catch (UpgradeIngress kc ignore_error app (GetIngress now) (GetIngress app)));
    let app := match r with inr (app, _) => app | inl _ => app end in
    _ ← on_cluster (forM (GetEnvVarSecrets app) (λ x,
          wrap_err "create or update secrets" (CreateOrUpdateSecret kc x)));
    crd ← gets (λ s, kc_has_monitor_crd kc (st_cluster s));
    has ← gets (λ s, kc_has_monitor_client kc (st_cluster s));
    when (crd && has) (
      _ ← on_cluster (catch (UpgradeServiceMonitor kc ignore_error app (GetServiceMonitors now)
            (GetServiceMonitors app))); mret ())
  end.

Definition upgrade_waiting (app : AppService) (run : select_run (Store C)) : SM unit :=
  p ← gets (lookup_ptr (ServiceID app)); WaitUpgradeReady p run.

Definition upgradeOne (app : AppService) (run : select_run (Store C)) : SM unit :=
  _ ← on_cluster (start_namespace app);
  _ ← upgradeConfigMap app;
  _ ← on_cluster (opt_do (GetDeployment app)
        (patch_workload KDeployment "upgrade deployment failure"
           (get_str (UpgradePatch app) "deployment")));
  _ ← on_cluster (forM (GetClaimsManually app)
        (create_once KClaim (TenantID app) "create claims"));
  _ ← on_cluster (opt_do (GetStatefulSet app)
        (patch_workload KStatefulSet "upgrade statefulset failure"
           (get_str (UpgradePatch app) "statefulset")));
  _ ← upgrade_rest app;
  upgrade_waiting app run.

(** ** Apply a plugin configuration, refresh the autoscalers *)

(** [applyConfigController.Begin] repeats the loop of [upgradeConfigMap]. *)
Definition apply_config (app : AppService) : SM unit := upgradeConfigMap app.

Definition refresh_applyOne (app : AppService) : COp unit :=
  _ ← forM (GetHPAs app) (EnsureHPA kc);
  forM (GetDelHPAs app) (λ x,
    _ ← delete_ kc KHPA (m_Namespace (pl_meta x)) (pl_name x); mret ()).

(** ** Restart *)

(** [conversion.InitAppService] *)
Context (InitAppService : string → gmap string string → error + AppService).

(** At most 20 sleeps of two seconds; [envs] is what the informers do during
    each. *)
Fixpoint wait_closed (serviceID : string) (waiting : nat) (envs : nat → Store C → Store C) :
    SM unit :=
  match waiting with
  | 0 => mret ()
  | S waiting' =>
    r ← gets (GetAppService serviceID);
    match r with
    | None => mret ()
    | Some a =>
      if IsClosed a then mret ()
      else _ ← modify (envs waiting'); wait_closed serviceID waiting' envs
    end
  end.

Definition restartOne (app : AppService) (stop_run start_run : select_run (Store C))
    (envs : nat → Store C → Store C) : SM unit :=
  r ← catch (stopOne app stop_run);
  _ ← match r with
      | inr _ => mret ()
      | inl err =>
        if decide (err = EWaitTimeOut) then wait_closed (ServiceID app) 20 envs else fail err
      end;
  match InitAppService (ServiceID app) (b_ExtensionSet (base app)) with
  | inl err => fail (EWrap "application model init create failure" err)
  | inr newAppService =>
    _ ← RegistAppService newAppService;
    r ← catch (startOne newAppService start_run);
    match r with
    | inr _ => mret ()
    | inl err => if decide (err = EWaitTimeOut) then mret () else fail err
    end
  end.
End one.
