(* ===== verification/ControllerSpec.v ===== *)
(** * What the runtime controllers guarantee

    Theorems about [Controller]: the outcome of the wait loops, what exists
    after a start and what is gone after a stop, and the timeouts. *)
From S2P Require Import Prelude Kube AppService AppStatus Ensure Store Controller.

(** ** Wait loops *)

Section waiting.
Context {C : Type} (kc : KubeClient C) `{ComponentKindsLaws}.
Context (InitCacheAppService : string → string → init_error + AppService).
Context (delete_volume_type : string → bool).
Context (Hinit : init_sound InitCacheAppService).
Context (lister : ∀ k : kind, string → string → reply k) (Hls : lister_sound lister).

(** During the wait the component stays in a sound store. *)
Definition watched (key : string) (s : Store C) : Prop :=
  store_ok s ∧ is_Some (st_apps s !! key).

(** What can happen between two rounds: the informers report anything, and
    other components are registered.  (Nothing calls [DeleteAppServiceByKey].) *)
Definition ordinary (key : string) (i : store_input) : Prop :=
  match i with InRegist app => wf app ∧ ServiceID app ≠ key | InForget _ => False | _ => True end.

Inductive run_ok (key : string) : select_run (Store C) → Prop :=
  | run_cancel : run_ok key SelCancel
  | run_timer : run_ok key SelTimer
  | run_tick inputs rest :
      Forall (ordinary key) inputs → run_ok key rest →
      run_ok key (SelTick (λ s, (forM inputs (handle_input kc InitCacheAppService delete_volume_type lister) s).1) rest).

Lemma watched_history key inputs s : Forall (ordinary key) inputs → watched key s →
  watched key (forM inputs (handle_input kc InitCacheAppService delete_volume_type lister) s).1.
Proof.
  intros Hi [Hs Ha]. rewrite Forall_forall in Hi. split.
  - apply history_sound; [done..|]. intros app Happ. by destruct (Hi _ Happ).
  - apply history_keeps; [|done]. intros k Hk. by destruct (Hi _ Hk).
Qed.

Lemma deref_watched p s :
  watched (ap_key p) s → st_apps s !! ap_key p = Some (deref p s) ∧
    ServiceID (deref p s) = ap_key p ∧ wf (deref p s).
Proof.
  intros [Hs [a Ha]]. unfold deref. rewrite Ha. simpl.
  destruct (Hs _ a Ha). by split_and!.
Qed.

Lemma update_get key (a a' : AppService) (s : Store C) :
  st_apps s !! key = Some a → refresh_app lister a = Ok a' →
  UpdateGetAppService lister key s = (s <| st_apps ::= <[key := a']> |>, Ok (Some a')).
Proof.
  intros Ha E. unfold UpdateGetAppService, GetAppService, update_app, mbind, M_bind, gets.
  cbn -[refresh_app]. rewrite Ha. cbn -[refresh_app]. rewrite Ha, E. simpl.
  by rewrite lookup_insert_eq.
Qed.

Lemma reload_watched p s : watched (ap_key p) s →
  ∃ s' p', reload lister (Some p) s = (s', Ok (Some p')) ∧ ap_key p' = ap_key p ∧
    watched (ap_key p) s'.
Proof.
  intros Hw. destruct (deref_watched p s Hw) as (Hp & Hid & Hwf). destruct Hw as [Hs _].
  destruct (refresh_app_spec lister Hls (deref p s) Hwf) as (a' & E & _).
  unfold reload, mbind, M_bind, gets. rewrite Hid, (update_get _ _ _ _ Hp E).
  eexists _, _. split; [done|]. split; [done|]. split; simpl.
  - destruct (pres_run _ (preserving_refresh_app lister) _ _ Hwf E) as [Hwf' Hid'].
    intros k b. simpl. rewrite lookup_insert_Some. intros [[<- <-]|[_ Hb]]; [|by apply Hs].
    split; [congruence|done].
  - rewrite lookup_insert_eq. by eexists.
Qed.

(** The common outcome: success only with the test passed by the component as
    it is in the store then; otherwise cancelled or timed out; no panic. *)
Definition wait_outcome (key : string) (done : AppService → bool) (x : Store C * result unit) : Prop :=
  watched key x.1 ∧
  match x.2 with
  | Ok _ => ∃ a, st_apps x.1 !! key = Some a ∧ done a = true
  | Err e => e = EWaitCancel ∨ e = EWaitTimeOut
  | Panic => False
  end.

Lemma wait_loop_outcome refresh done key run i p s :
  ap_key p = key → watched key s → run_ok key run →
  wait_outcome key done (wait_loop lister refresh done i (Some p) run s).
Proof.
  intros Hk Hw Hr. revert i p s Hk Hw. induction Hr as [| |inputs rest Hin Hr IH]; intros i p s Hk Hw.
  all: assert (∃ s1 p1, (if refresh i then reload lister (Some p) else mret (Some p)) s =
      (s1, Ok (Some p1)) ∧ ap_key p1 = key ∧ watched key s1) as (s1 & p1 & E & Hk1 & Hw1)
    by (destruct (refresh i); [|by eauto 6]; rewrite <- Hk in *;
        destruct (reload_watched p s Hw) as (s1 & p1 & ? & ? & ?); eauto).
  all: cbn [wait_loop]; rewrite (bind_ok _ _ _ _ _ E), bind_unfold; simpl;
    assert (st_apps s1 !! key = Some (deref p1 s1)) as Hd by
      (rewrite <- Hk1 in *; by apply deref_watched);
    destruct (done (deref p1 s1)) eqn:Ed; [by split; [|exists (deref p1 s1)]|].
  - split; [done|by left].
  - split; [done|by right].
  - apply IH; [done|by apply watched_history].
Qed.

(** C10 (liveness): a wait for a component of a sound store, whatever the
    informers report meanwhile, never panics and ends in one of three ways:
    cancelled, timed out, or with the component ready (closed, at its new version)
    in the store at that moment.  Deletions that close the component do not take
    it out of the store, since the body of [DeleteAppService] is commented out. *)
Theorem waits_end_well (p : app_ptr) (run : select_run (Store C)) (s : Store C)
    (Hw : watched (ap_key p) s) (Hrun : run_ok (ap_key p) run) :
  wait_outcome (ap_key p) Ready (WaitReady lister (Some p) run s) ∧
  wait_outcome (ap_key p) IsClosed (WaitStop lister (Some p) run s) ∧
  wait_outcome (ap_key p) UpgradeComlete (WaitUpgradeReady lister (Some p) run s).
Proof. split_and!; by apply wait_loop_outcome. Qed.
End waiting.

(** ** Timeouts *)

(** The start and scaling timeouts multiply plain numbers, which
    as nanoseconds stay below 40 seconds, so whatever the probe delays and the
    replica counts, the wait is 40 seconds. *)
Theorem start_timeout_constant (app stored : AppService) :
  start_timeout app = (40 * Second)%Z ∧
  (scaling_timeout app stored = Panic ∨ scaling_timeout app stored = Ok (40 * Second)%Z).
Proof.
  assert (∀ z, (int32 z < 40 * Second)%Z) as Hsmall.
  { intros z. pose proof (wrap_range 32 z ltac:(lia)). unfold Second. lia. }
  unfold start_timeout, scaling_timeout. split; [by rewrite decide_True|].
  destruct (GetPodTemplate app) as [[? [|c l] ?]|]; simpl; [by left|right..];
    by rewrite decide_True.
Qed.

(** ** What a start creates *)

Section resources.
Context {C : Type} (kc : KubeClient C) `{GoRuntime, ComponentKinds}.
Context (kl : C → ∀ k, string → string → option (obj k)) `{!KubeLaws kc kl}.

Definition okey : Type := kind * string * string.
Definition stored (c : C) (x : okey) : Prop := is_Some (at_key kl c x).
Definition absent (c : C) (x : okey) : Prop := gone (at_key kl c x).

(** Success of [m] means that [S] is stored, and [m] keeps what is stored
    ([K] restricts which keys). *)
Record yields (K : okey → Prop) {A} (m : M C A) (S : list okey) : Prop := {
  yields_keeps c x : K x → stored c x → stored (m c).1 x;
  yields_run c c' a x : m c = (c', Ok a) → x ∈ S → stored c' x
}.

Definition any (x : okey) : Prop := True.

Lemma yields_ret K {A} (a : A) : yields K (mret a) [].
Proof. split; [done|by intros ???? _ ?%not_elem_of_nil]. Qed.

Lemma yields_fail K {A} e S : yields K (A := A) (fail e) S.
Proof. by split. Qed.

Lemma yields_weaken K {A} (m : M C A) S S' : yields K m S → S' ⊆ S → yields K m S'.
Proof. intros [Hk Hr] Hs. split; [done|]. intros. eapply Hr; [done|]. by apply Hs. Qed.

Lemma yields_bind K {A B} (m : M C A) (f : A → M C B) S1 S2 :
  yields K m S1 → (∀ a, yields K (f a) S2) → Forall K S1 → yields K (m ≫= f) (S1 ++ S2).
Proof.
  intros [Hk Hr] Hf HK. split.
  - intros c x Hx Hc. rewrite bind_unfold. specialize (Hk c x Hx Hc).
    destruct (m c) as [c1 [a|e|]]; [by apply (Hf a)|done..].
  - intros c c' b x (c1 & a & E1 & E2)%bind_ok_inv [Hx|Hx]%elem_of_app.
    + pose proof (yields_keeps _ _ _ (Hf a) c1 x) as Hk2. rewrite E2 in Hk2.
      rewrite Forall_forall in HK. apply Hk2; [by apply HK|]. by eapply Hr.
    + by eapply (yields_run _ _ _ (Hf a)).
Qed.

Lemma yields_forM K {A} (l : list A) (f : A → M C unit) (S : A → list okey) :
  (∀ x, yields K (f x) (S x)) → (∀ x, Forall K (S x)) → yields K (forM l f) (l ≫= S).
Proof.
  intros Hf HK. induction l as [|x l IH]; simpl; [apply yields_ret|].
  by apply yields_bind.
Qed.

Lemma yields_when K b (m : M C unit) S : yields K m S → yields K (when b m) (if b then S else []).
Proof. destruct b; [done|]. intros _. apply yields_ret. Qed.

(** A call whose error is passed on unless it says the object is there. *)
Lemma yields_must k ns (o : obj k) ok msg :
  (∀ e, ok e = true → e = AlreadyExists) →
  yields any (must ok msg (create_err kc k ns o)) [(k, ns, obj_name o)].
Proof.
  intros Hok. unfold must, create_err, create, api. split.
  - intros c [[k' ns'] n'] _ Hc. pose proof (kl_create_keeps c k ns o k' ns' n' Hc) as Hkeep.
    unfold mbind, M_bind. destruct (kc_create kc k ns o c) as [c1 [r [e|]]]; simpl;
      [by destruct (ok e)|done].
  - intros c c' a x Hrun ->%list_elem_of_singleton. revert Hrun.
    unfold mbind, M_bind. destruct (kc_create kc k ns o c) as [c1 [r [e|]]] eqn:E; simpl.
    + destruct (ok e) eqn:Eok; [|done]. intros [= <-]. specialize (Hok e Eok) as ->.
      by destruct (kl_create_exists c k ns o c1 r E) as [-> ?].
    + intros [= <-]. destruct (kl_create_ok c k ns o c1 r E) as (y & _ & _ & Hy). by exists y.
Qed.

Lemma yields_once k ns msg (o : obj k) :
  yields any (create_once kc k ns msg o) [(k, ns, obj_name o)].
Proof. apply yields_must. by intros e ->%bool_decide_eq_true. Qed.

Lemma yields_logged k ns (o : obj k) :
  yields any (_ ← create_err kc k ns o; mret ()) [].
Proof.
  unfold create_err, create, api. split; [|by intros ???? _ ?%not_elem_of_nil].
  intros c [[k' ns'] n'] _ Hc. pose proof (kl_create_keeps c k ns o k' ns' n' Hc) as Hkeep.
  unfold mbind, M_bind. by destruct (kc_create kc k ns o c).
Qed.

(** [CreateKubeService]: each service is there, or waits for its retry. *)
Definition svc_key (ns : string) (s : Service) : okey := (KService, ns, svc_name s).
Definition not_service (x : okey) : Prop := x.1.1 ≠ KService.

Lemma stored_other k ns n c c' (x : okey) :
  (∀ k' ns' n', (k', ns', n') ≠ (k, ns, n) → kl c' k' ns' n' = kl c k' ns' n') →
  x ≠ (k, ns, n) → stored c x → stored c' x.
Proof. destruct x as [[k' ns'] n']. intros Hf Hx. unfold stored, at_key. simpl. by rewrite Hf. Qed.

Lemma service_attempt_spec ns retry svc c :
  ∃ c' retry', service_attempt kc ns retry svc c = (c', Ok retry') ∧
    (∀ x, stored c x → stored c' x ∨ x = svc_key ns svc) ∧
    (retry' = retry ++ [svc] ∨ retry' = retry ∧ stored c' (svc_key ns svc)).
Proof.
  unfold service_attempt, create_err, create, update, api, mbind, M_bind.
  pose proof (kl_create_frame c KService ns svc) as Hf1.
  destruct (kc_create kc KService ns svc c) as [c1 [r1 e1]] eqn:E1. simpl in *.
  assert (∀ x, stored c x → stored c1 x ∨ x = svc_key ns svc) as Hk1.
  { intros x Hx. destruct (decide (x = svc_key ns svc)); [by right|left].
    by eapply (stored_other KService ns (svc_name svc)). }
  destruct e1 as [e1|]; simpl.
  2: { eexists _, _. split_and!; [done|done|right]. split; [done|].
       destruct (kl_create_ok _ _ _ _ _ _ E1) as (y & _ & _ & Hy). by exists y. }
  destruct (_ && _); [eexists _, _; by split_and!; [|done|left]|].
  pose proof (kl_update_frame c1 KService ns svc) as Hf2.
  destruct (kc_update kc KService ns svc c1) as [c2 [r2 e2]] eqn:E2. simpl in *.
  eexists _, _. split; [done|]. split.
  - intros x Hx. destruct (Hk1 x Hx) as [Hx1|]; [|by right].
    destruct (decide (x = svc_key ns svc)); [by right|left].
    by eapply (stored_other KService ns (svc_name svc)).
  - destruct e2; [by left|right]. split; [done|].
    destruct (kl_update_ok _ _ _ _ _ _ E2) as (y & _ & _ & Hy). by exists y.
Qed.

Lemma service_attempts_spec ns l retry c :
  ∃ c' retry', foldM (service_attempt kc ns) retry l c = (c', Ok retry') ∧
    (∀ x, stored c x → stored c' x ∨ x ∈ svc_key ns <$> retry' ∨ x ∈ svc_key ns <$> l) ∧
    (∀ x, x ∈ svc_key ns <$> retry → x ∈ svc_key ns <$> retry') ∧
    (∀ x, x ∈ svc_key ns <$> l → stored c' x ∨ x ∈ svc_key ns <$> retry').
Proof.
  revert retry c. induction l as [|s l IH]; intros retry c; cbn [foldM].
  { exists c, retry. split_and!; [done|by left|done|by intros x ?%not_elem_of_nil]. }
  destruct (service_attempt_spec ns retry s c) as (c1 & retry1 & E1 & Hk1 & Hor).
  rewrite (bind_ok _ _ _ _ _ E1).
  destruct (IH retry1 c1) as (c2 & retry2 & E2 & Hk2 & Hr2 & Hl2).
  exists c2, retry2. setoid_rewrite fmap_cons. setoid_rewrite elem_of_cons.
  split; [done|]. split_and!.
  - intros x Hx. destruct (Hk1 x Hx) as [Hx1| ->]; [|tauto]. destruct (Hk2 x Hx1) as [?|[?|?]]; auto.
  - intros x Hx. apply Hr2. destruct Hor as [->|[-> _]]; [|done].
    rewrite fmap_app. set_solver.
  - intros x [->|Hx]; [|by apply Hl2]. destruct Hor as [->|[-> Hs]].
    + right. apply Hr2. rewrite fmap_app. set_solver.
    + destruct (Hk2 _ Hs) as [?|[?|Hin]]; [by left|by right|by apply Hl2].
Qed.

Lemma yields_retry ns l : yields any (forM l (service_retry kc ns)) (svc_key ns <$> l).
Proof.
  eapply yields_weaken; [apply (yields_forM any l (service_retry kc ns) (λ s, [svc_key ns s]))|].
  - intros s. unfold service_retry, create_err, create, api. split.
    + intros c [[k' ns'] n'] _ Hc. pose proof (kl_create_keeps c KService ns s k' ns' n' Hc) as Hkeep.
      unfold mbind, M_bind. destruct (kc_create kc KService ns s c) as [c1 [r [e|]]]; simpl;
        [by destruct (IsAlreadyExists e)|done].
    + intros c c' a x Hrun ->%list_elem_of_singleton. revert Hrun. unfold mbind, M_bind.
      destruct (kc_create kc KService ns s c) as [c1 [r [e|]]] eqn:E; simpl.
      * destruct (IsAlreadyExists e) eqn:Ee; [|done]. intros [= <-].
        apply bool_decide_eq_true in Ee as ->.
        by destruct (kl_create_exists c KService ns s c1 r E) as [-> ?].
      * intros [= <-]. destruct (kl_create_ok _ _ _ _ _ _ E) as (y & _ & _ & Hy). by exists y.
  - intros s. repeat constructor.
  - intros x (s & -> & Hs)%list_elem_of_fmap. apply list_elem_of_bind. exists s.
    split; [apply list_elem_of_here|done].
Qed.

Lemma yields_services ns l : yields not_service (CreateKubeService kc ns l) (svc_key ns <$> l).
Proof.
  unfold CreateKubeService. split.
  - intros c x Hx Hc. destruct (service_attempts_spec ns l [] c) as (c1 & retry & E & Hk & _ & _).
    rewrite (bind_ok _ _ _ _ _ E). apply (yields_keeps _ _ _ (yields_retry ns retry)); [done|].
    destruct (Hk x Hc) as [?|[(s & -> & _)%list_elem_of_fmap|(s & -> & _)%list_elem_of_fmap]];
      [done|by destruct Hx..].
  - intros c c' a x (c1 & retry & E & Er)%bind_ok_inv Hx.
    destruct (service_attempts_spec ns l [] c) as (c2 & retry2 & E2 & _ & _ & Hl).
    rewrite E2 in E. injection E as <- <-. destruct (Hl x Hx) as [Hs|Hin].
    + pose proof (yields_keeps _ _ _ (yields_retry ns retry2) c2 x I Hs) as Hk.
      by rewrite Er in Hk.
    + by eapply (yields_run _ _ _ (yields_retry ns retry2)).
Qed.

Lemma yields_sub (K K' : okey → Prop) {A} (m : M C A) S :
  (∀ x, K' x → K x) → yields K m S → yields K' m S.
Proof. intros HK [Hk Hr]. split; [|done]. auto. Qed.

Lemma yields_bind_any K {A B} (m : M C A) (f : A → M C B) S1 S2 :
  yields K m S1 → (∀ a, yields any (f a) S2) → yields K (m ≫= f) (S1 ++ S2).
Proof.
  intros [Hk Hr] Hf. split.
  - intros c x Hx Hc. rewrite bind_unfold. specialize (Hk c x Hx Hc).
    destruct (m c) as [c1 [a|e|]]; [by apply (Hf a)|done..].
  - intros c c' b x (c1 & a & E1 & E2)%bind_ok_inv [Hx|Hx]%elem_of_app.
    + pose proof (yields_keeps _ _ _ (Hf a) c1 x I) as Hk2. rewrite E2 in Hk2.
      apply Hk2. by eapply Hr.
    + by eapply (yields_run _ _ _ (Hf a)).
Qed.

Lemma yields_wrap K {A} msg (m : M C A) S : yields K m S → yields K (wrap_err msg m) S.
Proof.
  intros [Hk Hr]. unfold wrap_err. split.
  - intros c x Hx Hc. specialize (Hk c x Hx Hc). by destruct (m c) as [c1 [a|e|]].
  - intros c c' a x. destruct (m c) as [c1 [b|e|]] eqn:E; [|done..]. intros [= <- <-]. by eapply Hr.
Qed.

Lemma yields_opt K {A} (o : option A) f (S : A → list okey) :
  (∀ x, yields K (f x) (S x)) → yields K (opt_do (C := C) o f) (from_option S [] o).
Proof. intros Hf. destruct o; [apply Hf|apply yields_ret]. Qed.

Definition keys_of k (ns : string) (l : list (obj k)) : list okey :=
  l ≫= λ o, [(k, ns, obj_name o)].

(** Objects that carry a resource version come from the cluster. *)
Definition new_keys k (ns : obj k → string) (l : list (obj k)) : list okey :=
  l ≫= λ o, if unsaved_meta (obj_meta o) then [(k, ns o, obj_name o)] else [].

(** The objects a component consists of. *)
Definition start_keys (app : AppService) : list okey :=
  let ns := TenantID app in
  keys_of KConfigMap ns (GetConfigMaps app) ++ keys_of KClaim ns (GetClaimsManually app) ++
  from_option (λ w, [(KStatefulSet, ns, wl_name w)]) [] (GetStatefulSet app) ++
  from_option (λ w, [(KDeployment, ns, wl_name w)]) [] (GetDeployment app) ++
  (svc_key ns <$> GetServices app) ++
  new_keys KSecret (λ _, ns) (GetSecrets app ++ GetEnvVarSecrets app) ++
  new_keys KIngress (λ _, ns) (GetIngress app) ++
  new_keys KHPA (λ x, m_Namespace (pl_meta x)) (GetHPAs app).

Lemma yields_monitors app : yields any (start_monitors kc app) [].
Proof.
  unfold start_monitors. apply (yields_bind any _ _ [] []); [by split; [|intros ???? _ ?%not_elem_of_nil]| |constructor].
  intros crd. apply (yields_bind any _ _ [] []); [by split; [|intros ???? _ ?%not_elem_of_nil]| |constructor].
  intros has. destruct (_ && _); [|apply yields_ret].
  eapply yields_weaken; [apply (yields_forM any _ _ (λ _, []))|apply list_subseteq_nil].
  - intros sm. unfold when. destruct (unsaved_meta _); [apply yields_logged|apply yields_ret].
  - intros sm. constructor.
Qed.

Lemma yields_new k ns msg (l : list (obj k)) :
  yields any (forM l (λ x, when (unsaved_meta (obj_meta x)) (create_once kc k (ns x) msg x)))
    (new_keys k ns l).
Proof.
  apply yields_forM; intros x; unfold when; destruct (unsaved_meta _); try apply yields_ret;
    [apply yields_once|repeat constructor..].
Qed.

Lemma keys_not_service k ns (l : list (obj k)) : k ≠ KService → Forall not_service (keys_of k ns l).
Proof.
  intros Hk. apply Forall_forall. intros x (o & Hx & _)%list_elem_of_bind.
  by apply list_elem_of_singleton in Hx as ->.
Qed.

Lemma any_not_service {A} (m : M C A) S : yields any m S → yields not_service m S.
Proof. by apply yields_sub. Qed.

(** C5 (functional): when the creation phase of a start succeeds, there is in the
    cluster an object under the name of every configuration map, manual claim,
    workload and service of the component, and of every secret, ingress and
    autoscaler of it without a resource version (those with one were taken from the
    cluster and are not created).  A creation that lost a race counts; a service
    that could not be created is created or updated on retry.  Service monitors are
    not covered: their failures are only logged. *)
Theorem start_creates (app : AppService) (c c' : C) u
    (Hok : start_resources kc app c = (c', Ok u)) :
  ∀ x, x ∈ start_keys app → is_Some (at_key kl c' x).
Proof.
  intros x Hx. apply bind_ok_inv in Hok as (c1 & [] & _ & Hok). cbv beta in Hok.
  eapply (yields_run not_service); [|exact Hok|exact Hx].
  unfold start_keys. rewrite <- (app_nil_r (new_keys KHPA _ _)).
  apply yields_bind; [apply any_not_service, yields_forM; [intros o; apply yields_once|]
    | |by apply keys_not_service]; [repeat constructor|]; intros _.
  apply yields_bind; [apply any_not_service, yields_forM; [intros o; apply yields_once|]
    | |by apply keys_not_service]; [repeat constructor|]; intros _.
  apply yields_bind; [apply any_not_service, yields_opt; intros w; by apply yields_must| |
    destruct (GetStatefulSet app); by repeat constructor]; intros _.
  apply yields_bind; [apply any_not_service, yields_opt; intros w; by apply yields_must| |
    destruct (GetDeployment app); by repeat constructor]; intros _.
  apply yields_bind_any; [apply yields_wrap, yields_services|]; intros _.
  apply yields_bind_any; [apply (yields_new KSecret)|]; intros _.
  apply yields_bind_any; [apply (yields_new KIngress)|]; intros _.
  apply yields_bind_any; [apply (yields_new KHPA)|]; intros _. apply yields_monitors.
Qed.
End resources.

(** ** What a stop removes *)

Section removal.
Context {C : Type} (kc : KubeClient C) `{GoRuntime, ComponentKinds}.
Context (kl : C → ∀ k, string → string → option (obj k)) `{!KubeLaws kc kl}.
Context (InitCacheAppService : string → string → init_error + AppService).
Context (delete_volume_type : string → bool).

(** Success of [m] means that [S] is gone from the cluster, which [cl] finds
    in the state; [m] brings nothing back. *)
Record clears {W} (cl : W → C) {A} (m : M W A) (S : list okey) : Prop := {
  clears_keeps w x : absent kl (cl w) x → absent kl (cl (m w).1) x;
  clears_run w w' a x : m w = (w', Ok a) → x ∈ S → absent kl (cl w') x
}.

Lemma clears_ret {W} (cl : W → C) {A} (a : A) : clears cl (mret a) [].
Proof. split; [done|by intros ???? _ ?%not_elem_of_nil]. Qed.

Lemma clears_weaken {W} (cl : W → C) {A} (m : M W A) S S' :
  clears cl m S → S' ⊆ S → clears cl m S'.
Proof. intros [Hk Hr] Hs. split; [done|]. intros. eapply Hr; [done|]. by apply Hs. Qed.

Lemma clears_bind {W} (cl : W → C) {A B} (m : M W A) (f : A → M W B) S1 S2 :
  clears cl m S1 → (∀ a, clears cl (f a) S2) → clears cl (m ≫= f) (S1 ++ S2).
Proof.
  intros [Hk Hr] Hf. split.
  - intros w x Hx. rewrite bind_unfold. specialize (Hk w x Hx).
    destruct (m w) as [w1 [a|e|]]; [by apply (Hf a)|done..].
  - intros w w' b x (w1 & a & E1 & E2)%bind_ok_inv [Hx|Hx]%elem_of_app.
    + pose proof (clears_keeps _ _ _ (Hf a) w1 x) as Hk2. rewrite E2 in Hk2.
      apply Hk2. by eapply Hr.
    + by eapply (clears_run _ _ _ (Hf a)).
Qed.

Lemma clears_forM {W} (cl : W → C) {A} (l : list A) (f : A → M W unit) (S : A → list okey) :
  (∀ x, clears cl (f x) (S x)) → clears cl (forM l f) (l ≫= S).
Proof. intros Hf. induction l as [|x l IH]; simpl; [apply clears_ret|]. by apply clears_bind. Qed.

(** Code that leaves the cluster alone. *)
Lemma clears_frame {W} (cl : W → C) {A} (m : M W A) :
  (∀ w, cl (m w).1 = cl w) → clears cl m [].
Proof. intros Hm. split; [intros w x; by rewrite Hm|by intros ???? _ ?%not_elem_of_nil]. Qed.

Lemma clears_on_cluster {A} (m : M C A) S :
  clears (λ c, c) m S → clears st_cluster (on_cluster m) S.
Proof.
  intros [Hk Hr]. unfold on_cluster. split.
  - intros s x Hx. specialize (Hk (st_cluster s) x Hx). by destruct (m (st_cluster s)).
  - intros s s' a x. destruct (m (st_cluster s)) as [c r] eqn:E. intros [= <- ->]. by eapply Hr.
Qed.

Lemma clears_once k ns n msg : clears (λ c, c) (remove_once kc k ns n msg) [(k, ns, n)].
Proof.
  unfold remove_once, must, delete_, api_err. split.
  - intros c [[k' ns'] n'] Hx. pose proof (kl_delete_keeps c k ns n k' ns' n' Hx) as Hk.
    unfold mbind, M_bind. destruct (kc_delete kc k ns n c) as [c1 [e|]]; simpl;
      [by destruct (IsNotFound e)|done].
  - intros c c' a x Hrun ->%list_elem_of_singleton. revert Hrun. unfold mbind, M_bind.
    destruct (kc_delete kc k ns n c) as [c1 [e|]] eqn:E; simpl.
    + destruct (IsNotFound e) eqn:Ee; [|done]. intros [= <-]. apply bool_decide_eq_true in Ee as ->.
      destruct (kl_delete_missing _ _ _ _ _ E) as [-> Hn]. unfold absent, at_key. simpl. by rewrite Hn.
    + intros [= <-]. exact (kl_delete_ok _ _ _ _ _ E).
Qed.

(** An object without a name is skipped. *)
Definition named_keys k (ns : string) (l : list (obj k)) : list okey :=
  l ≫= λ o, if nonempty_string (obj_name o) then [(k, ns, obj_name o)] else [].

Lemma clears_named k ns msg (l : list (obj k)) :
  clears (λ c, c) (forM l (remove_named kc k ns msg)) (named_keys k ns l).
Proof.
  apply clears_forM. intros o. unfold remove_named, when.
  destruct (nonempty_string _); [apply clears_once|apply clears_ret].
Qed.

Lemma clears_monitors app : clears (λ c, c) (stop_monitors kc app) [].
Proof.
  unfold stop_monitors. apply (clears_bind _ _ _ [] []); [by apply clears_frame|]. intros crd.
  apply (clears_bind _ _ _ [] []); [by apply clears_frame|]. intros has.
  destruct (_ && _); [|apply clears_ret]. unfold when.
  split; [|by intros ???? _ ?%not_elem_of_nil].
  apply (clears_keeps (λ c, c) _ (GetServiceMonitors app ≫= λ _, [])).
  apply clears_forM. intros sm. apply (clears_bind _ _ _ [] []); [|intros; apply clears_ret].
  split; [|by intros ???? _ ?%not_elem_of_nil]. intros c [[k' ns'] n'] Hx. unfold delete_, api_err.
  pose proof (kl_delete_keeps c KServiceMonitor (m_Namespace (pl_meta sm)) (pl_name sm) k' ns' n' Hx).
  by destruct (kc_delete kc _ _ _ c).
Qed.

Lemma clears_network app :
  clears (λ c, c) (stop_network kc app)
    (named_keys KService (TenantID app) (GetServices app) ++
     named_keys KSecret (TenantID app) (GetSecrets app) ++
     named_keys KIngress (TenantID app) (GetIngress app) ++
     named_keys KConfigMap (TenantID app) (GetConfigMaps app)).
Proof.
  unfold stop_network.
  apply clears_bind; [apply (clears_named KService)|]; intros _.
  apply clears_bind; [apply (clears_named KSecret)|]; intros _.
  apply clears_bind; [apply (clears_named KIngress)|]; intros _. apply (clears_named KConfigMap).
Qed.

Lemma clears_pods app :
  clears (λ c, c) (stop_pods kc app)
    (named_keys KPod (TenantID app) (GetPods app) ++
     (GetHPAs app ≫= λ x, [(KHPA, m_Namespace (pl_meta x), pl_name x)]) ++ []).
Proof.
  unfold stop_pods. apply clears_bind; [apply (clears_named KPod)|]. intros _.
  apply clears_bind; [|intros; apply clears_monitors].
  apply clears_forM. intros h. apply clears_once.
Qed.

(** Telling the store about deleted objects does not touch the cluster. *)
Lemma forget_frame os (s : Store C) :
  st_cluster (OnDeletes InitCacheAppService delete_volume_type os s).1 = st_cluster s.
Proof.
  assert (∀ id cid b (s : Store C),
    st_cluster (getAppService InitCacheAppService id cid b s).1 = st_cluster s) as Hget.
  { intros id cid b s0. unfold getAppService. destruct (GetAppService id s0); [done|].
    destruct b; [|done]. by destruct (InitCacheAppService id cid). }
  assert (∀ key f (s : Store C), st_cluster (update_app key f s).1 = st_cluster s) as Hupd.
  { intros key f s0. unfold update_app. destruct (st_apps s0 !! key); [|done].
    by destruct (f a). }
  assert (∀ key (s : Store C), st_cluster (drop_closed key s).1 = st_cluster s) as Hdrop.
  { intros key s0. unfold drop_closed. destruct (st_apps s0 !! key); [|done].
    by destruct (IsClosed a). }
  assert (∀ ok ow b f after (s : Store C), (∀ k s, st_cluster (after k s).1 = st_cluster s) →
    st_cluster (detach InitCacheAppService ok ow b f after s).1 = st_cluster s) as Hdetach.
  { intros ok ow b f after s0 Ha. unfold detach. destruct ok; [|done]. rewrite bind_unfold.
    specialize (Hget (ow_service ow) (ow_creater ow) b s0).
    destruct (getAppService _ _ _ _ s0) as [s1 [[[key|] e]|e|]]; [|done..]. simpl in *.
    specialize (Hupd key (pure_op f) s1). rewrite bind_unfold.
    destruct (update_app key (pure_op f) s1) as [s2 [[]|e'|]]; simpl in *; [|congruence..].
    specialize (Ha key s2). rewrite bind_unfold. destruct (after key s2) as [s3 [[]|e'|]];
      simpl in *; congruence. }
  revert s. induction os as [|o os IH]; intros s; [done|]. simpl. rewrite bind_unfold.
  assert (st_cluster (delete_object InitCacheAppService delete_volume_type o s).1 = st_cluster s)
    as Ho by (destruct o; simpl; unfold detach_closed; auto).
  destruct (delete_object _ _ o s) as [s1 [[]|e|]]; simpl in *; [done|by rewrite IH|done..].
Qed.

(** The objects a stop has to remove. *)
Definition stop_keys (app : AppService) : list okey :=
  let ns := TenantID app in
  named_keys KService ns (GetServices app) ++ named_keys KSecret ns (GetSecrets app) ++
  named_keys KIngress ns (GetIngress app) ++ named_keys KConfigMap ns (GetConfigMaps app) ++
  from_option (λ w, [(KStatefulSet, ns, wl_name w)]) [] (GetStatefulSet app) ++
  from_option (λ w, if nonempty_string (wl_name w) then [(KDeployment, ns, wl_name w)] else [])
    [] (GetDeployment app) ++
  named_keys KPod ns (GetPods app) ++
  (GetHPAs app ≫= λ x, [(KHPA, m_Namespace (pl_meta x), pl_name x)]).

Lemma clears_forget o :
  clears st_cluster (forget InitCacheAppService delete_volume_type o) [].
Proof. apply clears_frame. intros s. apply forget_frame. Qed.

Lemma clears_workloads app :
  clears st_cluster (stop_workloads kc InitCacheAppService delete_volume_type app)
    (from_option (λ w, [(KStatefulSet, TenantID app, wl_name w)]) [] (GetStatefulSet app) ++
     from_option (λ w, if nonempty_string (wl_name w)
       then [(KDeployment, TenantID app, wl_name w)] else []) [] (GetDeployment app)).
Proof.
  unfold stop_workloads. apply clears_bind.
  - destruct (GetStatefulSet app) as [w|]; [|apply clears_ret]. simpl.
    apply (clears_bind _ _ _ [_] []); [apply clears_on_cluster, clears_once|].
    intros _. apply clears_forget.
  - intros _. destruct (GetDeployment app) as [w|]; [|apply clears_ret]. simpl. unfold when.
    destruct (nonempty_string _); [|apply clears_ret].
    apply (clears_bind _ _ _ [_] []); [apply clears_on_cluster, clears_once|].
    intros _. apply clears_forget.
Qed.

(** C6 (functional): when the deletion phase of a stop succeeds, every service,
    secret, ingress, configuration map and pod of the component that has a name, its
    workloads and its autoscalers are gone from the cluster or being deleted, and
    telling the store about the workload brings nothing back.  Claims are kept on
    purpose; service monitors, endpoints and the secrets of variables are not
    covered. *)
Theorem stop_removes (app : AppService) (s s' : Store C) u
    (Hok : stop_resources kc InitCacheAppService delete_volume_type app s = (s', Ok u)) :
  ∀ x, x ∈ stop_keys app → gone (at_key kl (st_cluster s') x).
Proof.
  intros x Hx. assert (clears st_cluster
    (stop_resources kc InitCacheAppService delete_volume_type app) (stop_keys app)) as Hc.
  2: { exact (clears_run _ _ _ Hc s s' u x Hok Hx). }
  eapply clears_weaken.
  - apply clears_bind; [apply clears_on_cluster, clears_network|]. intros _.
    apply clears_bind; [apply clears_workloads|]. intros _. apply clears_on_cluster, clears_pods.
  - unfold stop_keys. intros y. rewrite !elem_of_app. tauto.
Qed.
End removal.

(** ** Witnesses *)

#[local] Existing Instance demo_kinds.
#[local] Existing Instance ref_runtime.
#[local] Existing Instance ref_runtime_laws.

(** A store in which a component becomes ready during the wait. *)
Definition demo_pending : AppService :=
  demo_running <| deployment ::= fmap (λ w, w <| wl_ReadyReplicas := 0%Z |>) |>.

#[local] Existing Instance demo_kinds_laws.

(** The informer reports the deployment with both pods ready. *)
Definition ready_deployment : Workload :=
  demo_workload <| wl_meta ::= λ m, m <| m_ResourceVersion := "8" |>
    <| m_Labels := {["service_id" := "svc"; "version" := "1"; "creater_id" := "c"]} |> |> <| wl_ReadyReplicas := 2%Z |>.

Definition demo_env : Store RefKube.cluster → Store RefKube.cluster := λ s,
  (forM [InAdd (IDeployment ready_deployment)] (handle_input RefKube.client demo_init (λ _, true) demo_lister) s).1.

Definition demo_wait_store : Store RefKube.cluster :=
  mkStore RefKube.empty {["svc" := demo_pending]} 1 ∅ [].

Lemma wf_demo_pending : wf demo_pending.
Proof. split; simpl; unfold uniq; simpl; apply (bool_decide_unpack _); vm_compute; exact I. Qed.

Lemma waits_end_well_witness :
  (WaitReady demo_lister (Some (mkPtr "svc" demo_pending)) (SelTick demo_env SelTimer)
     demo_wait_store).2 = Ok () ∧
  wait_outcome "svc" Ready (WaitReady demo_lister (Some (mkPtr "svc" demo_pending))
    (SelTick demo_env SelTimer) demo_wait_store).
Proof.
  split; [vm_compute; reflexivity|].
  refine (proj1 (waits_end_well RefKube.client demo_init (λ _, true) demo_init_sound demo_lister demo_lister_sound
    (mkPtr "svc" demo_pending) (SelTick demo_env SelTimer) demo_wait_store _ _)).
  - split; [|by eexists]. intros k a Ha. simpl in Ha.
    apply lookup_singleton_Some in Ha as [<- <-]. split; [reflexivity|exact wf_demo_pending].
  - apply (run_tick _ _ _ _ "svc" [InAdd (IDeployment ready_deployment)]); repeat constructor.
Defined.

Lemma start_timeout_constant_witness : start_timeout demo_running = 40000000000%Z.
Proof. exact (proj1 (start_timeout_constant demo_running demo_running)). Defined.

Definition demo_tenant_cluster : RefKube.cluster :=
  RefKube.upd KNamespace <[("", "tenant") := mkPlain (demo_meta "tenant") ""]> RefKube.empty.

Definition demo_startable : AppService :=
  demo_running <| services := [mkService (demo_meta "web") (mkServiceSpec [] ∅ "ClusterIP" "" false "")] |>.

Definition demo_started : RefKube.cluster * result unit :=
  start_resources RefKube.client demo_startable demo_tenant_cluster.

Lemma pair_of_snd {A B} (p : A * B) b : p.2 = b → p = (p.1, b).
Proof. destruct p. by intros <-. Qed.

Lemma start_creates_witness :
  is_Some (RefKube.lookup demo_started.1 KService "tenant" "web") ∧
  is_Some (RefKube.lookup demo_started.1 KDeployment "tenant" "web").
Proof.
  assert (demo_started = (demo_started.1, Ok ())) as E
    by (apply pair_of_snd; vm_compute; reflexivity).
  split.
  - apply (start_creates RefKube.client RefKube.lookup demo_startable _ _ _ E
      (KService, "tenant", "web")%string). apply (bool_decide_unpack _). vm_compute. exact I.
  - apply (start_creates RefKube.client RefKube.lookup demo_startable _ _ _ E
      (KDeployment, "tenant", "web")%string). apply (bool_decide_unpack _). vm_compute. exact I.
Defined.

Definition demo_live_store : Store RefKube.cluster :=
  mkStore demo_started.1 {["svc" := demo_startable]} 1 ∅ [].

Definition demo_stopped : Store RefKube.cluster * result unit :=
  stop_resources RefKube.client demo_init (λ _, true) demo_startable demo_live_store.

Lemma stop_removes_witness :
  let s' := demo_stopped.1 in
  RefKube.lookup (st_cluster demo_live_store) KService "tenant" "web" ≠ None ∧
  gone (RefKube.lookup (st_cluster s') KService "tenant" "web").
Proof.
  assert (demo_stopped = (demo_stopped.1, Ok ())) as E
    by (apply pair_of_snd; vm_compute; reflexivity).
  split; [vm_compute; discriminate|].
  apply (stop_removes RefKube.client RefKube.lookup demo_init (λ _, true) demo_startable _ _ _ E
    (KService, "tenant", "web")%string). apply (bool_decide_unpack _). vm_compute. exact I.
Defined.
