(* ===== verification/Task.v ===== *)
(** * Worker tasks

    [worker/discover/model/model.go]: the bodies of the tasks the API sends to
    the worker through the message queue, and how they are read back. *)
From S2P Require Import Prelude.

(** ** Bodies *)

Record StartTaskBody := mkStart {
  start_TenantID : string; start_ServiceID : string; start_DeployVersion : string;
  start_EventID : string; start_Configs : gmap string string;
  start_DepServiceIDInBootSeq : list string }.

Record StopTaskBody := mkStop {
  stop_TenantID : string; stop_ServiceID : string; stop_DeployVersion : string;
  stop_EventID : string; stop_Configs : gmap string string }.

Record RestartTaskBody := mkRestart {
  restart_TenantID : string; restart_ServiceID : string; restart_DeployVersion : string;
  restart_EventID : string; restart_Strategy : list string; restart_Configs : gmap string string }.

Record RollingUpgradeTaskBody := mkRolling {
  rolling_TenantID : string; rolling_ServiceID : string; rolling_NewDeployVersion : string;
  rolling_EventID : string; rolling_Strategy : list string; rolling_Configs : gmap string string }.

Record RollBackTaskBody := mkRollBack {
  rollback_TenantID : string; rollback_ServiceID : string;
  rollback_CurrentDeployVersion : string; rollback_OldDeployVersion : string;
  rollback_EventID : string; rollback_Strategy : list string }.

Record Dependence := mkDependence { dep_CurrentServiceID : string; dep_DependServiceID : string }.

Record GroupStartTaskBody := mkGroupStart {
  group_start_Services : list StartTaskBody; group_start_Dependences : list Dependence;
  group_start_Strategy : list string }.

Record GroupStopTaskBody := mkGroupStop {
  group_stop_Services : list StartTaskBody; group_stop_Dependences : list Dependence;
  group_stop_Strategy : list string }.

Record HorizontalScalingTaskBody := mkHorizontal {
  horizontal_TenantID : string; horizontal_ServiceID : string; horizontal_Replicas : Z;
  horizontal_EventID : string; horizontal_Username : string }.

Record VerticalScalingTaskBody := mkVertical {
  vertical_TenantID : string; vertical_ServiceID : string; vertical_ContainerCPU : Z;
  vertical_ContainerMemory : Z; vertical_EventID : string }.

Record ApplyRuleTaskBody := mkApplyRule {
  rule_ServiceID : string; rule_DeployVersion : string; rule_EventID : string;
  rule_ServiceKind : string; rule_Action : string; rule_Port : Z; rule_IsInner : bool;
  rule_Limit : option (gmap string string) }.

Record ApplyPluginConfigTaskBody := mkPluginConfig {
  plugin_ServiceID : string; plugin_PluginID : string; plugin_EventID : string;
  plugin_Action : string }.

Record ServiceGCTaskBody := mkServiceGC {
  gc_TenantID : string; gc_ServiceID : string; gc_EventIDs : list string }.

Record DeleteTenantTaskBody := mkDeleteTenant { delete_TenantID : string }.

Record RefreshHPATaskBody := mkRefreshHPA {
  refresh_ServiceID : string; refresh_RuleID : string; refresh_EventID : string }.

(** The dynamic type behind [TaskBody interface{}]: a struct or a pointer to
    one ([*]), or nil.  A type assertion tells them apart. *)
Inductive TaskBody :=
  | BStart (b : StartTaskBody) | BStop (b : StopTaskBody) | BRestart (b : RestartTaskBody)
  | BRollingUpgrade (b : RollingUpgradeTaskBody) | BRollBack (b : RollBackTaskBody)
  | BGroupStart (b : GroupStartTaskBody) | BGroupStop (b : GroupStopTaskBody)
  | BHorizontalScaling (b : HorizontalScalingTaskBody)
  | BVerticalScaling (b : VerticalScalingTaskBody)
  | BApplyRulePtr (b : ApplyRuleTaskBody)
  | BApplyPluginConfig (b : ApplyPluginConfigTaskBody)
  | BApplyPluginConfigPtr (b : ApplyPluginConfigTaskBody)
  | BServiceGC (b : ServiceGCTaskBody)
  | BDeleteTenant (b : DeleteTenantTaskBody) | BDeleteTenantPtr (b : DeleteTenantTaskBody)
  | BRefreshHPA (b : RefreshHPATaskBody) | BRefreshHPAPtr (b : RefreshHPATaskBody)
  | BDefault
  | BNil.

Record Task := mkTask { Type_ : string; Body : TaskBody; CreateTime : string; User : string }.

(** The message the queue delivers. *)
Record TaskMessage := mkMessage {
  tm_TaskType : string; tm_TaskBody : string; tm_CreateTime : string; tm_User : string }.

(** ** Decoding *)

(** [ffjson.Unmarshal] into a zero value of each type; [None] is an error. *)
Class Unmarshal := {
  un_start : string → option StartTaskBody;
  un_stop : string → option StopTaskBody;
  un_restart : string → option RestartTaskBody;
  un_rolling : string → option RollingUpgradeTaskBody;
  un_rollback : string → option RollBackTaskBody;
  un_group_start : string → option GroupStartTaskBody;
  un_group_stop : string → option GroupStopTaskBody;
  un_horizontal : string → option HorizontalScalingTaskBody;
  un_vertical : string → option VerticalScalingTaskBody;
  un_rule : string → option ApplyRuleTaskBody;
  un_plugin : string → option ApplyPluginConfigTaskBody;
  un_gc : string → option ServiceGCTaskBody;
  un_delete_tenant : string → option DeleteTenantTaskBody;
  un_refresh : string → option RefreshHPATaskBody
}.

(** [if err != nil { return nil }; return b] *)
Definition body_or_nil {A} (r : option A) (f : A → TaskBody) : TaskBody :=
  match r with Some b => f b | None => BNil end.

Section decode.
Context `{Unmarshal}.

Definition NewTaskBody (taskType body : string) : TaskBody :=
  if decide (taskType = "start"%string) then body_or_nil (un_start body) BStart
  else if decide (taskType = "stop"%string) then body_or_nil (un_stop body) BStop
  else if decide (taskType = "restart"%string) then body_or_nil (un_restart body) BRestart
  else if decide (taskType = "rolling_upgrade"%string) then body_or_nil (un_rolling body) BRollingUpgrade
  else if decide (taskType = "rollback"%string) then body_or_nil (un_rollback body) BRollBack
  else if decide (taskType = "group_start"%string) then body_or_nil (un_group_start body) BGroupStart
  else if decide (taskType = "group_stop"%string) then body_or_nil (un_group_stop body) BGroupStop
  else if decide (taskType = "horizontal_scaling"%string) then
    body_or_nil (un_horizontal body) BHorizontalScaling
  else if decide (taskType = "vertical_scaling"%string) then body_or_nil (un_vertical body) BVerticalScaling
  else if decide (taskType = "apply_rule"%string) then body_or_nil (un_rule body) BApplyRulePtr
  else if decide (taskType = "apply_plugin_config"%string) then
    body_or_nil (un_plugin body) BApplyPluginConfigPtr
  else if decide (taskType = "service_gc"%string) then body_or_nil (un_gc body) BServiceGC
  else if decide (taskType = "delete_tenant"%string) then
    body_or_nil (un_delete_tenant body) BDeleteTenantPtr
  else if decide (taskType = "refreshhpa"%string) then body_or_nil (un_refresh body) BRefreshHPAPtr
  else BDefault.

(** It never fails; a time that cannot be read is the zero time. *)
Definition TransTask (task : TaskMessage) : Task :=
  mkTask (tm_TaskType task) (NewTaskBody (tm_TaskType task) (tm_TaskBody task))
    (tm_CreateTime task) (tm_User task).
End decode.

Definition no_start : StartTaskBody := mkStart "" "" "" "" ∅ [].

(** The zero body of a type. *)
Definition CreateTaskBody (taskType : string) : TaskBody :=
  if decide (taskType = "start"%string) then BStart no_start
  else if decide (taskType = "stop"%string) then BStop (mkStop "" "" "" "" ∅)
  else if decide (taskType = "restart"%string) then BRestart (mkRestart "" "" "" "" [] ∅)
  else if decide (taskType = "rolling_upgrade"%string) then BRollingUpgrade (mkRolling "" "" "" "" [] ∅)
  else if decide (taskType = "rollback"%string) then BRollBack (mkRollBack "" "" "" "" "" [])
  else if decide (taskType = "group_start"%string) then BGroupStart (mkGroupStart [] [] [])
  else if decide (taskType = "group_stop"%string) then BGroupStop (mkGroupStop [] [] [])
  else if decide (taskType = "horizontal_scaling"%string) then BHorizontalScaling (mkHorizontal "" "" 0 "" "")
  else if decide (taskType = "vertical_scaling"%string) then BVerticalScaling (mkVertical "" "" 0 0 "")
  else if decide (taskType = "apply_plugin_config"%string) then BApplyPluginConfig (mkPluginConfig "" "" "" "")
  else if decide (taskType = "delete_tenant"%string) then BDeleteTenant (mkDeleteTenant "")
  else if decide (taskType = "refreshhpa"%string) then BRefreshHPA (mkRefreshHPA "" "" "")
  else BDefault.
