(* ===== verification/Gc.v ===== *)
(** * Removing what a deleted component left behind

    [worker/gc/gc.go] and the file names of [eventlog/util/filepath.go]. *)
From stdpp Require Import pretty.
From S2P Require Import Prelude Kube Task.

(** ** [path.Join] *)

Fixpoint split_slash (s : string) : list string :=
  match s with
  | EmptyString => [""%string]
  | String c s' =>
    if decide (Ascii.nat_of_ascii c = 47) then ""%string :: split_slash s'
    else match split_slash s' with
         | [] => [String c ""]
         | w :: ws => String c w :: ws
         end
  end.

(** [path.Clean] of a rooted path, on its elements: [done] in reverse. *)
Fixpoint clean_elems (l done : list string) : list string :=
  match l with
  | [] => reverse done
  | w :: l' =>
    if decide (w = "" ∨ w = ".")%string then clean_elems l' done
    else if decide (w = "..")%string then clean_elems l' (tail done)
    else clean_elems l' (w :: done)
  end.

(** The elements of [path.Join(prefix, elem)] where [prefix] is rooted. *)
Definition Join (prefix : list string) (elem : string) : list string :=
  clean_elems (split_slash elem) (reverse prefix).

(** ** The calls *)

Inductive gc_call :=
  | RemoveAll (path : list string)
  | DeleteCollection (collection namespace : string) (selector : gmap string string)
  | DeleteService (namespace name : string).

Section gc.
(** The hexadecimal SHA-224 digest. *)
Context (sha224 : string → string).
(** The services of a namespace that match a selector, or an error. *)
Context (list_services : string → gmap string string → option (list string)).

Definition getServiceAliasID (ServiceID : string) : string :=
  let at_ i := Z.of_nat (default 0 (Ascii.nat_of_ascii <$> String.get i ServiceID)) in
  if decide (11 < String.length ServiceID) then
    let newWord := (pretty (at_ 10%nat) +:+ ServiceID +:+ pretty (at_ 3%nat) +:+ "log" +:+
                    pretty (Z.div (at_ 2%nat) 7%Z))%string in
    String.substring 0 16 (sha224 newWord)
  else ServiceID.

Definition DockerLogFilePath (homepath : list string) (key : string) : list string :=
  Join homepath (getServiceAliasID key).

Definition EventLogFilePath (homePath : list string) : list string := Join homePath "eventlog".

Definition EventLogFileName (filePath : list string) (key : string) : list string :=
  Join filePath (key +:+ ".log").

Definition listOptionsServiceID (serviceID : string) : gmap string string :=
  <["creator"%string := "Kato"%string]> {["service_id"%string := serviceID]}.

Definition DelLogFile (req : ServiceGCTaskBody) : list gc_call :=
  let logPath := ["grdata"; "logs"]%string in
  RemoveAll (DockerLogFilePath logPath (gc_ServiceID req)) ::
  map (λ eventID, RemoveAll (EventLogFileName (EventLogFilePath logPath) eventID)) (gc_EventIDs req).

Definition DelVolumeData (req : ServiceGCTaskBody) : list gc_call :=
  [RemoveAll (Join ["grdata"%string]
     ("tenant/" +:+ gc_TenantID req +:+ "/service/" +:+ gc_ServiceID req))].

Definition DelPvPvcByServiceID (req : ServiceGCTaskBody) : list gc_call :=
  let listOpts := listOptionsServiceID (gc_ServiceID req) in
  [DeleteCollection "persistentvolumes" "" listOpts;
   DeleteCollection "persistentvolumeclaims" (gc_TenantID req) listOpts].

(** Errors are logged, so every call is made whatever the others return. *)
Definition DelKubernetesObjects (req : ServiceGCTaskBody) : list gc_call :=
  let ns := gc_TenantID req in
  let listOpts := listOptionsServiceID (gc_ServiceID req) in
  map (λ c, DeleteCollection c ns listOpts)
    ["deployments"; "statefulsets"; "ingresses"; "secrets"; "configmaps"; "horizontalpodautoscalers"]%string ++
  match list_services ns listOpts with
  | Some names => map (DeleteService ns) names
  | None => []
  end ++
  [DeleteCollection "endpoints" ns listOpts].

(** [ExecServiceGCTask], after the type assertion. *)
Definition service_gc (req : ServiceGCTaskBody) : list gc_call :=
  DelLogFile req ++ DelPvPvcByServiceID req ++ DelVolumeData req ++ DelKubernetesObjects req.
End gc.

(** ** Paths *)

Fixpoint no_slash (s : string) : Prop :=
  match s with
  | EmptyString => True
  | String c s' => Ascii.nat_of_ascii c ≠ 47 ∧ no_slash s'
  end.

(** A name that stands for itself as an element of a path. *)
Definition plain (s : string) : Prop := no_slash s ∧ s ≠ ""%string ∧ s ≠ "."%string ∧ s ≠ ".."%string.

Lemma split_slash_plain s : no_slash s → split_slash s = [s].
Proof.
  induction s as [|c s IH]; [done|]. intros [Hc Hs]. cbn [split_slash].
  by rewrite decide_False, IH by done.
Qed.

Lemma split_slash_app s r : no_slash s → split_slash (s +:+ "/" +:+ r) = s :: split_slash r.
Proof.
  induction s as [|c s IH]; [done|]. intros [Hc Hs].
  change (String c s +:+ "/" +:+ r)%string with (String c (s +:+ "/" +:+ r)%string).
  cbn [split_slash]. by rewrite decide_False, IH by done.
Qed.

Lemma clean_elems_plain l acc : Forall plain l → clean_elems l acc = reverse acc ++ l.
Proof.
  intros Hl. revert acc. induction Hl as [|w l (_ & ? & ? & ?) _ IH]; intros acc; simpl.
  { by rewrite app_nil_r. }
  rewrite decide_False by naive_solver. rewrite decide_False by done.
  by rewrite IH, reverse_cons, <- app_assoc.
Qed.

Lemma Join_plain prefix s : plain s → Join prefix s = prefix ++ [s].
Proof.
  intros Hs. unfold Join. rewrite split_slash_plain by apply Hs.
  rewrite clean_elems_plain by (by apply Forall_singleton). by rewrite reverse_involutive.
Qed.

Lemma no_slash_app a b : no_slash a → no_slash b → no_slash (a +:+ b).
Proof.
  induction a as [|c a IH]; [done|]. intros [? ?] ?.
  change (String c a +:+ b)%string with (String c (a +:+ b)%string). split; [done|]. by apply IH.
Qed.

Lemma plain_log e : no_slash e → plain (e +:+ ".log").
Proof.
  intros He. split; [by apply no_slash_app; [|repeat split; vm_compute; lia]|].
  destruct e as [|c [|d [|? ?]]]; split_and!; discriminate.
Qed.

Definition volume_dir (t s : string) : list string := ["grdata"; "tenant"; t; "service"; s]%string.

Lemma volume_path t s : plain t → no_slash s →
  Join ["grdata"%string] ("tenant/" +:+ t +:+ "/service/" +:+ s) =
    clean_elems [s] (reverse ["grdata"; "tenant"; t; "service"]%string).
Proof.
  intros Ht Hs. unfold Join.
  assert (split_slash ("tenant/" +:+ t +:+ "/service/" +:+ s) = ["tenant"; t; "service"; s]%string) as ->.
  { change ("tenant/" +:+ t +:+ "/service/" +:+ s)%string with
      ("tenant" +:+ "/" +:+ (t +:+ "/" +:+ ("service" +:+ "/" +:+ s)))%string.
    rewrite split_slash_app by (repeat split; vm_compute; lia).
    rewrite split_slash_app by apply Ht.
    rewrite split_slash_app by (repeat split; vm_compute; lia). by rewrite split_slash_plain. }
  destruct Ht as (_ & ? & ? & ?). simpl. rewrite decide_False by naive_solver. by rewrite decide_False.
Qed.

Example gc_volume_path :
  DelVolumeData (mkServiceGC "t" "s" []) = [RemoveAll ["grdata"; "tenant"; "t"; "service"; "s"]%string].
Proof. reflexivity. Qed.

Section gc_spec.
Context (sha224 : string → string) (list_services : string → gmap string string → option (list string)).
(** A digest is written in hexadecimal and longer than 16 digits. *)
Context (Hsha : ∀ w, plain (String.substring 0 16 (sha224 w))).

Lemma alias_plain s : plain s → plain (getServiceAliasID sha224 s).
Proof. intros Hs. unfold getServiceAliasID. case_decide; [apply Hsha|done]. Qed.

Lemma log_file_path e : no_slash e →
  EventLogFileName (EventLogFilePath ["grdata"; "logs"]%string) e =
    ["grdata"; "logs"; "eventlog"; e +:+ ".log"]%string.
Proof. intros He. unfold EventLogFileName. by rewrite Join_plain by (by apply plain_log). Qed.

(** What a collection may touch: one directory, the objects of one service. *)
Definition confined (req : ServiceGCTaskBody) (c : gc_call) : Prop :=
  match c with
  | RemoveAll p =>
    p = volume_dir (gc_TenantID req) (gc_ServiceID req) ∨
    p = ["grdata"; "logs"; getServiceAliasID sha224 (gc_ServiceID req)]%string ∨
    ∃ e, e ∈ gc_EventIDs req ∧ p = ["grdata"; "logs"; "eventlog"; e +:+ ".log"]%string
  | DeleteCollection k ns sel =>
    sel !! "service_id"%string = Some (gc_ServiceID req) ∧ sel !! "creator"%string = Some "Kato"%string ∧
    (ns = gc_TenantID req ∨ k = "persistentvolumes"%string ∧ ns = ""%string)
  | DeleteService ns n =>
    ns = gc_TenantID req ∧
    ∃ names, list_services ns (listOptionsServiceID (gc_ServiceID req)) = Some names ∧ n ∈ names
  end.

(** Collecting a service whose ids are proper names removes its
    own volume directory, its own log directory and the logs of the named events, and deletes
    cluster objects only by its label, in its tenant's namespace (volumes, which
    have none, by the label alone); two services never share or nest their
    directories.  A request without a service id, which decoding allows,
    removes the directory that holds the volumes of all services of the
    tenant, and the directory that holds all logs. *)
Theorem gc_confined (req : ServiceGCTaskBody)
    (Ht : plain (gc_TenantID req)) (He : Forall no_slash (gc_EventIDs req)) :
  (plain (gc_ServiceID req) → Forall (confined req) (service_gc sha224 list_services req) ∧
    ∀ t s, (t, s) ≠ (gc_TenantID req, gc_ServiceID req) →
      ¬ volume_dir (gc_TenantID req) (gc_ServiceID req) `prefix_of` volume_dir t s) ∧
  (gc_ServiceID req = ""%string →
    RemoveAll ["grdata"; "logs"]%string ∈ service_gc sha224 list_services req ∧
    ∃ p, RemoveAll p ∈ service_gc sha224 list_services req ∧
      ∀ s, p `prefix_of` volume_dir (gc_TenantID req) s).
Proof.
  unfold service_gc, DelLogFile, DelVolumeData. split.
  - intros Hs. split.
    + rewrite volume_path by (done || apply Hs). rewrite clean_elems_plain by (by apply Forall_singleton).
      rewrite !Forall_app. split_and!.
      * apply Forall_cons. split.
        { simpl. right; left. unfold DockerLogFilePath. by rewrite Join_plain by (by apply alias_plain). }
        rewrite Forall_fmap. apply Forall_forall. intros e Hin. rewrite Forall_forall in He.
        simpl. right; right. exists e. by rewrite log_file_path by auto.
      * repeat (apply Forall_cons; split; [simpl; auto|]). constructor.
      * apply Forall_singleton. by left.
      * unfold DelKubernetesObjects. rewrite !Forall_app. split_and!.
        -- repeat (apply Forall_cons; split; [simpl; auto|]). constructor.
        -- destruct (list_services _ _) as [names|] eqn:E; [|constructor].
           rewrite Forall_fmap. apply Forall_forall. intros n Hn. simpl. eauto.
        -- repeat (apply Forall_cons; split; [simpl; auto|]). constructor.
    + intros t s Hne (l & Hl). unfold volume_dir in Hl. simpl in Hl. congruence.
  - intros Hs. rewrite Hs. split; [set_solver|]. rewrite volume_path by done. simpl.
    rewrite reverse_involutive. exists ["grdata"; "tenant"; gc_TenantID req; "service"]%string.
    split; [set_solver|]. intros s. by exists [s].
Qed.
End gc_spec.

Lemma gc_confined_witness :
  let sha := λ _ : string, "0123456789abcdef0123456789abcdef"%string in
  let req := mkServiceGC "tenant" "svc" ["e1"] in
  Forall (confined sha (λ _ _, Some ["svc-80"%string]) req) (service_gc sha (λ _ _, Some ["svc-80"%string]) req).
Proof.
  refine (proj1 (proj1 (gc_confined _ _ _ _ _ _) _)).
  - intros w. change (plain "0123456789abcdef"). repeat split; vm_compute; (lia || discriminate).
  - repeat split; vm_compute; (lia || discriminate).
  - apply Forall_singleton. repeat split; vm_compute; lia.
  - repeat split; vm_compute; (lia || discriminate).
Defined.
