(* ===== verification/Conversion.v ===== *)
(** * Building a component from the database

    [worker/appm/conversion]: the list of conversions and its two drivers
    ([conversion.go]), the base conversions ([service.go]), the secrets of
    configuration groups ([configgroup.go]) and the autoscalers
    ([autoscaler.go]).  The drivers take the list of conversions as
    a parameter: those of [version.go], [plugin.go], [gateway.go] and
    [monitor.go] are in [Version], [Plugin], [Gateway] and [Monitor]. *)
From S2P Require Import Prelude Kube AppService Store.

(** ** Rows *)

(** [model.TenantServices], with the columns the worker reads. *)
Record TenantServices := mkTenantServices {
  ts_TenantID : string;
  ts_ServiceID : string;
  ts_ServiceAlias : string;
  ts_ServiceName : string;
  ts_ContainerCPU : Z;
  ts_ContainerMemory : Z;
  ts_UpgradeMethod : string;
  ts_ExtendMethod : string;
  ts_Replicas : Z;
  ts_DeployVersion : string;
  ts_Kind : string;
  ts_AppID : string
}.

Definition ServiceKindThirdParty : string := "third_party".

(** [ServiceType.IsState] and [TenantServices.IsState]; an empty method is neither of the two. *)
Definition IsState (t : TenantServices) : bool :=
  bool_decide (ts_ExtendMethod t = "state_multiple"%string ∨ ts_ExtendMethod t = "state_singleton"%string).

Record Tenants := mkTenants { tn_Name : string; tn_UUID : string }.

Record TenantServiceSource := mkSource { ss_SourceType : string; ss_SourceBody : string }.

Record TenantServiceAutoscalerRules := mkRule {
  ar_RuleID : string; ar_MinReplicas : Z; ar_MaxReplicas : Z }.

Record TenantServiceAutoscalerRuleMetrics := mkMetric {
  am_MetricsType : string; am_MetricsName : string; am_MetricTargetType : string;
  am_MetricTargetValue : Z }.

(** The queries.  [gorm.ErrRecordNotFound] is [ERecordNotFound]; an
    application that is not found reads as none. *)
Record ConversionDB := mkConversionDB {
  cd_GetByServiceID : string → error + option string;
  cd_GetServiceByID : string → error + TenantServices;
  cd_GetTenantByUUID : string → error + Tenants;
  cd_GetServiceSource : string → error + list TenantServiceSource;
  cd_windows_label : string → bool;
  cd_config_groups : string → error + list (string * string);
  cd_config_items : string → string → error + list (string * string);
  cd_autoscaler_rules : string → error + list TenantServiceAutoscalerRules;
  cd_autoscaler_metrics : string → error + list TenantServiceAutoscalerRuleMetrics
}.

(** ** Labels ([types/v1/labels.go]) *)

(** [resultLabel[k] = v] for each map in turn, then the common ones. *)
Definition GetCommonLabels (labels : list (gmap string string)) (a : AppService) : gmap string string :=
  let resultLabel := foldl (λ m l, l ∪ m) ∅ labels in
  <["app_id"%string := b_AppID (base a)]>
  (<["tenant_id"%string := TenantID a]>
  (<["tenant_name"%string := b_TenantName (base a)]>
  (<["service_alias"%string := ServiceAlias a]>
  (<["service_id"%string := ServiceID a]>
  (<["creater_id"%string := b_CreaterID (base a)]>
  (<["creator"%string := "Kato"%string]> resultLabel)))))).

(** ** The base of a component ([service.go]) *)

Definition zero_meta : ObjectMeta := mkMeta "" "" "" "" ∅ ∅ 0 None None "".
Definition zero_workload : Workload := mkWorkload zero_meta None (mkTemplate ∅ [] [] "" ∅ zero_podspec) 0 ∅ "" "" [] "".

Definition int32Ptr (i : Z) : option Z := Some (int32 i).

Definition Conversion := AppService → result AppService.

Definition initTenant (tenant : Tenants) (a : AppService) : result AppService :=
  if decide (tn_UUID tenant = ""%string) then Err (EMsg "tenant is invalid")
  else Ok (SetTenant (Some (mkPlain (zero_meta <| m_Name := tn_UUID tenant |>
             <| m_Labels := {["creator"%string := "Kato"%string]} |>) "")) a).

Definition initSelector (service : TenantServices) (m : gmap string string) : gmap string string :=
  <["service_id"%string := ts_ServiceID service]>
  (<["tenant_id"%string := ts_TenantID service]>
  (<["name"%string := ts_ServiceAlias service]> m)).

Definition OnDeleteMethod : string := "OnDelete".

Definition workload_labels (service : TenantServices) (labels : gmap string string) (a : AppService) :
    gmap string string :=
  GetCommonLabels [labels; <["name"%string := ts_ServiceAlias service]>
                             {["version"%string := ts_DeployVersion service]}] a.

Definition initBaseStatefulSet (service : TenantServices) (a : AppService) : result AppService :=
  let a := a <| base ::= λ b, b <| b_ServiceType := "statefulset"%string |> |> in
  let stateful := default zero_workload (GetStatefulSet a) in
  let name := if decide (ts_ServiceName service = ""%string) then ts_ServiceAlias service
              else ts_ServiceName service in
  let labels := workload_labels service (m_Labels (wl_meta stateful)) a in
  let stateful := stateful
    <| wl_Replicas := int32Ptr (ts_Replicas service) |>
    <| wl_Selector ::= initSelector service |>
    <| wl_ServiceName := name |>
    <| wl_meta ::= λ m, m <| m_Name := name |> <| m_Namespace := ts_TenantID service |>
                          <| m_GenerateName := ts_ServiceAlias service |> <| m_Labels := labels |> |>
    <| wl_Strategy := if decide (b_UpgradeMethod (base a) = OnDeleteMethod) then OnDeleteMethod
                      else "RollingUpdate"%string |> in
  SetStatefulSet stateful a.

(** [strings.Replace(s, "_", "-", -1)] *)
Fixpoint dashes (s : string) : string :=
  match s with
  | EmptyString => EmptyString
  | String c s' =>
    String (if decide (Ascii.nat_of_ascii c = 95) then Ascii.ascii_of_nat 45 else c) (dashes s')
  end.

Definition initBaseDeployment (service : TenantServices) (a : AppService) : result AppService :=
  let a := a <| base ::= λ b, b <| b_ServiceType := "deployment"%string |> |> in
  let d := default zero_workload (GetDeployment a) in
  let labels := workload_labels service (m_Labels (wl_meta d)) a in
  let d := d
    <| wl_Replicas := int32Ptr (ts_Replicas service) |>
    <| wl_Selector ::= initSelector service |>
    <| wl_meta ::= λ m, m <| m_Name := (ts_ServiceID service +:+ "-deployment")%string |>
                          <| m_Namespace := ts_TenantID service |>
                          <| m_GenerateName := dashes (ts_ServiceAlias service) |> <| m_Labels := labels |> |>
    <| wl_Strategy := if decide (b_UpgradeMethod (base a) = OnDeleteMethod) then "Recreate"%string
                      else "RollingUpdate"%string |> in
  SetDeployment d a.

Section conversion.
Context (db : ConversionDB).
(** The YAML decoder, for each type it is used at. *)
Context (decode_workload : string → error + Workload) (decode_configmap : string → error + ConfigMap).
(** [util.NewTimeVersion] *)
Context (NewTimeVersion : string).

Definition decode_error (e : error) : error := EWrap "decode service source failure" e.

Definition add_source (ssc : TenantServiceSource) (a : AppService) : result AppService :=
  if decide (ss_SourceType ssc = "deployment"%string) then
    match decode_workload (ss_SourceBody ssc) with
    | inl e => Err (decode_error e)
    | inr dm => SetDeployment dm a
    end
  else if decide (ss_SourceType ssc = "statefulset"%string) then
    match decode_workload (ss_SourceBody ssc) with
    | inl e => Err (decode_error e)
    | inr ss => SetStatefulSet ss a
    end
  else if decide (ss_SourceType ssc = "configmap"%string) then
    match decode_configmap (ss_SourceBody ssc) with
    | inl e => Err (decode_error e)
    | inr cm => Ok (SetConfigMap cm a)
    end
  else Ok a.

Fixpoint add_sources (sscs : list TenantServiceSource) (a : AppService) : result AppService :=
  match sscs with
  | [] => Ok a
  | ssc :: sscs' => then_do (add_source ssc a) (add_sources sscs')
  end.

Definition ServiceSource : Conversion := λ a,
  match cd_GetServiceSource db (ServiceID a) with
  | inl e =>
    if decide (e = ERecordNotFound) then Ok a else Err (EWrap "conv service source failure" e)
  | inr sscs => add_sources sscs a
  end.

(** The assignments of [TenantServiceBase] before the tenant is set. *)
Definition base_of (ts : TenantServices) (tenant : Tenants) (b : AppServiceBase) : AppServiceBase :=
  b <| b_ServiceKind := ts_Kind ts |>
    <| b_TenantID := ts_TenantID ts |>
    <| b_DeployVersion ::= λ v, if decide (v = ""%string) then ts_DeployVersion ts else v |>
    <| b_ContainerCPU := ts_ContainerCPU ts |>
    <| b_AppID := ts_AppID ts |>
    <| b_ContainerMemory := ts_ContainerMemory ts |>
    <| b_Replicas := ts_Replicas ts |>
    <| b_ServiceAlias := ts_ServiceAlias ts |>
    <| b_UpgradeMethod := ts_UpgradeMethod ts |>
    <| b_CreaterID ::= λ c, if decide (c = ""%string) then NewTimeVersion else c |>
    <| b_TenantName := tn_Name tenant |>.

Definition TenantServiceBase : Conversion := λ a,
  match cd_GetServiceByID db (ServiceID a) with
  | inl e =>
    if decide (e = ERecordNotFound) then Err EServiceNotFound
    else Err (EWrap "error getting service base info by serviceID" e)
  | inr tenantService =>
    match cd_GetTenantByUUID db (ts_TenantID tenantService) with
    | inl e => Err (EWrap "get tenant info failure" e)
    | inr tenant =>
      let a := a <| base ::= base_of tenantService tenant |> in
      match initTenant tenant a with
      | Err e => Err (EWrap "conversion tenant info failure" e)
      | Panic => Panic
      | Ok a =>
        if decide (ts_Kind tenantService = ServiceKindThirdParty) then Ok a else
        let a := if cd_windows_label db (ServiceID a)
                 then a <| base ::= λ b, b <| b_IsWindowsService := true |> |> else a in
        if negb (IsState tenantService) then initBaseDeployment tenantService a
        else initBaseStatefulSet tenantService a
      end
    end
  end.

(** ** Secrets of configuration groups ([configgroup.go]) *)

(** [Data] is a map: a repeated key keeps its last value.  [secret_rest] is the rest of an
    opaque secret, by its data. *)
Context (secret_rest : gmap string string → opaque).

Definition secretForConfigGroup (group : string * string) (a : AppService) : error + Secret :=
  match cd_config_items db group.1 group.2 with
  | inl e => inl e
  | inr items =>
    let labels := delete "service_alias"%string (delete "service_id"%string (GetCommonLabels [] a)) in
    let data := foldl (λ m kv, <[kv.1 := kv.2]> m) ∅ items in
    inr (mkPlain (zero_meta <| m_Name := (group.2 +:+ "-" +:+ group.1)%string |>
      <| m_Namespace := TenantID a |> <| m_Labels := labels |>) (secret_rest data))
  end.

Fixpoint group_secrets (groups : list (string * string)) (a : AppService) : error + list Secret :=
  match groups with
  | [] => inr []
  | g :: groups' =>
    match secretForConfigGroup g a with
    | inl e => inl e
    | inr s =>
      match group_secrets groups' a with
      | inl e => inl e
      | inr l => inr (s :: l)
      end
    end
  end.

Definition TenantServiceConfigGroup : Conversion := λ a,
  match cd_config_groups db (ServiceID a) with
  | inl e => Err (EWrap "[TenantServiceConfigGroup] list config groups:" e)
  | inr groups =>
    match group_secrets groups a with
    | inl e => Err (EWrap "create secret for config group:" e)
    | inr secrets => Ok (SetEnvVarSecrets secrets a)
    end
  end.

(** ** The drivers ([conversion.go]) *)

(** The conversions that are not modelled here. *)
Context (TenantServiceVersion TenantServicePlugin TenantServiceRegist TenantServiceAutoscaler
  TenantServiceMonitor : Conversion).

(** What [init] registers, in that order. *)
Definition conversionList : list (string * Conversion) := [
  ("ServiceSource", ServiceSource);
  ("TenantServiceBase", TenantServiceBase);
  ("TenantServiceConfigGroup", TenantServiceConfigGroup);
  ("TenantServiceVersion", TenantServiceVersion);
  ("TenantServicePlugin", TenantServicePlugin);
  ("TenantServiceRegist", TenantServiceRegist);
  ("TenantServiceAutoscaler", TenantServiceAutoscaler);
  ("TenantServiceMonitor", TenantServiceMonitor)]%string.

Definition StringArrayContains (list : list string) (source : string) : bool :=
  existsb (λ l, bool_decide (l = source)) list.

Fixpoint run_conversions (enabled : list string) (l : list (string * Conversion)) (a : AppService) :
    result AppService :=
  match l with
  | [] => Ok a
  | (name, c) :: l' =>
    if bool_decide (enabled = []) || StringArrayContains enabled name
    then then_do (c a) (run_conversions enabled l')
    else run_conversions enabled l' a
  end.

Definition GovernanceModeBuildInServiceMesh : string := "BUILD_IN_SERVICE_MESH".

(** The component both drivers start from, and its governance mode. *)
Definition init_component (serviceID creatorID : string) (configs : gmap string string) :
    result AppService :=
  let b := mkBase "" "" "" serviceID "" "" "" "" 0 0 "" 0 false false creatorID [] configs
    GovernanceModeBuildInServiceMesh in
  match cd_GetByServiceID db serviceID with
  | inl _ => Err (EMsg "get app based on service id")
  | inr None => Ok (empty_app b)
  | inr (Some mode) => Ok (empty_app (b <| b_GovernanceMode := mode |>))
  end.

Definition InitAppService (serviceID : string) (configs : gmap string string) (enabled : list string) :
    result AppService :=
  then_do (init_component serviceID "" configs) (run_conversions enabled conversionList).

Definition InitCacheAppService (serviceID creatorID : string) : result AppService :=
  then_do (init_component serviceID creatorID ∅) (λ a,
  then_do (TenantServiceBase a) (λ a,
    match cd_GetServiceByID db serviceID with
    | inl e => Err e
    | inr svc =>
      if decide (ts_Kind svc = ServiceKindThirdParty) then TenantServiceRegist a else Ok a
    end)).
End conversion.

(** ** Autoscalers ([autoscaler.go]) *)

(** A metric with its target: nothing set, a percentage, or a quantity in milli-units
    or bytes. *)
Inductive MetricTarget :=
  | NoTarget
  | UtilizationTarget (averageUtilization : Z)
  | AverageValueTarget (value : option Z).

Record MetricSpec := mkMetricSpec { ms_Name : string; ms_Target : MetricTarget }.

Record HorizontalPodAutoscaler := mkHPA {
  hpa_Name : string; hpa_Namespace : string; hpa_Labels : gmap string string;
  hpa_MinReplicas : Z; hpa_MaxReplicas : Z; hpa_TargetKind : string; hpa_TargetName : string;
  hpa_Metrics : list MetricSpec }.

(** An unknown name reads as the empty resource name. *)
Definition str2ResourceName (s : string) : string :=
  if decide (s = "cpu" ∨ s = "memory")%string then s else "".

Definition createResourceMetrics (m : TenantServiceAutoscalerRuleMetrics) : MetricSpec :=
  let target :=
    if decide (am_MetricTargetType m = "utilization"%string) then
      UtilizationTarget (int32 (am_MetricTargetValue m))
    else if decide (am_MetricTargetType m = "average_value"%string) then
      AverageValueTarget
        (if decide (am_MetricsName m = "cpu"%string) then Some (int64 (am_MetricTargetValue m))
         else if decide (am_MetricsName m = "memory"%string)
         then Some (int64 (am_MetricTargetValue m * 1024 * 1024))
         else None)
    else NoTarget in
  mkMetricSpec (str2ResourceName (am_MetricsName m)) target.

(** A metric the loop does not skip. *)
Definition usable (m : TenantServiceAutoscalerRuleMetrics) : bool :=
  bool_decide (am_MetricsType m = "resource_metrics"%string) && bool_decide (0 < am_MetricTargetValue m)%Z.

(** The result is nil when no metric is left. *)
Definition newHPA (namespace kind name : string) (labels : gmap string string)
    (rule : TenantServiceAutoscalerRules) (metrics : list TenantServiceAutoscalerRuleMetrics) :
    option HorizontalPodAutoscaler :=
  let ms := map createResourceMetrics (filter (λ m, usable m = true) metrics) in
  if decide (ms = []) then None
  else Some (mkHPA (ar_RuleID rule) namespace labels (int32 (ar_MinReplicas rule))
               (int32 (ar_MaxReplicas rule)) kind name ms).

(** [as.GetDeployment().GetName()] dereferences a nil deployment. *)
Definition scale_target (a : AppService) : option (string * string) :=
  match GetStatefulSet a, GetDeployment a with
  | Some s, _ => Some ("StatefulSet"%string, wl_name s)
  | None, Some d => Some ("Deployment"%string, wl_name d)
  | None, None => None
  end.

Fixpoint hpas_of (db : ConversionDB) (a : AppService) (rules : list TenantServiceAutoscalerRules) :
    result (list (option HorizontalPodAutoscaler)) :=
  match rules with
  | [] => Ok []
  | rule :: rules' =>
    match cd_autoscaler_metrics db (ar_RuleID rule) with
    | inl e => Err e
    | inr metrics =>
      match scale_target a with
      | None => Panic
      | Some (kind, name) =>
        let labels := GetCommonLabels [<["rule_id"%string := ar_RuleID rule]>
                                         {["version"%string := DeployVersion a]}] a in
        then_do (hpas_of db a rules') (λ l,
          Ok (newHPA (TenantID a) kind name labels rule metrics :: l))
      end
    end
  end.

Definition newHPAs (db : ConversionDB) (a : AppService) : result (list (option HorizontalPodAutoscaler)) :=
  match cd_autoscaler_rules db (ServiceID a) with
  | inl e => Err e
  | inr rules => hpas_of db a rules
  end.
