(* ===== verification/Gateway.v ===== *)
(** * The network of a component

    [worker/appm/conversion/gateway.go]: the services, ingresses and
    certificates that a component's ports and gateway rules ask for, and
    [TenantServiceRegist], the conversion that stores them in the component;
    [monitor.go]: the monitors of its ports.  Definitions first, then what
    they promise the drivers of [Conversion] and the theorems. *)
From S2P Require Import Prelude Kube AppService Store Ensure Conversion.
From stdpp Require Import pretty.

(** ** Strings *)

(** [strings.Split(s, ":")] cut at its first separator: the first field, and the rest if
    there is one. *)
Fixpoint cut_colon (s : string) : string * option string :=
  match s with
  | EmptyString => (""%string, None)
  | String c s' =>
    if decide (Ascii.nat_of_ascii c = 58) then (""%string, Some s')
    else let '(f, r) := cut_colon s' in (String c f, r)
  end.

Definition first_field (s : string) : string := (cut_colon s).1.
Definition second_field (s : string) : option string := first_field <$> (cut_colon s).2.

(** [strings.Replace(s, " ", "", -1)] *)
Fixpoint drop_spaces (s : string) : string :=
  match s with
  | EmptyString => EmptyString
  | String c s' => if decide (Ascii.nat_of_ascii c = 32) then drop_spaces s' else String c (drop_spaces s')
  end.

(** [strings.TrimSpace], of ASCII text. *)
Definition is_space (c : Ascii.ascii) : bool :=
  let n := Ascii.nat_of_ascii c in bool_decide (n = 32 ∨ 9 ≤ n ≤ 13).
Fixpoint trim_left (s : string) : string :=
  match s with
  | EmptyString => EmptyString
  | String c s' => if is_space c then trim_left s' else s
  end.
Fixpoint trim_right (s : string) : string :=
  match s with
  | EmptyString => EmptyString
  | String c s' =>
    let t := trim_right s' in
    if decide (t = ""%string) then (if is_space c then ""%string else String c "") else String c t
  end.
Definition TrimSpace (s : string) : string := trim_right (trim_left s).

(** [strings.ToLower] of a protocol name. *)
Definition lower_protocol (p : string) : string :=
  if decide (p = "UDP"%string) then "udp" else if decide (p = "SCTP"%string) then "sctp" else "tcp".

(** [conversionPortProtocol] in [common.go] *)
Definition conversionPortProtocol (protocol : string) : string :=
  if decide (protocol = "udp"%string) then "UDP"
  else if decide (protocol = "sctp"%string) then "SCTP"
  else "TCP".

(** ** Rows *)

Record TenantServicesPort := mkTenantPort {
  tp_ID : Z;
  tp_ServiceID : string;
  tp_ContainerPort : Z;
  tp_MappingPort : Z;
  tp_Protocol : string;
  tp_IsInnerService : option bool;
  tp_IsOuterService : option bool;
  tp_K8sServiceName : string
}.
#[export] Instance eta_TenantServicesPort : Eta TenantServicesPort := λ p,
  mkTenantPort (tp_ID p) (tp_ServiceID p) (tp_ContainerPort p) (tp_MappingPort p) (tp_Protocol p)
    (tp_IsInnerService p) (tp_IsOuterService p) (tp_K8sServiceName p).

Record TenantServicesStreamPluginPort := mkPluginPort { pp_ContainerPort : Z; pp_PluginPort : Z }.

Record HTTPRule := mkHTTPRule {
  hr_UUID : string; hr_Domain : string; hr_Path : string; hr_Header : string; hr_Cookie : string;
  hr_Weight : Z; hr_CertificateID : string }.
Record TCPRule := mkTCPRule { tr_UUID : string; tr_IP : string; tr_Port : Z }.
Record Certificate := mkCertificate { ct_Certificate : string; ct_PrivateKey : string }.

Record TenantServiceMonitorRow := mkMonitorRow {
  mr_Name : string; mr_ServiceShowName : string; mr_Port : Z; mr_Path : string; mr_Interval : string }.

(** The queries; a rule's extensions and configurations are key and value. *)
Record GatewayDB := mkGatewayDB {
  gd_ports : string → error + list TenantServicesPort;
  gd_check_plugin : string → string → error + bool;
  gd_plugin_ports : string → error + list TenantServicesStreamPluginPort;
  gd_http_rules : string → Z → error + list HTTPRule;
  gd_tcp_rules : string → Z → error + list TCPRule;
  gd_certificate : string → error + option Certificate;
  gd_extensions : string → error + list (string * string);
  gd_configs : string → error + list (string * string);
  gd_monitors : string → error + list TenantServiceMonitorRow
}.

Definition TypeStatefulSet : string := "statefulset".
Definition GovernanceModeKubernetesNativeService : string := "KUBERNETES_NATIVE_SERVICE".
Definition tolerate_unready : string := "infinitapps.cloud/tolerate-unready-endpoints".

(** [AppServiceBuild]; its event id is never set. *)
Record AppServiceBuild := mkBuild {
  ab_serviceID : string;
  ab_tenant : Tenants;
  ab_service : TenantServices;
  ab_appService : AppService;
  ab_replicationType : string
}.

Record K8sResources := mkResources {
  k8s_Services : list Service;
  k8s_Secrets : list (option Secret);
  k8s_Ingresses : list Ingress
}.

(** ** Services *)

Section services.
Context (a : AppServiceBuild).

Definition port_name (protocol : string) (port : Z) : string :=
  (lower_protocol protocol +:+ "-" +:+ pretty port)%string.

(** The selector is left out for a third-party component. *)
Definition alias_selector : gmap string string :=
  if decide (b_ServiceKind (base (ab_appService a)) = ServiceKindThirdParty) then ∅
  else {["name"%string := ts_ServiceAlias (ab_service a)]}.

Definition few_replicas : bool := bool_decide (ts_Replicas (ab_service a) ≤ 1)%Z.

Definition createServiceAnnotations : gmap string string :=
  if few_replicas then {[tolerate_unready := "true"%string]} else ∅.

Definition tolerant (labels : gmap string string) : gmap string string :=
  if few_replicas then <[tolerate_unready := "true"%string]> labels else labels.

Definition inner_name (port : TenantServicesPort) : string :=
  if decide (tp_K8sServiceName port = ""%string)
  then ("service-" +:+ pretty (tp_ID port) +:+ "-" +:+ pretty (tp_ContainerPort port))%string
  else tp_K8sServiceName port.

(** The mapping port, or the container port when there is none. *)
Definition service_port (port : TenantServicesPort) : Z :=
  let p := int32 (tp_MappingPort port) in
  if decide (p = 0)%Z then int32 (tp_ContainerPort port) else p.

Definition createInnerService (port : TenantServicesPort) : Service :=
  let labels := tolerant (GetCommonLabels [
    <["service_type"%string := "inner"%string]>
    (<["name"%string := (ts_ServiceAlias (ab_service a) +:+ "Service")%string]>
    (<["port_protocol"%string := tp_Protocol port]>
    (<["service_port"%string := pretty (tp_ContainerPort port)]>
    {["version"%string := ts_DeployVersion (ab_service a)]})))] (ab_appService a)) in
  let protocol := if decide (tp_Protocol port = "udp"%string) then "UDP"%string else "TCP"%string in
  mkService
    (zero_meta <| m_Name := inner_name port |> <| m_Namespace := ts_TenantID (ab_service a) |>
               <| m_Labels := labels |> <| m_Annotations := createServiceAnnotations |>)
    (mkServiceSpec
      [mkServicePort (port_name protocol (tp_ContainerPort port)) protocol (service_port port)
         (int32 (tp_ContainerPort port))]
      alias_selector "" "" false "").

Definition createKubernetesNativeService (port : TenantServicesPort) : Service :=
  let name := if decide (tp_K8sServiceName port = ""%string)
    then (ts_ServiceAlias (ab_service a) +:+ "-" +:+ pretty (tp_ContainerPort port))%string
    else tp_K8sServiceName port in
  (createInnerService port) <| svc_meta ::= λ m, m <| m_Name := name |> |>.

Definition outer_name (port : TenantServicesPort) : string :=
  ("service-" +:+ pretty (tp_ID port) +:+ "-" +:+ pretty (tp_ContainerPort port) +:+ "out")%string.

Definition createOuterService (port : TenantServicesPort) : Service :=
  let labels := tolerant (GetCommonLabels [
    <["service_type"%string := "outer"%string]>
    (<["name"%string := (ts_ServiceAlias (ab_service a) +:+ "ServiceOUT")%string]>
    (<["tenant_name"%string := tn_Name (ab_tenant a)]>
    (<["protocol"%string := tp_Protocol port]>
    (<["port_protocol"%string := tp_Protocol port]>
    (<["service_port"%string := pretty (tp_ContainerPort port)]>
    (<["event_id"%string := ""%string]>
    {["version"%string := ts_DeployVersion (ab_service a)]}))))))] (ab_appService a)) in
  let protocol := conversionPortProtocol (tp_Protocol port) in
  mkService
    (zero_meta <| m_Name := outer_name port |> <| m_Namespace := ts_TenantID (ab_service a) |>
               <| m_Labels := labels |>)
    (mkServiceSpec
      [mkServicePort (port_name protocol (tp_ContainerPort port)) protocol
         (int32 (tp_ContainerPort port)) (int32 (tp_ContainerPort port))]
      alias_selector "ClusterIP" "" false "").

Definition stateful_port (p : TenantServicesPort) : ServicePort :=
  mkServicePort (port_name "TCP" (tp_ContainerPort p)) "TCP" (service_port p)
    (int32 (tp_ContainerPort p)).

Definition createStatefulService (ports : list TenantServicesPort) : Service :=
  let name := if decide (ts_ServiceName (ab_service a) = ""%string)
    then ts_ServiceAlias (ab_service a) else ts_ServiceName (ab_service a) in
  let labels := GetCommonLabels [
    <["service_type"%string := "stateful"%string]>
    {["name"%string := (ts_ServiceAlias (ab_service a) +:+ "ServiceStateful")%string]}]
    (ab_appService a) in
  mkService
    (zero_meta <| m_Name := name |> <| m_Namespace := ts_TenantID (ab_service a) |>
       <| m_Labels := labels |>
       <| m_Annotations := {["service.alpha.kubernetes.io/tolerate-unready-endpoints"%string :=
                             "true"%string]} |>)
    (mkServiceSpec (stateful_port <$> ports) {["name"%string := ts_ServiceAlias (ab_service a)]}
      "" "None" true "").
End services.

(** ** Gateway rules *)

Section rules.
Context (gdb : GatewayDB).
(** The environment variable [EX_DOMAIN]. *)
Context (EX_DOMAIN : string).
(** The rest of an opaque secret, by its data. *)
Context (secret_rest : gmap string string → opaque).

(** [exDomain[0]] is out of range when nothing is left of the port. *)
Definition createDefaultDomain (tenantName serviceAlias : string) (servicePort : Z) : result string :=
  if decide (EX_DOMAIN = ""%string) then Ok ""%string else
  match first_field EX_DOMAIN with
  | EmptyString => Panic
  | String c rest =>
    let exDomain := if decide (Ascii.nat_of_ascii c = 46) then rest else String c rest in
    Ok (pretty servicePort +:+ "." +:+ serviceAlias +:+ "." +:+ tenantName +:+ "." +:+
        TrimSpace exDomain)%string
  end.

(** What one extension of a rule adds to the annotations. *)
Definition apply_extension (rule : HTTPRule) (annos : gmap string string) (ext : string * string) :
    gmap string string :=
  let '(key, value) := ext in
  if decide (key = "httptohttps"%string) then
    if decide (hr_CertificateID rule = ""%string) then annos
    else <[GetAnnotationWithPrefix "force-ssl-redirect" := "true"%string]> annos
  else if decide (key = "lb-type"%string) then
    if String.prefix "upstream-hash-by" value then
      match second_field value with
      | None => annos
      | Some v => <[GetAnnotationWithPrefix "upstream-hash-by" := v]> annos
      end
    else <[GetAnnotationWithPrefix "lb-type" := value]> annos
  else annos.

Definition set_if (b : bool) (key value : string) (annos : gmap string string) : gmap string string :=
  if b then <[GetAnnotationWithPrefix key := value]> annos else annos.

(** The annotations that come from the rule itself. *)
Definition rule_annotations (rule : HTTPRule) : gmap string string :=
  set_if (nonempty_string (hr_Cookie rule)) "cookie" (hr_Cookie rule)
  (set_if (nonempty_string (hr_Header rule)) "header" (hr_Header rule)
  (set_if (bool_decide (1 < hr_Weight rule)%Z) "weight" (pretty (hr_Weight rule)) ∅)).

Definition rule_secret (a : AppServiceBuild) (rule : HTTPRule) : result (option Secret) :=
  if decide (hr_CertificateID rule = ""%string) then Ok None else
  match gd_certificate gdb (hr_CertificateID rule) with
  | inl e => Err (EWrap "Cant not get certificate by id" e)
  | inr None => Err (EMsg "certificate not found")
  | inr (Some cert) =>
    if decide (TrimSpace (ct_Certificate cert) = "" ∨ TrimSpace (ct_PrivateKey cert) = "")%string
    then Err (EMsg "certificate not found")
    else Ok (Some (mkPlain
      (zero_meta <| m_Name := hr_UUID rule |> <| m_Namespace := tn_UUID (ab_tenant a) |>
                 <| m_Labels := GetCommonLabels [] (ab_appService a) |>)
      (secret_rest (<["tls.crt"%string := ct_Certificate cert]>
                      {["tls.key"%string := ct_PrivateKey cert]}))))
  end.

Definition applyHTTPRule (a : AppServiceBuild) (rule : HTTPRule) (containerPort pluginContainerPort : Z)
    (service : Service) : result (Ingress * option Secret) :=
  let path := drop_spaces (hr_Path rule) in
  let path := if decide (path = ""%string) then "/"%string else path in
  let domain := drop_spaces (hr_Domain rule) in
  then_do (if decide (domain = ""%string)
           then createDefaultDomain (tn_Name (ab_tenant a)) (ts_ServiceAlias (ab_service a)) containerPort
           else Ok domain) (λ domain,
  then_do (rule_secret a rule) (λ sec,
  match gd_extensions gdb (hr_UUID rule) with
  | inl e => Err e
  | inr exts =>
    let annos := foldl (apply_extension rule) (rule_annotations rule) exts in
    match gd_configs gdb (hr_UUID rule) with
    | inl e => Err e
    | inr configs =>
      let annos := foldl (λ m cfg, <[GetAnnotationWithPrefix cfg.1 := cfg.2]> m) annos configs in
      let backend := mkBackend (svc_name service) (int32 pluginContainerPort) in
      let tls := if sec is Some s then [mkTLS [domain] (pl_name s)] else [] in
      Ok (mkIngress
            (zero_meta <| m_Name := hr_UUID rule |> <| m_Namespace := tn_UUID (ab_tenant a) |>
               <| m_Labels := GetCommonLabels [] (ab_appService a) |> <| m_Annotations := annos |>)
            [mkIngressRule domain [(path, backend)]] tls None "", sec)
    end
  end)).

Definition applyTCPRule (a : AppServiceBuild) (rule : TCPRule) (service : Service) (namespace : string) :
    result Ingress :=
  match svc_Ports service with
  | [] => Panic
  | p :: _ =>
    let annos := <[GetAnnotationWithPrefix "l4-port" := pretty (tr_Port rule)]>
      (<[GetAnnotationWithPrefix "l4-host" := tr_IP rule]>
      {[GetAnnotationWithPrefix "l4-enable" := "true"%string]}) in
    Ok (mkIngress
          (zero_meta <| m_Name := tr_UUID rule |> <| m_Namespace := namespace |>
             <| m_Labels := GetCommonLabels [] (ab_appService a) |> <| m_Annotations := annos |>)
          [] [] (Some (mkBackend (svc_name service) (sp_Port p))) "")
  end.

(** Both loops of [ApplyRules]: a rule that fails is logged and skipped. *)
Fixpoint skip_failed {A B} (f : A → result B) (l : list A) : result (list B) :=
  match l with
  | [] => Ok []
  | x :: l' =>
    match f x with
    | Panic => Panic
    | Err _ => skip_failed f l'
    | Ok y => then_do (skip_failed f l') (λ ys, Ok (y :: ys))
    end
  end.

(** A failed query is logged and reads as no rules. *)
Definition rules_or_none {A} (r : error + list A) : list A := if r is inr l then l else [].

Definition ApplyRules (a : AppServiceBuild) (serviceID : string) (containerPort pluginContainerPort : Z)
    (service : Service) : result (list Ingress * list (option Secret)) :=
  then_do (skip_failed (λ rule, applyHTTPRule a rule containerPort pluginContainerPort service)
             (rules_or_none (gd_http_rules gdb serviceID containerPort))) (λ http,
  then_do (skip_failed (λ rule, applyTCPRule a rule service (tn_UUID (ab_tenant a)))
             (rules_or_none (gd_tcp_rules gdb serviceID containerPort))) (λ tcp,
  Ok (http.*1 ++ tcp, http.*2))).

(** ** Upstream plugins *)

(** [checkUpstreamPluginRelation] in [version.go] *)
Definition checkUpstreamPluginRelation (serviceID : string) : error + bool :=
  match gd_check_plugin gdb serviceID "net-plugin:up" with
  | inl e => inl e
  | inr true => inr true
  | inr false => gd_check_plugin gdb serviceID "net-plugin:in-and-out"
  end.

(** One plugin port against one port: the port moves behind the plugin, which remembers it. *)
Definition map_plugin_port (st : TenantServicesPort * gmap Z Z) (pport : TenantServicesStreamPluginPort) :
    TenantServicesPort * gmap Z Z :=
  let '(port, pp) := st in
  if decide (pp_ContainerPort pport = tp_ContainerPort port) then
    (port <| tp_ContainerPort := pp_PluginPort pport |> <| tp_MappingPort := pp_PluginPort pport |>,
     <[int32 (pp_PluginPort pport) := tp_ContainerPort port]> pp)
  else st.

Fixpoint CreateUpstreamPluginMappingPort (ports : list TenantServicesPort)
    (pluginPorts : list TenantServicesStreamPluginPort) (pp : gmap Z Z) :
    list TenantServicesPort * gmap Z Z :=
  match ports with
  | [] => ([], pp)
  | port :: ports' =>
    let '(port, pp) := foldl map_plugin_port (port, pp) pluginPorts in
    let '(ports', pp) := CreateUpstreamPluginMappingPort ports' pluginPorts pp in
    (port :: ports', pp)
  end.

Definition origin_port (pp : gmap Z Z) (p : Z) : Z := default 0%Z (pp !! p).

(** [service.Spec.Ports[0]] is out of range for a service without ports. *)
Fixpoint CreateUpstreamPluginMappingService (services : list Service) (pp : gmap Z Z) :
    result (list Service) :=
  match services with
  | [] => Ok []
  | service :: services' =>
    match svc_Ports service with
    | [] => Panic
    | p :: _ =>
      let service := service <| svc_meta ::= λ m,
        m <| m_Labels ::= <["origin_port"%string := pretty (origin_port pp (sp_Port p))]> |> |> in
      then_do (CreateUpstreamPluginMappingService services' pp) (λ l, Ok (service :: l))
    end
  end.

(** ** Building *)

(** What one port adds; [*port.IsInnerService] dereferences a nil flag. *)
Definition build_port (a : AppServiceBuild) (pp : gmap Z Z) (port : TenantServicesPort) :
    result K8sResources :=
  match tp_IsInnerService port with
  | None => Panic
  | Some is_inner =>
    let inner := if is_inner then
        [if decide (b_GovernanceMode (base (ab_appService a)) = GovernanceModeKubernetesNativeService)
         then createKubernetesNativeService a port else createInnerService a port]
      else [] in
    match tp_IsOuterService port with
    | None => Panic
    | Some false => Ok (mkResources inner [] [])
    | Some true =>
      let service := createOuterService a port in
      let relContainerPort := origin_port pp (int32 (tp_ContainerPort port)) in
      let relContainerPort := if decide (relContainerPort = 0)%Z then tp_ContainerPort port
                              else relContainerPort in
      then_do (ApplyRules a (tp_ServiceID port) relContainerPort (tp_ContainerPort port) service)
        (λ r, Ok (mkResources (inner ++ [service]) r.2 r.1))
    end
  end.

Fixpoint build_ports (a : AppServiceBuild) (pp : gmap Z Z) (ports : list TenantServicesPort) :
    result K8sResources :=
  match ports with
  | [] => Ok (mkResources [] [] [])
  | port :: ports' =>
    then_do (build_port a pp port) (λ r,
    then_do (build_ports a pp ports') (λ rs,
    Ok (mkResources (k8s_Services r ++ k8s_Services rs) (k8s_Secrets r ++ k8s_Secrets rs)
          (k8s_Ingresses r ++ k8s_Ingresses rs))))
  end.

(** The ports a build works on, and where the plugin took them from. *)
Definition mapped_ports (a : AppServiceBuild) : result (list TenantServicesPort * bool * gmap Z Z) :=
  match gd_ports gdb (ab_serviceID a) with
  | inl e => Err (EWrap "find service port from db error" e)
  | inr ports =>
    match checkUpstreamPluginRelation (ab_serviceID a) with
    | inl e => Err (EWrap "get service upstream plugin relation error" e)
    | inr false => Ok (ports, false, ∅)
    | inr true =>
      match gd_plugin_ports gdb (ab_serviceID a) with
      | inl e => Err (EWrap "find upstream plugin mapping port error" e)
      | inr pluginPorts =>
        let '(ports, pp) := CreateUpstreamPluginMappingPort ports pluginPorts ∅ in Ok (ports, true, pp)
      end
    end
  end.

Definition Build (a : AppServiceBuild) : result K8sResources :=
  then_do (mapped_ports a) (λ '(ports, crt, pp),
  then_do (build_ports a pp ports) (λ r,
  let services := k8s_Services r ++
    (if decide (ab_replicationType a = TypeStatefulSet) then [createStatefulService a ports] else []) in
  then_do (if crt : bool then CreateUpstreamPluginMappingService services pp else Ok services)
    (λ services, Ok (mkResources services (k8s_Secrets r) (k8s_Ingresses r))))).

Definition BuildOnPort (a : AppServiceBuild) (port : error + option TenantServicesPort) (isOut : bool) :
    result Service :=
  match port with
  | inl e => Err (EWrap "find service port from db error" e)
  | inr None => Err (EMsg "tenant service port is not exist")
  | inr (Some port) =>
    if isOut then
      match tp_IsOuterService port with
      | None => Panic
      | Some true => Ok (createOuterService a port)
      | Some false => Err (EMsg "tenant service port is not exist")
      end
    else
      match tp_IsInnerService port with
      | None => Panic
      | Some true => Ok (createInnerService a port)
      | Some false => Err (EMsg "tenant service port is not exist")
      end
  end.

(** ** The conversion *)

Context (db : ConversionDB).

Definition AppServiceBuilder (serviceID replicationType : string) (a : AppService) :
    result AppServiceBuild :=
  match cd_GetServiceByID db serviceID with
  | inl e => Err (EWrap "find service error." e)
  | inr service =>
    match cd_GetTenantByUUID db (ts_TenantID service) with
    | inl e => Err (EWrap "find tenant error." e)
    | inr tenant => Ok (mkBuild serviceID tenant service a replicationType)
    end
  end.

Definition regist (r : K8sResources) (a : AppService) : AppService :=
  let a := foldl (λ a s, SetService s a) a (k8s_Services r) in
  let a := foldl (λ a i, SetIngress i a) a (k8s_Ingresses r) in
  foldl (λ a s, SetSecret s a) a (k8s_Secrets r).

Definition TenantServiceRegist : Conversion := λ a,
  then_do (AppServiceBuilder (ServiceID a) (b_ServiceType (base a)) a) (λ builder,
  then_do (Build builder) (λ k8s, Ok (regist k8s a))).
End rules.
