(* ===== verification/Handle.v ===== *)
(** * Executing tasks

    [worker/handle/manager.go], the task handlers, and the receiving loop of
    [worker/discover/manager.go].  A handler runs over a world: the store (with
    the cluster), the registry of running controllers, the loggers the event
    manager keeps open, and the trace of what else it asked for. *)
From S2P Require Import Prelude Kube AppService AppStatus Patch Ensure Store Sequence Task Gc Conversion.

(** ** What the handlers use *)

(** The queries of the database layer. *)
Record Database := mkDatabase {
  db_GetServiceByID : string → error + TenantServices;
  db_HasOpenPort : string → bool;
  db_GetTenantByUUID : string → error + unit;
  db_UpdateTenant : string → option error;
  db_DelByTenantID : string → option error
}.

Inductive v1_event :=
  | StartEvent (sid : string) (port : Z) (isInner : bool)
  | StopEvent (sid : string).

(** What a handler does besides changing the store. *)
Inductive task_output :=
  | ControllerStarted (c : Controller)
  | ThirdPartyEvent (e : v1_event)
  (** reason and description of the record follow from the error and the counts *)
  | ScalingRecord (serviceID operator : string) (failed : option error) (old new : Z)
  | TenantDeleteFailed (tenantID : string)
  | TenantDeleted (tenantID : string)
  | Collect (c : gc_call).

Record World (C : Type) := mkWorld {
  w_store : Store C;
  w_controllers : Manager;
  w_loggers : gset string;
  w_out : list task_output
}.
Arguments mkWorld {C} _ _ _ _.
Arguments w_store {C} _.
Arguments w_controllers {C} _.
Arguments w_loggers {C} _.
Arguments w_out {C} _.
#[export] Instance eta_World C : Eta (World C) := λ w,
  mkWorld (w_store w) (w_controllers w) (w_loggers w) (w_out w).

(** [strings.HasPrefix(action, "port")] *)
Definition port_action (action : string) : bool := String.prefix "port" action.

Section handle.
Context {C : Type} (kc : KubeClient C) `{ComponentKinds}.
Context (InitCacheAppService : string → string → init_error + AppService).
(** [conversion.InitAppService] with the configuration and the enabled
    conversions. *)
Context (InitAppService : string → gmap string string → list string → result AppService).
Context (encode_statefulset encode_deployment : Workload → json).
Context (db : Database).
Context (sha224 : string → string) (list_services : string → gmap string string → option (list string)).
(** [cfg.MaxTasks], and whether the informers have synced. *)
Context (MaxTasks : nat) (store_Ready : bool).
(** The identifier of a new controller. *)
Context (NewUUID : Manager → string).

Abbreviation HM := (M (World C)).

Definition on_store {A} (m : M (Store C) A) : HM A := λ w,
  let '(s, r) := m (w_store w) in (w <| w_store := s |>, r).

Definition output (o : task_output) : HM unit := modify (λ w, w <| w_out ::= λ l, l ++ [o] |>).

(** [event.Manager]: one logger for each event id. *)
Definition logger_id (eventID : string) : string :=
  if decide (eventID = " " ∨ eventID = "")%string then "system" else eventID.

Definition GetLogger (eventID : string) : HM string := λ w,
  (w <| w_loggers ::= λ l, {[logger_id eventID]} ∪ l |>, Ok (logger_id eventID)).

Definition ReleaseLogger (logger : string) : HM unit :=
  modify (λ w, w <| w_loggers ::= λ l, l ∖ {[logger]} |>).

Definition start_controller (typ : TypeController) (app : AppService) : HM unit := λ w,
  match StartController (NewUUID (w_controllers w)) typ [app] (w_controllers w) with
  | (m, Ok c) => (w <| w_controllers := m |> <| w_out ::= λ l, l ++ [ControllerStarted c] |>, Ok ())
  | (m, Err e) => (w <| w_controllers := m |>, Err e)
  | (m, Panic) => (w <| w_controllers := m |>, Panic)
  end.

(** [err = StartController(...); if err != nil { ...; return }] *)
Definition start_or (typ : TypeController) (app : AppService) (on_failure : error → HM unit) : HM unit :=
  r ← catch (start_controller typ app);
  match r with inl e => on_failure e | inr _ => mret () end.

Definition release_fail (logger msg : string) (e : error) : HM unit :=
  _ ← ReleaseLogger logger; fail (EMsg msg).

(** The result of [InitAppService]. *)
Definition init_app (serviceID : string) (configs : gmap string string) (enabled : list string)
    (on_failure : error → HM AppService) : HM AppService :=
  match InitAppService serviceID configs enabled with
  | Err e => on_failure e
  | Ok app => mret app
  | Panic => panic
  end.

Definition release_fail_app (logger msg : string) (e : error) : HM AppService :=
  _ ← ReleaseLogger logger; fail (EMsg msg).

Definition get_app (serviceID : string) : HM (option AppService) :=
  gets (λ w, GetAppService serviceID (w_store w)).

(** A write through the pointer the store returned. *)
Definition write_app (key : string) (app : AppService) : HM unit :=
  on_store (modify (λ s, s <| st_apps ::= <[key := app]> |>)).

Definition checkCount (w : World C) : bool := bool_decide (MaxTasks < GetControllerSize (w_controllers w)).

(** [appService == nil || appService.IsClosed()] *)
Definition not_running (app : option AppService) : bool :=
  match app with None => true | Some a => IsClosed a end.

(** ** The handlers *)

Definition startExec (task : Task) : HM unit :=
  match Body task with
  | BStart body =>
    logger ← GetLogger (start_EventID body);
    appService ← get_app (start_ServiceID body);
    if negb (not_running appService) then ReleaseLogger logger
    else
      newAppService ← init_app (start_ServiceID body) (start_Configs body) []
        (release_fail_app logger "Application init create failure");
      _ ← on_store (RegistAppService newAppService);
      start_or TypeStartController newAppService (release_fail logger "Application start failure")
  | _ => fail (EMsg "start body convert to taskbody error")
  end.

(** [appService.ExtensionSet[k] = v] for every entry of the configuration *)
Definition extend (configs : gmap string string) (app : AppService) : AppService :=
  app <| base ::= λ b, b <| b_ExtensionSet ::= λ m, configs ∪ m |> |>.

Definition stopExec (task : Task) : HM unit :=
  match Body task with
  | BStop body =>
    logger ← GetLogger (stop_EventID body);
    appService ← get_app (stop_ServiceID body);
    match appService with
    | None => ReleaseLogger logger
    | Some app =>
      let app := extend (stop_Configs body) app in
      _ ← write_app (stop_ServiceID body) app;
      start_or TypeStopController app (release_fail logger "Application stop failure")
    end
  | _ => fail (EMsg "stop body convert to taskbody error")
  end.

Definition restartExec (task : Task) : HM unit :=
  match Body task with
  | BRestart body =>
    logger ← GetLogger (restart_EventID body);
    appService ← get_app (restart_ServiceID body);
    match appService with
    | None => ReleaseLogger logger
    | Some app =>
      let app := extend (restart_Configs body) app in
      _ ← write_app (restart_ServiceID body) app;
      start_or TypeRestartController app (release_fail logger "Application restart failure")
    end
  | _ => fail (EMsg "stop body convert to taskbody error")
  end.

(** The deferred function, which runs whatever the rest returns. *)
Definition with_record (serviceID operator : string) (old new : Z) (m : HM unit) : HM unit := λ w,
  let '(w', r) := m w in
  let failed := match r with Err e => Some e | _ => None end in
  (w' <| w_out ::= λ l, l ++ [ScalingRecord serviceID operator failed old new] |>, r).

Definition horizontalScalingExec (task : Task) : HM unit :=
  match Body task with
  | BHorizontalScaling body =>
    logger ← GetLogger (horizontal_EventID body);
    match db_GetServiceByID db (horizontal_ServiceID body) with
    | inl _ => release_fail logger "a" (EMsg "")
    | inr service =>
      appService ← get_app (horizontal_ServiceID body);
      match appService with
      | None => mret ()
      | Some app =>
        if IsClosed app then mret () else
        with_record (horizontal_ServiceID body) (horizontal_Username body) (Replicas app)
          (ts_Replicas service) (
          let app := app <| base ::= λ b, b <| b_Replicas := ts_Replicas service |> |> in
          _ ← write_app (horizontal_ServiceID body) app;
          start_or TypeScalingController app (λ e, _ ← ReleaseLogger logger; fail e))
      end
    end
  | _ => fail (EMsg "a")
  end.

(** [appService.SetUpgradePatch(newAppService)]: both components change; the
    old one is the stored one. *)
Definition upgrade_patch (key : string) (old new : AppService) : HM (AppService * option error) :=
  let '(old', new', err) := SetUpgradePatch encode_statefulset encode_deployment old new in
  _ ← write_app key old'; mret (new', err).

Definition verticalScalingExec (task : Task) : HM unit :=
  match Body task with
  | BVerticalScaling body =>
    let id := vertical_ServiceID body in
    logger ← GetLogger (vertical_EventID body);
    match db_GetServiceByID db id with
    | inl e => _ ← ReleaseLogger logger; fail (EWrap "vertical_scaling get rc error." e)
    | inr service =>
      appService ← get_app id;
      match appService with
      | None => ReleaseLogger logger
      | Some app =>
        if IsClosed app then ReleaseLogger logger else
        let app := app <| base ::= λ b, b <| b_ContainerCPU := ts_ContainerCPU service |>
                                          <| b_ContainerMemory := ts_ContainerMemory service |> |> in
        _ ← write_app id app;
        newAppService ← init_app id ∅ [] (release_fail_app logger "Application init create failure");
        (* the error of SetUpgradePatch is not looked at *)
        r ← upgrade_patch id app newAppService;
        start_or TypeUpgradeController r.1
          (release_fail logger "Application vertical scaling(upgrade) failure")
      end
    end
  | _ => fail (EMsg "vertical_scaling body convert to taskbody error")
  end.

Definition rollingUpgradeExec (task : Task) : HM unit :=
  match Body task with
  | BRollingUpgrade body =>
    let id := rolling_ServiceID body in
    logger ← GetLogger (rolling_EventID body);
    newAppService ← init_app id (rolling_Configs body) []
      (release_fail_app logger "Application init create failure");
    oldAppService ← get_app id;
    match oldAppService with
    | Some old =>
      if IsClosed old then
        _ ← on_store (RegistAppService newAppService);
        start_or TypeStartController newAppService (release_fail logger "Application start failure")
      else
        r ← upgrade_patch id old newAppService;
        match r with
        | (_, Some _) => mret ()
        | (newAppService, None) =>
          start_or TypeUpgradeController newAppService (release_fail logger "Application upgrade failure")
        end
    | None =>
      _ ← on_store (RegistAppService newAppService);
      start_or TypeStartController newAppService (release_fail logger "Application start failure")
    end
  | _ => fail (EMsg "rolling_upgrade body convert to taskbody error")
  end.

(** [store.InitOneThirdPartService] *)
Definition InitOneThirdPartService (service : TenantServices) : M (Store C) unit :=
  if negb (db_HasOpenPort db (ts_ServiceID service)) then mret () else
  match InitCacheAppService (ts_ServiceID service) "Kato" with
  | inl _ => fail (EMsg "error initializing cache app service")
  | inr appService =>
    _ ← RegistAppService appService;
    on_cluster (ApplyOne kc appService)
  end.

Definition apply_failure : string := "Application apply rule controller failure:".

(** What an [apply_rule] task does for the ports of a third-party component. *)
Definition apply_third_party (body : ApplyRuleTaskBody) (svc : TenantServices)
    (old : option AppService) (newAppService : AppService) : HM unit :=
  _ ← match old with
      | None => on_store (RegistAppService newAppService)
      | Some _ => mret ()
      end;
  _ ← on_store (wrap_err "application apply service resource failure:" (InitOneThirdPartService svc));
  _ ← when (bool_decide (rule_Action body = "port-open"%string))
        (output (ThirdPartyEvent (StartEvent (rule_ServiceID body) (rule_Port body) (rule_IsInner body))));
  when (bool_decide (rule_Action body = "port-close"%string) &&
        negb (db_HasOpenPort db (rule_ServiceID body)))
    (output (ThirdPartyEvent (StopEvent (rule_ServiceID body)))).

Definition applyRuleExec (task : Task) : HM unit :=
  match Body task with
  | BApplyRulePtr body =>
    let id := rule_ServiceID body in
    match db_GetServiceByID db id with
    | inl e => fail (EWrap "error get TenantServices:" e)
    | inr svc =>
      logger ← GetLogger (rule_EventID body);
      oldAppService ← get_app id;
      let third := bool_decide (ts_Kind svc = ServiceKindThirdParty) in
      if negb third && negb (port_action (rule_Action body)) && not_running oldAppService
      then ReleaseLogger logger
      else
        newAppService ← init_app id ∅
          (if third then ["ServiceSource"; "TenantServiceBase"; "TenantServiceRegist"]%string else [])
          (release_fail_app logger "Application init create failure");
        old ← get_app id;
        let newAppService :=
          (SetDeletedResources old newAppService) <| CustomParams := rule_Limit body |> in
        _ ← start_or TypeApplyRuleController newAppService (λ e, fail (EWrap apply_failure e));
        when (third && port_action (rule_Action body))
          (apply_third_party body svc oldAppService newAppService)
    end
  | _ => fail (EMsg "Can't convert to *model.ApplyRuleTaskBody")
  end.

Definition plugin_failure : string := "Application apply plugin config controller failure:".

Definition applyPluginConfig (task : Task) : HM unit :=
  match Body task with
  | BApplyPluginConfigPtr body =>
    let id := plugin_ServiceID body in
    oldAppService ← get_app id;
    if not_running oldAppService then mret () else
    newApp ← init_app id ∅ ["ServiceSource"; "TenantServiceBase"; "TenantServicePlugin"]%string fail;
    start_or TypeApplyConfigController newApp (λ e, fail (EWrap plugin_failure e))
  | _ => fail (EMsg "Can't convert to *model.ApplyPluginConfigTaskBody")
  end.

Definition ExecServiceGCTask (task : Task) : HM unit :=
  match Body task with
  | BServiceGC req => forM (service_gc sha224 list_services req) (λ c, output (Collect c))
  | _ => fail (EMsg "can not convert the request body to 'ServiceGCTaskBody'")
  end.

(** The named result [err] after the deferred function: the inner [err] of
    the update shadows it. *)
Definition tenant_failed (tenantID : string) (e : error) : HM unit :=
  match db_GetTenantByUUID db tenantID with
  | inl e' => fail (EWrap "find tenant:" e')
  | inr _ =>
    match db_UpdateTenant db tenantID with
    | Some _ => mret ()
    | None => output (TenantDeleteFailed tenantID)
    end
  end.

Definition deleteTenant (task : Task) : HM unit :=
  match Body task with
  | BDeleteTenantPtr body =>
    let id := delete_TenantID body in
    r ← catch (
      err ← on_store (on_cluster (api_err (kc_delete kc KNamespace "" id)));
      match err with
      | Some e => if IsNotFound e then mret () else fail (EWrap "delete namespace:" (EApi e))
      | None => mret ()
      end ;;
      match db_DelByTenantID db id with
      | Some e => fail (EWrap "delete tenant:" e)
      | None => output (TenantDeleted id)
      end);
    match r with
    | inl e => tenant_failed id e
    | inr _ => mret ()
    end
  | _ => fail (EMsg "can't convert to *model.DeleteTenantTaskBody")
  end.

Definition ExecRefreshHPATask (task : Task) : HM unit :=
  match Body task with
  | BRefreshHPAPtr body =>
    let id := refresh_ServiceID body in
    logger ← GetLogger (refresh_EventID body);
    oldAppService ← get_app id;
    if match oldAppService with Some a => IsClosed a | None => false end then ReleaseLogger logger
    else
      newAppService ← init_app id ∅ [] (release_fail_app logger "Application init create failure");
      start_or TypeControllerRefreshHPA (SetDeletedResources oldAppService newAppService)
        (λ e, _ ← ReleaseLogger logger; fail (EWrap "refresh hpa:" e))
  | _ => fail (EMsg "exec task 'refreshhpa': wrong input")
  end.

(** ** Dispatch *)

Definition ErrCallback : error := ECallback.

Definition exec_task (task : Task) : HM unit :=
  let t := Type_ task in
  if decide (t = "start"%string) then startExec task
  else if decide (t = "stop"%string) then stopExec task
  else if decide (t = "restart"%string) then restartExec task
  else if decide (t = "horizontal_scaling"%string) then horizontalScalingExec task
  else if decide (t = "vertical_scaling"%string) then verticalScalingExec task
  else if decide (t = "rolling_upgrade"%string) then rollingUpgradeExec task
  else if decide (t = "apply_rule"%string) then applyRuleExec task
  else if decide (t = "apply_plugin_config"%string) then applyPluginConfig task
  else if decide (t = "service_gc"%string) then ExecServiceGCTask task
  else if decide (t = "delete_tenant"%string) then deleteTenant task
  else if decide (t = "refreshhpa"%string) then ExecRefreshHPATask task
  else mret ().

Definition AnalystToExec (task : option Task) : HM unit :=
  match task with
  | None => mret ()
  | Some task => λ w,
    if checkCount w then (w, Err ErrCallback)
    else if negb store_Ready then (w, Err ErrCallback)
    else exec_task task w
  end.
End handle.
