(* ===== verification/HandleSpec.v ===== *)
(** * What a task does

    The theorems about [Handle]: which controller a task starts and for which
    component, what it leaves alone, when it is put back, and what becomes of
    its logger. *)
From S2P Require Import Prelude Kube AppService AppStatus Patch Ensure Store Sequence Task Gc Conversion Handle.

(** ** Decoding and asserting agree *)

(** The dynamic type each handler asserts. *)
Definition typed (taskType : string) (b : TaskBody) : Prop :=
  match b with
  | BStart _ => taskType = "start"%string
  | BStop _ => taskType = "stop"%string
  | BRestart _ => taskType = "restart"%string
  | BRollingUpgrade _ => taskType = "rolling_upgrade"%string
  | BHorizontalScaling _ => taskType = "horizontal_scaling"%string
  | BVerticalScaling _ => taskType = "vertical_scaling"%string
  | BApplyRulePtr _ => taskType = "apply_rule"%string
  | BApplyPluginConfigPtr _ => taskType = "apply_plugin_config"%string
  | BServiceGC _ => taskType = "service_gc"%string
  | BDeleteTenantPtr _ => taskType = "delete_tenant"%string
  | BRefreshHPAPtr _ => taskType = "refreshhpa"%string
  | _ => False
  end.

(** The component a body is about. *)
Definition service_of (b : TaskBody) : option string :=
  match b with
  | BStart b => Some (start_ServiceID b)
  | BStop b => Some (stop_ServiceID b)
  | BRestart b => Some (restart_ServiceID b)
  | BRollingUpgrade b => Some (rolling_ServiceID b)
  | BHorizontalScaling b => Some (horizontal_ServiceID b)
  | BVerticalScaling b => Some (vertical_ServiceID b)
  | BApplyRulePtr b => Some (rule_ServiceID b)
  | BApplyPluginConfigPtr b => Some (plugin_ServiceID b)
  | BRefreshHPAPtr b => Some (refresh_ServiceID b)
  | _ => None
  end.

(** ** What handlers leave behind *)

Definition started_of (o : task_output) : list Controller :=
  match o with ControllerStarted c => [c] | _ => [] end.
Definition started (out : list task_output) : list Controller := out ≫= started_of.

Lemma started_app l l' : started (l ++ l') = started l ++ started l'.
Proof. unfold started. by rewrite bind_app. Qed.

Inductive presence := Absent | Closed | Running.

Section handle_spec.
Context {C : Type} (kc : KubeClient C) (kl : C → ∀ k, string → string → option (obj k)).
Context `{!KubeLaws kc kl, ComponentKinds}.
Context (InitCacheAppService : string → string → init_error + AppService).
Context (InitAppService : string → gmap string string → list string → result AppService).
Context (encode_statefulset encode_deployment : Workload → json).
Context (db : Database).
Context (sha224 : string → string) (list_services : string → gmap string string → option (list string)).
Context (MaxTasks : nat) (store_Ready : bool) (NewUUID : Manager → string).

(** What the handlers need of the code they call: a built component has the
    id it was asked for and distinct names, rows are those asked for, and the error
    that puts a task back is nobody else's. *)
Class handler_laws : Prop := {
  hl_cache : init_sound InitCacheAppService;
  hl_init sid configs enabled a :
    InitAppService sid configs enabled = Ok a → ServiceID a = sid ∧ wf a;
  hl_row sid row : db_GetServiceByID db sid = inr row → ts_ServiceID row = sid;
  hl_error sid configs enabled e : InitAppService sid configs enabled = Err e → e ≠ ErrCallback
}.
Context {HL : handler_laws}.

Abbreviation World := (World C).
Abbreviation run := (exec_task kc InitCacheAppService InitAppService encode_statefulset
  encode_deployment db sha224 list_services NewUUID).

Definition presence_of (sid : string) (w : World) : presence :=
  match GetAppService sid (w_store w) with
  | None => Absent
  | Some a => if IsClosed a then Closed else Running
  end.

(** The world after a task about [id] that started [o]. *)
Record effects (id : string) (o : option (TypeController * AppService)) (w w' : World) : Prop := {
  eff_started : started (w_out w') =
    started (w_out w) ++ (if o is Some (t, a) then [mkController t [a]] else []);
  eff_controllers : w_controllers w' =
    (if o is Some (t, a) then <[NewUUID (w_controllers w) := mkController t [a]]> (w_controllers w)
     else w_controllers w);
  eff_app t a : o = Some (t, a) → ServiceID a = id ∧ wf a;
  eff_frame k : k ≠ id → st_apps (w_store w') !! k = st_apps (w_store w) !! k;
  eff_ok : store_ok (w_store w')
}.

Lemma effects_logger id w f : store_ok (w_store w) → effects id None w (w <| w_loggers ::= f |>).
Proof. intros Hw. split; simpl; rewrite ?app_nil_r; done. Qed.

Lemma effects_trans id o w w1 w2 :
  effects id None w w1 → effects id o w1 w2 → effects id o w w2.
Proof.
  intros [H1 H2 H3 H4 H5] [G1 G2 G3 G4 G5]. rewrite app_nil_r in H1.
  split; [by rewrite G1, H1|by rewrite G2, H2|done|intros; by rewrite G4, H4|done].
Qed.

Definition started_world (typ : TypeController) (app : AppService) (w : World) : World :=
  w <| w_controllers ::= λ m, <[NewUUID m := mkController typ [app]]> m |>
    <| w_out ::= λ l, l ++ [ControllerStarted (mkController typ [app])] |>.

Lemma effects_started id typ a w : store_ok (w_store w) → ServiceID a = id → wf a →
  effects id (Some (typ, a)) w (started_world typ a w).
Proof.
  intros Hw Hid Hwf. split; simpl.
  - by rewrite started_app.
  - done.
  - intros t b E. by injection E as <- <-.
  - done.
  - done.
Qed.

Definition known (typ : TypeController) : Prop :=
  match typ with UnknownController _ => False | _ => True end.

Lemma start_or_ok typ app h w : known typ →
  start_or NewUUID typ app h w = (started_world typ app w, Ok ()).
Proof. by destruct typ. Qed.

Lemma effects_write id a w : store_ok (w_store w) → ServiceID a = id → wf a →
  effects id None w (write_app id a w).1.
Proof.
  intros Hw Hid Hwf. split; simpl; rewrite ?app_nil_r; try done.
  - intros k Hk. by rewrite lookup_insert_ne.
  - intros k b. simpl. rewrite lookup_insert_Some. intros [[<- <-]|[_ Hb]]; [done|by apply Hw].
Qed.

Lemma effects_regist id a w : store_ok (w_store w) → ServiceID a = id → wf a →
  effects id None w (on_store (RegistAppService a) w).1.
Proof.
  intros Hw Hid Hwf. split; simpl; rewrite ?app_nil_r; try done.
  - intros k Hk. rewrite lookup_insert_ne; [done|congruence].
  - intros k b. simpl. rewrite lookup_insert_Some. intros [[<- <-]|[_ Hb]]; [done|by apply Hw].
Qed.

(** *** Components after the operations of the handlers *)

(** [wf] reads only these fields. *)
Lemma wf_same a b : wf a →
  replicasets b = replicasets a → configMaps b = configMaps a → services b = services a →
  endpoints b = endpoints a → ingresses b = ingresses a → secrets b = secrets a → pods b = pods a →
  claims b = claims a → claimsmanual b = claimsmanual a → hpas b = hpas a →
  serviceMonitor b = serviceMonitor a → wf b.
Proof. intros [] E1 E2 E3 E4 E5 E6 E7 E8 E9 E10 E11. split; congruence. Qed.

Lemma wf_deleted old a : wf a → wf (SetDeletedResources old a).
Proof. intros Ha. destruct old; [|done]. by apply (wf_same a). Qed.

Lemma id_deleted old a : ServiceID (SetDeletedResources old a) = ServiceID a.
Proof. by destruct old. Qed.

(** A step of [SetUpgradePatch] keeps the names and the bases. *)
Definition patch_keeps (old new : AppService) (r : AppService * AppService * option error) : Prop :=
  (wf old → wf r.1.1) ∧ (wf new → wf r.1.2) ∧ base r.1.1 = base old ∧ base r.1.2 = base new.

Lemma patch_statefulset_keeps old new :
  patch_keeps old new (patch_statefulset encode_statefulset old new).
Proof.
  unfold patch_statefulset, patch_keeps. destruct (statefulset old), (statefulset new); try done.
  destruct (workload_patch _ _ _ _) as [[x y] []]; simpl;
    (split; [intros ?; by apply (wf_same old)|]); (split; [intros ?; by apply (wf_same new)|done]).
Qed.

Lemma patch_deployment_keeps old new :
  patch_keeps old new (patch_deployment encode_deployment old new).
Proof.
  unfold patch_deployment, patch_keeps. destruct (deployment old), (deployment new); try done.
  destruct (workload_patch _ _ _ _) as [[x y] []]; simpl;
    (split; [intros ?; by apply (wf_same old)|]); (split; [intros ?; by apply (wf_same new)|done]).
Qed.

Lemma upgrade_patch_keeps old new o' n' err :
  SetUpgradePatch encode_statefulset encode_deployment old new = (o', n', err) →
  wf old → wf new → ServiceID old = ServiceID new →
  wf o' ∧ wf n' ∧ ServiceID o' = ServiceID new ∧ ServiceID n' = ServiceID new.
Proof.
  unfold SetUpgradePatch, ServiceID. intros E Ho Hn Hid.
  pose proof (patch_statefulset_keeps old new) as (H1 & H2 & B1 & B2).
  destruct (patch_statefulset encode_statefulset old new) as [[o1 n1] [e|]]; simplify_eq/=; [by rewrite B1, B2; auto|].
  pose proof (patch_deployment_keeps o1 n1) as (H3 & H4 & B3 & B4).
  destruct (patch_deployment encode_deployment o1 n1) as [[o2 n2] [e|]]; simplify_eq/=;
    rewrite ?B4, ?B3, ?B2, ?B1; split_and!; auto. by apply (wf_same o2); auto.
Qed.

(** *** The specification *)

(** The controller a well-typed task starts. *)
Definition guard (b : TaskBody) (p : presence) (patched always : bool) : option TypeController :=
  match b, p with
  | BStart _, Running => None
  | BStart _, _ => Some TypeStartController
  | (BStop _ | BRestart _), Absent => None
  | BStop _, _ => Some TypeStopController
  | BRestart _, _ => Some TypeRestartController
  | BHorizontalScaling _, Running => Some TypeScalingController
  | BVerticalScaling _, Running => Some TypeUpgradeController
  | BRollingUpgrade _, Running => if patched then Some TypeUpgradeController else None
  | BRollingUpgrade _, _ => Some TypeStartController
  | BApplyRulePtr _, Running => Some TypeApplyRuleController
  | BApplyRulePtr _, _ => if always then Some TypeApplyRuleController else None
  | BApplyPluginConfigPtr _, Running => Some TypeApplyConfigController
  | BRefreshHPAPtr _, Closed => None
  | BRefreshHPAPtr _, _ => Some TypeControllerRefreshHPA
  | _, _ => None
  end.

(** A rolling upgrade has a patch; a rule applies to closed components too. *)
Definition patched (b : TaskBody) (w : World) : bool :=
  match b with
  | BRollingUpgrade b =>
    match GetAppService (rolling_ServiceID b) (w_store w),
          InitAppService (rolling_ServiceID b) (rolling_Configs b) [] with
    | Some old, Ok new =>
      bool_decide ((SetUpgradePatch encode_statefulset encode_deployment old new).2 = None)
    | _, _ => false
    end
  | _ => false
  end.

Definition always (b : TaskBody) : bool :=
  match b with
  | BApplyRulePtr b =>
    port_action (rule_Action b) ||
    match db_GetServiceByID db (rule_ServiceID b) with
    | inr svc => bool_decide (ts_Kind svc = ServiceKindThirdParty)
    | inl _ => false
    end
  | _ => false
  end.

(** Everything the task reads from the database is there. *)
Definition sources_ok (sid : string) : Prop :=
  (∃ row, db_GetServiceByID db sid = inr row) ∧
  ∀ configs enabled, ∃ a, InitAppService sid configs enabled = Ok a.

(** The conversion of the component crashes. *)
Definition conversion_panics (id : string) : Prop := ∃ configs enabled, InitAppService id configs enabled = Panic.

(** A handler's run: it panics only where the conversion of the component does,
    and it starts what [g] says, or nothing when a source fails. *)
Definition ends (id : string) (g : option TypeController) (w : World) (res : World * result unit) : Prop :=
  (res.2 = Panic → conversion_panics id) ∧
  ∃ o, effects id o w res.1 ∧ (fst <$> o = g ∨ o = None ∧ ¬ sources_ok id).

Lemma ends_quiet id w w' r : effects id None w w' → r ≠ Panic → ends id None w (w', r).
Proof. intros He Hr. split; [by intros ?|]. exists None. auto. Qed.

Lemma ends_failed id g w w' e : effects id None w w' → ¬ sources_ok id → ends id g w (w', Err e).
Proof. intros He Hs. split; [done|]. exists None. auto. Qed.

Lemma ends_start id typ a h w w1 : known typ → effects id None w w1 → ServiceID a = id → wf a →
  ends id (Some typ) w (start_or NewUUID typ a h w1).
Proof.
  intros Hk He Hid Hwf. rewrite start_or_ok by done. split; [done|]. exists (Some (typ, a)).
  split; [|by left]. eapply effects_trans; [done|]. apply effects_started; [apply He|done..].
Qed.

Lemma ends_release id w w1 logger : effects id None w w1 → ends id None w (ReleaseLogger logger w1).
Proof.
  intros He. apply ends_quiet; [|done]. eapply effects_trans; [done|]. apply effects_logger, He.
Qed.

Lemma ends_init id configs enabled (h : error → M World AppService) (k : AppService → M World unit) g w w1 :
  effects id None w w1 →
  (∀ e, ∃ e' f, h e w1 = (w1 <| w_loggers ::= f |>, Err e')) →
  (∀ a, InitAppService id configs enabled = Ok a → ServiceID a = id → wf a → ends id g w (k a w1)) →
  ends id g w ((init_app InitAppService id configs enabled h ≫= k) w1).
Proof.
  intros He Hh Hk. unfold init_app.
  destruct (InitAppService id configs enabled) as [a|e|] eqn:E; rewrite bind_unfold.
  - destruct (hl_init _ _ _ _ E) as [Hid Hwf]. by apply Hk.
  - destruct (Hh e) as (e' & f & ->). apply ends_failed.
    + eapply effects_trans; [done|]. apply effects_logger, He.
    + intros [_ Hi]. destruct (Hi configs enabled). congruence.
  - split; [intros _; by exists configs, enabled|]. exists None. split; [done|]. right. split; [done|].
    intros [_ Hi]. destruct (Hi configs enabled). congruence.
Qed.

Lemma ends_bind id {A} (m : M World A) (k : A → M World unit) g w w1 w2 a :
  m w1 = (w2, Ok a) → ends id g w (k a w2) → ends id g w ((m ≫= k) w1).
Proof. intros E Hk. by rewrite (bind_ok _ _ _ _ _ E). Qed.

Lemma release_fails logger msg (w : World) : ∀ e, ∃ e' f,
  release_fail_app logger msg e w = (w <| w_loggers ::= f |>, Err e').
Proof. intros e. by eexists _, _. Qed.

(** The steps of a handler. *)
Lemma ends_logger id eventID k g w : store_ok (w_store w) →
  (∀ w1, effects id None w w1 → w_store w1 = w_store w → ends id g w (k (logger_id eventID) w1)) →
  ends id g w ((GetLogger eventID ≫= k) w).
Proof. intros Hw Hk. eapply ends_bind; [reflexivity|]. apply Hk; [by apply effects_logger|done]. Qed.

Lemma ends_get id sid k g w w1 :
  ends id g w (k (GetAppService sid (w_store w1)) w1) → ends id g w ((get_app sid ≫= k) w1).
Proof. intros Hk. eapply ends_bind; [reflexivity|done]. Qed.

Lemma ends_write id a k g w w1 : effects id None w w1 → ServiceID a = id → wf a →
  (∀ w2, effects id None w w2 → st_apps (w_store w2) !! id = Some a → ends id g w (k () w2)) →
  ends id g w ((write_app id a ≫= k) w1).
Proof.
  intros He Hid Hwf Hk. eapply ends_bind; [reflexivity|]. apply Hk; [|apply lookup_insert_eq].
  eapply effects_trans; [done|]. by apply effects_write; [apply He|..].
Qed.

Lemma ends_regist id a k g w w1 : effects id None w w1 → ServiceID a = id → wf a →
  (∀ w2, effects id None w w2 → ends id g w (k () w2)) →
  ends id g w ((on_store (RegistAppService a) ≫= k) w1).
Proof.
  intros He Hid Hwf Hk. eapply ends_bind; [reflexivity|]. apply Hk.
  eapply effects_trans; [done|]. by apply effects_regist; [apply He|..].
Qed.

Lemma ends_patch id old new k g w w1 : effects id None w w1 →
  ServiceID old = id → wf old → ServiceID new = id → wf new →
  (∀ new' w2, effects id None w w2 → ServiceID new' = id → wf new' →
    ends id g w (k (new', (SetUpgradePatch encode_statefulset encode_deployment old new).2) w2)) →
  ends id g w ((upgrade_patch encode_statefulset encode_deployment id old new ≫= k) w1).
Proof.
  intros He Ho Hwo Hn Hwn Hk. unfold upgrade_patch.
  destruct (SetUpgradePatch _ _ old new) as [[o' n'] err] eqn:E.
  destruct (upgrade_patch_keeps _ _ _ _ _ E Hwo Hwn) as (Hwo' & Hwn' & Hio & Hin); [congruence|].
  eapply ends_bind; [reflexivity|]. apply Hk; [|congruence|done].
  eapply effects_trans; [done|]. by apply effects_write; [apply He|congruence|].
Qed.

(** A stored component is well formed. *)
Lemma stored id a (w : World) : store_ok (w_store w) → GetAppService id (w_store w) = Some a →
  ServiceID a = id ∧ wf a.
Proof. intros Hw Ha. by apply Hw. Qed.

Ltac release := apply ends_release.
Ltac fails := intros e; by eexists _, _.

Lemma start_ends b w : store_ok (w_store w) →
  let id := start_ServiceID b in
  ends id (guard (BStart b) (presence_of id w) false false) w
    (startExec InitAppService NewUUID (mkTask "start" (BStart b) "" "") w).
Proof.
  intros Hw id. unfold startExec, presence_of. cbn [Body guard].
  apply ends_logger; [done|]. intros w1 He Hs. apply ends_get. rewrite Hs. fold id.
  assert (∀ g, g = Some TypeStartController → ends id g w
    ((newAppService ← init_app InitAppService id (start_Configs b) []
        (release_fail_app (logger_id (start_EventID b)) "Application init create failure");
      _ ← on_store (RegistAppService newAppService);
      start_or NewUUID TypeStartController newAppService
        (release_fail (logger_id (start_EventID b)) "Application start failure")) w1)) as Hstart.
  { intros g ->. apply ends_init; [done|fails|]. intros a _ Ha Hwf.
    apply ends_regist; [done..|]. intros w2 He2. by apply ends_start. }
  destruct (GetAppService id (w_store w)) as [a|] eqn:Ea; simpl; [|by apply Hstart].
  destruct (IsClosed a); simpl; [by apply Hstart|by release].
Qed.

Lemma extend_keeps cfg a : wf a → wf (extend cfg a) ∧ ServiceID (extend cfg a) = ServiceID a.
Proof. intros Ha. split; [by apply (wf_same a)|done]. Qed.

Lemma stop_ends b w : store_ok (w_store w) →
  let id := stop_ServiceID b in
  ends id (guard (BStop b) (presence_of id w) false false) w
    (stopExec NewUUID (mkTask "stop" (BStop b) "" "") w).
Proof.
  intros Hw id. unfold stopExec, presence_of. cbn [Body guard].
  apply ends_logger; [done|]. intros w1 He Hs. apply ends_get. rewrite Hs. fold id.
  destruct (GetAppService id (w_store w)) as [a|] eqn:Ea; [|by release].
  destruct (stored id a w Hw Ea) as [Hid Hwf].
  destruct (extend_keeps (stop_Configs b) a Hwf) as [Hwf' Hid'].
  apply ends_write; [done|congruence|done|]. intros w2 He2 _.
  destruct (IsClosed a); by apply ends_start; [| |congruence|].
Qed.

Lemma restart_ends b w : store_ok (w_store w) →
  let id := restart_ServiceID b in
  ends id (guard (BRestart b) (presence_of id w) false false) w
    (restartExec NewUUID (mkTask "restart" (BRestart b) "" "") w).
Proof.
  intros Hw id. unfold restartExec, presence_of. cbn [Body guard].
  apply ends_logger; [done|]. intros w1 He Hs. apply ends_get. rewrite Hs. fold id.
  destruct (GetAppService id (w_store w)) as [a|] eqn:Ea; [|by release].
  destruct (stored id a w Hw Ea) as [Hid Hwf].
  destruct (extend_keeps (restart_Configs b) a Hwf) as [Hwf' Hid'].
  apply ends_write; [done|congruence|done|]. intros w2 He2 _.
  destruct (IsClosed a); by apply ends_start; [| |congruence|].
Qed.

Lemma ends_record id sid op old new m g w w1 :
  ends id g w (m w1) → ends id g w (with_record sid op old new m w1).
Proof.
  unfold with_record. destruct (m w1) as [w2 r]. intros [Hr (o & [H1 H2 H3 H4 H5] & Ho)].
  split; [done|]. exists o. split; [|done]. split; simpl; try done.
  rewrite started_app. simpl. by rewrite app_nil_r.
Qed.

Lemma no_row id e : db_GetServiceByID db id = inl e → ¬ sources_ok id.
Proof. intros E [[row Hr] _]. congruence. Qed.

Lemma horizontal_ends b w : store_ok (w_store w) →
  let id := horizontal_ServiceID b in
  ends id (guard (BHorizontalScaling b) (presence_of id w) false false) w
    (horizontalScalingExec db NewUUID (mkTask "horizontal_scaling" (BHorizontalScaling b) "" "") w).
Proof.
  intros Hw id. unfold horizontalScalingExec, presence_of. cbn [Body guard].
  apply ends_logger; [done|]. intros w1 He Hs. fold id.
  destruct (db_GetServiceByID db id) as [e|row] eqn:Er.
  { apply ends_failed; [|by eapply no_row]. eapply effects_trans; [done|]. apply effects_logger, He. }
  apply ends_get. rewrite Hs.
  destruct (GetAppService id (w_store w)) as [a|] eqn:Ea; [|by apply ends_quiet].
  destruct (IsClosed a); [by apply ends_quiet|].
  destruct (stored id a w Hw Ea) as [Hid Hwf]. apply ends_record.
  apply ends_write; [done|done|by apply (wf_same a)|]. intros w2 He2 _.
  by apply ends_start; [| | |apply (wf_same a)].
Qed.

Lemma vertical_ends b w : store_ok (w_store w) →
  let id := vertical_ServiceID b in
  ends id (guard (BVerticalScaling b) (presence_of id w) false false) w
    (verticalScalingExec InitAppService encode_statefulset encode_deployment db NewUUID
       (mkTask "vertical_scaling" (BVerticalScaling b) "" "") w).
Proof.
  intros Hw id. unfold verticalScalingExec, presence_of. cbn [Body guard]. fold id.
  apply ends_logger; [done|]. intros w1 He Hs.
  destruct (db_GetServiceByID db id) as [e|row] eqn:Er.
  { apply ends_failed; [|by eapply no_row]. eapply effects_trans; [done|]. apply effects_logger, He. }
  apply ends_get. rewrite Hs.
  destruct (GetAppService id (w_store w)) as [a|] eqn:Ea; [|by release].
  destruct (IsClosed a); [by release|]. destruct (stored id a w Hw Ea) as [Hid Hwf]. cbv zeta.
  apply ends_write; [done|done|by apply (wf_same a)|]. intros w2 He2 _.
  apply ends_init; [done|fails|]. intros new _ Hn Hwn.
  apply ends_patch; [done|done|by apply (wf_same a)|done..|]. intros new' w3 He3 Hid' Hwf'.
  by apply ends_start.
Qed.

Lemma rolling_ends b w : store_ok (w_store w) →
  let id := rolling_ServiceID b in
  ends id (guard (BRollingUpgrade b) (presence_of id w) (patched (BRollingUpgrade b) w) false) w
    (rollingUpgradeExec InitAppService encode_statefulset encode_deployment NewUUID
       (mkTask "rolling_upgrade" (BRollingUpgrade b) "" "") w).
Proof.
  intros Hw id. unfold rollingUpgradeExec, presence_of. cbn [Body guard patched]. fold id.
  apply ends_logger; [done|]. intros w1 He Hs.
  apply ends_init; [done|fails|]. intros new En Hn Hwn. rewrite En.
  apply ends_get. rewrite Hs.
  assert (ends id (Some TypeStartController) w
    ((_ ← on_store (RegistAppService new);
      start_or NewUUID TypeStartController new
        (release_fail (logger_id (rolling_EventID b)) "Application start failure")) w1)) as Hstart.
  { apply ends_regist; [done..|]. intros w2 He2. by apply ends_start. }
  destruct (GetAppService id (w_store w)) as [a|] eqn:Ea; [|done].
  destruct (IsClosed a); [done|]. destruct (stored id a w Hw Ea) as [Hid Hwf].
  apply ends_patch; [done..|]. intros new' w2 He2 Hid' Hwf'.
  destruct (SetUpgradePatch _ _ a new).2 as [e|].
  - by apply ends_quiet.
  - by apply ends_start.
Qed.

Lemma plugin_ends b w : store_ok (w_store w) →
  let id := plugin_ServiceID b in
  ends id (guard (BApplyPluginConfigPtr b) (presence_of id w) false false) w
    (applyPluginConfig InitAppService NewUUID (mkTask "apply_plugin_config" (BApplyPluginConfigPtr b) "" "") w).
Proof.
  intros Hw id. unfold applyPluginConfig, presence_of. cbn [Body guard]. fold id.
  assert (effects id None w w) as He.
  { pose proof (effects_logger id w (λ l, l) Hw) as [? ? ? ? ?]. by split. }
  apply ends_get.
  destruct (GetAppService id (w_store w)) as [a|] eqn:Ea; simpl; [|by apply ends_quiet].
  destruct (IsClosed a); [by apply ends_quiet|].
  apply ends_init; [done| |]. { intros e. exists e, (λ l, l). by destruct w. }
  intros new _ Hn Hwn. by apply ends_start.
Qed.

Lemma refresh_ends b w : store_ok (w_store w) →
  let id := refresh_ServiceID b in
  ends id (guard (BRefreshHPAPtr b) (presence_of id w) false false) w
    (ExecRefreshHPATask InitAppService NewUUID (mkTask "refreshhpa" (BRefreshHPAPtr b) "" "") w).
Proof.
  intros Hw id. unfold ExecRefreshHPATask, presence_of. cbn [Body guard]. fold id.
  apply ends_logger; [done|]. intros w1 He Hs. apply ends_get. rewrite Hs.
  assert (∀ old, ends id (Some TypeControllerRefreshHPA) w
    ((newAppService ← init_app InitAppService id ∅ []
        (release_fail_app (logger_id (refresh_EventID b)) "Application init create failure");
      start_or NewUUID TypeControllerRefreshHPA (SetDeletedResources old newAppService)
        (λ e, _ ← ReleaseLogger (logger_id (refresh_EventID b)); fail (EWrap "refresh hpa:" e))) w1)) as Hstart.
  { intros old. apply ends_init; [done|fails|]. intros new _ Hn Hwn.
    apply ends_start; [done|done|by rewrite id_deleted|by apply wf_deleted]. }
  destruct (GetAppService id (w_store w)) as [a|] eqn:Ea; [|apply Hstart].
  destruct (IsClosed a); [by release|apply Hstart].
Qed.

(** Steps that start nothing. *)
Definition quiet (id : string) {A} (m : M World A) : Prop :=
  ∀ w, store_ok (w_store w) → (m w).2 ≠ Panic ∧ effects id None w (m w).1.

Lemma effects_refl id w : store_ok (w_store w) → effects id None w w.
Proof. intros Hw. pose proof (effects_logger id w (λ l, l) Hw) as []. by split. Qed.

Lemma quiet_ret id {A} (a : A) : quiet id (mret a).
Proof. intros w Hw. split; [done|]. by apply effects_refl. Qed.

Lemma quiet_bind id {A B} (m : M World A) (k : A → M World B) :
  quiet id m → (∀ a, quiet id (k a)) → quiet id (m ≫= k).
Proof.
  intros Hm Hk w Hw. destruct (Hm w Hw) as [Hr He]. rewrite bind_unfold.
  destruct (m w) as [w1 [a|e|]]; [|done..].
  destruct (Hk a w1 (eff_ok _ _ _ _ He)) as [Hr1 He1]. split; [done|]. by eapply effects_trans.
Qed.

Lemma quiet_event id e : quiet id (output (C := C) (ThirdPartyEvent e)).
Proof.
  intros w Hw. split; [done|]. split; simpl; rewrite ?app_nil_r; try done.
  rewrite started_app. by rewrite app_nil_r.
Qed.

Lemma quiet_when id b (m : M World unit) : quiet id m → quiet id (when b m).
Proof. intros Hm. destruct b; [done|apply quiet_ret]. Qed.

Lemma quiet_regist id a : ServiceID a = id → wf a → quiet id (on_store (C := C) (RegistAppService a)).
Proof. intros Hid Hwf w Hw. split; [done|]. by apply effects_regist. Qed.

Lemma quiet_third_party id svc : ts_ServiceID svc = id →
  quiet id (on_store (wrap_err "application apply service resource failure:"
    (InitOneThirdPartService kc InitCacheAppService db svc))).
Proof.
  intros Hid w Hw. unfold on_store, wrap_err, InitOneThirdPartService.
  destruct (negb _); [split; [done|]; by destruct (effects_refl id w Hw)|].
  destruct (InitCacheAppService _ _) as [e|a] eqn:Ei.
  { split; [done|]. by destruct (effects_refl id w Hw). }
  destruct hl_cache with (1 := Ei) as [Ha Hwf]. rewrite bind_unfold. simpl. unfold on_cluster. simpl.
  pose proof (safe_run _ (safe_ApplyOne kc kl a) (st_cluster (w_store w))) as Hs.
  destruct (ApplyOne kc a (st_cluster (w_store w))) as [c r] eqn:Ea.
  pose proof (effects_regist id a w Hw) as He. specialize (He ltac:(congruence) Hwf).
  destruct He as [? ? ? Hf Ho]. destruct r as [[]|e|]; [| |by destruct Hs]; (split; [done|]); by split.
Qed.

Lemma ends_after id (m : M World unit) (k : unit → M World unit) g w w1 :
  ends id g w (m w1) → (m w1).2 = Ok () → quiet id (k ()) → ends id g w ((m ≫= k) w1).
Proof.
  intros [Hr (o & Ho & Hg)] Eok Hk. rewrite bind_unfold. destruct (m w1) as [w2 r]; simplify_eq/=.
  destruct (Hk w2 (eff_ok _ _ _ _ Ho)) as [Hr2 [H1 H2 H3 H4 H5]]. rewrite app_nil_r in H1.
  split; [done|]. exists o. split; [|done]. destruct Ho as [G1 G2 G3 G4 G5].
  split; [by rewrite H1|by rewrite H2|done|intros; by rewrite H4, G4|done].
Qed.

Lemma quiet_rule_ports id b svc old new : ts_ServiceID svc = id → ServiceID new = id → wf new →
  quiet id (apply_third_party kc InitCacheAppService db b svc old new).
Proof.
  intros Hsvc Hid Hwf. unfold apply_third_party.
  apply quiet_bind; [destruct old; [apply quiet_ret|by apply quiet_regist]|]. intros _.
  apply quiet_bind; [by apply quiet_third_party|]. intros _.
  apply quiet_bind; [apply quiet_when, quiet_event|]. intros _. apply quiet_when, quiet_event.
Qed.

Lemma rule_ends b w : store_ok (w_store w) →
  let id := rule_ServiceID b in
  ends id (guard (BApplyRulePtr b) (presence_of id w) false (always (BApplyRulePtr b))) w
    (applyRuleExec kc InitCacheAppService InitAppService db NewUUID
       (mkTask "apply_rule" (BApplyRulePtr b) "" "") w).
Proof.
  intros Hw id. unfold applyRuleExec, presence_of. cbn [Body guard always]. fold id.
  destruct (db_GetServiceByID db id) as [e|svc] eqn:Er.
  { apply ends_failed; [by apply effects_refl|by eapply no_row]. }
  apply ends_logger; [done|]. intros w1 He Hs. apply ends_get. rewrite Hs.
  set (third := bool_decide (ts_Kind svc = ServiceKindThirdParty)).
  assert (∀ enabled old, ends id (Some TypeApplyRuleController) w
    ((newAppService ← init_app InitAppService id ∅ enabled
        (release_fail_app (logger_id (rule_EventID b)) "Application init create failure");
      old' ← get_app id;
      _ ← start_or NewUUID TypeApplyRuleController
            ((SetDeletedResources old' newAppService) <| CustomParams := rule_Limit b |>)
            (λ e, fail (EWrap apply_failure e));
      when (third && port_action (rule_Action b))
        (apply_third_party kc InitCacheAppService db b svc old
           ((SetDeletedResources old' newAppService) <| CustomParams := rule_Limit b |>))) w1)) as Hstart.
  { intros enabled old. apply ends_init; [done|fails|]. intros new _ Hn Hwn. apply ends_get.
    set (old' := GetAppService id (w_store w1)). set (new' := _ <| CustomParams := _ |>).
    assert (ServiceID new' = id ∧ wf new') as [Hid' Hwf'].
    { split; [by apply (eq_trans (id_deleted old' new))|].
      by apply (wf_same (SetDeletedResources old' new)); [exact (wf_deleted old' new Hwn)|..]. }
    apply ends_after; [by apply ends_start|by rewrite start_or_ok|].
    apply quiet_when, quiet_rule_ports; [by apply (hl_row id)|done..]. }
  destruct third eqn:Et; simpl; [|destruct (port_action (rule_Action b)) eqn:Ep; simpl].
  - rewrite orb_true_r. destruct (GetAppService id (w_store w)) as [a|]; [|by apply (Hstart _ None)].
    destruct (IsClosed a); by apply (Hstart _ (Some a)).
  - destruct (GetAppService id (w_store w)) as [a|]; [|by apply (Hstart _ None)].
    destruct (IsClosed a); by apply (Hstart _ (Some a)).
  - destruct (GetAppService id (w_store w)) as [a|]; simpl; [|by release].
    destruct (IsClosed a); [by release|by apply (Hstart _ (Some a))].
Qed.

Ltac pick_branch := unfold exec_task; cbn [Type_];
  repeat first [rewrite decide_False by done | rewrite decide_True by done].

Lemma task_ends (task : Task) (sid : string) (w : World) :
  store_ok (w_store w) → typed (Type_ task) (Body task) → service_of (Body task) = Some sid →
  ends sid (guard (Body task) (presence_of sid w) (patched (Body task) w) (always (Body task))) w
    (run task w).
Proof.
  intros Hw Ht Hs. destruct task as [t b ct u]. cbn [Type_ Body] in *.
  destruct b; simpl in Ht, Hs; subst; try done; simplify_eq; pick_branch.
  - by apply start_ends.
  - by apply stop_ends.
  - by apply restart_ends.
  - by apply rolling_ends.
  - by apply horizontal_ends.
  - by apply vertical_ends.
  - by apply rule_ends.
  - by apply plugin_ends.
  - by apply refresh_ends.
Qed.


(** *** The error that puts a task back *)

Definition no_callback {A} (m : M World A) : Prop := ∀ w, (m w).2 ≠ Err ErrCallback.

Lemma nc_bind {A B} (m : M World A) (k : A → M World B) :
  no_callback m → (∀ a, no_callback (k a)) → no_callback (m ≫= k).
Proof.
  intros Hm Hk w. rewrite bind_unfold. specialize (Hm w).
  destruct (m w) as [w1 [a|e|]]; [apply Hk| |done]. intros E. apply Hm. simpl in *. congruence.
Qed.

Lemma nc_ret {A} (a : A) : no_callback (mret a).
Proof. done. Qed.
Lemma nc_msg {A} s : no_callback (A := A) (fail (EMsg s)).
Proof. done. Qed.
Lemma nc_wrap {A} s e : no_callback (A := A) (fail (EWrap s e)).
Proof. done. Qed.
Lemma nc_fail {A} e : e ≠ ErrCallback → no_callback (A := A) (fail e).
Proof. intros He w [= ->]. done. Qed.
Lemma nc_gets {A} (f : World → A) : no_callback (gets f).
Proof. done. Qed.
Lemma nc_modify f : no_callback (modify f).
Proof. done. Qed.
Lemma nc_logger e : no_callback (GetLogger e).
Proof. done. Qed.
Lemma nc_start typ a h : known typ → no_callback (start_or NewUUID typ a h).
Proof. intros Hk w. by rewrite start_or_ok. Qed.

Lemma nc_init sid cfg en h : (∀ e, e ≠ ErrCallback → no_callback (h e)) →
  no_callback (init_app InitAppService sid cfg en h).
Proof.
  intros Hh w. unfold init_app. destruct (InitAppService sid cfg en) as [a|e|] eqn:E; [done| |done].
  apply Hh. by eapply hl_error.
Qed.

Lemma nc_store {A} (m : M (Store C) A) : (∀ s, (m s).2 ≠ Err ErrCallback) → no_callback (on_store m).
Proof. intros Hm w. unfold on_store. specialize (Hm (w_store w)). by destruct (m (w_store w)). Qed.

Lemma nc_catch {A} (m : M World A) : no_callback (catch m).
Proof. intros w. unfold catch. by destruct (m w) as [? []]. Qed.

Lemma nc_record sid op old new m : no_callback m → no_callback (with_record (C := C) sid op old new m).
Proof. intros Hm w. unfold with_record. specialize (Hm w). by destruct (m w). Qed.

Lemma nc_forM {A} (l : list A) (f : A → M World unit) :
  (∀ x, no_callback (f x)) → no_callback (forM l f).
Proof. intros Hf. induction l; simpl; [apply nc_ret|]. by apply nc_bind. Qed.

Lemma nc_when b (m : M World unit) : no_callback m → no_callback (when b m).
Proof. by destruct b. Qed.

Create HintDb callback.
#[local] Hint Resolve nc_bind nc_ret nc_fail nc_msg nc_wrap nc_gets nc_modify nc_logger nc_init nc_store
  nc_catch nc_record nc_forM nc_when : callback.
#[local] Hint Extern 1 (no_callback (start_or _ _ _ _)) => (by apply nc_start) : callback.

Lemma nc_msg_after {A} logger msg : no_callback (_ ← ReleaseLogger logger; fail (A := A) (EMsg msg)).
Proof. apply nc_bind; [apply nc_modify|]. intros _. apply nc_msg. Qed.

Lemma nc_release_app logger msg e : no_callback (release_fail_app (C := C) logger msg e).
Proof. apply nc_msg_after. Qed.

Lemma nc_third_party svc : no_callback (on_store (wrap_err "application apply service resource failure:"
  (InitOneThirdPartService kc InitCacheAppService db svc))).
Proof.
  apply nc_store. intros s. unfold wrap_err. by destruct (InitOneThirdPartService _ _ _ _ _) as [? []].
Qed.

Lemma nc_tenant id e : no_callback (tenant_failed (C := C) db id e).
Proof.
  unfold tenant_failed. destruct (db_GetTenantByUUID db id); [apply nc_wrap|].
  destruct (db_UpdateTenant db id); [apply nc_ret|apply nc_modify].
Qed.

Lemma nc_patch id old new : no_callback (upgrade_patch (C := C) encode_statefulset encode_deployment id old new).
Proof. intros w. unfold upgrade_patch. by destruct (SetUpgradePatch _ _ _ _) as [[? ?] ?]. Qed.
#[local] Hint Resolve nc_patch nc_msg_after nc_release_app nc_third_party nc_tenant : callback.

(** Case analysis on what a handler looks at, one bind at a time. *)
Ltac nc_step :=
  first
    [ progress auto with callback | (by intros ?)
    | apply nc_when | apply nc_bind; [|intros ?]
    | match goal with |- no_callback (match ?x with _ => _ end) => destruct x end
    | match goal with |- no_callback (if ?x then _ else _) => destruct x end ].
Ltac nc := repeat nc_step.

Lemma exec_not_callback task : no_callback (run task).
Proof.
  unfold exec_task. repeat (case_decide; [|]); try apply nc_ret.
  - unfold startExec. nc.
  - unfold stopExec. nc.
  - unfold restartExec. nc.
  - unfold horizontalScalingExec. nc.
  - unfold verticalScalingExec. nc.
  - unfold rollingUpgradeExec. nc.
  - unfold applyRuleExec, apply_third_party. nc.
  - unfold applyPluginConfig. nc.
  - unfold ExecServiceGCTask. destruct (Body task); try apply nc_msg. apply nc_forM. by intros ? ?.
  - unfold deleteTenant. nc.
  - unfold ExecRefreshHPATask. nc.
Qed.

Abbreviation analyst := (AnalystToExec kc InitCacheAppService InitAppService encode_statefulset
  encode_deployment db sha224 list_services MaxTasks store_Ready NewUUID).

(** A task is put back exactly when too many controllers run or
    the informers have not synced, and then nothing has been done of it. *)
Theorem callback_iff (task : Task) (w : World) :
  ((analyst (Some task) w).2 = Err ErrCallback ↔
     MaxTasks < size (w_controllers w) ∨ store_Ready = false) ∧
  ((analyst (Some task) w).2 = Err ErrCallback → (analyst (Some task) w).1 = w) ∧
  ((analyst (Some task) w).2 ≠ Err ErrCallback → analyst (Some task) w = run task w).
Proof.
  unfold AnalystToExec, checkCount, GetControllerSize.
  destruct (bool_decide_reflect (MaxTasks < size (w_controllers w))) as [Hc|Hc]; [simpl; intuition congruence|].
  destruct store_Ready; simpl; [|intuition congruence].
  pose proof (exec_not_callback task w) as Hn. intuition congruence.
Qed.

(** The message types the worker executes. *)
Definition handled (taskType : string) : Prop :=
  taskType ∈ ["start"; "stop"; "restart"; "horizontal_scaling"; "vertical_scaling"; "rolling_upgrade";
    "apply_rule"; "apply_plugin_config"; "service_gc"; "delete_tenant"; "refreshhpa"]%string.

#[export] Instance handled_dec t : Decision (handled t).
Proof. unfold handled. apply _. Defined.

Lemma body_typed `{Unmarshal} (m : TaskMessage) : handled (Type_ (TransTask m)) →
  typed (Type_ (TransTask m)) (Body (TransTask m)) ∨ Body (TransTask m) = BNil.
Proof.
  clear HL KubeLaws0. destruct m as [ty body ct u]. unfold TransTask, handled. cbn [Type_ Body tm_TaskType tm_TaskBody].
  intros Hin. repeat (apply elem_of_cons in Hin as [->|Hin]); [..|by apply not_elem_of_nil in Hin];
    unfold NewTaskBody;
    repeat first [rewrite decide_False by done | rewrite decide_True by done];
    match goal with |- context [body_or_nil ?r] => destruct r end; simpl; auto.
Qed.

Lemma run_nil (t : Task) (w : World) : handled (Type_ t) → Body t = BNil → ∃ e, run t w = (w, Err e).
Proof.
  clear HL KubeLaws0. destruct t as [ty b ct u]. unfold handled. cbn [Type_ Body]. intros Hin ->.
  repeat (apply elem_of_cons in Hin as [->|Hin]); [..|by apply not_elem_of_nil in Hin];
    pick_branch; eexists; reflexivity.
Qed.

(** Whatever message arrives, the body decoding gives is the
    one the handler of that type asserts, or nil when the text cannot be read,
    and then the handler fails; a message of another type, such as rollback,
    group_start and group_stop, which decoding knows, is executed as nothing and
    counts as done.  Bodies made by [CreateTaskBody] agree for every type but five. *)
Theorem bodies_agree `{Unmarshal} (m : TaskMessage) (w : World) :
  let t := TransTask m in
  (handled (Type_ t) →
    typed (Type_ t) (Body t) ∨ Body t = BNil ∧ ∃ e, run t w = (w, Err e)) ∧
  (¬ handled (Type_ t) → run t w = (w, Ok ())) ∧
  (handled (Type_ t) → typed (Type_ t) (CreateTaskBody (Type_ t)) ↔
    Type_ t ∉ ["apply_rule"; "apply_plugin_config"; "service_gc"; "delete_tenant"; "refreshhpa"]%string).
Proof.
  clear HL KubeLaws0. cbv zeta. split; [|split].
  - intros Hin. destruct (body_typed m Hin) as [?|Hn]; [by left|right]. split; [done|]. by apply run_nil.
  - destruct m as [ty body ct u]. unfold TransTask, handled. cbn [Type_ Body tm_TaskType tm_TaskBody].
    intros Hin. unfold exec_task. cbn [Type_].
    repeat (rewrite decide_False; [|intros ->; apply Hin; set_solver]). done.
  - unfold TransTask, handled. cbn [Type_ tm_TaskType]. intros Hin.
    repeat (apply elem_of_cons in Hin as [->|Hin]); [..|by apply not_elem_of_nil in Hin];
      (split; [intros Ht Hd; repeat (apply elem_of_cons in Hd as [Hd|Hd]; [done|]);
               try by apply not_elem_of_nil in Hd
              |intros Hd; try done; exfalso; apply Hd; set_solver]).
Qed.

(** Tasks about no component. *)
Lemma collect_safe (l : list gc_call) (w : World) :
  (forM l (λ c, output (Collect c)) w).2 ≠ Panic ∧
  w_store (forM l (λ c, output (Collect c)) w).1 = w_store w.
Proof. revert w. induction l as [|c l IH]; intros w; [done|]. exact (IH (output (Collect c) w).1). Qed.

Lemma delete_tenant_safe b ct u (w : World) : store_ok (w_store w) →
  (run (mkTask "delete_tenant" (BDeleteTenantPtr b) ct u) w).2 ≠ Panic ∧
  store_ok (w_store (run (mkTask "delete_tenant" (BDeleteTenantPtr b) ct u) w).1).
Proof.
  intros Hw. pick_branch. unfold deleteTenant, catch, on_store, on_cluster, api_err, tenant_failed.
  cbn [Body]. rewrite !bind_unfold. destruct (kc_delete _ _ _ _ _) as [c [e|]]; simpl;
    [destruct (IsNotFound e); simpl|]; try destruct (db_DelByTenantID _ _); simpl;
    try destruct (db_GetTenantByUUID _ _); simpl; try destruct (db_UpdateTenant _ _); by split.
Qed.

(** A message crashes the worker only where the conversion of its component
    does, and none breaks the store. *)
Lemma exec_keeps_store `{Unmarshal} (m : TaskMessage) (w : World) : store_ok (w_store w) →
  ((run (TransTask m) w).2 = Panic → ∃ sid, service_of (Body (TransTask m)) = Some sid ∧ conversion_panics sid) ∧
  store_ok (w_store (run (TransTask m) w).1).
Proof.
  intros Hw. pose proof (body_typed m) as Hb. generalize dependent (TransTask m). intros t Hb.
  destruct (decide (handled (Type_ t))) as [Hh|Hh].
  2: { assert (run t w = (w, Ok ())) as ->; [|done]. unfold exec_task, handled in *.
       repeat (rewrite decide_False; [|intros E; apply Hh; set_solver]). done. }
  destruct (Hb Hh) as [Ht|Hn].
  2: { destruct (run_nil t w Hh Hn) as [e ->]. done. }
  destruct (service_of (Body t)) as [sid|] eqn:Es.
  - destruct (task_ends t sid w Hw Ht Es) as [Hr (o & He & _)]. split; [|by apply (eff_ok _ _ _ _ He)].
    intros Hp. exists sid. auto.
  - destruct t as [ty b ct u]. cbn [Type_ Body] in *.
    destruct b; simpl in Ht, Es; subst; try done;
      [|destruct (delete_tenant_safe b ct u w Hw) as [Hp ?]; split; [by intros ?|done]]. clear Hb Hh.
    pick_branch. unfold ExecServiceGCTask. cbn [Body].
    destruct (collect_safe (service_gc sha224 list_services b) w) as [Hp ->]. split; [by intros ?|done].
Qed.

(** The namespace or the row of a tenant could not be deleted. *)
Definition delete_failed (id : string) (w : World) : Prop :=
  match (kc_delete kc KNamespace "" id (st_cluster (w_store w))).2 with
  | Some NotFound | None => db_DelByTenantID db id ≠ None
  | Some _ => True
  end.

(** A tenant that could not be deleted is reported as deleted: the
    task fails only when the row of the tenant cannot be read
    either.  Otherwise it succeeds, and the failure is left in the tenant's
    status, or nowhere when that cannot be written. *)
Theorem delete_tenant_outcome (id ct u : string) (w : World) :
  let res := run (mkTask "delete_tenant" (BDeleteTenantPtr (mkDeleteTenant id)) ct u) w in
  (¬ delete_failed id w → res.2 = Ok () ∧ w_out res.1 = w_out w ++ [TenantDeleted id]) ∧
  (delete_failed id w →
    match db_GetTenantByUUID db id with
    | inl e => res.2 = Err (EWrap "find tenant:" e) ∧ w_out res.1 = w_out w
    | inr _ => res.2 = Ok () ∧
      w_out res.1 = w_out w ++ (if db_UpdateTenant db id is Some _ then [] else [TenantDeleteFailed id])
    end).
Proof.
  pick_branch. unfold deleteTenant, delete_failed, catch, on_store, on_cluster, api_err.
  cbn [Body delete_TenantID]. rewrite !bind_unfold.
  destruct (kc_delete kc KNamespace "" id (st_cluster (w_store w))) as [c [e|]]; simpl.
  - destruct (decide (e = NotFound)) as [->|Hne]; simpl.
    + destruct (db_DelByTenantID db id) as [e'|]; simpl; [|naive_solver].
      split; [intros Hn; by destruct Hn|intros _]. unfold tenant_failed.
      destruct (db_GetTenantByUUID db id); [done|].
      destruct (db_UpdateTenant db id); simpl; [by rewrite app_nil_r|done].
    + unfold IsNotFound. rewrite bool_decide_false by done. simpl.
      assert (match e with NotFound => db_DelByTenantID db id ≠ None | _ => True end ↔ True) as Hf
        by (by destruct e).
      split; [intros Hn; exfalso; tauto|intros _]. unfold tenant_failed.
      destruct (db_GetTenantByUUID db id); [done|].
      destruct (db_UpdateTenant db id); simpl; [by rewrite app_nil_r|done].
  - destruct (db_DelByTenantID db id) as [e'|]; simpl; [|naive_solver].
    split; [intros Hn; by destruct Hn|intros _]. unfold tenant_failed.
    destruct (db_GetTenantByUUID db id); [done|].
    destruct (db_UpdateTenant db id); simpl; [by rewrite app_nil_r|done].
Qed.
End handle_spec.

(** ** Witnesses *)

Definition demo_built (sid : string) : AppService :=
  empty_app (demo_base <| b_ServiceID := sid |>).
Definition demo_init_cache (sid cid : string) : init_error + AppService := inr (demo_built sid).
Definition demo_init (sid : string) (configs : gmap string string) (enabled : list string) :
    result AppService := Ok (demo_built sid).
Definition demo_db : Database :=
  mkDatabase (λ sid, inr (mkTenantServices "tenant" sid "svc" "" 500 128 "" "" 3 "v1" "" "")) (λ _, true) (λ _, inr ()) (λ _, None)
    (λ _, Some (EMsg "row")).

Lemma demo_handler_laws : handler_laws demo_init_cache demo_init demo_db.
Proof.
  split; try done.
  - intros sid cid a [= <-]. split; [done|apply wf_empty_app].
  - intros sid configs enabled a [= <-]. split; [done|apply wf_empty_app].
  - by intros sid row [= <-].
Qed.

Definition demo_world : World RefKube.cluster := mkWorld (mkStore RefKube.empty ∅ 0 ∅ []) ∅ ∅ [].
Definition demo_start_task : Task := mkTask "start" (BStart (mkStart "tenant" "svc" "v1" "event" ∅ [])) "" "".
Definition demo_encoding (w : Workload) : json := JObj [].


Lemma callback_iff_witness :
  (@AnalystToExec RefKube.cluster RefKube.client demo_kinds demo_init_cache demo_init
      demo_encoding demo_encoding demo_db (λ s, s) (λ _ _, None) 50 false (λ _, "id"%string)
      (Some demo_start_task) demo_world).1 = demo_world.
Proof.
  apply (@callback_iff RefKube.cluster RefKube.client demo_kinds
    demo_init_cache demo_init demo_encoding demo_encoding demo_db (λ s, s) (λ _ _, None) 50 false
    (λ _, "id"%string) demo_handler_laws demo_start_task demo_world). reflexivity.
Defined.
