(* ===== verification/Discover.v ===== *)
(** * Receiving tasks

    The loop [Do] of [worker/discover/manager.go]: take a message from the
    queue, execute it, put it back when the handler asks for that. *)
From S2P Require Import Prelude Kube AppService AppStatus Patch Store Sequence Task Gc Handle HandleSpec.

(** The outcome of [Dequeue]: a message, or an error told apart by its text. *)
Inductive dequeued :=
  | GotMessage (m : TaskMessage)
  | DeadlineExceeded | ContextCanceled | ContextTimeout | OtherError.

(** What one round of the loop meets: whether the context is done, what the
    other goroutines did to the world since the last round, whether the informers have
    synced, the outcomes of [Dequeue] and [Enqueue]. *)
Record round (C : Type) := mkRound {
  rd_done : bool;
  rd_env : World C → World C;
  rd_ready : bool;
  rd_dequeue : dequeued;
  rd_enqueue_fails : bool
}.
Arguments rd_done {C} _.
Arguments rd_env {C} _ _.
Arguments rd_ready {C} _.
Arguments rd_dequeue {C} _.
Arguments rd_enqueue_fails {C} _.

(** [tm_received], [tm_executed], [tm_requeued] and [tm_lost] are the history:
    the messages taken from the queue and what became of each. *)
Record TaskManager (C : Type) := mkTaskManager {
  tm_world : World C;
  TaskNum : Z;
  TaskError : Z;
  healthy : bool;
  tm_received : list TaskMessage;
  tm_executed : list TaskMessage;
  tm_requeued : list TaskMessage;
  tm_lost : list TaskMessage
}.
Arguments mkTaskManager {C} _ _ _ _ _ _ _ _.
Arguments tm_world {C} _.
Arguments TaskNum {C} _.
Arguments TaskError {C} _.
Arguments healthy {C} _.
Arguments tm_received {C} _.
Arguments tm_executed {C} _.
Arguments tm_requeued {C} _.
Arguments tm_lost {C} _.
#[export] Instance eta_TaskManager C : Eta (TaskManager C) := λ t,
  mkTaskManager (tm_world t) (TaskNum t) (TaskError t) (healthy t) (tm_received t) (tm_executed t)
    (tm_requeued t) (tm_lost t).

(** How a round ends: the loop goes on, [Do] returns, or a handler panicked. *)
Inductive loop_end := Goes | Returns | Crashes.

Section discover.
Context {C : Type} (kc : KubeClient C) `{ComponentKinds, Unmarshal}.
Context (InitCacheAppService : string → string → init_error + AppService).
Context (InitAppService : string → gmap string string → list string → result AppService).
Context (encode_statefulset encode_deployment : Workload → json).
Context (db : Database).
Context (sha224 : string → string) (list_services : string → gmap string string → option (list string)).
Context (MaxTasks : nat) (NewUUID : Manager → string).

Abbreviation analyst := (AnalystToExec kc InitCacheAppService InitAppService encode_statefulset
  encode_deployment db sha224 list_services MaxTasks).

Definition execute (ready fails : bool) (data : TaskMessage) (t : TaskManager C) : TaskManager C * loop_end :=
  let t := t <| tm_received ::= λ l, l ++ [data] |> in
  match analyst ready NewUUID (Some (TransTask data)) (tm_world t) with
  | (w, Ok _) =>
    (t <| tm_world := w |> <| TaskNum ::= λ n, (n + 1)%Z |> <| tm_executed ::= λ l, l ++ [data] |>, Goes)
  | (w, Err rc) =>
    let t := t <| tm_world := w |> in
    if decide (rc = ErrCallback) then
      (if fails then t <| tm_lost ::= λ l, l ++ [data] |> else t <| tm_requeued ::= λ l, l ++ [data] |>, Goes)
    else (t <| TaskError ::= λ n, (n + 1)%Z |> <| tm_executed ::= λ l, l ++ [data] |>, Goes)
  | (w, Panic) => (t <| tm_world := w |>, Crashes)
  end.

Definition do_round (r : round C) (t : TaskManager C) : TaskManager C * loop_end :=
  let t := t <| tm_world ::= rd_env r |> in
  if rd_done r then (t, Returns) else
  match rd_dequeue r with
  | GotMessage data => execute (rd_ready r) (rd_enqueue_fails r) data t
  | DeadlineExceeded | ContextTimeout | OtherError => (t, Goes)
  | ContextCanceled => (t <| healthy := false |>, Returns)
  end.

Fixpoint Do (rounds : list (round C)) (t : TaskManager C) : TaskManager C * loop_end :=
  match rounds with
  | [] => (t, Goes)
  | r :: rounds' =>
    match do_round r t with
    | (t', Goes) => Do rounds' t'
    | res => res
    end
  end.
End discover.

(** ** Properties *)

Section discover_spec.
Context {C : Type} (kc : KubeClient C) (kl : C → ∀ k, string → string → option (obj k)).
Context `{!KubeLaws kc kl, ComponentKinds, Unmarshal}.
Context (InitCacheAppService : string → string → init_error + AppService).
Context (InitAppService : string → gmap string string → list string → result AppService).
Context (encode_statefulset encode_deployment : Workload → json).
Context (db : Database).
Context (sha224 : string → string) (list_services : string → gmap string string → option (list string)).
Context (MaxTasks : nat) (NewUUID : Manager → string).
Context {HL : handler_laws InitCacheAppService InitAppService db}.

Abbreviation Do := (Do kc InitCacheAppService InitAppService encode_statefulset
  encode_deployment db sha224 list_services MaxTasks NewUUID).
Abbreviation execute := (execute kc InitCacheAppService InitAppService encode_statefulset
  encode_deployment db sha224 list_services MaxTasks NewUUID).
Abbreviation do_round := (do_round kc InitCacheAppService InitAppService encode_statefulset
  encode_deployment db sha224 list_services MaxTasks NewUUID).

(** The books of the loop, with the messages at work, and the store. *)
Record accounted (enqueue_ok : Prop) (at_work : list TaskMessage) (t : TaskManager C) : Prop := {
  ac_messages : tm_received t ≡ₚ at_work ++ tm_executed t ++ tm_requeued t ++ tm_lost t;
  ac_counts : (TaskNum t + TaskError t)%Z = Z.of_nat (length (tm_executed t));
  ac_lost : enqueue_ok → tm_lost t = [];
  ac_store : store_ok (w_store (tm_world t))
}.

(** The message is about a component whose conversion crashes. *)
Definition crashing (data : TaskMessage) : Prop :=
  ∃ sid, service_of (Body (TransTask data)) = Some sid ∧ conversion_panics InitAppService sid.

(** A round or a loop that ended with [e]: all is accounted for, or the message
    at work crashed the worker. *)
Definition well_ended (enqueue_ok : Prop) (res : TaskManager C * loop_end) : Prop :=
  match res.2 with
  | Crashes => ∃ data, crashing data ∧ accounted enqueue_ok [data] res.1
  | _ => accounted enqueue_ok [] res.1
  end.

Lemma execute_accounted (P : Prop) ready fails data t : (P → fails = false) → accounted P [] t →
  well_ended P (execute ready fails data t) ∧ (execute ready fails data t).2 ≠ Returns.
Proof.
  intros HP [Hm Hc Hl Hs]. unfold Discover.execute. simpl. unfold AnalystToExec.
  assert (∀ w, store_ok (w_store w) → accounted P []
    ((if fails then (t <| tm_received ::= λ l, l ++ [data] |> <| tm_world := w |>) <| tm_lost ::= λ l, l ++ [data] |>
      else (t <| tm_received ::= λ l, l ++ [data] |> <| tm_world := w |>) <| tm_requeued ::= λ l, l ++ [data] |>))) as Hput.
  { intros w Hw. destruct fails; split; simpl; auto.
    - rewrite Hm. solve_Permutation.
    - intros Hp. by specialize (HP Hp).
    - rewrite Hm. solve_Permutation. }
  destruct (checkCount _ _); [split; [by apply Hput|done]|].
  destruct ready; simpl; [|split; [by apply Hput|done]].
  destruct (exec_keeps_store kc kl InitCacheAppService InitAppService encode_statefulset encode_deployment
    db sha224 list_services NewUUID data (tm_world t) Hs) as [Hp Hs'].
  pose proof (exec_not_callback kc InitCacheAppService InitAppService encode_statefulset encode_deployment
    db sha224 list_services NewUUID (TransTask data) (tm_world t)) as Hn.
  destruct (exec_task _ _ _ _ _ _ _ _ _ _ _) as [w [[]|e|]]; (split; [|try done]); unfold well_ended; cbn [snd].
  - split; simpl; auto.
    + rewrite Hm. solve_Permutation.
    + rewrite length_app. simpl. lia.
  - rewrite decide_False by (simpl in Hn; congruence). split; simpl; auto.
    + rewrite Hm. solve_Permutation.
    + rewrite length_app. simpl. lia.
  - by case_decide.
  - exists data. split; [by apply Hp|]. split; simpl; auto. rewrite Hm. solve_Permutation.
Qed.

(** The other goroutines keep the store well formed: [Store.store_history]. *)
Definition fair_env (r : round C) : Prop :=
  ∀ w, store_ok (w_store w) → store_ok (w_store (rd_env r w)).

(** The rounds in which [Do] returns. *)
Definition stops (r : round C) : Prop := rd_done r = true ∨ rd_dequeue r = ContextCanceled.

Lemma do_round_accounted (P : Prop) r t : (P → rd_enqueue_fails r = false) → fair_env r → accounted P [] t →
  well_ended P (do_round r t) ∧ ((do_round r t).2 = Returns ↔ stops r).
Proof.
  intros HP Henv [Hm Hc Hl Hs]. unfold Discover.do_round, stops.
  assert (accounted P [] (t <| tm_world ::= rd_env r |>)) as Ha by (split; simpl; auto).
  destruct (rd_done r); [naive_solver|].
  destruct (rd_dequeue r) as [data| | | |] eqn:Ed; try (split; [done|split; [done|naive_solver]]).
  - destruct (execute_accounted P (rd_ready r) (rd_enqueue_fails r) data _ HP Ha) as [Ha' Hne].
    split; [done|]. naive_solver.
  - split; [by destruct Ha|]. split; [auto|done].
Qed.

End discover_spec.

(** ** Witness *)

Definition no_unmarshal : Unmarshal := {|
  un_start _ := None; un_stop _ := None; un_restart _ := None; un_rolling _ := None;
  un_rollback _ := None; un_group_start _ := None; un_group_stop _ := None; un_horizontal _ := None;
  un_vertical _ := None; un_rule _ := None; un_plugin _ := None; un_gc _ := None;
  un_delete_tenant _ := None; un_refresh _ := None
|}.

Definition demo_round (ready : bool) (d : dequeued) : round RefKube.cluster :=
  mkRound _ false (λ w, w) ready d false.
Definition demo_manager : TaskManager RefKube.cluster := mkTaskManager demo_world 0 0 true [] [] [] [].
Definition demo_message : TaskMessage := mkMessage "start" "?" "" "".

