(* ===== verification/ConversionSpec.v ===== *)
(** * What the conversions build

    The theorems about [Conversion], and the instance of the class the task
    handlers ask for. *)
From S2P Require Import Prelude Kube AppService Store Task Handle HandleSpec Conversion.

Section base.
Context (db : ConversionDB) (NewTimeVersion : string).

Lemma common_labels_owner (ls : list (gmap string string)) (v : string) (a : AppService) :
  foldl (λ m l, l ∪ m) ∅ ls !! "version"%string = Some v →
  owner_of (GetCommonLabels ls a) = mkOwner (ServiceID a) v (b_CreaterID (base a)).
Proof.
  intros Hv. unfold owner_of, GetCommonLabels. f_equal; unfold get_str.
  - by rewrite !lookup_insert_ne, lookup_insert_eq by done.
  - rewrite !lookup_insert_ne by done. by rewrite Hv.
  - by rewrite !lookup_insert_ne, lookup_insert_eq by done.
Qed.

Lemma workload_owner ts labels a :
  owner_of (workload_labels ts labels a) = mkOwner (ServiceID a) (ts_DeployVersion ts) (b_CreaterID (base a)).
Proof.
  apply common_labels_owner. simpl. apply lookup_union_Some_l.
  by rewrite lookup_insert_ne, lookup_singleton_eq by done.
Qed.

(** The workload a service row asks for. *)
Definition workload_name (ts : TenantServices) : string :=
  if IsState ts then
    if decide (ts_ServiceName ts = ""%string) then ts_ServiceAlias ts else ts_ServiceName ts
  else (ts_ServiceID ts +:+ "-deployment")%string.

(** Where the workload of a component is. *)
Definition built_workload (state : bool) (a : AppService) : option Workload :=
  if state then statefulset a else deployment a.

(** What [initBaseStatefulSet] and [initBaseDeployment] have in common. *)
Lemma init_base_spec (state : bool) ts a a' :
  (if state then initBaseStatefulSet ts a else initBaseDeployment ts a) = Ok a' →
  IsState ts = state →
  ∃ w, built_workload state a' = Some w ∧ built_workload (negb state) a' = built_workload (negb state) a ∧
    wl_name w = workload_name ts ∧ m_Namespace (wl_meta w) = ts_TenantID ts ∧
    wl_Replicas w = Some (int32 (ts_Replicas ts)) ∧ Replicas a' = int32 (ts_Replicas ts) ∧
    owner_of (m_Labels (wl_meta w)) = mkOwner (ServiceID a) (ts_DeployVersion ts) (b_CreaterID (base a)) ∧
    wl_Selector w !! "service_id"%string = Some (ts_ServiceID ts).
Proof.
  unfold workload_name. destruct state; intros E ->.
  - unfold initBaseStatefulSet, SetStatefulSet in E. simpl in E. injection E as <-.
    eexists. split; [reflexivity|]. split; [done|]. unfold wl_name. simpl.
    split_and!; try done; [by rewrite workload_owner|apply lookup_insert_eq].
  - unfold initBaseDeployment, SetDeployment in E. simpl in E. injection E as <-.
    eexists. split; [reflexivity|]. split; [done|]. unfold wl_name. simpl.
    split_and!; try done; [by rewrite workload_owner|apply lookup_insert_eq].
Qed.

Lemma init_base_keeps (state : bool) ts a a' :
  (if state then initBaseStatefulSet ts a else initBaseDeployment ts a) = Ok a' →
  (wf a → wf a') ∧ ServiceID a' = ServiceID a ∧ TenantID a' = TenantID a ∧
  b_CreaterID (base a') = b_CreaterID (base a).
Proof.
  destruct state; intros E.
  - unfold initBaseStatefulSet, SetStatefulSet in E. simpl in E. injection E as <-.
    split; [intros ?; by apply (wf_same a)|done].
  - unfold initBaseDeployment, SetDeployment in E. simpl in E. injection E as <-.
    split; [intros ?; by apply (wf_same a)|done].
Qed.

Lemma wf_base f a : wf a → wf (a <| base ::= f |>).
Proof. intros Ha. by apply (wf_same a). Qed.

(** What [TenantServiceBase] has read when it succeeds, and the component
    it hands to the workload constructors. *)
Lemma service_base_inv a a' : TenantServiceBase db NewTimeVersion a = Ok a' →
  ∃ ts tn a1, cd_GetServiceByID db (ServiceID a) = inr ts ∧
    cd_GetTenantByUUID db (ts_TenantID ts) = inr tn ∧ tn_UUID tn ≠ ""%string ∧
    base a1 = (base_of NewTimeVersion ts tn (base a)) <| b_IsWindowsService := b_IsWindowsService (base a1) |> ∧
    statefulset a1 = statefulset a ∧ deployment a1 = deployment a ∧ pl_name <$> tenant a1 = Some (tn_UUID tn) ∧
    (wf a → wf a1) ∧
    (if decide (ts_Kind ts = ServiceKindThirdParty) then Ok a1
     else if IsState ts then initBaseStatefulSet ts a1 else initBaseDeployment ts a1) = Ok a'.
Proof.
  unfold TenantServiceBase, initTenant.
  destruct (cd_GetServiceByID db (ServiceID a)) as [e|ts]; [by destruct (decide (e = ERecordNotFound))|].
  destruct (cd_GetTenantByUUID db (ts_TenantID ts)) as [e|tn] eqn:Et; [done|].
  destruct (decide (tn_UUID tn = ""%string)) as [|Hu]; [done|].
  set (a0 := SetTenant _ _). assert (wf a → wf a0) as Hwf by (intros ?; by apply (wf_same a)).
  destruct (decide (ts_Kind ts = ServiceKindThirdParty)) as [Hk|Hk].
  - intros E. exists ts, tn, a0. rewrite decide_True by done. split_and!; done.
  - intros E. set (a1 := if cd_windows_label db (ServiceID a0)
      then a0 <| base ::= λ b, b <| b_IsWindowsService := true |> |> else a0) in E.
    exists ts, tn, a1. rewrite decide_False by done. unfold a1. destruct (cd_windows_label db (ServiceID a0)).
    + split_and!; [reflexivity|exact Et|exact Hu|reflexivity..| |].
      * intros Hw. exact (wf_base _ a0 (Hwf Hw)).
      * rewrite <- E. by destruct (IsState ts).
    + split_and!; [reflexivity|exact Et|exact Hu|reflexivity..|exact Hwf|].
      rewrite <- E. by destruct (IsState ts).
Qed.

(** C12 (functional): the base conversion of a component takes its tenant, its version (unless
    it has one) and its counts from the database.  A third-party component
    gets no workload; a stateful one gets exactly a stateful set and any other
    one exactly a deployment, named after the row, in the tenant's namespace,
    with the row's replicas as far as 32 bits hold them.  The labels of the workload name the
    component, so the informer callback that later sees it in the cluster
    gives it back to this component, provided it has a version and a
    creator. *)
Theorem base_builds_workload (a a' : AppService) (Hrun : TenantServiceBase db NewTimeVersion a = Ok a')
    (Hrow : ∀ sid row, cd_GetServiceByID db sid = inr row → ts_ServiceID row = sid) :
  ∃ ts, cd_GetServiceByID db (ServiceID a) = inr ts ∧
    ServiceID a' = ServiceID a ∧ TenantID a' = ts_TenantID ts ∧ (wf a → wf a') ∧
    if decide (ts_Kind ts = ServiceKindThirdParty)
    then statefulset a' = statefulset a ∧ deployment a' = deployment a
    else ∃ w, built_workload (IsState ts) a' = Some w ∧
      built_workload (negb (IsState ts)) a' = built_workload (negb (IsState ts)) a ∧
      wl_name w = workload_name ts ∧ m_Namespace (wl_meta w) = TenantID a' ∧
      wl_Replicas w = Some (int32 (ts_Replicas ts)) ∧ Replicas a' = int32 (ts_Replicas ts) ∧
      wl_Selector w !! "service_id"%string = Some (ServiceID a) ∧
      let ow := owner_of (m_Labels (wl_meta w)) in
      ow_service ow = ServiceID a ∧
      (owned_version ow = true ↔
        ServiceID a ≠ ""%string ∧ ts_DeployVersion ts ≠ ""%string ∧ b_CreaterID (base a') ≠ ""%string).
Proof.
  destruct (service_base_inv a a' Hrun) as (ts & tn & a1 & Hts & _ & _ & Hb & Hs & Hd & _ & Hwf & E).
  exists ts. split; [done|].
  assert (ServiceID a1 = ServiceID a) as Hid by (unfold ServiceID; by rewrite Hb).
  assert (TenantID a1 = ts_TenantID ts) as Ht by (unfold TenantID; by rewrite Hb).
  destruct (decide (ts_Kind ts = ServiceKindThirdParty)) as [Hk|Hk].
  { injection E as <-. auto. }
  destruct (init_base_keeps (IsState ts) ts a1 a') as (Hwf' & Hid' & Ht' & Hc'); [by destruct (IsState ts)|].
  destruct (init_base_spec (IsState ts) ts a1 a') as (w & H1 & H2 & H3 & H4 & H5 & H6 & H7 & H8);
    [by destruct (IsState ts)|done|].
  split_and!; [congruence|congruence|auto|].
  exists w. cbv zeta. rewrite H7, Hc'.
  split; [done|]. split; [rewrite H2; by destruct (IsState ts)|]. split; [done|].
  split; [congruence|]. split; [done|]. split; [done|].
  split; [rewrite H8; f_equal; by apply Hrow|]. split; [done|].
  unfold owned_version, owned, nonempty_string. simpl.
  rewrite !andb_true_iff, !negb_true_iff, !bool_decide_eq_false, Hid. tauto.
Qed.
End base.

(** ** Sources *)

Section sources.
Context (db : ConversionDB).
Context (decode_workload : string → error + Workload) (decode_configmap : string → error + ConfigMap).

Definition workload_source (ssc : TenantServiceSource) : Prop :=
  ss_SourceType ssc = "deployment"%string ∨ ss_SourceType ssc = "statefulset"%string.

(** A source that is stored without failing. *)
Definition accepted (ssc : TenantServiceSource) : Prop :=
  (workload_source ssc → ∃ w, decode_workload (ss_SourceBody ssc) = inr w ∧ wl_Replicas w ≠ None) ∧
  (ss_SourceType ssc = "configmap"%string → ∃ cm, decode_configmap (ss_SourceBody ssc) = inr cm).

(** A workload whose text does not state its replicas. *)
Definition without_replicas (ssc : TenantServiceSource) : Prop :=
  workload_source ssc ∧ ∃ w, decode_workload (ss_SourceBody ssc) = inr w ∧ wl_Replicas w = None.

Lemma add_source_outcome ssc a :
  match add_source decode_workload decode_configmap ssc a with
  | Ok _ => accepted ssc
  | Err e => ¬ accepted ssc ∧ ¬ without_replicas ssc ∧ ∃ e', e = decode_error e'
  | Panic => without_replicas ssc
  end.
Proof.
  unfold add_source, accepted, without_replicas, workload_source.
  destruct (decide (ss_SourceType ssc = "deployment"%string)) as [E1|E1].
  { destruct (decode_workload (ss_SourceBody ssc)) as [e|w].
    - split_and!; [intros [H _]; destruct H; [by left|naive_solver]|naive_solver|by eexists].
    - unfold SetDeployment. destruct (wl_Replicas w) eqn:Er; [|by eauto].
      split; [by intros _; exists w; rewrite Er|]. rewrite E1. done. }
  destruct (decide (ss_SourceType ssc = "statefulset"%string)) as [E2|E2].
  { destruct (decode_workload (ss_SourceBody ssc)) as [e|w].
    - split_and!; [intros [H _]; destruct H; [by right|naive_solver]|naive_solver|by eexists].
    - unfold SetStatefulSet. destruct (wl_Replicas w) eqn:Er; [|by eauto].
      split; [by intros _; exists w; rewrite Er|]. rewrite E2. done. }
  destruct (decide (ss_SourceType ssc = "configmap"%string)) as [E3|E3].
  - destruct (decode_configmap (ss_SourceBody ssc)) as [e|cm].
    + split_and!; [intros [_ H]; destruct H; [done|naive_solver]|naive_solver|by eexists].
    + split; [intros []; done|by eauto].
  - split; [intros []; done|done].
Qed.

Lemma accepted_not ssc : accepted ssc → ¬ without_replicas ssc.
Proof. intros [H _] (Hs & w & Hw & Hn). destruct (H Hs) as (w' & Hw' & Hn'). congruence. Qed.

(** The first source that is not accepted decides. *)
Lemma add_sources_outcome sscs a :
  match add_sources decode_workload decode_configmap sscs a with
  | Ok _ => Forall accepted sscs
  | Err e => (∃ e', e = decode_error e') ∧ ∃ l ssc l', sscs = l ++ ssc :: l' ∧ Forall accepted l ∧
      ¬ accepted ssc ∧ ¬ without_replicas ssc
  | Panic => ∃ l ssc l', sscs = l ++ ssc :: l' ∧ Forall accepted l ∧ without_replicas ssc
  end.
Proof.
  revert a. induction sscs as [|ssc sscs IH]; intros a; simpl; [constructor|].
  pose proof (add_source_outcome ssc a) as Ho.
  destruct (add_source _ _ ssc a) as [a1|e|]; simpl.
  - specialize (IH a1). destruct (add_sources _ _ sscs a1) as [a2|e|]; [by constructor| |].
    + destruct IH as [He (l & x & l' & -> & Hl & Hx)]. split; [done|].
      exists (ssc :: l), x, l'. split; [done|]. split; [by constructor|done].
    + destruct IH as (l & x & l' & -> & Hl & Hx). exists (ssc :: l), x, l'.
      split; [done|]. split; [by constructor|done].
  - destruct Ho as (Hn & Hr & He). split; [done|]. exists [], ssc, sscs. by split_and!.
  - exists [], ssc, sscs. by split_and!.
Qed.

(** Storing the sources of a component crashes the worker exactly
    when, before any source that cannot be decoded, there is a workload whose
    text leaves its number of replicas to Kubernetes' default. *)
Theorem service_source_panics (a : AppService) (sscs : list TenantServiceSource)
    (Hs : cd_GetServiceSource db (ServiceID a) = inr sscs) :
  ServiceSource db decode_workload decode_configmap a = Panic ↔
  ∃ l ssc l', sscs = l ++ ssc :: l' ∧ Forall accepted l ∧ without_replicas ssc.
Proof.
  unfold ServiceSource. rewrite Hs. pose proof (add_sources_outcome sscs a) as Ho.
  assert (∀ l x l1 k y k1, l ++ x :: l1 = k ++ y :: k1 → Forall accepted l → Forall accepted k →
    ¬ accepted x → ¬ accepted y → x = y) as Hfirst.
  { intros l. induction l as [|z l IH]; intros x l1 [|u k] y k1 E Hl Hk Hx Hy; simpl in E; simplify_eq; try done.
    - by apply Forall_cons in Hk as [? _].
    - by apply Forall_cons in Hl as [? _].
    - apply Forall_cons in Hl as [_ Hl], Hk as [_ Hk]. by eapply IH. }
  destruct (add_sources _ _ sscs a) as [a1|e|]; split; try done.
  - intros (l & x & l' & -> & Hl & Hx). apply Forall_app in Ho as [_ Ho]. apply Forall_cons in Ho as [Ha _].
    by apply accepted_not in Ha.
  - intros (l & x & l' & -> & Hl & Hx). destruct Ho as [_ (k & y & k' & E & Hk & Hy & Hny)].
    assert (¬ accepted x) as Hax by (intros ?; by eapply accepted_not).
    by assert (x = y) as -> by (by eapply Hfirst).
Qed.
End sources.

(** ** The drivers *)

Lemma preserving_fold {X} (f : X → AppService → AppService) (l : list X) :
  (∀ x, preserving (λ a, Ok (f x a))) → preserving (λ a, Ok (foldl (λ a x, f x a) a l)).
Proof.
  intros Hf. split. intros a a' Hwf [= <-]. revert a Hwf.
  induction l as [|x l IH]; intros a Hwf; [done|]. cbn [foldl].
  destruct (pres_run _ (Hf x) a (f x a) Hwf eq_refl) as [Hwf' <-]. by apply IH.
Qed.

(** What a conversion owes the rest: it keeps the component's id and names,
    and never returns the error that puts a task back. *)
Class sound_conversion (c : Conversion) : Prop := {
  sc_keeps : preserving c;
  sc_error a e : c a = Err e → e ≠ ErrCallback
}.

Section drivers.
Context (db : ConversionDB).
Context (decode_workload : string → error + Workload) (decode_configmap : string → error + ConfigMap).
Context (NewTimeVersion : string) (secret_rest : gmap string string → opaque).
Context (Version Plugin Regist Autoscaler Monitor : Conversion).
Context `{!sound_conversion Version, !sound_conversion Plugin, !sound_conversion Regist,
  !sound_conversion Autoscaler, !sound_conversion Monitor}.

Lemma preserving_add_source ssc : preserving (add_source decode_workload decode_configmap ssc).
Proof.
  split. intros a a' Hwf. unfold add_source.
  repeat case_decide; try (destruct (decode_workload _)); try (destruct (decode_configmap _)); try done.
  - apply (pres_run _ (preserving_op (OpSetDeployment w)) a a' Hwf).
  - apply (pres_run _ (preserving_op (OpSetStatefulSet w)) a a' Hwf).
  - apply (pres_run _ (preserving_op (OpSetConfigMap p)) a a' Hwf).
  - by apply (pres_run _ preserving_ok).
Qed.

#[export] Instance sound_ServiceSource : sound_conversion (ServiceSource db decode_workload decode_configmap).
Proof.
  split.
  - split. intros a a' Hwf. unfold ServiceSource.
    destruct (cd_GetServiceSource db (ServiceID a)) as [e|sscs].
    { case_decide; [|done]. by intros [= <-]. }
    revert a Hwf. induction sscs as [|ssc sscs IH]; intros a Hwf; simpl; [by intros [= <-]|].
    destruct (add_source _ _ ssc a) as [a1|e|] eqn:E; [|done..]. simpl. intros Hr.
    destruct (pres_run _ (preserving_add_source ssc) a a1 Hwf E) as [Hwf1 <-]. by apply IH.
  - intros a e. unfold ServiceSource. destruct (cd_GetServiceSource db (ServiceID a)) as [e'|sscs].
    { case_decide; [done|]. by intros [= <-]. }
    intros E. pose proof (add_sources_outcome decode_workload decode_configmap sscs a) as Ho.
    rewrite E in Ho. by destruct Ho as [[e' ->] _].
Qed.

#[export] Instance sound_TenantServiceBase : sound_conversion (TenantServiceBase db NewTimeVersion).
Proof.
  split.
  - split. intros a a' Hwf Hr.
    destruct (service_base_inv db NewTimeVersion a a' Hr) as (ts & tn & a1 & _ & _ & _ & Hb & _ & _ & _ & Hwf1 & E).
    assert (ServiceID a1 = ServiceID a) as Hid by (unfold ServiceID; by rewrite Hb).
    case_decide; [injection E as <-; auto|].
    destruct (init_base_keeps (IsState ts) ts a1 a') as (Hwf' & Hid' & _); [by destruct (IsState ts)|].
    split; [auto|congruence].
  - intros a e. unfold TenantServiceBase, initTenant, initBaseStatefulSet, initBaseDeployment,
      SetStatefulSet, SetDeployment. simpl.
    destruct (cd_GetServiceByID db (ServiceID a)) as [e'|ts]; [case_decide; by intros [= <-]|].
    destruct (cd_GetTenantByUUID db (ts_TenantID ts)) as [e'|tn]; [by intros [= <-]|].
    destruct (decide (tn_UUID tn = ""%string)); [by intros [= <-]|].
    destruct (decide (ts_Kind ts = ServiceKindThirdParty)); [done|]. by destruct (IsState ts).
Qed.

#[export] Instance sound_TenantServiceConfigGroup :
  sound_conversion (TenantServiceConfigGroup db secret_rest).
Proof.
  split.
  - split. intros a a' Hwf. unfold TenantServiceConfigGroup.
    destruct (cd_config_groups db (ServiceID a)) as [e|groups]; [done|].
    destruct (group_secrets _ _ groups a) as [e|l]; [done|]. intros [= <-]. split; [by apply (wf_same a)|done].
  - intros a e. unfold TenantServiceConfigGroup.
    destruct (cd_config_groups db (ServiceID a)) as [e'|groups]; [by intros [= <-]|].
    destruct (group_secrets _ _ groups a) as [e'|l]; [by intros [= <-]|done].
Qed.

Abbreviation InitAppService := (InitAppService db decode_workload decode_configmap NewTimeVersion
  secret_rest Version Plugin Regist Autoscaler Monitor).
Abbreviation InitCacheAppService := (InitCacheAppService db NewTimeVersion Regist).
Abbreviation conversionList := (conversionList db decode_workload decode_configmap NewTimeVersion
  secret_rest Version Plugin Regist Autoscaler Monitor).

Lemma conversions_sound : Forall (λ nc, sound_conversion nc.2) conversionList.
Proof. repeat (apply Forall_cons; split; [apply _|]). constructor. Qed.

Lemma run_conversions_sound enabled l a : Forall (λ nc, sound_conversion nc.2) l → wf a →
  match run_conversions enabled l a with
  | Ok a' => wf a' ∧ ServiceID a' = ServiceID a
  | Err e => e ≠ ErrCallback
  | Panic => True
  end.
Proof.
  intros Hl. revert a. induction Hl as [|[name c] l Hc _ IH]; intros a Hwf; simpl; [done|].
  destruct (_ || _); [|by apply IH]. destruct (c a) as [a1|e|] eqn:E; simpl; [| |done].
  - destruct (pres_run _ (sc_keeps (c := c)) a a1 Hwf E) as [Hwf1 <-]. by apply IH.
  - by eapply (sc_error (c := c)).
Qed.

Lemma init_component_sound sid cid cfg :
  match init_component db sid cid cfg with
  | Ok a => wf a ∧ ServiceID a = sid
  | Err e => e ≠ ErrCallback
  | Panic => False
  end.
Proof.
  unfold init_component. destruct (cd_GetByServiceID db sid) as [e|[mode|]]; [done|..];
    (split; [apply wf_empty_app|done]).
Qed.

(** The enabled conversions, in the order of registration. *)
Definition enabled_conversions (enabled : list string) : list Conversion :=
  (filter (λ nc, bool_decide (enabled = []) || StringArrayContains enabled nc.1 = true) conversionList).*2.

Lemma run_conversions_fold enabled l a :
  run_conversions enabled l a =
    foldl then_do (Ok a)
      (filter (λ nc, bool_decide (enabled = []) || StringArrayContains enabled nc.1 = true) l).*2.
Proof.
  assert (∀ cs (r : result AppService), foldl then_do r cs = then_do r (λ a, foldl then_do (Ok a) cs)) as Hf.
  { induction cs as [|c cs IH]; intros r; simpl; [by destruct r|].
    rewrite IH. destruct r as [a0| |]; simpl; [|done..]. by rewrite (IH (c a0)). }
  revert a. induction l as [|[name c] l IH]; intros a; [done|]. cbn [run_conversions]. rewrite filter_cons.
  cbn [fst]. destruct (bool_decide (enabled = []) || StringArrayContains enabled name).
  - rewrite decide_True by done. rewrite fmap_cons. cbn [snd foldl then_do]. rewrite Hf.
    destruct (c a) as [a1| |]; simpl; [apply IH|done..].
  - rewrite decide_False by done. apply IH.
Qed.

(** What the informers get: the two errors they tell apart. *)
Definition cache_app (sid cid : string) : init_error + AppService :=
  match InitCacheAppService sid cid with
  | Ok a => inr a
  | Err e => inl (if decide (e = EServiceNotFound) then ErrServiceNotFound else InitFailure)
  | Panic => inl InitFailure
  end.

Lemma cache_app_sound : init_sound cache_app.
Proof.
  intros sid cid a. unfold cache_app, Conversion.InitCacheAppService.
  pose proof (init_component_sound sid cid ∅) as Hi.
  destruct (init_component _ _ _ _) as [a0|e|]; cbn [then_do]; [|done..]. destruct Hi as [Hwf <-].
  destruct (TenantServiceBase db NewTimeVersion a0) as [a1|e|] eqn:E; cbn [then_do]; [|done..].
  destruct (pres_run _ (sc_keeps (c := TenantServiceBase db NewTimeVersion)) a0 a1 Hwf E) as [Hwf1 <-].
  destruct (cd_GetServiceByID db (ServiceID a1)) as [e|svc]; [done|].
  case_decide; [|intros [= <-]; done].
  destruct (Regist a1) as [a2|e|] eqn:E2; [|done..]. intros [= <-].
  destruct (pres_run _ (sc_keeps (c := Regist)) a1 a2 Hwf1 E2). done.
Qed.

(** A conversion that never crashes. *)
Class safe_conversion (c : Conversion) : Prop := sc_safe a : c a ≠ Panic.

#[export] Instance safe_TenantServiceBase : safe_conversion (TenantServiceBase db NewTimeVersion).
Proof.
  intros a. unfold TenantServiceBase, initTenant, initBaseStatefulSet, initBaseDeployment,
    SetStatefulSet, SetDeployment. simpl.
  destruct (cd_GetServiceByID db (ServiceID a)) as [e|ts]; [by case_decide|].
  destruct (cd_GetTenantByUUID db (ts_TenantID ts)) as [e|tn]; [done|].
  destruct (decide (tn_UUID tn = ""%string)); [done|].
  destruct (decide (ts_Kind ts = ServiceKindThirdParty)); [done|]. by destruct (IsState ts).
Qed.

#[export] Instance safe_TenantServiceConfigGroup :
  safe_conversion (TenantServiceConfigGroup db secret_rest).
Proof.
  intros a. unfold TenantServiceConfigGroup.
  destruct (cd_config_groups db (ServiceID a)) as [e|groups]; [done|].
  by destruct (group_secrets _ _ groups a).
Qed.

Lemma safe_ServiceSource :
  (∀ sid sscs, cd_GetServiceSource db sid = inr sscs → Forall (λ ssc, ¬ without_replicas decode_workload ssc) sscs) →
  safe_conversion (ServiceSource db decode_workload decode_configmap).
Proof.
  intros Hs a. unfold ServiceSource. destruct (cd_GetServiceSource db (ServiceID a)) as [e|sscs] eqn:E;
    [by case_decide|].
  intros Hp. pose proof (add_sources_outcome decode_workload decode_configmap sscs a) as Ho. rewrite Hp in Ho.
  destruct Ho as (l & x & l' & -> & _ & Hx). apply Hs in E. apply Forall_app in E as [_ E].
  by apply Forall_cons in E as [E _].
Qed.

Lemma run_conversions_safe enabled l a : Forall (λ nc, safe_conversion nc.2) l →
  run_conversions enabled l a ≠ Panic.
Proof.
  intros Hl. revert a. induction Hl as [|[name c] l Hc _ IH]; intros a; simpl; [done|].
  destruct (_ || _); [|apply IH]. destruct (c a) as [a1|e|] eqn:E; simpl; [apply IH|done|by apply Hc in E].
Qed.

(** Building a component does not crash when every stored workload source states
    its replicas and the conversions not modelled here do not crash. *)
Lemma init_app_safe `{!safe_conversion Version, !safe_conversion Plugin, !safe_conversion Regist,
    !safe_conversion Autoscaler, !safe_conversion Monitor}
    (Hs : ∀ sid sscs, cd_GetServiceSource db sid = inr sscs →
      Forall (λ ssc, ¬ without_replicas decode_workload ssc) sscs) sid :
  ¬ conversion_panics InitAppService sid.
Proof.
  pose proof (safe_ServiceSource Hs) as Hsafe.
  assert (Forall (λ nc, safe_conversion nc.2) conversionList) as Hl
    by (repeat (apply Forall_cons; split; [apply _|]); constructor).
  intros (configs & enabled & Hp). unfold Conversion.InitAppService in Hp.
  destruct (init_component _ _ _ _) as [a0|e|] eqn:E; cbn [then_do] in Hp; [|done|].
  - by eapply run_conversions_safe in Hp.
  - pose proof (init_component_sound sid "" configs) as Hi. by rewrite E in Hi.
Qed.

(** What the task handlers ask for, from the conversions: the remaining hypothesis is that
    a row has the id it is found under. *)
Lemma conversion_handler_laws (tdb : Database)
    (Hrow : ∀ sid row, db_GetServiceByID tdb sid = inr row → ts_ServiceID row = sid) :
  handler_laws cache_app InitAppService tdb.
Proof.
  split; [apply cache_app_sound| |exact Hrow|];
    intros sid configs enabled; unfold Conversion.InitAppService;
    pose proof (init_component_sound sid "" configs) as Hi;
    destruct (init_component _ _ _ _) as [a0|e|]; cbn [then_do]; try done.
  - intros a E. destruct Hi as [Hwf <-].
    pose proof (run_conversions_sound enabled _ a0 conversions_sound Hwf) as Hr. rewrite E in Hr. tauto.
  - intros e E. destruct Hi as [Hwf <-].
    pose proof (run_conversions_sound enabled _ a0 conversions_sound Hwf) as Hr. by rewrite E in Hr.
  - intros e' [= <-]. done.
Qed.

(** Building a component runs exactly the enabled
    conversions, all of them when none is named, in the order of registration, up to the
    first that fails.  What it returns has the id it was asked for and distinct names
    in every family, and its errors never put a task back; the same for the
    component the informers create. *)
Theorem init_app_sound (sid : string) (configs : gmap string string) (enabled : list string) (cid : string) :
  InitAppService sid configs enabled =
    then_do (init_component db sid "" configs) (λ a, foldl then_do (Ok a) (enabled_conversions enabled)) ∧
  match InitAppService sid configs enabled with
  | Ok a => ServiceID a = sid ∧ wf a
  | Err e => e ≠ ErrCallback
  | Panic => True
  end ∧
  match InitCacheAppService sid cid with
  | Ok a => ServiceID a = sid ∧ wf a
  | _ => True
  end.
Proof.
  unfold Conversion.InitAppService, Conversion.InitCacheAppService, enabled_conversions. split; [|split].
  - destruct (init_component _ _ _ _) as [a| |]; cbn [then_do]; [apply run_conversions_fold|done..].
  - pose proof (init_component_sound sid "" configs) as Hi.
    destruct (init_component _ _ _ _) as [a|e|]; cbn [then_do]; [|done..]. destruct Hi as [Hwf <-].
    pose proof (run_conversions_sound enabled _ a conversions_sound Hwf) as Hr.
    destruct (run_conversions _ _ a); [|done..]. tauto.
  - pose proof (cache_app_sound sid cid) as Hc. unfold cache_app, Conversion.InitCacheAppService in Hc.
    destruct (then_do _ _); [by apply Hc|done..].
Qed.
End drivers.

(** ** Autoscalers *)

(** The rules among [rules] whose metrics are all unusable. *)
Definition metricless (db : ConversionDB) (rule : TenantServiceAutoscalerRules) : Prop :=
  ∃ ms, cd_autoscaler_metrics db (ar_RuleID rule) = inr ms ∧ Forall (λ m, usable m = false) ms.

Lemma newHPA_none ns k n ls rule ms :
  newHPA ns k n ls rule ms = None ↔ Forall (λ m, usable m = false) ms.
Proof.
  unfold newHPA. case_decide as E.
  - split; [intros _|done]. apply map_eq_nil in E. apply Forall_forall. intros m Hm.
    apply not_true_iff_false. intros Hu.
    assert (m ∈ filter (λ m, usable m = true) ms) as Hin by (by apply list_elem_of_filter).
    rewrite E in Hin. by apply not_elem_of_nil in Hin.
  - split; [done|]. intros Hall. exfalso. apply E. f_equal.
    induction Hall as [|m ms Hm _ IH]; [done|]. rewrite filter_cons_False by congruence.
    apply IH. intros E'. apply E. by rewrite filter_cons_False by congruence.
Qed.

Lemma hpas_of_spec db a rules :
  match hpas_of db a rules with
  | Ok l => Forall2 (λ rule h,
      (h = None ↔ metricless db rule) ∧
      ∀ x, h = Some x → hpa_Name x = ar_RuleID rule ∧ hpa_Namespace x = TenantID a ∧
        Some (hpa_TargetKind x, hpa_TargetName x) = scale_target a ∧ hpa_Metrics x ≠ []) rules l
  | Panic => rules ≠ [] ∧ scale_target a = None
  | Err e => ∃ rule, rule ∈ rules ∧ cd_autoscaler_metrics db (ar_RuleID rule) = inl e
  end.
Proof.
  induction rules as [|rule rules IH]; simpl; [constructor|].
  destruct (cd_autoscaler_metrics db (ar_RuleID rule)) as [e|ms] eqn:Em.
  { exists rule. split; [apply list_elem_of_here|done]. }
  destruct (scale_target a) as [[k n]|] eqn:Et; [|done].
  destruct (hpas_of db a rules) as [l|e|]; simpl.
  - constructor; [|done]. split.
    + rewrite newHPA_none. unfold metricless. rewrite Em. naive_solver.
    + intros x Hx. unfold newHPA in Hx. case_decide; [done|]. by injection Hx as <-.
  - destruct IH as (r & Hr & He). exists r. split; [by apply list_elem_of_further|done].
  - by destruct IH.
Qed.

(** There is one autoscaler for each enabled rule, named after
    the rule and aimed at the component's workload; but a rule without a
    usable metric gives a nil one, which is stored like the others, and a component
    without a workload crashes the worker as soon as it has a rule. *)
Theorem autoscalers_built (db : ConversionDB) (a : AppService) rules
    (Hr : cd_autoscaler_rules db (ServiceID a) = inr rules) :
  match newHPAs db a with
  | Ok l => Forall2 (λ rule h,
      (h = None ↔ metricless db rule) ∧
      ∀ x, h = Some x → hpa_Name x = ar_RuleID rule ∧ hpa_Namespace x = TenantID a ∧
        Some (hpa_TargetKind x, hpa_TargetName x) = scale_target a ∧ hpa_Metrics x ≠ []) rules l
  | Panic => rules ≠ [] ∧ statefulset a = None ∧ deployment a = None
  | Err e => ∃ rule, rule ∈ rules ∧ cd_autoscaler_metrics db (ar_RuleID rule) = inl e
  end.
Proof.
  unfold newHPAs. rewrite Hr. pose proof (hpas_of_spec db a rules) as Hs.
  destruct (hpas_of db a rules); [done..|]. destruct Hs as [Hne Ht]. split; [done|].
  unfold scale_target, GetStatefulSet, GetDeployment in Ht.
  by destruct (statefulset a), (deployment a).
Qed.

(** ** Examples *)

Definition demo_row (sid : string) : TenantServices :=
  mkTenantServices "tenant" sid "web" "" 500 128 "Rolling" "state_multiple" 3 "v1" "" "app".
Definition demo_rules : list TenantServiceAutoscalerRules := [mkRule "r1" 1 5; mkRule "r2" 1 5].
Definition demo_metrics (rule : string) : list TenantServiceAutoscalerRuleMetrics :=
  if decide (rule = "r1"%string) then [mkMetric "resource_metrics" "cpu" "utilization" 80]
  else [mkMetric "resource_metrics" "cpu" "utilization" 0].
Definition demo_conversion_db : ConversionDB :=
  mkConversionDB (λ _, inr None) (λ sid, inr (demo_row sid)) (λ _, inr (mkTenants "team" "tenant"))
    (λ _, inl ERecordNotFound) (λ _, false) (λ _, inr []) (λ _ _, inr []) (λ _, inr demo_rules)
    (λ r, inr (demo_metrics r)).
Definition demo_component : AppService :=
  empty_app (mkBase "" "" "" "svc" "" "" "" "" 0 0 "" 0 false false "boss" [] ∅ GovernanceModeBuildInServiceMesh).
Definition demo_built : AppService :=
  match TenantServiceBase demo_conversion_db "2021" demo_component with Ok a => a | _ => demo_component end.

Lemma base_builds_workload_witness :
  ∃ w, statefulset demo_built = Some w ∧ wl_name w = "web"%string ∧ wl_Replicas w = Some 3%Z ∧
    owned_version (owner_of (m_Labels (wl_meta w))) = true.
Proof.
  destruct (base_builds_workload demo_conversion_db "2021" demo_component demo_built eq_refl)
    as (ts & Hts & _ & _ & _ & Hw).
  { intros sid row H. cbn in H. by injection H as <-. }
  cbn in Hts. injection Hts as <-. destruct Hw as (w & H1 & _ & H2 & _ & H3 & _ & _ & _ & H4).
  exists w. split; [exact H1|]. split; [exact H2|]. split; [exact H3|]. by apply H4.
Defined.

Lemma no_conversion_sound : sound_conversion Ok.
Proof. split; [apply preserving_ok|done]. Qed.

Lemma init_app_sound_witness : ∃ a,
  Conversion.InitAppService demo_conversion_db (λ _, inl (EMsg "text")) (λ _, inl (EMsg "text")) "2021"
    (λ _, ""%string) Ok Ok Ok Ok Ok "svc" ∅ [] = Ok a ∧ ServiceID a = "svc"%string ∧ wf a.
Proof.
  pose proof no_conversion_sound as Hs.
  destruct (init_app_sound demo_conversion_db (λ _, inl (EMsg "text")) (λ _, inl (EMsg "text")) "2021"
    (λ _, ""%string) Ok Ok Ok Ok Ok "svc" ∅ [] "boss") as [_ [H _]].
  destruct (Conversion.InitAppService _ _ _ _ _ _ _ _ _ _ _ _ _) as [a|e|] eqn:E;
    [|vm_compute in E; discriminate E..].
  exists a. split; [reflexivity|exact H].
Defined.

(** The second rule, whose metric asks for nothing, gives a nil autoscaler. *)
Lemma autoscalers_built_witness : ∃ x,
  newHPAs demo_conversion_db demo_built = Ok [Some x; None] ∧ hpa_TargetName x = "web"%string.
Proof.
  pose proof (autoscalers_built demo_conversion_db demo_built demo_rules eq_refl) as H.
  destruct (newHPAs demo_conversion_db demo_built) as [l| |] eqn:E; [|vm_compute in E; discriminate E..].
  inversion H as [|? h1 ? ? [_ H1] H']; subst. inversion H' as [|? h2 ? ? _ H'']; subst. inversion H''; subst.
  vm_compute in E. injection E as <- <-. eexists. split; [reflexivity|].
  destruct (H1 _ eq_refl) as (_ & _ & Ht & _). vm_compute in Ht. reflexivity.
Defined.
