(* ===== verification/GatewaySpec.v ===== *)
(** * What the gateway conversion builds

    The theorems about [Gateway], and the instances that let
    [TenantServiceRegist] stand for the corresponding parameter of
    [Conversion]. *)
From S2P Require Import Prelude Kube AppService Store Ensure Conversion Gateway.
From S2P Require Import Handle HandleSpec ConversionSpec.
From stdpp Require Import pretty.

(** ** Names *)

(** The digits of a number hold neither a dash nor a letter. *)
Definition is_digit (c : Ascii.ascii) : Prop := 48 ≤ Ascii.nat_of_ascii c ≤ 57.
#[export] Instance is_digit_dec c : Decision (is_digit c).
Proof. unfold is_digit. apply _. Defined.
Fixpoint all_digits (s : string) : Prop :=
  match s with EmptyString => True | String c s' => is_digit c ∧ all_digits s' end.

Lemma pretty_N_char_digit x : is_digit (pretty_N_char x).
Proof. unfold pretty_N_char. repeat case_match; apply (bool_decide_unpack (is_digit _)); reflexivity. Qed.

Lemma pretty_N_go_digits x s : all_digits s → all_digits (pretty_N_go x s).
Proof.
  revert s. induction (N.lt_wf_0 x) as [x _ IH]. intros s Hs.
  destruct (decide (x = 0)%N) as [->|Hx]; [by rewrite pretty_N_go_0|].
  rewrite pretty_N_go_step by lia. apply IH; [apply N.div_lt; lia|].
  split; [apply pretty_N_char_digit|done].
Qed.

Lemma pretty_digits (z : Z) : (0 ≤ z)%Z → all_digits (pretty z).
Proof.
  intros Hz. destruct z as [|p|p]; [|clear Hz|lia].
  - split; [apply (bool_decide_unpack (is_digit _)); reflexivity|done].
  - change (all_digits (pretty (N.pos p))). unfold pretty, pretty_N.
    rewrite decide_False by done. by apply pretty_N_go_digits.
Qed.

(** A number is cut off at the dash behind it. *)
Lemma digits_dash s s' t t' : all_digits s → all_digits s' →
  (s +:+ ("-" +:+ t))%string = (s' +:+ ("-" +:+ t'))%string → s = s' ∧ t = t'.
Proof.
  assert (¬ is_digit (Ascii.ascii_of_nat 45)) as Hd by (apply (bool_decide_unpack (¬ is_digit _)); reflexivity).
  revert s'. induction s as [|c s IH]; intros [|c' s']; simpl.
  - intros _ _ E. injection E as E. exact (conj eq_refl E).
  - intros _ [Hc _] E. injection E as <- _. done.
  - intros [Hc _] _ E. injection E as -> _. done.
  - intros [_ Hs] [_ Hs'] E. injection E as -> E. by destruct (IH s' Hs Hs' E) as [-> ->].
Qed.

Lemma append_length s t : String.length (s +:+ t) = String.length s + String.length t.
Proof. induction s as [|c s IH]; simpl; [done|]. by rewrite IH. Qed.

Lemma append_cancel_l s t t' : (s +:+ t)%string = (s +:+ t')%string → t = t'.
Proof. induction s as [|c s IH]; simpl; [done|]. intros [= E]. auto. Qed.

(** Names of the services of a port that has no name of its own. *)
Definition unnamed (p : TenantServicesPort) : Prop := tp_K8sServiceName p = ""%string ∧ (0 ≤ tp_ID p)%Z.

Definition generated_name (id : Z) (rest : string) : string :=
  ("service-" +:+ pretty id +:+ ("-" +:+ rest))%string.

Lemma generated_name_id id id' r r' : (0 ≤ id)%Z → (0 ≤ id')%Z →
  generated_name id r = generated_name id' r' → id = id' ∧ r = r'.
Proof.
  intros Hi Hi' E. apply append_cancel_l in E.
  apply digits_dash in E as [E ->]; [|by apply pretty_digits..]. by apply (inj pretty) in E.
Qed.

(** ** Rules *)

Definition result_ok {A} (r : result A) : option A := if r is Ok x then Some x else None.

Lemma skip_failed_spec {A B} (f : A → result B) l : (∀ x, x ∈ l → f x ≠ Panic) →
  skip_failed f l = Ok (omap (λ x, result_ok (f x)) l).
Proof.
  induction l as [|x l IH]; intros Hp; [done|]. cbn [skip_failed omap list_omap].
  specialize (IH ltac:(intros y Hy; apply Hp; by apply list_elem_of_further)).
  pose proof (Hp x (list_elem_of_here _ _)). destruct (f x) as [y| |]; [|done..].
  by rewrite IH.
Qed.

(** [EX_DOMAIN] leaves something of the domain. *)
Definition domain_ok (EX_DOMAIN : string) : Prop := EX_DOMAIN = ""%string ∨ first_field EX_DOMAIN ≠ ""%string.

Section spec.
Context (gdb : GatewayDB) (EX_DOMAIN : string) (secret_rest : gmap string string → opaque).

Abbreviation applyHTTPRule := (applyHTTPRule gdb EX_DOMAIN secret_rest).
Abbreviation ApplyRules := (ApplyRules gdb EX_DOMAIN secret_rest).
Abbreviation build_port := (build_port gdb EX_DOMAIN secret_rest).
Abbreviation build_ports := (build_ports gdb EX_DOMAIN secret_rest).
Abbreviation Build := (Build gdb EX_DOMAIN secret_rest).

Lemma default_domain_panics t s p : createDefaultDomain EX_DOMAIN t s p = Panic ↔ ¬ domain_ok EX_DOMAIN.
Proof.
  unfold createDefaultDomain, domain_ok. case_decide; [naive_solver|].
  destruct (first_field EX_DOMAIN); split; try done; [tauto|]. intros Hn. exfalso. apply Hn. by right.
Qed.

Lemma rule_secret_name a rule sec : rule_secret gdb secret_rest a rule = Ok sec →
  (sec = None ↔ hr_CertificateID rule = ""%string) ∧
  ∀ s, sec = Some s → pl_name s = hr_UUID rule ∧ m_Namespace (pl_meta s) = tn_UUID (ab_tenant a).
Proof.
  unfold rule_secret. case_decide as Hc; [by intros [= <-]|].
  destruct (gd_certificate gdb (hr_CertificateID rule)) as [e|[cert|]]; try done.
  case_decide; [done|]. intros [= <-]. split; [done|]. by intros s [= <-].
Qed.

Lemma rule_secret_panics a rule : rule_secret gdb secret_rest a rule ≠ Panic.
Proof.
  unfold rule_secret. case_decide; [done|].
  destruct (gd_certificate gdb (hr_CertificateID rule)) as [e|[cert|]]; [done| |done]. by case_decide.
Qed.

(** The ingress of a rule that is applied. *)
Record http_ingress (a : AppServiceBuild) (rule : HTTPRule) (port : Z) (service : Service)
    (i : Ingress) (sec : option Secret) : Prop := {
  hi_name : ing_name i = hr_UUID rule;
  hi_ns : m_Namespace (ing_meta i) = tn_UUID (ab_tenant a);
  hi_route : ∃ domain path, path ≠ ""%string ∧
    ing_Rules i = [mkIngressRule domain [(path, mkBackend (svc_name service) (int32 port))]] ∧
    ing_TLS i = (if sec is Some s then [mkTLS [domain] (pl_name s)] else []);
  hi_secret : sec = None ↔ hr_CertificateID rule = ""%string;
  hi_sec_name s : sec = Some s → pl_name s = hr_UUID rule ∧ m_Namespace (pl_meta s) = tn_UUID (ab_tenant a)
}.

Lemma http_rule_inv a rule cp pcp svc i sec :
  applyHTTPRule a rule cp pcp svc = Ok (i, sec) → http_ingress a rule pcp svc i sec.
Proof.
  unfold Gateway.applyHTTPRule. set (dom := if decide (drop_spaces (hr_Domain rule) = ""%string) then _ else _).
  destruct dom as [d| |]; [|done..]. cbn [then_do].
  destruct (rule_secret gdb secret_rest a rule) as [s| |] eqn:Es; [|done..]. cbn [then_do].
  destruct (gd_extensions gdb (hr_UUID rule)) as [e|exts]; [done|].
  destruct (gd_configs gdb (hr_UUID rule)) as [e|cfgs]; [done|]. intros [= <- <-].
  destruct (rule_secret_name a rule s Es) as [Hn Hs].
  split; [done|done| |exact Hn|exact Hs].
  eexists _, _. split; [|split; [reflexivity|reflexivity]]. by case_decide.
Qed.

Lemma http_rule_panics a rule cp pcp svc : domain_ok EX_DOMAIN → applyHTTPRule a rule cp pcp svc ≠ Panic.
Proof.
  intros Hd. unfold Gateway.applyHTTPRule.
  set (dom := if decide (drop_spaces (hr_Domain rule) = ""%string) then _ else _).
  assert (dom ≠ Panic) as Hdom. { unfold dom. case_decide; [|done]. rewrite default_domain_panics. tauto. }
  destruct dom as [d| |]; [|done..]. cbn [then_do].
  pose proof (rule_secret_panics a rule). destruct (rule_secret gdb secret_rest a rule) as [s| |]; [|done..].
  cbn [then_do]. destruct (gd_extensions gdb (hr_UUID rule)) as [e|exts]; [done|].
  by destruct (gd_configs gdb (hr_UUID rule)) as [e|cfgs].
Qed.

Definition tcp_ingress (a : AppServiceBuild) (service : Service) (p : ServicePort) (rule : TCPRule) : Ingress :=
  mkIngress
    (zero_meta <| m_Name := tr_UUID rule |> <| m_Namespace := tn_UUID (ab_tenant a) |>
       <| m_Labels := GetCommonLabels [] (ab_appService a) |>
       <| m_Annotations := <[GetAnnotationWithPrefix "l4-port" := pretty (tr_Port rule)]>
          (<[GetAnnotationWithPrefix "l4-host" := tr_IP rule]>
          {[GetAnnotationWithPrefix "l4-enable" := "true"%string]}) |>)
    [] [] (Some (mkBackend (svc_name service) (sp_Port p))) "".

(** The outcome of [ApplyRules], rule by rule. *)
Definition applied_rules (a : AppServiceBuild) (sid : string) (cp pcp : Z) (svc : Service) (p : ServicePort) :
    list Ingress * list (option Secret) :=
  let http := omap (λ rule, result_ok (applyHTTPRule a rule cp pcp svc))
                (rules_or_none (gd_http_rules gdb sid cp)) in
  (http.*1 ++ (tcp_ingress a svc p <$> rules_or_none (gd_tcp_rules gdb sid cp)), http.*2).

Lemma apply_rules_eq a sid cp pcp svc p ps : domain_ok EX_DOMAIN → svc_Ports svc = p :: ps →
  ApplyRules a sid cp pcp svc = Ok (applied_rules a sid cp pcp svc p).
Proof.
  intros Hd Hp. unfold Gateway.ApplyRules, applied_rules.
  rewrite skip_failed_spec by (intros; by apply http_rule_panics). cbn [then_do].
  rewrite skip_failed_spec by (intros; unfold applyTCPRule; by rewrite Hp). cbn [then_do].
  do 3 f_equal. induction (rules_or_none (gd_tcp_rules gdb sid cp)) as [|r rs IH]; [done|].
  cbn [omap list_omap]. rewrite fmap_cons, IH. unfold applyTCPRule. by rewrite Hp.
Qed.

(** ** Ports *)

(** The two flags of a row are set. *)
Definition flagged (p : TenantServicesPort) : Prop :=
  tp_IsInnerService p ≠ None ∧ tp_IsOuterService p ≠ None.

Definition native (a : AppServiceBuild) : Prop :=
  b_GovernanceMode (base (ab_appService a)) = GovernanceModeKubernetesNativeService.
#[export] Instance native_dec a : Decision (native a).
Proof. unfold native. apply _. Defined.

Definition inner_service (a : AppServiceBuild) (p : TenantServicesPort) : Service :=
  if decide (native a) then createKubernetesNativeService a p else createInnerService a p.

Definition port_services (a : AppServiceBuild) (p : TenantServicesPort) : list Service :=
  (if decide (tp_IsInnerService p = Some true) then [inner_service a p] else []) ++
  (if decide (tp_IsOuterService p = Some true) then [createOuterService a p] else []).

(** The rules of a port are those of the port the plugin took it from. *)
Definition rules_port (pp : gmap Z Z) (p : TenantServicesPort) : Z :=
  let o := origin_port pp (int32 (tp_ContainerPort p)) in
  if decide (o = 0)%Z then tp_ContainerPort p else o.

Definition port_rules (a : AppServiceBuild) (pp : gmap Z Z) (p : TenantServicesPort) :
    list Ingress * list (option Secret) :=
  if decide (tp_IsOuterService p = Some true) then
    applied_rules a (tp_ServiceID p) (rules_port pp p) (tp_ContainerPort p) (createOuterService a p)
      (mkServicePort (port_name (conversionPortProtocol (tp_Protocol p)) (tp_ContainerPort p))
         (conversionPortProtocol (tp_Protocol p)) (int32 (tp_ContainerPort p)) (int32 (tp_ContainerPort p)))
  else ([], []).

Lemma build_port_eq a pp p : domain_ok EX_DOMAIN → flagged p →
  build_port a pp p = Ok (mkResources (port_services a p) (port_rules a pp p).2 (port_rules a pp p).1).
Proof.
  intros Hd [Hi Ho]. unfold Gateway.build_port, port_services, port_rules, inner_service, native, rules_port.
  destruct (tp_IsInnerService p) as [i|]; [|done]. destruct (tp_IsOuterService p) as [[]|]; [| |done].
  - erewrite apply_rules_eq by done. cbn [then_do]. rewrite (decide_True (P := Some true = _)) by done.
    by destruct i.
  - rewrite (decide_False (P := Some false = _)) by done. by destruct i.
Qed.

Lemma build_ports_eq a pp ps : domain_ok EX_DOMAIN → Forall flagged ps →
  build_ports a pp ps = Ok (mkResources (ps ≫= port_services a)
    (ps ≫= λ p, (port_rules a pp p).2) (ps ≫= λ p, (port_rules a pp p).1)).
Proof.
  intros Hd Hf. induction Hf as [|p ps Hp _ IH]; [done|]. cbn [Gateway.build_ports].
  rewrite build_port_eq by done. cbn [then_do]. rewrite IH. done.
Qed.

(** A service behind a plugin remembers the port it serves. *)
Definition with_origin (pp : gmap Z Z) (s : Service) : Service :=
  match svc_Ports s with
  | [] => s
  | p :: _ => s <| svc_meta ::= λ m,
      m <| m_Labels ::= <["origin_port"%string := pretty (origin_port pp (sp_Port p))]> |> |>
  end.

Lemma with_origin_keeps pp s : svc_name (with_origin pp s) = svc_name s ∧ svc_Spec (with_origin pp s) = svc_Spec s.
Proof. unfold with_origin. by destruct (svc_Ports s). Qed.

Lemma mapping_service_eq pp l :
  CreateUpstreamPluginMappingService l pp =
    if decide (Exists (λ s, svc_Ports s = []) l) then Panic else Ok (with_origin pp <$> l).
Proof.
  induction l as [|s l IH]; [rewrite decide_False; [done|by intros ?%Exists_nil]|].
  cbn [CreateUpstreamPluginMappingService]. rewrite IH, fmap_cons.
  unfold with_origin at 2. destruct (svc_Ports s) as [|q qs] eqn:Es.
  { by rewrite decide_True by (by left). }
  destruct (decide (Exists (λ s, svc_Ports s = []) l)) as [H|H].
  - by rewrite decide_True by (by right).
  - rewrite decide_False; [done|]. rewrite Exists_cons. intros [H'|H']; [congruence|done].
Qed.

Definition stateful_services (a : AppServiceBuild) (ps : list TenantServicesPort) : list Service :=
  if decide (ab_replicationType a = TypeStatefulSet) then [createStatefulService a ps] else [].

Lemma port_services_ports a ps : Forall (λ s, svc_Ports s ≠ []) (ps ≫= port_services a).
Proof.
  apply Forall_bind, Forall_true. intros p. unfold port_services, inner_service.
  apply Forall_app. split; case_decide; repeat (apply Forall_cons; split); try apply Forall_nil; try done.
  by case_decide.
Qed.

Lemma no_ports_iff a ps :
  Exists (λ s, svc_Ports s = []) ((ps ≫= port_services a) ++ stateful_services a ps) ↔
  ab_replicationType a = TypeStatefulSet ∧ ps = [].
Proof.
  rewrite Exists_app. unfold stateful_services. split.
  - intros [H|H].
    + exfalso. apply Exists_exists in H as (s & Hs & He).
      pose proof (port_services_ports a ps) as Hf. rewrite Forall_forall in Hf. by apply (Hf s).
    + case_decide; [|by apply Exists_nil in H]. split; [done|].
      apply Exists_cons in H as [H|H]; [|by apply Exists_nil in H]. by destruct ps.
  - intros [H ->]. right. rewrite decide_True by done. by left.
Qed.

(** Building the network of a component whose rows can be
    read gives, port after port, the services its flags ask for and the rules of the
    port it had before a plugin took it over, where a rule that fails is
    left out and hides no other; a stateful component gets its headless service on top. The
    one exception is a stateful component without ports behind an upstream
    plugin: it crashes the worker. *)
Theorem build_outcome (a : AppServiceBuild) (ports : list TenantServicesPort) (crt : bool) (pp : gmap Z Z)
    (Hports : mapped_ports gdb a = Ok (ports, crt, pp)) (Hflags : Forall flagged ports)
    (Hdomain : domain_ok EX_DOMAIN) :
  Build a =
    if decide (crt = true ∧ ab_replicationType a = TypeStatefulSet ∧ ports = []) then Panic
    else Ok (mkResources
      ((if crt then with_origin pp else id) <$> ((ports ≫= port_services a) ++ stateful_services a ports))
      (ports ≫= λ p, (port_rules a pp p).2) (ports ≫= λ p, (port_rules a pp p).1)).
Proof.
  unfold Gateway.Build. rewrite Hports. cbn [then_do]. rewrite build_ports_eq by done. cbn [then_do k8s_Services].
  fold (stateful_services a ports). destruct crt.
  - rewrite mapping_service_eq. destruct (decide (Exists _ _)) as [H|H]; rewrite no_ports_iff in H; cbn [then_do].
    + by rewrite decide_True by tauto.
    + by rewrite decide_False by tauto.
  - rewrite decide_False by (by intros [? _]). cbn [then_do]. by rewrite list_fmap_id.
Qed.
End spec.

(** ** Distinct names *)

Lemma inner_name_generated a p : unnamed p → ¬ native a →
  svc_name (inner_service a p) = generated_name (tp_ID p) (pretty (tp_ContainerPort p)).
Proof.
  intros [Hn _] Hnat. unfold inner_service. rewrite decide_False by done. unfold svc_name. simpl.
  unfold inner_name. by rewrite decide_True.
Qed.

Lemma outer_name_generated a p :
  svc_name (createOuterService a p) = generated_name (tp_ID p) (pretty (tp_ContainerPort p) +:+ "out").
Proof. done. Qed.

Lemma port_services_names a p n : unnamed p → ¬ native a →
  n ∈ svc_name <$> port_services a p → ∃ r, n = generated_name (tp_ID p) r.
Proof.
  intros Hu Hn. unfold port_services. rewrite fmap_app, elem_of_app. intros [H|H]; case_decide;
    try (by apply not_elem_of_nil in H); apply list_elem_of_singleton in H as ->.
  - rewrite inner_name_generated by done. by eexists.
  - by eexists.
Qed.

Lemma port_services_NoDup a p : unnamed p → ¬ native a → NoDup (svc_name <$> port_services a p).
Proof.
  intros Hu Hn. unfold port_services. repeat case_decide; simpl; try apply NoDup_nil_2;
    repeat (apply NoDup_singleton).
  apply NoDup_cons. split; [|apply NoDup_singleton]. rewrite list_elem_of_singleton.
  rewrite inner_name_generated, outer_name_generated by done. intros E.
  apply generated_name_id in E as [_ E]; [|apply Hu..].
  apply (f_equal String.length) in E. rewrite append_length in E. simpl in E. lia.
Qed.

Lemma ports_services_NoDup a ps : ¬ native a → Forall unnamed ps → NoDup (tp_ID <$> ps) →
  NoDup (svc_name <$> (ps ≫= port_services a)).
Proof.
  intros Hn Hu. induction Hu as [|p ps Hp Hu IH]; [intros; apply NoDup_nil_2|].
  rewrite fmap_cons, NoDup_cons, bind_cons, fmap_app. intros [Hid Hnd]. apply NoDup_app.
  split; [by apply port_services_NoDup|]. split; [|by apply IH].
  intros n Hin Hin'. apply port_services_names in Hin as [r ->]; [|done..].
  apply list_elem_of_fmap in Hin' as (s & Hs & Hin'). apply list_elem_of_bind in Hin' as (q & Hsq & Hq).
  assert (unnamed q) as Hq' by (rewrite Forall_forall in Hu; by apply Hu).
  destruct (port_services_names a q (svc_name s) Hq' Hn) as [r' E].
  { apply list_elem_of_fmap. eauto. }
  rewrite E in Hs. apply generated_name_id in Hs as [Hs _]; [|apply Hp|apply Hq'].
  apply Hid. apply list_elem_of_fmap. eauto.
Qed.

(** ** Storing *)

Lemma services_SetSecrets l a : services (foldl (λ a s, SetSecret s a) a l) = services a.
Proof. revert a. induction l as [|s l IH]; intros a; [done|]. cbn [foldl]. rewrite IH. by destruct s. Qed.

Lemma services_SetIngresses l a : services (foldl (λ a i, SetIngress i a) a l) = services a.
Proof. revert a. induction l as [|i l IH]; intros a; [done|]. cbn [foldl]. by rewrite IH. Qed.

Definition zero_service : Service := mkService zero_meta (mkServiceSpec [] ∅ "" "" false "").

Lemma services_regist l a s n : NoDup (svc_name <$> l) →
  to_map svc_name (services (foldl (λ a s, SetService s a) a l)) !! n =
    match find_by svc_name n l with Some s => Some s | None => to_map svc_name (services a) !! n end
  ∧ (s ∈ l → find_by svc_name (svc_name s) l = Some s).
Proof.
  revert a. induction l as [|x l IH]; intros a Hnd; [split; [done|by intros ?%not_elem_of_nil]|].
  rewrite fmap_cons, NoDup_cons in Hnd. destruct Hnd as [Hx Hnd]. cbn [foldl find_by]. split.
  - rewrite (proj1 (IH (SetService x a) Hnd)).
    change (services (SetService x a)) with (upsert svc_name x (services a)).
    rewrite to_map_upsert, lookup_insert. case_decide as Hn.
    + subst n. apply find_by_None in Hx. by rewrite Hx.
    + by destruct (find_by svc_name n l).
  - intros [->|Hin]%elem_of_cons; [by rewrite decide_True|].
    rewrite decide_False; [by apply (IH a Hnd)|]. intros E. apply Hx. rewrite E. by apply list_elem_of_fmap_2.
Qed.

Section regist.
Context (gdb : GatewayDB) (EX_DOMAIN : string) (secret_rest : gmap string string → opaque) (db : ConversionDB).

(** When the services of a component take their generated names,
    no two of its ports share one: registering the network stores, for every
    port, each service its flags ask for under its own name with its own
    ports and selector, and leaves every service of another name alone. *)
Theorem regist_network (a a' : AppService) (b : AppServiceBuild) (ports : list TenantServicesPort)
    (crt : bool) (pp : gmap Z Z)
    (Hrun : TenantServiceRegist gdb EX_DOMAIN secret_rest db a = Ok a')
    (Hb : AppServiceBuilder db (ServiceID a) (b_ServiceType (base a)) a = Ok b)
    (Hports : mapped_ports gdb b = Ok (ports, crt, pp)) (Hflags : Forall flagged ports)
    (Hdomain : domain_ok EX_DOMAIN) (Hnames : Forall unnamed ports) (Hids : NoDup (tp_ID <$> ports))
    (Hnative : ¬ native b) (Hstateful : ∀ id r, svc_name (createStatefulService b ports) ≠ generated_name id r) :
  let built := (ports ≫= port_services b) ++ stateful_services b ports in
  (∀ s, s ∈ built → ∃ s', to_map svc_name (services a') !! svc_name s = Some s' ∧ svc_Spec s' = svc_Spec s) ∧
  ∀ n, n ∉ svc_name <$> built → to_map svc_name (services a') !! n = to_map svc_name (services a) !! n.
Proof.
  intros built. unfold TenantServiceRegist in Hrun. rewrite Hb in Hrun. cbn [then_do] in Hrun.
  assert (NoDup (svc_name <$> built)) as Hnd.
  { unfold built. rewrite fmap_app. apply NoDup_app. split; [by apply ports_services_NoDup|].
    unfold stateful_services. split; [|case_decide; [apply NoDup_singleton|apply NoDup_nil_2]].
    intros n Hn. case_decide; [|apply not_elem_of_nil]. simpl. rewrite list_elem_of_singleton. intros ->.
    apply list_elem_of_fmap in Hn as (s & Hs & Hin). apply list_elem_of_bind in Hin as (q & Hsq & Hq).
    rewrite Forall_forall in Hnames. destruct (port_services_names b q (svc_name s)) as [r Hr]; [by apply Hnames|done|..].
    { by apply list_elem_of_fmap_2. }
    apply (Hstateful (tp_ID q) r). congruence. }
  assert (∃ f, Build gdb EX_DOMAIN secret_rest b = Ok (mkResources (f <$> built)
      (ports ≫= λ p, (port_rules gdb EX_DOMAIN secret_rest b pp p).2)
      (ports ≫= λ p, (port_rules gdb EX_DOMAIN secret_rest b pp p).1)) ∧
    ∀ s, svc_name (f s) = svc_name s ∧ svc_Spec (f s) = svc_Spec s) as (f & Hbuild & Hf).
  { exists (if crt then with_origin pp else id). split; [|destruct crt; [apply with_origin_keeps|done]].
    revert Hrun. unfold Build. rewrite Hports. cbn [then_do]. rewrite build_ports_eq by done.
    cbn [then_do k8s_Services]. fold (stateful_services b ports). fold built.
    destruct crt; [|by rewrite list_fmap_id].
    rewrite mapping_service_eq. by destruct (decide _). }
  rewrite Hbuild in Hrun. cbn [then_do] in Hrun. injection Hrun as <-.
  assert (NoDup (svc_name <$> (f <$> built))) as Hnd'.
  { rewrite <- list_fmap_compose. erewrite list_fmap_ext; [exact Hnd|]. intros i s _. apply Hf. }
  unfold regist. cbn [k8s_Services k8s_Secrets k8s_Ingresses].
  rewrite services_SetSecrets, services_SetIngresses. split.
  - intros s Hs. exists (f s). split; [|apply Hf]. destruct (Hf s) as [<- _].
    destruct (services_regist (f <$> built) a (f s) (svc_name (f s)) Hnd') as [-> H2].
    by rewrite H2 by (by apply list_elem_of_fmap_2).
  - intros n Hn. destruct (services_regist (f <$> built) a zero_service n Hnd') as [-> _].
    assert (find_by svc_name n (f <$> built) = None) as ->; [|done].
    apply find_by_None. rewrite <- list_fmap_compose. erewrite list_fmap_ext; [exact Hn|]. intros i s _. apply Hf.
Qed.

(** ** The instances the drivers ask for *)

Lemma skip_failed_no_err {A B} (f : A → result B) l e : skip_failed f l ≠ Err e.
Proof.
  induction l as [|x l IH]; [done|]. cbn [skip_failed]. destruct (f x); [|done..].
  by destruct (skip_failed f l).
Qed.

Lemma apply_rules_no_err b sid cp pcp svc e : ApplyRules gdb EX_DOMAIN secret_rest b sid cp pcp svc ≠ Err e.
Proof.
  unfold ApplyRules. destruct (skip_failed _ _) as [h|e1|] eqn:Eh; cbn [then_do];
    [|by apply skip_failed_no_err in Eh|done].
  destruct (skip_failed (λ rule, applyTCPRule b rule svc _) _) as [t|e2|] eqn:Et; cbn [then_do];
    [done|by apply skip_failed_no_err in Et|done].
Qed.

Lemma build_ports_no_err b pp ps e : build_ports gdb EX_DOMAIN secret_rest b pp ps ≠ Err e.
Proof.
  induction ps as [|p ps IH]; [done|]. cbn [build_ports]. unfold build_port.
  destruct (tp_IsInnerService p); [|done].
  destruct (tp_IsOuterService p) as [[]|]; cbn [then_do]; [| |done].
  - match goal with |- context [ApplyRules ?g ?x ?y ?b ?s ?c ?q ?v] =>
      destruct (ApplyRules g x y b s c q v) as [r|e'|] eqn:Ea end; cbn [then_do];
      [|by apply apply_rules_no_err in Ea|done].
    destruct (build_ports _ _ _ b pp ps); naive_solver.
  - destruct (build_ports _ _ _ b pp ps); naive_solver.
Qed.

Lemma preserving_regist r : preserving (λ a, Ok (regist r a)).
Proof.
  apply (preserving_then (λ a, Ok (foldl (λ a s, SetService s a) a (k8s_Services r)))
    (λ a, Ok (foldl (λ a s, SetSecret s a) (foldl (λ a i, SetIngress i a) a (k8s_Ingresses r)) (k8s_Secrets r)))).
  - apply preserving_fold. intros s. exact (preserving_op (OpSetService s)).
  - apply (preserving_then (λ a, Ok (foldl (λ a i, SetIngress i a) a (k8s_Ingresses r)))
      (λ a, Ok (foldl (λ a s, SetSecret s a) a (k8s_Secrets r)))); apply preserving_fold.
    + intros i. exact (preserving_op (OpSetIngress i)).
    + intros s. exact (preserving_op (OpSetSecret s)).
Qed.

#[export] Instance sound_TenantServiceRegist :
  sound_conversion (TenantServiceRegist gdb EX_DOMAIN secret_rest db).
Proof.
  split.
  - split. intros a a' Hwf. unfold TenantServiceRegist.
    destruct (AppServiceBuilder db (ServiceID a) (b_ServiceType (base a)) a) as [b| |]; cbn [then_do]; [|done..].
    destruct (Build gdb EX_DOMAIN secret_rest b) as [r| |]; cbn [then_do]; [|done..].
    apply (pres_run _ (preserving_regist r) a a' Hwf).
  - intros a e. unfold TenantServiceRegist, AppServiceBuilder.
    destruct (cd_GetServiceByID db (ServiceID a)) as [e1|ts]; [by intros [= <-]|].
    destruct (cd_GetTenantByUUID db (ts_TenantID ts)) as [e1|tn]; [by intros [= <-]|]. cbn [then_do].
    set (b := mkBuild _ _ _ _ _). unfold Build, mapped_ports.
    destruct (gd_ports gdb (ab_serviceID b)) as [e1|ports]; [by intros [= <-]|].
    assert (∀ pp ps (crt : bool), then_do (then_do (build_ports gdb EX_DOMAIN secret_rest b pp ps) (λ r,
      let services := k8s_Services r ++
        (if decide (ab_replicationType b = TypeStatefulSet) then [createStatefulService b ps] else []) in
      then_do (if crt then CreateUpstreamPluginMappingService services pp else Ok services)
        (λ services, Ok (mkResources services (k8s_Secrets r) (k8s_Ingresses r)))))
      (λ k8s, Ok (regist k8s a)) ≠ Err e) as Hno.
    { intros pp ps crt. destruct (build_ports _ _ _ b pp ps) as [r|e1|] eqn:Ep; cbn [then_do];
        [|by apply build_ports_no_err in Ep|done].
      destruct crt; [|done]. cbv zeta. rewrite mapping_service_eq. by destruct (decide _). }
    destruct (checkUpstreamPluginRelation gdb (ab_serviceID b)) as [e1|[]]; [by intros [= <-]| |].
    + destruct (gd_plugin_ports gdb (ab_serviceID b)) as [e1|pports]; [by intros [= <-]|].
      destruct (CreateUpstreamPluginMappingPort ports pports ∅) as [ps pp]. cbn [then_do].
      intros H. destruct (Hno pp ps true H).
    + cbn [then_do]. intros H. destruct (Hno ∅ ports false H).
Qed.
End regist.

(** ** Examples *)

Definition demo_port : TenantServicesPort :=
  mkTenantPort 7 "svc" 8080 0 "http" (Some true) (Some true) "".
Definition demo_gateway_db : GatewayDB :=
  mkGatewayDB (λ _, inr [demo_port]) (λ _ _, inr false) (λ _, inr [])
    (λ _ _, inr [mkHTTPRule "rule" "example.com" "" "" "" 0 ""; mkHTTPRule "broken" "b.com" "" "" "" 0 "nowhere"])
    (λ _ _, inr []) (λ _, inr None) (λ _, inr []) (λ _, inr []) (λ _, inr []).
Definition demo_builder : AppServiceBuild :=
  mkBuild "svc" (mkTenants "team" "tenant") (demo_row "svc") demo_built TypeStatefulSet.

(** The rule without a certificate is left out. *)
Lemma build_outcome_witness : ∃ r,
  Build demo_gateway_db "" (λ _, ""%string) demo_builder = Ok r ∧
  svc_name <$> k8s_Services r = ["service-7-8080"; "service-7-8080out"; "web"]%string ∧
  ing_name <$> k8s_Ingresses r = ["rule"%string].
Proof.
  rewrite (build_outcome demo_gateway_db "" (λ _, ""%string) demo_builder [demo_port] false ∅ eq_refl).
  - rewrite decide_False by (by intros [? _]). eexists. split; [reflexivity|]. split; vm_compute; reflexivity.
  - apply Forall_cons. split; [done|apply Forall_nil_2].
  - by left.
Defined.

Lemma regist_network_witness : ∃ a' s,
  TenantServiceRegist demo_gateway_db "" (λ _, ""%string) demo_conversion_db demo_built = Ok a' ∧
  to_map svc_name (services a') !! "service-7-8080out"%string = Some s ∧
  svc_Spec s = svc_Spec (createOuterService demo_builder demo_port).
Proof.
  eexists. destruct (regist_network demo_gateway_db "" (λ _, ""%string) demo_conversion_db demo_built _ demo_builder
    [demo_port] false ∅ eq_refl eq_refl eq_refl) as [H _].
  - apply Forall_cons. split; [done|apply Forall_nil_2].
  - by left.
  - apply Forall_cons. split; [done|apply Forall_nil_2].
  - apply NoDup_singleton.
  - done.
  - intros id r E. apply (f_equal String.length) in E. unfold generated_name in E.
    rewrite append_length in E. vm_compute in E. discriminate E.
  - destruct (H (createOuterService demo_builder demo_port)) as (s & Hs & Hspec).
    { apply list_elem_of_further, list_elem_of_here. }
    exists s. split; [reflexivity|]. split; [exact Hs|exact Hspec].
Defined.
