(* ===== verification/Monitor.v ===== *)
(** * The monitors of a component's ports

    [worker/appm/conversion/monitor.go]: the Prometheus service monitors that
    scrape the ports of a component, and the part of [time.ParseDuration] it
    uses; then the theorem about which service a monitor selects. *)
From S2P Require Import Prelude Kube AppService Store Conversion Gateway Handle.
From S2P Require Import HandleSpec ConversionSpec GatewaySpec.

(** ** time.ParseDuration *)

Definition max_int64 : Z := (2 ^ 63 - 1)%Z.

(** Digits in front of a text: their value unless it overflows, and the rest. *)
Fixpoint leadingInt (acc : Z) (s : string) : option (Z * string) :=
  match s with
  | EmptyString => Some (acc, s)
  | String c s' =>
    match digit_value c with
    | None => Some (acc, s)
    | Some d =>
      if decide (Z.quot max_int64 10 < acc)%Z then None
      else if decide (max_int64 < acc * 10 + d)%Z then None
      else leadingInt (acc * 10 + d)%Z s'
    end
  end.

(** Digits behind a point: value and scale as long as they do not overflow. *)
Fixpoint leadingFraction (f scale : Z) (overflow : bool) (s : string) : Z * Z * string :=
  match s with
  | EmptyString => (f, scale, s)
  | String c s' =>
    match digit_value c with
    | None => (f, scale, s)
    | Some d =>
      if (overflow || bool_decide (Z.quot max_int64 10 < f)%Z || bool_decide (max_int64 < f * 10 + d)%Z)
      then leadingFraction f scale true s'
      else leadingFraction (f * 10 + d)%Z (scale * 10)%Z false s'
    end
  end.

Definition is_point (c : Ascii.ascii) : bool := bool_decide (Ascii.nat_of_ascii c = 46).
Definition is_digit_char (c : Ascii.ascii) : bool := if digit_value c is Some _ then true else false.

(** The letters up to the next number. *)
Fixpoint take_unit (s : string) : string * string :=
  match s with
  | EmptyString => (""%string, s)
  | String c s' =>
    if is_point c || is_digit_char c then (""%string, s)
    else let '(u, r) := take_unit s' in (String c u, r)
  end.

(** [unitMap]; the two spellings of a micro sign are written in UTF-8. *)
Definition unit_of (u : string) : option Z :=
  if decide (u = "ns")%string then Some 1%Z
  else if decide (u = "us" ∨ u = "µs" ∨ u = "μs")%string then Some (10 ^ 3)%Z
  else if decide (u = "ms")%string then Some (10 ^ 6)%Z
  else if decide (u = "s")%string then Some (10 ^ 9)%Z
  else if decide (u = "m")%string then Some (60 * 10 ^ 9)%Z
  else if decide (u = "h")%string then Some (3600 * 10 ^ 9)%Z
  else None.

(** One number with its unit: its nanoseconds and the rest.  The fraction is computed exactly. *)
Definition parse_term (s : string) : option (Z * string) :=
  match s with
  | EmptyString => None
  | String c _ =>
    if negb (is_point c || is_digit_char c) then None else
    '(v, s1) ← leadingInt 0 s;
    let pre := negb (bool_decide (s1 = s)) in
    let '(f, scale, s2, post) :=
      match s1 with
      | String c1 r =>
        if is_point c1 then
          let '(f, scale, r') := leadingFraction 0 1 false r in (f, scale, r', negb (bool_decide (r' = r)))
        else (0%Z, 1%Z, s1, false)
      | EmptyString => (0%Z, 1%Z, s1, false)
      end in
    if negb pre && negb post then None else
    let '(u, rest) := take_unit s2 in
    if decide (u = ""%string) then None else
    unit ← unit_of u;
    if decide (Z.quot max_int64 unit < v)%Z then None else
    let v := (v * unit + Z.div (f * unit) scale)%Z in
    if decide (max_int64 < v)%Z then None else Some (v, rest)
  end.

Fixpoint parse_terms (fuel : nat) (d : Z) (s : string) : option Z :=
  match s, fuel with
  | EmptyString, _ => Some d
  | _, O => None
  | _, S fuel =>
    '(v, rest) ← parse_term s;
    if decide (max_int64 < d + v)%Z then None else parse_terms fuel (d + v)%Z rest
  end.

(** Every number takes at least one character. *)
Definition ParseDuration (s : string) : option Z :=
  let '(neg, body) :=
    match s with
    | String c s' =>
      if decide (Ascii.nat_of_ascii c = 45) then (true, s')
      else if decide (Ascii.nat_of_ascii c = 43) then (false, s')
      else (false, s)
    | EmptyString => (false, s)
    end in
  if decide (body = "0"%string) then Some 0%Z
  else if decide (body = ""%string) then None
  else d ← parse_terms (String.length body) 0 body; Some (if neg : bool then (- d)%Z else d).

(** ** Monitors *)

(** [ServiceMonitorSpec], without its constant fields. *)
Record MonitorSpec := mkMonitorSpec {
  mo_Selector : gmap string string; mo_Port : string; mo_Path : string; mo_Interval : string }.

Section monitor.
Context (gdb : GatewayDB) (monitor_rest : MonitorSpec → opaque).

Definition service_type (s : Service) : string := get_str (m_Labels (svc_meta s)) "service_type".

(** [portService]: the first service of a port, or the last inner one. *)
Definition add_port_service (s : Service) (m : gmap Z Service) (port : ServicePort) : gmap Z Service :=
  match m !! sp_Port port with
  | Some _ => if decide (service_type s = "inner"%string) then <[sp_Port port := s]> m else m
  | None => <[sp_Port port := s]> m
  end.

Definition portService (services : list Service) : gmap Z Service :=
  foldl (λ m s, foldl (add_port_service s) m (svc_Ports s)) ∅ services.

Definition monitor_labels (s : Service) : gmap string string :=
  let l := m_Labels (svc_meta s) in
  <["service_port"%string := get_str l "service_port"]>
  (<["port_protocol"%string := get_str l "port_protocol"]>
  (<["name"%string := get_str l "name"]>
  {["service_type"%string := get_str l "service_type"]})).

Definition monitor_spec (tsm : TenantServiceMonitorRow) (service : Service) (port : ServicePort) :
    MonitorSpec :=
  mkMonitorSpec (monitor_labels service) (sp_Name port)
    (if decide (mr_Path tsm = ""%string) then "/metrics" else mr_Path tsm)
    (if ParseDuration (mr_Interval tsm) is Some _ then mr_Interval tsm else "30s").

(** The component is threaded because the chosen service is labelled and
    stored again; that label is not among those read here. *)
Fixpoint make_monitors (m : gmap Z Service) (tsms : list TenantServiceMonitorRow) (a : AppService) :
    result (AppService * list ServiceMonitor) :=
  match tsms with
  | [] => Ok (a, [])
  | tsm :: tsms' =>
    if decide (mr_Name tsm = ""%string) then make_monitors m tsms' a else
    match m !! int32 (mr_Port tsm) with
    | None => make_monitors m tsms' a
    | Some service =>
      match svc_Ports service with
      | [] => Panic
      | port :: _ =>
        let service := service <| svc_meta ::= λ x,
          x <| m_Labels ::= <["app_name"%string := mr_ServiceShowName tsm]> |> |> in
        let a := SetService service a in
        let sm := mkPlain (zero_meta <| m_Name := mr_Name tsm |> <| m_Namespace := TenantID a |>
                             <| m_Labels := GetCommonLabels [] a |>)
                    (monitor_rest (monitor_spec tsm service port)) in
        then_do (make_monitors m tsms' a) (λ '(a, sms), Ok (a, sm :: sms))
      end
    end
  end.

Definition createServiceMonitor (a : AppService) : result (AppService * list ServiceMonitor) :=
  match gd_monitors gdb (ServiceID a) with
  | inl _ => Ok (a, [])
  | inr tsms => make_monitors (portService (GetServices a)) tsms a
  end.

Definition TenantServiceMonitor : Conversion := λ a,
  then_do (createServiceMonitor a) (λ '(a, sms), Ok (foldl (λ a sm, SetServiceMonitor sm a) a sms)).
End monitor.

(** ** Which service is scraped *)

Definition exposes (s : Service) (p : Z) : bool :=
  existsb (λ q, bool_decide (sp_Port q = p)) (svc_Ports s).

Lemma add_ports_lookup s p qs m :
  foldl (add_port_service s) m qs !! p =
    if existsb (λ q, bool_decide (sp_Port q = p)) qs then
      match m !! p with
      | Some x => if decide (service_type s = "inner"%string) then Some s else Some x
      | None => Some s
      end
    else m !! p.
Proof.
  revert m. induction qs as [|q qs IH]; intros m; [done|]. cbn [foldl existsb]. rewrite IH.
  assert (add_port_service s m q !! p =
    if bool_decide (sp_Port q = p) then
      match m !! p with
      | Some x => if decide (service_type s = "inner"%string) then Some s else Some x
      | None => Some s
      end
    else m !! p) as ->.
  { unfold add_port_service. case_bool_decide as Hq.
    - subst p. destruct (m !! sp_Port q) eqn:E; [|by rewrite lookup_insert_eq].
      case_decide; [by rewrite lookup_insert_eq|done].
    - destruct (m !! sp_Port q); [case_decide; [|done]|]; by rewrite lookup_insert_ne. }
  case_bool_decide; [|done]. simpl. destruct (existsb _ qs); [|done].
  destruct (m !! p); by case_decide.
Qed.

(** The service of a port exposes it, and is an inner one if any inner service does. *)
Definition chosen (services : list Service) (p : Z) (s : Service) : Prop :=
  s ∈ services ∧ exposes s p = true ∧
  (service_type s = "inner"%string ∨
   ∀ s', s' ∈ services → exposes s' p = true → service_type s' ≠ "inner"%string).

Lemma portService_spec services p :
  match portService services !! p with
  | Some s => chosen services p s
  | None => existsb (λ s, exposes s p) services = false
  end.
Proof.
  unfold portService. induction services as [|x l IH] using rev_ind; [cbn; by rewrite lookup_empty|].
  rewrite foldl_app. cbn [foldl]. rewrite add_ports_lookup. fold (exposes x p). unfold chosen in *.
  set (m := foldl _ ∅ l) in *. rewrite existsb_app. cbn [existsb].
  destruct (exposes x p) eqn:Ex; destruct (m !! p) as [s|] eqn:Em.
  - destruct IH as (Hs & He & Hi). destruct (decide (service_type x = "inner"%string)) as [Hx|Hx].
    + split; [set_solver|]. auto.
    + split; [set_solver|]. split; [done|]. destruct Hi as [Hi|Hi]; [by left|right].
      intros s' [Hs'|Hs']%elem_of_app; [by apply Hi|]. by apply list_elem_of_singleton in Hs' as ->.
  - split; [set_solver|]. split; [done|]. destruct (decide (service_type x = "inner"%string)) as [Hx|Hx]; [by left|right].
    intros s' [Hs'|Hs']%elem_of_app He'; [|by apply list_elem_of_singleton in Hs' as ->].
    exfalso. rewrite <- not_true_iff_false, existsb_exists in IH. apply IH. exists s'.
    split; [by apply list_elem_of_In|done].
  - destruct IH as (Hs & He & Hi). split; [set_solver|]. split; [done|]. destruct Hi as [Hi|Hi]; [by left|right].
    intros s' [Hs'|Hs']%elem_of_app He'; [by apply Hi|]. apply list_elem_of_singleton in Hs' as ->. congruence.
  - by rewrite IH.
Qed.

(** The rows that get a monitor. *)
Definition monitored (services : list Service) (tsm : TenantServiceMonitorRow) : bool :=
  nonempty_string (mr_Name tsm) && existsb (λ s, exposes s (int32 (mr_Port tsm))) services.

(** The monitor of a row, aimed at the first port of the service it selects. *)
Definition monitors (rest : MonitorSpec → opaque) (services : list Service) (tsm : TenantServiceMonitorRow)
    (sm : ServiceMonitor) : Prop :=
  pl_name sm = mr_Name tsm ∧
  ∃ s port ports, chosen services (int32 (mr_Port tsm)) s ∧ svc_Ports s = port :: ports ∧
    pl_rest sm = rest (monitor_spec tsm s port) ∧ (ports = [] → sp_Port port = int32 (mr_Port tsm)).

Lemma make_monitors_spec rest services tsms a :
  ∃ a' sms, make_monitors rest (portService services) tsms a = Ok (a', sms) ∧
    Forall2 (monitors rest services) (filter (λ tsm, monitored services tsm = true) tsms) sms.
Proof.
  revert a. induction tsms as [|tsm tsms IH]; intros a; [by eexists _, []|].
  cbn [make_monitors]. rewrite filter_cons.
  destruct (decide (mr_Name tsm = ""%string)) as [Hn|Hn].
  { rewrite decide_False; [apply IH|]. unfold monitored, nonempty_string. by rewrite bool_decide_eq_true_2. }
  rewrite (decide_ext _ (existsb (λ s, exposes s (int32 (mr_Port tsm))) services = true))
    by (unfold monitored, nonempty_string; by rewrite bool_decide_eq_false_2).
  pose proof (portService_spec services (int32 (mr_Port tsm))) as Hp.
  destruct (portService services !! int32 (mr_Port tsm)) as [s|].
  - rewrite decide_True by (apply existsb_exists; exists s; split; [apply list_elem_of_In|]; apply Hp).
    destruct Hp as (Hs & He & Hi). unfold exposes in He.
    destruct (svc_Ports s) as [|port ports] eqn:Eps; [done|]. cbv zeta.
    set (s' := s <| svc_meta ::= _ |>). destruct (IH (SetService s' a)) as (a' & sms & -> & Hall).
    eexists a', _. split; [reflexivity|]. constructor; [|exact Hall].
    split; [done|]. exists s, port, ports. split.
    { split; [done|]. split; [|done]. unfold exposes. by rewrite Eps. }
    split; [done|]. split.
    + cbn [pl_rest]. f_equal. unfold monitor_spec, monitor_labels. f_equal.
      unfold s'. cbn. unfold get_str. by rewrite !lookup_insert_ne by done.
    + intros ->. cbn [existsb] in He. rewrite orb_false_r in He. by apply bool_decide_eq_true in He.
  - rewrite decide_False by congruence. apply IH.
Qed.

(** Building the monitors of a component never fails.  Every named row whose
    port some service exposes, and no other, gets a monitor; it selects an
    inner service of that port whenever there is one, and scrapes the first
    port of the service: the row's own port when the service has no other. *)
Theorem monitors_target_ports (gdb : GatewayDB) (rest : MonitorSpec → opaque) (a : AppService)
    (tsms : list TenantServiceMonitorRow) (Hrows : gd_monitors gdb (ServiceID a) = inr tsms) :
  ∃ a' sms, createServiceMonitor gdb rest a = Ok (a', sms) ∧
    Forall2 (monitors rest (services a)) (filter (λ tsm, monitored (services a) tsm = true) tsms) sms.
Proof. unfold createServiceMonitor. rewrite Hrows. apply make_monitors_spec. Qed.

(** ** The instances *)

Lemma make_monitors_keeps rest m tsms a a' sms :
  wf a → make_monitors rest m tsms a = Ok (a', sms) → wf a' ∧ ServiceID a' = ServiceID a.
Proof.
  revert a sms. induction tsms as [|tsm tsms IH]; intros a sms Hwf; cbn [make_monitors]; [by intros [= <- <-]|].
  case_decide; [by apply IH|]. destruct (m !! int32 (mr_Port tsm)) as [s|]; [|by apply IH].
  destruct (svc_Ports s) as [|port ports]; [done|]. cbv zeta. set (s' := s <| svc_meta ::= _ |>).
  destruct (pres_run _ (preserving_op (OpSetService s')) a _ Hwf eq_refl) as [Hwf' Hid].
  destruct (make_monitors rest m tsms (SetService s' a)) as [[a1 l]| |] eqn:E; [|done..].
  cbn [then_do]. intros [= <- <-]. destruct (IH _ _ Hwf' E) as [? ->]. done.
Qed.

Lemma make_monitors_no_err rest m tsms a e : make_monitors rest m tsms a ≠ Err e.
Proof.
  revert a. induction tsms as [|tsm tsms IH]; intros a; cbn [make_monitors]; [done|].
  case_decide; [apply IH|]. destruct (m !! int32 (mr_Port tsm)) as [s|]; [|apply IH].
  destruct (svc_Ports s) as [|port ports]; [done|]. cbv zeta. set (s' := s <| svc_meta ::= _ |>).
  destruct (make_monitors rest m tsms (SetService s' a)) as [[a1 l]|e1|] eqn:E; cbn [then_do]; [done| |done].
  intros [= ->]. by apply IH in E.
Qed.

#[export] Instance sound_TenantServiceMonitor gdb rest : sound_conversion (TenantServiceMonitor gdb rest).
Proof.
  split.
  - split. intros a a' Hwf. unfold TenantServiceMonitor, createServiceMonitor.
    assert (∀ a0 sms, wf a0 ∧ ServiceID a0 = ServiceID a →
      Ok (foldl (λ a sm, SetServiceMonitor sm a) a0 sms) = Ok a' → wf a' ∧ ServiceID a' = ServiceID a) as Hfold.
    { intros a0 sms [Hwf0 Hid] H. rewrite <- Hid.
      refine (pres_run _ (preserving_fold SetServiceMonitor sms _) a0 a' Hwf0 H).
      intros sm. exact (preserving_op (OpSetServiceMonitor sm)). }
    destruct (gd_monitors gdb (ServiceID a)) as [e|tsms]; cbn [then_do]; [by apply (Hfold a [])|].
    destruct (make_monitors _ _ tsms a) as [[a0 sms]| |] eqn:E; cbn [then_do]; [|done..].
    apply Hfold. by eapply make_monitors_keeps.
  - intros a e. unfold TenantServiceMonitor, createServiceMonitor.
    destruct (gd_monitors gdb (ServiceID a)) as [e1|tsms]; cbn [then_do]; [done|].
    destruct (make_monitors _ _ tsms a) as [[a0 sms]|e1|] eqn:E; cbn [then_do]; [done| |done].
    by apply make_monitors_no_err in E.
Qed.

#[export] Instance safe_TenantServiceMonitor gdb rest : safe_conversion (TenantServiceMonitor gdb rest).
Proof.
  intros a. unfold TenantServiceMonitor, createServiceMonitor.
  destruct (gd_monitors gdb (ServiceID a)) as [e1|tsms]; cbn [then_do]; [done|].
  by destruct (make_monitors_spec rest (GetServices a) tsms a) as (a' & sms & -> & _).
Qed.

(** ** Example *)

Definition demo_monitor_rows : list TenantServiceMonitorRow :=
  [mkMonitorRow "mon" "web" 8080 "" "5x"; mkMonitorRow "closed" "web" 9 "" ""].
Definition demo_monitor_db : GatewayDB :=
  mkGatewayDB (λ _, inr []) (λ _ _, inr false) (λ _, inr []) (λ _ _, inr []) (λ _ _, inr []) (λ _, inr None)
    (λ _, inr []) (λ _, inr []) (λ _, inr demo_monitor_rows).
Definition demo_network : AppService :=
  match TenantServiceRegist demo_gateway_db "" (λ _, ""%string) demo_conversion_db demo_built with
  | Ok a => a | _ => demo_built
  end.

Lemma monitors_target_ports_witness : ∃ a' sm s,
  createServiceMonitor demo_monitor_db mo_Interval demo_network = Ok (a', [sm]) ∧
  pl_rest sm = "30s"%string ∧ chosen (services demo_network) 8080 s ∧ service_type s = "inner"%string.
Proof.
  destruct (monitors_target_ports demo_monitor_db mo_Interval demo_network demo_monitor_rows eq_refl)
    as (a' & sms & Hrun & Hall).
  assert (filter (λ tsm, monitored (services demo_network) tsm = true) demo_monitor_rows
    = [mkMonitorRow "mon" "web" 8080 "" "5x"]) as Hf by (vm_compute; reflexivity).
  rewrite Hf in Hall. inversion Hall as [|? sm ? ? (_ & s & port & ports & Hc & _ & Hr & _) H']; subst.
  inversion H'; subst. exists a', sm, s. split; [exact Hrun|]. split; [rewrite Hr; reflexivity|].
  split; [exact Hc|]. destruct Hc as (_ & _ & [Hi|Hi]); [exact Hi|].
  exfalso. apply (Hi (createInnerService demo_builder demo_port)); [|reflexivity|reflexivity].
  vm_compute. apply list_elem_of_here.
Defined.
