(* ===== verification/Prober.v ===== *)
(** * The health prober

    [util/prober]: the manager of periodic probes ([manager.go]), the probes it
    creates ([probes/probe.go]) and their data ([types/v1/types.go]).  The
    goroutine of a probe is a number in [pm_running] from [Check] to [Stop].
    Definitions first, then the theorems. *)
From S2P Require Import Prelude.

(** ** Data *)

Record Health := mkHealth {
  he_Name : string;
  he_Model : string;
  he_IP : string;
  he_Port : Z;
  he_Address : string;
  he_TimeInterval : Z;
  he_MaxErrorsNum : Z;
  he_MaxTimeoutSecond : Z
}.

(** [Service]; its health is a pointer. *)
Record PService := mkPService {
  ps_Sid : string;
  ps_Name : string;
  ps_ServiceHealth : option Health;
  ps_Disable : bool
}.

(** [Health.Equal]; the timeout is not compared. *)
Definition Health_Equal (l r : Health) : bool :=
  bool_decide (he_Name l = he_Name r ∧ he_Model l = he_Model r ∧ he_IP l = he_IP r ∧
    he_Port l = he_Port r ∧ he_Address l = he_Address r ∧
    he_TimeInterval l = he_TimeInterval r ∧ he_MaxErrorsNum l = he_MaxErrorsNum r).

(** [Service.Equal]: a nil health against another one is dereferenced. *)
Definition Service_Equal (l r : PService) : result bool :=
  if decide (ps_Sid l = ps_Sid r ∧ ps_Name l = ps_Name r ∧ ps_Disable l = ps_Disable r) then
    match ps_ServiceHealth l, ps_ServiceHealth r with
    | Some hl, Some hr => Ok (Health_Equal hl hr)
    | None, None => Ok true
    | _, _ => Panic
    end
  else Ok false.

Definition StatHealthy : string := "healthy".

(** Times in nanoseconds; the zero time is none. *)
Record HealthStatus := mkHealthStatus {
  hs_Name : string;
  hs_Status : string;
  hs_ErrorNumber : Z;
  hs_ErrorDuration : Z;
  hs_StartErrorTime : option Z;
  hs_Info : string;
  hs_LastStatus : string;
  hs_StatusChange : bool
}.
#[export] Instance eta_HealthStatus : Eta HealthStatus := λ s,
  mkHealthStatus (hs_Name s) (hs_Status s) (hs_ErrorNumber s) (hs_ErrorDuration s)
    (hs_StartErrorTime s) (hs_Info s) (hs_LastStatus s) (hs_StatusChange s).

(** ** Probes *)

Inductive probe_kind := TCPProbe | HTTPProbe.
#[export] Instance probe_kind_eq_dec : EqDecision probe_kind.
Proof. solve_decision. Defined.

Record Probe := mkProbe {
  pr_kind : probe_kind;
  pr_Name : string;
  pr_Address : string;
  pr_TimeInterval : Z;
  pr_MaxErrorsNum : Z;
  pr_TimeoutSecond : Z
}.

(** The corrected interval and timeout are used for TCP only. *)
Definition CreateProbe (h : Health) : option Probe :=
  let timeoutSecond := if decide (he_MaxTimeoutSecond h ≤ 2)%Z then 5%Z else he_MaxTimeoutSecond h in
  let interval := if decide (he_TimeInterval h ≤ 2)%Z then 5%Z else he_TimeInterval h in
  if decide (he_Model h = "tcp"%string) then
    Some (mkProbe TCPProbe (he_Name h) (he_Address h) interval (he_MaxErrorsNum h) timeoutSecond)
  else if decide (he_Model h = "http"%string) then
    Some (mkProbe HTTPProbe (he_Name h) (he_Address h) (he_TimeInterval h) (he_MaxErrorsNum h)
            (he_MaxTimeoutSecond h))
  else None.

(** ** The manager *)

(** A watcher's channel holds ten statuses. *)
Record watcher := mkWatcher { wa_enable : bool; wa_queue : list HealthStatus }.
Definition watcher_capacity : nat := 10.

Record probeManager := mkManager {
  pm_services : list PService;
  pm_serviceProbe : gmap string (nat * Probe);
  pm_status : gmap string HealthStatus;
  pm_watches : gmap string (gmap string watcher);
  pm_running : gset nat;
  pm_next : nat
}.
#[export] Instance eta_probeManager : Eta probeManager := λ m,
  mkManager (pm_services m) (pm_serviceProbe m) (pm_status m) (pm_watches m) (pm_running m) (pm_next m).

Definition NewProber : probeManager := mkManager [] ∅ ∅ ∅ ∅ 0.

(** [p.serviceProbe[name] = probe; probe.Check()] *)
Definition start_probe (name : string) (p : Probe) (m : probeManager) : probeManager :=
  m <| pm_serviceProbe ::= <[name := (pm_next m, p)]> |>
    <| pm_running ::= λ r, {[pm_next m]} ∪ r |> <| pm_next ::= S |>.

(** [probe.Stop()] *)
Definition halt (o : option (nat * Probe)) (m : probeManager) : probeManager :=
  match o with
  | Some (id, _) => m <| pm_running ::= λ r, r ∖ {[id]} |>
  | None => m
  end.

Definition create_and_check (v : PService) (h : Health) (m : probeManager) : probeManager :=
  match CreateProbe h with
  | Some p => start_probe (ps_Name v) p m
  | None => m
  end.

(** A service without a health check is skipped, and one that is disabled. *)
Definition probed (v : PService) : option Health :=
  if ps_Disable v then None else ps_ServiceHealth v.

Definition stop_all (m : probeManager) : probeManager :=
  m <| pm_running ::= λ r, r ∖ list_to_set ((λ '(_, (id, _)), id) <$> map_to_list (pm_serviceProbe m)) |>
    <| pm_serviceProbe := ∅ |>.

Definition updateAllServicesProbe (m : probeManager) : probeManager :=
  match pm_services m with
  | [] => m
  | _ =>
    foldl (λ m v, match probed v with Some h => create_and_check v h m | None => m end)
      (stop_all m) (pm_services m)
  end.

Definition SetServices (l : list PService) (m : probeManager) : probeManager := m <| pm_services := l |>.
Definition SetAndUpdateServices (l : list PService) (m : probeManager) : probeManager :=
  updateAllServicesProbe (SetServices l m).

Definition CheckIfExist (v : PService) (m : probeManager) : bool :=
  existsb (λ svc, bool_decide (ps_Name svc = ps_Name v)) (pm_services m).

(** Every service of that name is replaced; a new one is appended. *)
Definition add_one (l : list PService) (v : PService) : list PService :=
  if existsb (λ svc, bool_decide (ps_Name svc = ps_Name v)) l
  then (λ svc, if decide (ps_Name svc = ps_Name v) then v else svc) <$> l
  else l ++ [v].

(** After the loop all of them are appended once more. *)
Definition AddServices (l : list PService) (m : probeManager) : probeManager :=
  m <| pm_services ::= λ s, foldl add_one s l ++ l |>.
Definition AddAndUpdateServices (l : list PService) (m : probeManager) : probeManager :=
  updateAllServicesProbe (AddServices l m).

(** The last service of that name. *)
Definition old_service (v : PService) (m : probeManager) : option PService :=
  last (filter (λ svc, ps_Name svc = ps_Name v) (pm_services m)).

Definition isNeedUpdate (v : PService) (m : probeManager) : result bool :=
  match old_service v m with
  | None => Ok true
  | Some old => then_do (Service_Equal v old) (λ b, Ok (negb b))
  end.

Definition stop_named (name : string) (m : probeManager) : result probeManager :=
  match pm_serviceProbe m !! name with
  | None => Ok m
  | Some p =>
    match range_delete (λ svc, bool_decide (ps_Name svc = name)) (pm_services m) with
    | None => Panic
    | Some (services, _) =>
      Ok ((halt (Some p) m) <| pm_serviceProbe ::= delete name |> <| pm_services := services |>)
    end
  end.

Fixpoint StopProbes (names : list string) (m : probeManager) : result probeManager :=
  match names with
  | [] => Ok m
  | name :: names' => then_do (stop_named name m) (StopProbes names')
  end.

Definition UpdateServiceProbe (v : PService) (m : probeManager) : result probeManager :=
  match probed v with
  | None => Ok m
  | Some h =>
    then_do (isNeedUpdate v m) (λ need,
    Ok (if need : bool then create_and_check v h (halt (pm_serviceProbe m !! ps_Name v) m) else m))
  end.

Definition ListServicesBySid (sid : string) (m : probeManager) : gmap string PService :=
  foldl (λ res svc, if decide (ps_Sid svc = sid) then <[ps_Name svc := svc]> res else res) ∅ (pm_services m).

(** The loop of [UpdateServicesProbe], for one service: a service that is
    known already is not replaced. *)
Definition update_one (v : PService) (m : probeManager) : result probeManager :=
  match ps_ServiceHealth v with
  | None => Ok m
  | Some h =>
    then_do (isNeedUpdate v m) (λ need,
    if negb need then Ok m
    else if ps_Disable v then StopProbes [ps_Name v] m
    else
      let m := halt (pm_serviceProbe m !! ps_Name v) m in
      let m := if CheckIfExist v m then m else m <| pm_services ::= λ l, l ++ [v] |> in
      Ok (create_and_check v h m))
  end.

Fixpoint update_each (l : list PService) (m : probeManager) : result probeManager :=
  match l with
  | [] => Ok m
  | v :: l' => then_do (update_one v m) (update_each l')
  end.

Section manager.
Context `{GoRuntime}.

(** The services of the component that are no longer wanted are visited in the order of a map. *)
Definition UpdateServicesProbe (l : list PService) (m : probeManager) : result probeManager :=
  match l with
  | [] => Ok m
  | v :: _ =>
    let oldSvcs := foldr (λ v old, delete (ps_Name v) old) (ListServicesBySid (ps_Sid v) m) l in
    then_do (update_each l m) (StopProbes (ps_Name <$> (range_order oldSvcs).*2))
  end.
End manager.

Definition GetProbe (name : string) (m : probeManager) : option Probe :=
  snd <$> pm_serviceProbe m !! name.

(** ** Statuses and watchers *)

(** [time.Now().Sub(t)]: since the zero time it is as long as it can be. *)
Definition since (now : Z) (t : option Z) : Z :=
  match t with
  | None => (2 ^ 63 - 1)%Z
  | Some t => (now - t)%Z
  end.

Definition updateServiceStatus (now : Z) (status : HealthStatus) (m : probeManager) : probeManager :=
  match pm_status m !! hs_Name status with
  | None => m <| pm_status ::= <[hs_Name status := status]> |>
  | Some last =>
    let status := status <| hs_StatusChange := bool_decide (hs_LastStatus last ≠ hs_Status status) |>
                         <| hs_LastStatus := hs_Status status |> in
    let status :=
      if decide (hs_Status status = StatHealthy) then
        status <| hs_ErrorNumber := 0%Z |> <| hs_ErrorDuration := 0%Z |> <| hs_StartErrorTime := None |>
      else
        status <| hs_ErrorNumber := (hs_ErrorNumber last + 1)%Z |>
               <| hs_StartErrorTime := Some (default now (hs_StartErrorTime last)) |>
               <| hs_ErrorDuration := since now (hs_StartErrorTime last) |> in
    m <| pm_status ::= <[hs_Name status := status]> |>
  end.

(** Sending blocks on a full channel, with the lock of the manager held. *)
Definition deliver (status : HealthStatus) (w : watcher) : option watcher :=
  if wa_enable w then
    if decide (length (wa_queue w) < watcher_capacity)
    then Some (mkWatcher true (wa_queue w ++ [status])) else None
  else Some w.

(** One round of [handleStatus]; none when it blocks.  What is sent is the status that was just stored. *)
Definition handleStatus (now : Z) (status : HealthStatus) (m : probeManager) : option probeManager :=
  let m := updateServiceStatus now status m in
  let status := default status (pm_status m !! hs_Name status) in
  match pm_watches m !! hs_Name status with
  | None => Some m
  | Some ws =>
    if decide (map_Forall (λ _ w, is_Some (deliver status w)) ws) then
      Some (m <| pm_watches ::= <[hs_Name status := omap (deliver status) ws]> |>)
    else None
  end.

Definition WatchServiceHealthy (serviceName id : string) (m : probeManager) : probeManager :=
  let w := mkWatcher false [] in
  m <| pm_watches ::= λ ws, <[serviceName := <[id := w]> (default ∅ (ws !! serviceName))]> ws |>.

(** An unknown watcher is dereferenced. *)
Definition CloseWatch (serviceName id : string) (m : probeManager) : result probeManager :=
  match pm_watches m !! serviceName ≫= lookup id with
  | None => Panic
  | Some _ => Ok (m <| pm_watches ::= alter (delete id) serviceName |>)
  end.

Definition set_watcher (b : bool) (serviceName watcherID : string) (m : probeManager) : probeManager :=
  m <| pm_watches ::= alter (alter (λ w, mkWatcher b (wa_queue w)) watcherID) serviceName |>.
Definition EnableWatcher := set_watcher true.
Definition DisableWatcher := set_watcher false.

(** ** The invariant *)

(** Distinct names, and every running goroutine is the registered probe of one name. *)
Record probes_ok (m : probeManager) : Prop := {
  po_uniq : uniq ps_Name (pm_services m);
  po_health v : v ∈ pm_services m → ps_ServiceHealth v ≠ None;
  po_running id : id ∈ pm_running m → ∃ n p, pm_serviceProbe m !! n = Some (id, p);
  po_fresh n id p : pm_serviceProbe m !! n = Some (id, p) → id < pm_next m;
  po_inj n n' id p p' :
    pm_serviceProbe m !! n = Some (id, p) → pm_serviceProbe m !! n' = Some (id, p') → n = n'
}.

Lemma probes_ok_new : probes_ok NewProber.
Proof. split; simpl; try set_solver. apply NoDup_nil_2. Qed.

(** What there is to see of one name: the service known under it, and its probe with
    whether it runs. *)
Definition name_view : Type := option PService * option (Probe * bool).
Definition obs (n : string) (m : probeManager) : name_view :=
  (find_by ps_Name n (pm_services m),
   (λ '(id, p), (p, bool_decide (id ∈ pm_running m))) <$> pm_serviceProbe m !! n).

(** [stop_named] and [update_one], seen at their own name. *)
Definition stop_view (o : name_view) : name_view := if o.2 is Some _ then (None, None) else o.

Definition same_service (v old : PService) : bool :=
  bool_decide (ps_Sid v = ps_Sid old ∧ ps_Name v = ps_Name old ∧ ps_Disable v = ps_Disable old) &&
  match ps_ServiceHealth v, ps_ServiceHealth old with
  | Some h, Some h' => Health_Equal h h'
  | _, _ => false
  end.

Definition update_view (v : PService) (o : name_view) : name_view :=
  match ps_ServiceHealth v with
  | None => o
  | Some h =>
    if match o.1 with Some old => same_service v old | None => false end then o
    else if ps_Disable v then stop_view o
    else (Some (default v o.1),
          match CreateProbe h with
          | Some p => Some (p, true)
          | None => (λ '(p, _), (p, false)) <$> o.2
          end)
  end.

(** A step on one name: the views of the others stay. *)
Definition at_name (n : string) (f : name_view → name_view) (m m' : probeManager) : Prop :=
  probes_ok m' ∧ ∀ k, obs k m' = if decide (k = n) then f (obs k m) else obs k m.

Lemma old_service_find v m : uniq ps_Name (pm_services m) →
  old_service v m = find_by ps_Name (ps_Name v) (pm_services m).
Proof.
  unfold old_service. induction (pm_services m) as [|x l IH]; intros Hu; [done|].
  unfold uniq in *. rewrite fmap_cons in Hu. apply NoDup_cons in Hu as [Hx Hu]. cbn [find_by].
  rewrite filter_cons. case_decide as E; [|by apply IH].
  destruct (filter (λ svc, ps_Name svc = ps_Name v) l) as [|y l'] eqn:Ef; [done|]. exfalso.
  assert (y ∈ filter (λ svc, ps_Name svc = ps_Name v) l) as Hy by (rewrite Ef; apply list_elem_of_here).
  apply list_elem_of_filter in Hy as [Ey Hy]. apply Hx. rewrite E, <- Ey. by apply list_elem_of_fmap_2.
Qed.

Lemma need_update v h m : probes_ok m → ps_ServiceHealth v = Some h →
  isNeedUpdate v m =
    Ok (negb (match find_by ps_Name (ps_Name v) (pm_services m) with
              | Some old => same_service v old | None => false end)).
Proof.
  intros Hm Hh. unfold isNeedUpdate. rewrite old_service_find by apply Hm.
  destruct (find_by _ _ _) as [old|] eqn:E; [|done]. apply find_by_Some in E as [_ Hin].
  pose proof (po_health m Hm old Hin) as Ho. unfold Service_Equal, same_service. rewrite Hh.
  destruct (ps_ServiceHealth old) as [ho|]; [|done]. case_decide as E; simpl.
  - by rewrite bool_decide_eq_true_2.
  - by rewrite bool_decide_eq_false_2.
Qed.

Lemma view_running m n id p : pm_serviceProbe m !! n = Some (id, p) →
  (obs n m).2 = Some (p, bool_decide (id ∈ pm_running m)).
Proof. intros E. unfold obs. simpl. by rewrite E. Qed.

(** Stopping the probe of a name leaves the goroutines of the others alone. *)
Lemma halt_running m n k id p : probes_ok m → k ≠ n → pm_serviceProbe m !! k = Some (id, p) →
  (id ∈ pm_running (halt (pm_serviceProbe m !! n) m) ↔ id ∈ pm_running m).
Proof.
  intros Hm Hk E. destruct (pm_serviceProbe m !! n) as [[id' p']|] eqn:E'; [|done]. simpl.
  rewrite elem_of_difference, elem_of_singleton. split; [tauto|]. intros Hin. split; [done|].
  intros ->. by apply Hk, (po_inj m Hm k n id' p p').
Qed.

Lemma halt_fields o m : pm_services (halt o m) = pm_services m ∧ pm_serviceProbe (halt o m) = pm_serviceProbe m ∧
  pm_next (halt o m) = pm_next m ∧ pm_running (halt o m) ⊆ pm_running m.
Proof. destruct o as [[id p]|]; simpl; set_solver. Qed.

Lemma stop_named_at n m : probes_ok m → ∃ m', stop_named n m = Ok m' ∧ at_name n stop_view m m'.
Proof.
  intros Hm. unfold stop_named. destruct (pm_serviceProbe m !! n) as [[id p]|] eqn:E.
  2:{ exists m. split; [done|]. split; [done|]. intros k. case_decide as Hk; [subst k|done].
      unfold stop_view, obs. simpl. by rewrite E. }
  destruct (range_delete_uniq ps_Name n (pm_services m)) as [arr ->]; [apply Hm|].
  eexists. split; [reflexivity|]. split; [split; simpl|].
  - apply uniq_remove_first, Hm.
  - intros v Hv. eapply po_health; [done|]. by eapply elem_of_remove_first.
  - intros i [Hi Hn]%elem_of_difference. destruct (po_running m Hm i Hi) as (k & q & Hk).
    exists k, q. rewrite lookup_delete_ne; [done|]. intros <-. rewrite E in Hk. set_solver.
  - intros k i q [_ Hk]%lookup_delete_Some. by eapply po_fresh.
  - intros k k' i q q' [_ Hk]%lookup_delete_Some [_ Hk']%lookup_delete_Some. by eapply po_inj.
  - intros k. unfold obs. simpl. rewrite find_by_remove_first by apply Hm. case_decide as Hk.
    + subst k. rewrite lookup_delete_eq, E. done.
    + rewrite lookup_delete_ne by done. f_equal. destruct (pm_serviceProbe m !! k) as [[i q]|] eqn:Ek; [|done].
      simpl. do 2 f_equal. apply bool_decide_ext.
      pose proof (halt_running m n k i q Hm Hk Ek) as Hr. rewrite E in Hr. exact Hr.
Qed.

Lemma stop_probes_view names m : probes_ok m →
  ∃ m', StopProbes names m = Ok m' ∧ probes_ok m' ∧
    ∀ k, obs k m' = if decide (k ∈ names) then stop_view (obs k m) else obs k m.
Proof.
  revert m. induction names as [|n names IH]; intros m Hm.
  { exists m. split; [done|]. split; [done|]. intros k. by rewrite decide_False by apply not_elem_of_nil. }
  destruct (stop_named_at n m Hm) as (m1 & E1 & Hm1 & Ho1). destruct (IH m1 Hm1) as (m2 & E2 & Hm2 & Ho2).
  exists m2. cbn [StopProbes]. rewrite E1. split; [done|]. split; [done|]. intros k. rewrite Ho2, Ho1.
  assert (∀ o, stop_view (stop_view o) = stop_view o) as Hidem by (by intros [? [?|]]).
  destruct (decide (k = n)) as [->|Hk].
  - rewrite (decide_True (P := n ∈ n :: names)) by apply list_elem_of_here. case_decide; [apply Hidem|done].
  - destruct (decide (k ∈ names)).
    + by rewrite decide_True by (by apply list_elem_of_further).
    + rewrite decide_False; [done|]. by intros [|]%elem_of_cons.
Qed.

Lemma exists_find v m : CheckIfExist v m = bool_decide (is_Some (find_by ps_Name (ps_Name v) (pm_services m))).
Proof.
  unfold CheckIfExist. induction (pm_services m) as [|x l IH]; [done|]. cbn [existsb find_by]. rewrite IH.
  case_decide as E; [by rewrite (bool_decide_eq_true_2 _ E)|by rewrite (bool_decide_eq_false_2 _ E)].
Qed.

Lemma find_by_snoc n l v : find_by ps_Name n l = None →
  find_by ps_Name n (l ++ [v]) = if decide (ps_Name v = n) then Some v else None.
Proof. induction l as [|x l IH]; simpl; [done|]. by destruct (decide (ps_Name x = n)). Qed.

Lemma find_by_snoc_other n l v : ps_Name v ≠ n → find_by ps_Name n (l ++ [v]) = find_by ps_Name n l.
Proof. intros Hv. induction l as [|x l IH]; simpl; [by rewrite decide_False|]. by rewrite IH. Qed.

(** [old.Stop()], the new entry and the new probe. *)
Lemma renew_at v h m s : probes_ok m → ps_ServiceHealth v = Some h →
  s = (if find_by ps_Name (ps_Name v) (pm_services m) then pm_services m else pm_services m ++ [v]) →
  at_name (ps_Name v)
    (λ o, (Some (default v o.1),
           match CreateProbe h with Some p => Some (p, true) | None => (λ '(p, _), (p, false)) <$> o.2 end))
    m (create_and_check v h ((halt (pm_serviceProbe m !! ps_Name v) m) <| pm_services := s |>)).
Proof.
  intros Hm Hh Hs. set (n := ps_Name v) in *.
  assert (uniq ps_Name s ∧ (∀ x, x ∈ s → ps_ServiceHealth x ≠ None) ∧
    ∀ k, find_by ps_Name k s = if decide (k = n) then Some (default v (find_by ps_Name n (pm_services m)))
                               else find_by ps_Name k (pm_services m)) as (Hu & Hhe & Hf).
  { destruct (find_by ps_Name n (pm_services m)) as [old|] eqn:Ef; subst s.
    - split; [apply Hm|]. split; [intros x; by apply po_health|]. intros k. case_decide; [by subst|done].
    - split; [|split].
      + unfold uniq. rewrite fmap_app. apply NoDup_app. split; [apply Hm|]. split; [|apply NoDup_singleton].
        intros x Hx. simpl. rewrite list_elem_of_singleton. intros ->. by apply find_by_None in Ef.
      + intros x [Hx|Hx]%elem_of_app; [by eapply po_health|]. apply list_elem_of_singleton in Hx as ->. congruence.
      + intros k. case_decide as Hk; [subst k; by rewrite find_by_snoc, decide_True|].
        by apply find_by_snoc_other. }
  clear Hs. unfold create_and_check, obs. fold n.
  destruct (halt_fields (pm_serviceProbe m !! n) m) as (_ & Hp & Hnx & Hsub).
  assert (∀ id, id ∈ pm_running (halt (pm_serviceProbe m !! n) m) →
    ∃ k p, k ≠ n ∧ pm_serviceProbe m !! k = Some (id, p)) as Hrun.
  { intros id Hid. destruct (po_running m Hm id (Hsub _ Hid)) as (k & q & Hk). exists k, q. split; [|done].
    intros ->. rewrite Hk in Hid. simpl in Hid. set_solver. }
  destruct (CreateProbe h) as [p|]; (split; [split|]); simpl; rewrite ?Hp, ?Hnx; try done.
  - intros id [->%elem_of_singleton|Hid]%elem_of_union; [exists n, p; by rewrite lookup_insert_eq|].
    destruct (Hrun id Hid) as (k & q & Hk & E). exists k, q. by rewrite lookup_insert_ne.
  - intros k id q [[_ [= <- _]]|[_ E]]%lookup_insert_Some; [lia|]. apply (po_fresh m Hm) in E. lia.
  - intros k k' id q q' [[<- [= <- <-]]|[Hk E]]%lookup_insert_Some [[<- E']|[Hk' E']]%lookup_insert_Some; try done.
    + apply (po_fresh m Hm) in E'. lia.
    + injection E' as <- <-. apply (po_fresh m Hm) in E. lia.
    + by eapply po_inj.
  - intros k. unfold obs. simpl. rewrite Hp, ?Hnx, Hf. case_decide as Hk.
    + subst k. rewrite lookup_insert_eq. simpl. by rewrite bool_decide_eq_true_2 by set_solver.
    + rewrite lookup_insert_ne by done. f_equal. destruct (pm_serviceProbe m !! k) as [[i q]|] eqn:Ek; [|done].
      simpl. do 2 f_equal. apply bool_decide_ext. pose proof (po_fresh m Hm k i q Ek).
      rewrite elem_of_union, elem_of_singleton, (halt_running m n k i q Hm Hk Ek). split; [|tauto].
      intros [->|?]; [lia|done].
  - intros id Hid. destruct (Hrun id Hid) as (k & q & _ & E). eauto.
  - intros k id q. apply (po_fresh m Hm).
  - intros k k' id q q'. apply (po_inj m Hm).
  - intros k. unfold obs. simpl. rewrite Hp, ?Hnx, Hf. case_decide as Hk.
    + subst k. f_equal. destruct (pm_serviceProbe m !! n) as [[i q]|]; [|done]. simpl.
      by rewrite bool_decide_eq_false_2 by set_solver.
    + f_equal. destruct (pm_serviceProbe m !! k) as [[i q]|] eqn:Ek; [|done].
      simpl. do 2 f_equal. apply bool_decide_ext. exact (halt_running m n k i q Hm Hk Ek).
Qed.

Lemma update_one_at v m : probes_ok m → ∃ m', update_one v m = Ok m' ∧ at_name (ps_Name v) (update_view v) m m'.
Proof.
  intros Hm. unfold update_one. destruct (ps_ServiceHealth v) as [h|] eqn:Eh.
  2:{ exists m. split; [done|]. split; [done|]. intros k. unfold update_view. rewrite Eh. by case_decide. }
  rewrite (need_update v h) by done. cbn [then_do].
  assert (∀ m' f, at_name (ps_Name v) f m m' → f (obs (ps_Name v) m) = update_view v (obs (ps_Name v) m) →
    at_name (ps_Name v) (update_view v) m m') as Hat.
  { intros m' f [Hok Ho] Hf. split; [done|]. intros k. rewrite Ho. case_decide as Hk; [by subst k|done]. }
  assert (∀ r, match find_by ps_Name (ps_Name v) (pm_services m) with
                Some old => same_service v old | None => false end = r →
    update_view v (obs (ps_Name v) m) =
      if r then obs (ps_Name v) m else if ps_Disable v then stop_view (obs (ps_Name v) m)
      else (Some (default v (obs (ps_Name v) m).1),
            match CreateProbe h with Some p => Some (p, true)
            | None => (λ '(p, _), (p, false)) <$> (obs (ps_Name v) m).2 end)) as Hv
    by (intros r <-; unfold update_view; by rewrite Eh).
  destruct (match find_by _ _ _ with Some old => same_service v old | None => false end);
    specialize (Hv _ eq_refl); cbn [negb].
  { exists m. split; [done|]. apply (Hat m id); [split; [done|]; intros k; by case_decide|by rewrite Hv]. }
  destruct (ps_Disable v).
  { destruct (stop_named_at (ps_Name v) m Hm) as (m' & E & Hst). cbn [StopProbes]. rewrite E.
    exists m'. split; [done|]. by apply (Hat m' stop_view). }
  eexists. split; [reflexivity|].
  refine (Hat _ (λ o, (Some (default v o.1), match CreateProbe h with
    Some p => Some (p, true) | None => (λ '(p, _), (p, false)) <$> o.2 end)) _ _); [|by rewrite Hv].
  rewrite exists_find, (proj1 (halt_fields _ m)).
  pose proof (λ s, renew_at v h m s Hm Eh) as Hr.
  destruct (find_by ps_Name (ps_Name v) (pm_services m)) as [old|] eqn:Ef.
  - rewrite bool_decide_eq_true_2 by done.
    assert (halt (pm_serviceProbe m !! ps_Name v) m =
      (halt (pm_serviceProbe m !! ps_Name v) m) <| pm_services := pm_services m |>) as ->
      by (destruct m as [? ? ? ? ? ?]; by destruct (_ !! _) as [[? ?]|]).
    exact (Hr _ eq_refl).
  - rewrite bool_decide_eq_false_2 by (by intros [? ?]).
    assert (set_field (T := list PService) pm_services (λ l, l ++ [v]) (halt (pm_serviceProbe m !! ps_Name v) m) =
      (halt (pm_serviceProbe m !! ps_Name v) m) <| pm_services := pm_services m ++ [v] |>) as ->
      by (destruct m as [? ? ? ? ? ?]; by destruct (_ !! _) as [[? ?]|]).
    exact (Hr _ eq_refl).
Qed.

Lemma update_each_view l m : probes_ok m →
  ∃ m', update_each l m = Ok m' ∧ probes_ok m' ∧
    ∀ k, obs k m' = foldl (λ o v, update_view v o) (obs k m) (filter (λ v, ps_Name v = k) l).
Proof.
  revert m. induction l as [|v l IH]; intros m Hm; [by exists m|].
  destruct (update_one_at v m Hm) as (m1 & E1 & Hm1 & Ho1). destruct (IH m1 Hm1) as (m2 & E2 & Hm2 & Ho2).
  exists m2. cbn [update_each]. rewrite E1. split; [done|]. split; [done|]. intros k.
  rewrite Ho2, Ho1, filter_cons. destruct (decide (k = ps_Name v)) as [->|Hk].
  - by rewrite decide_True.
  - by rewrite decide_False.
Qed.

Section update.
Context `{GoRuntimeLaws}.

(** What is known of the component of [sid] and not among the names kept. *)
Definition obsolete (sid : string) (l : list PService) (k : string) (m : probeManager) : Prop :=
  (∃ v, v ∈ pm_services m ∧ ps_Sid v = sid ∧ ps_Name v = k) ∧ k ∉ ps_Name <$> l.

Lemma by_sid_lookup sid m k v : ListServicesBySid sid m !! k = Some v → ps_Name v = k.
Proof.
  unfold ListServicesBySid. induction (pm_services m) as [|x l IH] using rev_ind; [done|].
  rewrite foldl_app. cbn [foldl]. case_decide; [|done]. intros [[<- <-]|[_ Hl]]%lookup_insert_Some; auto.
Qed.

Lemma by_sid_is_Some sid m k :
  is_Some (ListServicesBySid sid m !! k) ↔ ∃ v, v ∈ pm_services m ∧ ps_Sid v = sid ∧ ps_Name v = k.
Proof.
  unfold ListServicesBySid. induction (pm_services m) as [|x l IH] using rev_ind.
  { cbn. rewrite lookup_empty. split; [by intros [? ?]|]. by intros (v & ?%not_elem_of_nil & _). }
  rewrite foldl_app. cbn [foldl].
  assert ((∃ v, v ∈ l ++ [x] ∧ ps_Sid v = sid ∧ ps_Name v = k) ↔
    (∃ v, v ∈ l ∧ ps_Sid v = sid ∧ ps_Name v = k) ∨ ps_Sid x = sid ∧ ps_Name x = k) as ->.
  { setoid_rewrite elem_of_app. setoid_rewrite list_elem_of_singleton. naive_solver. }
  rewrite <- IH. case_decide; [|tauto]. rewrite lookup_insert_is_Some. destruct (decide (ps_Name x = k)); tauto.
Qed.

Lemma delete_names_lookup (old : gmap string PService) l k :
  foldr (λ v old, delete (ps_Name v) old) old l !! k = if decide (k ∈ ps_Name <$> l) then None else old !! k.
Proof.
  induction l as [|v l IH]; [rewrite decide_False by apply not_elem_of_nil; done|]. cbn [foldr].
  rewrite fmap_cons, lookup_delete, IH. destruct (decide (ps_Name v = k)) as [->|Hv].
  - by rewrite decide_True by apply list_elem_of_here.
  - apply decide_ext. rewrite elem_of_cons. naive_solver.
Qed.

Lemma old_names_iff sid l m k :
  k ∈ ps_Name <$> (range_order (foldr (λ v old, delete (ps_Name v) old) (ListServicesBySid sid m) l)).*2 ↔
  obsolete sid l k m.
Proof.
  unfold obsolete. rewrite <- by_sid_is_Some. rewrite list_elem_of_fmap. setoid_rewrite list_elem_of_fmap.
  set (old := foldr _ _ l). split.
  - intros (v & -> & [k' v'] & -> & Hin). rewrite range_order_perm in Hin. apply elem_of_map_to_list in Hin.
    unfold old in Hin. rewrite delete_names_lookup in Hin. case_decide as Hn; [done|]. simpl.
    pose proof (by_sid_lookup _ _ _ _ Hin) as ->. rewrite list_elem_of_fmap in Hn. split; [by eexists|exact Hn].
  - intros [[v Hv] Hn]. exists v. pose proof (by_sid_lookup _ _ _ _ Hv) as Hk. split; [done|].
    exists (k, v). split; [done|]. rewrite range_order_perm. apply elem_of_map_to_list. unfold old.
    rewrite delete_names_lookup, decide_False; [done|]. rewrite list_elem_of_fmap. done.
Qed.

Lemma update_services_view l v0 m : probes_ok m →
  ∃ m', UpdateServicesProbe (v0 :: l) m = Ok m' ∧ probes_ok m' ∧
    ∀ k, (obsolete (ps_Sid v0) (v0 :: l) k m → obs k m' = stop_view (obs k m)) ∧
         (¬ obsolete (ps_Sid v0) (v0 :: l) k m →
          obs k m' = foldl (λ o v, update_view v o) (obs k m) (filter (λ v, ps_Name v = k) (v0 :: l))).
Proof.
  intros Hm. unfold UpdateServicesProbe.
  destruct (update_each_view (v0 :: l) m Hm) as (m1 & -> & Hm1 & Ho1). cbn [then_do].
  destruct (stop_probes_view (ps_Name <$> (range_order (foldr (λ v old, delete (ps_Name v) old)
    (ListServicesBySid (ps_Sid v0) m) (v0 :: l))).*2) m1 Hm1) as (m2 & -> & Hm2 & Ho2).
  exists m2. split; [done|]. split; [done|]. intros k. rewrite Ho2, Ho1.
  pose proof (old_names_iff (ps_Sid v0) (v0 :: l) m k) as Hiff. split; intros Hob.
  - rewrite decide_True by (by apply Hiff).
    assert (filter (λ v, ps_Name v = k) (v0 :: l) = []) as ->; [|done].
    destruct (filter _ _) as [|y l'] eqn:Ef; [done|]. exfalso. apply Hob.
    assert (y ∈ filter (λ v, ps_Name v = k) (v0 :: l)) as Hy by (rewrite Ef; apply list_elem_of_here).
    apply list_elem_of_filter in Hy as [<- Hy]. by apply list_elem_of_fmap_2.
  - by rewrite decide_False by (by rewrite Hiff).
Qed.

(** C20 (refinement): giving the prober the services of a component never fails
    and treats every name on its own.  A service that is known and unchanged keeps its probe; a new or
    changed one gets a running probe, or none when it is disabled; a known
    service of the component that is no longer given is forgotten along
    with its probe; nothing happens to any other name.  No goroutine of a probe
    is ever left without being registered. *)
Theorem update_services_refines (l : list PService) (v0 : PService) (m : probeManager) (Hm : probes_ok m) :
  ∃ m', UpdateServicesProbe (v0 :: l) m = Ok m' ∧ probes_ok m' ∧
    ∀ k, (obsolete (ps_Sid v0) (v0 :: l) k m → obs k m' = stop_view (obs k m)) ∧
         (¬ obsolete (ps_Sid v0) (v0 :: l) k m →
          obs k m' = foldl (λ o v, update_view v o) (obs k m) (filter (λ v, ps_Name v = k) (v0 :: l))).
Proof. by apply update_services_view. Qed.

Lemma same_service_refl v : ps_ServiceHealth v ≠ None → same_service v v = true.
Proof.
  intros Hv. unfold same_service. rewrite bool_decide_eq_true_2 by done.
  destruct (ps_ServiceHealth v); [|done]. by apply bool_decide_eq_true.
Qed.

(** One service of a component that is known under its name. *)
Lemma update_single v m m' : probes_ok m → UpdateServicesProbe [v] m = Ok m' →
  probes_ok m' ∧ obs (ps_Name v) m' = update_view v (obs (ps_Name v) m).
Proof.
  intros Hm Hr. destruct (update_services_view [] v m Hm) as (m1 & E & Hm1 & Ho).
  rewrite Hr in E. injection E as <-. split; [done|]. destruct (Ho (ps_Name v)) as [_ H'].
  rewrite H'; [|intros [_ Hn]; apply Hn, list_elem_of_here]. by rewrite filter_cons, decide_True.
Qed.

(** A known service is never replaced by its new version, and
    comparisons are with the one first seen.  So after a change is taken back
    the changed probe keeps running, and nothing starts the original one again. *)
Theorem reverted_probe_kept (v v' : PService) (h' : Health) (p' : Probe) (m m1 m2 : probeManager)
    (Hm : probes_ok m) (Hknown : find_by ps_Name (ps_Name v) (pm_services m) = Some v)
    (Hname : ps_Name v' = ps_Name v) (Hchanged : same_service v' v = false)
    (Hon : ps_Disable v' = false) (Hh : ps_ServiceHealth v' = Some h') (Hp : CreateProbe h' = Some p')
    (Hrun1 : UpdateServicesProbe [v'] m = Ok m1) (Hrun2 : UpdateServicesProbe [v] m1 = Ok m2) :
  GetProbe (ps_Name v) m2 = Some p' ∧ find_by ps_Name (ps_Name v) (pm_services m2) = Some v.
Proof.
  destruct (update_single v' m m1 Hm Hrun1) as [Hm1 Ho1].
  destruct (update_single v m1 m2 Hm1 Hrun2) as [_ Ho2]. rewrite Hname in Ho1.
  assert (obs (ps_Name v) m1 = (Some v, Some (p', true))) as E1.
  { rewrite Ho1. unfold update_view, obs. cbn [fst snd]. by rewrite Hh, Hknown, Hchanged, Hon, Hp. }
  assert (ps_ServiceHealth v ≠ None) as Hv by (apply find_by_Some in Hknown as [_ Hin]; exact (po_health m Hm v Hin)).
  rewrite E1 in Ho2. unfold update_view in Ho2. destruct (ps_ServiceHealth v) as [h|] eqn:Eh; [|done].
  cbn [fst] in Ho2. rewrite same_service_refl in Ho2 by congruence. unfold obs in Ho2.
  injection Ho2 as Hf Hpr. split; [|done]. unfold GetProbe.
  destruct (pm_serviceProbe m2 !! ps_Name v) as [[i q]|]; [|done]. cbn in Hpr. by injection Hpr as -> _.
Qed.
End update.

(** C0 (error): the services added are also appended once more, and stopping
    the probe of a name that is there twice crashes: the loop deletes from
    the slice it ranges over. *)
Theorem added_twice_crashes (v : PService) (h : Health) (p : Probe)
    (Hh : probed v = Some h) (Hp : CreateProbe h = Some p) :
  let m := AddAndUpdateServices [v] NewProber in
  pm_services m = [v; v] ∧ StopProbes [ps_Name v] m = Panic.
Proof.
  unfold AddAndUpdateServices, updateAllServicesProbe. cbn. rewrite Hh. unfold create_and_check. rewrite Hp.
  split; [done|]. unfold StopProbes, stop_named. cbn -[range_delete]. rewrite lookup_insert_eq.
  assert (range_delete (λ svc, bool_decide (ps_Name svc = ps_Name v)) [v; v] = None) as ->; [|done].
  unfold range_delete. cbn. rewrite bool_decide_eq_true_2 by done.
  rewrite (decide_True (P := 1 ≤ 2)) by lia. cbn. rewrite bool_decide_eq_true_2 by done. reflexivity.
Qed.

(** ** Statuses *)

(** What a probe reports: the counters are still zero. *)
Definition report (n status info : string) : HealthStatus :=
  mkHealthStatus n status 0 0 None info "" false.

Definition handle_reports (n : string) (reports : list (Z * string)) (m : probeManager) : probeManager :=
  foldl (λ m '(now, st), updateServiceStatus now (report n st "") m) m reports.

(** The failures since the last success. *)
Definition trailing_failures (l : list (Z * string)) : Z :=
  foldl (λ n '(_, st), if decide (st = StatHealthy) then 0 else n + 1)%Z 0%Z l.

Lemma handle_reports_spec n x xs m : pm_status m !! n = None →
  ∃ s, pm_status (handle_reports n (x :: xs) m) !! n = Some s ∧
    hs_ErrorNumber s = trailing_failures xs ∧
    (hs_StartErrorTime s = None ↔ trailing_failures xs = 0%Z) ∧
    (trailing_failures xs = 1%Z → hs_ErrorDuration s = (2 ^ 63 - 1)%Z) ∧
    hs_LastStatus s = match xs with [] => ""%string | _ => hs_Status s end ∧
    hs_Status s = (default x (last xs)).2 ∧ (0 ≤ trailing_failures xs)%Z.
Proof.
  intros Hn. destruct x as [t0 st0]. induction xs as [|[t st] xs IH] using rev_ind.
  { exists (report n st0 ""). unfold handle_reports, updateServiceStatus. cbn. rewrite Hn. cbn. by rewrite lookup_insert_eq. }
  destruct IH as (s & E & Hnum & Hst & _ & _ & _ & Hpos). unfold handle_reports in *.
  rewrite app_comm_cons, foldl_app. cbn [foldl] in *. unfold trailing_failures in *. rewrite foldl_app. cbn [foldl].
  set (k := foldl _ 0%Z xs) in *. set (m0 := foldl _ (updateServiceStatus t0 _ m) xs) in *.
  unfold updateServiceStatus at 1. cbn [hs_Name report]. rewrite E, last_snoc. cbn.
  destruct (decide (st = StatHealthy)) as [Hs|Hs]; (eexists; split; [apply lookup_insert_eq|]); cbn.
  - split_and!; try done. by destruct xs.
  - split; [lia|]. split; [split; [done|lia]|]. split.
    + intros Hk. assert (k = 0%Z) as Hk0 by lia. apply Hst in Hk0. by rewrite Hk0.
    + split; [by destruct xs|]. split; [done|lia].
Qed.

(** The error number of a probe is the number of failed
    reports since the last success, except that the very first report of a
    probe is never counted; and the first counted failure is said to last for
    292 years, because its duration is taken from the zero time. *)
Theorem failures_counted (n : string) (x : Z * string) (xs : list (Z * string)) (m : probeManager)
    (Hn : pm_status m !! n = None) :
  ∃ s, pm_status (handle_reports n (x :: xs) m) !! n = Some s ∧
    hs_Status s = (default x (last xs)).2 ∧ hs_ErrorNumber s = trailing_failures xs ∧
    (trailing_failures xs = 1%Z → hs_ErrorDuration s = (2 ^ 63 - 1)%Z).
Proof. destruct (handle_reports_spec n x xs m Hn) as (s & ? & ? & ? & ? & ? & ? & ?). by exists s. Qed.

(** ** Examples *)

Definition demo_health (address : string) : Health := mkHealth "a" "tcp" "" 80 address 5 3 5.
Definition demo_service (address : string) : PService := mkPService "sid" "a" (Some (demo_health address)) false.
Definition demo_manager (l : list PService) (m : probeManager) : probeManager :=
  match @UpdateServicesProbe ref_runtime l m with Ok m' => m' | _ => m end.
Definition demo_prober : probeManager := demo_manager [demo_service "10.0.0.1:80"] NewProber.
Definition demo_changed : probeManager := demo_manager [demo_service "10.0.0.2:80"] demo_prober.

(** A manager that probes one address, and is told of another component. *)
Lemma update_services_refines_witness : ∃ m',
  @UpdateServicesProbe ref_runtime [mkPService "other" "b" (Some (demo_health "b")) false] demo_prober = Ok m' ∧
  obs "a" m' = obs "a" demo_prober.
Proof.
  destruct (@update_services_refines ref_runtime ref_runtime_laws [] (demo_service "10.0.0.1:80") NewProber
    probes_ok_new) as (m & Hm & Hok & _).
  assert (m = demo_prober) as -> by (unfold demo_prober, demo_manager; by rewrite Hm).
  destruct (@update_services_refines ref_runtime ref_runtime_laws [] (mkPService "other" "b" (Some (demo_health "b")) false)
    demo_prober Hok) as (m' & Hm' & _ & Ho).
  exists m'. split; [exact Hm'|]. destruct (Ho "a"%string) as [_ H]. rewrite H; [reflexivity|].
  intros [(v & Hv & Hs & Hn) _]. assert (pm_services demo_prober = [demo_service "10.0.0.1:80"]) as E by reflexivity.
  rewrite E in Hv. apply list_elem_of_singleton in Hv as ->. discriminate Hs.
Defined.

Lemma demo_prober_ok : probes_ok demo_prober.
Proof.
  destruct (@update_services_view ref_runtime ref_runtime_laws [] (demo_service "10.0.0.1:80") NewProber
    probes_ok_new) as (m & Hm & Hok & _).
  unfold demo_prober, demo_manager. by rewrite Hm.
Qed.

Lemma reverted_probe_kept_witness :
  pr_Address <$> GetProbe "a" (demo_manager [demo_service "10.0.0.1:80"] demo_changed) = Some "10.0.0.2:80"%string.
Proof.
  destruct (@reverted_probe_kept ref_runtime ref_runtime_laws (demo_service "10.0.0.1:80") (demo_service "10.0.0.2:80")
    (demo_health "10.0.0.2:80") (mkProbe TCPProbe "a" "10.0.0.2:80" 5 3 5) demo_prober demo_changed
    (demo_manager [demo_service "10.0.0.1:80"] demo_changed) demo_prober_ok eq_refl eq_refl eq_refl eq_refl eq_refl
    eq_refl eq_refl eq_refl) as [H _].
  exact (f_equal (fmap pr_Address) H).
Defined.

Lemma added_twice_crashes_witness :
  StopProbes ["a"%string] (AddAndUpdateServices [demo_service "x"] NewProber) = Panic.
Proof. exact (proj2 (added_twice_crashes (demo_service "x") (demo_health "x") _ eq_refl eq_refl)). Defined.

Lemma failures_counted_witness : ∃ s,
  pm_status (handle_reports "a" [(1, "death"); (2, "death"); (3, "death")]%Z%string NewProber) !! "a"%string = Some s ∧
  hs_ErrorNumber s = 2%Z.
Proof.
  destruct (failures_counted "a" (1, "death")%Z%string [(2, "death"); (3, "death")]%Z%string NewProber eq_refl)
    as (s & H1 & _ & H2 & _).
  exists s. split; [exact H1|]. rewrite H2. reflexivity.
Defined.
