(* ===== verification/ThirdParty.v ===== *)
(** * Third-party components

    [worker/appm/thirdparty]: a component outside the cluster is a service
    whose endpoints this code writes ([thirdparty.go], [endpoints.go]), from
    static rows, from an etcd directory ([discovery/etcd.go]) and from what
    the probes report ([worker/appm/prober/prober.go]); addresses are told
    from domains by [util/endpoint/validation.go].  Addresses of a subset are
    values: appending into spare capacity that two slices share is not modelled. *)
From S2P Require Import Prelude Kube AppService Ensure Store Conversion Gateway Handle Prober.
From stdpp Require Import pretty.

(** ** Addresses *)

(** The text before the first [sep]. *)
Fixpoint before (sep s : string) : string :=
  match s with
  | EmptyString => EmptyString
  | String c s' => if String.prefix sep s then EmptyString else String c (before sep s')
  end.

Fixpoint drop_chars (n : nat) (s : string) : string :=
  match n, s with
  | S n, String _ s' => drop_chars n s'
  | _, _ => s
  end.

(** [strings.Split(s, sep)[1]] of a text that starts with [sep]. *)
Definition strip_scheme (sep s : string) : string :=
  if String.prefix sep s then before sep (drop_chars (String.length sep) s) else s.

Definition SplitEndpointAddress (resourceAddress : string) : string :=
  first_field (strip_scheme "http://" (strip_scheme "https://" resourceAddress)).

(** [dtoi] of the package net: digits in front, their value and the rest. *)
Fixpoint dtoi (n : Z) (seen : bool) (s : string) : option (Z * string) :=
  match s with
  | EmptyString => if seen then Some (n, s) else None
  | String c s' =>
    match digit_value c with
    | Some d => let n := (n * 10 + d)%Z in if decide (16777215 ≤ n)%Z then None else dtoi n true s'
    | None => if seen then Some (n, s) else None
    end
  end.

(** [parseIPv4]: [k] numbers to go. *)
Fixpoint parse_octets (k : nat) (first : bool) (s : string) : bool :=
  match k with
  | O => bool_decide (s = ""%string)
  | S k =>
    let body := if first then Some s else
      match s with
      | String c s' => if decide (Ascii.nat_of_ascii c = 46) then Some s' else None
      | EmptyString => None
      end in
    match body ≫= dtoi 0 false with
    | Some (n, rest) => if decide (255 < n)%Z then false else parse_octets k false rest
    | None => false
    end
  end.

(** Whether [net.ParseIP] accepts an address without colons. *)
Definition is_ip (address : string) : bool := parse_octets 4 true address.

(** [IsDomainNotIP]; its arguments come from [SplitEndpointAddress], which leaves no colon. *)
Definition IsDomainNotIP (address : string) : bool := negb (is_ip address).

(** The address that stands for a domain. *)
Definition domain_ip : string := "1.1.1.1".

(** ** Endpoints of the component *)

Record RbdEndpoint := mkRbdEndpoint {
  re_UUID : string; re_Sid : string; re_IP : string; re_Port : Z; re_IsOnline : bool }.

Inductive EventType := CreateEvent | UpdateEvent | DeleteEvent | UnhealthyEvent | HealthEvent.
Record Event := mkEvent { ev_Type : EventType; ev_Obj : option RbdEndpoint }.

Record TenantServiceProbe := mkServiceProbe {
  sp_Mode : string; sp_Scheme : string; sp_PeriodSecond : Z; sp_TimeoutSecond : Z;
  sp_FailureThreshold : Z; sp_IsUsed : option Z }.

(** [updateSubsetAddress]: the subset it returns, and what the subset it was
    given reads afterwards, since deleting moves addresses in the shared array. *)
Definition updateSubsetAddress (ready : bool) (s : EndpointSubset) (ip : string) :
    result (EndpointSubset * EndpointSubset) :=
  let same a := bool_decide (a = ip) in
  let add l := if existsb same l then l else l ++ [ip] in
  if ready then
    match range_delete same (ss_NotReadyAddresses s) with
    | None => Panic
    | Some (l, arr) => Ok (mkSubset (add (ss_Addresses s)) l (ss_Ports s), mkSubset (ss_Addresses s) arr (ss_Ports s))
    end
  else
    match range_delete same (ss_Addresses s) with
    | None => Panic
    | Some (l, arr) =>
      Ok (mkSubset l (add (ss_NotReadyAddresses s)) (ss_Ports s), mkSubset arr (ss_NotReadyAddresses s) (ss_Ports s))
    end.

Definition removeSubsetAddress (s : EndpointSubset) (ip : string) : result EndpointSubset :=
  let same a := bool_decide (a = ip) in
  match range_delete same (ss_Addresses s), range_delete same (ss_NotReadyAddresses s) with
  | Some (l, _), Some (l', _) => Ok (mkSubset l l' (ss_Ports s))
  | _, _ => Panic
  end.

(** The test both closures of [runUpdate] make. *)
Definition is_target (domain : bool) (rbdep : RbdEndpoint) (port : Z) (addr : string) : bool :=
  (bool_decide (addr = domain_ip) && domain) ||
  bool_decide ((addr +:+ "_" +:+ pretty port)%string = (re_IP rbdep +:+ "_" +:+ pretty (re_Port rbdep))%string).

Definition first_target (domain : bool) (rbdep : RbdEndpoint) (port : Z) (l : list string) : option string :=
  head (filter (λ a, is_target domain rbdep port a = true) l).

(** A domain is renamed to its stand-in once it was found. *)
Definition renamed (domain : bool) (rbdep : RbdEndpoint) : RbdEndpoint :=
  if domain then mkRbdEndpoint (re_UUID rbdep) (re_Sid rbdep) domain_ip (re_Port rbdep) (re_IsOnline rbdep)
  else rbdep.

(** [updateAddress] for the ports of one subset: [subset] is the loop
    variable, [cur] what is stored at its index. *)
Fixpoint update_ports (ready domain : bool) (ports : list (string * Z)) (subset cur : EndpointSubset)
    (rbdep : RbdEndpoint) (need : bool) : result (EndpointSubset * RbdEndpoint * bool) :=
  match ports with
  | [] => Ok (cur, rbdep, need)
  | (_, port) :: ports' =>
    let address := if ready then ss_NotReadyAddresses subset else ss_Addresses subset in
    match first_target domain rbdep port address with
    | None => update_ports ready domain ports' subset cur rbdep need
    | Some addr =>
      then_do (updateSubsetAddress ready subset addr) (λ '(cur, subset),
        update_ports ready domain ports' subset cur (renamed domain rbdep) true)
    end
  end.

Fixpoint update_subsets (ready domain : bool) (subsets : list EndpointSubset) (rbdep : RbdEndpoint) (need : bool) :
    result (list EndpointSubset * RbdEndpoint * bool) :=
  match subsets with
  | [] => Ok ([], rbdep, need)
  | s :: subsets' =>
    then_do (update_ports ready domain (ss_Ports s) s s rbdep need) (λ '(s', rbdep, need),
    then_do (update_subsets ready domain subsets' rbdep need) (λ '(l, rbdep, need), Ok (s' :: l, rbdep, need)))
  end.

Section remove.
(** What [removeAddress] makes of a subset with several ports; it slices a
    shared array of ports, and no subset of this code has more than one. *)
Context (remove_several_ports : bool → RbdEndpoint → EndpointSubset → result (list EndpointSubset * RbdEndpoint * bool)).

(** The subsets one subset is replaced by, and whether it was touched. *)
Definition remove_subset (domain : bool) (rbdep : RbdEndpoint) (s : EndpointSubset) :
    result (list EndpointSubset * RbdEndpoint * bool) :=
  match ss_Ports s with
  | [] => Ok ([s], rbdep, false)
  | [(_, port)] =>
    match first_target domain rbdep port (ss_Addresses s ++ ss_NotReadyAddresses s) with
    | None => Ok ([s], rbdep, false)
    | Some addr =>
      then_do (removeSubsetAddress s addr) (λ newsub,
        Ok (if decide (ss_Addresses newsub = [] ∧ ss_NotReadyAddresses newsub = []) then [] else [newsub],
            renamed domain rbdep, true))
    end
  | _ => remove_several_ports domain rbdep s
  end.

Fixpoint remove_subsets (domain : bool) (subsets : list EndpointSubset) (rbdep : RbdEndpoint) (need : bool) :
    result (list EndpointSubset * RbdEndpoint * bool) :=
  match subsets with
  | [] => Ok ([], rbdep, need)
  | s :: subsets' =>
    then_do (remove_subset domain rbdep s) (λ '(l, rbdep, touched),
    then_do (remove_subsets domain subsets' rbdep (need || touched)) (λ '(l', rbdep, need), Ok (l ++ l', rbdep, need)))
  end.
End remove.

(** ** New addresses *)

(** [createSubsetForAllEndpoint], for the port of one existing subset: whether the address exists is
    remembered across the subsets. *)
Definition join_subset (useProbe : bool) (ip : string) (port : Z) (st : list EndpointSubset * bool * bool)
    (item : EndpointSubset) : list EndpointSubset * bool * bool :=
  let '(done, existPort, existAddress) := st in
  match ss_Ports item with
  | [(_, p)] =>
    if decide (p = port) then
      let existAddress := existAddress || existsb (λ a, bool_decide (a = ip)) (ss_Addresses item) ||
                          existsb (λ a, bool_decide (a = ip)) (ss_NotReadyAddresses item) in
      let item :=
        if existAddress then item
        else if useProbe
        then mkSubset (ss_Addresses item) (ss_NotReadyAddresses item ++ [ip]) (ss_Ports item)
        else mkSubset (ss_NotReadyAddresses item ++ [ip]) (ss_NotReadyAddresses item) (ss_Ports item) in
      (done ++ [item], true, existAddress)
    else (done ++ [item], existPort, existAddress)
  | _ => (done ++ [item], existPort, existAddress)
  end.

Definition new_subset (useProbe : bool) (uuid ip : string) (port : Z) : EndpointSubset :=
  if useProbe then mkSubset [] [ip] [(uuid, port)] else mkSubset [ip] [] [(uuid, port)].

Definition add_to_subsets (useProbe : bool) (uuid ip : string) (port : Z) (subsets : list EndpointSubset) :
    list EndpointSubset :=
  let '(subsets, existPort, _) := foldl (join_subset useProbe ip port) ([], false, false) subsets in
  if existPort then subsets else subsets ++ [new_subset useProbe uuid ip port].

(** The address of an endpoint, and the annotation a domain leaves on the first service. *)
Definition endpoint_address (ip : string) : string :=
  if IsDomainNotIP (SplitEndpointAddress ip) then domain_ip else ip.

Definition note_domain (ip : string) (a : AppService) : AppService :=
  if IsDomainNotIP (SplitEndpointAddress ip) then
    match services a with
    | [] => a
    | s :: l => a <| services := (s <| svc_meta ::= λ m, m <| m_Annotations ::= <["domain"%string := ip]> |> |>) :: l |>
    end
  else a.

Definition target_port (realPort containerPort : Z) : Z :=
  if decide (realPort = 0)%Z then int32 containerPort else int32 realPort.

(** ** The component's endpoints in the cluster *)

Section thirdparty.
Context {C : Type} (kc : KubeClient C).
Context (gdb : GatewayDB) (service_probes : string → error + list TenantServiceProbe).
(** The static rows of a component, and what its directory lists, if it has one. *)
Context (static_endpoints : string → error + list (RbdEndpoint * option bool)).
Context (dynamic_endpoints : string → option (error + list RbdEndpoint)).
Context (remove_several_ports : bool → RbdEndpoint → EndpointSubset → result (list EndpointSubset * RbdEndpoint * bool)).

Abbreviation SM := (M (Store C)).

Definition lift {A} (r : result A) : SM A := λ s, (s, r).

(** [GetProbeInfo]: a failed query reads as no probe, a nil flag is dereferenced. *)
Definition GetProbeInfo (sid : string) : result (option TenantServiceProbe) :=
  match service_probes sid with
  | inl _ | inr [] => Ok None
  | inr (p :: _) =>
    match sp_IsUsed p with
    | None => Panic
    | Some u => Ok (if decide (u = 0%Z) then None else Some p)
    end
  end.

Definition IsUsedProbe (sid : string) : result bool :=
  then_do (GetProbeInfo sid) (λ p, Ok (if p is Some _ then true else false)).

(** [ListRbdEndpoints]: errors are logged. *)
Definition ListRbdEndpoints (sid : string) : result (list RbdEndpoint) :=
  let static :=
    match static_endpoints sid with
    | inl _ => Ok []
    | inr l =>
      foldr (λ '(e, online) r, then_do r (λ l,
        match online with
        | Some b => Ok (mkRbdEndpoint (re_UUID e) (re_Sid e) (re_IP e) (re_Port e) b :: l)
        | None => Panic
        end)) (Ok []) l
    end in
  then_do static (λ l, Ok (l ++ if dynamic_endpoints sid is Some (inr d) then d else [])).

(** The endpoints of the inner and the outer service of a port. *)
Definition endpoints_names (p : TenantServicesPort) : list string :=
  (if tp_IsInnerService p is Some true
   then [("service-" +:+ pretty (tp_ID p) +:+ "-" +:+ pretty (tp_ContainerPort p))%string] else []) ++
  (if tp_IsOuterService p is Some true
   then [if decide (tp_K8sServiceName p = ""%string)
         then ("service-" +:+ pretty (tp_ID p) +:+ "-" +:+ pretty (tp_ContainerPort p) +:+ "out")%string
         else tp_K8sServiceName p] else []).

Definition endpoints_kind (p : TenantServicesPort) : list string :=
  (if tp_IsInnerService p is Some true then ["Service"%string] else []) ++
  (if tp_IsOuterService p is Some true then ["ServiceOUT"%string] else []).

Definition endpoints_meta (a : AppService) (name kind : string) : ObjectMeta :=
  zero_meta <| m_Name := name |> <| m_Namespace := TenantID a |>
    <| m_Labels := GetCommonLabels [<["name"%string := (ServiceAlias a +:+ kind)%string]>
                                      {["service-kind"%string := ServiceKindThirdParty]}] a |>.

(** The subset of every endpoint, and the component after its domains were noted. *)
Definition k8sEndpoints (a : AppService) (epinfo : list RbdEndpoint) :
    result (AppService * list Endpoints) :=
  match gd_ports gdb (ServiceID a) with
  | inl e => Err e
  | inr [] => Err (EMsg "port not found")
  | inr (p :: _) =>
    match tp_IsInnerService p, tp_IsOuterService p with
    | Some _, Some _ =>
      then_do (match epinfo with [] => Ok false | _ => IsUsedProbe (ServiceID a) end) (λ useProbe,
        let subsets := (λ e, new_subset useProbe (re_UUID e) (endpoint_address (re_IP e))
                               (target_port (re_Port e) (tp_ContainerPort p))) <$> epinfo in
        Ok (foldl (λ a e, note_domain (re_IP e) a) a epinfo,
            zip_with (λ n k, mkEndpoints (endpoints_meta a n k) subsets) (endpoints_names p) (endpoints_kind p)))
    | _, _ => Panic
    end
  end.

(** The cached component itself is written. *)
Definition write_component (key : string) (a : AppService) : SM unit :=
  update_app key (pure_op (λ _, a)).

Definition ensure_services (a : AppService) : SM unit :=
  forM (GetServices a) (λ s, on_cluster (logged (EnsureService kc s))).

(** [runStart]: up to three tries; the result tells whether the directory is watched. *)
Fixpoint start_tries (i : nat) (sid : string) (needWatch : bool) (a : AppService) : SM bool :=
  match i with
  | O => mret false
  | S i =>
    rbdeps ← lift (ListRbdEndpoints sid);
    match rbdeps with
    | [] => start_tries i sid needWatch a
    | _ =>
      match k8sEndpoints a rbdeps with
      | Panic => panic
      | Err _ => start_tries i sid needWatch a
      | Ok (a', eps) =>
        _ ← write_component sid a';
        _ ← forM eps (λ ep, on_cluster (logged (EnsureEndpoints kc ep)));
        _ ← ensure_services a';
        mret (needWatch && if dynamic_endpoints sid is Some _ then true else false)
      end
    end
  end.

Definition runStart (sid : string) (needWatch : bool) : SM bool := λ s,
  match GetAppService sid s with
  | None => (s, Ok false)
  | Some a => start_tries 3 sid needWatch a s
  end.

(** A component that is not in the store is dereferenced. *)
Definition runDelete (sid : string) : SM unit := λ s,
  match GetAppService sid s with
  | None => (s, Panic)
  | Some a => forM (GetEndpoints a) (λ ep,
      _ ← on_cluster (delete_ kc KEndpoints (TenantID a) (ep_name ep)); mret ()) s
  end.

(** An endpoint of the component with its new subsets, first in the cache, then in the
    cluster. *)
Definition store_subsets (key : string) (ep : Endpoints) (subsets : list EndpointSubset) (ensure : bool) : SM unit :=
  let ep := ep <| ep_Subsets := subsets |> in
  _ ← update_app key (pure_op (AddEndpoints ep));
  when ensure (on_cluster (logged (EnsureEndpoints kc ep))).

Definition createSubsetForAllEndpoint (a : AppService) (rbdep : RbdEndpoint) : SM unit :=
  match gd_ports gdb (ServiceID a) with
  | inl e => fail e
  | inr [] => fail (EMsg "Port not found")
  | inr (p :: _) =>
    let key := ServiceID a in
    _ ← write_component key (note_domain (re_IP rbdep) a);
    useProbe ← lift (IsUsedProbe key);
    forM (GetEndpoints a) (λ ep,
      store_subsets key ep (add_to_subsets useProbe (re_UUID rbdep) (endpoint_address (re_IP rbdep))
        (target_port (re_Port rbdep) (tp_ContainerPort p)) (ep_Subsets ep)) true)
  end.

(** [f] over the subsets of every endpoint of the component; an endpoint
    that is not touched is left as [keep] says. *)
Definition for_endpoints (a : AppService) (rbdep : RbdEndpoint)
    (f : list EndpointSubset → RbdEndpoint → result (list EndpointSubset * RbdEndpoint * bool)) : SM unit :=
  _ ← foldM (λ rbdep ep,
        r ← lift (f (ep_Subsets ep) rbdep);
        let '(subsets, rbdep, need) := r in
        _ ← store_subsets (ServiceID a) ep subsets need;
        mret rbdep) rbdep (GetEndpoints a);
  mret ().

Definition updateAddress (a : AppService) (rbdep : RbdEndpoint) (ready : bool) : SM unit :=
  let domain := IsDomainNotIP (SplitEndpointAddress (re_IP rbdep)) in
  for_endpoints a rbdep (λ subsets rbdep, update_subsets ready domain subsets rbdep false).

Definition removeAddress (a : AppService) (rbdep : RbdEndpoint) : SM unit :=
  let domain := IsDomainNotIP (SplitEndpointAddress (re_IP rbdep)) in
  for_endpoints a rbdep (λ subsets rbdep, remove_subsets remove_several_ports domain subsets rbdep false).

Definition runUpdate (event : Event) : SM unit := λ s,
  match ev_Obj event with
  | None => (s, Ok ())
  | Some rbdep =>
    match GetAppService (re_Sid rbdep) s with
    | None => (s, Ok ())
    | Some a =>
      match ev_Type event with
      | UpdateEvent | CreateEvent =>
        (r ← catch (createSubsetForAllEndpoint a rbdep);
         match r with
         | inl _ => mret ()
         | inr _ => ensure_services (note_domain (re_IP rbdep) a)
         end) s
      | DeleteEvent => removeAddress a rbdep s
      | HealthEvent => updateAddress a rbdep true s
      | UnhealthyEvent => updateAddress a rbdep false s
      end
    end
  end.

(** ** The event loop *)

(** [svcStopCh] with the components started, and those whose directory is watched. *)
Record tp_world := mkTpWorld { tw_store : Store C; tw_started : gset string; tw_watched : list string }.

Definition handle_start (e : v1_event) (w : tp_world) : tp_world * result unit :=
  match e with
  | StartEvent sid _ _ =>
    let needWatch := bool_decide (sid ∉ tw_started w) in
    let '(s, r) := runStart sid needWatch (tw_store w) in
    (mkTpWorld s ({[sid]} ∪ tw_started w) (if r is Ok true then tw_watched w ++ [sid] else tw_watched w),
     then_do r (λ _, Ok ()))
  | StopEvent sid =>
    if decide (sid ∈ tw_started w) then
      let '(s, r) := runDelete sid (tw_store w) in
      match r with
      | Ok _ => (mkTpWorld s (tw_started w ∖ {[sid]}) (tw_watched w), Ok ())
      | _ => (mkTpWorld s (tw_started w) (tw_watched w), then_do r (λ _, Ok ()))
      end
    else (w, Ok ())
  end.
End thirdparty.

(** ** The etcd directory *)

Definition hex_value (c : Ascii.ascii) : option Z :=
  let n := Z.of_nat (Ascii.nat_of_ascii c) in
  if decide (48 ≤ n ≤ 57)%Z then Some (n - 48)%Z
  else if decide (97 ≤ n ≤ 102)%Z then Some (n - 87)%Z
  else if decide (65 ≤ n ≤ 70)%Z then Some (n - 55)%Z
  else None.

Fixpoint xtoi (n : Z) (seen : bool) (s : string) : option (Z * string) :=
  match s with
  | EmptyString => if seen then Some (n, s) else None
  | String c s' =>
    match hex_value c with
    | Some d => let n := (n * 16 + d)%Z in if decide (16777215 ≤ n)%Z then None else xtoi n true s'
    | None => if seen then Some (n, s) else None
    end
  end.

Definition starts_with (n : nat) (s : string) : bool :=
  if s is String c _ then bool_decide (Ascii.nat_of_ascii c = n) else false.

(** [parseIPv6]: [k] groups to go, [i] bytes read, whether an ellipsis was seen. *)
Fixpoint parse_groups (k : nat) (i : nat) (ellipsis : bool) (s : string) : bool :=
  match k with
  | O => bool_decide (s = ""%string) && negb ellipsis
  | S k =>
    match xtoi 0 false s with
    | None => false
    | Some (n, rest) =>
      if decide (65535 < n)%Z then false
      else if starts_with 46 rest then
        (ellipsis || bool_decide (i = 12)) && bool_decide (i + 4 ≤ 16) && parse_octets 4 true s &&
        (if decide (i + 4 < 16) then ellipsis else negb ellipsis)
      else
        let i := i + 2 in
        match rest with
        | EmptyString => if decide (i < 16) then ellipsis else negb ellipsis
        | String c rest =>
          if negb (bool_decide (Ascii.nat_of_ascii c = 58)) || bool_decide (rest = ""%string) then false
          else if starts_with 58 rest then
            if ellipsis then false
            else if decide (drop_chars 1 rest = ""%string) then bool_decide (i < 16)
            else parse_groups k i true (drop_chars 1 rest)
          else parse_groups k i ellipsis rest
        end
    end
  end.

Definition parse_ipv6 (s : string) : bool :=
  if starts_with 58 s && starts_with 58 (drop_chars 1 s) then
    if decide (drop_chars 2 s = ""%string) then true else parse_groups 8 0 true (drop_chars 2 s)
  else parse_groups 8 0 false s.

(** [net.ParseIP]: the first dot or colon decides. *)
Fixpoint parse_by (whole s : string) : bool :=
  match s with
  | EmptyString => false
  | String c s' =>
    if decide (Ascii.nat_of_ascii c = 46) then parse_octets 4 true whole
    else if decide (Ascii.nat_of_ascii c = 58) then parse_ipv6 whole
    else parse_by whole s'
  end.
Definition ParseIP (s : string) : bool := parse_by s s.

(** [strings.Replace(s, sub, "", -1)] for a nonempty [sub]. *)
Fixpoint remove_all (fuel : nat) (sub s : string) : string :=
  match fuel, s with
  | S fuel, String c s' =>
    if String.prefix sub s then remove_all fuel sub (drop_chars (String.length sub) s)
    else String c (remove_all fuel sub s')
  | _, _ => s
  end.

Section etcd.
Context (sid key : string).
(** The JSON of a value: its address and port. *)
Context (decode : string → error + (string * Z)).

Definition endpoint_of (k : string) (v : string * Z) : RbdEndpoint :=
  mkRbdEndpoint (remove_all (String.length k) (key +:+ "/") k) sid v.1 v.2 true.

(** [Fetch] over the entries of the directory: a domain replaces everything; the records read so
    far stay after an error. *)
Fixpoint fetch (kvs : list (string * string)) (res : list RbdEndpoint) (records : gmap string RbdEndpoint) :
    gmap string RbdEndpoint * (error + list RbdEndpoint) :=
  match kvs with
  | [] => (records, inr res)
  | (k, v) :: kvs' =>
    match decode v with
    | inl e => (records, inl (EWrap "error getting data from etcd" e))
    | inr d =>
      let endpoint := endpoint_of k d in
      if ParseIP d.1 then fetch kvs' (res ++ [endpoint]) (<[k := endpoint]> records)
      else ({[k := endpoint]}, inr [endpoint])
    end
  end.

Inductive watch_event :=
  | EtcdDelete (k : string)
  | EtcdPut (k v : string) (created : bool).

(** One event of [Watch], with what [Fetch] finds at that moment: the new
    records and what is sent on the update channel. *)
Definition watch_step (directory : error + list (string * string)) (e : watch_event)
    (records : gmap string RbdEndpoint) : gmap string RbdEndpoint * option Event :=
  match e with
  | EtcdDelete k =>
    let obj := mkRbdEndpoint (remove_all (String.length k) (key +:+ "/") k) sid
                 (default ""%string (re_IP <$> records !! k)) 0 false in
    (delete k records, Some (mkEvent DeleteEvent (Some obj)))
  | EtcdPut k v created =>
    match decode v with
    | inl _ => (records, None)
    | inr d =>
      match directory with
      | inl _ => (records, None)
      | inr kvs =>
        let '(records, r) := fetch kvs [] records in
        match r with
        | inl _ => (records, None)
        | inr l =>
          let obj := default (endpoint_of k d) (head (filter (λ e, ParseIP (re_IP e) = false) l)) in
          (records, Some (mkEvent (if created : bool then CreateEvent else UpdateEvent) (Some obj)))
        end
      end
    end
  end.
End etcd.
