(* ===== verification/ThirdPartySpec.v ===== *)
(** * What third-party endpoints do

    The theorems about [ThirdParty]. *)
From S2P Require Import Prelude Kube AppService Ensure Store Conversion Gateway Handle HandleSpec Prober ThirdParty.
From S2P Require Import ConversionSpec GatewaySpec.
From stdpp Require Import pretty.

(** ** Keys of addresses *)

Fixpoint no_underscore (s : string) : Prop :=
  match s with EmptyString => True | String c s' => c ≠ Ascii.ascii_of_nat 95 ∧ no_underscore s' end.

Lemma digits_no_underscore s : all_digits s → no_underscore s.
Proof.
  induction s as [|c s IH]; [done|]. intros [Hc Hs]. split; [|auto]. intros ->. revert Hc.
  apply (bool_decide_unpack (¬ is_digit _)). reflexivity.
Qed.

Lemma pretty_no_underscore (z : Z) : no_underscore (pretty z).
Proof.
  destruct (decide (0 ≤ z)%Z) as [Hz|Hz]; [by apply digits_no_underscore, pretty_digits|].
  destruct z as [|p|p]; [lia|lia|]. split; [done|].
  apply digits_no_underscore. apply (pretty_digits (Zpos p)). lia.
Qed.

Lemma last_underscore s t x y : no_underscore x → no_underscore y →
  (s +:+ "_" +:+ x)%string = (t +:+ "_" +:+ y)%string → s = t ∧ x = y.
Proof.
  assert (∀ t y x, no_underscore x → x = (t +:+ "_" +:+ y)%string → False) as Hno.
  { intros t'. induction t' as [|c t' IH]; intros y' x' Hx ->; [by destruct Hx|]. destruct Hx as [_ Hx]. by eapply IH. }
  intros Hx Hy. revert t. induction s as [|c s IH]; intros [|c' t] E.
  - injection E as E. by split.
  - injection E as _ E. by apply Hno in E.
  - injection E as _ E. symmetry in E. by apply Hno in E.
  - injection E as -> E. by destruct (IH t E) as [-> ->].
Qed.

Lemma is_target_ip r port a : is_target false r port a = bool_decide (a = re_IP r ∧ port = re_Port r).
Proof.
  unfold is_target. rewrite andb_false_r. simpl. apply bool_decide_ext. split.
  - intros E. apply last_underscore in E as [-> E]; [|apply pretty_no_underscore..].
    by apply (inj pretty) in E.
  - by intros [-> ->].
Qed.

Lemma first_target_ip r port l :
  first_target false r port l = if decide (re_IP r ∈ l ∧ port = re_Port r) then Some (re_IP r) else None.
Proof.
  unfold first_target. induction l as [|a l IH].
  { destruct (decide (re_IP r ∈ [] ∧ port = re_Port r)) as [[H _]|]; [by apply not_elem_of_nil in H|done]. }
  rewrite filter_cons, is_target_ip. destruct (decide (a = re_IP r ∧ port = re_Port r)) as [[-> ->]|Hn].
  - rewrite decide_True by (by apply bool_decide_eq_true). rewrite decide_True; [done|].
    split; [apply list_elem_of_here|done].
  - rewrite decide_False by (by rewrite bool_decide_eq_true). rewrite IH. apply decide_ext.
    rewrite elem_of_cons. naive_solver.
Qed.

(** ** What becomes of one subset *)

(** A subset as this package writes them: one port, no address twice. *)
Definition plain_subset (s : EndpointSubset) : Prop :=
  (∃ n p, ss_Ports s = [(n, p)]) ∧ NoDup (ss_Addresses s) ∧ NoDup (ss_NotReadyAddresses s).

Definition moved_from (ready : bool) (s : EndpointSubset) : list string :=
  if ready then ss_NotReadyAddresses s else ss_Addresses s.

Definition without (ip : string) (l : list string) : list string := filter (λ a, a ≠ ip) l.
Definition with_address (ip : string) (l : list string) : list string := if decide (ip ∈ l) then l else l ++ [ip].

(** The address goes to the other list of the subsets of its port. *)
Definition moved (ready : bool) (r : RbdEndpoint) (s : EndpointSubset) : EndpointSubset :=
  if decide (Exists (λ p, p.2 = re_Port r) (ss_Ports s) ∧ re_IP r ∈ moved_from ready s) then
    if ready then
      mkSubset (with_address (re_IP r) (ss_Addresses s)) (without (re_IP r) (ss_NotReadyAddresses s)) (ss_Ports s)
    else
      mkSubset (without (re_IP r) (ss_Addresses s)) (with_address (re_IP r) (ss_NotReadyAddresses s)) (ss_Ports s)
  else s.

Lemma without_absent ip l : ip ∉ l → without ip l = l.
Proof.
  unfold without. induction l as [|x l IH]; [done|]. rewrite not_elem_of_cons. intros [Hx Hl].
  rewrite filter_cons_True by congruence. by rewrite IH.
Qed.

Lemma without_first ip l : NoDup l → remove_first id ip l = without ip l.
Proof.
  unfold without. induction 1 as [|x l Hx Hl IH]; [done|]. cbn [remove_first]. change (id x) with x.
  rewrite filter_cons.
  destruct (decide (x = ip)) as [->|Hn].
  - rewrite decide_False by (intros H; by apply H). symmetry. by apply without_absent.
  - rewrite decide_True by done. by rewrite IH.
Qed.

Lemma range_delete_without (ip : string) (l : list string) : NoDup l →
  ∃ arr, range_delete (λ a, bool_decide (a = ip)) l = Some (without ip l, arr).
Proof.
  intros Hl. rewrite <- without_first by done. apply (range_delete_uniq id ip).
  unfold uniq. by rewrite list_fmap_id.
Qed.

Lemma existsb_address (ip : string) (l : list string) :
  existsb (λ a, bool_decide (a = ip)) l = bool_decide (ip ∈ l).
Proof.
  induction l as [|a l IH]; [done|]. simpl. rewrite IH, <- bool_decide_or. apply bool_decide_ext. set_solver.
Qed.

Lemma add_once (ip : string) (l : list string) :
  (if existsb (λ a, bool_decide (a = ip)) l then l else l ++ [ip]) = with_address ip l.
Proof.
  rewrite existsb_address. unfold with_address. destruct (decide (ip ∈ l)).
  - by rewrite bool_decide_eq_true_2.
  - by rewrite bool_decide_eq_false_2.
Qed.

Lemma updateSubsetAddress_moves ready s ip : NoDup (moved_from ready s) →
  ∃ left, updateSubsetAddress ready s ip =
    Ok (if ready then mkSubset (with_address ip (ss_Addresses s)) (without ip (ss_NotReadyAddresses s)) (ss_Ports s)
        else mkSubset (without ip (ss_Addresses s)) (with_address ip (ss_NotReadyAddresses s)) (ss_Ports s), left).
Proof.
  unfold updateSubsetAddress. rewrite !add_once.
  destruct ready; simpl; intros Hn; destruct (range_delete_without ip _ Hn) as [arr ->]; by eexists.
Qed.

Lemma update_ports_plain ready s r need : plain_subset s →
  ∃ need', update_ports ready false (ss_Ports s) s s r need = Ok (moved ready r s, r, need') ∧
    (need' = false → need = false ∧ moved ready r s = s).
Proof.
  intros ((n & p & Hp) & Ha & Hna). unfold moved. rewrite Hp. cbn [update_ports]. rewrite first_target_ip.
  change (if ready then ss_NotReadyAddresses s else ss_Addresses s) with (moved_from ready s).
  rewrite (decide_ext (Exists _ [(n, p)] ∧ _) (re_IP r ∈ moved_from ready s ∧ p = re_Port r)).
  2: { rewrite Exists_cons, Exists_nil. naive_solver. }
  destruct (decide _) as [[Hin ->]|Hn]; [|by exists need].
  destruct (updateSubsetAddress_moves ready s (re_IP r)) as [left ->]; [by destruct ready|]. cbn.
  exists true. rewrite <- Hp. by destruct ready.
Qed.

Lemma update_subsets_plain ready l r need : Forall plain_subset l →
  ∃ need', update_subsets ready false l r need = Ok (moved ready r <$> l, r, need') ∧
    (need' = false → need = false ∧ moved ready r <$> l = l).
Proof.
  intros Hl. revert need. induction Hl as [|s l Hs _ IH]; intros need; [by exists need|]. cbn [update_subsets].
  destruct (update_ports_plain ready s r need Hs) as (n1 & -> & H1). cbn [then_do].
  destruct (IH n1) as (n2 & -> & H2). cbn [then_do]. exists n2. split; [done|].
  intros E. destruct (H2 E) as [E1 E2]. destruct (H1 E1) as [-> E3]. by rewrite fmap_cons, E2, E3.
Qed.

(** ** What becomes of the component *)

Section with_cluster.
Context {C : Type} (kc : KubeClient C).
Context (kl : C → ∀ k, string → string → option (obj k)) `{!KubeLaws kc kl}.

(** The component stored under [key] becomes [a], the cluster some [c]. *)
Definition at_component (key : string) (a : AppService) (c : C) (s : Store C) : Store C :=
  s <| st_apps := <[key := a]> (st_apps s) |> <| st_cluster := c |>.

Lemma store_subsets_run key ep l ensure a s : st_apps s !! key = Some a →
  ∃ c, store_subsets kc key ep l ensure s =
      (at_component key (AddEndpoints (ep <| ep_Subsets := l |>) a) c s, Ok ()) ∧
    (ensure = false → c = st_cluster s).
Proof.
  intros Ha. unfold store_subsets, update_app, pure_op, mbind, M_bind. rewrite Ha. cbn beta iota.
  destruct ensure; simpl.
  - destruct (total_run _ (total_logged _ (safe_EnsureEndpoints kc kl (ep <| ep_Subsets := l |>))) (st_cluster s))
      as (c & [] & E).
    unfold on_cluster. cbn. rewrite E. by exists c.
  - exists (st_cluster s). unfold at_component. by destruct s.
Qed.

(** Errors of a loop over the cluster are logged. *)
Lemma total_forM_on_cluster {A} (l : list A) (m : A → M C unit) (s : Store C) : (∀ x, safe (m x)) →
  ∃ c, forM l (λ x, on_cluster (logged (m x))) s = (s <| st_cluster := c |>, Ok ()).
Proof.
  intros Hm. revert s. induction l as [|x l IH]; intros s.
  - exists (st_cluster s). by destruct s.
  - destruct (total_run _ (total_logged _ (Hm x)) (st_cluster s)) as (c1 & [] & E).
    destruct (IH (s <| st_cluster := c1 |>)) as (c & E2). exists c. cbn [forM]. erewrite bind_ok; [exact E2|].
    unfold on_cluster. by rewrite E.
Qed.

(** Rewriting every endpoint of the list under its own name. *)
Lemma fold_upsert {A} (nm : A → string) (g : A → A) l : (∀ x, nm (g x) = nm x) → uniq nm l →
  foldl (λ acc x, upsert nm (g x) acc) l l = g <$> l.
Proof.
  intros Hg Hl.
  assert (∀ todo dn, uniq nm (dn ++ todo) →
    foldl (λ acc x, upsert nm (g x) acc) ((g <$> dn) ++ todo) todo = g <$> (dn ++ todo)) as H.
  { intros todo. induction todo as [|x todo IH]; intros dn Hn; [by rewrite !app_nil_r|]. cbn [foldl].
    assert (upsert nm (g x) ((g <$> dn) ++ x :: todo) = (g <$> (dn ++ [x])) ++ todo) as ->.
    { assert (nm x ∉ nm <$> dn) as Hx.
      { unfold uniq in Hn. rewrite fmap_app, fmap_cons in Hn. apply NoDup_app in Hn as (_ & Hd & _).
        intros Hin. apply (Hd _ Hin), list_elem_of_here. }
      clear Hn IH. induction dn as [|y dn IH]; cbn.
      - by rewrite decide_True by (by rewrite Hg).
      - rewrite fmap_cons, not_elem_of_cons in Hx. destruct Hx as [Hy Hx].
        rewrite !Hg, decide_False by congruence. by rewrite IH. }
    replace (dn ++ x :: todo) with ((dn ++ [x]) ++ todo) in * by (by rewrite <- app_assoc). by apply IH. }
  apply (H l []). done.
Qed.

(** Every endpoint rewritten, the cluster written for those that need it. *)
Lemma store_all_run key a g (need : Endpoints → bool) s :
  st_apps s !! key = Some a → uniq ep_name (endpoints a) →
  ∃ c, forM (GetEndpoints a) (λ ep, store_subsets kc key ep (g (ep_Subsets ep)) (need ep)) s =
      (at_component key (a <| endpoints ::= fmap (λ ep, ep <| ep_Subsets ::= g |>) |>) c s, Ok ()) ∧
    (Forall (λ ep, need ep = false) (endpoints a) → c = st_cluster s).
Proof.
  intros Ha Hu. set (put := λ ep : Endpoints, ep <| ep_Subsets ::= g |>).
  assert (∀ l s0 a0, st_apps s0 !! key = Some a0 → ∃ c,
    forM l (λ ep, store_subsets kc key ep (g (ep_Subsets ep)) (need ep)) s0 =
      (at_component key (a0 <| endpoints ::= λ acc, foldl (λ acc x, upsert ep_name (put x) acc) acc l |>) c s0, Ok ()) ∧
    (Forall (λ ep, need ep = false) l → c = st_cluster s0)) as H.
  { clear Ha s. intros l. induction l as [|ep l IH]; intros s0 a0 Ha0.
    - exists (st_cluster s0). split; [|done]. cbn [forM foldl]. unfold at_component, mret, M_ret. f_equal.
      destruct s0 as [apps cnt cl]; simpl in *. rewrite insert_id; [done|]. rewrite Ha0. by destruct a0.
    - destruct (store_subsets_run key ep (g (ep_Subsets ep)) (need ep) a0 s0 Ha0) as (c1 & E & Hc1).
      cbn [forM]. rewrite (bind_ok _ _ _ _ _ E).
      destruct (IH (at_component key (AddEndpoints (ep <| ep_Subsets := g (ep_Subsets ep) |>) a0) c1 s0)
        (AddEndpoints (ep <| ep_Subsets := g (ep_Subsets ep) |>) a0)) as (c2 & E2 & Hc2).
      { simpl. by rewrite lookup_insert_eq. }
      exists c2. rewrite E2. split.
      + f_equal. unfold at_component. simpl. by rewrite insert_insert_eq.
      + intros [Hn Hl]%Forall_cons. rewrite (Hc2 Hl). simpl. auto. }
  destruct (H (GetEndpoints a) s a Ha) as (c & E & Hc). exists c. split; [|done]. rewrite E.
  f_equal. f_equal. unfold set_field, GetEndpoints. simpl. rewrite (fold_upsert ep_name put); done.
Qed.

Lemma for_endpoints_run key a r f (g : list EndpointSubset → list EndpointSubset) (need : Endpoints → bool) s :
  ServiceID a = key → st_apps s !! key = Some a → uniq ep_name (endpoints a) →
  Forall (λ ep, f (ep_Subsets ep) r = Ok (g (ep_Subsets ep), r, need ep)) (endpoints a) →
  ∃ c, for_endpoints kc a r f s =
      (at_component key (a <| endpoints ::= fmap (λ ep, ep <| ep_Subsets ::= g |>) |>) c s, Ok ()) ∧
    (Forall (λ ep, need ep = false) (endpoints a) → c = st_cluster s).
Proof.
  intros Hk Ha Hu Hf. destruct (store_all_run key a g need s Ha Hu) as (c & E & Hc). exists c. split; [|done].
  unfold for_endpoints. fold (GetEndpoints a) in Hf. erewrite bind_ok; [done|].
  clear Ha Hc. revert E. generalize (at_component key (a <| endpoints ::= fmap (λ ep, ep <| ep_Subsets ::= g |>) |>) c s).
  intros s2. subst key. revert s. induction Hf as [|ep l Hep _ IH]; intros s E.
  - cbn in *. by injection E as ->.
  - cbn [forM foldM] in *. apply bind_ok_inv in E as (s1 & [] & E1 & E2). erewrite bind_ok; [exact (IH s1 E2)|].
    erewrite bind_ok; [|unfold lift; by rewrite Hep]. cbn beta iota. by erewrite bind_ok.
Qed.

Context (gdb : GatewayDB) (service_probes : string → error + list TenantServiceProbe).
Context (several : bool → RbdEndpoint → EndpointSubset → result (list EndpointSubset * RbdEndpoint * bool)).

Abbreviation run := (runUpdate kc gdb service_probes several).

(** The component of an endpoint, its endpoints as this package writes them. *)
Definition plain_component (sid : string) (a : AppService) (s : Store C) : Prop :=
  st_apps s !! sid = Some a ∧ ServiceID a = sid ∧ uniq ep_name (endpoints a) ∧
  Forall (λ ep, Forall plain_subset (ep_Subsets ep)) (endpoints a).

Definition is_ip_address (r : RbdEndpoint) : Prop := IsDomainNotIP (SplitEndpointAddress (re_IP r)) = false.

Lemma updateAddress_moves sid r a s ready : is_ip_address r → plain_component sid a s →
  ∃ c, updateAddress kc a r ready s =
    (at_component sid (a <| endpoints ::= fmap (λ ep, ep <| ep_Subsets ::= fmap (moved ready r) |>) |>) c s, Ok ()).
Proof.
  intros Hip (Ha & Hs & Hu & Hp). unfold updateAddress. rewrite Hip.
  edestruct (for_endpoints_run sid a r (λ subsets r, update_subsets ready false subsets r false) (fmap (moved ready r))
    (λ ep, if update_subsets ready false (ep_Subsets ep) r false is Ok (_, n) then n else false) s Hs Ha Hu)
    as (c & E & _); [|by exists c].
  eapply Forall_impl; [exact Hp|]. intros ep Hep. cbn beta.
  by destruct (update_subsets_plain ready (ep_Subsets ep) r false Hep) as (n & -> & _).
Qed.

(** What a probe reports about an address moves exactly that
    address: in every subset of its port it goes from the addresses that are
    not ready to the ready ones, or back, all other addresses and subsets and
    the rest of the component stay, and the event loop neither fails nor panics
    whatever the cluster answers. *)
Theorem probe_event_moves r a s (healthy : bool) :
  is_ip_address r → plain_component (re_Sid r) a s →
  ∃ c, run (mkEvent (if healthy then HealthEvent else UnhealthyEvent) (Some r)) s =
    (at_component (re_Sid r)
       (a <| endpoints ::= fmap (λ ep, ep <| ep_Subsets ::= fmap (moved healthy r) |>) |>) c s, Ok ()).
Proof.
  intros Hip Hc. pose proof (proj1 Hc) as Ha. unfold runUpdate, GetAppService. cbn [ev_Obj ev_Type]. rewrite Ha.
  destruct healthy; exact (updateAddress_moves (re_Sid r) r a s _ Hip Hc).
Qed.

(** *** Removal *)

(** The address is not at this port: nothing to remove. *)
Lemma remove_subsets_other l r : Forall (λ s, ∃ n p, ss_Ports s = [(n, p)] ∧ p ≠ re_Port r) l →
  remove_subsets several false l r false = Ok (l, r, false).
Proof.
  induction 1 as [|s l (n & p & Hp & Hn) _ IH]; [done|]. cbn [remove_subsets]. unfold remove_subset. rewrite Hp.
  rewrite first_target_ip, decide_False by (by intros [_ ?]). cbn [then_do orb]. by rewrite IH.
Qed.

Lemma removeAddress_other sid r a s : is_ip_address r → plain_component sid a s →
  Forall (λ ep, Forall (λ u, Forall (λ p, p.2 ≠ re_Port r) (ss_Ports u)) (ep_Subsets ep)) (endpoints a) →
  removeAddress kc several a r s = (s, Ok ()).
Proof.
  intros Hip (Ha & Hs & Hu & Hp) H0. unfold removeAddress. rewrite Hip.
  edestruct (for_endpoints_run sid a r (λ subsets r, remove_subsets several false subsets r false) id
    (λ _, false) s Hs Ha Hu) as (c & -> & Hc).
  - rewrite Forall_forall in Hp, H0. apply Forall_forall. intros ep Hin. unfold id.
    apply (remove_subsets_other (ep_Subsets ep)). specialize (Hp ep Hin). specialize (H0 ep Hin).
    rewrite Forall_forall in Hp, H0. apply Forall_forall. intros u Hu'. destruct (Hp u Hu') as ((n & p & E) & _).
    exists n, p. split; [done|]. specialize (H0 u Hu'). rewrite E in H0. by apply Forall_cons in H0 as [? _].
  - rewrite Hc by (by apply Forall_forall). unfold at_component. f_equal. destruct s as [apps cnt cl]; simpl in *.
    rewrite insert_id; [done|]. rewrite Ha. f_equal. unfold set_field. simpl.
    rewrite (list_fmap_ext _ id), list_fmap_id by (by intros ? [] ?). by destruct a.
Qed.

(** The event an etcd directory sends when a key is deleted names
    no port, so that an address it names stays in the component's endpoints and
    nothing is written to the cluster, as long as every endpoint has a port. *)
Theorem etcd_delete_ignored sid key decode directory k records r a s :
  records !! k = Some r → is_ip_address r → plain_component sid a s →
  Forall (λ ep, Forall (λ u, Forall (λ p, p.2 ≠ 0%Z) (ss_Ports u)) (ep_Subsets ep)) (endpoints a) →
  ∃ records' event, watch_step sid key decode directory (EtcdDelete k) records = (records', Some event) ∧
    ev_Type event = DeleteEvent ∧ (re_IP <$> ev_Obj event) = Some (re_IP r) ∧
    run event s = (s, Ok ()).
Proof.
  intros Hr Hip Hc H0. cbn [watch_step]. rewrite Hr. cbn [fmap option_fmap default].
  do 2 eexists. split; [reflexivity|]. split; [done|]. split; [done|].
  unfold runUpdate, GetAppService. cbn [ev_Obj ev_Type re_Sid]. rewrite (proj1 Hc).
  by apply (removeAddress_other sid).
Qed.
(** *** New addresses *)

Definition at_port (port : Z) (u : EndpointSubset) : Prop := Exists (λ p, p.2 = port) (ss_Ports u).
#[local] Instance at_port_dec port u : Decision (at_port port u) := _.

(** An address that is new joins the addresses that are not ready; without a
    probe these, and not the ready ones, then are the ready addresses. *)
Definition joined (useProbe : bool) (ip : string) (port : Z) (u : EndpointSubset) : EndpointSubset :=
  if decide (at_port port u) then
    if useProbe then mkSubset (ss_Addresses u) (ss_NotReadyAddresses u ++ [ip]) (ss_Ports u)
    else mkSubset (ss_NotReadyAddresses u ++ [ip]) (ss_NotReadyAddresses u) (ss_Ports u)
  else u.

Definition new_at (ip : string) (port : Z) (u : EndpointSubset) : Prop :=
  at_port port u → ip ∉ ss_Addresses u ∧ ip ∉ ss_NotReadyAddresses u.

Lemma join_subset_new useProbe ip port dn ex u : plain_subset u → new_at ip port u →
  join_subset useProbe ip port (dn, ex, false) u =
  (dn ++ [joined useProbe ip port u], ex || bool_decide (at_port port u), false).
Proof.
  intros ((n & p & Hp) & _) Hn. unfold join_subset, joined, new_at in *. rewrite Hp. 
  assert (at_port port u ↔ p = port) as Hport.
  { unfold at_port. rewrite Hp, Exists_cons, Exists_nil. naive_solver. }
  rewrite !existsb_address. destruct (decide (p = port)) as [E|E].
  - assert (at_port port u) as Hat by tauto. destruct (Hn Hat) as [H1 H2].
    rewrite (bool_decide_eq_false_2 _ H1), (bool_decide_eq_false_2 _ H2), (bool_decide_eq_true_2 _ Hat).
    rewrite decide_True by done. cbn [orb]. rewrite orb_true_r. by destruct useProbe.
  - rewrite decide_False by tauto. rewrite bool_decide_eq_false_2 by tauto. by rewrite orb_false_r.
Qed.

Lemma add_to_subsets_new useProbe uuid ip port l : Forall plain_subset l → Forall (new_at ip port) l →
  add_to_subsets useProbe uuid ip port l =
  (joined useProbe ip port <$> l) ++ (if decide (Exists (at_port port) l) then [] else [new_subset useProbe uuid ip port]).
Proof.
  intros Hl Hn. unfold add_to_subsets.
  assert (∀ dn ex, foldl (join_subset useProbe ip port) (dn, ex, false) l =
    (dn ++ (joined useProbe ip port <$> l), ex || bool_decide (Exists (at_port port) l), false)) as ->.
  { induction Hl as [|u l Hu _ IH]; intros dn ex.
    - by rewrite app_nil_r, orb_false_r.
    - apply Forall_cons in Hn as [Hnu Hn]. cbn [foldl]. rewrite join_subset_new by done. rewrite (IH Hn).
      rewrite <- app_assoc, <- orb_assoc. rewrite <- bool_decide_or. cbn. f_equal. f_equal. f_equal.
      apply bool_decide_ext. by rewrite Exists_cons. }
  cbn [app orb]. destruct (decide (Exists (at_port port) l)).
  - by rewrite bool_decide_eq_true_2, app_nil_r.
  - by rewrite bool_decide_eq_false_2.
Qed.

(** A new address of an endpoint source, which no subset of
    its port has, is added to every subset of that port, or in a subset of its
    own; it waits for the probe if one is used; otherwise the ready addresses
    of the subset are overwritten with those that are not ready and the new
    one.  The rest of the component stays, and nothing fails or panics. *)
Theorem new_address_event r a s p ports useProbe created :
  is_ip_address r → plain_component (re_Sid r) a s →
  gd_ports gdb (re_Sid r) = inr (p :: ports) → IsUsedProbe service_probes (re_Sid r) = Ok useProbe →
  let port := target_port (re_Port r) (tp_ContainerPort p) in
  Forall (λ ep, Forall (new_at (re_IP r) port) (ep_Subsets ep)) (endpoints a) →
  ∃ c, run (mkEvent (if created : bool then CreateEvent else UpdateEvent) (Some r)) s =
    (at_component (re_Sid r)
       (a <| endpoints ::= fmap (λ ep, ep <| ep_Subsets ::= λ l,
          (joined useProbe (re_IP r) port <$> l) ++
          (if decide (Exists (at_port port) l) then [] else [new_subset useProbe (re_UUID r) (re_IP r) port]) |>) |>) c s, Ok ()).
Proof.
  intros Hip (Ha & Hs & Hu & Hp) Hports Hprobe port Hnew. set (g := λ l, _ ++ _).
  destruct (store_all_run (re_Sid r) a (add_to_subsets useProbe (re_UUID r) (re_IP r) port) (λ _, true) s Ha Hu)
    as (c1 & E1 & _).
  assert (a <| endpoints ::= fmap (λ ep, ep <| ep_Subsets ::= add_to_subsets useProbe (re_UUID r) (re_IP r) port |>) |> =
    a <| endpoints ::= fmap (λ ep, ep <| ep_Subsets ::= g |>) |>) as Hg.
  { unfold set_field. simpl. f_equal. apply list_fmap_ext. intros i ep Hep%list_elem_of_lookup_2.
    rewrite Forall_forall in Hp, Hnew. f_equal. apply add_to_subsets_new; [by apply Hp|by apply Hnew]. }
  rewrite Hg in E1.
  assert (createSubsetForAllEndpoint kc gdb service_probes a r s = (at_component (re_Sid r)
    (a <| endpoints ::= fmap (λ ep, ep <| ep_Subsets ::= g |>) |>) c1 s,
    Ok ())) as E.
  { unfold createSubsetForAllEndpoint. rewrite Hs, Hports. unfold note_domain, endpoint_address. rewrite Hip.
    erewrite bind_ok. 2: { unfold write_component, update_app, pure_op. by rewrite Ha. }
    erewrite bind_ok. 2: { unfold lift. by rewrite Hprobe. }
    replace (s <| st_apps ::= <[re_Sid r := a]> |>) with s; [exact E1|].
    destruct s as [apps cnt cl]. unfold set_field. simpl in *. by rewrite insert_id. }
  unfold runUpdate, GetAppService. cbn [ev_Obj]. rewrite Ha.
  assert (note_domain (re_IP r) a = a) as Hnote by (unfold note_domain; by rewrite Hip). rewrite Hnote.
  unfold ensure_services.
  set (s1 := at_component _ _ c1 s) in E. destruct (total_forM_on_cluster (GetServices a) (EnsureService kc) s1) as (c & E2).
  { intros x. exact (safe_ensureService kc kl x). }
  exists c. assert ((r0 ← catch (createSubsetForAllEndpoint kc gdb service_probes a r);
    match r0 with
    | inl _ => mret ()
    | inr _ => forM (GetServices a) (λ s, on_cluster (logged (EnsureService kc s)))
    end) s = (s1 <| st_cluster := c |>, Ok ())) as E3.
  { erewrite bind_ok; [|unfold catch; by rewrite E]. exact E2. }
  destruct created; exact E3.
Qed.
End with_cluster.

(** ** Endpoints and services *)

(** The cluster finds the endpoints of a service by name; the
    endpoints written for a port with both services carry the names of the two
    services that the gateway builder makes for it exactly when the port names
    no Kubernetes service of its own: a name that is given is taken for the
    inner service by one, and for the endpoints of the outer one by the other. *)
Theorem endpoints_match_services gdb domain rest a pp p r :
  tp_IsInnerService p = Some true → tp_IsOuterService p = Some true →
  b_GovernanceMode (base (ab_appService a)) ≠ GovernanceModeKubernetesNativeService →
  build_port gdb domain rest a pp p = Ok r →
  endpoints_names p = svc_name <$> k8s_Services r ↔ tp_K8sServiceName p = ""%string.
Proof.
  intros Hi Ho Hm. unfold build_port. rewrite Hi, Ho. rewrite (decide_False _ _ Hm). unfold endpoints_names. rewrite Hi, Ho.
  match goal with |- context [then_do ?x _] => destruct x as [[ings secs]|e|] end; cbn [then_do]; [|discriminate..].
  intros [= <-]. cbn. unfold svc_name. cbn. unfold inner_name, outer_name.
  destruct (decide (tp_K8sServiceName p = ""%string)) as [E|E]; [done|].
  split; [|done]. intros [= H1 H2]. exfalso. rewrite <- H1 in H2. apply (f_equal String.length) in H2.
  revert H2. rewrite !append_length. simpl. lia.
Qed.

(** ** Examples *)

Definition demo_subset : EndpointSubset := mkSubset ["10.0.0.1"%string] ["10.0.0.2"%string] [("uuid"%string, 8080%Z)].
Definition demo_outside : AppService :=
  (HandleSpec.demo_built "svc") <| endpoints := [mkEndpoints (demo_meta "service-7-8080") [demo_subset]] |>.
Definition demo_outside_store : Store RefKube.cluster := mkStore RefKube.empty {["svc"%string := demo_outside]} 1 ∅ [].
Definition demo_endpoint (ip : string) : RbdEndpoint := mkRbdEndpoint "new" "svc" ip 8080 true.
Definition demo_probes (sid : string) : error + list TenantServiceProbe := inr [].
Definition no_several (domain : bool) (r : RbdEndpoint) (s : EndpointSubset) :
    result (list EndpointSubset * RbdEndpoint * bool) := Panic.

Lemma demo_plain_component : plain_component "svc" demo_outside demo_outside_store.
Proof.
  split; [done|]. split; [done|]. split; [apply NoDup_singleton|]. apply Forall_singleton, Forall_singleton.
  split; [by exists "uuid"%string, 8080%Z|]. split; apply NoDup_singleton.
Qed.

(** The address that the probe found healthy is ready. *)
Lemma probe_event_moves_witness : ∃ c,
  runUpdate RefKube.client demo_gateway_db demo_probes no_several
    (mkEvent HealthEvent (Some (demo_endpoint "10.0.0.2"))) demo_outside_store =
  (at_component "svc" (demo_outside <| endpoints :=
     [mkEndpoints (demo_meta "service-7-8080")
       [mkSubset ["10.0.0.1"; "10.0.0.2"]%string [] [("uuid"%string, 8080%Z)]]] |>) c demo_outside_store, Ok ()).
Proof.
  destruct (probe_event_moves RefKube.client RefKube.lookup demo_gateway_db demo_probes no_several
    (demo_endpoint "10.0.0.2") demo_outside demo_outside_store true) as [c E].
  - vm_compute. reflexivity.
  - exact demo_plain_component.
  - exists c. exact E.
Defined.

(** The key of an address was deleted; the address stays. *)
Lemma etcd_delete_ignored_witness : ∃ records' event,
  watch_step "svc" "/third" (λ _, inl (EMsg "json")) (inr []) (EtcdDelete "/third/new")
    {["/third/new"%string := demo_endpoint "10.0.0.1"]} = (records', Some event) ∧
  ev_Type event = DeleteEvent ∧ (re_IP <$> ev_Obj event) = Some "10.0.0.1"%string ∧
  runUpdate RefKube.client demo_gateway_db demo_probes no_several event demo_outside_store = (demo_outside_store, Ok ()).
Proof.
  apply (etcd_delete_ignored RefKube.client RefKube.lookup demo_gateway_db demo_probes no_several "svc" "/third" _ _
    "/third/new" _ (demo_endpoint "10.0.0.1") demo_outside).
  - reflexivity.
  - vm_compute. reflexivity.
  - exact demo_plain_component.
  - apply Forall_singleton, Forall_singleton, Forall_singleton. simpl. lia.
Defined.

(** Without a probe the ready address is gone after a new one was added. *)
Lemma new_address_event_witness : ∃ c,
  runUpdate RefKube.client demo_gateway_db demo_probes no_several
    (mkEvent CreateEvent (Some (demo_endpoint "10.0.0.3"))) demo_outside_store =
  (at_component "svc" (demo_outside <| endpoints :=
     [mkEndpoints (demo_meta "service-7-8080")
       [mkSubset ["10.0.0.2"; "10.0.0.3"]%string ["10.0.0.2"%string] [("uuid"%string, 8080%Z)]]] |>) c
     demo_outside_store, Ok ()).
Proof.
  destruct (new_address_event RefKube.client RefKube.lookup demo_gateway_db demo_probes no_several
    (demo_endpoint "10.0.0.3") demo_outside demo_outside_store demo_port [] false true) as [c E].
  - vm_compute. reflexivity.
  - exact demo_plain_component.
  - reflexivity.
  - reflexivity.
  - apply Forall_singleton, Forall_singleton. intros _. split; intros H%list_elem_of_singleton; discriminate H.
  - exists c. exact E.
Defined.

Lemma endpoints_match_services_witness :
  endpoints_names demo_port = ["service-7-8080"; "service-7-8080out"]%string ∧
  endpoints_names (demo_port <| tp_K8sServiceName := "web"%string |>) ≠
    ["web"; "service-7-8080out"]%string ∧
  ∃ r, build_port demo_gateway_db "" (λ _, ""%string) demo_builder ∅ demo_port = Ok r ∧
    endpoints_names demo_port = svc_name <$> k8s_Services r.
Proof.
  split; [vm_compute; reflexivity|]. split; [vm_compute; discriminate|].
  destruct (build_port demo_gateway_db "" (λ _, ""%string) demo_builder ∅ demo_port) as [r|e|] eqn:E;
    [|vm_compute in E; discriminate E..].
  exists r. split; [reflexivity|].
  apply (endpoints_match_services demo_gateway_db "" (λ _, ""%string) demo_builder ∅ demo_port r eq_refl eq_refl).
  - done.
  - exact E.
  - reflexivity.
Defined.
