(* ===== verification/HelmApp.v ===== *)
(** * Helm applications

    [worker/master/controller/helmapp]: a custom resource names a chart; the
    control loop ([controlloop.go]) checks the chart ([detector.go]), installs or
    upgrades it ([app.go]) and writes how far it got into the resource
    ([status.go]); the finalizer ([finilizer.go]) uninstalls it.  The conditions
    of the resource are in [pkg/apis/kato/v1alpha1/helmapp_status.go].  Helm itself
    ([pkg/helm], a layer over the Helm library) is the record [Helm]. *)
From S2P Require Import Prelude Kube.

(** ** The resource *)

Record HelmAppCondition := mkHelmCondition {
  hc_Type : string;
  hc_Status : condition_status;
  hc_LastTransitionTime : Z;
  hc_Reason : string;
  hc_Message : string
}.

Definition HelmAppChartReady : string := "ChartReady".
Definition HelmAppPreInstalled : string := "PreInstalled".
Definition HelmAppInstalled : string := "HelmAppInstalled".

Definition HelmAppStatusPhaseDetecting : string := "detecting".
Definition HelmAppStatusPhaseConfiguring : string := "configuring".
Definition HelmAppStatusPhaseInstalling : string := "installing".
Definition HelmAppStatusPhaseInstalled : string := "installed".

Definition HelmAppPreStatusNotConfigured : string := "NotConfigured".
Definition HelmAppPreStatusConfigured : string := "Configured".

Record HelmAppStore := mkHelmStore { hst_Name : string; hst_URL : string }.

Record HelmAppSpec := mkHelmSpec {
  hsp_PreStatus : string;
  hsp_TemplateName : string;
  hsp_Version : string;
  hsp_AppStore : option HelmAppStore;
  hsp_Overrides : list string
}.
#[export] Instance eta_HelmAppSpec : Eta HelmAppSpec := λ s,
  mkHelmSpec (hsp_PreStatus s) (hsp_TemplateName s) (hsp_Version s) (hsp_AppStore s) (hsp_Overrides s).

Record HelmAppStatus := mkHelmStatus {
  hs_Status : string;
  hs_Phase : string;
  hs_Conditions : list HelmAppCondition;
  hs_CurrentVersion : string;
  hs_Overrides : list string
}.
#[export] Instance eta_HelmAppStatus : Eta HelmAppStatus := λ s,
  mkHelmStatus (hs_Status s) (hs_Phase s) (hs_Conditions s) (hs_CurrentVersion s) (hs_Overrides s).

Record HelmApp := mkHelmApp {
  ha_Name : string;
  ha_Namespace : string;
  ha_ResourceVersion : string;
  ha_Spec : HelmAppSpec;
  ha_Status : HelmAppStatus
}.
#[export] Instance eta_HelmApp : Eta HelmApp := λ a,
  mkHelmApp (ha_Name a) (ha_Namespace a) (ha_ResourceVersion a) (ha_Spec a) (ha_Status a).

(** ** Conditions *)

(** [GetCondition]: the first condition of the type; the pointer is to a copy. *)
Fixpoint find_condition (t : string) (i : nat) (l : list HelmAppCondition) : option (nat * HelmAppCondition) :=
  match l with
  | [] => None
  | c :: l' => if decide (t = hc_Type c) then Some (i, c) else find_condition t (S i) l'
  end.
Definition GetCondition (t : string) (s : HelmAppStatus) : option (nat * HelmAppCondition) :=
  find_condition t 0 (hs_Conditions s).

Definition IsConditionTrue (t : string) (s : HelmAppStatus) : bool :=
  match GetCondition t s with
  | Some (_, c) => bool_decide (hc_Status c = ConditionTrue)
  | None => false
  end.

Definition SetCondition (c : HelmAppCondition) (s : HelmAppStatus) : HelmAppStatus :=
  match GetCondition (hc_Type c) s with
  | Some (pos, cp) =>
    if decide (hc_Status cp = hc_Status c ∧ hc_Reason cp = hc_Reason c ∧ hc_Message cp = hc_Message c) then s
    else s <| hs_Conditions ::= <[pos := c]> |>
  | None => s <| hs_Conditions ::= λ l, l ++ [c] |>
  end.

Section now.
(** [metav1.Now()] *)
Context (now : Z).

Definition NewHelmAppCondition (condType : string) (status : condition_status) (reason message : string) :
    HelmAppCondition := mkHelmCondition condType status now reason message.

(** [UpdateCondition]; what it returns is not used. *)
Definition UpdateCondition (condition : HelmAppCondition) (s : HelmAppStatus) : HelmAppStatus :=
  match GetCondition (hc_Type condition) s with
  | None =>
    s <| hs_Conditions ::= λ l, l ++ [mkHelmCondition (hc_Type condition) (hc_Status condition) now
                                        (hc_Reason condition) (hc_Message condition)] |>
  | Some (pos, old) =>
    let time := if decide (hc_Status condition = hc_Status old) then hc_LastTransitionTime old else now in
    s <| hs_Conditions ::= <[pos := mkHelmCondition (hc_Type condition) (hc_Status condition) time
                                      (hc_Reason condition) (hc_Message condition)]> |>
  end.

Definition UpdateConditionStatus (t : string) (status : condition_status) (s : HelmAppStatus) : HelmAppStatus :=
  match GetCondition t s with
  | Some (_, c) =>
    UpdateCondition (mkHelmCondition (hc_Type c) status (hc_LastTransitionTime c)
      (if decide (status = ConditionTrue) then ""%string else hc_Reason c)
      (if decide (status = ConditionTrue) then ""%string else hc_Message c)) s
  | None => UpdateCondition (NewHelmAppCondition t status "" "") s
  end.
End now.

(** [OverridesEqual] *)
Definition OverridesEqual (a : HelmApp) : bool :=
  let spec := hsp_Overrides (ha_Spec a) in
  let status := hs_Overrides (ha_Status a) in
  if decide (length spec = length status) then forallb (λ o, bool_decide (o ∈ spec)) status else false.

(** ** What has to be done *)

Definition defaultConditionTypes : list string := [HelmAppChartReady; HelmAppPreInstalled; HelmAppInstalled].

Definition NeedSetup (a : HelmApp) : bool :=
  bool_decide (hsp_PreStatus (ha_Spec a) = ""%string) || bool_decide (hs_Phase (ha_Status a) = ""%string) ||
  existsb (λ t, bool_decide (GetCondition t (ha_Status a) = None)) defaultConditionTypes.

Definition isDetected (a : HelmApp) : bool :=
  forallb (λ t, IsConditionTrue t (ha_Status a)) [HelmAppChartReady; HelmAppPreInstalled].

Definition NeedDetect (a : HelmApp) : bool := negb (isDetected a).

Definition NeedUpdate (a : HelmApp) : bool :=
  if decide (hsp_PreStatus (ha_Spec a) = HelmAppPreStatusConfigured)
  then negb (OverridesEqual a) || negb (bool_decide (hsp_Version (ha_Spec a) = hs_CurrentVersion (ha_Status a)))
  else false.

Definition getPhase (a : HelmApp) : string :=
  let phase := if isDetected a then HelmAppStatusPhaseConfiguring else HelmAppStatusPhaseDetecting in
  let phase := if decide (hsp_PreStatus (ha_Spec a) = HelmAppPreStatusConfigured)
               then HelmAppStatusPhaseInstalling else phase in
  match GetCondition HelmAppInstalled (ha_Status a) with
  | Some (_, c) => if decide (hc_Status c = ConditionTrue) then HelmAppStatusPhaseInstalled else phase
  | None => phase
  end.

Definition setup_defaults (now : Z) (a : HelmApp) : HelmApp :=
  let a := if decide (hsp_PreStatus (ha_Spec a) = ""%string)
           then a <| ha_Spec ::= λ s, s <| hsp_PreStatus := HelmAppPreStatusNotConfigured |> |> else a in
  let a := if decide (hs_Phase (ha_Status a) = ""%string)
           then a <| ha_Status ::= λ s, s <| hs_Phase := HelmAppStatusPhaseDetecting |> |> else a in
  a <| ha_Status ::= λ s, foldl (λ s t, match GetCondition t s with
         | None => UpdateConditionStatus now t ConditionFalse s
         | Some _ => s
         end) s defaultConditionTypes |>.

(** ** The cluster and Helm *)

(** The custom resources of the cluster. *)
Record HelmAppClient (C : Type) := {
  hcl_get : string → string → C → C * (api_error + HelmApp);
  hcl_update : string → HelmApp → C → C * (api_error + HelmApp);
  hcl_update_status : string → HelmApp → C → C * (api_error + HelmApp)
}.
Arguments hcl_get {C} _ _ _ _.
Arguments hcl_update {C} _ _ _ _.
Arguments hcl_update_status {C} _ _ _ _.

(** [driver.ErrReleaseNotFound], and [errors.Is] through what was wrapped around it. *)
Definition ErrReleaseNotFound : error := EMsg "release: not found".
Fixpoint is_release_not_found (e : error) : bool :=
  match e with
  | EWrap _ e' => is_release_not_found e'
  | _ => bool_decide (e = ErrReleaseNotFound)
  end.

(** Helm and its repositories, in one namespace. *)
Record Helm (C : Type) := {
  hm_new : string → C → C * option error;
  hm_repo_add : string → string → C → C * option error;
  hm_load : string → string → string → C → C * option error;
  hm_preinstall : string → string → string → string → C → C * option error;
  hm_status : string → string → C → C * (error + string);
  hm_install : string → string → string → string → list string → C → C * option error;
  hm_upgrade : string → string → string → string → list string → C → C * option error;
  hm_uninstall : string → string → C → C * option error
}.
Arguments hm_new {C} _ _ _.
Arguments hm_repo_add {C} _ _ _ _.
Arguments hm_load {C} _ _ _ _ _.
Arguments hm_preinstall {C} _ _ _ _ _ _.
Arguments hm_status {C} _ _ _ _.
Arguments hm_install {C} _ _ _ _ _ _ _.
Arguments hm_upgrade {C} _ _ _ _ _ _ _.
Arguments hm_uninstall {C} _ _ _ _.

(** The cluster and the copy of the resource that an [App] works on. *)
Record hworld (C : Type) := mkHworld { hw_app : HelmApp; hw_c : C }.
Arguments mkHworld {C} _ _.
Arguments hw_app {C} _.
Arguments hw_c {C} _.

(** [RetryOnConflict]: run again after a conflict, at most [steps] times; the last error is returned. *)
Fixpoint RetryOnConflict {W} (steps : nat) (fn : M W (option error)) (last : option error) : M W (option error) :=
  match steps with
  | O => mret last
  | S steps =>
    r ← fn;
    match r with
    | Some (EApi Conflict) | Some (EWrap _ (EApi Conflict)) => RetryOnConflict steps fn r
    | _ => mret r
    end
  end.

Section app.
Context {C : Type} (hc : HelmAppClient C) (hm : Helm C).
(** The steps of [retry.DefaultRetry] and [retry.DefaultBackoff]; the clock; the text of an error. *)
Context (default_retry default_backoff : nat) (now : Z) (err_text : error → string).

Abbreviation HM := (M (hworld C)).

Definition the_app : HM HelmApp := gets hw_app.
Definition set_app (f : HelmApp → HelmApp) : HM unit := modify (λ w, mkHworld (f (hw_app w)) (hw_c w)).
Definition call {A} (m : C → C * A) : HM A := λ w,
  let '(c, r) := m (hw_c w) in (mkHworld (hw_app w) c, Ok r).

(** [return err] for a possibly nil error. *)
Definition return_err (e : option error) : HM unit :=
  match e with Some e => fail e | None => mret () end.

(** ** Writing the resource *)

Definition status_attempt : HM (option error) :=
  a ← the_app;
  r ← call (hcl_get hc (ha_Namespace a) (ha_Name a));
  match r with
  | inl e => mret (Some (EWrap "get helm app before update" (EApi e)))
  | inr stored =>
    _ ← set_app (λ a, a <| ha_Status ::= λ s, s <| hs_Phase := getPhase a |> |>
                        <| ha_ResourceVersion := ha_ResourceVersion stored |>);
    a ← the_app;
    r ← call (hcl_update_status hc (ha_Namespace a) a);
    mret (match r with inl e => Some (EApi e) | inr _ => None end)
  end.

Definition UpdateStatus : HM (option error) := RetryOnConflict default_retry status_attempt None.

Definition spec_attempt : HM (option error) :=
  a ← the_app;
  r ← call (hcl_get hc (ha_Namespace a) (ha_Name a));
  match r with
  | inl e => mret (Some (EWrap "get helm app before update" (EApi e)))
  | inr stored =>
    _ ← set_app (λ a, a <| ha_ResourceVersion := ha_ResourceVersion stored |>);
    a ← the_app;
    r ← call (hcl_update hc (ha_Namespace a) a);
    mret (match r with inl e => Some (EWrap "update helm app spec" (EApi e)) | inr _ => None end)
  end.

Definition UpdateSpec : HM (option error) := RetryOnConflict default_backoff spec_attempt None.

Definition Update : HM (option error) :=
  e ← UpdateStatus;
  match e with
  | Some _ => mret e
  | None => UpdateSpec
  end.

Definition Setup : HM (option error) :=
  _ ← set_app (setup_defaults now); Update.

(** ** Checking and installing the chart *)

(** A nil app store is dereferenced. *)
Definition app_store (a : HelmApp) : HM HelmAppStore :=
  match hsp_AppStore (ha_Spec a) with Some st => mret st | None => panic end.

Definition chart (st : HelmAppStore) (a : HelmApp) : string := (hst_Name st +:+ "/" +:+ hsp_TemplateName (ha_Spec a))%string.

Definition LoadChart : HM (option error) :=
  a ← the_app; st ← app_store a;
  e ← call (hm_repo_add hm (hst_Name st) (hst_URL st));
  match e with
  | Some _ => mret e
  | None => call (hm_load hm (ha_Namespace a) (chart st a) (hsp_Version (ha_Spec a)))
  end.

Definition PreInstall : HM (option error) :=
  a ← the_app; st ← app_store a;
  e ← call (hm_repo_add hm (hst_Name st) (hst_URL st));
  match e with
  | Some _ => mret e
  | None => call (hm_preinstall hm (ha_Namespace a) (ha_Name a) (chart st a) (hsp_Version (ha_Spec a)))
  end.

Definition set_status (f : HelmAppStatus → HelmAppStatus) : HM unit := set_app (λ a, a <| ha_Status ::= f |>).

(** What one check leaves in the conditions. *)
Definition checked (t reason : string) (r : option error) : HM (option error) :=
  match r with
  | Some e =>
    _ ← set_status (UpdateCondition now (NewHelmAppCondition now t ConditionFalse reason (err_text e))); mret r
  | None => _ ← set_status (UpdateConditionStatus now t ConditionTrue); mret None
  end.

Definition Detector_Detect : HM (option error) :=
  a ← the_app;
  if negb (IsConditionTrue HelmAppChartReady (ha_Status a)) then
    st ← app_store a;
    e ← call (hm_repo_add hm (hst_Name st) (hst_URL st));
    match e with
    | Some err =>
      _ ← set_status (SetCondition (NewHelmAppCondition now HelmAppChartReady ConditionFalse "RepoFailed" (err_text err)));
      mret e
    | None => e ← LoadChart; checked HelmAppChartReady "ChartFailed" e
    end
  else if negb (IsConditionTrue HelmAppPreInstalled (ha_Status a)) then
    e ← PreInstall; checked HelmAppPreInstalled "PreInstallFailed" e
  else mret None.

Definition Detect : HM (option error) :=
  e ← Detector_Detect;
  match e with
  | Some err => mret (Some (EWrap "detect helm app" err))
  | None => UpdateStatus
  end.

Definition installOrUpdate : HM (option error) :=
  a ← the_app; st ← app_store a;
  e ← call (hm_repo_add hm (hst_Name st) (hst_URL st));
  match e with
  | Some _ => mret e
  | None =>
    r ← call (hm_status hm (ha_Namespace a) (ha_Name a));
    match r with
    | inl err =>
      if is_release_not_found err
      then call (hm_install hm (ha_Namespace a) (ha_Name a) (chart st a) (hsp_Version (ha_Spec a)) (hsp_Overrides (ha_Spec a)))
      else mret (Some err)
    | inr _ => call (hm_upgrade hm (ha_Namespace a) (ha_Name a) (chart st a) (hsp_Version (ha_Spec a)) (hsp_Overrides (ha_Spec a)))
    end
  end.

Definition installed_as_asked (a : HelmApp) : HelmApp :=
  a <| ha_Status ::= λ s, (UpdateConditionStatus now HelmAppInstalled ConditionTrue s)
         <| hs_CurrentVersion := hsp_Version (ha_Spec a) |> <| hs_Overrides := hsp_Overrides (ha_Spec a) |> |>.

Definition InstallOrUpdate : HM (option error) :=
  e ← installOrUpdate;
  match e with
  | Some err =>
    _ ← set_status (SetCondition (NewHelmAppCondition now HelmAppInstalled ConditionFalse "InstallFailed" (err_text err)));
    UpdateStatus
  | None => _ ← set_app installed_as_asked; UpdateStatus
  end.

Definition UpdateRunningStatus : HM unit :=
  a ← the_app;
  if decide (hs_Phase (ha_Status a) = HelmAppStatusPhaseInstalled) then
    r ← call (hm_status hm (ha_Namespace a) (ha_Name a));
    match r with
    | inl _ => mret ()
    | inr newStatus =>
      if decide (hs_Status (ha_Status a) = newStatus) then mret ()
      else _ ← set_status (λ s, s <| hs_Status := newStatus |>); _ ← UpdateStatus; mret ()
    end
  else mret ().

(** ** The control loop and the finalizer *)

Definition reconcile_app : HM (option error) :=
  a ← the_app;
  if NeedSetup a then Setup
  else if NeedDetect a then Detect
  else if NeedUpdate a then InstallOrUpdate
  else mret None.

(** [NewApp] and [Reconcile] on the resource the lister returned; the running status is updated at
    the end, in a deferred call. *)
Definition Reconcile (helmApp : HelmApp) (c : C) : C * result (option error) :=
  let '(c, e) := hm_new hm (ha_Namespace helmApp) c in
  match e, hsp_AppStore (ha_Spec helmApp) with
  | Some _, _ => (c, Ok e)
  | None, None => (c, Panic)
  | None, Some _ =>
    let '(w, r) := reconcile_app (mkHworld helmApp c) in
    let '(w, r') := UpdateRunningStatus w in
    (hw_c w, then_do r' (λ _, r))
  end.

(** One key of the queue; errors are logged. *)
Definition control_run (lister : string → string → api_error + HelmApp) (name ns : string) (c : C) : C * result unit :=
  match lister ns name with
  | inl _ => (c, Ok ())
  | inr helmApp => let '(c, r) := Reconcile helmApp c in (c, then_do r (λ _, Ok ()))
  end.

Definition Uninstall (a : HelmApp) (c : C) : C * option error := hm_uninstall hm (ha_Namespace a) (ha_Name a) c.

(** [Finalizer.run] *)
Definition finalize (a : HelmApp) (c : C) : C * result (option error) :=
  let '(c, e) := hm_new hm (ha_Namespace a) c in
  match e, hsp_AppStore (ha_Spec a) with
  | Some _, _ => (c, Ok e)
  | None, None => (c, Panic)
  | None, Some _ => let '(c, e) := Uninstall a c in (c, Ok e)
  end.
End app.

(** ** What the cluster documents

    Writing the status leaves the spec alone and the other way round; both
    demand the current resource version. *)
Definition same_app (x y : HelmApp) : Prop := ha_Name x = ha_Name y ∧ ha_Namespace x = ha_Namespace y.

Class HelmAppLaws {C} (hc : HelmAppClient C) (lookup : C → string → string → option HelmApp) : Prop := {
  hl_named c ns n x : lookup c ns n = Some x → ha_Name x = n ∧ ha_Namespace x = ns;
  hl_get_state c ns n : (hcl_get hc ns n c).1 = c;
  hl_get_found c ns n x : (hcl_get hc ns n c).2 = inr x → lookup c ns n = Some x;
  hl_status_ok c a c' x : hcl_update_status hc (ha_Namespace a) a c = (c', inr x) →
    ∃ old, lookup c (ha_Namespace a) (ha_Name a) = Some old ∧ lookup c' (ha_Namespace a) (ha_Name a) = Some x ∧
      ha_Spec x = ha_Spec old ∧ ha_Status x = ha_Status a;
  hl_status_conflict c a c' : hcl_update_status hc (ha_Namespace a) a c = (c', inl Conflict) → c' = c;
  hl_update_ok c a c' x : hcl_update hc (ha_Namespace a) a c = (c', inr x) →
    ∃ old, lookup c (ha_Namespace a) (ha_Name a) = Some old ∧ lookup c' (ha_Namespace a) (ha_Name a) = Some x ∧
      ha_Spec x = ha_Spec a ∧ ha_Status x = ha_Status old;
  hl_update_conflict c a c' : hcl_update hc (ha_Namespace a) a c = (c', inl Conflict) → c' = c
}.

(** A cluster nobody else writes to, and that answers. *)
Class HelmAppReliable {C} (hc : HelmAppClient C) (lookup : C → string → string → option HelmApp) : Prop := {
  hr_get c ns n x : lookup c ns n = Some x → hcl_get hc ns n c = (c, inr x);
  hr_status c a old : lookup c (ha_Namespace a) (ha_Name a) = Some old →
    ha_ResourceVersion a = ha_ResourceVersion old →
    ∃ c' x, hcl_update_status hc (ha_Namespace a) a c = (c', inr x);
  hr_update c a old : lookup c (ha_Namespace a) (ha_Name a) = Some old →
    ha_ResourceVersion a = ha_ResourceVersion old → ∃ c' x, hcl_update hc (ha_Namespace a) a c = (c', inr x)
}.

(** Helm does not write the resources, *)
Class HelmKeeps {C} (hm : Helm C) (lookup : C → string → string → option HelmApp) : Prop := {
  hk_new ns c : lookup (hm_new hm ns c).1 = lookup c;
  hk_repo_add n u c : lookup (hm_repo_add hm n u c).1 = lookup c;
  hk_load ns ch v c : lookup (hm_load hm ns ch v c).1 = lookup c;
  hk_preinstall ns n ch v c : lookup (hm_preinstall hm ns n ch v c).1 = lookup c;
  hk_status ns n c : lookup (hm_status hm ns n c).1 = lookup c;
  hk_install ns n ch v o c : lookup (hm_install hm ns n ch v o c).1 = lookup c;
  hk_upgrade ns n ch v o c : lookup (hm_upgrade hm ns n ch v o c).1 = lookup c
}.

(** and when all goes well it succeeds. *)
Class HelmWorks {C} (hm : Helm C) : Prop := {
  hw_new ns c : (hm_new hm ns c).2 = None;
  hw_repo_add n u c : (hm_repo_add hm n u c).2 = None;
  hw_load ns ch v c : (hm_load hm ns ch v c).2 = None;
  hw_preinstall ns n ch v c : (hm_preinstall hm ns n ch v c).2 = None;
  hw_status ns n c : match (hm_status hm ns n c).2 with inl e => is_release_not_found e = true | inr _ => True end;
  hw_install ns n ch v o c : (hm_install hm ns n ch v o c).2 = None;
  hw_upgrade ns n ch v o c : (hm_upgrade hm ns n ch v o c).2 = None
}.

(** A release: the chart, its version and the values it was installed with. *)
Definition release_info : Type := string * string * list string.

(** What Helm has under a name: an installation or upgrade that succeeds sets it,
    and nothing else the loop asks of Helm or the cluster changes any release. *)
Class HelmReleases {C} (hc : HelmAppClient C) (hm : Helm C) (release : C → string → string → option release_info) : Prop := {
  hrl_get ns n c : release (hcl_get hc ns n c).1 = release c;
  hrl_write ns a c : release (hcl_update hc ns a c).1 = release c;
  hrl_write_status ns a c : release (hcl_update_status hc ns a c).1 = release c;
  hrl_new ns c : release (hm_new hm ns c).1 = release c;
  hrl_repo_add n u c : release (hm_repo_add hm n u c).1 = release c;
  hrl_load ns ch v c : release (hm_load hm ns ch v c).1 = release c;
  hrl_preinstall ns n ch v c : release (hm_preinstall hm ns n ch v c).1 = release c;
  hrl_status ns n c : release (hm_status hm ns n c).1 = release c;
  hrl_install ns n ch v o c : (hm_install hm ns n ch v o c).2 = None →
    release (hm_install hm ns n ch v o c).1 ns n = Some (ch, v, o);
  hrl_upgrade ns n ch v o c : (hm_upgrade hm ns n ch v o c).2 = None →
    release (hm_upgrade hm ns n ch v o c).1 ns n = Some (ch, v, o)
}.

(** The release a resource asks for. *)
Definition asked (a : HelmApp) : option release_info :=
  (λ st, (chart st a, hsp_Version (ha_Spec a), hsp_Overrides (ha_Spec a))) <$> hsp_AppStore (ha_Spec a).

(** ** Conditions *)

(** The condition of a type. *)
Definition cond (t : string) (s : HelmAppStatus) : option HelmAppCondition := snd <$> GetCondition t s.

Lemma find_condition_at t i l j c : find_condition t i l = Some (j, c) →
  hc_Type c = t ∧ ∃ k, j = i + k ∧ l !! k = Some c.
Proof.
  revert i. induction l as [|x l IH]; intros i; simpl; [done|]. destruct (decide (t = hc_Type x)) as [->|Hn].
  - intros [= <- <-]. split; [done|]. exists 0. split; [lia|done].
  - intros H. destruct (IH _ H) as (? & k & -> & Hk). split; [done|]. exists (S k). split; [lia|done].
Qed.

Lemma find_condition_other t i l k c : (∀ x, l !! k = Some x → hc_Type x = hc_Type c) → t ≠ hc_Type c →
  find_condition t i (<[k := c]> l) = find_condition t i l.
Proof.
  revert i k. induction l as [|x l IH]; intros i [|k] Hx Ht; simpl; [done..| |].
  - specialize (Hx x eq_refl). rewrite !decide_False by congruence. done.
  - destruct (decide _); [done|]. by apply IH.
Qed.

Lemma find_condition_same i l k c x : find_condition (hc_Type c) i l = Some (i + k, x) →
  find_condition (hc_Type c) i (<[k := c]> l) = Some (i + k, c).
Proof.
  revert i k. induction l as [|y l IH]; intros i k; simpl; [done|]. destruct (decide (hc_Type c = hc_Type y)) as [E|E].
  - intros [= Hk _]. assert (k = 0) as -> by lia. simpl. rewrite decide_True by done. f_equal. f_equal. lia.
  - intros H. destruct k as [|k].
    { apply find_condition_at in H as (_ & k & Hk & _). lia. }
    simpl. rewrite decide_False by done. replace (i + S k) with (S i + k) in * by lia. by apply IH.
Qed.

Lemma find_condition_app t i l c : find_condition t i (l ++ [c]) =
  match find_condition t i l with
  | Some r => Some r
  | None => if decide (t = hc_Type c) then Some (i + length l, c) else None
  end.
Proof.
  revert i. induction l as [|x l IH]; intros i; simpl; [rewrite Nat.add_0_r; by destruct (decide _)|].
  destruct (decide (t = hc_Type x)); [done|]. rewrite IH. destruct (find_condition t (S i) l); [done|].
  destruct (decide _); [|done]. f_equal. f_equal. lia.
Qed.

(** Writing a condition at its position, or appending it. *)
Definition put_condition (c : HelmAppCondition) (s : HelmAppStatus) : HelmAppStatus :=
  match GetCondition (hc_Type c) s with
  | Some (pos, _) => s <| hs_Conditions ::= <[pos := c]> |>
  | None => s <| hs_Conditions ::= λ l, l ++ [c] |>
  end.

Lemma cond_put t c s : cond t (put_condition c s) = if decide (t = hc_Type c) then Some c else cond t s.
Proof.
  unfold cond, put_condition, GetCondition. destruct (find_condition (hc_Type c) 0 (hs_Conditions s)) as [[pos x]|] eqn:E;
    unfold set_field; simpl.
  - pose proof (find_condition_at _ _ _ _ _ E) as (Hx & k & -> & Hk). simpl in *. destruct (decide (t = hc_Type c)) as [->|Hn].
    + by rewrite (find_condition_same 0 _ _ _ x E).
    + rewrite find_condition_other; [done| |done]. intros y. simpl. rewrite Hk. by intros [= <-].
  - rewrite find_condition_app. destruct (decide (t = hc_Type c)) as [->|Hn].
    + by rewrite E.
    + by destruct (find_condition t 0 (hs_Conditions s)).
Qed.

Lemma is_true_cond t s :
  IsConditionTrue t s = match cond t s with Some c => bool_decide (hc_Status c = ConditionTrue) | None => false end.
Proof. unfold IsConditionTrue, cond. by destruct (GetCondition t s) as [[]|]. Qed.

Lemma cond_type t s c : cond t s = Some c → hc_Type c = t.
Proof.
  unfold cond, GetCondition. destruct (find_condition _ _ _) as [[]|] eqn:E; [|done]. intros [= <-].
  by apply find_condition_at in E as [? _].
Qed.

Lemma UpdateCondition_put now c s : ∃ time, UpdateCondition now c s =
  put_condition (mkHelmCondition (hc_Type c) (hc_Status c) time (hc_Reason c) (hc_Message c)) s.
Proof. unfold UpdateCondition, put_condition. simpl. destruct (GetCondition _ s) as [[]|]; by eexists. Qed.

Lemma UpdateConditionStatus_put now t st s : ∃ c, UpdateConditionStatus now t st s = put_condition c s ∧
  hc_Type c = t ∧ hc_Status c = st.
Proof.
  unfold UpdateConditionStatus. destruct (GetCondition t s) as [[i c]|] eqn:E.
  - assert (hc_Type c = t) as Ht by (apply (cond_type t s); unfold cond; by rewrite E).
    match goal with |- context [UpdateCondition now ?d s] => destruct (UpdateCondition_put now d s) as [time ->] end.
    by eexists.
  - destruct (UpdateCondition_put now (NewHelmAppCondition now t st "" "") s) as [time ->]. by eexists.
Qed.

Lemma is_true_update t now t' st s : IsConditionTrue t (UpdateConditionStatus now t' st s) =
  if decide (t = t') then bool_decide (st = ConditionTrue) else IsConditionTrue t s.
Proof.
  destruct (UpdateConditionStatus_put now t' st s) as (c & -> & <- & <-). rewrite !is_true_cond, cond_put.
  by destruct (decide (t = hc_Type c)).
Qed.

Lemma present_update t now t' st s : is_Some (cond t (UpdateConditionStatus now t' st s)) ↔ t = t' ∨ is_Some (cond t s).
Proof.
  destruct (UpdateConditionStatus_put now t' st s) as (c & -> & <- & <-). rewrite cond_put.
  destruct (decide (t = hc_Type c)); [split; [by left|by eexists]|].
  split; [by right|]. by intros [?|?].
Qed.

Lemma UpdateConditionStatus_rest now t st s :
  let s' := UpdateConditionStatus now t st s in
  hs_Status s' = hs_Status s ∧ hs_Phase s' = hs_Phase s ∧ hs_CurrentVersion s' = hs_CurrentVersion s ∧
  hs_Overrides s' = hs_Overrides s.
Proof.
  destruct (UpdateConditionStatus_put now t st s) as (c & -> & _). unfold put_condition.
  by destruct (GetCondition _ s) as [[]|].
Qed.

(** The comparison of the overrides in effect with those asked for is that
    of two sets as long as none in effect is repeated; repeated ones hide others
    that are asked for, and then no update is made. *)
Theorem overrides_compared (a : HelmApp) :
  (NoDup (hs_Overrides (ha_Status a)) →
   OverridesEqual a = true ↔ hsp_Overrides (ha_Spec a) ≡ₚ hs_Overrides (ha_Status a)) ∧
  (∀ x y, hsp_Overrides (ha_Spec a) = [x; y] → hs_Overrides (ha_Status a) = [x; x] →
   hsp_Version (ha_Spec a) = hs_CurrentVersion (ha_Status a) → NeedUpdate a = false).
Proof.
  assert (OverridesEqual a = true ↔ length (hsp_Overrides (ha_Spec a)) = length (hs_Overrides (ha_Status a)) ∧
    hs_Overrides (ha_Status a) ⊆ hsp_Overrides (ha_Spec a)) as Heq.
  { unfold OverridesEqual. destruct (decide _) as [Hl|Hl]; [|naive_solver].
    rewrite forallb_forall. setoid_rewrite <- list_elem_of_In. setoid_rewrite bool_decide_eq_true. naive_solver. }
  split.
  - intros Hnd. rewrite Heq. split.
    + intros [Hl Hs]. symmetry. apply submseteq_length_Permutation; [by apply NoDup_submseteq|lia].
    + intros Hp. split; [by rewrite Hp|]. intros x. by rewrite Hp.
  - intros x y Hs Hst Hv. unfold NeedUpdate. destruct (decide _); [|done]. rewrite Hv, bool_decide_eq_true_2 by done.
    assert (OverridesEqual a = true) as -> by (apply Heq; rewrite Hs, Hst; split; [done|set_solver]). done.
Qed.

(** ** Writing the status *)

(** What a write puts into the copy. *)
Definition stamp (a : HelmApp) (rv : string) : HelmApp :=
  a <| ha_Status ::= λ s, s <| hs_Phase := getPhase a |> |> <| ha_ResourceVersion := rv |>.

Lemma getPhase_stamp a rv : getPhase (stamp a rv) = getPhase a.
Proof. done. Qed.
Lemma stamp_stamp a rv rv' : stamp (stamp a rv) rv' = stamp a rv'.
Proof. unfold stamp. rewrite <- (getPhase_stamp a rv). done. Qed.

(** Programs that change no release. *)
Section frames.
Context {C : Type} (hc : HelmAppClient C) (hm : Helm C) (release : C → string → string → option release_info).
Context `{HRL : !HelmReleases hc hm release}.
Context (default_retry default_backoff : nat) (now : Z) (err_text : error → string).

Definition frames {A} (m : M (hworld C) A) : Prop := ∀ w, release (hw_c (m w).1) = release (hw_c w).

Lemma frames_bind {A B} (m : M (hworld C) A) (f : A → M (hworld C) B) : frames m → (∀ a, frames (f a)) → frames (m ≫= f).
Proof.
  intros Hm Hf w. unfold mbind, M_bind. specialize (Hm w). destruct (m w) as [w1 [a|e|]]; simpl in *; [|done..].
  rewrite <- Hm. apply Hf.
Qed.

Lemma frames_call {A} (m : C → C * A) : (∀ c, release (m c).1 = release c) → frames (call m).
Proof. intros Hm w. unfold call. specialize (Hm (hw_c w)). by destruct (m (hw_c w)). Qed.

Lemma frames_retry n (m : M (hworld C) (option error)) last : frames m → frames (RetryOnConflict n m last).
Proof.
  intros Hm. revert last. induction n as [|n IH]; intros last; [done|]. cbn [RetryOnConflict]. apply frames_bind; [done|].
  intros r. repeat case_match; first [apply IH|done].
Qed.

Lemma frames_UpdateStatus : frames (UpdateStatus hc default_retry).
Proof.
  apply frames_retry, frames_bind; [done|]. intros a. apply frames_bind; [apply frames_call; intros; apply hrl_get|].
  intros [e|st]; [done|]. apply frames_bind; [done|]. intros _. apply frames_bind; [done|]. intros a'.
  apply frames_bind; [apply frames_call; intros; apply hrl_write_status|]. by intros [].
Qed.

Lemma frames_UpdateSpec : frames (UpdateSpec hc default_backoff).
Proof.
  apply frames_retry, frames_bind; [done|]. intros a. apply frames_bind; [apply frames_call; intros; apply hrl_get|].
  intros [e|st]; [done|]. apply frames_bind; [done|]. intros _. apply frames_bind; [done|]. intros a'.
  apply frames_bind; [apply frames_call; intros; apply hrl_write|]. by intros [].
Qed.

Lemma frames_Setup : frames (Setup hc default_retry default_backoff now).
Proof.
  apply frames_bind; [done|]. intros _. apply frames_bind; [apply frames_UpdateStatus|].
  intros [e|]; [done|]. apply frames_UpdateSpec.
Qed.

Lemma frames_store a : frames (app_store a).
Proof. intros w. unfold app_store. by destruct (hsp_AppStore (ha_Spec a)). Qed.

Lemma frames_chart (f : HelmAppStore → HelmApp → C → C * option error) : (∀ st a c, release (f st a c).1 = release c) →
  frames (a ← the_app; st ← app_store a; e ← call (hm_repo_add hm (hst_Name st) (hst_URL st));
    match e with Some _ => mret e | None => call (f st a) end).
Proof.
  intros Hf. apply frames_bind; [done|]. intros a. apply frames_bind; [apply frames_store|]. intros st.
  apply frames_bind; [apply frames_call, hrl_repo_add|]. intros [e|]; [done|]. by apply frames_call.
Qed.

Lemma frames_checked t reason r : frames (checked now err_text t reason r).
Proof. by destruct r as [e|]; (apply frames_bind; [done|]). Qed.

Lemma frames_Detect : frames (Detect hc hm default_retry now err_text).
Proof.
  apply frames_bind; [|intros [e|]; [done|apply frames_UpdateStatus]].
  apply frames_bind; [done|]. intros a. destruct (negb _).
  - apply frames_bind; [apply frames_store|]. intros st. apply frames_bind; [apply frames_call, hrl_repo_add|].
    intros [e|]; [by apply frames_bind|]. apply frames_bind; [|intros; apply frames_checked].
    apply frames_chart. intros. apply hrl_load.
  - destruct (negb _); [|done]. apply frames_bind; [|intros; apply frames_checked].
    apply frames_chart. intros. apply hrl_preinstall.
Qed.

Lemma frames_UpdateRunningStatus : frames (UpdateRunningStatus hc hm default_retry).
Proof.
  apply frames_bind; [done|]. intros a. case_decide; [|done]. apply frames_bind; [apply frames_call, hrl_status|].
  intros [e|st]; [done|]. case_decide; [done|]. apply frames_bind; [done|]. intros _.
  apply frames_bind; [apply frames_UpdateStatus|done].
Qed.
End frames.

Section with_cluster.
Context {C : Type} (hc : HelmAppClient C) (hm : Helm C) (lookup : C → string → string → option HelmApp).
Context `{HL : !HelmAppLaws hc lookup}.
Context (default_retry default_backoff : nat) (now : Z) (err_text : error → string).

(** The stored resource an [App] works on. *)
Abbreviation stored a c := (lookup c (ha_Namespace a) (ha_Name a)).

Lemma get_found c ns n c' x : hcl_get hc ns n c = (c', inr x) → c' = c ∧ lookup c ns n = Some x.
Proof.
  intros E. split; [by rewrite <- (hl_get_state c ns n), E|]. apply hl_get_found. by rewrite E.
Qed.

Lemma status_attempt_inv a c w r : status_attempt hc (mkHworld a c) = (w, Ok r) →
  (∃ e, r = Some (EWrap "get helm app before update" e) ∧ w = mkHworld a c) ∨
  ∃ old res, stored a c = Some old ∧ hw_app w = stamp a (ha_ResourceVersion old) ∧
    hcl_update_status hc (ha_Namespace a) (stamp a (ha_ResourceVersion old)) c = (hw_c w, res) ∧
    r = match res with inl e => Some (EApi e) | inr _ => None end.
Proof.
  unfold status_attempt, the_app, call, set_app, gets, modify, mbind, M_bind, mret, M_ret. cbn.
  destruct (hcl_get hc _ _ c) as [c1 [e|old]] eqn:E.
  - intros [= <- <-]. left. exists (EApi e). split; [done|]. f_equal. by rewrite <- (hl_get_state c (ha_Namespace a) (ha_Name a)), E.
  - apply get_found in E as [-> E]. cbn. fold (stamp a (ha_ResourceVersion old)).
    change (ha_Namespace _) with (ha_Namespace a).
    destruct (hcl_update_status hc _ _ c) as [c2 res] eqn:E2. intros [= <- <-]. right. exists old, res. done.
Qed.

(** A successful write of the status, after any number of conflicts. *)
Lemma UpdateStatus_inv a c w : UpdateStatus hc (S default_retry) (mkHworld a c) = (w, Ok None) →
  ∃ old x rv, stored a c = Some old ∧ stored a (hw_c w) = Some x ∧ hw_app w = stamp a rv ∧
    ha_Spec x = ha_Spec old ∧ ha_Status x = ha_Status (stamp a rv).
Proof.
  unfold UpdateStatus. intros E.
  assert (∀ n a0 last, (last ≠ None ∨ n ≠ 0) → (a0 = a ∨ ∃ rv, a0 = stamp a rv) →
    RetryOnConflict n (status_attempt hc) last (mkHworld a0 c) = (w, Ok None) →
    ∃ old x rv, stored a c = Some old ∧ stored a (hw_c w) = Some x ∧ hw_app w = stamp a rv ∧
      ha_Spec x = ha_Spec old ∧ ha_Status x = ha_Status (stamp a rv)) as H.
  { clear E. intros n. induction n as [|n IH]; intros a0 last Hn Ha.
    { destruct Hn as [Hn|]; [|done]. by intros [= _ ->]. }
    cbn [RetryOnConflict]. intros E. apply bind_ok_inv in E as (w1 & r & E1 & E).
    assert (ha_Namespace a0 = ha_Namespace a ∧ ha_Name a0 = ha_Name a ∧ ∀ rv, stamp a0 rv = stamp a rv) as (Hns & Hnm & Hst).
    { destruct Ha as [->|[rv ->]]; [done|]. split; [done|]. split; [done|]. intros. apply stamp_stamp. }
    apply status_attempt_inv in E1 as [(e & -> & ->)|(old & res & Hold & Hw & E1 & ->)].
    - destruct e as [[]| | | | | | |]; try (by injection E).
      by refine (IH a0 _ (or_introl _) Ha E).
    - rewrite Hns, Hnm in Hold. rewrite Hns, Hst in E1. rewrite Hst in Hw. destruct res as [e|x].
      + destruct e; try (by injection E). pose proof (hl_status_conflict _ (stamp a (ha_ResourceVersion old)) _ E1) as Hc.
        destruct w1 as [a1 c1]. simpl in *. subst a1 c1.
        by refine (IH (stamp a (ha_ResourceVersion old)) _ (or_introl _) (or_intror (ex_intro _ _ eq_refl)) E).
      + injection E as <-. destruct (hl_status_ok _ (stamp a (ha_ResourceVersion old)) _ _ E1) as (old' & Ho & Hx & Hs & Hst').
        exists old, x, (ha_ResourceVersion old). simpl in *. rewrite Hold in Ho. injection Ho as <-. done. }
  apply (H (S default_retry) a None); [by right|by left|done].
Qed.

(** ** When everything answers *)

Context `{HR : !HelmAppReliable hc lookup, HK : !HelmKeeps hm lookup, HW : !HelmWorks hm}.
Context (release : C → string → string → option release_info) `{HRL : !HelmReleases hc hm release}.

(** The copy is [a] as written, and the stored resource is the copy. *)
Definition wrote (x a : HelmApp) (w : hworld C) : Prop :=
  ∃ rv y, hw_app w = stamp a rv ∧ stored x (hw_c w) = Some y ∧
    ha_Spec y = ha_Spec a ∧ ha_Status y = ha_Status (stamp a rv).

Lemma UpdateStatus_run a c old : stored a c = Some old →
  ∃ w x rv, UpdateStatus hc (S default_retry) (mkHworld a c) = (w, Ok None) ∧ hw_app w = stamp a rv ∧
    stored a (hw_c w) = Some x ∧ ha_Spec x = ha_Spec old ∧ ha_Status x = ha_Status (stamp a rv).
Proof.
  intros Hold. assert (∃ w, UpdateStatus hc (S default_retry) (mkHworld a c) = (w, Ok None)) as [w E].
  { unfold UpdateStatus. cbn [RetryOnConflict].
    assert (∃ w, status_attempt hc (mkHworld a c) = (w, Ok None)) as [w E].
    { unfold status_attempt, the_app, call, set_app, gets, modify, mbind, M_bind, mret, M_ret. cbn.
      rewrite (hr_get _ _ _ _ Hold). cbn. fold (stamp a (ha_ResourceVersion old)).
      destruct (hr_status c (stamp a (ha_ResourceVersion old)) old Hold eq_refl) as (c' & x & E).
      change (ha_Namespace _) with (ha_Namespace (stamp a (ha_ResourceVersion old))). rewrite E. by eexists. }
    exists w. by rewrite (bind_ok _ _ _ _ _ E). }
  destruct (UpdateStatus_inv a c w E) as (old' & x & rv & Ho & Hx & Hw & Hs & Hst). rewrite Hold in Ho.
  injection Ho as <-. by exists w, x, rv.
Qed.

Lemma UpdateSpec_run a c old : stored a c = Some old →
  ∃ w x rv, UpdateSpec hc (S default_backoff) (mkHworld a c) = (w, Ok None) ∧
    hw_app w = a <| ha_ResourceVersion := rv |> ∧
    stored a (hw_c w) = Some x ∧ ha_Spec x = ha_Spec a ∧ ha_Status x = ha_Status old.
Proof.
  intros Hold. unfold UpdateSpec. cbn [RetryOnConflict]. set (a' := a <| ha_ResourceVersion := ha_ResourceVersion old |>).
  destruct (hr_update c a' old Hold eq_refl) as (c' & x & E).
  assert (spec_attempt hc (mkHworld a c) = (mkHworld a' c', Ok None)) as E'.
  { unfold spec_attempt, the_app, call, set_app, gets, modify, mbind, M_bind, mret, M_ret. cbn.
    rewrite (hr_get _ _ _ _ Hold). cbn. fold a'. change (ha_Namespace a) with (ha_Namespace a'). by rewrite E. }
  destruct (hl_update_ok c a' c' x E) as (old' & Ho & Hx & Hs & Hst). simpl in *. rewrite Hold in Ho. injection Ho as <-.
  exists (mkHworld a' c'), x, (ha_ResourceVersion old). by rewrite (bind_ok _ _ _ _ _ E').
Qed.

(** A write of the status of a copy with the stored spec. *)
Lemma UpdateStatus_wrote x a c old : ha_Name a = ha_Name x → ha_Namespace a = ha_Namespace x →
  stored x c = Some old → ha_Spec a = ha_Spec old →
  ∃ w, UpdateStatus hc (S default_retry) (mkHworld a c) = (w, Ok None) ∧ wrote x a w.
Proof.
  intros Hn Hns Hold Hs. rewrite <- Hn, <- Hns in Hold.
  destruct (UpdateStatus_run a c old Hold) as (w & y & rv & E & Hw & Hy & Hsy & Hst).
  exists w. split; [done|]. exists rv, y. rewrite <- Hn, <- Hns. rewrite Hsy. done.
Qed.

(** A call to Helm that succeeds and keeps the resources. *)
Definition silent {A} (m : C → C * A) (ok : A → Prop) : Prop := ∀ c, lookup (m c).1 = lookup c ∧ ok (m c).2.

Lemma call_silent {A} (m : C → C * A) ok a c : silent m ok →
  ∃ c' r, call m (mkHworld a c) = (mkHworld a c', Ok r) ∧ lookup c' = lookup c ∧ ok r.
Proof.
  intros H. destruct (H c) as [Hl Hr]. unfold call. simpl. destruct (m c) as [c' r]. by exists c', r.
Qed.

Lemma silent_repo_add n u : silent (hm_repo_add hm n u) (λ r, r = None).
Proof. intros c. by rewrite hk_repo_add, hw_repo_add. Qed.
Lemma silent_load ns ch v : silent (hm_load hm ns ch v) (λ r, r = None).
Proof. intros c. by rewrite hk_load, hw_load. Qed.
Lemma silent_preinstall ns n ch v : silent (hm_preinstall hm ns n ch v) (λ r, r = None).
Proof. intros c. by rewrite hk_preinstall, hw_preinstall. Qed.
Lemma silent_status ns n : silent (hm_status hm ns n)
  (λ r, match r with inl e => is_release_not_found e = true | inr _ => True end).
Proof. intros c. rewrite hk_status. split; [done|]. apply hw_status. Qed.
(** Runs the next call of a program. *)
Ltac run_call H :=
  let c := fresh "c" in let r := fresh "r" in let E := fresh "E" in let Hl := fresh "Hl" in let Hr := fresh "Hr" in
  match goal with |- context [mbind _ (call ?m) (mkHworld ?a ?c0)] =>
    destruct (call_silent m _ a c0 H) as (c & r & E & Hl & Hr); rewrite (bind_ok _ _ _ _ _ E); cbn beta
  end.
Ltac last_call H :=
  let c := fresh "c" in let r := fresh "r" in let E := fresh "E" in let Hl := fresh "Hl" in let Hr := fresh "Hr" in
  match goal with |- context [call ?m (mkHworld ?a ?c0)] =>
    destruct (call_silent m _ a c0 H) as (c & r & E & Hl & Hr); rewrite E
  end.

Lemma LoadChart_run a c st : hsp_AppStore (ha_Spec a) = Some st →
  ∃ c', LoadChart hm (mkHworld a c) = (mkHworld a c', Ok None) ∧ lookup c' = lookup c.
Proof.
  intros Hst. unfold LoadChart, the_app, app_store.
  rewrite (bind_ok _ _ _ (mkHworld a c) a) by done. rewrite Hst. rewrite (bind_ok _ _ _ (mkHworld a c) st) by done.
  run_call (silent_repo_add (hst_Name st) (hst_URL st)). subst r.
  last_call (silent_load (ha_Namespace a) (chart st a) (hsp_Version (ha_Spec a))). subst r.
  eexists. split; [done|]. congruence.
Qed.

Lemma PreInstall_run a c st : hsp_AppStore (ha_Spec a) = Some st →
  ∃ c', PreInstall hm (mkHworld a c) = (mkHworld a c', Ok None) ∧ lookup c' = lookup c.
Proof.
  intros Hst. unfold PreInstall, the_app, app_store.
  rewrite (bind_ok _ _ _ (mkHworld a c) a) by done. rewrite Hst. rewrite (bind_ok _ _ _ (mkHworld a c) st) by done.
  run_call (silent_repo_add (hst_Name st) (hst_URL st)). subst r.
  last_call (silent_preinstall (ha_Namespace a) (ha_Name a) (chart st a) (hsp_Version (ha_Spec a))). subst r.
  eexists. split; [done|]. congruence.
Qed.

Lemma installOrUpdate_run a c st : hsp_AppStore (ha_Spec a) = Some st →
  ∃ c', installOrUpdate hm (mkHworld a c) = (mkHworld a c', Ok None) ∧ lookup c' = lookup c ∧
    release c' (ha_Namespace a) (ha_Name a) = asked a.
Proof.
  intros Hst. unfold installOrUpdate, the_app, app_store, asked.
  rewrite (bind_ok _ _ _ (mkHworld a c) a) by done. rewrite Hst. rewrite (bind_ok _ _ _ (mkHworld a c) st) by done.
  run_call (silent_repo_add (hst_Name st) (hst_URL st)). subst r.
  run_call (silent_status (ha_Namespace a) (ha_Name a)). cbn [fmap option_fmap option_map].
  set (ch := chart st a). set (v := hsp_Version (ha_Spec a)). set (o := hsp_Overrides (ha_Spec a)).
  destruct r as [e|rel]; [rewrite Hr|]; unfold call; cbn [hw_c hw_app].
  - pose proof (hw_install (ha_Namespace a) (ha_Name a) ch v o c1) as H1.
    pose proof (hk_install (ha_Namespace a) (ha_Name a) ch v o c1) as H2.
    pose proof (hrl_install (ha_Namespace a) (ha_Name a) ch v o c1 H1) as H3.
    destruct (hm_install hm _ _ ch v o c1) as [c2 e2]. simpl in *. subst e2. exists c2. split; [done|]. split; [congruence|done].
  - pose proof (hw_upgrade (ha_Namespace a) (ha_Name a) ch v o c1) as H1.
    pose proof (hk_upgrade (ha_Namespace a) (ha_Name a) ch v o c1) as H2.
    pose proof (hrl_upgrade (ha_Namespace a) (ha_Name a) ch v o c1 H1) as H3.
    destruct (hm_upgrade hm _ _ ch v o c1) as [c2 e2]. simpl in *. subst e2. exists c2. split; [done|]. split; [congruence|done].
Qed.

(** *** What one round is to do *)

Definition detected (x : HelmApp) : HelmApp :=
  x <| ha_Status ::= UpdateConditionStatus now
    (if IsConditionTrue HelmAppChartReady (ha_Status x) then HelmAppPreInstalled else HelmAppChartReady) ConditionTrue |>.

(** The next stage of a resource; none when there is nothing to do. *)
Definition next_stage (x : HelmApp) : option HelmApp :=
  if NeedSetup x then Some (setup_defaults now x)
  else if NeedDetect x then Some (detected x)
  else if NeedUpdate x then Some (installed_as_asked now x)
  else None.

Definition phased (a : HelmApp) : HelmApp := a <| ha_Status ::= λ s, s <| hs_Phase := getPhase a |> |>.

(** Equal but for the resource version and for what Helm says about the release. *)
Definition agrees (x a : HelmApp) : Prop :=
  ha_Spec x = ha_Spec a ∧ (ha_Status x) <| hs_Status := ""%string |> = (ha_Status a) <| hs_Status := ""%string |>.

Lemma Update_run x a c : ha_Name a = ha_Name x → ha_Namespace a = ha_Namespace x → is_Some (stored x c) →
  ∃ w, Update hc (S default_retry) (S default_backoff) (mkHworld a c) = (w, Ok None) ∧ wrote x a w.
Proof.
  intros Hn Hns [old Hold]. rewrite <- Hn, <- Hns in Hold. unfold Update.
  destruct (UpdateStatus_run a c old Hold) as (w & y & rv & E & Hw & Hy & Hsy & Hst).
  rewrite (bind_ok _ _ _ _ _ E). destruct w as [a1 c1]. simpl in Hw, Hy. subst a1.
  destruct (UpdateSpec_run (stamp a rv) c1 y Hy) as (w2 & z & rv2 & E2 & Hw2 & Hz & Hsz & Hstz).
  exists w2. split; [done|]. exists rv2, z. rewrite <- Hn, <- Hns, Hw2, Hstz, Hst. done.
Qed.

Lemma checked_none t reason a (c : C) : checked now err_text t reason None (mkHworld a c) =
  (mkHworld (a <| ha_Status ::= UpdateConditionStatus now t ConditionTrue |>) c, Ok None).
Proof. done. Qed.

Lemma Detect_run x c st : hsp_AppStore (ha_Spec x) = Some st → NeedDetect x = true → stored x c = Some x →
  ∃ w, Detect hc hm (S default_retry) now err_text (mkHworld x c) = (w, Ok None) ∧ wrote x (detected x) w.
Proof.
  intros Hst Hd Hx.
  assert (∃ c', Detector_Detect hm now err_text (mkHworld x c) = (mkHworld (detected x) c', Ok None) ∧
    lookup c' = lookup c) as (c' & E & Hl).
  { unfold Detector_Detect, the_app. rewrite (bind_ok _ _ _ (mkHworld x c) x) by done. unfold detected.
    unfold NeedDetect, isDetected in Hd. cbn in Hd.
    destruct (IsConditionTrue HelmAppChartReady (ha_Status x)); cbn in Hd |- *.
    - rewrite andb_true_r in Hd. rewrite Hd. destruct (PreInstall_run x c st Hst) as (c1 & E1 & Hl1).
      rewrite (bind_ok _ _ _ _ _ E1), checked_none. by eexists.
    - unfold app_store. rewrite Hst. rewrite (bind_ok _ _ _ (mkHworld x c) st) by done.
      run_call (silent_repo_add (hst_Name st) (hst_URL st)). subst r.
      destruct (LoadChart_run x c0 st Hst) as (c1 & E1 & Hl1). rewrite (bind_ok _ _ _ _ _ E1), checked_none.
      eexists. split; [done|]. congruence. }
  unfold Detect. rewrite (bind_ok _ _ _ _ _ E). rewrite <- Hl in Hx. by apply (UpdateStatus_wrote x (detected x) c' x).
Qed.

Lemma InstallOrUpdate_run x c st : hsp_AppStore (ha_Spec x) = Some st → stored x c = Some x →
  ∃ w, InstallOrUpdate hc hm (S default_retry) now err_text (mkHworld x c) = (w, Ok None) ∧
    wrote x (installed_as_asked now x) w ∧ release (hw_c w) (ha_Namespace x) (ha_Name x) = asked x.
Proof.
  intros Hst Hx. destruct (installOrUpdate_run x c st Hst) as (c' & E & Hl & Hrel). unfold InstallOrUpdate.
  rewrite (bind_ok _ _ _ _ _ E). rewrite <- Hl in Hx.
  destruct (UpdateStatus_wrote x (installed_as_asked now x) c' x) as (w & E2 & Hw); [done..|].
  exists w. split; [erewrite bind_ok; [exact E2|]; done|]. split; [done|].
  pose proof (frames_UpdateStatus hc hm release (S default_retry) (mkHworld (installed_as_asked now x) c')) as Hf.
  rewrite E2 in Hf. cbn [fst hw_c] in Hf. by rewrite Hf.
Qed.

(** Whether a round asks Helm for the installation. *)
Definition installs (x : HelmApp) : bool := negb (NeedSetup x) && negb (NeedDetect x) && NeedUpdate x.

(** The release after a round. *)
Definition next_release (x : HelmApp) (c : C) : option release_info :=
  if installs x then asked x else release c (ha_Namespace x) (ha_Name x).

Lemma reconcile_app_run x c st : hsp_AppStore (ha_Spec x) = Some st → stored x c = Some x →
  ∃ w, reconcile_app hc hm (S default_retry) (S default_backoff) now err_text (mkHworld x c) = (w, Ok None) ∧
    match next_stage x with Some a => wrote x a w | None => w = mkHworld x c end ∧
    release (hw_c w) (ha_Namespace x) (ha_Name x) = next_release x c.
Proof.
  intros Hst Hx. unfold reconcile_app, the_app. rewrite (bind_ok _ _ _ (mkHworld x c) x) by done. unfold next_stage, next_release, installs.
  destruct (NeedSetup x) eqn:Hse.
  - assert (∃ w, Setup hc (S default_retry) (S default_backoff) now (mkHworld x c) = (w, Ok None) ∧
      wrote x (setup_defaults now x) w) as (w & E & Hw).
    { unfold Setup. erewrite bind_ok; [|done]. simpl. apply (Update_run x); [| |by rewrite Hx];
        unfold setup_defaults; by split_decide. }
    exists w. split; [done|]. split; [done|].
    pose proof (frames_Setup hc hm release (S default_retry) (S default_backoff) now (mkHworld x c)) as Hf.
    rewrite E in Hf. cbn [fst hw_c] in Hf. by rewrite Hf.
  - destruct (NeedDetect x) eqn:Hd; cbn [negb andb].
    + destruct (Detect_run x c st Hst Hd Hx) as (w & E & Hw). exists w. split; [done|]. split; [done|].
      pose proof (frames_Detect hc hm release (S default_retry) now err_text (mkHworld x c)) as Hf.
      rewrite E in Hf. cbn [fst hw_c] in Hf. by rewrite Hf.
    + destruct (NeedUpdate x); [|by eexists].
      destruct (InstallOrUpdate_run x c st Hst Hx) as (w & E & Hw & Hrel). by exists w.
Qed.

Lemma UpdateRunningStatus_run a c y : stored a c = Some y → ha_Spec y = ha_Spec a → ha_Status y = ha_Status a →
  ∃ w z, UpdateRunningStatus hc hm (S default_retry) (mkHworld a c) = (w, Ok ()) ∧
    stored a (hw_c w) = Some z ∧ (agrees z a ∨ agrees z (phased a)).
Proof.
  intros Hy Hs Hst. assert (agrees y a) as Hya by (by split; [|rewrite Hst]).
  unfold UpdateRunningStatus, the_app. rewrite (bind_ok _ _ _ (mkHworld a c) a) by done.
  destruct (decide _); [|exists (mkHworld a c), y; split_and!; [done|done|by left]].
  run_call (silent_status (ha_Namespace a) (ha_Name a)). rewrite <- Hl in Hy.
  destruct r as [e1|st]; [exists (mkHworld a c0), y; split_and!; [done|done|by left]|].
  destruct (decide _); [exists (mkHworld a c0), y; split_and!; [done|done|by left]|].
  set (a' := a <| ha_Status ::= λ s, s <| hs_Status := st |> |>).
  destruct (UpdateStatus_run a' c0 y Hy) as (w & z & rv & E2 & Hw & Hz & Hsz & Hstz).
  exists w, z. split.
  { erewrite bind_ok; [|done]. simpl. fold a'. by rewrite (bind_ok _ _ _ _ _ E2). }
  split; [done|]. right. split; [by rewrite Hsz|]. by rewrite Hstz.
Qed.

(** One round moves the stored resource to its next stage. *)
Lemma Reconcile_stage x c ns n : lookup c ns n = Some x → hsp_AppStore (ha_Spec x) ≠ None →
  ∃ c' x', Reconcile hc hm (S default_retry) (S default_backoff) now err_text x c = (c', Ok None) ∧
    lookup c' ns n = Some x' ∧
    match next_stage x with
    | Some a => agrees x' (phased a)
    | None => agrees x' x ∨ agrees x' (phased x)
    end ∧ release c' ns n = next_release x c.
Proof.
  intros Hx Hst. destruct (hl_named c ns n x Hx) as [Hn Hns]. subst n ns.
  destruct (hsp_AppStore (ha_Spec x)) as [st|] eqn:Est; [|done]. unfold Reconcile.
  pose proof (hk_new (ha_Namespace x) c) as Hl. pose proof (hw_new (ha_Namespace x) c) as Hr.
  assert (∀ c', release c' = release c → next_release x c' = next_release x c) as Hnr.
  { intros c' Hc. unfold next_release. by rewrite Hc. }
  specialize (Hnr _ (hrl_new (ha_Namespace x) c)).
  destruct (hm_new hm (ha_Namespace x) c) as [c0 e]. simpl in Hl, Hr, Hnr. subst e. rewrite Est. rewrite <- Hl in Hx.
  destruct (reconcile_app_run x c0 st Est Hx) as (w & E & Hw & Hrel). rewrite E.
  pose proof (frames_UpdateRunningStatus hc hm release (S default_retry) w) as Hf. rewrite Hnr in Hrel.
  destruct (next_stage x) as [a|] eqn:Ea.
  - destruct Hw as (rv & y & Hwa & Hy & Hsy & Hsty). destruct w as [a1 c1]. simpl in *. subst a1.
    assert (ha_Namespace a = ha_Namespace x ∧ ha_Name a = ha_Name x) as [Hns Hn].
    { revert Ea. unfold next_stage. repeat case_match; try done; intros [= <-]; try done.
      unfold setup_defaults. by split_decide. }
    destruct (UpdateRunningStatus_run (stamp a rv) c1 y) as (w2 & z & E2 & Hz & Hag); [by rewrite <- Hn, <- Hns in Hy|done..|].
    rewrite E2 in Hf |- *. exists (hw_c w2), z. split; [done|]. cbn [fst] in Hf. rewrite Hf. split; [by rewrite <- Hns, <- Hn|].
    split; [|done]. destruct Hag as [Hag|Hag]; exact Hag.
  - subst w. destruct (UpdateRunningStatus_run x c0 x) as (w2 & z & E2 & Hz & Hag); [done..|].
    rewrite E2 in Hf |- *. exists (hw_c w2), z. cbn [fst] in Hf. by rewrite Hf.
Qed.

(** *** The stages come to an end *)

Lemma agrees_same x a : agrees x a →
  ha_Spec x = ha_Spec a ∧ hs_Phase (ha_Status x) = hs_Phase (ha_Status a) ∧
  hs_Conditions (ha_Status x) = hs_Conditions (ha_Status a) ∧
  hs_CurrentVersion (ha_Status x) = hs_CurrentVersion (ha_Status a) ∧
  hs_Overrides (ha_Status x) = hs_Overrides (ha_Status a).
Proof. intros [Hs Hst]. by injection Hst. Qed.

Definition setup_done (x : HelmApp) : Prop :=
  hsp_PreStatus (ha_Spec x) ≠ ""%string ∧ hs_Phase (ha_Status x) ≠ ""%string ∧
  Forall (λ t, is_Some (cond t (ha_Status x))) defaultConditionTypes.

Lemma NeedSetup_false x : NeedSetup x = false ↔ setup_done x.
Proof.
  unfold NeedSetup, setup_done. rewrite !orb_false_iff, !bool_decide_eq_false.
  assert (existsb (λ t, bool_decide (GetCondition t (ha_Status x) = None)) defaultConditionTypes = false ↔
    Forall (λ t, is_Some (cond t (ha_Status x))) defaultConditionTypes) as ->; [|tauto].
  rewrite <- not_true_iff_false, existsb_exists, Forall_forall. setoid_rewrite <- list_elem_of_In.
  setoid_rewrite bool_decide_eq_true. unfold cond. split.
  - intros H t Ht. destruct (GetCondition t (ha_Status x)) as [[]|] eqn:E; [by eexists|]. destruct H. by exists t.
  - intros H (t & Ht & E). specialize (H t Ht). rewrite E in H. by destruct H.
Qed.

(** What decides on the stage of a resource. *)
Definition same_stage (x a : HelmApp) : Prop :=
  NeedSetup x = NeedSetup a ∧ isDetected x = isDetected a ∧ NeedUpdate x = NeedUpdate a ∧ getPhase x = getPhase a ∧
  ∀ t, IsConditionTrue t (ha_Status x) = IsConditionTrue t (ha_Status a).

Lemma agrees_stage x a : agrees x a → same_stage x a.
Proof.
  intros (Hs & Hp & Hc & Hv & Ho)%agrees_same.
  unfold same_stage, NeedSetup, isDetected, NeedUpdate, OverridesEqual, getPhase, isDetected, IsConditionTrue, GetCondition.
  rewrite Hs, Hp, Hc, Hv, Ho. done.
Qed.

Definition stage_rank (x : HelmApp) : nat :=
  if NeedSetup x then 4 else if negb (IsConditionTrue HelmAppChartReady (ha_Status x)) then 3
  else if negb (IsConditionTrue HelmAppPreInstalled (ha_Status x)) then 2 else if NeedUpdate x then 1 else 0.

(** Installed as asked, and nothing left to do. *)
Definition settled (x : HelmApp) : Prop :=
  hs_Phase (ha_Status x) = HelmAppStatusPhaseInstalled ∧ getPhase x = HelmAppStatusPhaseInstalled ∧
  hs_CurrentVersion (ha_Status x) = hsp_Version (ha_Spec x) ∧
  hs_Overrides (ha_Status x) = hsp_Overrides (ha_Spec x) ∧
  IsConditionTrue HelmAppInstalled (ha_Status x) = true ∧ next_stage x = None.

(** Configured, and not yet at the version asked for, or settled. *)
Definition on_the_way (x : HelmApp) : Prop :=
  hsp_PreStatus (ha_Spec x) = HelmAppPreStatusConfigured ∧
  (settled x ∨ hs_CurrentVersion (ha_Status x) ≠ hsp_Version (ha_Spec x)).

(** Helm has the release a settled resource asks for. *)
Definition delivered (x : HelmApp) (c : C) (ns n : string) : Prop := settled x → release c ns n = asked x.

Lemma getPhase_nonempty x : getPhase x ≠ ""%string.
Proof. unfold getPhase. repeat case_match; done. Qed.

Lemma setup_defaults_done x : hsp_PreStatus (ha_Spec x) = HelmAppPreStatusConfigured →
  ha_Spec (setup_defaults now x) = ha_Spec x ∧ setup_done (phased (setup_defaults now x)) ∧
  hs_CurrentVersion (ha_Status (setup_defaults now x)) = hs_CurrentVersion (ha_Status x).
Proof.
  intros Hp. set (fill := λ s t, match GetCondition t s with
    | None => UpdateConditionStatus now t ConditionFalse s | Some _ => s end).
  assert (∀ s t, (∀ t', is_Some (cond t' (fill s t)) ↔ t' = t ∨ is_Some (cond t' s)) ∧
    hs_CurrentVersion (fill s t) = hs_CurrentVersion s) as Hfill.
  { intros s t. unfold fill. destruct (GetCondition t s) as [[i c]|] eqn:E.
    - split; [|done]. intros t'. split; [by right|]. intros [->|?]; [|done]. unfold cond. rewrite E. by eexists.
    - split; [intros; apply present_update|]. by destruct (UpdateConditionStatus_rest now t ConditionFalse s) as (_ & _ & ? & _). }
  assert (setup_defaults now x = (if decide (hs_Phase (ha_Status x) = ""%string)
    then x <| ha_Status ::= λ s, s <| hs_Phase := HelmAppStatusPhaseDetecting |> |> else x)
    <| ha_Status ::= λ s, foldl fill s defaultConditionTypes |>) as ->.
  { unfold setup_defaults. rewrite Hp. by rewrite (decide_False (P := HelmAppPreStatusConfigured = ""%string)) by discriminate. }
  set (y := if decide _ then _ else _). assert (ha_Spec y = ha_Spec x) as Hs by (unfold y; by case_decide).
  assert (hs_CurrentVersion (ha_Status y) = hs_CurrentVersion (ha_Status x)) as Hv by (unfold y; by case_decide).
  split; [done|]. split.
  - split; [simpl; rewrite Hs, Hp; discriminate|]. split; [apply getPhase_nonempty|].
    assert (∀ t, t ∈ defaultConditionTypes → is_Some (cond t (foldl fill (ha_Status y) defaultConditionTypes))) as H.
    { intros t. unfold defaultConditionTypes. cbn [foldl]. rewrite !elem_of_cons.
      intros [?|[?|[?|Hn%not_elem_of_nil]]]; [..|done]; repeat (apply (Hfill _ _); try (by left); right). }
    apply Forall_forall. intros t Ht. apply (H t Ht).
  - unfold defaultConditionTypes. cbn. rewrite !(proj2 (Hfill _ _)). done.
Qed.

Lemma put_keeps_setup t st x : setup_done x →
  setup_done (phased (x <| ha_Status ::= UpdateConditionStatus now t st |>)).
Proof.
  intros (Hp & _ & Hc). split; [done|]. split; [apply getPhase_nonempty|].
  rewrite Forall_forall in *. intros t' Ht. apply (present_update t' now t st). right. by apply Hc.
Qed.

Lemma phased_rest a : ha_Spec (phased a) = ha_Spec a ∧
  hs_CurrentVersion (ha_Status (phased a)) = hs_CurrentVersion (ha_Status a).
Proof. done. Qed.

(** Every stage gets closer to the end. *)
Lemma next_stage_progress x : on_the_way x →
  match next_stage x with
  | Some a => on_the_way (phased a) ∧ ha_Spec a = ha_Spec x ∧ stage_rank (phased a) < stage_rank x
  | None => settled x
  end.
Proof.
  intros [Hpre Hway]. destruct Hway as [Hset|Hv]; [by rewrite (proj2 (proj2 (proj2 (proj2 (proj2 Hset)))))|].
  assert (NeedUpdate x = true) as Hup.
  { unfold NeedUpdate. rewrite decide_True by done. rewrite (bool_decide_eq_false_2 (hsp_Version _ = _)) by congruence.
    apply orb_true_r. }
  unfold next_stage. destruct (NeedSetup x) eqn:Hsetup.
  - destruct (setup_defaults_done x Hpre) as (Hs & Hd & Hcv). apply NeedSetup_false in Hd.
    destruct (phased_rest (setup_defaults now x)) as [Hs' Hcv'].
    split; [split; [by rewrite Hs', Hs|right; by rewrite Hs', Hcv', Hcv, Hs]|]. split; [done|].
    unfold stage_rank. rewrite Hd, Hsetup. repeat case_match; lia.
  - pose proof (proj1 (NeedSetup_false x) Hsetup) as Hd. destruct (NeedDetect x) eqn:Hdet.
    + set (t := if IsConditionTrue HelmAppChartReady (ha_Status x) then HelmAppPreInstalled else HelmAppChartReady).
      destruct (UpdateConditionStatus_rest now t ConditionTrue (ha_Status x)) as (_ & _ & Hcv & _).
      pose proof (put_keeps_setup t ConditionTrue x Hd) as Hd'. apply NeedSetup_false in Hd'.
      assert (hs_CurrentVersion (ha_Status (phased (detected x))) = hs_CurrentVersion (ha_Status x)) as Hcv' by exact Hcv.
      split; [split; [done|right; by rewrite Hcv']|]. split; [done|].
      unfold stage_rank. fold (detected x) in *. unfold detected at 1. fold t. rewrite Hd', Hsetup.
      assert (∀ t', IsConditionTrue t' (ha_Status (phased (detected x))) =
        if decide (t' = t) then true else IsConditionTrue t' (ha_Status x)) as Htrue.
      { intros t'. transitivity (IsConditionTrue t' (UpdateConditionStatus now t ConditionTrue (ha_Status x))); [done|].
        apply is_true_update. }
      rewrite !Htrue. unfold NeedDetect, isDetected in Hdet. cbn in Hdet. rewrite andb_true_r in Hdet. unfold t.
      destruct (IsConditionTrue HelmAppChartReady (ha_Status x)) eqn:Hc; cbn in Hdet |- *.
      * apply negb_true_iff in Hdet. rewrite Hdet, decide_False, decide_True by done. cbn. destruct (NeedUpdate (phased _)); lia.
      * rewrite decide_True, decide_False by done. cbn. repeat case_match; lia.
    + rewrite Hup. set (a := installed_as_asked now x).
      destruct (UpdateConditionStatus_rest now HelmAppInstalled ConditionTrue (ha_Status x)) as (_ & _ & _ & _).
      pose proof (put_keeps_setup HelmAppInstalled ConditionTrue x Hd) as Hd'.
      assert (NeedSetup (phased a) = false) as Hd2 by (by apply NeedSetup_false).
      assert (∀ t', IsConditionTrue t' (ha_Status (phased a)) =
        if decide (t' = HelmAppInstalled) then true else IsConditionTrue t' (ha_Status x)) as Htrue.
      { intros t'. transitivity (IsConditionTrue t' (UpdateConditionStatus now HelmAppInstalled ConditionTrue (ha_Status x)));
          [done|]. apply is_true_update. }
      assert (NeedUpdate (phased a) = false) as Hnu.
      { unfold NeedUpdate. destruct (decide _); [|done]. rewrite (bool_decide_eq_true_2 (hsp_Version _ = _)) by done.
        assert (OverridesEqual (phased a) = true) as ->; [|done]. unfold OverridesEqual. cbn. rewrite decide_True by done.
        apply forallb_forall. intros o Ho. apply bool_decide_eq_true. by apply list_elem_of_In. }
      assert (NeedDetect (phased a) = false) as Hnd.
      { unfold NeedDetect, isDetected in *. cbn [forallb] in *. rewrite !Htrue. by rewrite !decide_False. }
      assert (getPhase (phased a) = HelmAppStatusPhaseInstalled) as Hph.
      { pose proof (Htrue HelmAppInstalled) as Hi. rewrite decide_True in Hi by done. unfold IsConditionTrue in Hi.
        unfold getPhase. destruct (GetCondition HelmAppInstalled (ha_Status (phased a))) as [[i c]|]; [|done].
        apply bool_decide_eq_true in Hi. by rewrite decide_True. }
      split; [split; [done|left]|split; [done|]].
      * split; [exact Hph|]. split; [exact Hph|]. split; [done|]. split; [done|]. rewrite Htrue. split; [done|].
        unfold next_stage. by rewrite Hd2, Hnd, Hnu.
      * unfold stage_rank. rewrite Hd2, Hsetup. unfold NeedDetect, isDetected in Hdet. cbn in Hdet.
        apply negb_false_iff, andb_true_iff in Hdet as [Hc Hp]. rewrite andb_true_r in Hp. rewrite !Htrue, Hc, Hp, Hup, Hnu.
        by destruct (decide _), (decide _); cbn; lia.
Qed.

Lemma stage_rank_zero x : next_stage x = None → stage_rank x = 0.
Proof.
  unfold next_stage, stage_rank, NeedDetect, isDetected. cbn [forallb]. rewrite andb_true_r.
  destruct (NeedSetup x), (IsConditionTrue HelmAppChartReady (ha_Status x)),
    (IsConditionTrue HelmAppPreInstalled (ha_Status x)), (NeedUpdate x); done.
Qed.

(** A round of the control loop on the stored resource. *)
Abbreviation reconcile := (Reconcile hc hm (S default_retry) (S default_backoff) now err_text).

Definition round (ns n : string) (c : C) : C :=
  match lookup c ns n with Some x => (reconcile x c).1 | None => c end.

Lemma settled_agrees x a : agrees x a → settled a → settled x.
Proof.
  intros Hag (H1 & H2 & H3 & H4 & H5 & H6). pose proof (agrees_same _ _ Hag) as (Hs & Hp & _ & Hv & Ho).
  destruct (agrees_stage _ _ Hag) as (S1 & S2 & S3 & S4 & S5).
  split; [congruence|]. split; [congruence|]. split; [congruence|]. split; [congruence|]. split; [by rewrite S5|].
  revert H6. unfold next_stage, NeedDetect. rewrite S1, S2, S3. by repeat case_match.
Qed.

Lemma rank_agrees x a : agrees x a → stage_rank x = stage_rank a.
Proof. intros (S1 & _ & S3 & _ & S5)%agrees_stage. unfold stage_rank. by rewrite S1, S3, !S5. Qed.

Lemma on_the_way_agrees x a : agrees x a → on_the_way a → on_the_way x.
Proof.
  intros Hag [Hp Hw]. pose proof (agrees_same _ _ Hag) as (Hs & _ & _ & Hv & _). split; [by rewrite Hs|].
  destruct Hw as [Hw|Hw]; [left; by apply (settled_agrees _ a)|right; congruence].
Qed.

Lemma settled_idle x : settled x → next_stage x = None ∧ installs x = false.
Proof.
  intros (_ & _ & _ & _ & _ & Hn). split; [done|]. revert Hn. unfold next_stage, installs. by repeat case_match.
Qed.

(** Only the installation makes a resource settled. *)
Lemma stage_installs x a x' : on_the_way x → next_stage x = Some a → agrees x' (phased a) → settled x' → installs x = true.
Proof.
  intros [Hp Hw] Ha Hag (_ & _ & Hv & _). pose proof (agrees_same _ _ Hag) as (Hs & _ & _ & Hcv & _).
  rewrite Hs, Hcv in Hv. destruct (phased_rest a) as [Hs2 Hcv2]. rewrite Hs2, Hcv2 in Hv. clear Hs Hcv Hs2 Hcv2 Hag.
  assert (hs_CurrentVersion (ha_Status x) ≠ hsp_Version (ha_Spec x)) as Hne.
  { destruct Hw as [Hset|Hw]; [|done]. by rewrite (proj1 (settled_idle x Hset)) in Ha. }
  revert Ha. unfold next_stage, installs. destruct (NeedSetup x).
  { intros [= <-]. destruct (setup_defaults_done x Hp) as (Hs & _ & Hcv). rewrite Hs, Hcv in Hv. done. }
  destruct (NeedDetect x); [|by destruct (NeedUpdate x)]. intros [= <-]. destruct Hne.
  transitivity (hs_CurrentVersion (ha_Status (detected x))); [symmetry; apply UpdateConditionStatus_rest|exact Hv].
Qed.

Lemma asked_same x x' : ha_Spec x' = ha_Spec x → asked x' = asked x.
Proof. intros Hs. unfold asked, chart. by rewrite Hs. Qed.

Lemma round_progress x c ns n : lookup c ns n = Some x → hsp_AppStore (ha_Spec x) ≠ None → on_the_way x →
  delivered x c ns n →
  ∃ x', lookup (round ns n c) ns n = Some x' ∧ ha_Spec x' = ha_Spec x ∧ on_the_way x' ∧
    (settled x' ∨ stage_rank x' < stage_rank x) ∧ delivered x' (round ns n c) ns n.
Proof.
  intros Hx Hst Hway Hdel. unfold round. rewrite Hx. pose proof (hl_named c ns n x Hx) as [Hn Hns].
  destruct (Reconcile_stage x c ns n Hx Hst) as (c' & x' & -> & Hx' & Hag & Hrel). exists x'. split; [done|].
  pose proof (next_stage_progress x Hway) as Hp. unfold next_release in Hrel. rewrite Hn, Hns in Hrel.
  destruct (next_stage x) as [a|] eqn:Ea.
  - destruct Hp as (Hw & Hs & Hr). split; [by rewrite (proj1 Hag)|]. split; [by apply (on_the_way_agrees _ _ Hag)|].
    split; [right; by rewrite (rank_agrees _ _ Hag)|]. intros Hset. cbn [fst]. rewrite Hrel, (asked_same x x') by (by rewrite (proj1 Hag)).
    assert (installs x = true) as ->; [|done]. by apply (stage_installs x a x').
  - assert (phased x = x) as Hph.
    { destruct Hp as (H1 & H2 & _). unfold phased. rewrite H2, <- H1. by destruct x as [? ? ? ? []]. }
    rewrite Hph in Hag. assert (agrees x' x) as Hag' by tauto.
    split; [by rewrite (proj1 Hag')|]. split; [by apply (on_the_way_agrees _ _ Hag')|].
    split; [left; by apply (settled_agrees _ _ Hag')|]. intros _. cbn [fst].
    rewrite Hrel, (proj2 (settled_idle x Hp)), (asked_same x x') by (by rewrite (proj1 Hag')). by apply Hdel.
Qed.


(** The first round on a resource writes back the spec that the
    informer had when it started, with its default: whatever the resource asked
    for by then, a version or that it is configured, is overwritten. *)
Theorem setup_overwrites_spec x y c :
  NeedSetup x = true → hsp_AppStore (ha_Spec x) ≠ None → stored x c = Some y →
  ∃ c' z, reconcile x c = (c', Ok None) ∧ stored x c' = Some z ∧ ha_Spec z = ha_Spec (setup_defaults now x).
Proof.
  intros Hsetup Hst Hy. destruct (hsp_AppStore (ha_Spec x)) as [st|] eqn:Est; [|done]. unfold Reconcile.
  pose proof (hk_new (ha_Namespace x) c) as Hl. pose proof (hw_new (ha_Namespace x) c) as Hr.
  destruct (hm_new hm (ha_Namespace x) c) as [c0 e]. simpl in Hl, Hr. subst e. rewrite Est. rewrite <- Hl in Hy.
  assert (ha_Name (setup_defaults now x) = ha_Name x ∧ ha_Namespace (setup_defaults now x) = ha_Namespace x) as [Hn Hns]
    by (unfold setup_defaults; by split_decide).
  destruct (Update_run x (setup_defaults now x) c0 Hn Hns) as (w & E & rv & z & Hw & Hz & Hsz & Hstz); [by eexists|].
  assert (reconcile_app hc hm (S default_retry) (S default_backoff) now err_text (mkHworld x c0) = (w, Ok None)) as ->.
  { unfold reconcile_app, the_app. rewrite (bind_ok _ _ _ (mkHworld x c0) x) by done. rewrite Hsetup. unfold Setup.
    by rewrite (bind_ok _ _ _ (mkHworld (setup_defaults now x) c0) ()) by done. }
  destruct w as [a1 c1]. simpl in *. subst a1.
  destruct (UpdateRunningStatus_run (stamp (setup_defaults now x) rv) c1 z) as (w2 & z2 & E2 & Hz2 & Hag);
    [by rewrite <- Hn, <- Hns in Hz|done..|].
  rewrite E2. exists (hw_c w2), z2. split; [done|]. rewrite <- Hn, <- Hns. split; [done|].
  destruct Hag as [[Hs _]|[Hs _]]; by rewrite Hs.
Qed.

(** An application whose upgrade failed and which is then asked
    for the version it has is left alone for good, although its resource says that
    it is not installed and is being installed. *)
Theorem reverted_upgrade_stuck x c k :
  stored x c = Some x → hsp_AppStore (ha_Spec x) ≠ None →
  NeedSetup x = false → NeedDetect x = false → hsp_PreStatus (ha_Spec x) = HelmAppPreStatusConfigured →
  hs_CurrentVersion (ha_Status x) = hsp_Version (ha_Spec x) →
  hs_Overrides (ha_Status x) = hsp_Overrides (ha_Spec x) →
  IsConditionTrue HelmAppInstalled (ha_Status x) = false → hs_Phase (ha_Status x) = getPhase x →
  hs_Phase (ha_Status x) = HelmAppStatusPhaseInstalling ∧
  lookup (Nat.iter k (round (ha_Namespace x) (ha_Name x)) c) (ha_Namespace x) (ha_Name x) = Some x.
Proof.
  intros Hx Hst Hs Hd Hp Hv Ho Hi Hph.
  assert (getPhase x = HelmAppStatusPhaseInstalling) as Hinst.
  { revert Hi. unfold getPhase, IsConditionTrue. rewrite (decide_True (P := hsp_PreStatus _ = _)) by done.
    destruct (GetCondition HelmAppInstalled (ha_Status x)) as [[i cn]|]; [|done]. intros Hi%bool_decide_eq_false.
    by rewrite decide_False. }
  split; [congruence|].
  assert (NeedUpdate x = false) as Hu.
  { unfold NeedUpdate. rewrite decide_True, (bool_decide_eq_true_2 (hsp_Version _ = _)) by done.
    assert (OverridesEqual x = true) as ->; [|done]. unfold OverridesEqual. rewrite Ho, decide_True by done.
    apply forallb_forall. intros o Hin. apply bool_decide_eq_true. by apply list_elem_of_In. }
  induction k as [|k IH]; [done|]. simpl. set (c1 := Nat.iter k _ c) in *. unfold round. rewrite IH. unfold Reconcile.
  pose proof (hk_new (ha_Namespace x) c1) as Hl. pose proof (hw_new (ha_Namespace x) c1) as Hr.
  destruct (hm_new hm (ha_Namespace x) c1) as [c0 e]. simpl in Hl, Hr. subst e.
  destruct (hsp_AppStore (ha_Spec x)) as [st|]; [|done].
  assert (reconcile_app hc hm (S default_retry) (S default_backoff) now err_text (mkHworld x c0) =
    (mkHworld x c0, Ok None)) as ->.
  { unfold reconcile_app, the_app. rewrite (bind_ok _ _ _ (mkHworld x c0) x) by done. by rewrite Hs, Hd, Hu. }
  unfold UpdateRunningStatus, the_app. rewrite (bind_ok _ _ _ (mkHworld x c0) x) by done.
  rewrite decide_False by (rewrite Hph, Hinst; discriminate). simpl. by rewrite Hl.
Qed.
End with_cluster.

(** ** When Helm fails, or may not be asked *)

Section failing.
Context {C : Type} (hc : HelmAppClient C) (hm : Helm C) (lookup : C → string → string → option HelmApp).
Context `{HK : !HelmKeeps hm lookup}.
Context (default_retry default_backoff : nat) (now : Z) (err_text : error → string).

(** A program that writes no resource and leaves the phase of the copy. *)
Definition keeps {A} (m : M (hworld C) A) : Prop := ∀ w,
  lookup (hw_c (m w).1) = lookup (hw_c w) ∧ hs_Phase (ha_Status (hw_app (m w).1)) = hs_Phase (ha_Status (hw_app w)).

Lemma keeps_status_ret {A} (a : A) : keeps (mret a).
Proof. done. Qed.
Lemma keeps_status_bind {A B} (m : M (hworld C) A) (f : A → M (hworld C) B) : keeps m → (∀ a, keeps (f a)) → keeps (m ≫= f).
Proof.
  intros Hm Hf w. unfold mbind, M_bind. specialize (Hm w). destruct (m w) as [w1 [a|e|]]; simpl in *; [|done..].
  destruct (Hf a w1) as [H1 H2]. destruct Hm. split; congruence.
Qed.
Lemma keeps_call {A} (m : C → C * A) : (∀ c, lookup (m c).1 = lookup c) → keeps (call m).
Proof. intros Hm w. unfold call. specialize (Hm (hw_c w)). by destruct (m (hw_c w)). Qed.
Lemma keeps_set_status f : (∀ s, hs_Phase (f s) = hs_Phase s) → keeps (set_status f).
Proof. intros Hf w. split; [done|]. apply Hf. Qed.

Lemma keeps_checked t reason r : keeps (checked now err_text t reason r).
Proof.
  destruct r as [e|]; (apply keeps_status_bind; [apply keeps_set_status|intros; apply keeps_status_ret]); intros s.
  - unfold UpdateCondition. by destruct (GetCondition _ s) as [[]|].
  - apply UpdateConditionStatus_rest.
Qed.

Lemma keeps_chart (f : HelmAppStore → HelmApp → C → C * option error) :
  (∀ st a c, lookup (f st a c).1 = lookup c) →
  keeps (a ← the_app; st ← app_store a;
    e ← call (hm_repo_add hm (hst_Name st) (hst_URL st));
    match e with Some _ => mret e | None => call (f st a) end).
Proof.
  intros Hf. apply keeps_status_bind; [done|]. intros a. apply keeps_status_bind.
  { unfold app_store. by destruct (hsp_AppStore (ha_Spec a)). }
  intros st. apply keeps_status_bind; [apply keeps_call, hk_repo_add|]. intros [e|]; [apply keeps_status_ret|by apply keeps_call].
Qed.

Lemma Detector_keeps : keeps (Detector_Detect hm now err_text).
Proof.
  apply keeps_status_bind; [done|]. intros a. destruct (negb (IsConditionTrue HelmAppChartReady _)).
  - apply keeps_status_bind. { unfold app_store. by destruct (hsp_AppStore (ha_Spec a)). }
    intros st. apply keeps_status_bind; [apply keeps_call, hk_repo_add|]. intros [e|].
    + apply keeps_status_bind; [apply keeps_set_status|intros; apply keeps_status_ret]. intros s. unfold SetCondition.
      destruct (GetCondition _ s) as [[]|]; [by case_decide|done].
    + apply keeps_status_bind; [|intros; apply keeps_checked]. apply keeps_chart. intros. apply hk_load.
  - destruct (negb (IsConditionTrue HelmAppPreInstalled _)); [|apply keeps_status_ret].
    apply keeps_status_bind; [|intros; apply keeps_checked]. apply keeps_chart. intros. apply hk_preinstall.
Qed.

(** When the check of a chart fails, the condition that says why is
    set in a copy that is dropped: no resource of the cluster is written. *)
Theorem detect_failure_lost x c c0 e w :
  NeedSetup x = false → NeedDetect x = true → hs_Phase (ha_Status x) ≠ HelmAppStatusPhaseInstalled →
  hsp_AppStore (ha_Spec x) ≠ None → hm_new hm (ha_Namespace x) c = (c0, None) →
  Detector_Detect hm now err_text (mkHworld x c0) = (w, Ok (Some e)) →
  ∃ c', Reconcile hc hm default_retry default_backoff now err_text x c = (c', Ok (Some (EWrap "detect helm app" e))) ∧
    lookup c' = lookup c.
Proof.
  intros Hs Hd Hp Hst Hnew Hdet. unfold Reconcile. rewrite Hnew. destruct (hsp_AppStore (ha_Spec x)) as [st|]; [|done].
  assert (reconcile_app hc hm default_retry default_backoff now err_text (mkHworld x c0) =
    (w, Ok (Some (EWrap "detect helm app" e)))) as ->.
  { unfold reconcile_app, the_app. rewrite (bind_ok _ _ _ (mkHworld x c0) x) by done. rewrite Hs, Hd. unfold Detect.
    by rewrite (bind_ok _ _ _ _ _ Hdet). }
  destruct (Detector_keeps (mkHworld x c0)) as [Hl Hph]. rewrite Hdet in Hl, Hph. simpl in Hl, Hph. exists (hw_c w). split.
  - unfold UpdateRunningStatus, the_app. rewrite (bind_ok _ _ _ w (hw_app w)) by done. by rewrite Hph, decide_False.
  - rewrite Hl. pose proof (hk_new (hm := hm) (ha_Namespace x) c) as H. by rewrite Hnew in H.
Qed.

Definition with_install (install upgrade : string → string → string → string → list string → C → C * option error) : Helm C := {|
  hm_new := hm_new hm; hm_repo_add := hm_repo_add hm; hm_load := hm_load hm; hm_preinstall := hm_preinstall hm;
  hm_status := hm_status hm; hm_install := install; hm_upgrade := upgrade; hm_uninstall := hm_uninstall hm |}.

(** Nothing is installed or upgraded before the resource has its
    defaults, its chart was loaded and tried out, and the user has said that it is
    configured: a round does not depend on how Helm would do it. *)
Theorem install_guarded install upgrade x c :
  NeedSetup x = true ∨ NeedDetect x = true ∨ hsp_PreStatus (ha_Spec x) ≠ HelmAppPreStatusConfigured →
  Reconcile hc (with_install install upgrade) default_retry default_backoff now err_text x c =
  Reconcile hc hm default_retry default_backoff now err_text x c.
Proof.
  intros Hx.
  assert (∀ c, reconcile_app hc (with_install install upgrade) default_retry default_backoff now err_text (mkHworld x c) =
    reconcile_app hc hm default_retry default_backoff now err_text (mkHworld x c)) as Hr.
  { intros c0. unfold reconcile_app, the_app. rewrite !(bind_ok _ _ _ (mkHworld x c0) x) by done.
    destruct (NeedSetup x); [done|]. destruct (NeedDetect x); [done|].
    destruct Hx as [?|[?|Hx]]; [done..|]. unfold NeedUpdate. by rewrite decide_False. }
  unfold Reconcile. cbn [hm_new with_install]. destruct (hm_new hm _ c) as [c0 [e|]]; [done|].
  destruct (hsp_AppStore (ha_Spec x)); [|done]. by rewrite Hr.
Qed.
End failing.

(** ** An in-memory cluster of these resources, and a Helm that always succeeds *)

Module RefHelm.
Record cluster := mkCluster {
  cl_apps : gmap (string * string) HelmApp;
  cl_releases : gmap (string * string) release_info
}.
#[export] Instance eta_cluster : Eta cluster := λ c, mkCluster (cl_apps c) (cl_releases c).

Definition lookup (c : cluster) (ns n : string) : option HelmApp :=
  (λ x, x <| ha_Name := n |> <| ha_Namespace := ns |>) <$> cl_apps c !! (ns, n).

Definition release (c : cluster) (ns n : string) : option release_info := cl_releases c !! (ns, n).

Definition write (ns : string) (a : HelmApp) (f : HelmApp → HelmApp) (c : cluster) : cluster * (api_error + HelmApp) :=
  match lookup c ns (ha_Name a) with
  | None => (c, inl NotFound)
  | Some old =>
    if decide (ha_ResourceVersion a = ha_ResourceVersion old) then
      let x := (f old) <| ha_Name := ha_Name a |> <| ha_Namespace := ns |>
                 <| ha_ResourceVersion := (ha_ResourceVersion old +:+ "'")%string |> in
      (c <| cl_apps ::= <[(ns, ha_Name a) := x]> |>, inr x)
    else (c, inl Conflict)
  end.

Definition client : HelmAppClient cluster := {|
  hcl_get ns n c := (c, match lookup c ns n with Some x => inr x | None => inl NotFound end);
  hcl_update ns a := write ns a (λ old, old <| ha_Spec := ha_Spec a |>);
  hcl_update_status ns a := write ns a (λ old, old <| ha_Status := ha_Status a |>)
|}.

Lemma write_ok a f c c' x : write (ha_Namespace a) a f c = (c', inr x) →
  ∃ old, lookup c (ha_Namespace a) (ha_Name a) = Some old ∧ lookup c' (ha_Namespace a) (ha_Name a) = Some x ∧
    ha_Spec x = ha_Spec (f old) ∧ ha_Status x = ha_Status (f old).
Proof.
  unfold write. destruct (lookup c _ _) as [old|] eqn:E; [|done]. case_decide; [|done]. intros [= <- <-].
  exists old. split; [done|]. unfold lookup at 1. simpl. rewrite lookup_insert_eq. done.
Qed.

Lemma write_conflict a f c c' : write (ha_Namespace a) a f c = (c', inl Conflict) → c' = c.
Proof. unfold write. destruct (lookup c _ _); [case_decide|]; by intros [= <-]. Qed.

Lemma write_reliable a f c old : lookup c (ha_Namespace a) (ha_Name a) = Some old →
  ha_ResourceVersion a = ha_ResourceVersion old → ∃ c' x, write (ha_Namespace a) a f c = (c', inr x).
Proof. intros E Hrv. unfold write. rewrite E, decide_True by done. by do 2 eexists. Qed.

#[global] Instance laws : HelmAppLaws client lookup.
Proof.
  split; simpl; try done.
  - intros c ns n x. unfold lookup. destruct (cl_apps c !! (ns, n)); [|done]. by intros [= <-].
  - intros c ns n x. destruct (lookup c ns n); [|done]. by intros [= <-].
  - intros c a c' x H. by apply write_ok in H.
  - intros c a c' H. by apply write_conflict in H.
  - intros c a c' x H. by apply write_ok in H.
  - intros c a c' H. by apply write_conflict in H.
Qed.

#[global] Instance reliable : HelmAppReliable client lookup.
Proof.
  split; simpl.
  - intros c ns n x. by intros ->.
  - intros c a old. apply write_reliable.
  - intros c a old. apply write_reliable.
Qed.

Definition helm (chart_error : option error) : Helm cluster := {|
  hm_new ns c := (c, None);
  hm_repo_add n u c := (c, None);
  hm_load ns ch v c := (c, chart_error);
  hm_preinstall ns n ch v c := (c, None);
  hm_status ns n c := (c, match release c ns n with Some _ => inr "deployed"%string | None => inl (EWrap "helm status" ErrReleaseNotFound) end);
  hm_install ns n ch v o c := (c <| cl_releases ::= <[(ns, n) := (ch, v, o)]> |>, None);
  hm_upgrade ns n ch v o c := (c <| cl_releases ::= <[(ns, n) := (ch, v, o)]> |>, None);
  hm_uninstall ns n c := (c, None)
|}.

#[global] Instance helm_keeps e : HelmKeeps (helm e) lookup.
Proof. by split. Qed.
#[global] Instance helm_works : HelmWorks (helm None).
Proof. split; try done. intros ns n c. simpl. by destruct (release c ns n). Qed.

Lemma write_release ns a f c : release (write ns a f c).1 = release c.
Proof. unfold write. destruct (lookup c ns (ha_Name a)); [|done]. by case_decide. Qed.

#[global] Instance helm_releases e : HelmReleases client (helm e) release.
Proof.
  split; try done; [intros; apply write_release..|intros ns n ch v o c _|intros ns n ch v o c _];
    unfold release; simpl; by rewrite lookup_insert_eq.
Qed.
End RefHelm.

(** ** Examples *)

Definition demo_helm_app (pre v : string) (st : HelmAppStatus) : HelmApp :=
  mkHelmApp "mysql" "team" "1" (mkHelmSpec pre "mysql" v (Some (mkHelmStore "bitnami" "https://charts")) ["a=1"%string]) st.
Definition demo_blank : HelmAppStatus := mkHelmStatus "" "" [] "" [].
Definition demo_conditions (chart installed : condition_status) : list HelmAppCondition :=
  [mkHelmCondition HelmAppChartReady chart 0 "" ""; mkHelmCondition HelmAppPreInstalled chart 0 "" "";
   mkHelmCondition HelmAppInstalled installed 0 "" ""].
Definition demo_helm_cluster (a : HelmApp) : RefHelm.cluster :=
  RefHelm.mkCluster {[("team"%string, "mysql"%string) := a]} ∅.


(** While the first round runs the user asks for another version. *)
Lemma setup_overwrites_spec_witness :
  let x := demo_helm_app "" "8.0" demo_blank in
  let y := demo_helm_app "Configured" "8.1" demo_blank in
  ∃ c' z, Reconcile RefHelm.client (RefHelm.helm None) 5 4 7 (λ _, ""%string) x (demo_helm_cluster y) = (c', Ok None) ∧
    RefHelm.lookup c' "team" "mysql" = Some z ∧ ha_Spec z = ha_Spec (demo_helm_app "NotConfigured" "8.0" demo_blank).
Proof.
  intros x y.
  apply (setup_overwrites_spec RefHelm.client (RefHelm.helm None) RefHelm.lookup 4 3 7 (λ _, ""%string) x y (demo_helm_cluster y)).
  - reflexivity.
  - discriminate.
  - reflexivity.
Defined.

Lemma reverted_upgrade_stuck_witness :
  let x := demo_helm_app "Configured" "8.0"
    (mkHelmStatus "failed" "installing" (demo_conditions ConditionTrue ConditionFalse) "8.0" ["a=1"%string]) in
  hs_Phase (ha_Status x) = HelmAppStatusPhaseInstalling ∧
  RefHelm.lookup (Nat.iter 100 (round RefHelm.client (RefHelm.helm None) RefHelm.lookup 4 3 7 (λ _, ""%string) "team" "mysql")
    (demo_helm_cluster x)) "team" "mysql" = Some x.
Proof.
  intros x. apply (reverted_upgrade_stuck RefHelm.client (RefHelm.helm None) RefHelm.lookup 4 3 7 (λ _, ""%string) x
    (demo_helm_cluster x) 100); first [reflexivity | discriminate].
Defined.

Lemma detect_failure_lost_witness :
  let x := demo_helm_app "Configured" "8.0"
    (mkHelmStatus "" "detecting" (demo_conditions ConditionFalse ConditionFalse) "" []) in
  ∃ c', Reconcile RefHelm.client (RefHelm.helm (Some (EMsg "no chart"))) 5 4 7 (λ _, ""%string) x (demo_helm_cluster x) =
      (c', Ok (Some (EWrap "detect helm app" (EMsg "no chart")))) ∧
    RefHelm.lookup c' = RefHelm.lookup (demo_helm_cluster x).
Proof.
  intros x. eapply (detect_failure_lost RefHelm.client (RefHelm.helm (Some (EMsg "no chart"))) RefHelm.lookup 5 4 7
    (λ _, ""%string) x (demo_helm_cluster x) (demo_helm_cluster x) (EMsg "no chart")); first [reflexivity | discriminate].
Defined.

Lemma install_guarded_witness :
  let x := demo_helm_app "NotConfigured" "8.0"
    (mkHelmStatus "" "configuring" (demo_conditions ConditionTrue ConditionFalse) "" []) in
  Reconcile RefHelm.client (with_install (RefHelm.helm None) (λ _ _ _ _ _ _, (RefHelm.mkCluster ∅ ∅, None)) (λ _ _ _ _ _ _, (RefHelm.mkCluster ∅ ∅, None)))
    5 4 7 (λ _, ""%string) x (demo_helm_cluster x) =
  Reconcile RefHelm.client (RefHelm.helm None) 5 4 7 (λ _, ""%string) x (demo_helm_cluster x).
Proof.
  intros x. apply (install_guarded RefHelm.client (RefHelm.helm None)). right. right. discriminate.
Defined.

(** Two overrides are asked for, one is in effect twice. *)
Lemma overrides_compared_witness :
  let a := mkHelmApp "mysql" "team" "1" (mkHelmSpec "Configured" "mysql" "8.0" None ["a=1"; "b=2"]%string)
    (mkHelmStatus "" "installed" [] "8.0" ["a=1"; "a=1"]%string) in NeedUpdate a = false.
Proof. intros a. by apply (proj2 (overrides_compared a) "a=1"%string "b=2"%string). Defined.
