(* ===== verification/ImageGC.v ===== *)
(** * Image garbage collection

    [node/nodem/gc/image_gc_manager.go]: a node removes images that no component
    uses when its disk fills up.  Docker and the disk are the record [Docker]. *)
From S2P Require Import Prelude.

(** ** Time

    [time.Time] in nanoseconds since 1970; [Sub] saturates. *)
Definition zero_time : Z := -62135596800000000000.
Definition time_sub (t u : Z) : Z := Z.max (- 2 ^ 63) (Z.min (2 ^ 63 - 1) (t - u)).

(** ** Data *)

Record ImageGCPolicy := mkGCPolicy { HighThresholdPercent : Z; LowThresholdPercent : Z; MinAge : Z }.

Record imageRecord := mkImageRecord { ir_firstDetected : Z; ir_lastUsed : Z; ir_size : Z }.
#[export] Instance eta_imageRecord : Eta imageRecord := λ r,
  mkImageRecord (ir_firstDetected r) (ir_lastUsed r) (ir_size r).

Record evictionInfo := mkEviction { ei_id : string; ei_record : imageRecord }.

(** [byLastUsedAndDetected.Less] *)
Definition eviction_less (x y : evictionInfo) : bool :=
  if decide (ir_lastUsed (ei_record x) = ir_lastUsed (ei_record y))
  then bool_decide (ir_firstDetected (ei_record x) < ir_firstDetected (ei_record y))%Z
  else bool_decide (ir_lastUsed (ei_record x) < ir_lastUsed (ei_record y))%Z.

(** The usage of a file system; of the percentage only comparisons with
    integers are made, so its integral part is kept. *)
Record FsStats := mkFsStats { fs_Free : Z; fs_Total : Z; fs_UsedPercent : Z }.

(** The Docker engine: the id of an image, its images with their sizes, forced removal; and the disk. *)
Record Docker (C : Type) := {
  dk_inspect : string → C → error + string;
  dk_list : C → error + list (string * Z);
  dk_remove : string → C → C * option error;
  dk_root : C → error + string;
  dk_usage : string → C → error + FsStats
}.
Arguments dk_inspect {C} _ _ _.
Arguments dk_list {C} _ _.
Arguments dk_remove {C} _ _ _.
Arguments dk_root {C} _ _.
Arguments dk_usage {C} _ _ _.

(** [realImageGCManager] *)
Record gc_manager := mkGCManager {
  im_records : gmap string imageRecord;
  im_policy : ImageGCPolicy;
  im_initialized : bool;
  im_sandboxImage : string;
  im_serviceImages : list string
}.
#[export] Instance eta_gc_manager : Eta gc_manager := λ m,
  mkGCManager (im_records m) (im_policy m) (im_initialized m) (im_sandboxImage m) (im_serviceImages m).

Definition NewImageGCManager (policy : ImageGCPolicy) (sandboxImage : string) : error + gc_manager :=
  let high := HighThresholdPercent policy in
  let low := LowThresholdPercent policy in
  if decide (high < 0 ∨ 100 < high)%Z then inl (EMsg "invalid HighThresholdPercent")
  else if decide (low < 0 ∨ 100 < low)%Z then inl (EMsg "invalid LowThresholdPercent")
  else if decide (high < low)%Z then inl (EMsg "LowThresholdPercent can not be higher than HighThresholdPercent")
  else inr (mkGCManager ∅ policy false sandboxImage []).

Definition SetServiceImages (l : list string) (m : gc_manager) : gc_manager := m <| im_serviceImages := l |>.

Definition isImageUsed (imageID : string) (imagesInUse : gset string) : bool := bool_decide (imageID ∈ imagesInUse).

Section docker.
Context {C : Type} (dk : Docker C) `{GoRuntime}.

(** ** Detection *)

(** The ids of the images in use; an image that cannot be inspected, for whatever reason, is left out. *)
Definition images_in_use (m : gc_manager) (c : C) : gset string :=
  foldl (λ used image,
    match dk_inspect dk image c with
    | inr ref => if decide (ref = ""%string) then used else {[ref]} ∪ used
    | inl _ => used
    end) ∅ (im_serviceImages m ++ [im_sandboxImage m]).

Definition note_image (detectTime now : Z) (used : gset string) (records : gmap string imageRecord)
    (image : string * Z) : gmap string imageRecord :=
  let r := default (mkImageRecord detectTime zero_time 0) (records !! image.1) in
  let r := if isImageUsed image.1 used then r <| ir_lastUsed := now |> else r in
  <[image.1 := r <| ir_size := image.2 |>]> records.

(** [now] is the time at which the images have been listed. *)
Definition detectImages (detectTime now : Z) (m : gc_manager) (c : C) : gc_manager * gset string * option error :=
  let used := images_in_use m c in
  match dk_list dk c with
  | inl e => (m, used, Some e)
  | inr images =>
    let currentImages : gset string := list_to_set images.*1 in
    let records := foldl (note_image detectTime now used) (im_records m) images in
    (m <| im_records := filter (λ '(id, _), id ∈ currentImages) records |>, used, None)
  end.

(** One round of the first goroutine of [Start]: until the first success images count as detected long ago. *)
Definition monitor_round (ts now : Z) (m : gc_manager) (c : C) : gc_manager :=
  let '(m, _, err) := detectImages (if im_initialized m then ts else zero_time) now m c in
  match err with
  | Some _ => m
  | None => m <| im_initialized := true |>
  end.

(** ** Eviction *)

(** An image that was used since, or is too young, is passed over. *)
Definition spared (policy : ImageGCPolicy) (freeTime : Z) (image : evictionInfo) : bool :=
  bool_decide (freeTime ≤ ir_lastUsed (ei_record image))%Z ||
  bool_decide (time_sub freeTime (ir_firstDetected (ei_record image)) < MinAge policy)%Z.

Fixpoint free_loop (policy : ImageGCPolicy) (bytesToFree freeTime : Z) (images : list evictionInfo)
    (records : gmap string imageRecord) (spaceFreed : Z) (c : C) : gmap string imageRecord * Z * C :=
  match images with
  | [] => (records, spaceFreed, c)
  | image :: images' =>
    if spared policy freeTime image then free_loop policy bytesToFree freeTime images' records spaceFreed c
    else
      let '(c, err) := dk_remove dk (ei_id image) c in
      match err with
      | Some _ => free_loop policy bytesToFree freeTime images' records spaceFreed c
      | None =>
        let records := delete (ei_id image) records in
        let spaceFreed := int64 (spaceFreed + ir_size (ei_record image)) in
        if decide (bytesToFree ≤ spaceFreed)%Z then (records, spaceFreed, c)
        else free_loop policy bytesToFree freeTime images' records spaceFreed c
      end
  end.

Definition eviction_order (used : gset string) (records : gmap string imageRecord) : list evictionInfo :=
  sort_slice eviction_less
    ((λ '(id, r), mkEviction id r) <$> filter (λ '(id, _), isImageUsed id used = false) (range_order records)).

(** [freeSpace]; errors of removals are not kept. *)
Definition freeSpace (bytesToFree freeTime now : Z) (m : gc_manager) (c : C) : gc_manager * C * (error + Z) :=
  let '(m, used, err) := detectImages freeTime now m c in
  match err with
  | Some e => (m, c, inl e)
  | None =>
    let '(records, freed, c) :=
      free_loop (im_policy m) bytesToFree freeTime (eviction_order used (im_records m)) (im_records m) 0 c in
    (m <| im_records := records |>, c, inr freed)
  end.

(** ** Collection *)

(** How much has to go to get down to the lower threshold. *)
Definition amount_to_free (policy : ImageGCPolicy) (capacity available : Z) : Z :=
  int64 (Z.quot (int64 (int64 capacity * int64 (100 - LowThresholdPercent policy))) 100 - int64 available).

Definition GarbageCollect (freeTime now : Z) (m : gc_manager) (c : C) : gc_manager * C * option error :=
  let dockerRootDir := match dk_root dk c with inr dir => dir | inl _ => "/var/lib/docker"%string end in
  match dk_usage dk dockerRootDir c with
  | inl e => (m, c, Some e)
  | inr fs =>
    let capacity := fs_Total fs in
    let available := Z.min (fs_Free fs) capacity in
    if decide (capacity = 0)%Z then (m, c, Some (EMsg "invalid capacity 0 on image filesystem"))
    else if decide (HighThresholdPercent (im_policy m) ≤ fs_UsedPercent fs)%Z then
      let amountToFree := amount_to_free (im_policy m) capacity available in
      let '(m, c, r) := freeSpace amountToFree freeTime now m c in
      match r with
      | inl e => (m, c, Some e)
      | inr freed =>
        if decide (freed < amountToFree)%Z
        then (m, c, Some (EMsg "failed to garbage collect required amount of images")) else (m, c, None)
      end
    else (m, c, None)
  end.
End docker.

(** ** The order of eviction *)

Lemma eviction_less_weak : strict_weak eviction_less.
Proof.
  split; unfold eviction_less; intros [? x] *; simpl.
  - rewrite decide_True by done. apply bool_decide_eq_false. lia.
  - destruct y as [? y], z as [? z]; simpl. split_decide; rewrite ?bool_decide_eq_true; lia.
  - destruct y as [? y], z as [? z]; simpl. split_decide; rewrite ?bool_decide_eq_false; lia.
Qed.

(** The images that may be evicted: unused, not used since and old enough. *)
Definition evictable (policy : ImageGCPolicy) (freeTime : Z) (used : gset string) (id : string) (r : imageRecord) : Prop :=
  id ∉ used ∧ (ir_lastUsed r < freeTime)%Z ∧ (MinAge policy ≤ time_sub freeTime (ir_firstDetected r))%Z.

Lemma spared_evictable policy freeTime id r :
  spared policy freeTime (mkEviction id r) = false ↔
  (ir_lastUsed r < freeTime)%Z ∧ (MinAge policy ≤ time_sub freeTime (ir_firstDetected r))%Z.
Proof. unfold spared. simpl. rewrite orb_false_iff, !bool_decide_eq_false. lia. Qed.

Section eviction.
Context {C : Type} (dk : Docker C) `{GoRuntimeLaws}.

(** Removing images one after another: which of them went. *)
Fixpoint attempts (images : list evictionInfo) (c : C) : C * list evictionInfo :=
  match images with
  | [] => (c, [])
  | image :: images' =>
    let '(c, err) := dk_remove dk (ei_id image) c in
    let '(c, l) := attempts images' c in
    (c, match err with None => image :: l | Some _ => l end)
  end.

Definition sizes (l : list evictionInfo) : Z := foldr (λ e n, ir_size (ei_record e) + n)%Z 0%Z l.
Definition without_images (l : list evictionInfo) (records : gmap string imageRecord) : gmap string imageRecord :=
  foldr (λ e m, delete (ei_id e) m) records l.

Lemma attempts_app l1 l2 c : attempts (l1 ++ l2) c =
  let '(c1, r1) := attempts l1 c in let '(c2, r2) := attempts l2 c1 in (c2, r1 ++ r2).
Proof.
  revert c. induction l1 as [|x l1 IH]; intros c; simpl.
  - by destruct (attempts l2 c).
  - destruct (dk_remove dk (ei_id x) c) as [c0 err]. rewrite IH. destruct (attempts l1 c0) as [c1 r1].
    destruct (attempts l2 c1) as [c2 r2]. by destruct err.
Qed.

Lemma attempts_sublist l c : (attempts l c).2 `sublist_of` l.
Proof.
  revert c. induction l as [|x l IH]; intros c; simpl; [constructor|].
  destruct (dk_remove dk (ei_id x) c) as [c0 err]. specialize (IH c0). destruct (attempts l c0) as [c1 r].
  destruct err; by constructor.
Qed.

Lemma without_delete l i records : delete i (without_images l records) = without_images l (delete i records).
Proof. induction l as [|x l IH]; simpl; [done|]. by rewrite delete_delete, IH. Qed.

Lemma sizes_sublist l l' : l `sublist_of` l' → Forall (λ e, 0 ≤ ir_size (ei_record e))%Z l' → (0 ≤ sizes l ≤ sizes l')%Z.
Proof.
  induction 1 as [|x l l' _ IH|x l l' _ IH]; intros Hl; simpl; [lia|..];
    apply Forall_cons in Hl as [Hx Hl]; specialize (IH Hl); lia.
Qed.

(** The loop tries a prefix of the images that are not spared. *)
Lemma free_loop_prefix policy toFree freeTime images records freed c records' freed' c' :
  Forall (λ e, 0 ≤ ir_size (ei_record e))%Z images → (0 ≤ freed)%Z → (freed + sizes images < 2 ^ 63)%Z →
  free_loop dk policy toFree freeTime images records freed c = (records', freed', c') →
  ∃ tried left removed, filter (λ e, spared policy freeTime e = false) images = tried ++ left ∧
    attempts tried c = (c', removed) ∧ records' = without_images removed records ∧
    freed' = (freed + sizes removed)%Z ∧ (left ≠ [] → toFree ≤ freed')%Z ∧
    (removed ≠ [] → (∃ x l, removed = l ++ [x] ∧ (freed + sizes l < toFree)%Z) ∨
                    (∃ x, removed = [x])).
Proof.
  intros Hs. revert records freed c. induction Hs as [|x images Hx Hs IH]; intros records freed c Hf Hb; cbn [free_loop].
  { intros [= <- <- <-]. exists [], [], []. simpl. split_and!; try done. lia. }
  simpl in Hb. rewrite filter_cons. destruct (spared policy freeTime x) eqn:Esp.
  { intros E. apply IH in E as (tried & left & removed & E & Hrest); [|done|].
    - exists tried, left, removed. by rewrite decide_False by done.
    - assert (0 ≤ sizes images)%Z by (by apply (sizes_sublist images images)). lia. }
  rewrite decide_True by done. destruct (dk_remove dk (ei_id x) c) as [c1 err] eqn:Er. destruct err as [e|].
  { intros E. apply IH in E as (tried & left & removed & E & Ha & Hrest); [|done|].
    - exists (x :: tried), left, removed. rewrite E. split; [done|]. split; [|done]. simpl. by rewrite Er, Ha.
    - lia. }
  assert (0 ≤ sizes images)%Z as Hpos by (by apply (sizes_sublist images images)).
  rewrite int64_small by (unfold in_int64; lia).
  destruct (decide (toFree ≤ freed + ir_size (ei_record x))%Z) as [Hd|Hd].
  { intros [= <- <- <-]. exists [x], (filter (λ e, spared policy freeTime e = false) images), [x].
    split; [done|]. split; [simpl; by rewrite Er|]. split; [done|]. split; [simpl; lia|]. split; [intros _; simpl; lia|].
    intros _. right. by exists x. }
  intros E. apply IH in E as (tried & left & removed & E & Ha & Hrec & Hfr & Hleft & Hmin); [|lia|lia].
  exists (x :: tried), left, (x :: removed). rewrite E. split; [done|]. split; [simpl; by rewrite Er, Ha|].
  split; [rewrite Hrec; simpl; by rewrite without_delete|]. split; [simpl; lia|]. split; [done|].
  intros _. destruct removed as [|y removed _] using rev_ind; [right; by exists x|]. left. exists y, (x :: removed).
  split; [done|]. simpl. destruct Hmin as [(z & l & Hl & Hz)|[z Hz]]; [by destruct removed|..].
  - apply app_inj_tail in Hl as [-> ->]. lia.
  - destruct removed; [simpl; lia|]. by destruct removed.
Qed.

Lemma sizes_perm l l' : l ≡ₚ l' → sizes l = sizes l'.
Proof. induction 1; simpl; lia. Qed.

Definition eviction_list (records : gmap string imageRecord) : list evictionInfo :=
  (λ '(id, r), mkEviction id r) <$> map_to_list records.

Lemma eviction_order_perm used records : eviction_order used records ≡ₚ
  (λ '(id, r), mkEviction id r) <$> filter (λ '(id, _), isImageUsed id used = false) (map_to_list records).
Proof. unfold eviction_order. rewrite sort_slice_perm. by rewrite range_order_perm. Qed.

Lemma sorted_filter {A} (R : A → A → Prop) (P : A → Prop) `{∀ x, Decision (P x)} l :
  StronglySorted R l → StronglySorted R (filter P l).
Proof.
  induction 1 as [|x l Hl IH Hx]; [constructor|]. rewrite filter_cons. case_decide; [|done]. constructor; [done|].
  rewrite Forall_forall in *. intros y [_ Hy]%list_elem_of_filter. by apply Hx.
Qed.

(** Freeing space tries the images that are not in use, were
    not used since and are old enough, the least recently used first, and stops as
    soon as what it removed is enough: what it tried is a prefix of that order, the
    records lose what was removed, the number returned is its size, and without the
    last image it would not have been enough. *)
Theorem eviction_prefix toFree freeTime now m c m1 used m' c' freed :
  detectImages dk freeTime now m c = (m1, used, None) →
  Forall (λ e, 0 ≤ ir_size (ei_record e))%Z (eviction_list (im_records m1)) →
  (sizes (eviction_list (im_records m1)) < 2 ^ 63)%Z →
  freeSpace dk toFree freeTime now m c = (m', c', inr freed) →
  ∃ tried left removed,
    Forall (λ e, im_records m1 !! ei_id e = Some (ei_record e) ∧
                 evictable (im_policy m1) freeTime used (ei_id e) (ei_record e)) (tried ++ left) ∧
    (∀ id r, im_records m1 !! id = Some r → evictable (im_policy m1) freeTime used id r → mkEviction id r ∈ tried ++ left) ∧
    StronglySorted (λ x y, eviction_less y x = false) (tried ++ left) ∧
    attempts tried c = (c', removed) ∧ im_records m' = without_images removed (im_records m1) ∧
    freed = sizes removed ∧ (left ≠ [] → toFree ≤ freed)%Z ∧
    (∀ l x, removed = l ++ [x] → l = [] ∨ (sizes l < toFree)%Z).
Proof.
  intros Hdet Hpos Hsum. unfold freeSpace. rewrite Hdet.
  destruct (free_loop dk _ _ _ _ _ _ c) as [[records fr] c1] eqn:E. intros [= <- <- <-].
  pose proof (eviction_order_perm used (im_records m1)) as Hperm. set (order := eviction_order used (im_records m1)) in *.
  assert (Forall (λ e, 0 ≤ ir_size (ei_record e))%Z order ∧ (sizes order ≤ sizes (eviction_list (im_records m1)))%Z) as [Hpos' Hsum'].
  { assert (fmap (λ '(id, r), mkEviction id r) (filter (λ '(id, _), isImageUsed id used = false) (map_to_list (im_records m1)))
      `sublist_of` eviction_list (im_records m1)) as Hsub by (apply sublist_map, sublist_filter).
    split; [|rewrite (sizes_perm _ _ Hperm); by apply sizes_sublist].
    rewrite Hperm. rewrite Forall_forall in *. intros e He. apply Hpos. by eapply elem_of_sublist. }
  apply free_loop_prefix in E as (tried & left & removed & Hlist & Ha & -> & -> & Hleft & Hmin); [|done|lia|lia].
  assert (∀ e, e ∈ tried ++ left ↔ im_records m1 !! ei_id e = Some (ei_record e) ∧
    evictable (im_policy m1) freeTime used (ei_id e) (ei_record e)) as Hmem.
  { intros [id r]. rewrite <- Hlist, list_elem_of_filter, Hperm, list_elem_of_fmap. simpl. split.
    - intros [Hsp ([id' r'] & [= -> ->] & Hin)]. apply list_elem_of_filter in Hin as [Hu Hin].
      apply elem_of_map_to_list in Hin. split; [done|]. split; [by apply bool_decide_eq_false in Hu|].
      by apply (proj1 (spared_evictable _ _ id' _)).
    - intros (Hr & Hu & Hsp). split; [by apply spared_evictable|]. exists (id, r). split; [done|]. apply list_elem_of_filter.
      split; [by apply bool_decide_eq_false|]. by apply elem_of_map_to_list. }
  exists tried, left, removed. split; [apply Forall_forall; intros e He; by apply Hmem|].
  split; [intros id r Hr Hev; by apply Hmem|]. split.
  { rewrite <- Hlist. apply sorted_filter. apply sort_slice_sorted, eviction_less_weak. }
  split; [done|]. split; [done|]. split; [done|]. split; [done|]. intros l x ->.
  destruct Hmin as [(z & l' & [-> ->]%app_inj_tail & Hz)|[z Hz]]; [by destruct l|right; lia|].
  destruct l as [|y l]; [by left|]. by destruct l.
Qed.

(** As long as a hundred times the capacity fits an int64, what a
    collection wants to free is what the lower threshold lacks; when it then
    reports success it has removed images of at least that size, so that the disk
    is used up to the lower threshold at most, but for less than one byte. *)
Theorem gc_reaches_low freeTime now m c m' c' fs dir :
  match dk_root dk c with inr d => d | inl _ => "/var/lib/docker"%string end = dir →
  dk_usage dk dir c = inr fs → (0 < fs_Total fs)%Z → (0 ≤ fs_Free fs)%Z → (fs_Total fs * 100 < 2 ^ 63)%Z →
  (0 ≤ LowThresholdPercent (im_policy m) ≤ 100)%Z → (HighThresholdPercent (im_policy m) ≤ fs_UsedPercent fs)%Z →
  GarbageCollect dk freeTime now m c = (m', c', None) →
  let available := Z.min (fs_Free fs) (fs_Total fs) in
  let amount := (fs_Total fs * (100 - LowThresholdPercent (im_policy m)) / 100 - available)%Z in
  ∃ freed, freeSpace dk amount freeTime now m c = (m', c', inr freed) ∧ (amount ≤ freed)%Z ∧
    ((fs_Total fs - (available + freed)) * 100 < fs_Total fs * LowThresholdPercent (im_policy m) + 100)%Z.
Proof.
  intros Hdir Hu Ht Hf Hb Hlow Hhigh. unfold GarbageCollect. rewrite Hdir, Hu.
  rewrite decide_False by lia. rewrite decide_True by done. set (low := LowThresholdPercent (im_policy m)) in *.
  set (cap := fs_Total fs) in *. set (available := Z.min (fs_Free fs) cap).
  assert (amount_to_free (im_policy m) cap available = cap * (100 - low) / 100 - available)%Z as ->.
  { unfold amount_to_free. fold low.
    assert (0 ≤ cap * (100 - low) ≤ cap * 100)%Z as Hm by nia.
    assert (0 ≤ cap * (100 - low) / 100 ≤ cap)%Z as Hd.
    { split; [apply Z.div_pos; lia|]. apply Z.div_le_upper_bound; lia. }
    rewrite !(int64_small cap), (int64_small (100 - low)), (int64_small (cap * (100 - low))), (int64_small available)
      by (unfold in_int64; lia).
    rewrite Z.quot_div_nonneg by lia. apply int64_small. unfold in_int64. lia. }
  destruct (freeSpace dk _ _ _ _ _) as [[m1 c1] [e|freed]]; [done|]. destruct (decide _) as [|Hle]; [done|].
  intros [= <- <-]. exists freed. split; [done|]. split; [lia|].
  pose proof (Z_div_mod_eq_full (cap * (100 - low)) 100). pose proof (Z.mod_pos_bound (cap * (100 - low)) 100). lia.
Qed.

(** *** Detection *)

Lemma note_images_lookup detectTime now used l records id :
  let records' := foldl (note_image detectTime now used) records l in
  match records' !! id with
  | None => records !! id = None ∧ id ∉ l.*1
  | Some r =>
    if decide (id ∈ l.*1) then
      ir_firstDetected r = match records !! id with Some o => ir_firstDetected o | None => detectTime end ∧
      ir_lastUsed r = (if isImageUsed id used then now else match records !! id with Some o => ir_lastUsed o | None => zero_time end) ∧
      (id, ir_size r) ∈ l
    else records !! id = Some r
  end.
Proof.
  clear H0 H.
  induction l as [|[i n] l IH] using rev_ind; cbn zeta.
  { cbn [foldl]. destruct (records !! id); [|split; [done|apply not_elem_of_nil]].
    destruct (decide (id ∈ ([] : list (string * Z)).*1)) as [Hin|]; [by apply not_elem_of_nil in Hin|done]. }
  rewrite foldl_app. simpl in *. set (m0 := foldl _ records l) in *. unfold note_image at 1. simpl.
  rewrite fmap_app. simpl. destruct (decide (id = i)) as [->|Hn].
  - rewrite lookup_insert_eq. rewrite decide_True by set_solver.
    destruct (m0 !! i) as [r|]; simpl.
    + destruct (decide (i ∈ l.*1)).
      * destruct IH as (H1 & H2 & H3). destruct (isImageUsed i used); simpl; (split; [done|]; split; [done|]; set_solver).
      * rewrite IH. destruct (isImageUsed i used); simpl; (split; [done|]; split; [done|]; set_solver).
    + destruct IH as [-> _]. destruct (isImageUsed i used); simpl; (split; [done|]; split; [done|]; set_solver).
  - rewrite lookup_insert_ne by done. destruct (m0 !! id) as [r|].
    + destruct (decide (id ∈ l.*1)) as [Hin|Hin].
      * rewrite decide_True by set_solver. destruct IH as (H1 & H2 & H3). split; [done|]. split; [done|]. set_solver.
      * by rewrite decide_False by set_solver.
    + destruct IH as [H1 H2]. split; [done|]. set_solver.
Qed.

(** After a detection the records are those of the images that
    exist, with a size that was listed; an image keeps the time at which it
    was first seen, and what is in use is recorded as used now. *)
Theorem detection_tracks detectTime now m c m1 used images :
  dk_list dk c = inr images → detectImages dk detectTime now m c = (m1, used, None) →
  (∀ id, is_Some (im_records m1 !! id) ↔ id ∈ images.*1) ∧
  (∀ id r, im_records m1 !! id = Some r →
     (id, ir_size r) ∈ images ∧ (id ∈ used → ir_lastUsed r = now) ∧
     match im_records m !! id with
     | Some o => ir_firstDetected r = ir_firstDetected o ∧ (id ∉ used → ir_lastUsed r = ir_lastUsed o)
     | None => ir_firstDetected r = detectTime ∧ (id ∉ used → ir_lastUsed r = zero_time)
     end).
Proof.
  clear H0 H.
  intros Hl. unfold detectImages. rewrite Hl. intros [= <- <-]. simpl.
  set (used := images_in_use dk m c). pose proof (note_images_lookup detectTime now used images (im_records m)) as Hlk. split.
  - intros id. rewrite map_lookup_filter. specialize (Hlk id). simpl in Hlk. split.
    + intros [r Hr]. destruct (foldl _ _ _ !! id) as [r'|]; [|done]. simpl in Hr. apply bind_Some in Hr as [Hin _].
      by apply elem_of_list_to_set in Hin.
    + intros Hin. destruct (foldl _ _ _ !! id) as [r'|]; [|by destruct Hlk]. simpl.
      rewrite option_guard_True; [by eexists|]. by apply elem_of_list_to_set.
  - intros id r Hr. apply map_lookup_filter_Some in Hr as [Hr Hin]. apply elem_of_list_to_set in Hin.
    specialize (Hlk id). simpl in Hlk. rewrite Hr, decide_True in Hlk by done. destruct Hlk as (H1 & H2 & H3).
    split; [done|]. unfold isImageUsed in H2. split.
    + intros Hu. by rewrite bool_decide_eq_true_2 in H2.
    + destruct (im_records m !! id) as [o|]; (split; [done|]); intros Hu; by rewrite bool_decide_eq_false_2 in H2.
Qed.
End eviction.

(** ** Examples *)

(** An engine with a list of images. *)
Definition demo_docker : Docker (list (string * Z)) := {|
  dk_inspect image c := if decide (image ∈ c.*1) then inr image else inl (EMsg "No such image");
  dk_list c := inr c;
  dk_remove image c := (filter (λ i, i.1 ≠ image) c, None);
  dk_root c := inl (EMsg "docker info");
  dk_usage dir c := inr (mkFsStats 100 1000 90)
|}.
Definition demo_images : list (string * Z) := [("old", 300%Z); ("older", 200%Z); ("used", 500%Z); ("young", 900%Z)]%string.
Definition demo_gc : gc_manager := mkGCManager
  {["old"%string := mkImageRecord 0 50 300; "older"%string := mkImageRecord 0 40 200; "young"%string := mkImageRecord 90 30 900]}
  (mkGCPolicy 80 70 20) true "used" [].

Lemma demo_detection : ∃ m1, detectImages demo_docker 100 101 demo_gc demo_images = (m1, {["used"%string]}, None) ∧
  im_records m1 = {["old"%string := mkImageRecord 0 50 300; "older"%string := mkImageRecord 0 40 200;
                    "young"%string := mkImageRecord 90 30 900; "used"%string := mkImageRecord 100 101 500]}.
Proof. eexists. split; [reflexivity|]. vm_compute. reflexivity. Qed.

Lemma demo_freed : ∃ m', freeSpace (H := ref_runtime) demo_docker 150 100 101 demo_gc demo_images =
  (m', [("old", 300%Z); ("used", 500%Z); ("young", 900%Z)]%string, inr 200%Z).
Proof. eexists. vm_compute. reflexivity. Qed.

(** Freeing 150 bytes removes the image that was used least recently. *)
Lemma eviction_prefix_witness : ∃ tried removed,
  attempts demo_docker tried demo_images = ([("old", 300%Z); ("used", 500%Z); ("young", 900%Z)]%string, removed) ∧
  sizes removed = 200%Z.
Proof.
  destruct demo_detection as (m1 & Ed & Hrec). destruct demo_freed as [m' Ef].
  destruct (eviction_prefix (H := ref_runtime) (H0 := ref_runtime_laws) demo_docker 150 100 101 demo_gc demo_images
    m1 _ m' [("old", 300%Z); ("used", 500%Z); ("young", 900%Z)]%string 200 Ed) as (tried & left & removed & _ & _ & _ & Ha & _ & Hsz & _).
  - rewrite Hrec. vm_compute. repeat constructor; discriminate.
  - rewrite Hrec. vm_compute. reflexivity.
  - exact Ef.
  - exists tried, removed. split; [exact Ha|]. symmetry. exact Hsz.
Defined.

Lemma gc_reaches_low_witness : ∃ m' c' freed,
  GarbageCollect (H := ref_runtime) demo_docker 100 101 demo_gc demo_images = (m', c', None) ∧
  (200 ≤ freed)%Z ∧ ((1000 - (100 + freed)) * 100 < 70100)%Z.
Proof.
  assert (∃ m' c', GarbageCollect (H := ref_runtime) demo_docker 100 101 demo_gc demo_images = (m', c', None)) as (m' & c' & E)
    by (do 2 eexists; vm_compute; reflexivity).
  destruct (gc_reaches_low (H := ref_runtime) demo_docker 100 101 demo_gc demo_images m' c' (mkFsStats 100 1000 90) _
    eq_refl eq_refl) as (freed & _ & H1 & H2); [simpl; lia..|exact E|].
  exists m', c', freed. split; [exact E|]. split; [exact H1|exact H2].
Defined.

(** The image in use is recorded as used at the time of the detection. *)
Lemma detection_tracks_witness : ∃ m1 r, im_records m1 !! "used"%string = Some r ∧ ir_lastUsed r = 101%Z ∧
  is_Some (im_records m1 !! "old"%string).
Proof.
  destruct demo_detection as (m1 & Ed & Hrec). exists m1.
  destruct (detection_tracks demo_docker 100 101 demo_gc demo_images m1 _ demo_images eq_refl Ed) as [Hdom Hrest].
  destruct (proj2 (Hdom "used"%string)) as [r Hr]; [apply (bool_decide_unpack (_ ∈ _)); vm_compute; exact I|].
  exists r. split; [exact Hr|]. split; [|apply Hdom; apply (bool_decide_unpack (_ ∈ _)); vm_compute; exact I].
  apply (Hrest _ r Hr). apply elem_of_singleton. reflexivity.
Defined.
