(* ===== verification/EventLog.v ===== *)
(** * The store of event messages

    [eventlog/store]: [barrel.go], [handle_message_store.go] and the parts of
    [store.go] and [manager.go] that feed it.  Messages of an operation (an
    event) are collected in a barrel per event, handed to the database plugin
    in batches and, when they cannot be kept, to a garbage file.

    Several goroutines work on the store: receivers that insert messages,
    consumers of the channel [barrelEvent], the garbage collection of barrels
    and the one of messages.  They synchronise by a read-write lock and may block
    on the channel, so the store is a step relation over their states. *)
From S2P Require Export Prelude.

(** ** Messages and barrels *)

Record EventLogMessage := mkMsg {
  lm_EventID : string;
  lm_Step : string;
  lm_Status : string;
  lm_Message : string;
  lm_Level : string;
  lm_Time : string;
  lm_Content : option string
}.
#[export] Instance eta_EventLogMessage : Eta EventLogMessage := λ m,
  mkMsg (lm_EventID m) (lm_Step m) (lm_Status m) (lm_Message m) (lm_Level m) (lm_Time m) (lm_Content m).

Record EventBarrel := mkEventBarrel {
  eb_eventID : string;
  eb_barrel : list EventLogMessage;
  eb_persistenceBarrel : list EventLogMessage;
  eb_needPersistence : bool;
  eb_maxNumber : Z;
  eb_cacheNumber : Z;
  eb_size : Z;
  eb_isCallback : bool;
  eb_updateTime : Z
}.
#[export] Instance eta_EventBarrel : Eta EventBarrel := λ e,
  mkEventBarrel (eb_eventID e) (eb_barrel e) (eb_persistenceBarrel e) (eb_needPersistence e)
    (eb_maxNumber e) (eb_cacheNumber e) (eb_size e) (eb_isCallback e) (eb_updateTime e).

(** [barrelEvent], a channel of 100 slices of strings. *)
Abbreviation channel := (list (list string)).
Definition barrelEvent_cap : nat := 100.
Definition has_room (ch : channel) : bool := bool_decide (length ch < barrelEvent_cap)%nat.

(** [persistence]: the messages move to the waiting queue; the command to
    save them is dropped when the channel is full. *)
Definition persistence (e : EventBarrel) (ch : channel) : EventBarrel * channel :=
  let e := e <| eb_needPersistence := true |>
             <| eb_persistenceBarrel ::= λ l, l ++ eb_barrel e |>
             <| eb_barrel := [] |> in
  (e, if has_room ch then ch ++ [["persistence"%string; eb_eventID e]] else ch).

Definition gcPersistence (e : EventBarrel) : EventBarrel :=
  e <| eb_needPersistence := true |>
    <| eb_persistenceBarrel ::= λ l, l ++ eb_barrel e |>
    <| eb_barrel := [] |>.

Definition EventBarrel_empty (e : EventBarrel) : EventBarrel :=
  e <| eb_size := 0%Z |> <| eb_eventID := ""%string |> <| eb_barrel := [] |>
    <| eb_persistenceBarrel := [] |> <| eb_needPersistence := false |> <| eb_isCallback := false |>.

(** [analysis] up to the send that may block, which is returned. *)
Definition analysis (m : EventLogMessage) (e : EventBarrel) (ch : channel)
    : EventBarrel * channel * option (list string) :=
  if decide (lm_Step m = "last" ∨ lm_Step m = "callback")%string then
    let '(e, ch) := persistence e ch in
    (e, ch, Some ["callback"%string; eb_eventID e; lm_Status m; lm_Message m])
  else if decide (lm_Step m = "code-version"%string) then
    (e, ch, Some ["code-version"%string; eb_eventID e; lm_Message m])
  else (e, ch, None).

(** [insert] in two parts, before and after the send of [analysis]. *)
Inductive insert_next :=
  | Return (err : option error)
  | Sending (event : option (list string)).

Definition too_many : error := EMsg "received message number more than peer event max message number".

(** The tests of [insert]: why the message is not kept, if it is not. *)
Definition insert_refuses (m : EventLogMessage) (e : EventBarrel) : option (option error) :=
  if decide (eb_maxNumber e < eb_size e)%Z then Some (Some too_many)
  else if decide (lm_Step m = "progress"%string) then Some None
  else None.

(** [e.barrel = append(e.barrel, m)] reads the slice, [l], before it stores the
    longer one; what follows, up to the send of [analysis]. *)
Definition insert_append (m : EventLogMessage) (l : list EventLogMessage) (e : EventBarrel) (ch : channel)
    : EventBarrel * channel * option (list string) :=
  analysis m (e <| eb_barrel := l ++ [m] |> <| eb_size ::= Z.succ |>) ch.

(** Both, for a barrel nobody else has. *)
Definition insert_head (m : EventLogMessage) (e : EventBarrel) (ch : channel)
    : EventBarrel * channel * insert_next :=
  match insert_refuses m e with
  | Some err => (e, ch, Return err)
  | None => let '(e, ch, ev) := insert_append m (eb_barrel e) e ch in (e, ch, Sending ev)
  end.

Definition insert_tail (now : Z) (e : EventBarrel) (ch : channel) : EventBarrel * channel :=
  let '(e, ch) := if decide (eb_cacheNumber e ≤ Z.of_nat (length (eb_barrel e)))%Z
                  then persistence e ch else (e, ch) in
  (e <| eb_updateTime := now |>, ch).

(** ** The world around the store *)

(** [model.ServiceEvent], the columns used. *)
Record ServiceEvent := mkServiceEvent {
  ev_Status : string;
  ev_FinalStatus : string;
  ev_Message : string;
  ev_EndTime : string
}.
#[export] Instance eta_ServiceEvent : Eta ServiceEvent := λ e,
  mkServiceEvent (ev_Status e) (ev_FinalStatus e) (ev_Message e) (ev_EndTime e).

(** What was saved, call by call of [SaveMessage]; the text of the garbage
    file; the rows of operations. *)
Record log_world := mkLogWorld {
  lw_saved : list (list EventLogMessage);
  lw_garbageFile : string;
  lw_events : gmap string ServiceEvent
}.
#[export] Instance eta_log_world : Eta log_world := λ w,
  mkLogWorld (lw_saved w) (lw_garbageFile w) (lw_events w).

(** ** The store *)

Record handleMessageStore := mkHandleStore {
  hs_barrels : gmap string EventBarrel;
  hs_garbageMessage : list EventLogMessage;
  hs_barrelEvent : channel;
  hs_pool : list EventBarrel;
  hs_PeerEventMaxLogNumber : Z;
  hs_PeerEventMaxCacheLogNumber : Z;
  hs_size : Z;
  hs_allBarrel : Z
}.
#[export] Instance eta_handleMessageStore : Eta handleMessageStore := λ h,
  mkHandleStore (hs_barrels h) (hs_garbageMessage h) (hs_barrelEvent h) (hs_pool h)
    (hs_PeerEventMaxLogNumber h) (hs_PeerEventMaxCacheLogNumber h) (hs_size h) (hs_allBarrel h).

Definition NewHandleStore (maxLog maxCache : Z) : handleMessageStore :=
  mkHandleStore ∅ [] [] [] maxLog maxCache 0 0.

(** [pool.Get]: a barrel that was put back, or a new one. *)
Definition pool_New (h : handleMessageStore) : EventBarrel :=
  mkEventBarrel "" [] [] false (hs_PeerEventMaxLogNumber h) (hs_PeerEventMaxCacheLogNumber h) 0 false 0.

Definition pool_Get (i : option nat) (h : handleMessageStore) : EventBarrel * handleMessageStore :=
  match i with
  | Some i =>
    match hs_pool h !! i with
    | Some e => (e, h <| hs_pool ::= delete i |>)
    | None => (pool_New h, h)
    end
  | None => (pool_New h, h)
  end.

Definition InsertGarbageMessage (l : list EventLogMessage) (h : handleMessageStore) : handleMessageStore :=
  h <| hs_garbageMessage ::= λ g, g ++ l |>.

(** A call of [SaveMessage] with its outcome. *)
Definition SaveMessage (err : option error) (l : list EventLogMessage) (w : log_world) : log_world :=
  match err with None => w <| lw_saved ::= λ s, s ++ [l] |> | Some _ => w end.

Definition garbage_failed (err : option error) (l : list EventLogMessage) (h : handleMessageStore) : handleMessageStore :=
  match err with None => h | Some _ => InsertGarbageMessage l h end.

(** [persistence] of the store: a consumer saves what waits in a barrel. *)
Definition store_persistence (eventID : string) (err : option error) (h : handleMessageStore) (w : log_world)
    : handleMessageStore * log_world :=
  match hs_barrels h !! eventID with
  | Some ba =>
    if eb_needPersistence ba then
      let l := eb_persistenceBarrel ba in
      let ba := ba <| eb_persistenceBarrel := [] |> <| eb_needPersistence := false |> in
      ((garbage_failed err l h) <| hs_barrels ::= <[eventID := ba]> |>, SaveMessage err l w)
    else (h, w)
  | None => (h, w)
  end.

(** [saveBeforeGc]; the barrel is shared with the map. *)
Definition saveBeforeGc (k : string) (err : option error) (st : handleMessageStore * log_world)
    : handleMessageStore * log_world :=
  let '(h, w) := st in
  match hs_barrels h !! k with
  | Some v =>
    let v := gcPersistence v in
    let l := eb_persistenceBarrel v in
    let '(h, w) := if decide (l = []) then (h, w) else (garbage_failed err l h, SaveMessage err l w) in
    (h <| hs_barrels ::= <[k := v <| eb_persistenceBarrel := [] |>]> |>, w)
  | None => (h, w)
  end.

(** Emptied, put back into the pool and removed from the map. *)
Definition recycle (h : handleMessageStore) (id : string) : handleMessageStore :=
  match hs_barrels h !! id with
  | Some barrel => h <| hs_pool ::= cons (EventBarrel_empty barrel) |> <| hs_barrels ::= delete id |>
  | None => h
  end.

Definition seconds (n : Z) : Z := (n * 1000000000)%Z.

(** The barrels that got no message for 30 seconds. *)
Definition idle_barrels `{GoRuntime} (now : Z) (h : handleMessageStore) : list string :=
  (filter (λ '(_, v), (eb_updateTime v + seconds 30 < now)%Z) (range_order (hs_barrels h))).*1.

Definition gcRun `{GoRuntime} (now : Z) (errs : string → option error) (h : handleMessageStore) (w : log_world)
    : handleMessageStore * log_world :=
  let gcEvent := idle_barrels now h in
  let '(h, w) := foldl (λ st k, saveBeforeGc k (errs k) st) (h, w) gcEvent in
  (foldl recycle h gcEvent, w).

(** [stop] saves every barrel and keeps them in the map. *)
Definition store_stop `{GoRuntime} (errs : string → option error) (h : handleMessageStore) (w : log_world)
    : handleMessageStore * log_world :=
  foldl (λ st k, saveBeforeGc k (errs k) st) (h, w) (range_order (hs_barrels h)).*1.

(** [saveGarbageMessage]: a line per message that has a content; the messages
    go even when the file could not be written. *)
Definition newline : string := String (Ascii.ascii_of_nat 10) "".

Definition garbage_line (m : EventLogMessage) : string :=
  match lm_Content m with
  | Some _ => "(" +:+ lm_Step m +:+ "-" +:+ lm_Level m +:+ ") " +:+ lm_Time m +:+ ": " +:+ lm_Message m +:+ newline
  | None => ""
  end.

Definition garbage_content (l : list EventLogMessage) : string := foldr (λ m s, garbage_line m +:+ s) "" l.

Definition saveGarbageMessage (err : option error) (h : handleMessageStore) (w : log_world)
    : handleMessageStore * log_world :=
  (h <| hs_garbageMessage := [] |>,
   match err with
   | None => w <| lw_garbageFile ::= λ f, f +:+ garbage_content (hs_garbageMessage h) |>
   | Some _ => w
   end).

(** What [handleBarrelEvent] does for a callback, given the outcome of the update. *)
Definition handle_callback (eventID status message endTime : string) (err : option error) (w : log_world) : log_world :=
  match lw_events w !! eventID with
  | None => w
  | Some event =>
    let final := if str_contains (ev_FinalStatus event) "empty" then "emptycomplete"%string else "complete"%string in
    let event := event <| ev_Status := status |> <| ev_FinalStatus := final |>
                       <| ev_Message := message |> <| ev_EndTime := endTime |> in
    match err with None => w <| lw_events ::= <[eventID := event]> |> | Some _ => w end
  end.

(** [GetHistoryMessage] dereferences the barrel before it knows that there is one. *)
Definition GetHistoryMessage (eventID : string) (length : Z) (h : handleMessageStore) : result (list string) :=
  match hs_barrels h !! eventID with
  | None => Panic
  | Some b =>
    let re := (λ m, default ""%string (lm_Content m)) <$> eb_barrel b in
    if decide (length < Z.of_nat (List.length re) ∧ length ≠ 0)%Z then
      if decide (0 ≤ length - 1)%Z then Ok (take (Z.to_nat (length - 1)) re) else Panic
    else Ok re
  end.

(** ** Goroutines

    A receiver is idle, found no barrel for its message and is about to ask for
    the write lock, is inside the read lock and has read the slice of the barrel it
    appends to, or is blocked in the send of [analysis]: holding the read lock,
    or the write lock with a barrel that is not in the map yet.  The read lock is
    shared: between the read of a slice and its store other receivers may append. *)
Inductive receiver :=
  | Idle
  | Missing (m : EventLogMessage)
  | Appending (m : EventLogMessage) (l : list EventLogMessage)
  | BlockedRead (id : string) (event : list string)
  | BlockedWrite (b : EventBarrel) (m : EventLogMessage) (event : list string).

(** A consumer waits for an event, or has taken a command to save a barrel
    and needs the read lock for it. *)
Inductive consumer := Ready | Saving (id : string).

(** Who has called [Lock]: [RWMutex] lets one writer at a time announce
    itself, and admits no reader until it is done. *)
Inductive writer := ByReceiver (t : nat) | ByGc | ByStop.

(** History variables: nothing reads them. *)
Record history := mkHistory {
  hi_received : list EventLogMessage;
  hi_flushed : list EventLogMessage;
  hi_discarded : list EventLogMessage;
  hi_overwritten : list EventLogMessage
}.
#[export] Instance eta_history : Eta history := λ h,
  mkHistory (hi_received h) (hi_flushed h) (hi_discarded h) (hi_overwritten h).

Record log_system := mkLogSystem {
  ls_store : handleMessageStore;
  ls_world : log_world;
  ls_receivers : list receiver;
  ls_consumers : list consumer;
  ls_writer : option writer;
  ls_history : history
}.
#[export] Instance eta_log_system : Eta log_system := λ s,
  mkLogSystem (ls_store s) (ls_world s) (ls_receivers s) (ls_consumers s) (ls_writer s) (ls_history s).

#[export] Instance writer_eq_dec : EqDecision writer.
Proof. solve_decision. Defined.

Definition reads (r : receiver) : bool := match r with Appending _ _ | BlockedRead _ _ => true | _ => false end.

(** [RLock] succeeds when no writer waits or works; [Lock] once no reader is left. *)
Definition may_read (s : log_system) : bool := bool_decide (ls_writer s = None).
Definition may_write (who : writer) (s : log_system) : bool :=
  bool_decide (ls_writer s = Some who) && negb (existsb reads (ls_receivers s)).

(** ** Steps

    The choices of a step that the code does not make are arguments of its
    label: the time, the outcome of a call, which barrel the pool gives. *)
Inductive label :=
  | LReceive (t : nat) (m : EventLogMessage)
  | LAppend (t : nat) (now : Z)
  | LSent (t : nat) (now : Z)
  | LAnnounce (who : writer)
  | LCreate (t : nat) (pooled : option nat) (now : Z)
  | LEvent (c : nat) (endTime : string) (err : option error)
  | LSave (c : nat) (err : option error)
  | LGc (now : Z) (errs : string → option error)
  | LStop (errs : string → option error)
  | LFlush (err : option error).

Definition set_receiver (t : nat) (r : receiver) (s : log_system) : log_system := s <| ls_receivers ::= <[t := r]> |>.
Definition set_channel (ch : channel) (s : log_system) : log_system := s <| ls_store ::= λ h, h <| hs_barrelEvent := ch |> |>.
Definition put_barrel (id : string) (e : EventBarrel) (s : log_system) : log_system :=
  s <| ls_store ::= λ h, h <| hs_barrels ::= <[id := e]> |> |>.
Definition record (f : history → history) (s : log_system) : log_system := s <| ls_history ::= f |>.

(** A message that [insert] did not keep: the caller puts it into the
    garbage when there was an error. *)
Definition refuse (err : option error) (m : EventLogMessage) (s : log_system) : log_system :=
  match err with
  | Some _ => s <| ls_store ::= InsertGarbageMessage [m] |>
  | None => record (λ h, h <| hi_discarded ::= λ l, l ++ [m] |>) s
  end.

Definition content (e : EventBarrel) : list EventLogMessage := eb_persistenceBarrel e ++ eb_barrel e.

(** The end of [InsertMessage] for a new barrel: it replaces what the map has. *)
Definition publish (t : nat) (id : string) (e : EventBarrel) (s : log_system) : log_system :=
  let old := match hs_barrels (ls_store s) !! id with Some e => content e | None => [] end in
  let s := put_barrel id e (record (λ h, h <| hi_overwritten ::= λ l, l ++ old |>) s) in
  set_receiver t Idle (s <| ls_store ::= λ h, h <| hs_allBarrel ::= Z.succ |> |> <| ls_writer := None |>).

(** [insertMessage] up to the read of the slice or, when there is no barrel, its
    return to [InsertMessage]. *)
Definition receive (t : nat) (m : EventLogMessage) (s : log_system) : option log_system :=
  match ls_receivers s !! t with
  | Some Idle =>
    if decide (lm_EventID m = ""%string) then Some s
    else if may_read s then
      let s := record (λ h, h <| hi_received ::= λ l, l ++ [m] |>) (s <| ls_store ::= λ h, h <| hs_size ::= Z.succ |> |>) in
      match hs_barrels (ls_store s) !! lm_EventID m with
      | None => Some (set_receiver t (Missing m) s)
      | Some e =>
        match insert_refuses m e with
        | Some err => Some (refuse err m s)
        | None => Some (set_receiver t (Appending m (eb_barrel e)) s)
        end
      end
    else None
  | _ => None
  end.

(** The slice is stored, and [insert] goes on as far as it can. *)
Definition store_append (t : nat) (now : Z) (s : log_system) : option log_system :=
  match ls_receivers s !! t with
  | Some (Appending m l) =>
    e ← hs_barrels (ls_store s) !! lm_EventID m;
    let '(e, ch, ev) := insert_append m l e (hs_barrelEvent (ls_store s)) in
    match ev with
    | None =>
      let '(e, ch) := insert_tail now e ch in
      Some (set_receiver t Idle (put_barrel (lm_EventID m) e (set_channel ch s)))
    | Some ev => Some (set_receiver t (BlockedRead (lm_EventID m) ev) (put_barrel (lm_EventID m) e (set_channel ch s)))
    end
  | _ => None
  end.

(** The rest of [InsertMessage], under the write lock. *)
Definition create (t : nat) (pooled : option nat) (now : Z) (s : log_system) : option log_system :=
  match ls_receivers s !! t with
  | Some (Missing m) =>
    if may_write (ByReceiver t) s then
      let '(b, h) := pool_Get pooled (ls_store s) in
      let s := s <| ls_store := h |> in
      let '(b, ch, next) := insert_head m (b <| eb_eventID := lm_EventID m |>) (hs_barrelEvent h) in
      match next with
      | Return err => Some (publish t (lm_EventID m) b (refuse err m s))
      | Sending None =>
        let '(b, ch) := insert_tail now b ch in
        Some (publish t (lm_EventID m) b (set_channel ch s))
      | Sending (Some ev) => Some (set_receiver t (BlockedWrite b m ev) (set_channel ch s))
      end
    else None
  | _ => None
  end.

(** The send of [analysis] goes through and [insert] goes on. *)
Definition sent (t : nat) (now : Z) (s : log_system) : option log_system :=
  let ch := hs_barrelEvent (ls_store s) in
  if has_room ch then
    match ls_receivers s !! t with
    | Some (BlockedRead id ev) =>
      e ← hs_barrels (ls_store s) !! id;
      let '(e, ch) := insert_tail now e (ch ++ [ev]) in
      Some (set_receiver t Idle (put_barrel id e (set_channel ch s)))
    | Some (BlockedWrite b m ev) =>
      let '(b, ch) := insert_tail now b (ch ++ [ev]) in
      Some (publish t (lm_EventID m) b (set_channel ch s))
    | _ => None
    end
  else None.

Definition announce (who : writer) (s : log_system) : option log_system :=
  if decide (ls_writer s = None) then
    match who with
    | ByReceiver t =>
      match ls_receivers s !! t with Some (Missing _) => Some (s <| ls_writer := Some who |>) | _ => None end
    | _ => Some (s <| ls_writer := Some who |>)
    end
  else None.

(** [handleBarrelEvent] takes an event. *)
Definition take_event (c : nat) (endTime : string) (err : option error) (s : log_system) : option log_system :=
  match ls_consumers s !! c, hs_barrelEvent (ls_store s) with
  | Some Ready, event :: ch =>
    let s := set_channel ch s in
    Some match event with
    | [kind; id] => if decide (kind = "persistence"%string) then s <| ls_consumers ::= <[c := Saving id]> |> else s
    | [kind; id; status; message] =>
      if decide (kind = "callback"%string) then s <| ls_world ::= handle_callback id status message endTime err |> else s
    | _ => s
    end
  | _, _ => None
  end.

Definition on_store (f : handleMessageStore → log_world → handleMessageStore * log_world) (s : log_system) : log_system :=
  let '(h, w) := f (ls_store s) (ls_world s) in s <| ls_store := h |> <| ls_world := w |>.

Definition save_event (c : nat) (err : option error) (s : log_system) : option log_system :=
  match ls_consumers s !! c with
  | Some (Saving id) =>
    if may_read s then Some (on_store (store_persistence id err) (s <| ls_consumers ::= <[c := Ready]> |>)) else None
  | _ => None
  end.

Definition flush (err : option error) (s : log_system) : log_system :=
  record (λ h, h <| hi_flushed ::= λ l, l ++ hs_garbageMessage (ls_store s) |>) (on_store (saveGarbageMessage err) s).

Definition step `{GoRuntime} (l : label) (s : log_system) : option log_system :=
  match l with
  | LReceive t m => receive t m s
  | LAppend t now => store_append t now s
  | LSent t now => sent t now s
  | LAnnounce who => announce who s
  | LCreate t pooled now => create t pooled now s
  | LEvent c endTime err => take_event c endTime err s
  | LSave c err => save_event c err s
  | LGc now errs =>
    if may_write ByGc s
    then Some (on_store (gcRun now errs) (s <| ls_store ::= λ h, h <| hs_size := 0%Z |> |> <| ls_writer := None |>)) else None
  | LStop errs =>
    if may_write ByStop s then Some (on_store (store_stop errs) (s <| ls_writer := None |>)) else None
  | LFlush err => Some (flush err s)
  end.

Fixpoint steps `{GoRuntime} (ls : list label) (s : log_system) : option log_system :=
  match ls with
  | [] => Some s
  | l :: ls' => s' ← step l s; steps ls' s'
  end.

(** [receivers] goroutines of [handleReceiveMessage] and the three consumers,
    two started by [NewStore] and one by [Run]. *)
Definition start_system (maxLog maxCache : Z) (receivers : nat) (events : gmap string ServiceEvent) : log_system :=
  mkLogSystem (NewHandleStore maxLog maxCache) (mkLogWorld [] "" events) (replicate receivers Idle)
    (replicate 3 Ready) None (mkHistory [] [] [] []).

(** The defaults of the command line ([cmd/eventlog/server]). *)
Definition default_system : log_system := start_system 100000 256 2 ∅.
