(* ===== verification/EventLogSpec.v ===== *)
(** * Theorems about the store of event messages

    With one receiver no message disappears, the messages of an event keep their
    order and barrels stay within bounds; two receivers race for the creation of a
    barrel and for every append to it, which loses and doubles messages; and the
    blocking sends allow a deadlock. *)
From S2P Require Import EventLog.

#[global] Instance msg_eq_dec : EqDecision EventLogMessage.
Proof. solve_decision. Defined.

(** ** Counting messages *)

(** How often a message occurs; permutations are equalities of counts. *)
Definition occ (x : EventLogMessage) (l : list EventLogMessage) : nat := count_occ msg_eq_dec l x.
Arguments occ : simpl never.

Lemma occ_app x l1 l2 : occ x (l1 ++ l2) = occ x l1 + occ x l2.
Proof. apply count_occ_app. Qed.
Lemma occ_nil x : occ x [] = 0.
Proof. done. Qed.
Lemma occ_perm x l1 l2 : l1 ≡ₚ l2 → occ x l1 = occ x l2.
Proof. intros Hl. by apply (Permutation_count_occ msg_eq_dec). Qed.
Lemma perm_occ l1 l2 : (∀ x, occ x l1 = occ x l2) → l1 ≡ₚ l2.
Proof. intros Hl. by apply (Permutation_count_occ msg_eq_dec). Qed.

(** Sums over the entries of a map and over the goroutines. *)
Definition stored (m : gmap string EventBarrel) : list EventLogMessage := concat (content <$> (map_to_list m).*2).

Lemma stored_perm (l1 l2 : list (string * EventBarrel)) x :
  l1 ≡ₚ l2 → occ x (concat (content <$> l1.*2)) = occ x (concat (content <$> l2.*2)).
Proof. intros Hl. apply occ_perm. by rewrite Hl. Qed.

Lemma stored_insert m id e x : occ x (stored (<[id := e]> m)) = occ x (content e) + occ x (stored (delete id m)).
Proof.
  unfold stored. rewrite <- insert_delete_eq.
  rewrite (stored_perm _ ((id, e) :: map_to_list (delete id m))).
  - simpl. by rewrite occ_app.
  - apply map_to_list_insert, lookup_delete_eq.
Qed.

Lemma stored_lookup m id e x :
  m !! id = Some e → occ x (stored m) = occ x (content e) + occ x (stored (delete id m)).
Proof. intros He. rewrite <- (insert_id m id e He) at 1. apply stored_insert. Qed.

Lemma stored_fresh m id : m !! id = None → stored (delete id m) = stored m.
Proof. intros Hm. by rewrite delete_id. Qed.

(** What a receiver holds. *)
Definition in_hand (r : receiver) : list EventLogMessage :=
  match r with Missing m | Appending m _ => [m] | BlockedWrite b _ _ => content b | _ => [] end.

Definition in_flight (rs : list receiver) : list EventLogMessage := concat (in_hand <$> rs).

Lemma in_flight_set rs t r r' x : rs !! t = Some r →
  occ x (in_flight (<[t := r']> rs)) + occ x (in_hand r) = occ x (in_flight rs) + occ x (in_hand r').
Proof.
  unfold in_flight. revert t. induction rs as [|r0 rs IH]; intros [|t] Hr; try discriminate Hr.
  - injection Hr as ->. change (<[0 := r']> (r :: rs)) with (r' :: rs).
    rewrite !fmap_cons. cbn [concat]. rewrite !occ_app. lia.
  - change (<[S t := r']> (r0 :: rs)) with (r0 :: <[t := r']> rs).
    rewrite !fmap_cons. cbn [concat]. rewrite !occ_app. specialize (IH t Hr). lia.
Qed.

(** ** Barrels *)

Lemma content_persistence e ch : content (persistence e ch).1 = content e.
Proof. unfold content. simpl. by rewrite app_nil_r. Qed.

Lemma content_gcPersistence e : eb_persistenceBarrel (gcPersistence e) = content e.
Proof. done. Qed.

Lemma analysis_content m e ch e' ch' ev : analysis m e ch = (e', ch', ev) → content e' = content e.
Proof.
  unfold analysis. split_decide; intros [= <- <- <-]; [|done|done]. apply (content_persistence _ ch).
Qed.

Lemma insert_append_keeps m l e ch e' ch' ev :
  insert_append m l e ch = (e', ch', ev) → content e' = eb_persistenceBarrel e ++ l ++ [m].
Proof. intros E. by rewrite (analysis_content _ _ _ _ _ _ E). Qed.

Lemma insert_head_keeps m e ch e' ch' ev :
  insert_head m e ch = (e', ch', Sending ev) → content e' = content e ++ [m].
Proof.
  unfold insert_head. destruct (insert_refuses m e); [done|].
  destruct (insert_append m _ e ch) as [[e1 ch1] ev1] eqn:E. intros [= <- <- <-].
  rewrite (insert_append_keeps _ _ _ _ _ _ _ E). apply app_assoc.
Qed.

Lemma insert_refuses_progress m e : insert_refuses m e = Some None → lm_Step m = "progress"%string.
Proof. unfold insert_refuses. by split_decide. Qed.

Lemma insert_refuses_size m e : insert_refuses m e = None → (eb_size e ≤ eb_maxNumber e)%Z.
Proof. unfold insert_refuses. split_decide; try done. lia. Qed.

Lemma insert_head_returns m e ch e' ch' err : insert_head m e ch = (e', ch', Return err) →
  e' = e ∧ ch' = ch ∧ (err = None → lm_Step m = "progress"%string).
Proof.
  unfold insert_head. destruct (insert_refuses m e) as [o|] eqn:E.
  - intros [= <- <- <-]. split; [done|]. split; [done|]. intros ->. by eapply insert_refuses_progress.
  - destruct (insert_append m _ e ch) as [[e1 ch1] ev1]. discriminate.
Qed.

Lemma insert_tail_keeps now e ch e' ch' : insert_tail now e ch = (e', ch') → content e' = content e.
Proof. unfold insert_tail. split_decide; intros [= <- <-]; [apply (content_persistence e ch)|done]. Qed.

(** ** Saving *)

(** What the store and the plugin have of a message. *)
Definition kept (h : handleMessageStore) (w : log_world) (x : EventLogMessage) : nat :=
  occ x (concat (lw_saved w)) + occ x (hs_garbageMessage h) + occ x (stored (hs_barrels h)).

Lemma kept_save err l h w x :
  kept (garbage_failed err l h) (SaveMessage err l w) x = kept h w x + occ x l.
Proof.
  destruct err; unfold kept; simpl; [rewrite occ_app; lia|].
  rewrite concat_app. simpl. rewrite app_nil_r, occ_app. lia.
Qed.

Lemma kept_put h w id e x : 
  kept (h <| hs_barrels ::= <[id := e]> |>) w x + occ x (stored (hs_barrels h)) =
  kept h w x + occ x (content e) + occ x (stored (delete id (hs_barrels h))).
Proof. unfold kept. simpl. rewrite stored_insert. lia. Qed.

Lemma garbage_failed_barrels err l h : hs_barrels (garbage_failed err l h) = hs_barrels h.
Proof. by destruct err. Qed.

Lemma kept_persistence id err h w x :
  kept (store_persistence id err h w).1 (store_persistence id err h w).2 x = kept h w x.
Proof.
  unfold store_persistence. destruct (hs_barrels h !! id) as [ba|] eqn:E; [|done].
  destruct (eb_needPersistence ba); [|done]. cbn [fst snd].
  set (b := ba <| eb_persistenceBarrel := [] |> <| eb_needPersistence := false |>).
  pose proof (kept_put (garbage_failed err (eb_persistenceBarrel ba) h) (SaveMessage err (eb_persistenceBarrel ba) w) id b x) as Hp.
  rewrite kept_save, garbage_failed_barrels in Hp. rewrite (stored_lookup _ _ _ x E) in Hp.
  assert (content b = eb_barrel ba) as Hb by done. rewrite Hb in Hp. unfold content in Hp.
  rewrite occ_app in Hp. lia.
Qed.

Lemma kept_saveBeforeGc k err h w x :
  kept (saveBeforeGc k err (h, w)).1 (saveBeforeGc k err (h, w)).2 x = kept h w x.
Proof.
  unfold saveBeforeGc. destruct (hs_barrels h !! k) as [v|] eqn:E; [|done].
  set (b := (gcPersistence v) <| eb_persistenceBarrel := [] |>). rewrite content_gcPersistence.
  pose proof (stored_lookup _ _ _ x E) as Hs. assert (content b = []) as Hb by done.
  case_decide as Hd; cbn [fst snd].
  - pose proof (kept_put h w k b x) as Hp. rewrite Hs, Hd, Hb in Hp. lia.
  - pose proof (kept_put (garbage_failed err (content v) h) (SaveMessage err (content v) w) k b x) as Hp.
    rewrite kept_save, garbage_failed_barrels, Hs, Hb in Hp. rewrite occ_nil in Hp. lia.
Qed.

(** Barrels without messages. *)
Definition drained (ks : list string) (h : handleMessageStore) : Prop :=
  ∀ k e, k ∈ ks → hs_barrels h !! k = Some e → content e = [].

Lemma saveBeforeGc_barrels k err h w :
  hs_barrels (saveBeforeGc k err (h, w)).1 =
  alter (λ v, (gcPersistence v) <| eb_persistenceBarrel := [] |>) k (hs_barrels h).
Proof.
  unfold saveBeforeGc. destruct (hs_barrels h !! k) as [v|] eqn:E.
  - assert (∀ v', <[k := v' v]> (hs_barrels h) = alter v' k (hs_barrels h)) as Ha.
    { intros f. apply map_eq. intros i. rewrite lookup_insert, lookup_alter. case_decide; [|done]. subst. by rewrite E. }
    rewrite <- Ha. case_decide; [done|]. simpl. by rewrite garbage_failed_barrels.
  - apply map_eq. intros i. rewrite lookup_alter. case_decide; [|done]. subst. by rewrite E.
Qed.

Lemma drained_save ks k err h w : drained ks h → drained (k :: ks) (saveBeforeGc k err (h, w)).1.
Proof.
  intros Hd k' e Hk He. rewrite saveBeforeGc_barrels, lookup_alter in He. case_decide as Hkk.
  - subst. apply fmap_Some in He as (v & Hv & ->). done.
  - apply elem_of_cons in Hk as [->|Hk]; [done|]. by eapply Hd.
Qed.

Lemma save_all_kept errs ks h w x :
  kept (foldl (λ st k, saveBeforeGc k (errs k) st) (h, w) ks).1
       (foldl (λ st k, saveBeforeGc k (errs k) st) (h, w) ks).2 x = kept h w x.
Proof.
  revert h w. induction ks as [|k ks IH]; intros h w; [done|]. cbn [foldl].
  rewrite (surjective_pairing (saveBeforeGc k (errs k) (h, w))), IH. apply kept_saveBeforeGc.
Qed.

Lemma save_all_drained errs ks ks' h w : drained ks' h →
  drained (ks' ++ ks) (foldl (λ st k, saveBeforeGc k (errs k) st) (h, w) ks).1.
Proof.
  revert h w ks'. induction ks as [|k ks IH]; intros h w ks' Hd; cbn [foldl]; [by rewrite app_nil_r|].
  rewrite (surjective_pairing (saveBeforeGc k (errs k) (h, w))).
  apply (drained_save ks' k (errs k) h w) in Hd. apply (IH _ (saveBeforeGc k (errs k) (h, w)).2) in Hd.
  intros k' e Hk. apply Hd. set_solver.
Qed.

Lemma recycle_lookup h k k' e : hs_barrels (recycle h k) !! k' = Some e → hs_barrels h !! k' = Some e.
Proof.
  unfold recycle. destruct (hs_barrels h !! k) as [b|] eqn:E; [|done]. simpl.
  rewrite lookup_delete. by case_decide.
Qed.

Lemma recycle_all_kept ks h w x : drained ks h → kept (foldl recycle h ks) w x = kept h w x.
Proof.
  revert h. induction ks as [|k ks IH]; intros h Hd; [done|]. cbn [foldl]. rewrite IH.
  - unfold recycle. destruct (hs_barrels h !! k) as [b|] eqn:E; [|done]. unfold kept. simpl.
    rewrite (stored_lookup _ _ _ x E), (Hd k b) by (by apply list_elem_of_here || done). rewrite occ_nil. lia.
  - intros k' e Hk He%recycle_lookup. apply (Hd k' e); [|done]. by apply list_elem_of_further.
Qed.

Lemma gcRun_kept `{GoRuntime} now errs h w x :
  kept (gcRun now errs h w).1 (gcRun now errs h w).2 x = kept h w x.
Proof.
  unfold gcRun. set (ks := idle_barrels now h).
  pose proof (save_all_kept errs ks h w x) as Hk.
  assert (drained ([] ++ ks) (foldl (λ st k, saveBeforeGc k (errs k) st) (h, w) ks).1) as Hd.
  { apply save_all_drained. intros k e Hk'. by apply not_elem_of_nil in Hk'. }
  destruct (foldl _ (h, w) ks) as [h' w']. simpl in *. by rewrite recycle_all_kept.
Qed.

(** ** Accounting *)

(** The pool holds barrels without messages. *)
Definition pool_clean (s : log_system) : Prop := Forall (λ e, content e = []) (hs_pool (ls_store s)).

(** Where a message that was received can be: saved, in the garbage, in a
    barrel, in the hands of a receiver, written out of the garbage, or discarded. *)
Definition whereabouts (s : log_system) : list EventLogMessage :=
  concat (lw_saved (ls_world s)) ++ hs_garbageMessage (ls_store s) ++ stored (hs_barrels (ls_store s)) ++
  in_flight (ls_receivers s) ++ hi_flushed (ls_history s) ++ hi_discarded (ls_history s).

Definition count (s : log_system) (x : EventLogMessage) : nat :=
  kept (ls_store s) (ls_world s) x + occ x (in_flight (ls_receivers s)) + occ x (hi_flushed (ls_history s)) +
  occ x (hi_discarded (ls_history s)) + occ x (hi_overwritten (ls_history s)).

Lemma count_whereabouts s x : occ x (whereabouts s ++ hi_overwritten (ls_history s)) = count s x.
Proof. unfold whereabouts, count, kept. rewrite !occ_app. lia. Qed.

(** A step accounts for what it received. *)
Definition accounts (s s' : log_system) : Prop := ∀ x,
  count s' x + occ x (hi_received (ls_history s)) = count s x + occ x (hi_received (ls_history s')).

(** The effect of the building blocks of a step. *)
Definition contents_of (o : option EventBarrel) : list EventLogMessage :=
  match o with Some e => content e | None => [] end.

Lemma stored_split m id x : occ x (stored m) = occ x (contents_of (m !! id)) + occ x (stored (delete id m)).
Proof.
  destruct (m !! id) as [e|] eqn:E; simpl; [by apply stored_lookup|]. by rewrite stored_fresh.
Qed.

Lemma count_set_receiver t r r' s x : ls_receivers s !! t = Some r →
  count (set_receiver t r' s) x + occ x (in_hand r) = count s x + occ x (in_hand r').
Proof. intros Hr. unfold count. simpl. pose proof (in_flight_set _ _ _ r' x Hr). lia. Qed.

Lemma count_put_barrel id e s x :
  count (put_barrel id e s) x + occ x (contents_of (hs_barrels (ls_store s) !! id)) = count s x + occ x (content e).
Proof.
  unfold count, kept. simpl. rewrite stored_insert, (stored_split (hs_barrels (ls_store s)) id). lia.
Qed.

Lemma count_set_channel ch s x : count (set_channel ch s) x = count s x.
Proof. done. Qed.

Lemma count_refuse err m s x : count (refuse err m s) x = count s x + occ x [m].
Proof. unfold count, kept, refuse, InsertGarbageMessage. destruct err; simpl; rewrite !occ_app; lia. Qed.

Lemma count_publish t id e r s x : ls_receivers s !! t = Some r →
  count (publish t id e s) x + occ x (in_hand r) = count s x + occ x (content e).
Proof.
  intros Hr. unfold publish.
  change (match hs_barrels (ls_store s) !! id with Some e => content e | None => [] end)
    with (contents_of (hs_barrels (ls_store s) !! id)).
  unfold count, kept. simpl.
  pose proof (in_flight_set _ _ _ Idle x Hr) as Hf. simpl in Hf. rewrite occ_nil in Hf.
  rewrite occ_app, stored_insert, (stored_split (hs_barrels (ls_store s)) id). lia.
Qed.

Lemma received_refuse err m s : hi_received (ls_history (refuse err m s)) = hi_received (ls_history s).
Proof. by destruct err. Qed.

Lemma receivers_refuse err m s : ls_receivers (refuse err m s) = ls_receivers s.
Proof. by destruct err. Qed.

Lemma pool_Get_barrel i h b h' : pool_Get i h = (b, h') → Forall (λ e, content e = []) (hs_pool h) → content b = [].
Proof.
  unfold pool_Get. destruct i as [i|]; [|by intros [= <- <-]].
  destruct (hs_pool h !! i) as [e|] eqn:E; [|by intros [= <- <-]]. intros [= <- <-] Hp.
  rewrite Forall_lookup in Hp. by eapply Hp.
Qed.

Lemma pool_Get_kept i h w b h' x : pool_Get i h = (b, h') → kept h' w x = kept h w x.
Proof.
  unfold pool_Get. destruct i as [i|]; [|by intros [= <- <-]].
  destruct (hs_pool h !! i) as [e|] eqn:E; by intros [= <- <-].
Qed.

Lemma receive_accounts t m s s' : receive t m s = Some s' → accounts s s'.
Proof.
  unfold receive. destruct (ls_receivers s !! t) as [r|] eqn:Hr; [|done]. destruct r; [|done..].
  case_decide; [by intros [= <-] x|]. destruct (may_read s); [|done].
  set (s1 := record _ _).
  assert (∀ x, count s1 x = count s x) as Hc1 by done.
  assert (hi_received (ls_history s1) = hi_received (ls_history s) ++ [m]) as Hh1 by done.
  assert (∀ r' x, in_hand r' = [m] → count (set_receiver t r' s1) x = count s x + occ x [m]) as Hset.
  { intros r' x Hm. pose proof (count_set_receiver t Idle r' s1 x Hr) as Hs.
    rewrite Hm, Hc1 in Hs. cbn [in_hand] in Hs. rewrite occ_nil in Hs. lia. }
  assert (∀ r', hi_received (ls_history (set_receiver t r' s1)) = hi_received (ls_history s) ++ [m]) as Hh2 by done.
  destruct (hs_barrels (ls_store s1) !! lm_EventID m) as [e|].
  - destruct (insert_refuses m e) as [err|]; intros [= <-] x.
    + rewrite count_refuse, Hc1, received_refuse, Hh1, occ_app. lia.
    + rewrite Hset, Hh2, occ_app by done. lia.
  - intros [= <-] x. rewrite Hset, Hh2, occ_app by done. lia.
Qed.

(** A receiver that appends has the slice the barrel still has, and there was room. *)
Definition loaded (h : handleMessageStore) (m : EventLogMessage) (l : list EventLogMessage) : Prop :=
  ∃ e, hs_barrels h !! lm_EventID m = Some e ∧ eb_barrel e = l ∧ (eb_size e ≤ eb_maxNumber e)%Z.

Lemma store_append_accounts t now s s' :
  (∀ m l, ls_receivers s !! t = Some (Appending m l) → loaded (ls_store s) m l) →
  store_append t now s = Some s' → accounts s s'.
Proof.
  unfold store_append. intros Hl. destruct (ls_receivers s !! t) as [[| |m l| |]|] eqn:Hr; try done.
  destruct (Hl m l eq_refl) as (e & He & <- & _). rewrite He. cbn [mbind option_bind].
  destruct (insert_append m _ e _) as [[e1 ch1] ev] eqn:Ei. apply insert_append_keeps in Ei.
  rewrite app_assoc in Ei. change (content e1 = content e ++ [m]) in Ei.
  assert (∀ r' e2 ch2 x, in_hand r' = [] → content e2 = content e1 →
    count (set_receiver t r' (put_barrel (lm_EventID m) e2 (set_channel ch2 s))) x = count s x) as Hset.
  { intros r' e2 ch2 x Hh H2.
    pose proof (count_set_receiver t _ r' (put_barrel (lm_EventID m) e2 (set_channel ch2 s)) x Hr) as Hs.
    pose proof (count_put_barrel (lm_EventID m) e2 (set_channel ch2 s) x) as Hp.
    change (hs_barrels (ls_store (set_channel ch2 s))) with (hs_barrels (ls_store s)) in Hp.
    rewrite He, H2, Ei, count_set_channel, occ_app in Hp. cbn [contents_of in_hand] in *.
    rewrite Hh, occ_nil in Hs. lia. }
  destruct ev as [ev|].
  - intros [= <-] x. rewrite Hset by done. done.
  - destruct (insert_tail now e1 ch1) as [e2 ch2] eqn:Et. intros [= <-] x. apply insert_tail_keeps in Et.
    rewrite Hset by done. done.
Qed.

Lemma create_accounts t pooled now s s' : pool_clean s → create t pooled now s = Some s' → accounts s s'.
Proof.
  intros Hpool. unfold create. destruct (ls_receivers s !! t) as [[|m| | |]|] eqn:Hr; try done.
  destruct (may_write (ByReceiver t) s); [|done].
  destruct (pool_Get pooled (ls_store s)) as [b h] eqn:Eg.
  pose proof (pool_Get_barrel _ _ _ _ Eg Hpool) as Hb.
  set (s1 := s <| ls_store := h |>). set (b0 := b <| eb_eventID := lm_EventID m |>).
  assert (content b0 = []) as Hb0 by done.
  assert (∀ x, count s1 x = count s x) as Hc1.
  { intros x. unfold count. by rewrite <- (pool_Get_kept _ _ (ls_world s) _ _ x Eg). }
  assert (ls_receivers s1 !! t = Some (Missing m)) as Hr1 by done.
  destruct (insert_head m b0 _) as [[b1 ch1] [err|[ev|]]] eqn:Ei.
  - intros [= <-] x. apply insert_head_returns in Ei as (-> & _ & _).
    pose proof (count_publish t (lm_EventID m) b0 (Missing m) (refuse err m s1) x) as Hp.
    rewrite receivers_refuse, count_refuse, Hc1, Hb0 in Hp. specialize (Hp Hr1). cbn [in_hand] in Hp.
    assert (hi_received (ls_history (publish t (lm_EventID m) b0 (refuse err m s1))) = hi_received (ls_history s)) as ->
      by (destruct err; done).
    rewrite occ_nil in Hp. lia.
  - intros [= <-] x. apply insert_head_keeps in Ei. rewrite Hb0 in Ei.
    pose proof (count_set_receiver t (Missing m) (BlockedWrite b1 m ev) (set_channel ch1 s1) x Hr1) as Hs.
    cbn [in_hand] in Hs. rewrite Ei, count_set_channel, Hc1 in Hs. simpl app in Hs.
    change (hi_received (ls_history (set_receiver t (BlockedWrite b1 m ev) (set_channel ch1 s1)))) with (hi_received (ls_history s)).
    lia.
  - destruct (insert_tail now b1 ch1) as [b2 ch2] eqn:Et. intros [= <-] x.
    apply insert_head_keeps in Ei. apply insert_tail_keeps in Et. rewrite Ei, Hb0 in Et.
    pose proof (count_publish t (lm_EventID m) b2 (Missing m) (set_channel ch2 s1) x Hr1) as Hp.
    rewrite Et, count_set_channel, Hc1 in Hp. simpl app in Hp. cbn [in_hand] in Hp.
    change (hi_received (ls_history (publish t (lm_EventID m) b2 (set_channel ch2 s1)))) with (hi_received (ls_history s)).
    lia.
Qed.

Lemma sent_accounts t now s s' : sent t now s = Some s' → accounts s s'.
Proof.
  unfold sent. destruct (has_room _); [|done].
  destruct (ls_receivers s !! t) as [[| | |id ev|b m ev]|] eqn:Hr; try done.
  - destruct (hs_barrels (ls_store s) !! id) as [e|] eqn:He; [|done]. simpl.
    destruct (insert_tail now e _) as [e1 ch1] eqn:Et. intros [= <-] x. apply insert_tail_keeps in Et.
    pose proof (count_set_receiver t (BlockedRead id ev) Idle (put_barrel id e1 (set_channel ch1 s)) x Hr) as Hs.
    pose proof (count_put_barrel id e1 (set_channel ch1 s) x) as Hp.
    change (hs_barrels (ls_store (set_channel ch1 s))) with (hs_barrels (ls_store s)) in Hp.
    rewrite He, Et, count_set_channel in Hp. cbn [contents_of in_hand] in *.
    change (hi_received (ls_history (set_receiver t Idle (put_barrel id e1 (set_channel ch1 s))))) with (hi_received (ls_history s)).
    rewrite !occ_nil in Hs. lia.
  - destruct (insert_tail now b _) as [b1 ch1] eqn:Et. intros [= <-] x. apply insert_tail_keeps in Et.
    pose proof (count_publish t (lm_EventID m) b1 (BlockedWrite b m ev) (set_channel ch1 s) x Hr) as Hp.
    rewrite Et, count_set_channel in Hp. cbn [in_hand] in Hp.
    change (hi_received (ls_history (publish t (lm_EventID m) b1 (set_channel ch1 s)))) with (hi_received (ls_history s)). lia.
Qed.

(** Steps that work on the store and the world only. *)
Lemma on_store_accounts f s : (∀ x, kept (f (ls_store s) (ls_world s)).1 (f (ls_store s) (ls_world s)).2 x =
  kept (ls_store s) (ls_world s) x) → accounts s (on_store f s).
Proof.
  intros Hf x. unfold on_store. specialize (Hf x). destruct (f (ls_store s) (ls_world s)) as [h w].
  unfold count. simpl in *. lia.
Qed.

Lemma step_accounts `{GoRuntime} l s s' : pool_clean s →
  (∀ t m l, ls_receivers s !! t = Some (Appending m l) → loaded (ls_store s) m l) →
  step l s = Some s' → accounts s s'.
Proof.
  intros Hpool Hload. destruct l; cbn [step].
  - apply receive_accounts.
  - apply store_append_accounts. intros m l. apply Hload.
  - apply sent_accounts.
  - unfold announce. case_decide; [|done]. destruct who as [t| |]; [|by intros [= <-] x..].
    destruct (ls_receivers s !! t) as [[]|]; try done. by intros [= <-] x.
  - by apply create_accounts.
  - unfold take_event. destruct (ls_consumers s !! c) as [[]|]; try done.
    destruct (hs_barrelEvent (ls_store s)) as [|ev ch]; [done|]. intros [= <-] x.
    destruct ev as [|k [|id [|st [|msg [|]]]]]; try done; [by case_decide|].
    case_decide; [|done]. unfold count, kept. simpl. unfold handle_callback.
    destruct (lw_events (ls_world s) !! id); [|done]. by destruct err.
  - unfold save_event. destruct (ls_consumers s !! c) as [[|id]|]; try done. destruct (may_read s); [|done].
    intros [= <-]. pose proof (on_store_accounts (store_persistence id err) (s <| ls_consumers ::= <[c := Ready]> |>)
      (λ x, kept_persistence _ _ _ _ x)) as Ha. exact Ha.
  - destruct (may_write ByGc s); [|done]. intros [= <-].
    pose proof (on_store_accounts (gcRun now errs) (s <| ls_store ::= λ h, h <| hs_size := 0%Z |> |> <| ls_writer := None |>)
      (λ x, gcRun_kept _ _ _ _ x)) as Ha. exact Ha.
  - destruct (may_write ByStop s); [|done]. intros [= <-].
    pose proof (on_store_accounts (store_stop errs) (s <| ls_writer := None |>) (λ x, save_all_kept _ _ _ _ x)) as Ha. exact Ha.
  - intros [= <-] x. unfold flush, count, kept, saveGarbageMessage, on_store. simpl.
    destruct err; simpl; rewrite occ_app, occ_nil; lia.
Qed.

(** ** The invariant *)

(** A barrel belongs to one event, and never holds more than one message above the maximum. *)
Record barrel_ok (max cache : Z) (id : string) (e : EventBarrel) : Prop := {
  bo_id : eb_eventID e = id;
  bo_messages : Forall (λ m, lm_EventID m = id) (content e);
  bo_max : eb_maxNumber e = max;
  bo_cache : eb_cacheNumber e = cache;
  bo_length : (Z.of_nat (length (content e)) ≤ eb_size e)%Z;
  bo_size : (eb_size e ≤ Z.max 0 (max + 1))%Z
}.

Definition pooled_ok (max cache : Z) (e : EventBarrel) : Prop :=
  content e = [] ∧ eb_size e = 0%Z ∧ eb_maxNumber e = max ∧ eb_cacheNumber e = cache.

Section barrel_ok.
Context (max cache : Z) (id : string).
Implicit Types e : EventBarrel.

Lemma persistence_ok e ch : barrel_ok max cache id e → barrel_ok max cache id (persistence e ch).1.
Proof.
  intros [Hid Hm Hx Hc Hl Hs]. split; [done|..|done|done| |done]; by rewrite content_persistence.
Qed.

Lemma insert_append_ok m e ch e' ch' ev : lm_EventID m = id → (eb_size e ≤ eb_maxNumber e)%Z → barrel_ok max cache id e →
  insert_append m (eb_barrel e) e ch = (e', ch', ev) → barrel_ok max cache id e'.
Proof.
  intros Hm Hsize Ho. unfold insert_append.
  set (e0 := e <| eb_barrel := eb_barrel e ++ [m] |> <| eb_size ::= Z.succ |>).
  assert (barrel_ok max cache id e0) as H0.
  { destruct Ho as [Hid Hms Hx Hc Hl Hs]. assert (content e0 = content e ++ [m]) as Hc0.
    { unfold content. simpl. by rewrite app_assoc. }
    split; [done| |done|done| |].
    - rewrite Hc0. apply Forall_app. split; [done|by constructor].
    - rewrite Hc0, length_app. simpl. lia.
    - simpl. lia. }
  clearbody e0. unfold analysis. split_decide; intros [= <- <- <-]; [apply (persistence_ok e0 ch H0)|done|done].
Qed.

Lemma insert_head_ok m e ch e' ch' next : lm_EventID m = id → barrel_ok max cache id e →
  insert_head m e ch = (e', ch', next) → barrel_ok max cache id e'.
Proof.
  intros Hm Ho. unfold insert_head. destruct (insert_refuses m e) eqn:E; [by intros [= <- <- <-]|].
  apply insert_refuses_size in E. destruct (insert_append m _ e ch) as [[e1 ch1] ev] eqn:Ei. intros [= <- <- <-].
  by eapply insert_append_ok.
Qed.

Lemma insert_tail_ok now e ch e' ch' : barrel_ok max cache id e → insert_tail now e ch = (e', ch') →
  barrel_ok max cache id e'.
Proof.
  intros Ho. unfold insert_tail.
  destruct (if decide _ then _ else _) as [e1 ch1] eqn:E. intros [= <- <-].
  assert (barrel_ok max cache id e1) as [Hid Hm Hx Hc Hl Hs].
  { case_decide; injection E as <- <-; [apply (persistence_ok e ch Ho)|done]. }
  by split.
Qed.

Lemma drop_waiting_ok e b : barrel_ok max cache id e →
  barrel_ok max cache id (e <| eb_persistenceBarrel := [] |> <| eb_needPersistence := b |>).
Proof.
  intros [Hid Hm Hx Hc Hl Hs]. unfold content in *. apply Forall_app in Hm as [_ Hm].
  rewrite length_app in Hl. split; unfold content; simpl; [done|done|done|done|lia|done].
Qed.

Lemma drained_ok e : barrel_ok max cache id e →
  barrel_ok max cache id ((gcPersistence e) <| eb_persistenceBarrel := [] |>).
Proof.
  intros [Hid Hm Hx Hc Hl Hs]. split; unfold content; simpl; [done|constructor|done|done|lia|done].
Qed.

Lemma empty_pooled e : barrel_ok max cache id e → pooled_ok max cache (EventBarrel_empty e).
Proof. by intros [Hid Hm Hx Hc Hl Hs]. Qed.

Lemma pooled_barrel_ok e : pooled_ok max cache e → barrel_ok max cache id (e <| eb_eventID := id |>).
Proof.
  intros (Hc & Hs & Hm & Hn). assert (content (e <| eb_eventID := id |>) = []) as Hc' by done.
  split; rewrite ?Hc'; simpl; [done|constructor|done|done|lia|lia].
Qed.
End barrel_ok.

(** A batch holds messages of one event. *)
Definition batch_ok (l : list EventLogMessage) : Prop := ∃ id, Forall (λ m, lm_EventID m = id) l.

Record store_ok (h : handleMessageStore) : Prop := {
  so_barrels : map_Forall (barrel_ok (hs_PeerEventMaxLogNumber h) (hs_PeerEventMaxCacheLogNumber h)) (hs_barrels h);
  so_pool : Forall (pooled_ok (hs_PeerEventMaxLogNumber h) (hs_PeerEventMaxCacheLogNumber h)) (hs_pool h)
}.

Definition receiver_ok (h : handleMessageStore) (r : receiver) : Prop :=
  match r with
  | Appending m l => loaded h m l
  | BlockedRead id _ => is_Some (hs_barrels h !! id)
  | BlockedWrite b m _ => barrel_ok (hs_PeerEventMaxLogNumber h) (hs_PeerEventMaxCacheLogNumber h) (lm_EventID m) b
  | _ => True
  end.

Record store_part_ok (s : log_system) : Prop := {
  sy_store : store_ok (ls_store s);
  sy_saved : Forall batch_ok (lw_saved (ls_world s));
  sy_discarded : Forall (λ m, lm_Step m = "progress"%string) (hi_discarded (ls_history s))
}.

(** The invariant of a service with one receiver. *)
Record system_ok (s : log_system) : Prop := {
  sy_part : store_part_ok s;
  sy_receiver : ∃ r, ls_receivers s = [r] ∧ receiver_ok (ls_store s) r
}.

Lemma one_receiver s t r : system_ok s → ls_receivers s !! t = Some r →
  t = 0 ∧ ls_receivers s = [r] ∧ receiver_ok (ls_store s) r.
Proof. intros [_ (r' & Hr & Ho)]. rewrite Hr. destruct t as [|t]; [by intros [= <-]|by destruct t]. Qed.

Lemma system_loaded s t m l : system_ok s → ls_receivers s !! t = Some (Appending m l) → loaded (ls_store s) m l.
Proof. intros Hs Hr. by apply (one_receiver _ _ _ Hs Hr). Qed.

(** The configuration of a store never changes. *)
Definition config (h : handleMessageStore) : Z * Z := (hs_PeerEventMaxLogNumber h, hs_PeerEventMaxCacheLogNumber h).

Lemma store_put h id e : store_ok h →
  barrel_ok (hs_PeerEventMaxLogNumber h) (hs_PeerEventMaxCacheLogNumber h) id e →
  store_ok (h <| hs_barrels ::= <[id := e]> |>).
Proof. intros [Hb Hp] He. split; [by apply map_Forall_insert_2|done]. Qed.

(** What a receiver inside the read lock relies on. *)
Definition keeps (h h' : handleMessageStore) : Prop := config h' = config h ∧ ∀ id e, hs_barrels h !! id = Some e →
  ∃ e', hs_barrels h' !! id = Some e' ∧ eb_barrel e' = eb_barrel e ∧ eb_size e' = eb_size e ∧ eb_maxNumber e' = eb_maxNumber e.

Lemma same_keeps h h' : config h' = config h → hs_barrels h' = hs_barrels h → keeps h h'.
Proof. intros Hc Hb. split; [done|]. intros id e He. exists e. by rewrite Hb. Qed.

Lemma receiver_mono h h' r : keeps h h' → receiver_ok h r → receiver_ok h' r.
Proof.
  intros [[= Hm Hc] Hk]. destruct r as [| |m l|id ev|b m ev]; simpl; [done|done| | |by rewrite Hm, Hc].
  - intros (e & He & Hl & Hz). destruct (Hk _ _ He) as (e' & He' & Hb & Hs & Hx). exists e'.
    split; [done|]. by rewrite Hb, Hs, Hx.
  - intros [e He]. destruct (Hk _ _ He) as (e' & He' & _). by exists e'.
Qed.

Lemma unread_mono h h' r : config h' = config h → reads r = false → receiver_ok h r → receiver_ok h' r.
Proof. intros [= Hm Hc] Hn. destruct r; simpl in *; [done|done|done|done|by rewrite Hm, Hc]. Qed.

Lemma saved_batches err l w : batch_ok l → Forall batch_ok (lw_saved w) → Forall batch_ok (lw_saved (SaveMessage err l w)).
Proof. intros Hl Hw. destruct err; [done|]. simpl. apply Forall_app. by repeat constructor. Qed.

(** What the operations that save preserve. *)
Definition saves_well (h : handleMessageStore) (w : log_world) (h' : handleMessageStore) (w' : log_world) : Prop :=
  store_ok h → Forall batch_ok (lw_saved w) → store_ok h' ∧ Forall batch_ok (lw_saved w') ∧ config h' = config h ∧
  dom (hs_barrels h') ⊆ dom (hs_barrels h).

Lemma garbage_failed_ok err l h : store_ok h → store_ok (garbage_failed err l h).
Proof. intros [Hb Hp]. by destruct err. Qed.

Lemma garbage_failed_config err l h : config (garbage_failed err l h) = config h.
Proof. by destruct err. Qed.

Lemma garbage_put_ok err l h id e e' : store_ok h → hs_barrels h !! id = Some e' →
  barrel_ok (hs_PeerEventMaxLogNumber h) (hs_PeerEventMaxCacheLogNumber h) id e →
  store_ok ((garbage_failed err l h) <| hs_barrels ::= <[id := e]> |>) ∧
  dom (hs_barrels ((garbage_failed err l h) <| hs_barrels ::= <[id := e]> |>)) = dom (hs_barrels h).
Proof.
  intros Hh Hid He. split.
  - apply store_put; [by apply garbage_failed_ok|]. by destruct err.
  - simpl. rewrite garbage_failed_barrels, dom_insert_L. apply elem_of_dom_2 in Hid. set_solver.
Qed.

Lemma persistence_keeps id err h w : keeps h (store_persistence id err h w).1.
Proof.
  unfold store_persistence. destruct (hs_barrels h !! id) as [ba|] eqn:E; [|by apply same_keeps].
  destruct (eb_needPersistence ba); [|by apply same_keeps]. split; [by destruct err|].
  intros k e He. simpl. rewrite garbage_failed_barrels, lookup_insert. case_decide as Hk; [|by exists e].
  subst k. rewrite E in He. injection He as <-. by eexists.
Qed.

Lemma persistence_saves_well id err h w :
  saves_well h w (store_persistence id err h w).1 (store_persistence id err h w).2 ∧
  keeps h (store_persistence id err h w).1.
Proof.
  split; [|apply persistence_keeps]. unfold store_persistence. destruct (hs_barrels h !! id) as [ba|] eqn:E; [|done].
  destruct (eb_needPersistence ba); [|done]. cbn [fst snd].
  intros Hh Hw. pose proof (so_barrels _ Hh _ _ E) as Hba.
  destruct (garbage_put_ok err (eb_persistenceBarrel ba) h id _ ba Hh E (drop_waiting_ok _ _ _ _ false Hba)) as [H1 H2].
  split; [exact H1|]. split; [|split; [apply (garbage_failed_config err)|by rewrite H2]].
  apply saved_batches; [|done]. exists id. pose proof (bo_messages _ _ _ _ Hba) as Hm. by apply Forall_app in Hm as [Hm _].
Qed.

Lemma saveBeforeGc_saves_well k err h w :
  saves_well h w (saveBeforeGc k err (h, w)).1 (saveBeforeGc k err (h, w)).2.
Proof.
  intros Hh Hw. unfold saveBeforeGc. destruct (hs_barrels h !! k) as [v|] eqn:E; [|done].
  pose proof (so_barrels _ Hh _ _ E) as Hba. rewrite content_gcPersistence.
  pose proof (drained_ok _ _ _ _ Hba) as Hd. case_decide; cbn [fst snd].
  - destruct (garbage_put_ok None [] h k _ v Hh E Hd) as [H1 H2]. cbn [garbage_failed] in *. by rewrite H2.
  - destruct (garbage_put_ok err (content v) h k _ v Hh E Hd) as [H1 H2].
    split; [exact H1|]. split; [|split; [apply (garbage_failed_config err)|by rewrite H2]].
    apply saved_batches; [|done]. exists k. by apply (bo_messages _ _ _ _ Hba).
Qed.

Lemma saves_well_trans h w h1 w1 h2 w2 : saves_well h w h1 w1 → saves_well h1 w1 h2 w2 → saves_well h w h2 w2.
Proof.
  intros H1 H2 Hh Hw. destruct (H1 Hh Hw) as (Hh1 & Hw1 & Hc1 & Hd1).
  destruct (H2 Hh1 Hw1) as (Hh2 & Hw2 & Hc2 & Hd2). split; [done|]. split; [done|]. split; [congruence|set_solver].
Qed.

Lemma save_all_saves_well errs ks h w :
  saves_well h w (foldl (λ st k, saveBeforeGc k (errs k) st) (h, w) ks).1
                 (foldl (λ st k, saveBeforeGc k (errs k) st) (h, w) ks).2.
Proof.
  revert h w. induction ks as [|k ks IH]; intros h w; [done|]. cbn [foldl].
  rewrite (surjective_pairing (saveBeforeGc k (errs k) (h, w))).
  eapply saves_well_trans; [apply (saveBeforeGc_saves_well k (errs k))|apply IH].
Qed.

Lemma recycle_saves_well h w k : saves_well h w (recycle h k) w.
Proof.
  intros Hh Hw. unfold recycle. destruct (hs_barrels h !! k) as [b|] eqn:E; [|done].
  pose proof (so_barrels _ Hh _ _ E) as Hba. destruct Hh as [Hb Hp].
  split; [|by split; [done|split; [done|simpl; rewrite dom_delete_L; set_solver]]]. split; simpl.
  - by apply map_Forall_delete.
  - constructor; [|done]. by eapply empty_pooled.
Qed.

Lemma recycle_all_saves_well h w ks : saves_well h w (foldl recycle h ks) w.
Proof.
  revert h. induction ks as [|k ks IH]; intros h; [done|]. cbn [foldl].
  eapply saves_well_trans; [apply recycle_saves_well|apply IH].
Qed.

Lemma gcRun_saves_well `{GoRuntime} now errs h w : saves_well h w (gcRun now errs h w).1 (gcRun now errs h w).2.
Proof.
  unfold gcRun. pose proof (save_all_saves_well errs (idle_barrels now h) h w) as Hs.
  destruct (foldl _ (h, w) _) as [h' w']. simpl in *.
  eapply saves_well_trans; [exact Hs|apply recycle_all_saves_well].
Qed.

(** ** Steps preserve the invariant *)

Lemma set_receiver_ok r0 r s : store_part_ok s → ls_receivers s = [r0] → receiver_ok (ls_store s) r →
  system_ok (set_receiver 0 r s).
Proof. intros [Hs Hw Hd] H0 Hr. split; [by split|]. exists r. unfold set_receiver. simpl. by rewrite H0. Qed.

Lemma set_channel_ok ch s : store_part_ok s → store_part_ok (set_channel ch s).
Proof. intros [[Hb Hp] Hw Hd]. split; simpl; [by split|done|done]. Qed.

Lemma put_barrel_ok id e s : store_part_ok s →
  barrel_ok (hs_PeerEventMaxLogNumber (ls_store s)) (hs_PeerEventMaxCacheLogNumber (ls_store s)) id e →
  store_part_ok (put_barrel id e s).
Proof. intros [Hs Hw Hd] He. split; simpl; [by apply store_put|done|done]. Qed.

Lemma publish_ok r0 id e s : store_part_ok s → ls_receivers s = [r0] →
  barrel_ok (hs_PeerEventMaxLogNumber (ls_store s)) (hs_PeerEventMaxCacheLogNumber (ls_store s)) id e →
  system_ok (publish 0 id e s).
Proof.
  intros Hs H0 He. unfold publish. apply (set_receiver_ok r0); [|done|done].
  set (s1 := record _ s). assert (store_part_ok s1) as Hs1 by (destruct Hs; by split).
  destruct (put_barrel_ok id e s1 Hs1 He) as [[Hb Hp] Hw Hd]. split; simpl; [by split|done|done].
Qed.

Lemma refuse_ok err m s : store_part_ok s → (err = None → lm_Step m = "progress"%string) → store_part_ok (refuse err m s).
Proof.
  intros [[Hb Hp] Hw Hd] Hm. destruct err; split; simpl; try done.
  apply Forall_app. split; [done|]. constructor; [by apply Hm|done].
Qed.

Lemma pool_Get_ok i h b h' : pool_Get i h = (b, h') → store_ok h →
  pooled_ok (hs_PeerEventMaxLogNumber h) (hs_PeerEventMaxCacheLogNumber h) b ∧ store_ok h' ∧
  config h' = config h ∧ hs_barrels h' = hs_barrels h.
Proof.
  intros E Hh. assert (pooled_ok (hs_PeerEventMaxLogNumber h) (hs_PeerEventMaxCacheLogNumber h) (pool_New h)) as Hn by done.
  unfold pool_Get in E. destruct i as [i|]; [|by injection E as <- <-].
  destruct (hs_pool h !! i) as [e|] eqn:Ei; injection E as <- <-; [|done].
  destruct Hh as [Hb Hp]. split; [rewrite Forall_lookup in Hp; by eapply Hp|].
  split; [|done]. split; simpl; [done|]. by apply Forall_delete.
Qed.

Lemma receive_ok t m s s' : system_ok s → receive t m s = Some s' → system_ok s'.
Proof.
  intros Hs. unfold receive. destruct (ls_receivers s !! t) as [[]|] eqn:Hr; try done.
  destruct (one_receiver _ _ _ Hs Hr) as (-> & H0 & _).
  case_decide; [by intros [= <-]|]. destruct (may_read s); [|done]. set (s1 := record _ _).
  assert (store_part_ok s1) as Hs1.
  { destruct Hs as [[[Hb Hp] Hw Hd] _]. split; simpl; [by split|done|done]. }
  assert (ls_receivers s1 = [Idle]) as H1 by done. clearbody s1. clear Hs.
  destruct (hs_barrels (ls_store s1) !! lm_EventID m) as [e|] eqn:He.
  - destruct (insert_refuses m e) as [err|] eqn:Ei; intros [= <-].
    + split; [apply refuse_ok; [done|intros ->; by eapply insert_refuses_progress]|].
      exists Idle. by rewrite receivers_refuse.
    + apply (set_receiver_ok Idle); [done|done|]. exists e. split; [done|]. split; [done|]. by eapply insert_refuses_size.
  - intros [= <-]. by apply (set_receiver_ok Idle).
Qed.

Lemma store_append_ok t now s s' : system_ok s → store_append t now s = Some s' → system_ok s'.
Proof.
  intros Hs. unfold store_append. destruct (ls_receivers s !! t) as [[| |m l| |]|] eqn:Hr; try done.
  destruct (one_receiver _ _ _ Hs Hr) as (-> & H0 & (e & He & <- & Hz)). rewrite He. cbn [mbind option_bind].
  destruct Hs as [Hs _]. pose proof (so_barrels _ (sy_store _ Hs) _ _ He) as Hb.
  destruct (insert_append m _ e _) as [[e1 ch1] ev] eqn:Ei.
  pose proof (insert_append_ok _ _ _ _ _ _ _ _ _ eq_refl Hz Hb Ei) as Hb1. destruct ev as [ev|].
  - intros [= <-]. eapply set_receiver_ok; [apply put_barrel_ok; [by apply set_channel_ok|done]|exact H0|].
    simpl. rewrite lookup_insert_eq. by eexists.
  - destruct (insert_tail now e1 ch1) as [e2 ch2] eqn:Et. intros [= <-].
    eapply set_receiver_ok; [apply put_barrel_ok; [by apply set_channel_ok|]|exact H0|done]. by eapply insert_tail_ok.
Qed.

Lemma create_ok t pooled now s s' : system_ok s → create t pooled now s = Some s' → system_ok s'.
Proof.
  intros Hs. unfold create. destruct (ls_receivers s !! t) as [[|m| | |]|] eqn:Hr; try done.
  destruct (one_receiver _ _ _ Hs Hr) as (-> & H0 & _). destruct Hs as [Hs _].
  destruct (may_write (ByReceiver 0) s); [|done].
  destruct (pool_Get pooled (ls_store s)) as [b h] eqn:Eg.
  destruct (pool_Get_ok _ _ _ _ Eg (sy_store _ Hs)) as (Hb & Hh & [= Hc1 Hc2] & Hbs).
  set (s1 := s <| ls_store := h |>).
  assert (store_part_ok s1) as Hs1 by (destruct Hs as [Hst Hw Hd]; by split).
  apply (pooled_barrel_ok _ _ (lm_EventID m)) in Hb. rewrite <- Hc1, <- Hc2 in Hb.
  destruct (insert_head m _ _) as [[b1 ch1] next] eqn:Ei.
  pose proof (insert_head_ok _ _ _ _ _ _ _ _ _ eq_refl Hb Ei) as Hb1.
  destruct next as [err|[ev|]].
  - intros [= <-]. eapply publish_ok.
    + apply refuse_ok; [done|]. by apply insert_head_returns in Ei as (_ & _ & Hp).
    + rewrite receivers_refuse. exact H0.
    + by destruct err.
  - intros [= <-]. eapply set_receiver_ok; [by apply set_channel_ok|exact H0|done].
  - destruct (insert_tail now b1 ch1) as [b2 ch2] eqn:Et. intros [= <-].
    eapply publish_ok; [by apply set_channel_ok|exact H0|]. by eapply insert_tail_ok.
Qed.

Lemma sent_ok t now s s' : system_ok s → sent t now s = Some s' → system_ok s'.
Proof.
  intros Hs. unfold sent. destruct (has_room _); [|done].
  destruct (ls_receivers s !! t) as [[| | |id ev|b m ev]|] eqn:Hr; try done;
    destruct (one_receiver _ _ _ Hs Hr) as (-> & H0 & Ho); destruct Hs as [Hs _].
  - destruct (hs_barrels (ls_store s) !! id) as [e|] eqn:He; [|done]. simpl.
    destruct (insert_tail now e _) as [e1 ch1] eqn:Et. intros [= <-].
    eapply set_receiver_ok; [|exact H0|done]. apply put_barrel_ok; [by apply set_channel_ok|].
    eapply insert_tail_ok; [|exact Et]. exact (so_barrels _ (sy_store _ Hs) _ _ He).
  - destruct (insert_tail now b _) as [b1 ch1] eqn:Et. intros [= <-].
    eapply publish_ok; [by apply set_channel_ok|exact H0|]. eapply insert_tail_ok; [|exact Et]. exact Ho.
Qed.

(** Steps of the store and the world alone: [free] when no reader is inside. *)
Lemma on_store_ok (free : bool) f s : system_ok s →
  saves_well (ls_store s) (ls_world s) (f (ls_store s) (ls_world s)).1 (f (ls_store s) (ls_world s)).2 →
  (if free then existsb reads (ls_receivers s) = false
   else keeps (ls_store s) (f (ls_store s) (ls_world s)).1) →
  system_ok (on_store f s).
Proof.
  intros [[Hs Hw Hd] (r & Hr & Ho)] Hf Hfree. unfold on_store. destruct (f (ls_store s) (ls_world s)) as [h w].
  destruct (Hf Hs Hw) as (Hh & Hw' & Hc & _). split; simpl; [by split|]. exists r. split; [done|].
  destruct free.
  - rewrite Hr in Hfree. simpl in Hfree. rewrite orb_false_r in Hfree. by apply (unread_mono (ls_store s)).
  - by apply (receiver_mono (ls_store s)).
Qed.

Lemma may_write_unread who s : may_write who s = true → existsb reads (ls_receivers s) = false.
Proof. unfold may_write. by intros [_ Hn%negb_true_iff]%andb_true_iff. Qed.

(** Nothing of the store, the receivers and the saved batches changes. *)
Lemma system_ext s s' : system_ok s → ls_receivers s' = ls_receivers s →
  hs_barrels (ls_store s') = hs_barrels (ls_store s) → hs_pool (ls_store s') = hs_pool (ls_store s) →
  config (ls_store s') = config (ls_store s) → lw_saved (ls_world s') = lw_saved (ls_world s) →
  hi_discarded (ls_history s') = hi_discarded (ls_history s) → system_ok s'.
Proof.
  intros [[[Hb Hp] Hw Hd] (r & Hr & Ho)] H1 H2 H3 H4 H5 H6. pose proof H4 as [= Hc1 Hc2]. split.
  - split; [|by rewrite H5|by rewrite H6]. split; rewrite Hc1, Hc2, ?H2, ?H3; done.
  - exists r. rewrite H1. split; [done|]. by apply (receiver_mono (ls_store s)); [apply same_keeps|].
Qed.

Lemma step_ok `{GoRuntime} l s s' : system_ok s → step l s = Some s' → system_ok s'.
Proof.
  intros Hs. destruct l; cbn [step].
  - by apply receive_ok.
  - by apply store_append_ok.
  - by apply sent_ok.
  - unfold announce. case_decide; [|done].
    destruct who as [t| |]; [|intros [= <-]; by apply (system_ext s)..].
    destruct (ls_receivers s !! t) as [[]|]; try done. intros [= <-]. by apply (system_ext s).
  - by apply create_ok.
  - unfold take_event. destruct (ls_consumers s !! c) as [[]|]; try done.
    destruct (hs_barrelEvent (ls_store s)) as [|ev ch]; [done|]. intros [= <-]. apply (system_ext s); [done|..];
      destruct ev as [|k [|id [|st [|msg [|]]]]]; try done; case_decide; try done.
    simpl. unfold handle_callback. destruct (lw_events (ls_world s) !! id); [|done]. by destruct err.
  - unfold save_event. destruct (ls_consumers s !! c) as [[|id]|]; try done. destruct (may_read s); [|done].
    intros [= <-]. destruct (persistence_saves_well id err (ls_store s) (ls_world s)) as [H1 H2].
    apply (on_store_ok false); [by apply (system_ext s)|exact H1|exact H2].
  - destruct (may_write ByGc s) eqn:Ew; [|done]. intros [= <-]. apply may_write_unread in Ew.
    apply (on_store_ok true); [by apply (system_ext s)|apply gcRun_saves_well|done].
  - destruct (may_write ByStop s) eqn:Ew; [|done]. intros [= <-]. apply may_write_unread in Ew.
    apply (on_store_ok true); [by apply (system_ext s)|apply save_all_saves_well|done].
  - intros [= <-]. apply (system_ext s); [done..| |done]. by destruct err.
Qed.

(** Induction on the steps of a run. *)
Lemma steps_ind `{GoRuntime} (P : log_system → Prop) ls s s' :
  (∀ l s1 s2, P s1 → step l s1 = Some s2 → P s2) → P s → steps ls s = Some s' → P s'.
Proof.
  intros Hstep. revert s. induction ls as [|l ls IH]; intros s Hs; simpl; [by intros [= <-]|].
  destruct (step l s) as [s1|] eqn:E; [|done]. simpl. apply IH. by eapply Hstep.
Qed.

Lemma start_ok max cache events : system_ok (start_system max cache 1 events).
Proof.
  split; [|by exists Idle].
  split; simpl; [split; [apply map_Forall_empty|constructor]|constructor|constructor].
Qed.

Lemma pool_clean_ok s : system_ok s → pool_clean s.
Proof. intros [[[_ Hp] _ _] _]. eapply Forall_impl; [exact Hp|]. by intros e []. Qed.

(** ** One receiver *)

Definition of_event (id : string) (l : list EventLogMessage) : list EventLogMessage := filter (λ m, lm_EventID m = id) l.

Lemma of_event_app id l1 l2 : of_event id (l1 ++ l2) = of_event id l1 ++ of_event id l2.
Proof. apply filter_app. Qed.

Lemma of_event_all id l : Forall (λ m, lm_EventID m = id) l → of_event id l = l.
Proof.
  induction 1 as [|m l Hm _ IH]; [done|]. unfold of_event. rewrite filter_cons, decide_True by done. by f_equal.
Qed.

Lemma of_event_none id id' l : id' ≠ id → Forall (λ m, lm_EventID m = id') l → of_event id l = [].
Proof.
  intros Hid. induction 1 as [|m l Hm _ IH]; [done|]. unfold of_event. by rewrite filter_cons, decide_False by congruence.
Qed.

(** The messages of an event that were saved and that wait to be. *)
Definition saved_or_stored (id : string) (h : handleMessageStore) (w : log_world) : list EventLogMessage :=
  of_event id (concat (lw_saved w)) ++ contents_of (hs_barrels h !! id).

Lemma saved_batch id err l w : of_event id (concat (lw_saved (SaveMessage err l w))) =
  of_event id (concat (lw_saved w)) ++ (if err then [] else of_event id l).
Proof.
  destruct err; simpl; [by rewrite app_nil_r|]. by rewrite concat_app, of_event_app, concat_cons, app_nil_r.
Qed.

Lemma save_order id k err l h w e e' : hs_barrels h !! k = Some e → content e = l ++ content e' →
  Forall (λ m, lm_EventID m = k) (content e) →
  saved_or_stored id ((garbage_failed err l h) <| hs_barrels ::= <[k := e']> |>) (SaveMessage err l w)
  `sublist_of` saved_or_stored id h w.
Proof.
  intros He Hc Hk. unfold saved_or_stored. rewrite saved_batch. simpl. rewrite garbage_failed_barrels, lookup_insert.
  rewrite Hc in Hk. apply Forall_app in Hk as [Hl _]. case_decide as Hd.
  - subst k. rewrite He. simpl. rewrite (of_event_all _ _ Hl), Hc, <- app_assoc.
    apply sublist_app; [done|]. destruct err; [by apply sublist_inserts_l|done].
  - rewrite (of_event_none _ _ _ Hd Hl). by destruct err; rewrite app_nil_r.
Qed.

Lemma persistence_order id k err h w : store_ok h →
  saved_or_stored id (store_persistence k err h w).1 (store_persistence k err h w).2 `sublist_of` saved_or_stored id h w.
Proof.
  intros Hh. unfold store_persistence. destruct (hs_barrels h !! k) as [ba|] eqn:E; [|done].
  destruct (eb_needPersistence ba); [|done]. cbn [fst snd]. eapply save_order; [exact E|done|].
  exact (bo_messages _ _ _ _ (so_barrels _ Hh _ _ E)).
Qed.

Lemma saveBeforeGc_order id k err h w : store_ok h →
  saved_or_stored id (saveBeforeGc k err (h, w)).1 (saveBeforeGc k err (h, w)).2 `sublist_of` saved_or_stored id h w.
Proof.
  intros Hh. unfold saveBeforeGc. destruct (hs_barrels h !! k) as [v|] eqn:E; [|done].
  pose proof (bo_messages _ _ _ _ (so_barrels _ Hh _ _ E)) as Hm. rewrite content_gcPersistence.
  case_decide as Hd; cbn [fst snd].
  - pose proof (save_order id k (Some EWaitTimeOut) [] h w v ((gcPersistence v) <| eb_persistenceBarrel := [] |>) E Hd Hm) as Hs.
    simpl in Hs. unfold InsertGarbageMessage in Hs. unfold saved_or_stored in *. exact Hs.
  - eapply save_order; [exact E| |done]. unfold content at 3. simpl. by rewrite app_nil_r.
Qed.

Lemma save_all_order id errs ks h w : store_ok h → Forall batch_ok (lw_saved w) →
  saved_or_stored id (foldl (λ st k, saveBeforeGc k (errs k) st) (h, w) ks).1
    (foldl (λ st k, saveBeforeGc k (errs k) st) (h, w) ks).2 `sublist_of` saved_or_stored id h w.
Proof.
  revert h w. induction ks as [|k ks IH]; intros h w Hh Hw; [done|]. cbn [foldl].
  rewrite (surjective_pairing (saveBeforeGc k (errs k) (h, w))).
  destruct (saveBeforeGc_saves_well k (errs k) h w Hh Hw) as (Hh' & Hw' & _ & _).
  etrans; [apply (IH _ _ Hh' Hw')|by apply saveBeforeGc_order].
Qed.

Lemma recycle_order id h w ks : drained ks h → saved_or_stored id (foldl recycle h ks) w `sublist_of` saved_or_stored id h w.
Proof.
  revert h. induction ks as [|k ks IH]; intros h Hd; [done|]. cbn [foldl]. etrans; [apply IH|].
  - intros k' e Hk He%recycle_lookup. apply (Hd k' e); [|done]. by apply list_elem_of_further.
  - unfold saved_or_stored, recycle. destruct (hs_barrels h !! k) as [b|] eqn:E; [|done]. simpl.
    apply sublist_app; [done|]. rewrite lookup_delete. case_decide; [apply sublist_nil_l|done].
Qed.

Lemma gcRun_order `{GoRuntime} id now errs h w : store_ok h → Forall batch_ok (lw_saved w) →
  saved_or_stored id (gcRun now errs h w).1 (gcRun now errs h w).2 `sublist_of` saved_or_stored id h w.
Proof.
  intros Hh Hw. unfold gcRun. set (ks := idle_barrels now h). pose proof (save_all_order id errs ks h w Hh Hw) as Hs.
  assert (drained ([] ++ ks) (foldl (λ st k, saveBeforeGc k (errs k) st) (h, w) ks).1) as Hd.
  { apply save_all_drained. intros k e Hk'. by apply not_elem_of_nil in Hk'. }
  destruct (foldl _ (h, w) ks) as [h' w']. simpl in *. etrans; [by apply recycle_order|done].
Qed.

(** The event whose barrel a receiver is about to create. *)
Definition creating (r : receiver) : option string :=
  match r with Missing m | BlockedWrite _ m _ => Some (lm_EventID m) | _ => None end.

Definition event_sequence (id : string) (s : log_system) : list EventLogMessage :=
  saved_or_stored id (ls_store s) (ls_world s) ++ of_event id (in_flight (ls_receivers s)).

Record lone (s : log_system) (r : receiver) : Prop := {
  lo_one : ls_receivers s = [r];
  lo_overwritten : hi_overwritten (ls_history s) = [];
  lo_fresh id : creating r = Some id → hs_barrels (ls_store s) !! id = None;
  lo_order id : event_sequence id s `sublist_of` of_event id (hi_received (ls_history s))
}.

Lemma lone_receiver s r t r' : lone s r → ls_receivers s !! t = Some r' → t = 0 ∧ r' = r.
Proof. intros [-> _ _ _]. destruct t as [|t]; [by intros [= <-]|]. by destruct t. Qed.

Lemma receive_lone t m s s' r : lone s r → receive t m s = Some s' → ∃ r', lone s' r'.
Proof.
  intros Hl. unfold receive. destruct (ls_receivers s !! t) as [r0|] eqn:Hr; [|done].
  destruct (lone_receiver _ _ _ _ Hl Hr) as [-> <-]. destruct r0; [|done..].
  case_decide; [intros [= <-]; by eexists|]. destruct (may_read s); [|done].
  destruct Hl as [Hone Hov Hfr Hord]. set (s1 := record _ _).
  assert (∀ r', in_hand r' = [m] → (∀ id, creating r' = Some id → hs_barrels (ls_store s) !! id = None) →
    lone (set_receiver 0 r' s1) r') as Hset.
  { intros r' Hm Hc. assert (ls_receivers (set_receiver 0 r' s1) = [r']) as H1 by (unfold set_receiver; simpl; by rewrite Hone).
    split; [exact H1|done|exact Hc|]. intros id. specialize (Hord id). unfold event_sequence in *.
    rewrite H1. rewrite Hone in Hord. unfold in_flight in *. cbn in Hord. cbn [fmap list_fmap concat]. rewrite Hm, app_nil_r.
    change (hi_received (ls_history (set_receiver 0 r' s1))) with (hi_received (ls_history s) ++ [m]).
    rewrite of_event_app. rewrite app_nil_r in Hord. by apply sublist_app. }
  destruct (hs_barrels (ls_store s1) !! lm_EventID m) as [e|] eqn:He.
  - destruct (insert_refuses m e) as [err|]; intros [= <-].
    + exists Idle. split.
      * by rewrite receivers_refuse.
      * by destruct err.
      * done.
      * intros id. rewrite received_refuse. change (hi_received (ls_history s1)) with (hi_received (ls_history s) ++ [m]).
        rewrite of_event_app. apply sublist_inserts_r. specialize (Hord id). destruct err; exact Hord.
    + exists (Appending m (eb_barrel e)). by apply Hset.
  - intros [= <-]. exists (Missing m). apply Hset; [done|]. by intros id [= <-].
Qed.

Lemma store_append_lone t now s s' r : lone s r → system_ok s → store_append t now s = Some s' → ∃ r', lone s' r'.
Proof.
  intros Hl Hs. unfold store_append. destruct (ls_receivers s !! t) as [[| |m l| |]|] eqn:Hr; try done.
  destruct (lone_receiver _ _ _ _ Hl Hr) as [-> <-].
  destruct (system_loaded _ _ _ _ Hs Hr) as (e & He & <- & _). rewrite He. cbn [mbind option_bind].
  destruct (insert_append m _ e _) as [[e1 ch1] ev] eqn:Ei. apply insert_append_keeps in Ei.
  rewrite app_assoc in Ei. change (content e1 = content e ++ [m]) in Ei. destruct Hl as [Hone Hov Hfr Hord].
  assert (∀ r' e2 ch2, in_hand r' = [] → creating r' = None → content e2 = content e1 →
    lone (set_receiver 0 r' (put_barrel (lm_EventID m) e2 (set_channel ch2 s))) r') as Hset.
  { intros r' e2 ch2 Hh Hc H2. split; simpl; [by rewrite Hone|done|by rewrite Hc|].
    intros id. specialize (Hord id). unfold event_sequence, saved_or_stored in *. simpl. rewrite Hone in *. simpl in *.
    unfold in_flight in *. simpl in *. rewrite Hh, app_nil_r. rewrite lookup_insert. case_decide as Hd.
    - subst id. rewrite He in Hord. cbn [contents_of] in *. rewrite H2, Ei.
      rewrite (of_event_all _ [m]) in Hord by (by constructor). by rewrite <- app_assoc in Hord.
    - rewrite (of_event_none id (lm_EventID m) [m]), app_nil_r in Hord by (done || by constructor). exact Hord. }
  destruct ev as [ev|].
  - intros [= <-]. eexists. by apply Hset.
  - destruct (insert_tail now e1 ch1) as [e2 ch2] eqn:Et. intros [= <-]. apply insert_tail_keeps in Et.
    eexists. by apply Hset.
Qed.

Lemma lone_ext s s' r : lone s r → ls_receivers s' = ls_receivers s →
  hs_barrels (ls_store s') = hs_barrels (ls_store s) → lw_saved (ls_world s') = lw_saved (ls_world s) →
  hi_received (ls_history s') = hi_received (ls_history s) → hi_overwritten (ls_history s') = hi_overwritten (ls_history s) →
  lone s' r.
Proof.
  intros [Hone Hov Hfr Hord] H1 H2 H3 H4 H5. unfold event_sequence, saved_or_stored in *.
  split; unfold event_sequence, saved_or_stored; by rewrite ?H1, ?H2, ?H3, ?H4, ?H5.
Qed.

(** A barrel that is published when the map has none of its event. *)
Lemma publish_lone id e s r s0 : lone s r → s0 = publish 0 id e s → hs_barrels (ls_store s) !! id = None →
  content e `sublist_of` in_hand r → Forall (λ m, lm_EventID m = id) (in_hand r) → ∃ r', lone s0 r'.
Proof.
  intros [Hone Hov Hfr Hord] -> Hn Hc Hid. exists Idle.
  unfold publish. rewrite Hn. split; simpl.
  - by rewrite Hone.
  - by rewrite Hov.
  - done.
  - intros id'. specialize (Hord id'). unfold event_sequence, saved_or_stored in *. simpl. rewrite Hone in *. simpl in *.
    unfold in_flight in *. simpl in *. rewrite app_nil_r in *. rewrite lookup_insert.
    etrans; [|exact Hord]. rewrite <- app_assoc. apply sublist_app; [done|]. case_decide as Hd.
    + subst id'. cbn [contents_of]. by rewrite (of_event_all _ _ Hid), Hn.
    + rewrite (of_event_none id' id) by done. by rewrite app_nil_r.
Qed.

Lemma create_lone t pooled now s s' r : lone s r → system_ok s → create t pooled now s = Some s' → ∃ r', lone s' r'.
Proof.
  intros Hl Hs. unfold create. destruct (ls_receivers s !! t) as [r0|] eqn:Hr; [|done].
  destruct (lone_receiver _ _ _ _ Hl Hr) as [-> <-]. destruct r0 as [|m| | |]; try done.
  destruct (may_write (ByReceiver 0) s); [|done].
  destruct (pool_Get pooled (ls_store s)) as [b h] eqn:Eg.
  destruct (pool_Get_ok _ _ _ _ Eg (sy_store _ (sy_part _ Hs))) as ((Hb & _) & _ & _ & Hbs).
  set (s1 := s <| ls_store := h |>). set (b0 := b <| eb_eventID := lm_EventID m |>).
  assert (content b0 = []) as Hb0 by done.
  assert (lone s1 (Missing m)) as Hl1.
  { destruct Hl as [Hone Hov Hfr Hord]. split; [done|done| |]; simpl.
    - intros id Hid. rewrite Hbs. by apply Hfr.
    - intros id. unfold event_sequence, saved_or_stored. simpl. rewrite Hbs. apply Hord. }
  assert (hs_barrels (ls_store s1) !! lm_EventID m = None) as Hn by by apply (lo_fresh _ _ Hl1).
  clearbody s1.
  destruct (insert_head m b0 _) as [[b1 ch1] [err|[ev|]]] eqn:Ei.
  - intros [= <-]. apply insert_head_returns in Ei as (-> & _ & _).
    assert (lone (refuse err m s1) (Missing m)) as Hl2 by (apply (lone_ext s1); by destruct err).
    eapply (publish_lone (lm_EventID m) b0 _ _ _ Hl2 eq_refl); [by destruct err| |by constructor].
    rewrite Hb0. apply sublist_nil_l.
  - intros [= <-]. apply insert_head_keeps in Ei. rewrite Hb0 in Ei.
    destruct Hl1 as [Hone Hov Hfr Hord]. exists (BlockedWrite b1 m ev). split; simpl.
    + by rewrite Hone.
    + done.
    + done.
    + intros id. specialize (Hord id). unfold event_sequence, in_flight in *. simpl in *. rewrite Hone in *. simpl in *.
      by rewrite Ei.
  - destruct (insert_tail now b1 ch1) as [b2 ch2] eqn:Et. intros [= <-].
    apply insert_head_keeps in Ei. apply insert_tail_keeps in Et. rewrite Ei, Hb0 in Et.
    assert (lone (set_channel ch2 s1) (Missing m)) as Hl2 by by destruct Hl1.
    eapply (publish_lone (lm_EventID m) b2 _ _ _ Hl2 eq_refl); [done|by rewrite Et|by constructor].
Qed.

Lemma sent_lone t now s s' r : lone s r → system_ok s → sent t now s = Some s' → ∃ r', lone s' r'.
Proof.
  intros Hl Hs. unfold sent. destruct (has_room _); [|done].
  destruct (ls_receivers s !! t) as [r0|] eqn:Hr; [|done].
  destruct (lone_receiver _ _ _ _ Hl Hr) as [-> <-]. destruct r0 as [| | |id ev|b m ev]; try done.
  - destruct (hs_barrels (ls_store s) !! id) as [e|] eqn:He; [|done]. simpl.
    destruct (insert_tail now e _) as [e1 ch1] eqn:Et. intros [= <-]. apply insert_tail_keeps in Et.
    destruct Hl as [Hone Hov Hfr Hord]. exists Idle. split; simpl.
    + by rewrite Hone.
    + done.
    + done.
    + intros id'. specialize (Hord id'). unfold event_sequence, saved_or_stored in *. simpl. rewrite Hone in *. simpl.
      rewrite lookup_insert. case_decide; [|done]. subst id'. rewrite He in Hord. simpl in *. by rewrite Et.
  - destruct (insert_tail now b _) as [b1 ch1] eqn:Et. intros [= <-]. apply insert_tail_keeps in Et.
    assert (lone (set_channel ch1 s) (BlockedWrite b m ev)) as Hl2 by by destruct Hl.
    eapply (publish_lone (lm_EventID m) b1 _ _ _ Hl2 eq_refl); [by apply (lo_fresh _ _ Hl2)|by rewrite Et|].
    destruct (one_receiver _ _ _ Hs Hr) as (_ & _ & Ho). exact (bo_messages _ _ _ _ Ho).
Qed.

Lemma on_store_lone f s r : lone s r →
  (∀ id, saved_or_stored id (f (ls_store s) (ls_world s)).1 (f (ls_store s) (ls_world s)).2
     `sublist_of` saved_or_stored id (ls_store s) (ls_world s)) →
  (∀ id, hs_barrels (ls_store s) !! id = None → hs_barrels (f (ls_store s) (ls_world s)).1 !! id = None) →
  lone (on_store f s) r.
Proof.
  intros [Hone Hov Hfr Hord] Hf Hn. unfold on_store. destruct (f (ls_store s) (ls_world s)) as [h w]. simpl in *.
  split; simpl; [done|done|by intros id Hid; apply Hn, Hfr|].
  intros id. specialize (Hord id). unfold event_sequence in *. simpl. etrans; [|exact Hord]. by apply sublist_app.
Qed.

Lemma saves_well_none h w h' w' id : saves_well h w h' w' → store_ok h → Forall batch_ok (lw_saved w) →
  hs_barrels h !! id = None → hs_barrels h' !! id = None.
Proof. intros Hs Hh Hw Hn. destruct (Hs Hh Hw) as (_ & _ & _ & Hd). rewrite <- !not_elem_of_dom in *. set_solver. Qed.


Lemma step_lone `{GoRuntime} l s s' : (∃ r, lone s r) → system_ok s → step l s = Some s' → ∃ r, lone s' r.
Proof.
  intros [r Hl] Hs. destruct l; cbn [step].
  - by eapply receive_lone.
  - by eapply store_append_lone.
  - by eapply sent_lone.
  - unfold announce. case_decide; [|done]. destruct who as [t| |]; [|intros [= <-]; exists r; by apply (lone_ext s)..].
    destruct (ls_receivers s !! t) as [[]|]; try done. intros [= <-]. exists r. by apply (lone_ext s).
  - by eapply create_lone.
  - unfold take_event. destruct (ls_consumers s !! c) as [[]|]; try done.
    destruct (hs_barrelEvent (ls_store s)) as [|ev ch]; [done|]. intros [= <-]. exists r. apply (lone_ext s); [done|..];
      destruct ev as [|k [|id [|st [|msg [|]]]]]; try done; case_decide; try done.
    simpl. unfold handle_callback. destruct (lw_events (ls_world s) !! id); [|done]. by destruct err.
  - unfold save_event. destruct (ls_consumers s !! c) as [[|id]|]; try done. destruct (may_read s); [|done].
    intros [= <-]. exists r. destruct (persistence_saves_well id err (ls_store s) (ls_world s)) as [H1 H2].
    apply on_store_lone; [by apply (lone_ext s)| |].
    + intros id'. apply persistence_order, (sy_part _ Hs).
    + intros id'. apply (saves_well_none _ _ _ _ _ H1); apply (sy_part _ Hs).
  - destruct (may_write ByGc s); [|done]. intros [= <-]. exists r.
    apply on_store_lone; [by apply (lone_ext s)| |].
    + intros id. apply gcRun_order; [|apply (sy_part _ Hs)]. destruct (sy_store _ (sy_part _ Hs)). by split.
    + intros id. apply (saves_well_none _ _ _ _ _ (gcRun_saves_well _ _ _ _)); [|apply (sy_part _ Hs)].
      destruct (sy_store _ (sy_part _ Hs)). by split.
  - destruct (may_write ByStop s); [|done]. intros [= <-]. exists r.
    apply on_store_lone; [by apply (lone_ext s)| |].
    + intros id. apply save_all_order; apply (sy_part _ Hs).
    + intros id. apply (saves_well_none _ _ _ _ _ (save_all_saves_well _ _ _ _)); apply (sy_part _ Hs).
  - intros [= <-]. exists r. unfold flush. apply (lone_ext s); [done..| |done|done]. simpl. by destruct err.
Qed.

(** ** Reachable states *)

(** The states of a service with [n] receivers. *)
Definition reachable `{GoRuntime} (max cache : Z) (n : nat) (events : gmap string ServiceEvent) (s : log_system) : Prop :=
  ∃ ls, steps ls (start_system max cache n events) = Some s.

Lemma reachable_ok `{GoRuntime} max cache events s : reachable max cache 1 events s →
  system_ok s ∧ ∀ x, occ x (hi_received (ls_history s)) = count s x.
Proof.
  intros [ls Hls]. refine (steps_ind (λ s, system_ok s ∧ ∀ x, occ x (hi_received (ls_history s)) = count s x) _ _ _ _ _ Hls).
  - intros l s1 s2 [Hs1 Hc1] Hstep. split; [by eapply step_ok|]. intros x.
    pose proof (step_accounts _ _ _ (pool_clean_ok _ Hs1) (λ t m l, system_loaded _ t m l Hs1) Hstep x) as Ha.
    specialize (Hc1 x). lia.
  - split; [apply start_ok|]. intros x. unfold count, kept. simpl. unfold stored. by rewrite map_to_list_empty.
Qed.

Lemma reachable_lone `{GoRuntime} max cache events s : reachable max cache 1 events s → ∃ r, lone s r.
Proof.
  intros [ls Hls].
  refine (proj2 (steps_ind (λ s, system_ok s ∧ ∃ r, lone s r) _ _ _ _ _ Hls)).
  - intros l s1 s2 [Hs1 Hl1] Hstep. split; [by eapply step_ok|by eapply step_lone].
  - split; [apply start_ok|]. exists Idle. split; [done|done|done|]. intros id. apply sublist_nil_l.
Qed.

Lemma sublist_full {A} (l1 l2 : list A) : l1 `sublist_of` l2 → length l2 ≤ length l1 → l1 = l2.
Proof.
  induction 1 as [|x l1 l2 Hl IH|x l1 l2 Hl IH]; simpl; [done| |].
  - intros Hlen. f_equal. apply IH. lia.
  - intros Hlen. apply sublist_length in Hl. lia.
Qed.

#[export] Instance of_event_proper id : Proper ((≡ₚ) ==> (≡ₚ)) (of_event id).
Proof. intros l1 l2 Hl. unfold of_event. by rewrite Hl. Qed.

(** The messages of one event among those in the barrels. *)
Lemma of_event_stored id h : store_ok h → of_event id (stored (hs_barrels h)) ≡ₚ contents_of (hs_barrels h !! id).
Proof.
  intros [Hb _]. revert Hb. generalize (hs_PeerEventMaxLogNumber h) (hs_PeerEventMaxCacheLogNumber h). intros max cache Hb.
  assert (∀ (l : list (string * EventBarrel)), NoDup l.*1 → Forall (λ '(i, e), Forall (λ m, lm_EventID m = i) (content e)) l →
    of_event id (concat (content <$> l.*2)) = contents_of ((list_to_map l : gmap string EventBarrel) !! id)) as Hl.
  { induction l as [|[i e] l IH]; intros Hnd Hf; [done|].
    rewrite fmap_cons in Hnd. apply NoDup_cons in Hnd as [Hi Hnd]. apply Forall_cons in Hf as [He Hf].
    rewrite !fmap_cons. cbn [concat list_to_map foldr fst snd]. rewrite of_event_app, lookup_insert. case_decide as Hd.
    - subst i. cbn [contents_of]. rewrite (of_event_all _ _ He), IH by done.
      rewrite (not_elem_of_list_to_map_1 _ _ Hi). apply app_nil_r.
    - rewrite (of_event_none id i) by done. by apply IH. }
  unfold stored. rewrite Hl, list_to_map_to_list; [done|apply NoDup_fst_map_to_list|].
  apply Forall_forall. intros [i e] Hin%elem_of_map_to_list. exact (bo_messages _ _ _ _ (Hb _ _ Hin)).
Qed.

Lemma received_whereabouts `{GoRuntime} max cache events s : reachable max cache 1 events s →
  hi_received (ls_history s) ≡ₚ whereabouts s.
Proof.
  intros Hr. destruct (reachable_ok _ _ _ _ Hr) as [_ Hc]. destruct (reachable_lone _ _ _ _ Hr) as [r Hl].
  apply perm_occ. intros x. by rewrite Hc, <- count_whereabouts, (lo_overwritten _ _ Hl), app_nil_r.
Qed.


Lemma in_order_exact `{GoRuntime} max cache events s id : reachable max cache 1 events s →
  hs_garbageMessage (ls_store s) = [] → hi_flushed (ls_history s) = [] → hi_discarded (ls_history s) = [] →
  event_sequence id s = of_event id (hi_received (ls_history s)).
Proof.
  intros Hr Hg Hf Hd. pose proof (reachable_lone _ _ _ _ Hr) as [r Hl]. destruct (reachable_ok _ _ _ _ Hr) as [Hs _].
  apply sublist_full; [apply (lo_order _ _ Hl id)|]. apply Nat.eq_le_incl, Permutation_length.
  rewrite (received_whereabouts _ _ _ _ Hr).
  unfold whereabouts, event_sequence, saved_or_stored. rewrite Hg, Hf, Hd, !app_nil_r, app_nil_l.
  rewrite !of_event_app, (of_event_stored id _ (sy_store _ (sy_part _ Hs))). by rewrite app_assoc.
Qed.

(** With one receiver what was saved of an event, followed by
    what its barrel holds and what the receiver is about to put there, are messages
    of the event in the order of their arrival; all of them when none of its
    messages was refused and no save failed. *)
Theorem events_in_order `{GoRuntime} max cache events s id : reachable max cache 1 events s →
  event_sequence id s `sublist_of` of_event id (hi_received (ls_history s)) ∧
  (hs_garbageMessage (ls_store s) = [] → hi_flushed (ls_history s) = [] → hi_discarded (ls_history s) = [] →
   event_sequence id s = of_event id (hi_received (ls_history s))).
Proof.
  intros Hr. pose proof (reachable_lone _ _ _ _ Hr) as [r Hl]. split; [apply (lo_order _ _ Hl id)|].
  by eapply in_order_exact.
Qed.

(** The configuration stays. *)
Lemma refuse_config err m s : config (ls_store (refuse err m s)) = config (ls_store s).
Proof. by destruct err. Qed.

Lemma on_store_config f s : config (f (ls_store s) (ls_world s)).1 = config (ls_store s) →
  config (ls_store (on_store f s)) = config (ls_store s).
Proof. unfold on_store. by destruct (f (ls_store s) (ls_world s)) as [h w]. Qed.

Lemma step_config `{GoRuntime} l s s' : system_ok s → step l s = Some s' → config (ls_store s') = config (ls_store s).
Proof.
  intros Hs. destruct l; cbn [step].
  - unfold receive. destruct (ls_receivers s !! t) as [[]|]; try done. case_decide; [by intros [= <-]|].
    destruct (may_read s); [|done]. set (s1 := record _ _). assert (config (ls_store s1) = config (ls_store s)) as <- by done.
    destruct (hs_barrels (ls_store s1) !! lm_EventID m) as [e|]; [|by intros [= <-]].
    destruct (insert_refuses m e); intros [= <-]; [apply refuse_config|done].
  - unfold store_append. destruct (ls_receivers s !! t) as [[]|]; try done. destruct (hs_barrels (ls_store s) !! _); [|done].
    cbn [mbind option_bind]. destruct (insert_append m l e _) as [[e1 ch1] [ev|]]; [by intros [= <-]|].
    destruct (insert_tail now e1 ch1). by intros [= <-].
  - unfold sent. destruct (has_room _); [|done]. destruct (ls_receivers s !! t) as [[]|]; try done.
    + destruct (hs_barrels (ls_store s) !! id); [|done]. simpl. destruct (insert_tail now _ _). by intros [= <-].
    + destruct (insert_tail now _ _). by intros [= <-].
  - unfold announce. case_decide; [|done]. destruct who as [t| |]; [|by intros [= <-]..].
    destruct (ls_receivers s !! t) as [[]|]; try done. by intros [= <-].
  - unfold create. destruct (ls_receivers s !! t) as [[]|]; try done. destruct (may_write _ s); [|done].
    destruct (pool_Get pooled (ls_store s)) as [b h] eqn:Eg.
    destruct (pool_Get_ok _ _ _ _ Eg (sy_store _ (sy_part _ Hs))) as (_ & _ & <- & _).
    destruct (insert_head m _ _) as [[e1 ch1] [err|[ev|]]].
    + intros [= <-]. exact (refuse_config err m (s <| ls_store := h |>)).
    + by intros [= <-].
    + destruct (insert_tail now e1 ch1). by intros [= <-].
  - unfold take_event. destruct (ls_consumers s !! c) as [[]|]; try done.
    destruct (hs_barrelEvent (ls_store s)) as [|ev ch]; [done|]. intros [= <-].
    destruct ev as [|k [|id [|st [|msg [|]]]]]; try done; by case_decide.
  - unfold save_event. destruct (ls_consumers s !! c) as [[|id]|]; try done. destruct (may_read s); [|done].
    intros [= <-]. destruct (persistence_saves_well id err (ls_store s) (ls_world s)) as [H1 _].
    destruct (H1 (sy_store _ (sy_part _ Hs)) (sy_saved _ (sy_part _ Hs))) as (_ & _ & Hc & _).
    pose proof (on_store_config (store_persistence id err) (s <| ls_consumers ::= <[c := Ready]> |>)) as Hx. exact (Hx Hc).
  - destruct (may_write ByGc s); [|done]. intros [= <-]. set (s1 := _ <| ls_writer := None |>).
    assert (store_ok (ls_store s1)) as Hs1 by (destruct (sy_store _ (sy_part _ Hs)); by split).
    destruct (gcRun_saves_well now errs (ls_store s1) (ls_world s1) Hs1 (sy_saved _ (sy_part _ Hs))) as (_ & _ & Hc & _).
    pose proof (on_store_config (gcRun now errs) s1) as Hx. exact (Hx Hc).
  - destruct (may_write ByStop s); [|done]. intros [= <-].
    destruct (save_all_saves_well errs (range_order (hs_barrels (ls_store s))).*1 _ _ (sy_store _ (sy_part _ Hs)) (sy_saved _ (sy_part _ Hs))) as (_ & _ & Hc & _).
    pose proof (on_store_config (store_stop errs) (s <| ls_writer := None |>)) as Hx. exact (Hx Hc).
  - intros [= <-]. done.
Qed.

(** With one receiver a barrel counts at most one message more than the maximum of
    its event and never holds more messages than it counts, however long saving is
    delayed; its counter does not overflow. *)
Theorem barrels_bounded `{GoRuntime} max cache events s id e : reachable max cache 1 events s →
  (max < 2 ^ 63 - 1)%Z → hs_barrels (ls_store s) !! id = Some e →
  Forall (λ m, lm_EventID m = id) (content e) ∧
  (Z.of_nat (length (content e)) ≤ eb_size e ≤ Z.max 0 (max + 1))%Z ∧ in_int64 (eb_size e).
Proof.
  intros Hr Hmax He. destruct (reachable_ok _ _ _ _ Hr) as [Hs _].
  assert (hs_PeerEventMaxLogNumber (ls_store s) = max) as Hm.
  { destruct Hr as [ls Hls]. refine (proj2 (steps_ind (λ s, system_ok s ∧ hs_PeerEventMaxLogNumber (ls_store s) = max) _ _ _ _ _ Hls)).
    - intros l s1 s2 [Hs1 Hm1] Hstep. split; [by eapply step_ok|]. rewrite <- Hm1.
      injection (step_config _ _ _ Hs1 Hstep). done.
    - split; [apply start_ok|done]. }
  destruct (so_barrels _ (sy_store _ (sy_part _ Hs)) _ _ He) as [Hid Hms Hx Hc Hl Hz]. rewrite Hm in Hz.
  split; [done|]. unfold in_int64. lia.
Qed.

(** ** Two receivers *)

Definition demo_msg (id step text : string) : EventLogMessage := mkMsg id step "" text "info" "" (Some text).

Definition two_creations : list label :=
  [LReceive 0 (demo_msg "e" "deploy" "first"); LReceive 1 (demo_msg "e" "deploy" "second");
   LAnnounce (ByReceiver 0); LCreate 0 None 3; LAnnounce (ByReceiver 1); LCreate 1 None 4].

(** With the two receivers of the default configuration a message
    can be lost: both find no barrel for an event, and the barrel of the second
    replaces that of the first with the message in it. *)
Theorem creation_race_loses `{GoRuntime} : ∃ s, steps two_creations default_system = Some s ∧
  hi_received (ls_history s) = [demo_msg "e" "deploy" "first"; demo_msg "e" "deploy" "second"] ∧
  contents_of (hs_barrels (ls_store s) !! "e"%string) = [demo_msg "e" "deploy" "second"] ∧
  hi_overwritten (ls_history s) = [demo_msg "e" "deploy" "first"] ∧
  lw_saved (ls_world s) = [] ∧ hs_garbageMessage (ls_store s) = [].
Proof. eexists. split; [vm_compute; reflexivity|]. by vm_compute. Qed.

(** Two receivers inside the read lock append to one barrel. *)
Definition demo_created : list label := [LReceive 0 (demo_msg "e" "deploy" "first"); LAnnounce (ByReceiver 0); LCreate 0 None 1].

Definition two_appends : list label :=
  demo_created ++ [LReceive 0 (demo_msg "e" "deploy" "second"); LReceive 1 (demo_msg "e" "deploy" "third");
    LAppend 0 2; LAppend 1 3].

(** Both have read the same slice: the store of one undoes that of the
    other, and a message is nowhere although the barrel counts it. *)
Theorem append_race_loses `{GoRuntime} : ∃ s, steps two_appends default_system = Some s ∧
  hi_received (ls_history s) = [demo_msg "e" "deploy" "first"; demo_msg "e" "deploy" "second"; demo_msg "e" "deploy" "third"] ∧
  whereabouts s = [demo_msg "e" "deploy" "first"; demo_msg "e" "deploy" "third"] ∧ hi_overwritten (ls_history s) = [] ∧
  eb_size <$> hs_barrels (ls_store s) !! "e"%string = Some 3%Z.
Proof. eexists. split; [vm_compute; reflexivity|]. by vm_compute. Qed.

Definition append_and_last : list label :=
  demo_created ++ [LReceive 0 (demo_msg "e" "deploy" "second"); LReceive 1 (demo_msg "e" "last" "done");
    LAppend 1 2; LAppend 0 3].

(** The last message moves the barrel to the waiting queue meanwhile: what
    was moved comes back into the barrel and is saved twice. *)
Theorem append_race_doubles `{GoRuntime} : ∃ s, steps append_and_last default_system = Some s ∧
  whereabouts s = [demo_msg "e" "deploy" "first"; demo_msg "e" "last" "done";
                   demo_msg "e" "deploy" "first"; demo_msg "e" "deploy" "second"].
Proof. eexists. split; [vm_compute; reflexivity|]. by vm_compute. Qed.

(** ** Blocking sends *)

Definition sending (r : receiver) : bool := match r with BlockedRead _ _ => true | _ => false end.

(** Nothing can move: the receivers are inside the read lock in a send to the
    full channel, every consumer waits for the read lock, and the writer that has
    announced itself keeps it from them. *)
Record stuck (s : log_system) : Prop := {
  st_receivers : Forall (λ r, sending r = true) (ls_receivers s);
  st_some : ls_receivers s ≠ [];
  st_consumers : Forall (λ c, c ≠ Ready) (ls_consumers s);
  st_writer : ls_writer s ≠ None;
  st_channel : has_room (hs_barrelEvent (ls_store s)) = false
}.

Definition flushes (l : label) : Prop := match l with LFlush _ => True | _ => False end.

Lemma stuck_stays `{GoRuntime} l s s' : stuck s → step l s = Some s' → flushes l ∧ stuck s'.
Proof.
  intros [Hr Hne Hc Hw Hch].
  assert (may_read s = false) as Hread by by apply bool_decide_eq_false.
  assert (∀ who, may_write who s = false) as Hwrite.
  { intros who. unfold may_write. destruct (ls_receivers s) as [|r rs]; [done|]. apply Forall_cons in Hr as [Hr _].
    destruct r; try done. apply andb_false_r. }
  rewrite Forall_lookup in Hr. rewrite Forall_lookup in Hc.
  destruct l; cbn [step].
  - unfold receive. destruct (ls_receivers s !! t) as [[]|] eqn:E; try done. by apply Hr in E.
  - unfold store_append. destruct (ls_receivers s !! t) as [[]|] eqn:E; try done. by apply Hr in E.
  - unfold sent. by rewrite Hch.
  - unfold announce. by rewrite decide_False.
  - unfold create. destruct (ls_receivers s !! t) as [[]|] eqn:E; try done. by apply Hr in E.
  - unfold take_event. destruct (ls_consumers s !! c) as [[]|] eqn:E; try done. by apply Hc in E.
  - unfold save_event. destruct (ls_consumers s !! c) as [[]|]; try done. by rewrite Hread.
  - by rewrite Hwrite.
  - by rewrite Hwrite.
  - intros [= <-]. split; [done|]. split; simpl; [by apply Forall_lookup|done|by apply Forall_lookup|done|done].
Qed.

(** Fifty last messages fill the channel; the consumers take three commands to
    save, two more messages fill it again, a third blocks, and the garbage
    collection asks for the lock. *)
Definition last_msg : EventLogMessage := demo_msg "e" "last" "done".

Definition deadlock_run : list label :=
  [LReceive 0 last_msg; LAnnounce (ByReceiver 0); LCreate 0 None 1; LSent 0 1] ++
  concat (replicate 49 [LReceive 0 last_msg; LAppend 0 1; LSent 0 1]) ++
  [LEvent 0 "" None; LEvent 1 "" None; LEvent 1 "" None; LEvent 2 "" None; LEvent 2 "" None] ++
  [LReceive 0 last_msg; LAppend 0 1; LSent 0 1; LReceive 0 last_msg; LAppend 0 1; LSent 0 1; LReceive 0 last_msg; LAppend 0 1; LAnnounce ByGc].

Definition stuck_now (s : log_system) : bool :=
  forallb sending (ls_receivers s) && negb (bool_decide (length (ls_receivers s) = 0)) &&
  forallb (λ c, match c with Ready => false | Saving _ => true end) (ls_consumers s) &&
  negb (bool_decide (ls_writer s = None)) && negb (has_room (hs_barrelEvent (ls_store s))).

Lemma stuck_now_spec s : stuck_now s = true → stuck s.
Proof.
  unfold stuck_now. intros [[[[H1 H2]%andb_true_iff H3]%andb_true_iff H4]%andb_true_iff H5]%andb_true_iff.
  split.
  - apply Forall_forall. intros r Hr. rewrite forallb_forall in H1. by apply H1, list_elem_of_In.
  - intros E. by rewrite E in H2.
  - apply Forall_forall. intros [] Hc; [|done]. rewrite forallb_forall in H3. apply list_elem_of_In, H3 in Hc. done.
  - intros E. by rewrite E in H4.
  - by apply negb_true_iff in H5.
Qed.

(** Even with a single receiver the service can stop for ever:
    there is a reachable state from which, whatever happens, only the garbage file
    is still written; no message is received, saved or collected any more. *)
Theorem blocking_sends_deadlock `{GoRuntime} : ∃ s, reachable 100000 256 1 ∅ s ∧
  ∀ ls s', steps ls s = Some s' → Forall flushes ls.
Proof.
  assert (∃ s, steps deadlock_run (start_system 100000 256 1 ∅) = Some s ∧ stuck_now s = true) as (s & Hs & Hstuck).
  { eexists. split; vm_compute; reflexivity. }
  apply stuck_now_spec in Hstuck. exists s. split; [by eexists|].
  clear Hs. intros ls. revert s Hstuck. induction ls as [|l ls IH]; intros s Hstuck s'; simpl; [done|].
  destruct (step l s) as [s1|] eqn:E; [|done]. simpl. intros Hls.
  destruct (stuck_stays _ _ _ Hstuck E) as [Hl Hs1]. constructor; [done|]. by eapply IH.
Qed.

(** ** Examples *)

(** Two messages of an event, the last one saved. *)
Definition demo_run : list label :=
  [LReceive 0 (demo_msg "e" "deploy" "first"); LAnnounce (ByReceiver 0); LCreate 0 None 1;
   LReceive 0 last_msg; LAppend 0 2; LSent 0 2; LReceive 0 (demo_msg "e" "after" "more"); LAppend 0 3; LEvent 0 "" None; LSave 0 None].

Lemma demo_reached : ∃ s, steps (H := ref_runtime) demo_run (start_system 100000 256 1 ∅) = Some s ∧
  hs_garbageMessage (ls_store s) = [] ∧ hi_flushed (ls_history s) = [] ∧ hi_discarded (ls_history s) = [] ∧
  of_event "e" (hi_received (ls_history s)) = [demo_msg "e" "deploy" "first"; last_msg; demo_msg "e" "after" "more"] ∧
  lw_saved (ls_world s) = [[demo_msg "e" "deploy" "first"; last_msg]] ∧
  (∃ e, hs_barrels (ls_store s) !! "e"%string = Some e ∧ eb_size e = 3%Z) ∧ length (hi_received (ls_history s)) = 3.
Proof.
  eexists. split; [vm_compute; reflexivity|]. do 5 (split; [vm_compute; reflexivity|]).
  split; [eexists; split; vm_compute; reflexivity|vm_compute; reflexivity].
Qed.


Lemma events_in_order_witness : ∃ s,
  event_sequence "e" s = [demo_msg "e" "deploy" "first"; last_msg; demo_msg "e" "after" "more"].
Proof.
  destruct demo_reached as (s & Hs & Hg & Hf & Hd & Hr & _). exists s. rewrite <- Hr.
  apply (events_in_order (H := ref_runtime) 100000 256 ∅ s "e"); [by exists demo_run|done..].
Defined.

Lemma barrels_bounded_witness : ∃ e, eb_size e = 3%Z ∧ (Z.of_nat (length (content e)) ≤ 3)%Z.
Proof.
  destruct demo_reached as (s & Hs & _ & _ & _ & _ & _ & (e & He & Hz) & _). exists e. split; [done|]. rewrite <- Hz.
  apply (barrels_bounded (H := ref_runtime) 100000 256 ∅ s "e" e); [by exists demo_run|lia|exact He].
Defined.

(** The history a user asks for: the contents in the barrel, one less than
    asked for when there are more, and a crash when there is no barrel. *)
Lemma history_outcome id n h : (0 < n)%Z →
  GetHistoryMessage id n h =
  match hs_barrels h !! id with
  | None => Panic
  | Some b =>
    let re := (λ m, default ""%string (lm_Content m)) <$> eb_barrel b in
    Ok (if decide (n < Z.of_nat (length re))%Z then take (Z.to_nat n - 1) re else re)
  end.
Proof.
  intros Hn. unfold GetHistoryMessage. destruct (hs_barrels h !! id) as [b|]; [|done]. cbn zeta.
  set (re := _ <$> eb_barrel b).
  destruct (decide (n < Z.of_nat (length re))%Z) as [Hl|Hl].
  - rewrite decide_True by lia. rewrite decide_True by lia. do 2 f_equal. lia.
  - by rewrite decide_False by lia.
Qed.
