(* ===== verification/EventFile.v ===== *)
(** * The files of event messages

    [eventlog/db/eventFilePlugin.go]: a file per event, to which batches of
    messages are appended and from which the API reads them back.  The paths are
    those of [Gc], lists of elements. *)
From stdpp Require Import pretty.
From S2P Require Export Prelude Gc EventLog EventLogSpec.

(** ** Levels and times *)

Definition GetLevelFlag (level : string) : string :=
  if decide (level = "error"%string) then "0 "
  else if decide (level = "info"%string) then "1 "
  else if decide (level = "debug"%string) then "2 "
  else "0 ".

Definition CheckLevel (flag level : string) : bool :=
  if decide (flag = "0"%string) then true
  else if decide (flag = "1"%string) then negb (bool_decide (level = "error"%string))
  else if decide (flag = "2"%string) then bool_decide (level = "debug"%string)
  else false.

(** ** Reading lines

    [bufio.Reader.ReadLine] with its buffer of 4096 bytes: a longer line comes
    in pieces.  [read_slice] reads up to a newline or until the buffer is full. *)
Definition is_newline (c : Ascii.ascii) : bool := bool_decide (Ascii.nat_of_ascii c = 10).
Definition is_return (c : Ascii.ascii) : bool := bool_decide (Ascii.nat_of_ascii c = 13).

Fixpoint read_slice (room : nat) (s : string) : string * bool * string :=
  match room with
  | O => (""%string, false, s)
  | S room =>
    match s with
    | EmptyString => (""%string, false, ""%string)
    | String c s' =>
      if is_newline c then (""%string, true, s')
      else let '(line, ended, rest) := read_slice room s' in (String c line, ended, rest)
    end
  end.

(** Without a carriage return at the end, and whether there was one. *)
Fixpoint chomp (s : string) : string * bool :=
  match s with
  | EmptyString => (""%string, false)
  | String c EmptyString => if is_return c then (""%string, true) else (s, false)
  | String c s' => let '(r, b) := chomp s' in (String c r, b)
  end.

Definition buffer_size : nat := 4096.

Definition ReadLine (s : string) : option (string * string) :=
  match s with
  | EmptyString => None
  | _ =>
    let '(line, ended, rest) := read_slice buffer_size s in
    let '(chomped, cr) := chomp line in
    if ended then Some (chomped, rest)
    else if decide (String.length line = buffer_size ∧ cr = true)
    then Some (chomped, String (Ascii.ascii_of_nat 13) rest)
    else Some (line, rest)
  end.

(** [strings.SplitN(s, " ", 2)] when there are two fields. *)
Fixpoint cut_space (s : string) : option (string * string) :=
  match s with
  | EmptyString => None
  | String c s' =>
    if bool_decide (Ascii.nat_of_ascii c = 32) then Some (""%string, s')
    else '(a, b) ← cut_space s'; Some (String c a, b)
  end.

Record MessageData := mkMessageData { md_Message : string; md_Time : string; md_Unixtime : Z }.

(** A file system: the contents of files by their paths. *)
Abbreviation files := (gmap (list string) string).

Section plugin.
(** [time.ParseInLocation] with a layout in the local zone, as a Unix time, and
    [Format(time.RFC3339)] of one. *)
Context (parse_time : string → string → option Z) (format_time : Z → string).
(** [EventFilePlugin.HomePath] *)
Context (HomePath : list string).

Definition GetTimeUnix (timeStr : string) : Z :=
  let timeLayout := if str_contains timeStr "." then "2006-01-02T15:04:05"%string else "2006-01-02T15:04:05+08:00"%string in
  default 0%Z (parse_time timeLayout timeStr).

(** A message without a time gets the one before it. *)
Definition log_time (lastTime : Z) (e : EventLogMessage) : Z :=
  let logtime := GetTimeUnix (lm_Time e) in if decide (logtime = 0%Z) then lastTime else logtime.

Definition write_message (lastTime : Z) (e : EventLogMessage) : string :=
  GetLevelFlag (lm_Level e) +:+ pretty (log_time lastTime e) +:+ " " +:+ lm_Message e +:+ newline.

Fixpoint write_messages (lastTime : Z) (events : list EventLogMessage) : string :=
  match events with
  | [] => ""
  | e :: events' => write_message lastTime e +:+ write_messages (log_time lastTime e) events'
  end.

(** [SaveMessage]; [err] is the outcome of making the directory and opening
    the file.  Errors of the writes are not looked at. *)
Definition EventFile_SaveMessage (err : option error) (events : list EventLogMessage) (fs : files) : files * option error :=
  match events with
  | [] => (fs, None)
  | e :: _ =>
    match err with
    | Some x => (fs, Some x)
    | None =>
      let filename := EventLogFileName (EventLogFilePath HomePath) (lm_EventID e) in
      (<[filename := default ""%string (fs !! filename) +:+ write_messages 0 events]> fs, None)
    end
  end.

Definition parse_line (level line : string) : option MessageData :=
  match line with
  | EmptyString => None
  | String flag _ =>
    if decide (2 < String.length line) then
      if CheckLevel (String flag "") level then
        '(_, rest) ← cut_space line;
        '(timeunix, message) ← cut_space rest;
        let unix := (Atoi timeunix).1 in
        Some (mkMessageData message (format_time unix) unix)
      else None
    else None
  end.

(** The loop over the lines; [message] is what was read so far. *)
Fixpoint read_messages (fuel : nat) (level : string) (length : Z) (s : string) (message : list MessageData) : list MessageData :=
  match fuel with
  | O => message
  | S fuel =>
    match ReadLine s with
    | None => message
    | Some (line, rest) =>
      match parse_line level line with
      | None => read_messages fuel level length rest message
      | Some md =>
        let message := message ++ [md] in
        if decide (length < Z.of_nat (List.length message) ∧ length ≠ 0)%Z then message
        else read_messages fuel level length rest message
      end
    end
  end.

(** [GetMessages]; a line takes at least one byte of the file. *)
Definition GetMessages (eventID level : string) (length : Z) (err : option error) (fs : files) : result (list MessageData) :=
  match fs !! Gc.Join (Gc.Join HomePath "eventlog") (eventID +:+ ".log") with
  | None => Ok []
  | Some s =>
    match err with
    | Some e => Err e
    | None => Ok (read_messages (S (String.length s)) level length s [])
    end
  end.
End plugin.

(** ** Strings *)

Lemma str_app_assoc (a b c : string) : (a +:+ b) +:+ c = a +:+ (b +:+ c).
Proof. induction a as [|x a IH]; [done|]. exact (f_equal (String x) IH). Qed.

Lemma str_length_app (a b : string) : String.length (a +:+ b) = String.length a + String.length b.
Proof. induction a as [|x a IH]; [done|]. exact (f_equal S IH). Qed.

Lemma str_app_nil (a : string) : a +:+ "" = a.
Proof. induction a as [|x a IH]; [done|]. exact (f_equal (String x) IH). Qed.

Fixpoint all_chars (P : Ascii.ascii → bool) (s : string) : bool :=
  match s with EmptyString => true | String c s' => P c && all_chars P s' end.

Lemma all_chars_app P a b : all_chars P (a +:+ b) = all_chars P a && all_chars P b.
Proof.
  induction a as [|x a IH]; [done|]. change (String x a +:+ b) with (String x (a +:+ b)).
  cbn [all_chars]. by rewrite IH, andb_assoc.
Qed.

(** Text without newlines: one line. *)
Abbreviation one_line := (all_chars (λ c, negb (is_newline c))).

Lemma read_slice_line l rest room : one_line l = true → String.length l < room →
  read_slice room (l +:+ newline +:+ rest) = (l, true, rest).
Proof.
  revert l. induction room as [|room IH]; intros l Hl Hr; [lia|].
  destruct l as [|c l]; [done|]. cbn in Hl. apply andb_true_iff in Hl as [Hc Hl]. apply negb_true_iff in Hc.
  change (String c l +:+ newline +:+ rest) with (String c (l +:+ newline +:+ rest)).
  cbn [read_slice]. rewrite Hc. cbn in Hr. by rewrite IH by (done || lia).
Qed.

Lemma chomp_keeps s : (chomp s).2 = false → chomp s = (s, false).
Proof.
  induction s as [|c s IH]; [done|]. destruct s as [|d s].
  - cbn [chomp]. by destruct (is_return c).
  - change (chomp (String c (String d s))) with (let '(r, b) := chomp (String d s) in (String c r, b)).
    destruct (chomp (String d s)) as [r b]. cbn. intros ->. by injection (IH eq_refl) as ->.
Qed.

(** A text ends in a carriage return when its last part does. *)
Lemma chomp_app a b : b ≠ ""%string → (chomp (a +:+ b)).2 = (chomp b).2.
Proof.
  intros Hb. induction a as [|c a IH]; [done|].
  change (String c a +:+ b) with (String c (a +:+ b)).
  destruct (a +:+ b) as [|d s] eqn:E; [destruct a; [done|discriminate]|].
  change (chomp (String c (String d s))) with (let '(r, b) := chomp (String d s) in (String c r, b)).
  destruct (chomp (String d s)) as [r x]. cbn in *. by rewrite <- IH.
Qed.

Lemma ReadLine_line l rest : one_line l = true → String.length l < buffer_size → (chomp l).2 = false →
  ReadLine (l +:+ newline +:+ rest) = Some (l, rest).
Proof.
  intros Hl Hlen Hcr. unfold ReadLine. rewrite read_slice_line by done.
  destruct (l +:+ newline +:+ rest) eqn:E; [by destruct l|]. by rewrite chomp_keeps.
Qed.

Lemma cut_space_field a b : all_chars (λ c, negb (bool_decide (Ascii.nat_of_ascii c = 32))) a = true →
  cut_space (a +:+ " " +:+ b) = Some (a, b).
Proof.
  induction a as [|c a IH]; [done|]. cbn [all_chars]. intros [Hc Ha]%andb_true_iff. apply negb_true_iff in Hc.
  change (String c a +:+ " " +:+ b) with (String c (a +:+ " " +:+ b)). cbn [cut_space].
  rewrite Hc, IH by done. done.
Qed.

(** ** Numbers *)

Definition is_digit (c : Ascii.ascii) : bool := bool_decide (48 ≤ Ascii.nat_of_ascii c ≤ 57)%nat.

Lemma pretty_char_digit (d : N) : (d < 10)%N → digit_value (pretty_N_char d) = Some (Z.of_N d) ∧ is_digit (pretty_N_char d) = true.
Proof.
  intros Hd. assert (d = 0 ∨ d = 1 ∨ d = 2 ∨ d = 3 ∨ d = 4 ∨ d = 5 ∨ d = 6 ∨ d = 7 ∨ d = 8 ∨ d = 9)%N as Hcases by lia.
  repeat (destruct Hcases as [->|Hcases]; [done|]). by subst.
Qed.

Lemma parse_pretty_go (x : N) s : parse_digits 0 (pretty_N_go x s) = parse_digits (Z.of_N x) s.
Proof.
  revert s. induction (N.lt_wf_0 x) as [x _ IH]. intros s.
  destruct (decide (x = 0)%N) as [->|Hx]; [by rewrite pretty_N_go_0|].
  rewrite pretty_N_go_step by lia.
  assert (x mod 10 < 10)%N as Hm by (apply N.mod_lt; lia).
  rewrite IH by (apply N.div_lt; lia). cbn [parse_digits].
  destruct (pretty_char_digit _ Hm) as [-> _]. cbn. f_equal.
  rewrite (N.div_mod x 10) at 3 by lia. lia.
Qed.

Lemma pretty_go_digits (x : N) s : all_chars is_digit s = true → all_chars is_digit (pretty_N_go x s) = true.
Proof.
  revert s. induction (N.lt_wf_0 x) as [x _ IH]. intros s Hs.
  destruct (decide (x = 0)%N) as [->|Hx]; [by rewrite pretty_N_go_0|].
  rewrite pretty_N_go_step by lia. apply IH; [apply N.div_lt; lia|]. cbn [all_chars].
  rewrite Hs. destruct (pretty_char_digit (x mod 10)) as [_ ->]; [apply N.mod_lt; lia|done].
Qed.

Lemma pretty_go_grows (x : N) s : s ≠ ""%string → pretty_N_go x s ≠ ""%string.
Proof.
  revert s. induction (N.lt_wf_0 x) as [x _ IH]. intros s Hs.
  destruct (decide (x = 0)%N) as [->|Hx]; [by rewrite pretty_N_go_0|].
  rewrite pretty_N_go_step by lia. apply IH; [apply N.div_lt; lia|done].
Qed.

Lemma parse_pretty_N (x : N) : parse_digits 0 (pretty x) = Some (Z.of_N x) ∧
  all_chars is_digit (pretty x) = true ∧ pretty x ≠ ""%string.
Proof.
  unfold pretty, pretty_N. destruct (decide (x = 0)%N) as [->|Hx]; [done|].
  split; [apply parse_pretty_go|]. split; [by apply pretty_go_digits|].
  rewrite pretty_N_go_step by lia. by apply pretty_go_grows.
Qed.

(** Printing a number and reading it back. *)
Lemma Atoi_pretty z : in_int64 z → Atoi (pretty z) = (z, true).
Proof.
  unfold in_int64. intros Hz.
  assert (∀ (x : N) s z, pretty x = s → z = Z.of_N x → (z < 2 ^ 63)%Z → Atoi s = (z, true)) as Hpos.
  { intros x s y <- -> Hy. destruct (parse_pretty_N x) as (Hp & Hd & Hne). unfold Atoi.
    destruct (pretty x) as [|c s] eqn:E; [done|]. cbn [all_chars] in Hd. apply andb_true_iff in Hd as [Hc _].
    apply bool_decide_eq_true in Hc. rewrite decide_False by lia. rewrite decide_False by lia.
    rewrite Hp. rewrite decide_False by lia. rewrite decide_False by lia. do 2 f_equal; lia. }
  destruct z as [|p|p].
  - by apply (Hpos 0%N).
  - apply (Hpos (N.pos p)); [done|done|lia].
  - destruct (parse_pretty_N (N.pos p)) as (Hp & Hd & Hne).
    change (pretty (Z.neg p)) with (String (Ascii.ascii_of_nat 45) (pretty (N.pos p))).
    unfold Atoi. rewrite decide_True by done. destruct (pretty (N.pos p)) as [|c s] eqn:E; [done|].
    rewrite Hp. rewrite decide_False by lia. rewrite decide_False by lia. do 2 f_equal; lia.
Qed.

Lemma pretty_chars (z : Z) (P : Ascii.ascii → bool) :
  (∀ c, is_digit c = true → P c = true) → P (Ascii.ascii_of_nat 45) = true → all_chars P (pretty z) = true.
Proof.
  intros HP Hm. assert (∀ s, all_chars is_digit s = true → all_chars P s = true) as Hall.
  { intros s. induction s as [|c s IH]; [done|]. cbn [all_chars]. intros [Hc Hs]%andb_true_iff. by rewrite HP, IH. }
  destruct z as [|p|p].
  - by apply Hall.
  - apply Hall. apply (parse_pretty_N (N.pos p)).
  - change (pretty (Z.neg p)) with (String (Ascii.ascii_of_nat 45) (pretty (N.pos p))). cbn [all_chars].
    rewrite Hm. apply Hall. apply (parse_pretty_N (N.pos p)).
Qed.

Lemma pretty_nonempty (z : Z) : ∃ c s, pretty z = String c s.
Proof.
  destruct z as [|p|p]; [by eexists _, _| |by eexists _, _].
  change (pretty (Z.pos p)) with (pretty (N.pos p)). destruct (parse_pretty_N (N.pos p)) as (_ & _ & Hne).
  destruct (pretty (N.pos p)) as [|c s]; [done|]. by eexists _, _.
Qed.

Lemma pretty_go_length k (x : N) s : (x < 10 ^ N.of_nat k)%N → String.length (pretty_N_go x s) ≤ k + String.length s.
Proof.
  revert x s. induction k as [|k IH]; intros x s Hx.
  - assert (x = 0)%N as -> by (simpl in Hx; lia). by rewrite pretty_N_go_0.
  - destruct (decide (x = 0)%N) as [->|Hx0]; [rewrite pretty_N_go_0; lia|].
    rewrite pretty_N_go_step by lia. etrans; [apply IH|cbn [String.length]; lia].
    apply N.Div0.div_lt_upper_bound. rewrite Nat2N.inj_succ, N.pow_succ_r' in Hx. lia.
Qed.

(** At most nineteen digits and a sign. *)
Lemma pretty_length z : in_int64 z → String.length (pretty z) ≤ 20.
Proof.
  unfold in_int64. intros Hz.
  assert (∀ p : positive, (Z.pos p ≤ 2 ^ 63)%Z → String.length (pretty (N.pos p)) ≤ 19) as Hp.
  { intros p Hp. unfold pretty, pretty_N. destruct (decide (N.pos p = 0)%N) as [|_]; [done|].
    etrans; [apply (pretty_go_length 19)|cbn; lia]. change (10 ^ N.of_nat 19)%N with 10000000000000000000%N. lia. }
  destruct z as [|p|p]; [vm_compute; lia| |].
  - etrans; [apply (Hp p)|]; lia.
  - change (pretty (Z.neg p)) with (String (Ascii.ascii_of_nat 45) (pretty (N.pos p))).
    cbn [String.length]. pose proof (Hp p). lia.
Qed.

(** ** Writing and reading back *)

Section roundtrip.
Context (parse_time : string → string → option Z) (format_time : Z → string) (HomePath : list string).
(** Unix times are 64-bit integers. *)
Context (Htime : ∀ layout s t, parse_time layout s = Some t → in_int64 t).

Abbreviation log_time := (log_time parse_time).
Abbreviation write_message := (write_message parse_time).
Abbreviation write_messages := (write_messages parse_time).
Abbreviation read_messages := (read_messages format_time).
Abbreviation parse_line := (parse_line format_time).

(** A text that fits a line: no newline, no carriage return at its end, and
    short enough for the buffer. *)
Definition fits (e : EventLogMessage) : Prop :=
  one_line (lm_Message e) = true ∧ (chomp (lm_Message e)).2 = false ∧ String.length (lm_Message e) ≤ 4071.

Definition line_of (lastTime : Z) (e : EventLogMessage) : string :=
  GetLevelFlag (lm_Level e) +:+ pretty (log_time lastTime e) +:+ " " +:+ lm_Message e.

Lemma write_message_line lastTime e : write_message lastTime e = line_of lastTime e +:+ newline.
Proof. unfold EventFile.write_message, line_of. by rewrite !str_app_assoc. Qed.

Lemma log_time_range lastTime e : in_int64 lastTime → in_int64 (log_time lastTime e).
Proof.
  intros Hl. unfold EventFile.log_time. case_decide; [done|]. unfold GetTimeUnix.
  destruct (parse_time _ _) as [t|] eqn:E; [by eapply Htime|]. cbn. unfold in_int64. lia.
Qed.

(** The flag of a level, without its space. *)
Lemma level_flag level : ∃ flag, GetLevelFlag level = String flag " " ∧ negb (is_newline flag) = true ∧
  negb (bool_decide (Ascii.nat_of_ascii flag = 32)) = true.
Proof. unfold GetLevelFlag. split_decide; by eexists. Qed.

Definition visible (level : string) (e : EventLogMessage) : bool :=
  match GetLevelFlag (lm_Level e) with String flag _ => CheckLevel (String flag "") level | _ => false end.

Definition entry (lastTime : Z) (e : EventLogMessage) : MessageData :=
  mkMessageData (lm_Message e) (format_time (log_time lastTime e)) (log_time lastTime e).

Lemma digit_no_newline c : is_digit c = true → negb (is_newline c) = true.
Proof. unfold is_digit, is_newline. intros Hc%bool_decide_eq_true. apply negb_true_iff, bool_decide_eq_false. lia. Qed.

Lemma digit_no_space c : is_digit c = true → negb (bool_decide (Ascii.nat_of_ascii c = 32)) = true.
Proof. unfold is_digit. intros Hc%bool_decide_eq_true. apply negb_true_iff, bool_decide_eq_false. lia. Qed.

Lemma read_line_of lastTime e rest : in_int64 lastTime → fits e →
  ReadLine (line_of lastTime e +:+ newline +:+ rest) = Some (line_of lastTime e, rest).
Proof.
  intros Hl (Hnl & Hcr & Hlen). pose proof (pretty_length _ (log_time_range lastTime e Hl)) as Hp.
  destruct (level_flag (lm_Level e)) as (flag & Hflag & Hf & _).
  apply ReadLine_line; unfold line_of; rewrite Hflag.
  - rewrite !all_chars_app, Hnl, pretty_chars by (exact digit_no_newline || done). cbn [all_chars]. by rewrite Hf.
  - rewrite !str_length_app. cbn [String.length]. unfold buffer_size. lia.
  - assert (" " +:+ lm_Message e ≠ ""%string) as H1 by discriminate.
    assert (pretty (log_time lastTime e) +:+ " " +:+ lm_Message e ≠ ""%string) as H2 by (destruct (pretty _); discriminate).
    rewrite (chomp_app _ _ H2), (chomp_app _ _ H1).
    destruct (decide (lm_Message e = ""%string)) as [->|Hne]; [done|]. by rewrite (chomp_app _ _ Hne).
Qed.

Lemma parse_line_fields level flag s a rest timeunix message :
  2 < String.length (String flag s) → cut_space (String flag s) = Some (a, rest) →
  cut_space rest = Some (timeunix, message) →
  parse_line level (String flag s) =
    if CheckLevel (String flag "") level
    then Some (mkMessageData message (format_time (Atoi timeunix).1) (Atoi timeunix).1) else None.
Proof.
  intros Hlen H1 H2. unfold EventFile.parse_line. rewrite decide_True by done.
  destruct (CheckLevel _ level); [|done]. rewrite H1. cbn. by rewrite H2.
Qed.

Lemma parse_line_of level lastTime e : in_int64 lastTime →
  parse_line level (line_of lastTime e) = if visible level e then Some (entry lastTime e) else None.
Proof.
  intros Hl. pose proof (log_time_range lastTime e Hl) as Ht.
  destruct (level_flag (lm_Level e)) as (flag & Hflag & _ & Hf). unfold line_of, visible, entry. rewrite Hflag.
  set (t := log_time lastTime e) in *.
  change (String flag " " +:+ pretty t +:+ " " +:+ lm_Message e)
    with (String flag (" " +:+ (pretty t +:+ " " +:+ lm_Message e))).
  rewrite (parse_line_fields level flag _ (String flag "") (pretty t +:+ " " +:+ lm_Message e) (pretty t) (lm_Message e)).
  - by rewrite (Atoi_pretty t Ht).
  - destruct (pretty_nonempty t) as (c & s & ->). cbn [String.length]. rewrite !str_length_app. cbn [String.length]. lia.
  - apply (cut_space_field (String flag "")). cbn [all_chars]. by rewrite Hf.
  - apply cut_space_field, pretty_chars; [exact digit_no_space|done].
Qed.

(** The entries of a batch; the time of a message without one comes from the
    message before it. *)
Fixpoint entries (level : string) (lastTime : Z) (l : list EventLogMessage) : list MessageData :=
  match l with
  | [] => []
  | e :: l' => (if visible level e then [entry lastTime e] else []) ++ entries level (log_time lastTime e) l'
  end.

(** Reading stops after the entry that exceeds the number asked for. *)
Definition at_most (length : Z) (l : list MessageData) : list MessageData :=
  if decide (length = 0)%Z then l else take (Z.to_nat (length + 1)) l.

(** A file as its lines. *)
Fixpoint unlines (ls : list string) : string :=
  match ls with [] => "" | l :: ls' => l +:+ newline +:+ unlines ls' end.

Lemma unlines_app ls1 ls2 : unlines (ls1 ++ ls2) = unlines ls1 +:+ unlines ls2.
Proof. induction ls1 as [|l ls1 IH]; [done|]. simpl. by rewrite IH, !str_app_assoc. Qed.

Lemma unlines_length ls : length ls ≤ String.length (unlines ls).
Proof. induction ls as [|l ls IH]; [done|]. cbn [unlines length]. rewrite !str_length_app. unfold newline. cbn [String.length]. lia. Qed.

Fixpoint batch_lines (lastTime : Z) (l : list EventLogMessage) : list string :=
  match l with [] => [] | e :: l' => line_of lastTime e :: batch_lines (log_time lastTime e) l' end.

Lemma write_messages_lines lastTime l : write_messages lastTime l = unlines (batch_lines lastTime l).
Proof.
  revert lastTime. induction l as [|e l IH]; intros lastTime; [done|].
  cbn [EventFile.write_messages batch_lines unlines]. by rewrite IH, write_message_line, str_app_assoc.
Qed.

(** A line that is read as it was written. *)
Definition readable (l : string) : Prop := ∀ rest, ReadLine (l +:+ newline +:+ rest) = Some (l, rest).

Lemma batch_readable lastTime l : in_int64 lastTime → Forall fits l → Forall readable (batch_lines lastTime l).
Proof.
  intros Ht Hl. revert lastTime Ht. induction Hl as [|e l He _ IH]; intros lastTime Ht; cbn [batch_lines]; constructor.
  - intros rest. by apply read_line_of.
  - by apply IH, log_time_range.
Qed.

Lemma batch_entries level lastTime l : in_int64 lastTime →
  omap (parse_line level) (batch_lines lastTime l) = entries level lastTime l.
Proof.
  revert lastTime. induction l as [|e l IH]; intros lastTime Ht; [done|]. cbn [batch_lines entries].
  change (omap (parse_line level) (line_of lastTime e :: batch_lines (log_time lastTime e) l))
    with (match parse_line level (line_of lastTime e) with
          | Some y => y :: omap (parse_line level) (batch_lines (log_time lastTime e) l)
          | None => omap (parse_line level) (batch_lines (log_time lastTime e) l) end).
  rewrite parse_line_of, IH by (done || by apply log_time_range). by destruct (visible level e).
Qed.

(** Reading a file of readable lines. *)
Lemma read_unlines level n fuel ls acc : (0 ≤ n)%Z → Forall readable ls → length ls < fuel →
  (Z.of_nat (length acc) ≤ n)%Z ∨ n = 0%Z →
  read_messages fuel level n (unlines ls) acc = at_most n (acc ++ omap (parse_line level) ls).
Proof.
  intros Hn Hls. revert fuel acc. induction Hls as [|l ls Hl _ IH]; intros fuel acc Hf Hacc.
  - destruct fuel as [|fuel]; [simpl in Hf; lia|]. cbn. rewrite app_nil_r. unfold at_most. case_decide; [done|].
    rewrite take_ge; [done|lia].
  - destruct fuel as [|fuel]; [simpl in Hf; lia|]. simpl in Hf. cbn [unlines EventFile.read_messages]. rewrite Hl.
    change (omap (parse_line level) (l :: ls)) with
      (match parse_line level l with Some y => y :: omap (parse_line level) ls | None => omap (parse_line level) ls end).
    destruct (parse_line level l) as [md|]; [|by apply IH; [lia|]].
    replace (acc ++ md :: omap (parse_line level) ls) with ((acc ++ [md]) ++ omap (parse_line level) ls)
      by (by rewrite <- app_assoc).
    case_decide as Hd.
    + destruct Hd as [Hlt Hne]. unfold at_most. rewrite decide_False by done. rewrite take_app_length'; [done|].
      rewrite length_app in *. simpl in *. lia.
    + apply IH; [lia|]. rewrite length_app in *. simpl in *. lia.
Qed.

(** Several batches, each written without an error. *)
Definition save_all (batches : list (list EventLogMessage)) (fs : files) : files :=
  foldl (λ fs l, (EventFile_SaveMessage parse_time HomePath None l fs).1) fs batches.

Definition log_path (id : string) : list string := EventLogFileName (EventLogFilePath HomePath) id.

Lemma log_path_inj id id' : no_slash id → no_slash id' → log_path id = log_path id' → id = id'.
Proof.
  intros H1 H2. unfold log_path, EventLogFileName. rewrite !Join_plain by by apply plain_log.
  intros [_ [= He]]%app_inj_2; [|done]. revert He. clear. revert id'.
  induction id as [|c id IH]; intros [|c' id']; intros He; try done.
  - apply (f_equal String.length) in He. rewrite !str_length_app in He. simpl in He. lia.
  - apply (f_equal String.length) in He. rewrite !str_length_app in He. simpl in He. lia.
  - injection He as -> He. f_equal. by apply IH.
Qed.

(** The batches of an event. *)
Definition mine (id : string) (batches : list (list EventLogMessage)) : list (list EventLogMessage) :=
  filter (λ l, lm_EventID <$> head l = Some id) batches.

Definition batch_fits (l : list EventLogMessage) : Prop :=
  ∃ id, no_slash id ∧ Forall (λ e, lm_EventID e = id) l ∧ Forall fits l.

Lemma save_all_file id batches fs : no_slash id → Forall batch_fits batches →
  default ""%string (save_all batches fs !! log_path id) =
  default ""%string (fs !! log_path id) +:+ unlines (concat (batch_lines 0 <$> mine id batches)).
Proof.
  intros Hid Hb. revert fs. induction Hb as [|l batches (id' & Hid' & Hl & _) _ IH]; intros fs; [by rewrite str_app_nil|].
  unfold save_all in *. cbn [foldl]. rewrite IH. clear IH. unfold mine. destruct l as [|e l].
  { rewrite filter_cons, decide_False by done. done. }
  apply Forall_cons in Hl as [He Hl]. rewrite filter_cons. cbn [head fmap option_fmap option_map].
  cbn [EventFile_SaveMessage fst]. unfold log_path. rewrite He. destruct (decide (id' = id)) as [->|Hne].
  - rewrite decide_True by by rewrite <- He. rewrite lookup_insert_eq. cbn [default from_option].
    rewrite fmap_cons, concat_cons, unlines_app, <- write_messages_lines. apply str_app_assoc.
  - rewrite decide_False by congruence. rewrite lookup_insert_ne; [done|]. intros Heq.
    apply Hne. by apply log_path_inj.
Qed.

Lemma GetMessages_text id level n fs :
  GetMessages format_time HomePath id level n None fs =
  Ok (let s := default ""%string (fs !! log_path id) in read_messages (S (String.length s)) level n s []).
Proof. unfold GetMessages. change (Gc.Join (Gc.Join HomePath "eventlog") (id +:+ ".log")) with (log_path id). by destruct (fs !! log_path id). Qed.

Lemma get_saved batches fs id level n : (0 ≤ n)%Z → no_slash id → Forall batch_fits batches →
  fs !! log_path id = None →
  GetMessages format_time HomePath id level n None (save_all batches fs) =
  Ok (at_most n (concat (entries level 0 <$> mine id batches))).
Proof.
  intros Hn Hid Hb Hnone. rewrite GetMessages_text, save_all_file, Hnone by done.
  change (default ""%string None +:+ ?s) with s. f_equal. cbn zeta.
  assert (Forall readable (concat (batch_lines 0 <$> mine id batches)) ∧
    omap (parse_line level) (concat (batch_lines 0 <$> mine id batches)) = concat (entries level 0 <$> mine id batches)) as [Hr Ho].
  { assert (Forall batch_fits (mine id batches)) as Hm.
    { apply Forall_forall. intros l [_ Hl]%list_elem_of_filter. rewrite Forall_forall in Hb. by apply Hb. }
    assert (in_int64 0) as H0 by (unfold in_int64; lia).
    induction Hm as [|l ls (? & _ & _ & Hl) _ [IH1 IH2]]; [done|]. rewrite !fmap_cons, !concat_cons. split.
    - apply Forall_app. split; [by apply batch_readable|done].
    - by rewrite omap_app, IH2, batch_entries. }
  rewrite read_unlines; [by rewrite Ho|done|done| |simpl; lia].
  pose proof (unlines_length (concat (batch_lines 0 <$> mine id batches))). lia.
Qed.

(** The messages of an event that were saved, batch by batch,
    into a file that did not exist are read back in order, those of the level asked
    for, with the time of the message before where one has none; one more than the
    number asked for. *)
Theorem saved_then_read batches fs id level n : (0 ≤ n)%Z → no_slash id → Forall batch_fits batches →
  fs !! log_path id = None →
  GetMessages format_time HomePath id level n None (save_all batches fs) =
  Ok (at_most n (concat (entries level 0 <$> mine id batches))).
Proof. apply get_saved. Qed.

(** The text of the entries for the level [debug], which sees everything. *)
Lemma debug_visible e : visible "debug" e = true.
Proof. unfold visible, GetLevelFlag. by split_decide. Qed.

Lemma entries_text lastTime l : md_Message <$> entries "debug" lastTime l = lm_Message <$> l.
Proof.
  revert lastTime. induction l as [|e l IH]; intros lastTime; [done|]. cbn [entries].
  rewrite debug_visible, fmap_app, IH. done.
Qed.

Lemma mine_messages id batches : Forall batch_ok batches → concat (mine id batches) = of_event id (concat batches).
Proof.
  induction 1 as [|l batches [id' Hl] _ IH]; [done|]. unfold mine. rewrite filter_cons, concat_cons, of_event_app.
  destruct l as [|e l]; [by rewrite decide_False|]. cbn [head].
  pose proof (Forall_inv Hl) as He. cbn in He. case_decide as Hd.
  - rewrite concat_cons. injection Hd as Hd. rewrite (of_event_all id); [by f_equal|]. rewrite <- Hd, He. done.
  - rewrite (of_event_none id id'); [done| |done]. intros ->. apply Hd. cbn. by f_equal.
Qed.

Lemma texts_of_batches (batches : list (list EventLogMessage)) :
  md_Message <$> concat (entries "debug" 0 <$> batches) = lm_Message <$> concat batches.
Proof.
  induction batches as [|l batches IH]; [done|].
  by rewrite fmap_cons, !concat_cons, !fmap_app, entries_text, IH.
Qed.

(** C17 (refinement): the log of an event is the sequence of its messages.
    Take a service with one receiver in which nothing was refused, discarded or
    put into the garbage, of any event, and no message is on its way; every message
    it received fits (a text without newlines or a carriage return at its end, short
    enough for the line buffer) and has an event id without slashes.  When the
    barrel of an event is empty, who asks for its log gets the text of all messages
    received for it, in the order of their arrival. *)
Theorem log_complete `{GoRuntime} max cache events s id : reachable max cache 1 events s →
  hs_garbageMessage (ls_store s) = [] → hi_flushed (ls_history s) = [] → hi_discarded (ls_history s) = [] →
  in_flight (ls_receivers s) = [] → contents_of (hs_barrels (ls_store s) !! id) = [] →
  no_slash id → Forall (λ e, no_slash (lm_EventID e) ∧ fits e) (hi_received (ls_history s)) →
  ∃ log, GetMessages format_time HomePath id "debug" 0 None (save_all (lw_saved (ls_world s)) ∅) = Ok log ∧
    md_Message <$> log = lm_Message <$> of_event id (hi_received (ls_history s)).
Proof.
  intros Hr Hg Hf Hd Hfl Hc Hid Hfits.
  destruct (reachable_ok _ _ _ _ Hr) as [Hs _].
  pose proof (reachable_lone _ _ _ _ Hr) as [r Hl].
  pose proof (in_order_exact _ _ _ _ id Hr Hg Hf Hd) as Hseq.
  assert (Forall (λ e, no_slash (lm_EventID e) ∧ fits e) (concat (lw_saved (ls_world s)))) as Hsf.
  { rewrite Forall_forall in *. intros e He. apply Hfits.
    rewrite (received_whereabouts _ _ _ _ Hr). unfold whereabouts. set_solver. }
  assert (Forall batch_fits (lw_saved (ls_world s))) as Hb.
  { pose proof (sy_saved _ (sy_part _ Hs)) as Hsv. revert Hsv Hsf. generalize (lw_saved (ls_world s)). clear.
    induction 1 as [|l ls [id' Hl] _ IH]; [constructor|]. rewrite concat_cons. intros [H1 H2]%Forall_app.
    constructor; [|by apply IH]. destruct l as [|e l].
    - exists ""%string. by repeat constructor.
    - exists id'. pose proof (Forall_inv Hl) as He. cbn in He. split; [rewrite <- He; apply (Forall_inv H1)|].
      split; [done|]. eapply Forall_impl; [exact H1|]. by intros x []. }
  exists (concat (entries "debug" 0 <$> mine id (lw_saved (ls_world s)))). split.
  - by apply (get_saved _ _ _ _ 0).
  - rewrite texts_of_batches, (mine_messages id _ (sy_saved _ (sy_part _ Hs))), <- Hseq. f_equal.
    unfold event_sequence, saved_or_stored. by rewrite Hfl, Hc, !app_nil_r.
Qed.
End roundtrip.

(** ** Examples *)

Definition no_times (layout s : string) : option Z := None.
Definition demo_batch : list EventLogMessage := [demo_msg "e" "deploy" "first"; last_msg].

Lemma no_times_range layout s t : no_times layout s = Some t → in_int64 t.
Proof. done. Qed.

Lemma demo_fits : Forall fits demo_batch.
Proof. repeat constructor; vm_compute; lia. Qed.

Lemma saved_then_read_witness :
  GetMessages pretty ["grdata"; "logs"]%string "e" "info" 0 None
    (save_all no_times ["grdata"; "logs"]%string [demo_batch] ∅) =
  Ok [mkMessageData "first" "0" 0; mkMessageData "done" "0" 0].
Proof.
  rewrite (saved_then_read no_times pretty ["grdata"; "logs"]%string no_times_range) by
    first [done | lia | repeat split; vm_compute; lia
          | constructor; [exists "e"%string; split; [repeat split; vm_compute; lia|split; [by repeat constructor|apply demo_fits]]|constructor]].
  reflexivity.
Defined.

(** The service saves the two messages of an event. *)
Definition drained_run : list label :=
  [LReceive 0 (demo_msg "e" "deploy" "first"); LAnnounce (ByReceiver 0); LCreate 0 None 1;
   LReceive 0 last_msg; LAppend 0 2; LSent 0 2; LEvent 0 "" None; LSave 0 None].

Lemma demo_drained : ∃ s, steps (H := ref_runtime) drained_run (start_system 100000 256 1 ∅) = Some s ∧
  hs_garbageMessage (ls_store s) = [] ∧ hi_flushed (ls_history s) = [] ∧ hi_discarded (ls_history s) = [] ∧
  in_flight (ls_receivers s) = [] ∧ contents_of (hs_barrels (ls_store s) !! "e"%string) = [] ∧
  hi_received (ls_history s) = demo_batch.
Proof. eexists. split; [vm_compute; reflexivity|]. repeat split; vm_compute; reflexivity. Qed.

Lemma log_complete_witness : ∃ s log,
  GetMessages pretty ["grdata"; "logs"]%string "e" "debug" 0 None
    (save_all no_times ["grdata"; "logs"]%string (lw_saved (ls_world s)) ∅) = Ok log ∧
  md_Message <$> log = ["first"; "done"]%string.
Proof.
  destruct demo_drained as (s & Hs & Hg & Hf & Hd & Hfl & Hc & Hr). exists s.
  destruct (log_complete no_times pretty ["grdata"; "logs"]%string no_times_range
    (H := ref_runtime) 100000 256 ∅ s "e") as (log & H1 & H2);
    [by exists drained_run|exact Hg|exact Hf|exact Hd|exact Hfl|exact Hc|repeat split; vm_compute; lia|..].
  - rewrite Hr. repeat constructor; vm_compute; lia.
  - exists log. split; [exact H1|]. rewrite H2, Hr. reflexivity.
Defined.

(** ** Long messages *)

(** A message that does not fit the buffer comes back in pieces, and a piece
    that looks like an entry is taken for one, with a level and a time of its own. *)
Definition long_message : EventLogMessage :=
  (demo_msg "e" "deploy" (String.concat "" (replicate 4092 "a"%string) +:+ "0 7 forged")) <| lm_Level := "debug"%string |>.

Theorem long_message_forges :
  GetMessages pretty ["grdata"; "logs"]%string "e" "error" 0 None
    (save_all no_times ["grdata"; "logs"]%string [[long_message]] ∅) = Ok [mkMessageData "forged" "7" 7].
Proof. vm_compute. reflexivity. Qed.

(** When more are there, one more than the number asked for is returned. *)
Theorem one_too_many :
  GetMessages pretty ["grdata"; "logs"]%string "e" "info" 1 None
    (save_all no_times ["grdata"; "logs"]%string [demo_batch] ∅) =
  Ok [mkMessageData "first" "0" 0; mkMessageData "done" "0" 0].
Proof. vm_compute. reflexivity. Qed.
