(* ===== verification/Variables.v ===== *)
(** * Variables in configuration texts

    [util.ParseVariable] of [util/comman.go], which replaces [${NAME}] and
    [${NAME:default}], and the string functions it and the conversions use. *)
From S2P Require Export Prelude.

(** ** Strings *)

Definition char_is (n : nat) (c : Ascii.ascii) : bool := bool_decide (Ascii.nat_of_ascii c = n).

(** [strings.Split(s, sep)] for a separator of one character. *)
Fixpoint split_char (sep : nat) (s : string) : list string :=
  match s with
  | EmptyString => [""%string]
  | String c s' =>
    if char_is sep c then ""%string :: split_char sep s'
    else match split_char sep s' with
         | [] => [String c ""]
         | w :: ws => String c w :: ws
         end
  end.

(** [strings.SplitN(s, sep, 2)]. *)
Fixpoint split_two (sep : nat) (s : string) : list string :=
  match s with
  | EmptyString => [""%string]
  | String c s' =>
    if char_is sep c then [""%string; s']
    else match split_two sep s' with
         | [] => [String c ""]
         | w :: ws => String c w :: ws
         end
  end.

Fixpoint has_char (n : nat) (s : string) : bool :=
  match s with EmptyString => false | String c s' => char_is n c || has_char n s' end.

(** [strings.Replace(s, sub, by, -1)] for a nonempty [sub]: after a match its
    other characters are skipped. *)
Fixpoint replace_from (sub by_ : string) (skip : nat) (s : string) : string :=
  match s with
  | EmptyString => ""
  | String c s' =>
    match skip with
    | S k => replace_from sub by_ k s'
    | O =>
      if String.prefix sub s then by_ +:+ replace_from sub by_ (String.length sub - 1) s'
      else String c (replace_from sub by_ 0 s')
    end
  end.
Definition replace_all (sub by_ s : string) : string := replace_from sub by_ 0 s.

(** [strings.ToLower] and [strings.ToUpper], on ASCII letters. *)
Definition map_char (lo hi : nat) (f : nat → nat) (c : Ascii.ascii) : Ascii.ascii :=
  let n := Ascii.nat_of_ascii c in
  if bool_decide (lo ≤ n ≤ hi) then Ascii.ascii_of_nat (f n) else c.
Fixpoint map_string (f : Ascii.ascii → Ascii.ascii) (s : string) : string :=
  match s with EmptyString => "" | String c s' => String (f c) (map_string f s') end.
Definition ToLower : string → string := map_string (map_char 65 90 (λ n, n + 32)).
Definition ToUpper : string → string := map_string (map_char 97 122 (λ n, n - 32)).

(** [path.Base]: the last element of a path. *)
Fixpoint strip_slashes (s : string) : string :=
  match s with
  | EmptyString => ""
  | String c s' =>
    let r := strip_slashes s' in
    if char_is 47 c && bool_decide (r = ""%string) then "" else String c r
  end.
Fixpoint last_element (s : string) : string :=
  match s with
  | EmptyString => ""
  | String c s' =>
    if has_char 47 s' then last_element s' else if char_is 47 c then s' else s
  end.
Definition path_base (s : string) : string :=
  if decide (s = ""%string) then "."
  else let r := last_element (strip_slashes s) in if decide (r = ""%string) then "/" else r.

(** [util.RemoveSpaces] *)
Definition RemoveSpaces (sources : list string) : list string :=
  filter (λ s, s ∉ [" "; ""; String (Ascii.ascii_of_nat 9) ""; String (Ascii.ascii_of_nat 10) "";
                   String (Ascii.ascii_of_nat 13) ""]%string) sources.

(** ** Variables

    The matches of the regular expression, ungreedy and within a line:
    a dollar sign and a brace up to the first closing brace. *)
Fixpoint until_brace (s : string) : option string :=
  match s with
  | EmptyString => None
  | String c s' =>
    if char_is 125 c then Some (String c "")
    else if char_is 10 c then None
    else String c <$> until_brace s'
  end.

Definition variable_at (s : string) : option string :=
  match s with
  | String c (String d s') =>
    if char_is 36 c && char_is 123 d then (λ r, String c (String d r)) <$> until_brace s' else None
  | _ => None
  end.

(** [reg.FindAllString(s, -1)] *)
Fixpoint find_variables (skip : nat) (s : string) : list string :=
  match s with
  | EmptyString => []
  | String _ s' =>
    match skip with
    | S k => find_variables k s'
    | O =>
      match variable_at s with
      | Some v => v :: find_variables (String.length v - 1) s'
      | None => find_variables 0 s'
      end
    end
  end.

(** The text between the first brace and the first closing one. *)
Fixpoint before_char (n : nat) (s : string) : string :=
  match s with EmptyString => "" | String c s' => if char_is n c then "" else String c (before_char n s') end.
Fixpoint after_char (n : nat) (s : string) : string :=
  match s with EmptyString => "" | String c s' => if char_is n c then s' else after_char n s' end.

Definition getVariableKey (source : string) : string * string :=
  if decide (String.length source < 4) then (""%string, ""%string)
  else
    let k := before_char 125 (after_char 123 source) in
    match split_char 58 k with
    | a :: b :: _ => (a, b)
    | _ => (k, ""%string)
    end.

Definition replace_variable (configs : gmap string string) (source sourcekey : string) : string :=
  let '(key, defaultValue) := getVariableKey sourcekey in
  match configs !! key with
  | Some value => replace_all sourcekey value source
  | None => if nonempty_string defaultValue then replace_all sourcekey defaultValue source else source
  end.

Definition ParseVariable (source : string) (configs : gmap string string) : string :=
  foldl (replace_variable configs) source (find_variables 0 source).

Example parse_demo :
  ParseVariable "run ${CMD} -p ${PORT:80} ${X}" {["CMD"%string := "web"%string]} = "run web -p 80 ${X}"%string.
Proof. vm_compute. reflexivity. Qed.

Example base_demo : path_base <$> ["/etc/nginx/nginx.conf"; "a/b//"; ""; "//"; "c"]%string =
  ["nginx.conf"; "b"; "."; "/"; "c"]%string.
Proof. vm_compute. reflexivity. Qed.

(** A default ends at its first colon. *)
Example default_is_cut : ParseVariable "${URL:http://db}" ∅ = "http"%string.
Proof. vm_compute. reflexivity. Qed.

(** ** What it means

    A text made of parts without dollar signs and of variables. *)
Inductive segment := Text (s : string) | Var (k : string).

Definition render_var (k : string) : string := "${" +:+ k +:+ "}".
Definition render (g : segment) : string := match g with Text s => s | Var k => render_var k end.

(** What stands for a variable: its value, else its default, else itself. *)
Definition meaning (configs : gmap string string) (k : string) : string :=
  let '(key, d) := getVariableKey (render_var k) in
  match configs !! key with
  | Some v => v
  | None => if nonempty_string d then d else render_var k
  end.

Definition substitute (configs : gmap string string) (g : segment) : string :=
  match g with Text s => s | Var k => meaning configs k end.

Definition text_of (f : segment → string) (l : list segment) : string := foldr (λ g s, f g +:+ s) ""%string l.

Definition plain_segment (g : segment) : Prop :=
  match g with
  | Text s => has_char 36 s = false
  | Var k => has_char 36 k = false ∧ has_char 125 k = false ∧ has_char 10 k = false
  end.

(** ** Lemmas *)

Lemma app_assoc_str (a b c : string) : (a +:+ b) +:+ c = a +:+ (b +:+ c).
Proof. induction a as [|x a IH]; [done|]. exact (f_equal (String x) IH). Qed.

Lemma has_char_app n a b : has_char n (a +:+ b) = has_char n a || has_char n b.
Proof.
  induction a as [|x a IH]; [done|]. change (String x a +:+ b) with (String x (a +:+ b)).
  cbn [has_char]. by rewrite IH, orb_assoc.
Qed.

Definition dollar : Ascii.ascii := Ascii.ascii_of_nat 36.
Definition brace : Ascii.ascii := Ascii.ascii_of_nat 123.
Definition closing : Ascii.ascii := Ascii.ascii_of_nat 125.

Lemma render_var_eq k : render_var k = String dollar (String brace (k +:+ String closing "")).
Proof. done. Qed.

Lemma char_is_same n c d : char_is n c = true → char_is n d = false → c ≠ d.
Proof. unfold char_is. intros H1%bool_decide_eq_true H2%bool_decide_eq_false ->. done. Qed.

(** Skipping. *)
Lemma replace_skip sub v a rest : replace_from sub v (String.length a) (a +:+ rest) = replace_from sub v 0 rest.
Proof. induction a as [|c a IH]; [done|]. exact IH. Qed.

Lemma find_skip a rest : find_variables (String.length a) (a +:+ rest) = find_variables 0 rest.
Proof. induction a as [|c a IH]; [done|]. exact IH. Qed.

(** Text without dollar signs is passed over. *)
Lemma replace_text k v t rest : has_char 36 t = false →
  replace_from (render_var k) v 0 (t +:+ rest) = t +:+ replace_from (render_var k) v 0 rest.
Proof.
  induction t as [|c t IH]; [done|]. cbn [has_char]. intros [Hc Ht]%orb_false_iff.
  change (String c t +:+ rest) with (String c (t +:+ rest)).
  change (String c t +:+ ?r) with (String c (t +:+ r)). cbn [replace_from].
  assert (String.prefix (render_var k) (String c (t +:+ rest)) = false) as ->.
  { rewrite render_var_eq. cbn [String.prefix]. destruct (Ascii.ascii_dec dollar c) as [<-|]; [done|done]. }
  by rewrite IH.
Qed.

Lemma find_text t rest : has_char 36 t = false → find_variables 0 (t +:+ rest) = find_variables 0 rest.
Proof.
  induction t as [|c t IH]; [done|]. cbn [has_char]. intros [Hc Ht]%orb_false_iff.
  change (String c t +:+ rest) with (String c (t +:+ rest)). cbn [find_variables].
  assert (variable_at (String c (t +:+ rest)) = None) as ->; [|by apply IH].
  cbn [variable_at]. destruct (t +:+ rest); [reflexivity|]. rewrite Hc. reflexivity.
Qed.

Lemma prefix_closing k k' rest : has_char 125 k = false → has_char 125 k' = false →
  String.prefix (k +:+ String closing "") (k' +:+ String closing rest) = bool_decide (k = k').
Proof.
  assert (∀ c s, has_char 125 (String c s) = false → closing ≠ c) as Hne.
  { intros c s H <-. vm_compute in H. discriminate H. }
  revert k'. induction k as [|c k IH]; intros [|c' k'] Hk Hk'.
  - rewrite (bool_decide_eq_true_2 _ eq_refl). by destruct rest.
  - pose proof (Hne _ _ Hk') as Hd. rewrite (bool_decide_eq_false_2 (_ = _)) by discriminate.
    change (String.prefix (String closing "") (String c' (k' +:+ String closing rest)) = false).
    rewrite prefix_cons. by destruct (Ascii.ascii_dec closing c').
  - pose proof (Hne _ _ Hk) as Hd. rewrite (bool_decide_eq_false_2 (_ = _)) by discriminate.
    change (String.prefix (String c (k +:+ String closing "")) (String closing rest) = false).
    rewrite prefix_cons. destruct (Ascii.ascii_dec c closing) as [He|]; [by destruct Hd|done].
  - cbn [has_char] in Hk, Hk'. apply orb_false_iff in Hk as [_ Hk], Hk' as [_ Hk'].
    change (String.prefix (String c (k +:+ String closing "")) (String c' (k' +:+ String closing rest)) =
      bool_decide (String c k = String c' k')).
    rewrite prefix_cons. destruct (Ascii.ascii_dec c c') as [<-|Hc].
    + rewrite IH by done. apply bool_decide_ext. split; [by intros ->|by intros [=]].
    + rewrite bool_decide_eq_false_2; [done|]. by intros [=].
Qed.

Lemma render_prefix k k' rest : has_char 125 k = false → has_char 125 k' = false →
  String.prefix (render_var k) (render_var k' +:+ rest) = bool_decide (k = k').
Proof.
  intros Hk Hk'. rewrite !render_var_eq.
  change (String dollar (String brace (k' +:+ String closing "")) +:+ rest)
    with (String dollar (String brace ((k' +:+ String closing "") +:+ rest))).
  rewrite app_assoc_str. cbn [String.prefix]. by apply prefix_closing.
Qed.

Lemma until_brace_key k rest : has_char 125 k = false → has_char 10 k = false →
  until_brace (k +:+ String closing rest) = Some (k +:+ String closing "").
Proof.
  induction k as [|c k IH]; [done|]. cbn [has_char]. intros [H1 H2]%orb_false_iff [H3 H4]%orb_false_iff.
  change (String c k +:+ ?r) with (String c (k +:+ r)). cbn [until_brace]. rewrite H1, H3, IH by done. done.
Qed.

Lemma find_var k rest : has_char 125 k = false → has_char 10 k = false →
  find_variables 0 (render_var k +:+ rest) = render_var k :: find_variables 0 rest.
Proof.
  intros H1 H2. rewrite render_var_eq.
  change (String dollar (String brace (k +:+ String closing "")) +:+ rest)
    with (String dollar (String brace ((k +:+ String closing "") +:+ rest))).
  cbn [find_variables variable_at]. rewrite app_assoc_str.
  change (String closing "" +:+ rest) with (String closing rest).
  rewrite until_brace_key by done. cbn [fmap option_fmap option_map andb].
  change (char_is 36 dollar && char_is 123 brace) with true. cbv iota.
  f_equal. cbn [String.length].
  pose proof (find_skip (String brace (k +:+ String closing "")) rest) as Hs.
  change (String brace (k +:+ String closing "") +:+ rest) with (String brace ((k +:+ String closing "") +:+ rest)) in Hs.
  rewrite app_assoc_str in Hs. cbn [String.length] in Hs. by rewrite <- Hs.
Qed.

Lemma replace_var k v k' rest : has_char 125 k = false → has_char 125 k' = false → has_char 36 k' = false →
  replace_from (render_var k) v 0 (render_var k' +:+ rest) =
  (if decide (k = k') then v else render_var k') +:+ replace_from (render_var k) v 0 rest.
Proof.
  intros H1 H2 H3. pose proof (render_prefix k k' rest H1 H2) as Hp.
  assert (render_var k' +:+ rest = String dollar (String brace (k' +:+ String closing "") +:+ rest)) as He by done.
  rewrite He in *. cbn [replace_from]. rewrite Hp. case_decide as Hd.
  - subst k'. rewrite bool_decide_eq_true_2 by done. f_equal.
    rewrite render_var_eq. cbn [String.length].
    apply (replace_skip (render_var k) v (String brace (k +:+ String closing "")) rest).
  - rewrite bool_decide_eq_false_2 by done. rewrite replace_text; [done|].
    cbn [has_char]. rewrite has_char_app, H3. done.
Qed.

Lemma text_of_cons f g l : text_of f (g :: l) = f g +:+ text_of f l.
Proof. reflexivity. Qed.

Definition names_of (l : list segment) : list string :=
  omap (λ g, match g with Var k => Some k | Text _ => None end) l.

(** The tokens found in a text are its variables, in order. *)
Lemma find_segments l : Forall plain_segment l →
  find_variables 0 (text_of render l) = map render_var (names_of l).
Proof.
  induction 1 as [|[s|k] l Hg _ IH]; [done|..]; rewrite text_of_cons; cbn [render].
  - rewrite find_text by exact Hg. exact IH.
  - destruct Hg as (_ & H1 & H2). rewrite find_var by done. exact (f_equal _ IH).
Qed.

(** Between two replacements some of the variables have been replaced. *)
Definition partly (configs : gmap string string) (done : gset string) (g : segment) : string :=
  match g with
  | Text s => s
  | Var k => if decide (k ∈ done) then meaning configs k else render_var k
  end.

(** What replaces a variable. *)
Definition replacement (configs : gmap string string) (k : string) : option string :=
  let '(key, d) := getVariableKey (render_var k) in
  match configs !! key with
  | Some v => Some v
  | None => if nonempty_string d then Some d else None
  end.

Lemma replace_variable_eq configs s k :
  replace_variable configs s (render_var k) =
  match replacement configs k with Some v => replace_all (render_var k) v s | None => s end.
Proof.
  unfold replace_variable, replacement. destruct (getVariableKey _) as [key d].
  destruct (configs !! key); [done|]. by destruct (nonempty_string d).
Qed.

Lemma meaning_eq configs k : meaning configs k = default (render_var k) (replacement configs k).
Proof.
  unfold meaning, replacement. destruct (getVariableKey _) as [key d].
  destruct (configs !! key); [done|]. by destruct (nonempty_string d).
Qed.

(** The replacements hold no dollar sign. *)
Definition plain_segments (configs : gmap string string) (l : list segment) : Prop :=
  Forall plain_segment l ∧
  Forall (λ g, match g with Text _ => True | Var k => ∀ v, replacement configs k = Some v → has_char 36 v = false end) l.

Lemma replace_once configs done k v l :
  plain_segments configs l → plain_segment (Var k) → replacement configs k = Some v → has_char 36 v = false →
  replace_all (render_var k) v (text_of (partly configs done) l) = text_of (partly configs ({[k]} ∪ done)) l.
Proof.
  intros [Hl Hv] (_ & Hk & _) Hr Hp. unfold replace_all.
  induction l as [|[s|k'] l IH]; [done|..];
    apply Forall_cons in Hl as [Hg Hl]; apply Forall_cons in Hv as [Hgv Hv]; specialize (IH Hl Hv);
    rewrite ?text_of_cons; cbn [partly].
  - rewrite replace_text by exact Hg. by rewrite IH.
  - destruct Hg as (H36 & H125 & _). destruct (decide (k' ∈ done)) as [Hd|Hd].
    + rewrite decide_True by set_solver. rewrite meaning_eq.
      destruct (replacement configs k') as [v'|] eqn:Hr'; cbn [default from_option id].
      * rewrite replace_text by (by apply Hgv). by rewrite IH.
      * rewrite replace_var by done. rewrite decide_False by congruence. by rewrite IH.
    + rewrite replace_var by done. case_decide as He.
      * subst k'. rewrite decide_True by set_solver. rewrite meaning_eq, Hr. cbn. by rewrite IH.
      * rewrite decide_False by set_solver. by rewrite IH.
Qed.

Lemma partly_none configs done k l : replacement configs k = None →
  text_of (partly configs done) l = text_of (partly configs ({[k]} ∪ done)) l.
Proof.
  intros Hr. induction l as [|[s|k'] l IH]; [done|..]; rewrite ?text_of_cons; cbn [partly]; rewrite IH; [done|].
  f_equal. destruct (decide (k' = k)) as [->|].
  - rewrite (decide_True (P := k ∈ {[k]} ∪ done)) by set_solver. rewrite meaning_eq, Hr. cbn. by case_decide.
  - destruct (decide (k' ∈ done)); [rewrite decide_True by set_solver|rewrite decide_False by set_solver]; done.
Qed.

Lemma replace_tokens configs l l' done :
  plain_segments configs l → plain_segments configs l' →
  foldl (replace_variable configs) (text_of (partly configs done) l) (map render_var (names_of l')) =
  text_of (partly configs (list_to_set (names_of l') ∪ done)) l.
Proof.
  intros Hl. revert done. induction l' as [|[s|k] l' IH]; intros done [Hp Hv].
  - cbn. by rewrite union_empty_l_L.
  - apply Forall_cons in Hp as [_ Hp]; apply Forall_cons in Hv as [_ Hv]. by apply IH.
  - apply Forall_cons in Hp as [Hg Hp]; apply Forall_cons in Hv as [Hgv Hv].
    change (names_of (Var k :: l')) with (k :: names_of l'). cbn [map foldl].
    rewrite replace_variable_eq.
    assert (match replacement configs k with
            | Some v => replace_all (render_var k) v (text_of (partly configs done) l)
            | None => text_of (partly configs done) l end = text_of (partly configs ({[k]} ∪ done)) l) as ->.
    { destruct (replacement configs k) as [v|] eqn:Hr; [by apply replace_once, Hgv|by apply partly_none]. }
    rewrite IH by done. do 2 f_equal. cbn [list_to_set]. set_solver.
Qed.

Lemma partly_all configs l l' : l' ⊆ l →
  text_of (partly configs (list_to_set (names_of l))) l' = text_of (substitute configs) l'.
Proof.
  induction l' as [|[s|k] l' IH]; intros Hs; [done|..]; rewrite ?text_of_cons; rewrite IH by set_solver; [done|].
  f_equal. cbn [partly substitute]. rewrite decide_True; [done|].
  apply elem_of_list_to_set, list_elem_of_omap. exists (Var k). set_solver.
Qed.

Lemma parse_segments configs l :
  plain_segments configs l →
  ParseVariable (text_of render l) configs = text_of (substitute configs) l.
Proof.
  intros Hl. unfold ParseVariable. rewrite find_segments by apply Hl.
  assert (text_of render l = text_of (partly configs ∅) l) as ->.
  { clear Hl. induction l as [|[s|k] l IH]; [done|..]; rewrite ?text_of_cons; by rewrite IH. }
  rewrite replace_tokens by done. rewrite union_empty_r_L. by apply partly_all.
Qed.

(** [ParseVariable] is a parallel substitution.  It looks
    for the tokens of the source and then replaces one after the other in the
    text it has; when no value or default holds a dollar sign, the result is
    the source with every variable replaced by its value, its default, or
    itself, and the rest as it was. *)
Theorem parse_variable_substitutes configs l :
  plain_segments configs l →
  ParseVariable (text_of render l) configs = text_of (substitute configs) l.
Proof. apply parse_segments. Qed.

Definition demo_configs : gmap string string := {["PORT"%string := "5000"%string]}.
Definition demo_segments : list segment :=
  [Text "listen "; Var "HOST:0.0.0.0"; Text ":"; Var "PORT"; Text " {"; Var "USER"; Text "}"; Var "PORT"]%string.

Lemma parse_variable_substitutes_witness :
  ParseVariable "listen ${HOST:0.0.0.0}:${PORT} {${USER}}${PORT}" demo_configs = "listen 0.0.0.0:5000 {${USER}}5000"%string.
Proof.
  apply (parse_variable_substitutes demo_configs demo_segments).
  split; repeat constructor; intros v Hv; vm_compute in Hv; by simplify_eq.
Defined.

(** With a dollar sign in a value the order of the tokens shows. *)
Example replaced_twice :
  ParseVariable "${A} ${B}" {["A"%string := "${B}"%string; "B"%string := "1"%string]} = "1 1"%string.
Proof. vm_compute. reflexivity. Qed.
