(* ===== verification/Volume.v ===== *)
(** * Volumes of a component

    [worker/appm/volume]: the kinds of volume and what each adds to the pod
    and to the component, the loop over a component's volumes and mounts
    ([createVolumes] of [conversion/version.go]), and the check of a
    capacity ([worker/util/volumetype.go]). *)
From stdpp Require Import pretty.
From S2P Require Import Prelude Variables Kube AppService Conversion.

(** ** Rows *)

Record TenantServiceVolume := mkVolumeRow {
  sv_ID : Z;
  sv_VolumeType : string;
  sv_VolumeName : string;
  sv_VolumePath : string;
  sv_IsReadOnly : bool;
  sv_VolumeCapacity : Z;
  sv_AccessMode : string;
  sv_ReclaimPolicy : string
}.

Record TenantServiceMountRelation := mkMountRow {
  mr_ID : Z;
  mr_DependServiceID : string;
  mr_MountPath : string;
  mr_MountVolumeName : string;
  mr_MountType : string
}.

Record VersionInfo := mkVersionInfo {
  vi_ServiceID : string;
  vi_ImageName : string;
  vi_DeliveredType : string;
  vi_DeliveredPath : string;
  vi_Cmd : string
}.

Record TenantServiceEnvVar := mkEnvRow { er_AttrName : string; er_AttrValue : string }.

(** The queries; the rows of a component may be the nil slice. *)
Record VolumeDB := mkVolumeDB {
  vd_volumes : string → error + option (list TenantServiceVolume);
  vd_mounts : string → error + list TenantServiceMountRelation;
  vd_volume_by_name : string → string → error + TenantServiceVolume;
  vd_config_file : string → string → error + string;
  vd_capacity_validation : string → error + string;
  vd_envs : string → list string → error + list TenantServiceEnvVar
}.

Definition ShareFileVolumeType : string := "share-file".
Definition LocalVolumeType : string := "local".
Definition MemoryFSVolumeType : string := "memoryfs".
Definition ConfigFileVolumeType : string := "config-file".
Definition KatoStatefuleShareStorageClass : string := "katosssc".
Definition KatoStatefuleLocalStorageClass : string := "katoslsc".
Definition LabelOS : string := "beta.kubernetes.io/os".

(** ** Capacities

    What an [interface{}] may hold, as far as the type assertions tell. *)
Inductive dynamic := DInt64 (z : Z) | DFloat64 (text : string) | DOther.
Definition assert_int64 (d : option dynamic) : option Z :=
  match d with Some (DInt64 z) => Some z | _ => None end.

Definition ValidateVolumeCapacity (unmarshal : string → error + gmap string dynamic)
    (validation : string) (capacity : Z) : option error :=
  match unmarshal validation with
  | inl e => Some e
  | inr validator =>
    let too_small := match assert_int64 (validator !! "min"%string) with
                     | Some mn => bool_decide (capacity < mn)%Z | None => false end in
    let too_large := match assert_int64 (validator !! "max"%string) with
                     | Some mx => bool_decide (mx < capacity)%Z | None => false end in
    if too_small then Some (EMsg "volume capacity less than min value")
    else if too_large then Some (EMsg "volume capacity more than max value")
    else None
  end.

(** ** Claims *)

Definition parseAccessMode (accessMode : string) : string :=
  let m := ToUpper accessMode in
  if decide (m = "ROX"%string) then "ReadOnlyMany"
  else if decide (m = "RWX"%string) then "ReadWriteMany"
  else "ReadWriteOnce".

Record ClaimSpec := mkClaimSpec { pvc_AccessMode : string; pvc_StorageClassName : string; pvc_Storage : string }.

(** ** The definition of a pod's volumes *)

Record Define := mkDefine { df_volumeMounts : list VolumeMount; df_volumes : list Volume }.
#[export] Instance eta_Define : Eta Define := λ d, mkDefine (df_volumeMounts d) (df_volumes d).

Definition add_volume (vo : Volume) (d : Define) : Define := d <| df_volumes ::= λ l, l ++ [vo] |>.
Definition add_mount (vm : VolumeMount) (d : Define) : Define := d <| df_volumeMounts ::= λ l, l ++ [vm] |>.
Definition mounted (p : string) (d : Define) : bool :=
  existsb (λ m, bool_decide (vm_MountPath m = p)) (df_volumeMounts d).

Definition SetVolume (VolumeType name mountPath hostPath hostPathType : string) (readOnly : bool)
    (d : Define) : Define :=
  if mounted mountPath d then d else
  let with_mount d :=
    if decide (mountPath = ""%string) then d else add_mount (mkMount name mountPath readOnly "") d in
  if decide (VolumeType = MemoryFSVolumeType) then with_mount (add_volume (mkVolume name (EmptyDir "")) d)
  else if decide (VolumeType = ShareFileVolumeType) then
    if decide (hostPath = ""%string) then d
    else with_mount (add_volume (mkVolume name (HostPath hostPath hostPathType)) d)
  else d.

(** The mount is never read-only, whatever is asked for. *)
Definition SetVolumeCMap (cmap : ConfigMap) (k p : string) (isReadOnly : bool) (d : Define) : Define :=
  add_volume (mkVolume (pl_name cmap) (ConfigMapSource (pl_name cmap) k (path_base p)))
    (add_mount (mkMount (pl_name cmap) p false (path_base p)) d).

(** ** The kinds of volume *)

Inductive VolumeManager := ShareFileVolume | ConfigFileVolume | MemoryFSVolume | LocalVolume | OtherVolume.

Definition NewVolumeManager (serviceVolume : option TenantServiceVolume)
    (serviceMountR : option TenantServiceMountRelation) : option VolumeManager :=
  let volumeType :=
    match serviceMountR, serviceVolume with
    | Some m, _ => mr_MountType m
    | None, Some v => sv_VolumeType v
    | None, None => ""%string
    end in
  if decide (volumeType = ""%string) then None
  else if decide (volumeType = ShareFileVolumeType) then Some ShareFileVolume
  else if decide (volumeType = ConfigFileVolumeType) then Some ConfigFileVolume
  else if decide (volumeType = MemoryFSVolumeType) then Some MemoryFSVolume
  else if decide (volumeType = LocalVolumeType) then Some LocalVolume
  else Some OtherVolume.

(** Creating volumes changes the component and the definition, and draws
    identifiers. *)
Record VolumeState := mkVS { vs_as : AppService; vs_define : Define; vs_drawn : nat }.
#[export] Instance eta_VolumeState : Eta VolumeState := λ s, mkVS (vs_as s) (vs_define s) (vs_drawn s).

Section volume.
Context `{GoRuntime}.
Context (vdb : VolumeDB) (unmarshal : string → error + gmap string dynamic).
(** The rest of a claim, by its specification, and of a configuration map,
    by its data; the data of a secret. *)
Context (claim_rest : ClaimSpec → opaque) (configmap_rest : gmap string string → opaque)
  (secret_data : opaque → gmap string string).
(** The identifiers [util.NewUUID] returns, one after the other. *)
Context (NewUUID : nat → string).

Definition newVolumeClaim (name accessMode storageClassName : string) (capacity : Z)
    (labels annotations : gmap string string) : Claim :=
  let capacity := if decide (capacity = 0)%Z then 500%Z else capacity in
  mkPlain (zero_meta <| m_Name := name |> <| m_Namespace := "string"%string |>
      <| m_Labels := labels |> <| m_Annotations := annotations |>)
    (claim_rest (mkClaimSpec (parseAccessMode accessMode) storageClassName (pretty capacity +:+ "Gi"))).

(** A value that equals what the map gives for the key is not written, so
    that an empty one leaves a missing key missing. *)
Definition add_setting (configs : gmap string string) (kv : string * string) : gmap string string :=
  if decide (get_str configs kv.1 = kv.2) then configs else <[kv.1 := kv.2]> configs.
Definition secret_settings (secs : list Secret) : gmap string string :=
  foldl (λ configs sec, foldl add_setting configs (range_order (secret_data (pl_rest sec)))) ∅ secs.
Definition env_settings (envs : list EnvVar) (configs : gmap string string) : gmap string string :=
  foldl (λ configs env, <[env_Name env := env_Value env]> configs) configs envs.

Definition manual_name (svm : TenantServiceVolume) : string := "manual" +:+ pretty (sv_ID svm).
Definition mount_name (smr : TenantServiceMountRelation) : string := "mnt" +:+ pretty (mr_ID smr).

(** [append(statefulset.Spec.VolumeClaimTemplates, *claim)], through the
    pointer the component holds. *)
Definition add_template (c : Claim) (a : AppService) : AppService :=
  a <| statefulset ::= fmap (λ w, w <| wl_VolumeClaimTemplates ::= λ l, l ++ [c] |>) |>.

Definition os_annotation (a : AppService) : gmap string string :=
  {[LabelOS := if b_IsWindowsService (base a) then "windows"%string else "linux"%string]}.

(** The volume of a claim and its mount. *)
Definition claim_volume (name claimName path : string) (readOnly : bool) (d : Define) : Define :=
  add_mount (mkMount name path readOnly "") (add_volume (mkVolume name (PersistentVolumeClaim claimName readOnly)) d).

Definition share_create (svm : TenantServiceVolume) (st : VolumeState) : VolumeState :=
  let a := vs_as st in
  let name := manual_name svm in
  let claim_for labels := newVolumeClaim name (sv_AccessMode svm) KatoStatefuleShareStorageClass
    (sv_VolumeCapacity svm) (GetCommonLabels [labels] a) {["volume_name"%string := sv_VolumeName svm]} in
  let put := claim_volume name name (sv_VolumePath svm) (sv_IsReadOnly svm) in
  match GetStatefulSet a with
  | Some _ =>
    let claim := claim_for {["volume_name"%string := name]} in
    st <| vs_as ::= λ a, add_template (in_tenant a claim) (SetClaim claim a) |> <| vs_define ::= put |>
  | None =>
    if mounted (sv_VolumePath svm) (vs_define st) then st else
    let claim := claim_for {["volume_name"%string := name; "stateless"%string := ""%string]} in
    st <| vs_as ::= λ a, SetClaimManually claim (SetClaim claim a) |> <| vs_define ::= put |>
  end.

(** The configuration map of a file, added to the component and mounted. *)
Definition config_create (path content : string) (configs : gmap string string) (st : VolumeState) : VolumeState :=
  let cmap := mkPlain (zero_meta <| m_Name := NewUUID (vs_drawn st) |> <| m_Namespace := TenantID (vs_as st) |>
      <| m_Labels := GetCommonLabels [] (vs_as st) |>)
    (configmap_rest {[path_base path := ParseVariable content configs]}) in
  st <| vs_as ::= SetConfigMap cmap |> <| vs_define ::= SetVolumeCMap cmap (path_base path) path false |>
     <| vs_drawn ::= S |>.

Definition memory_medium (es : list TenantServiceEnvVar) : string :=
  if existsb (λ e, bool_decide (er_AttrName e = "ES_ENABLE_EMPTYDIR_MEDIUM_MEMORY"%string ∧
                                er_AttrValue e = "true"%string)) es then "Memory" else "".

Definition memory_create (svm : TenantServiceVolume) (st : VolumeState) : error + VolumeState :=
  if decide (sv_VolumePath svm = ""%string) then inr st
  else if mounted (sv_VolumePath svm) (vs_define st) then inr st
  else
    match vd_envs vdb (ServiceID (vs_as st)) ["inner"%string] with
    | inl e => inl e
    | inr es =>
      inr (st <| vs_define ::= λ d,
        add_mount (mkMount (manual_name svm) (sv_VolumePath svm) false "")
          (add_volume (mkVolume (manual_name svm) (EmptyDir (memory_medium es))) d) |>)
    end.

Definition local_create (svm : TenantServiceVolume) (st : VolumeState) : VolumeState :=
  let a := vs_as st in
  let name := manual_name svm in
  match GetStatefulSet a with
  | None => st
  | Some _ =>
    let labels := GetCommonLabels
      [{["volume_name"%string := sv_VolumeName svm; "version"%string := DeployVersion a]}] a in
    let claim := newVolumeClaim name (sv_AccessMode svm) KatoStatefuleLocalStorageClass
      (sv_VolumeCapacity svm) labels (os_annotation a) in
    st <| vs_as ::= λ a, add_template (in_tenant a claim) (SetClaim claim a) |>
       <| vs_define ::= claim_volume name name (sv_VolumePath svm) (sv_IsReadOnly svm) |>
  end.

Definition other_create (svm : TenantServiceVolume) (st : VolumeState) : error + VolumeState :=
  match vd_capacity_validation vdb (sv_VolumeType svm) with
  | inl _ => inl (EMsg "validate volume capacity error")
  | inr validation =>
    match ValidateVolumeCapacity unmarshal validation (sv_VolumeCapacity svm) with
    | Some e => inl e
    | None =>
      let a := vs_as st in
      let name := manual_name svm in
      let labels := GetCommonLabels
        [{["volume_name"%string := sv_VolumeName svm; "version"%string := DeployVersion a;
           "reclaim_policy"%string := sv_ReclaimPolicy svm]}] a in
      let claim := newVolumeClaim name (sv_AccessMode svm) (sv_VolumeType svm) (sv_VolumeCapacity svm)
        labels (os_annotation a) in
      inr (st <| vs_as ::= λ a, add_template (in_tenant a claim) (SetClaim claim a) |>
              <| vs_define ::= claim_volume name name (sv_VolumePath svm) (sv_IsReadOnly svm) |>)
    end
  end.

Definition CreateVolume (k : VolumeManager) (svm : TenantServiceVolume) (envs : list EnvVar)
    (envVarSecrets : list Secret) (st : VolumeState) : error + VolumeState :=
  match k with
  | ShareFileVolume => inr (share_create svm st)
  | ConfigFileVolume =>
    match vd_config_file vdb (ServiceID (vs_as st)) (sv_VolumeName svm) with
    | inl e => inl (EWrap "error getting config file by volume name" e)
    | inr content =>
      inr (config_create (sv_VolumePath svm) content (env_settings envs (secret_settings envVarSecrets)) st)
    end
  | MemoryFSVolume => memory_create svm st
  | LocalVolume => inr (local_create svm st)
  | OtherVolume => other_create svm st
  end.

(** The other component's file is filled in without the secrets. *)
Definition CreateDependVolume (k : VolumeManager) (svm : TenantServiceVolume) (smr : TenantServiceMountRelation)
    (envs : list EnvVar) (st : VolumeState) : error + VolumeState :=
  match k with
  | ShareFileVolume =>
    if mounted (mr_MountPath smr) (vs_define st) then inr st
    else inr (st <| vs_define ::= claim_volume (mount_name smr) (manual_name svm) (mr_MountPath smr) false |>)
  | ConfigFileVolume =>
    match vd_volume_by_name vdb (mr_DependServiceID smr) (mr_MountVolumeName smr) with
    | inl e => inl (EWrap "error getting TenantServiceVolume" e)
    | inr _ =>
      match vd_config_file vdb (mr_DependServiceID smr) (mr_MountVolumeName smr) with
      | inl e => inl (EWrap "error getting TenantServiceConfigFile" e)
      | inr content => inr (config_create (mr_MountPath smr) content (env_settings envs ∅) st)
      end
    end
  | MemoryFSVolume | LocalVolume | OtherVolume => inr st
  end.

(** ** The volumes of a pod

    A volume that cannot be created is skipped, a mount whose volume cannot
    be found stops everything. *)
Definition attempt (st : VolumeState) (r : error + VolumeState) : VolumeState :=
  match r with inl _ => st | inr st' => st' end.

Definition own_volume (envs : list EnvVar) (secs : list Secret) (st : VolumeState) (v : TenantServiceVolume) :
    VolumeState :=
  match NewVolumeManager (Some v) None with
  | None => st
  | Some k => attempt st (CreateVolume k v envs secs st)
  end.

Fixpoint depend_volumes (envs : list EnvVar) (tsmr : list TenantServiceMountRelation) (st : VolumeState) :
    error + VolumeState :=
  match tsmr with
  | [] => inr st
  | t :: tsmr' =>
    match vd_volume_by_name vdb (mr_DependServiceID t) (mr_MountVolumeName t) with
    | inl e => inl (EWrap "get dep volume" e)
    | inr sv =>
      depend_volumes envs tsmr'
        (match NewVolumeManager (Some sv) (Some t) with
         | None => st
         | Some k => attempt st (CreateDependVolume k sv t envs st)
         end)
    end
  end.

Definition slug_volume (version : VersionInfo) (d : Define) : Define :=
  if decide (vi_DeliveredType version = "slug"%string)
  then SetVolume ShareFileVolumeType "slug" "/tmp/slug/slug.tgz" (vi_DeliveredPath version) "File" true d
  else d.

Definition createVolumes (version : VersionInfo) (envs : list EnvVar) (secs : list Secret) (a : AppService) :
    error + VolumeState :=
  match vd_volumes vdb (vi_ServiceID version) with
  | inl e => inl e
  | inr vs =>
    let st := foldl (own_volume envs secs) (mkVS a (mkDefine [] []) 0) (default [] vs) in
    match vd_mounts vdb (vi_ServiceID version) with
    | inl e => inl e
    | inr tsmr =>
      match (if vs is Some _ then depend_volumes envs tsmr st else inr st) with
      | inl e => inl e
      | inr st => inr (st <| vs_define ::= slug_volume version |>)
      end
    end
  end.
End volume.
