(* ===== verification/VolumeSpec.v ===== *)
(** * What the volumes of a component promise

    Theorems about [Volume]: the pod's volumes and mounts fit together, the
    claims behind them exist, and capacities are not limited. *)
From stdpp Require Import pretty.
From S2P Require Import Prelude Variables Kube AppService Conversion ConversionSpec Volume.

(** ** One volume more

    What a volume adds to the definition: nothing, or one volume and one
    mount of it. *)
Inductive adds (name path : string) (d : Define) : Define → Prop :=
  | adds_nothing : adds name path d d
  | adds_one vo vm :
    vol_Name vo = name → vm_Name vm = name → vm_MountPath vm = path →
    adds name path d (mkDefine (df_volumeMounts d ++ [vm]) (df_volumes d ++ [vo])).

Definition volume_names (d : Define) : list string := vol_Name <$> df_volumes d.
Definition mount_names (d : Define) : list string := vm_Name <$> df_volumeMounts d.
Definition mount_paths (d : Define) : list string := vm_MountPath <$> df_volumeMounts d.

Lemma mounted_true p d : mounted p d = true ↔ p ∈ mount_paths d.
Proof.
  unfold mounted, mount_paths. rewrite existsb_exists, list_elem_of_fmap.
  split; intros (m & H1 & H2).
  - exists m. apply bool_decide_eq_true in H2. apply list_elem_of_In in H1. done.
  - exists m. split; [by apply list_elem_of_In|by apply bool_decide_eq_true].
Qed.

(** Adding a volume with a new name, mounted at most at a new path. *)
Lemma adds_fits name path d d' : adds name path d d' → name ∉ volume_names d → (d' = d ∨ path ∉ mount_paths d) →
  NoDup (volume_names d) → mount_names d ⊆ volume_names d →
  NoDup (volume_names d') ∧ mount_names d' ⊆ volume_names d' ∧ (NoDup (mount_paths d) → NoDup (mount_paths d')) ∧
  volume_names d ⊆ volume_names d' ∧ (∀ x, x ∈ volume_names d' → x ∈ volume_names d ∨ x = name).
Proof.
  intros Ha Hf Hfree Hn Hm. destruct Ha as [|vo vm Hvo Hvm Hpath].
  { split_and!; [exact Hn|exact Hm|intros ?; assumption|intros ?; exact id|by left]. }
  unfold volume_names, mount_names, mount_paths in *. cbn [df_volumes df_volumeMounts]. rewrite !fmap_app.
  cbn [fmap list_fmap]. rewrite Hvo, Hvm, Hpath. split_and!.
  - apply NoDup_app. split; [done|]. split; [|apply NoDup_singleton]. intros x Hx ->%list_elem_of_singleton. done.
  - set_solver.
  - intros Hp. apply NoDup_app. split; [done|]. split; [|apply NoDup_singleton].
    intros x Hx ->%list_elem_of_singleton. destruct Hfree as [E|Hfree]; [|by apply Hfree].
    apply (f_equal df_volumes) in E. cbn in E. apply (f_equal length) in E. rewrite length_app in E. cbn in E. lia.
  - set_solver.
  - set_solver.
Qed.

(** The kinds of row that look for their path among the mounts. *)
Definition checks_path (stateful : bool) (k : VolumeManager) : bool :=
  match k with
  | ShareFileVolume => negb stateful
  | MemoryFSVolume => true
  | ConfigFileVolume | LocalVolume | OtherVolume => false
  end.
Definition depend_checks_path (k : VolumeManager) : bool :=
  match k with ConfigFileVolume => false | _ => true end.

Definition stateful (a : AppService) : bool := bool_decide (is_Some (statefulset a)).

(** What a step does to the names and to the paths.  [checked]: the path was
    free when it was used. *)
Record step_adds (name path : string) (checked : bool) (st st' : VolumeState) : Prop := {
  sa_adds : adds name path (vs_define st) (vs_define st');
  sa_free : checked = true → vs_define st' = vs_define st ∨ path ∉ mount_paths (vs_define st);
  sa_drawn : vs_drawn st ≤ vs_drawn st';
  sa_stateful : stateful (vs_as st') = stateful (vs_as st)
}.

Lemma step_none name path c st : step_adds name path c st st.
Proof. split; [apply adds_nothing|by left|done|done]. Qed.

Lemma stateful_template c a : stateful (add_template c a) = stateful a.
Proof. unfold stateful, add_template. simpl. by destruct (statefulset a). Qed.

(** What [util.NewUUID] draws: distinct strings of hexadecimal digits. *)
Definition is_hex (c : Ascii.ascii) : bool :=
  let n := Ascii.nat_of_ascii c in bool_decide (48 ≤ n ≤ 57 ∨ 97 ≤ n ≤ 102).
Fixpoint all_hex (s : string) : bool :=
  match s with EmptyString => true | String c s' => is_hex c && all_hex s' end.
Record uuid_supply (NewUUID : nat → string) : Prop := {
  us_inj : Inj (=) (=) NewUUID;
  us_hex n : all_hex (NewUUID n) = true ∧ NewUUID n ≠ ""%string
}.

Lemma uuid_not_m NewUUID : uuid_supply NewUUID → ∀ n s, NewUUID n ≠ String (Ascii.ascii_of_nat 109) s.
Proof.
  intros Hu n s E. destruct (us_hex _ Hu n) as [Hh _]. rewrite E in Hh.
  change (false && all_hex s = true) in Hh. discriminate Hh.
Qed.

Section steps.
Context `{GoRuntime}.
Context (vdb : VolumeDB) (unmarshal : string → error + gmap string dynamic).
Context (claim_rest : ClaimSpec → opaque) (configmap_rest : gmap string string → opaque)
  (secret_data : opaque → gmap string string) (NewUUID : nat → string).

Abbreviation own := (own_volume vdb unmarshal claim_rest configmap_rest secret_data NewUUID).
Abbreviation deps := (depend_volumes vdb configmap_rest NewUUID).
Abbreviation create := (CreateVolume vdb unmarshal claim_rest configmap_rest secret_data NewUUID).
Abbreviation depend := (CreateDependVolume vdb configmap_rest NewUUID).

(** The name a volume gets. *)
Definition own_name (k : VolumeManager) (svm : TenantServiceVolume) (st : VolumeState) : string :=
  match k with ConfigFileVolume => NewUUID (vs_drawn st) | _ => manual_name svm end.
Definition depend_name (k : VolumeManager) (smr : TenantServiceMountRelation) (st : VolumeState) : string :=
  match k with ConfigFileVolume => NewUUID (vs_drawn st) | _ => mount_name smr end.

Lemma adds_claim name claim path ro d : adds name path d (claim_volume name claim path ro d).
Proof. exact (adds_one _ _ _ (mkVolume name (PersistentVolumeClaim claim ro)) (mkMount name path ro "") eq_refl eq_refl eq_refl). Qed.

Lemma config_step path content configs st :
  step_adds (NewUUID (vs_drawn st)) path false st (config_create configmap_rest NewUUID path content configs st) ∧
  vs_drawn (config_create configmap_rest NewUUID path content configs st) = S (vs_drawn st).
Proof.
  split; [|done]. split; [|done|cbn; lia|done].
  exact (adds_one _ _ _ (mkVolume (NewUUID (vs_drawn st)) _) (mkMount _ path false _) eq_refl eq_refl eq_refl).
Qed.

Lemma create_step k svm envs secs st st' : create k svm envs secs st = inr st' →
  step_adds (own_name k svm st) (sv_VolumePath svm) (checks_path (stateful (vs_as st)) k) st st' ∧
  (vs_drawn st' = if k is ConfigFileVolume then S (vs_drawn st) else vs_drawn st).
Proof.
  destruct k; cbn [CreateVolume own_name checks_path].
  - intros [= <-]. unfold share_create, stateful, GetStatefulSet. destruct (statefulset (vs_as st)) as [w|] eqn:Ew.
    + rewrite bool_decide_eq_true_2 by eauto. split; [|done].
      split; [apply adds_claim|done|done|]. cbn [vs_as]. apply (stateful_template _ (vs_as st)).
    + rewrite bool_decide_eq_false_2 by (intros [? ?]; done).
      destruct (mounted _ _) eqn:Em; [split; [apply step_none|done]|]. split; [|done].
      split; [apply adds_claim| |done|done]. intros _. right. intros Hp%mounted_true. congruence.
  - destruct (vd_config_file _ _ _) as [e|content]; [done|]. intros [= <-]. apply config_step.
  - unfold memory_create. destruct (decide _); [intros [= <-]; split; [apply step_none|done]|].
    destruct (mounted _ _) eqn:Em; [intros [= <-]; split; [apply step_none|done]|].
    destruct (vd_envs _ _ _) as [e|es]; [done|]. intros [= <-]. split; [|done].
    split; [exact (adds_one _ _ _ (mkVolume _ _) (mkMount _ _ false "") eq_refl eq_refl eq_refl)| |done|done]. intros _. right. intros Hp%mounted_true. congruence.
  - intros [= <-]. unfold local_create. destruct (GetStatefulSet _) as [w|] eqn:Ew; [|split; [apply step_none|done]].
    split; [|done]. split; [apply adds_claim|done|done|]. apply (stateful_template _ (vs_as st)).
  - unfold other_create. destruct (vd_capacity_validation _ _) as [e|v]; [done|].
    destruct (ValidateVolumeCapacity _ _ _); [done|]. intros [= <-]. split; [|done].
    split; [apply adds_claim|done|done|]. apply (stateful_template _ (vs_as st)).
Qed.

Lemma depend_step k svm smr envs st st' : depend k svm smr envs st = inr st' →
  step_adds (depend_name k smr st) (mr_MountPath smr) (depend_checks_path k) st st' ∧
  (vs_drawn st' = if k is ConfigFileVolume then S (vs_drawn st) else vs_drawn st).
Proof.
  destruct k; cbn [CreateDependVolume depend_name depend_checks_path];
    try (intros [= <-]; split; [apply step_none|done]).
  - destruct (mounted _ _) eqn:Em; intros [= <-]; [split; [apply step_none|done]|]. split; [|done].
    split; [apply adds_claim| |done|done]. intros _. right. intros Hp%mounted_true. congruence.
  - destruct (vd_volume_by_name _ _ _) as [e|sv]; [done|]. destruct (vd_config_file _ _ _) as [e|content]; [done|].
    intros [= <-]. apply config_step.
Qed.

(** ** The invariant of the loops *)

(** Names are those of rows handled so far and identifiers drawn so far. *)
Definition known (ids mids : list Z) (drawn : nat) (x : string) : Prop :=
  (∃ i, i ∈ ids ∧ x = "manual" +:+ pretty i) ∨ (∃ i, i ∈ mids ∧ x = "mnt" +:+ pretty i) ∨
  (∃ n, n < drawn ∧ x = NewUUID n).

Record coherent (ids mids : list Z) (st : VolumeState) : Prop := {
  co_known : Forall (known ids mids (vs_drawn st)) (volume_names (vs_define st));
  co_nodup : NoDup (volume_names (vs_define st));
  co_mounts : mount_names (vs_define st) ⊆ volume_names (vs_define st)
}.

(** A row that does not look for its path comes after no row with that path. *)
Fixpoint fits (seen : list string) (rows : list (string * bool)) : Prop :=
  match rows with
  | [] => True
  | (p, checked) :: rows' => (checked = false → p ∉ seen) ∧ fits (seen ++ [p]) rows'
  end.

Record apart (seen : list string) (st : VolumeState) : Prop := {
  ap_seen : mount_paths (vs_define st) ⊆ seen;
  ap_nodup : NoDup (mount_paths (vs_define st))
}.

Lemma known_mono ids mids drawn ids' mids' drawn' x :
  ids ⊆ ids' → mids ⊆ mids' → drawn ≤ drawn' → known ids mids drawn x → known ids' mids' drawn' x.
Proof.
  intros H1 H2 H3 [(i & Hi & ->)|[(i & Hi & ->)|(n & Hn & ->)]]; unfold known; [|right|right; right]; eauto with lia.
  exists n. split; [lia|done].
Qed.

Lemma coherent_step ids mids ids' mids' name path c st st' :
  coherent ids mids st → step_adds name path c st st' → ids ⊆ ids' → mids ⊆ mids' →
  (vs_define st' = vs_define st ∨ name ∉ volume_names (vs_define st) ∧ known ids' mids' (vs_drawn st') name) →
  coherent ids' mids' st'.
Proof.
  intros [Hk Hn Hm] [Ha _ Hd _] Hi1 Hi2 Hname.
  assert (Forall (known ids' mids' (vs_drawn st')) (volume_names (vs_define st))) as Hk'.
  { eapply Forall_impl; [exact Hk|]. intros x. by apply known_mono. }
  destruct Hname as [E|[Hf Hkn]]; [split; by rewrite E|].
  destruct st' as [a' d' n']; cbn [vs_define vs_drawn] in *. destruct Ha as [|vo vm Hvo Hvm _]; [by split|].
  split; cbn [vs_define vs_drawn]; unfold volume_names, mount_names in *; cbn [df_volumes df_volumeMounts];
    rewrite ?fmap_app; cbn [fmap list_fmap]; rewrite ?Hvo, ?Hvm.
  - rewrite Forall_app. split; [done|]. by constructor.
  - apply NoDup_app. split; [done|]. split; [|apply NoDup_singleton]. intros x Hx ->%list_elem_of_singleton. done.
  - set_solver.
Qed.

Lemma apart_step seen name path c st st' :
  apart seen st → step_adds name path c st st' → (c = false → path ∉ seen) → apart (seen ++ [path]) st'.
Proof.
  intros [Hs Hn] [Ha Hf _ _] Hc.
  assert (vs_define st' = vs_define st ∨ path ∉ mount_paths (vs_define st)) as [E|Hp].
  { destruct c; [by apply Hf|]. right. intros Hp. by apply Hc, Hs. }
  { split; rewrite E; [set_solver|done]. }
  destruct st' as [a' d' n']; cbn [vs_define] in *. destruct Ha as [|vo vm _ _ Hpath]; [split; [set_solver|done]|].
  split; cbn [vs_define]; unfold mount_paths in *; cbn [df_volumeMounts]; rewrite ?fmap_app; cbn [fmap list_fmap];
    rewrite ?Hpath.
  - set_solver.
  - apply NoDup_app. split; [done|]. split; [|apply NoDup_singleton]. intros x Hx ->%list_elem_of_singleton. done.
Qed.

(** ** The loops *)

Definition own_row (sf : bool) (v : TenantServiceVolume) : string * bool :=
  (sv_VolumePath v, match NewVolumeManager (Some v) None with Some k => checks_path sf k | None => true end).
Definition depend_row (t : TenantServiceMountRelation) : string * bool :=
  (mr_MountPath t, match NewVolumeManager None (Some t) with Some k => depend_checks_path k | None => true end).

Context (Hsupply : uuid_supply NewUUID).

Lemma fresh_uuid ids mids st : coherent ids mids st → NewUUID (vs_drawn st) ∉ volume_names (vs_define st).
Proof.
  intros [Hk _ _] Hin. rewrite Forall_forall in Hk.
  destruct (Hk _ Hin) as [(i & _ & E)|[(i & _ & E)|(n & Hn & E)]].
  - by apply (uuid_not_m NewUUID Hsupply _ ("anual" +:+ pretty i)) in E.
  - by apply (uuid_not_m NewUUID Hsupply _ ("nt" +:+ pretty i)) in E.
  - apply (us_inj _ Hsupply) in E. lia.
Qed.

Lemma manual_inj (i j : Z) : "manual" +:+ pretty i = "manual" +:+ pretty j → i = j.
Proof. intros E. apply (inj (String.append _)) in E. by apply (inj pretty) in E. Qed.
Lemma mnt_inj (i j : Z) : "mnt" +:+ pretty i = "mnt" +:+ pretty j → i = j.
Proof. intros E. apply (inj (String.append _)) in E. by apply (inj pretty) in E. Qed.

Lemma fresh_manual ids mids st i : coherent ids mids st → i ∉ ids → "manual" +:+ pretty i ∉ volume_names (vs_define st).
Proof.
  intros [Hk _ _] Hi Hin. rewrite Forall_forall in Hk.
  destruct (Hk _ Hin) as [(j & Hj & E)|[(j & _ & E)|(n & _ & E)]].
  - apply manual_inj in E. by subst.
  - discriminate E.
  - symmetry in E. by apply (uuid_not_m NewUUID Hsupply n ("anual" +:+ pretty i)) in E.
Qed.

Lemma fresh_mnt ids mids st i : coherent ids mids st → i ∉ mids → "mnt" +:+ pretty i ∉ volume_names (vs_define st).
Proof.
  intros [Hk _ _] Hi Hin. rewrite Forall_forall in Hk.
  destruct (Hk _ Hin) as [(j & _ & E)|[(j & Hj & E)|(n & _ & E)]].
  - discriminate E.
  - apply mnt_inj in E. by subst.
  - symmetry in E. by apply (uuid_not_m NewUUID Hsupply n ("nt" +:+ pretty i)) in E.
Qed.

Lemma own_sound envs secs ids st v :
  coherent ids [] st → sv_ID v ∉ ids →
  coherent (ids ++ [sv_ID v]) [] (own envs secs st v) ∧
  stateful (vs_as (own envs secs st v)) = stateful (vs_as st) ∧
  ∀ seen, apart seen st → ((own_row (stateful (vs_as st)) v).2 = false → sv_VolumePath v ∉ seen) →
    apart (seen ++ [sv_VolumePath v]) (own envs secs st v).
Proof.
  intros Hc Hv. unfold own_volume, own_row. cbn [snd].
  assert (coherent (ids ++ [sv_ID v]) [] st) as Hc'.
  { eapply coherent_step; [exact Hc|apply (step_none "" "" true)|set_solver..|by left]. }
  assert (∀ seen, apart seen st → apart (seen ++ [sv_VolumePath v]) st) as Hap.
  { intros seen Ha. by eapply apart_step; [exact Ha|apply (step_none "" (sv_VolumePath v) true)|]. }
  destruct (NewVolumeManager (Some v) None) as [k|]; [|by auto].
  unfold attempt. destruct (create k v envs secs st) as [e|st'] eqn:E; [by auto|].
  destruct (create_step _ _ _ _ _ _ E) as [Hs Hd].
  split; [|split; [exact (sa_stateful _ _ _ _ _ Hs)|intros seen Ha Hp; by eapply apart_step]].
  eapply coherent_step; [exact Hc|exact Hs|set_solver..|]. right.
  destruct k; cbn [own_name]; try (split; [exact (fresh_manual _ _ _ _ Hc Hv)|left; exists (sv_ID v); split; [set_solver|done]]).
  split; [exact (fresh_uuid _ _ _ Hc)|]. right. right. exists (vs_drawn st). split; [rewrite Hd; lia|done].
Qed.

Lemma owns_sound envs secs vs : ∀ ids seen st,
  coherent ids [] st → NoDup (ids ++ (sv_ID <$> vs)) →
  let st' := foldl (own envs secs) st vs in
  coherent (ids ++ (sv_ID <$> vs)) [] st' ∧ stateful (vs_as st') = stateful (vs_as st) ∧
  (apart seen st → fits seen (own_row (stateful (vs_as st)) <$> vs) → apart (seen ++ (sv_VolumePath <$> vs)) st').
Proof.
  induction vs as [|v vs IH]; intros ids seen st Hc Hn; cbn [foldl fmap list_fmap].
  { rewrite !app_nil_r. auto. }
  assert (sv_ID v ∉ ids) as Hv.
  { apply NoDup_app in Hn as (_ & Hd & _). intros Hi. apply (Hd _ Hi). set_solver. }
  destruct (own_sound envs secs ids st v Hc Hv) as (Hc' & Hsf & Hap).
  rewrite fmap_cons in Hn. change (?x :: ?l) with ([x] ++ l) in Hn. rewrite (assoc_L (++)) in Hn.
  change (sv_ID v :: ?l) with ([sv_ID v] ++ l). rewrite (assoc_L (++)).
  destruct (IH (ids ++ [sv_ID v]) (seen ++ [sv_VolumePath v]) _ Hc' Hn) as (H1 & H2 & H3).
  split; [exact H1|]. split; [by rewrite H2|]. intros Ha [Hp Hf].
  change (sv_VolumePath v :: ?l) with ([sv_VolumePath v] ++ l). rewrite (assoc_L (++)).
  apply H3; [by apply Hap|]. by rewrite Hsf.
Qed.

Lemma depend_sound envs ids mids st sv t :
  coherent ids mids st → mr_ID t ∉ mids →
  let st' := match NewVolumeManager (Some sv) (Some t) with
             | None => st | Some k => attempt st (depend k sv t envs st) end in
  coherent ids (mids ++ [mr_ID t]) st' ∧
  ∀ seen, apart seen st → ((depend_row t).2 = false → mr_MountPath t ∉ seen) → apart (seen ++ [mr_MountPath t]) st'.
Proof.
  intros Hc Ht. unfold depend_row. change (NewVolumeManager None (Some t)) with (NewVolumeManager (Some sv) (Some t)).
  cbn [snd]. cbv zeta.
  assert (coherent ids (mids ++ [mr_ID t]) st) as Hc'.
  { eapply coherent_step; [exact Hc|apply (step_none "" "" true)|set_solver..|by left]. }
  assert (∀ seen, apart seen st → apart (seen ++ [mr_MountPath t]) st) as Hap.
  { intros seen Ha. by eapply apart_step; [exact Ha|apply (step_none "" (mr_MountPath t) true)|]. }
  destruct (NewVolumeManager (Some sv) (Some t)) as [k|]; [|by auto].
  unfold attempt. destruct (depend k sv t envs st) as [e|st'] eqn:E; [by auto|].
  destruct (depend_step _ _ _ _ _ _ E) as [Hs Hd].
  split; [|intros seen Ha Hp; by eapply apart_step].
  eapply coherent_step; [exact Hc|exact Hs|set_solver..|]. right.
  destruct k; cbn [depend_name]; try (split; [exact (fresh_mnt _ _ _ _ Hc Ht)|right; left; exists (mr_ID t); split; [set_solver|done]]).
  split; [exact (fresh_uuid _ _ _ Hc)|]. right. right. exists (vs_drawn st). split; [rewrite Hd; lia|done].
Qed.

Lemma depends_sound envs ids ts : ∀ mids seen st st',
  coherent ids mids st → NoDup (mids ++ (mr_ID <$> ts)) → deps envs ts st = inr st' →
  coherent ids (mids ++ (mr_ID <$> ts)) st' ∧
  (apart seen st → fits seen (depend_row <$> ts) → apart (seen ++ (mr_MountPath <$> ts)) st').
Proof.
  induction ts as [|t ts IH]; intros mids seen st st' Hc Hn; cbn [depend_volumes fmap list_fmap].
  { intros [= <-]. rewrite !app_nil_r. auto. }
  destruct (vd_volume_by_name _ _ _) as [e|sv]; [done|]. intros Hrun.
  assert (mr_ID t ∉ mids) as Hv.
  { apply NoDup_app in Hn as (_ & Hd & _). intros Hi. apply (Hd _ Hi). set_solver. }
  destruct (depend_sound envs ids mids st sv t Hc Hv) as (Hc' & Hap).
  rewrite fmap_cons in Hn. change (?x :: ?l) with ([x] ++ l) in Hn. rewrite (assoc_L (++)) in Hn.
  change (mr_ID t :: ?l) with ([mr_ID t] ++ l). rewrite (assoc_L (++)).
  destruct (IH (mids ++ [mr_ID t]) (seen ++ [mr_MountPath t]) _ _ Hc' Hn Hrun) as (H1 & H3).
  split; [exact H1|]. intros Ha [Hp Hf].
  change (mr_MountPath t :: ?l) with ([mr_MountPath t] ++ l). rewrite (assoc_L (++)).
  apply H3; [by apply Hap|done].
Qed.

Lemma slug_name ids mids st : coherent ids mids st → "slug"%string ∉ volume_names (vs_define st).
Proof.
  intros [Hk _ _] Hin. rewrite Forall_forall in Hk.
  destruct (Hk _ Hin) as [(j & _ & E)|[(j & _ & E)|(n & _ & E)]]; [discriminate E..|].
  pose proof (proj1 (us_hex _ Hsupply n)) as Hh. rewrite <- E in Hh. discriminate Hh.
Qed.

Lemma kube_config_name ids mids st : coherent ids mids st → "kube-config"%string ∉ volume_names (vs_define st).
Proof.
  intros [Hk _ _] Hin. rewrite Forall_forall in Hk.
  destruct (Hk _ Hin) as [(j & _ & E)|[(j & _ & E)|(n & _ & E)]]; [discriminate E..|].
  pose proof (proj1 (us_hex _ Hsupply n)) as Hh. rewrite <- E in Hh. discriminate Hh.
Qed.

(** The mount path of the slug is not empty, its host path may be. *)
Lemma slug_adds version d : adds "slug" "/tmp/slug/slug.tgz" d (slug_volume version d) ∧
  (slug_volume version d = d ∨ "/tmp/slug/slug.tgz"%string ∉ mount_paths d).
Proof.
  unfold slug_volume, SetVolume. destruct (decide (vi_DeliveredType version = _)); [|split; [apply adds_nothing|by left]].
  destruct (mounted _ d) eqn:Em; [split; [apply adds_nothing|by left]|].
  rewrite decide_False by discriminate. rewrite decide_True by done.
  destruct (decide (vi_DeliveredPath version = _)); [split; [apply adds_nothing|by left]|].
  rewrite decide_False by discriminate. split.
  - exact (adds_one _ _ _ (mkVolume "slug" _) (mkMount "slug" "/tmp/slug/slug.tgz" true "") eq_refl eq_refl eq_refl).
  - right. intros Hp%mounted_true. congruence.
Qed.

Lemma fits_app seen r1 r2 : fits seen (r1 ++ r2) ↔ fits seen r1 ∧ fits (seen ++ (fst <$> r1)) r2.
Proof.
  revert seen. induction r1 as [|[p c] r1 IH]; intros seen; rewrite ?fmap_cons; cbn [app fits fst].
  - rewrite app_nil_r. tauto.
  - rewrite IH, <- (assoc_L (++)). cbn [app]. tauto.
Qed.

Lemma coherent_start a : coherent [] [] (mkVS a (mkDefine [] []) 0).
Proof. split; [constructor|constructor|done]. Qed.
Lemma apart_start a : apart [] (mkVS a (mkDefine [] []) 0).
Proof. split; [done|constructor]. Qed.

(** The rows that are used: without a slice of volumes the mounts are left out. *)
Definition used_mounts (o : option (list TenantServiceVolume)) (ts : list TenantServiceMountRelation) :=
  if o is Some _ then ts else [].

Lemma created_fits (version : VersionInfo) envs secs (a : AppService) o ts st
    (Hvs : vd_volumes vdb (vi_ServiceID version) = inr o)
    (Hts : vd_mounts vdb (vi_ServiceID version) = inr ts)
    (Hids : NoDup (sv_ID <$> default [] o)) (Hmids : NoDup (mr_ID <$> ts))
    (Hrun : createVolumes vdb unmarshal claim_rest configmap_rest secret_data NewUUID version envs secs a = inr st) :
  NoDup (volume_names (vs_define st)) ∧ mount_names (vs_define st) ⊆ volume_names (vs_define st) ∧
  (fits [] ((own_row (stateful a) <$> default [] o) ++ (depend_row <$> used_mounts o ts)) →
   NoDup (mount_paths (vs_define st))) ∧
  "kube-config"%string ∉ volume_names (vs_define st).
Proof using Hsupply.
  unfold createVolumes in Hrun. rewrite Hvs, Hts in Hrun.
  set (st0 := mkVS a (mkDefine [] []) 0) in *. set (st1 := foldl (own envs secs) st0 (default [] o)) in *.
  destruct (owns_sound envs secs (default [] o) [] [] st0 (coherent_start a) Hids) as (Hc1 & Hsf & Hap1).
  fold st1 in Hc1, Hsf, Hap1. rewrite !app_nil_l in *.
  assert (∃ st2, st = st2 <| vs_define ::= slug_volume version |> ∧
    coherent (sv_ID <$> default [] o) (mr_ID <$> used_mounts o ts) st2 ∧
    (fits [] ((own_row (stateful a) <$> default [] o) ++ (depend_row <$> used_mounts o ts)) →
     NoDup (mount_paths (vs_define st2)))) as (st2 & -> & [Hk2 Hn2 Hm2] & Hp2).
  { destruct o as [vs|]; cbn [default from_option id used_mounts] in *.
    - destruct (deps envs ts st1) as [e|st2] eqn:Ed; [done|]. injection Hrun as <-. exists st2. split; [done|].
      destruct (depends_sound envs _ ts [] (sv_VolumePath <$> vs) st1 st2 Hc1 Hmids Ed) as (Hc2 & Hap2).
      split; [done|]. rewrite fits_app, app_nil_l. intros [Hf1 Hf2].
      rewrite <- list_fmap_compose in Hf2. apply (ap_nodup _ _ (Hap2 (Hap1 (apart_start a) Hf1) Hf2)).
    - injection Hrun as <-. exists st1. split; [done|]. split; [exact Hc1|]. intros _. constructor. }
  destruct (slug_adds version (vs_define st2)) as [Ha Hfree].
  assert (coherent (sv_ID <$> default [] o) (mr_ID <$> used_mounts o ts) st2) as Hc2 by done.
  destruct (adds_fits _ _ _ _ Ha (slug_name _ _ _ Hc2) Hfree Hn2 Hm2) as (H1 & H2 & H3 & _ & H4).
  split; [exact H1|]. split; [exact H2|]. split; [auto|]. intros Hin.
  destruct (H4 _ Hin) as [Hin'|E]; [|discriminate E]. by apply (kube_config_name _ _ _ Hc2).
Qed.

(** C16 (safety): what [createVolumes] hands to the pod template fits
    together, whatever is skipped on the way: no two volumes of the pod have
    the same name and every mount is of one of its volumes.  No two mounts
    have the same path if no row of a kind that does not look for its path
    (configuration files, cloud disks, and every claim of a stateful
    component) repeats the path of a row before it. *)
Theorem volumes_fit_pod (version : VersionInfo) envs secs (a : AppService) o ts st
    (Hvs : vd_volumes vdb (vi_ServiceID version) = inr o)
    (Hts : vd_mounts vdb (vi_ServiceID version) = inr ts)
    (Hids : NoDup (sv_ID <$> default [] o)) (Hmids : NoDup (mr_ID <$> ts))
    (Hrun : createVolumes vdb unmarshal claim_rest configmap_rest secret_data NewUUID version envs secs a = inr st) :
  NoDup (volume_names (vs_define st)) ∧ mount_names (vs_define st) ⊆ volume_names (vs_define st) ∧
  (fits [] ((own_row (stateful a) <$> default [] o) ++ (depend_row <$> used_mounts o ts)) →
   NoDup (mount_paths (vs_define st))).
Proof using Hsupply.
  destruct (created_fits version envs secs a o ts st Hvs Hts Hids Hmids Hrun) as (H1 & H2 & H3 & _). auto.
Qed.
End steps.

(** ** Claims *)

Definition claim_names (a : AppService) : list string := pl_name <$> claims a.
Definition manual_claims (a : AppService) : list string := pl_name <$> claimsmanual a.
Definition template_names (a : AppService) : list string :=
  match statefulset a with Some w => pl_name <$> wl_VolumeClaimTemplates w | None => [] end.

Definition kind_of (v : TenantServiceVolume) : option VolumeManager := NewVolumeManager (Some v) None.

(** A claim the component has: with a stateful set, one of its templates;
    otherwise one the worker creates, or that of a cloud disk. *)
Definition provided (vs : list TenantServiceVolume) (a : AppService) (c : string) : Prop :=
  c ∈ claim_names a ∧
  if stateful a then c ∈ template_names a
  else c ∈ manual_claims a ∨ ∃ v, v ∈ vs ∧ kind_of v = Some OtherVolume ∧ c = manual_name v.

Record grows (a a' : AppService) : Prop := {
  gr_claims : claim_names a ⊆ claim_names a';
  gr_manual : manual_claims a ⊆ manual_claims a';
  gr_templates : template_names a ⊆ template_names a';
  gr_stateful : stateful a' = stateful a
}.
#[export] Instance grows_preorder : PreOrder grows.
Proof.
  split; [by intros a; split|]. intros a b c [H1 H2 H3 H4] [K1 K2 K3 K4].
  split; [set_solver..|congruence].
Qed.

Lemma provided_grows vs a a' c : grows a a' → provided vs a c → provided vs a' c.
Proof.
  intros [H1 H2 H3 H4] [Hc Hp]. split; [by apply H1|]. rewrite H4. destruct (stateful a); [by apply H3|].
  destruct Hp as [Hp|Hp]; [left; by apply H2|by right].
Qed.

Lemma elem_of_names_upsert {A} (nm : A → string) d l x : x ∈ nm <$> upsert nm d l ↔ x = nm d ∨ x ∈ nm <$> l.
Proof. rewrite names_upsert. case_decide; set_solver. Qed.

Lemma grows_claim c a : grows a (SetClaim c a).
Proof. split; try done. intros x Hx. unfold claim_names, SetClaim. cbn. apply elem_of_names_upsert. by right. Qed.
Lemma grows_manual c a : grows a (SetClaimManually c a).
Proof. split; try done. intros x Hx. unfold manual_claims, SetClaimManually. cbn. apply elem_of_names_upsert. by right. Qed.
Lemma grows_template c a : grows a (add_template c a).
Proof.
  split; try done.
  - unfold template_names, add_template. cbn. destruct (statefulset a); [|done]. cbn. rewrite fmap_app. set_solver.
  - apply stateful_template.
Qed.

Lemma claim_set c a : pl_name c ∈ claim_names (SetClaim c a).
Proof. unfold claim_names, SetClaim. cbn. apply elem_of_names_upsert. by left. Qed.
Lemma manual_set c a : pl_name c ∈ manual_claims (SetClaimManually c a).
Proof. unfold manual_claims, SetClaimManually. cbn. apply elem_of_names_upsert. by left. Qed.
Lemma template_added c a : stateful a = true → pl_name c ∈ template_names (add_template c a).
Proof.
  unfold stateful, template_names, add_template. cbn. intros [w ->]%bool_decide_eq_true. cbn.
  rewrite fmap_app. set_solver.
Qed.

(** The claims of a component with a stateful set, and with none. *)
Lemma provided_template vs c a : stateful a = true →
  grows a (add_template (in_tenant a c) (SetClaim c a)) ∧
  provided vs (add_template (in_tenant a c) (SetClaim c a)) (pl_name c).
Proof.
  intros Hs. assert (grows a (add_template (in_tenant a c) (SetClaim c a))) as Hg.
  { etransitivity; [apply (grows_claim c)|apply grows_template]. }
  split; [done|]. split.
  - apply (gr_claims _ _ (grows_template (in_tenant a c) (SetClaim c a))), claim_set.
  - rewrite (gr_stateful _ _ Hg), Hs. exact (template_added (in_tenant a c) (SetClaim c a) Hs).
Qed.

Lemma provided_manual vs c a : stateful a = false →
  grows a (SetClaimManually c (SetClaim c a)) ∧ provided vs (SetClaimManually c (SetClaim c a)) (pl_name c).
Proof.
  intros Hs. assert (grows a (SetClaimManually c (SetClaim c a))) as Hg.
  { etransitivity; [apply (grows_claim c)|apply grows_manual]. }
  split; [done|]. split.
  - apply (gr_claims _ _ (grows_manual c (SetClaim c a))), claim_set.
  - rewrite (gr_stateful _ _ Hg), Hs. left. apply manual_set.
Qed.

(** A volume that is no claim, or one that is provided under its own name. *)
Definition backed (vs : list TenantServiceVolume) (a : AppService) (vo : Volume) : Prop :=
  match vol_Source vo with
  | PersistentVolumeClaim c _ => vol_Name vo = c ∧ provided vs a c
  | _ => True
  end.

Lemma backed_grows vs a a' vo : grows a a' → backed vs a vo → backed vs a' vo.
Proof. intros Hg. unfold backed. destruct (vol_Source vo); [done..| |done]. intros [? ?]. split; [done|by eapply provided_grows]. Qed.

Record row_claims (vs : list TenantServiceVolume) (v : option TenantServiceVolume) (st st' : VolumeState) : Prop := {
  rc_grows : grows (vs_as st) (vs_as st');
  rc_volumes vo : vo ∈ df_volumes (vs_define st') → vo ∈ df_volumes (vs_define st) ∨ backed vs (vs_as st') vo;
  rc_manual c : stateful (vs_as st) = false → c ∈ manual_claims (vs_as st') →
    c ∈ manual_claims (vs_as st) ∨ ∃ w, v = Some w ∧ kind_of w = Some ShareFileVolume ∧ c = manual_name w
}.

Lemma claims_none vs v st : row_claims vs v st st.
Proof. split; [done|by left|by left]. Qed.

Section claims.
Context `{GoRuntime}.
Context (vdb : VolumeDB) (unmarshal : string → error + gmap string dynamic).
Context (claim_rest : ClaimSpec → opaque) (configmap_rest : gmap string string → opaque)
  (secret_data : opaque → gmap string string) (NewUUID : nat → string).
Abbreviation own := (own_volume vdb unmarshal claim_rest configmap_rest secret_data NewUUID).
Abbreviation deps := (depend_volumes vdb configmap_rest NewUUID).
Abbreviation create := (CreateVolume vdb unmarshal claim_rest configmap_rest secret_data NewUUID).

(** The volumes [create] adds hold no claim, or their own. *)
Lemma claim_volume_backed vs a name path ro d : provided vs a name →
  ∀ vo, vo ∈ df_volumes (claim_volume name name path ro d) → vo ∈ df_volumes d ∨ backed vs a vo.
Proof.
  intros Hp vo. unfold claim_volume. cbn. rewrite elem_of_app, list_elem_of_singleton.
  intros [?| ->]; [by left|right]. by split.
Qed.

Lemma share_claims vs v st : v ∈ vs → kind_of v = Some ShareFileVolume → row_claims vs (Some v) st (share_create claim_rest v st).
Proof.
  intros Hv Hk. unfold share_create, GetStatefulSet. destruct (statefulset (vs_as st)) as [w|] eqn:Ew.
  - set (c := newVolumeClaim _ _ _ _ _ _ _).
    assert (stateful (vs_as st) = true) as Hs by (unfold stateful; rewrite Ew; done).
    destruct (provided_template vs c (vs_as st) Hs) as [Hg Hp].
    split; [exact Hg|exact (claim_volume_backed _ _ _ _ _ _ Hp)|congruence].
  - destruct (mounted _ _); [apply claims_none|]. set (c := newVolumeClaim _ _ _ _ _ _ _).
    assert (stateful (vs_as st) = false) as Hs by (unfold stateful; rewrite Ew; done).
    destruct (provided_manual vs c (vs_as st) Hs) as [Hg Hp].
    split; [exact Hg|exact (claim_volume_backed _ _ _ _ _ _ Hp)|].
    intros x _ Hx. unfold manual_claims, SetClaimManually in Hx. cbn in Hx. apply elem_of_names_upsert in Hx as [->|Hx].
    + right. by exists v.
    + by left.
Qed.

Lemma provided_other vs v a c : v ∈ vs → kind_of v = Some OtherVolume → pl_name c = manual_name v →
  grows a (add_template (in_tenant a c) (SetClaim c a)) ∧
  provided vs (add_template (in_tenant a c) (SetClaim c a)) (pl_name c).
Proof.
  intros Hv Hk Hn. destruct (stateful a) eqn:Hs; [by apply provided_template|].
  assert (grows a (add_template (in_tenant a c) (SetClaim c a))) as Hg.
  { etransitivity; [apply (grows_claim c)|apply grows_template]. }
  split; [done|]. split.
  - apply (gr_claims _ _ (grows_template (in_tenant a c) (SetClaim c a))), claim_set.
  - rewrite (gr_stateful _ _ Hg), Hs. right. by exists v.
Qed.

(** Adding a volume that is no claim, without touching the claims. *)
Lemma claims_other vs v st st' vo : claims (vs_as st') = claims (vs_as st) →
  claimsmanual (vs_as st') = claimsmanual (vs_as st) → statefulset (vs_as st') = statefulset (vs_as st) →
  df_volumes (vs_define st') = df_volumes (vs_define st) ++ [vo] →
  (∀ a, backed vs a vo) → row_claims vs v st st'.
Proof.
  intros E1 E2 E3 E4 Hb. split.
  - split; unfold claim_names, manual_claims, template_names, stateful; by rewrite ?E1, ?E2, ?E3.
  - intros x. rewrite E4, elem_of_app, list_elem_of_singleton. intros [?| ->]; [by left|by right].
  - intros c _. unfold manual_claims. rewrite E2. by left.
Qed.

Lemma config_claims vs v path content configs st :
  row_claims vs v st (config_create configmap_rest NewUUID path content configs st).
Proof. by eapply claims_other. Qed.

Lemma template_claims vs v k st c path ro : (stateful (vs_as st) = true ∨ kind_of v = Some OtherVolume) → v ∈ vs →
  pl_name c = manual_name v →
  row_claims vs k st (st <| vs_as ::= λ a, add_template (in_tenant (vs_as st) c) (SetClaim c a) |>
                         <| vs_define ::= claim_volume (manual_name v) (manual_name v) path ro |>).
Proof.
  intros Hor Hv Hn.
  assert (grows (vs_as st) (add_template (in_tenant (vs_as st) c) (SetClaim c (vs_as st))) ∧
    provided vs (add_template (in_tenant (vs_as st) c) (SetClaim c (vs_as st))) (manual_name v)) as [Hg Hp].
  { rewrite <- Hn. destruct Hor as [Hs|Hk]; [by apply provided_template|by eapply provided_other]. }
  split; [exact Hg|exact (claim_volume_backed _ _ _ _ _ _ Hp)|by left].
Qed.

Lemma create_claims vs k v envs secs st st' : v ∈ vs → kind_of v = Some k →
  create k v envs secs st = inr st' → row_claims vs (Some v) st st'.
Proof.
  intros Hv Hk. destruct k; cbn [CreateVolume].
  - intros [= <-]. by apply share_claims.
  - destruct (vd_config_file _ _ _); [done|]. intros [= <-]. apply config_claims.
  - unfold memory_create. destruct (decide _); [intros [= <-]; apply claims_none|].
    destruct (mounted _ _); [intros [= <-]; apply claims_none|].
    destruct (vd_envs _ _ _) as [|es]; [done|]. intros [= <-]. by eapply claims_other.
  - intros [= <-]. unfold local_create, GetStatefulSet. destruct (statefulset (vs_as st)) as [w|] eqn:Ew; [|apply claims_none].
    apply (template_claims vs v); [|done|done]. left. unfold stateful. by rewrite Ew.
  - unfold other_create. destruct (vd_capacity_validation _ _) as [|va]; [done|].
    destruct (ValidateVolumeCapacity _ _ _); [done|]. intros [= <-].
    apply (template_claims vs v); [by right|done|done].
Qed.

Lemma own_claims vs v envs secs st : v ∈ vs → row_claims vs (Some v) st (own envs secs st v).
Proof.
  intros Hv. unfold own_volume. destruct (NewVolumeManager (Some v) None) as [k|] eqn:Ek; [|apply claims_none].
  unfold attempt. destruct (create k v envs secs st) as [|st'] eqn:E; [apply claims_none|]. by eapply create_claims.
Qed.

(** A mount of another component's volume: of its claim when it is shared. *)
Definition depended (ts : list TenantServiceMountRelation) (vo : Volume) : Prop :=
  ∃ t sv, t ∈ ts ∧ vd_volume_by_name vdb (mr_DependServiceID t) (mr_MountVolumeName t) = inr sv ∧
    NewVolumeManager (Some sv) (Some t) = Some ShareFileVolume ∧ vol_Name vo = mount_name t ∧
    vol_Source vo = PersistentVolumeClaim (manual_name sv) false.

Definition claims_ok (vs : list TenantServiceVolume) ts (a0 : AppService) (st : VolumeState) : Prop :=
  grows a0 (vs_as st) ∧
  (∀ vo, vo ∈ df_volumes (vs_define st) → backed vs (vs_as st) vo ∨ depended ts vo) ∧
  (stateful a0 = false → ∀ c, c ∈ manual_claims (vs_as st) →
    c ∈ manual_claims a0 ∨ ∃ w, w ∈ vs ∧ kind_of w = Some ShareFileVolume ∧ c = manual_name w).

Lemma claims_ok_step vs ts a0 v st st' : (∀ w, v = Some w → w ∈ vs) →
  claims_ok vs ts a0 st → row_claims vs v st st' → claims_ok vs ts a0 st'.
Proof.
  intros Hv (Hg & Hb & Hm) [Hg' Hb' Hm']. split; [by etransitivity|]. split.
  - intros vo Hvo. destruct (Hb' vo Hvo) as [Hin|]; [|by left].
    destruct (Hb vo Hin); [left; by eapply backed_grows|by right].
  - intros Hs c Hc. destruct (Hm' c) as [Hin|(w & -> & Hk & ->)]; [by rewrite (gr_stateful _ _ Hg)|done|by apply Hm|].
    right. exists w. auto.
Qed.

Lemma owns_claims_ok vs ts a0 envs secs l st : l ⊆ vs → claims_ok vs ts a0 st → claims_ok vs ts a0 (foldl (own envs secs) st l).
Proof.
  revert st. induction l as [|v l IH]; intros st Hl Hst; [done|]. cbn [foldl]. apply IH; [set_solver|].
  eapply claims_ok_step; [|exact Hst|apply (own_claims vs v); set_solver]. intros w [= <-]. set_solver.
Qed.

Lemma depend_claims_ok vs ts a0 k sv t envs st st' :
  t ∈ ts → vd_volume_by_name vdb (mr_DependServiceID t) (mr_MountVolumeName t) = inr sv →
  NewVolumeManager (Some sv) (Some t) = Some k →
  claims_ok vs ts a0 st → CreateDependVolume vdb configmap_rest NewUUID k sv t envs st = inr st' →
  claims_ok vs ts a0 st'.
Proof.
  intros Ht Hsv Hk Hst. destruct k; cbn [CreateDependVolume]; try (by intros [= <-]).
  - destruct (mounted _ _); intros [= <-]; [done|]. destruct Hst as (Hg & Hb & Hm).
    split; [done|]. split; [|done]. intros vo. cbn. rewrite elem_of_app, list_elem_of_singleton.
    intros [?| ->]; [by apply Hb|]. right. exists t, sv. done.
  - destruct (vd_volume_by_name _ _ _); [done|]. destruct (vd_config_file _ _ _); [done|]. intros [= <-].
    eapply (claims_ok_step _ _ _ None); [done|exact Hst|apply config_claims].
Qed.

Lemma depends_claims_ok vs ts a0 envs l st st' : l ⊆ ts → claims_ok vs ts a0 st →
  deps envs l st = inr st' → claims_ok vs ts a0 st'.
Proof.
  revert st. induction l as [|t l IH]; intros st Hl Hst; cbn [depend_volumes]; [by intros [= <-]|].
  destruct (vd_volume_by_name _ _ _) as [|sv] eqn:Esv; [done|]. apply IH; [set_solver|].
  destruct (NewVolumeManager (Some sv) (Some t)) as [k|] eqn:Ek; [|done]. unfold attempt.
  destruct (CreateDependVolume _ _ _ _ _ _ _ _) as [|st1] eqn:E; [done|].
  eapply depend_claims_ok; [|exact Esv|exact Ek|exact Hst|exact E]. set_solver.
Qed.

(** Behind every volume of the pod that is a claim there is a
    claim.  The claim of a row of the component is among its claims under the
    volume's own name, and with a stateful set it is one of its templates;
    a mounted volume of another component names the claim of that
    component's row.  Without a stateful set the claims the worker
    creates itself are those of shared files and no others: the claim of a
    cloud disk is recorded, mounted, and created by nobody. *)
Theorem claims_behind_volumes (version : VersionInfo) envs secs (a : AppService) o ts st
    (Hvs : vd_volumes vdb (vi_ServiceID version) = inr o)
    (Hts : vd_mounts vdb (vi_ServiceID version) = inr ts)
    (Hrun : createVolumes vdb unmarshal claim_rest configmap_rest secret_data NewUUID version envs secs a = inr st) :
  (∀ vo, vo ∈ df_volumes (vs_define st) → backed (default [] o) (vs_as st) vo ∨ depended ts vo) ∧
  (stateful a = false → ∀ c, c ∈ manual_claims (vs_as st) →
    c ∈ manual_claims a ∨ ∃ w, w ∈ default [] o ∧ kind_of w = Some ShareFileVolume ∧ c = manual_name w).
Proof.
  unfold createVolumes in Hrun. rewrite Hvs, Hts in Hrun.
  assert (claims_ok (default [] o) ts a (foldl (own envs secs) (mkVS a (mkDefine [] []) 0) (default [] o))) as H1.
  { apply owns_claims_ok; [done|]. split; [done|]. split; [intros vo Hvo; by apply not_elem_of_nil in Hvo|by left]. }
  assert (∃ st2, st = st2 <| vs_define ::= slug_volume version |> ∧ claims_ok (default [] o) ts a st2)
    as (st2 & -> & _ & Hb & Hm).
  { destruct o as [vs|].
    - destruct (deps envs ts _) as [|st2] eqn:Ed; [done|]. injection Hrun as <-. exists st2. split; [done|].
      eapply depends_claims_ok; [|exact H1|exact Ed]. done.
    - injection Hrun as <-. eexists. split; [done|exact H1]. }
  split; [|exact Hm]. intros vo.
  change (vs_define (st2 <| vs_define ::= slug_volume version |>)) with (slug_volume version (vs_define st2)).
  unfold slug_volume, SetVolume. destruct (decide _); [|by apply Hb]. destruct (mounted _ _); [by apply Hb|].
  rewrite decide_False by discriminate. rewrite decide_True by done.
  destruct (decide _); [by apply Hb|]. rewrite decide_False by discriminate. cbn.
  rewrite elem_of_app, list_elem_of_singleton. intros [?| ->]; [by apply Hb|]. by left.
Qed.
End claims.

(** ** Capacities *)

(** [encoding/json] decodes every number into a [float64] when the target is
    an [interface{}]. *)
Definition decodes_floats (unmarshal : string → error + gmap string dynamic) : Prop :=
  ∀ text m k z, unmarshal text = inr m → m !! k ≠ Some (DInt64 z).

(** The limits of a volume type are never applied: the assertions to [int64] fail. *)
Theorem capacity_unlimited unmarshal validation capacity m (Hfloat : decodes_floats unmarshal)
    (Hm : unmarshal validation = inr m) : ValidateVolumeCapacity unmarshal validation capacity = None.
Proof.
  unfold ValidateVolumeCapacity. rewrite Hm.
  assert (∀ k, assert_int64 (m !! k) = None) as Hn.
  { intros k. destruct (m !! k) as [[z| |]|] eqn:E; try done. by apply (Hfloat _ _ _ _ Hm) in E. }
  by rewrite !Hn.
Qed.

Definition demo_unmarshal (text : string) : error + gmap string dynamic :=
  if decide (text = ""%string) then inl (EMsg "unexpected end of JSON input")
  else inr {["min"%string := DFloat64 "5"; "max"%string := DFloat64 "10"]}.

Lemma demo_floats : decodes_floats demo_unmarshal.
Proof.
  intros text m k z. unfold demo_unmarshal. case_decide; [done|]. intros [= <-].
  destruct (decide (k = "min"%string)) as [->|H1]; [by vm_compute|].
  destruct (decide (k = "max"%string)) as [->|H2]; [by vm_compute|].
  by rewrite lookup_insert_ne, lookup_singleton_ne by done.
Qed.

Lemma capacity_unlimited_witness : ValidateVolumeCapacity demo_unmarshal "{}" 1000 = None.
Proof. eapply capacity_unlimited; [exact demo_floats|reflexivity]. Defined.

(** ** A component's volumes *)

Fixpoint demo_uuid (n : nat) : string :=
  match n with O => "a" | S n' => String (Ascii.ascii_of_nat 97) (demo_uuid n') end.
Lemma demo_supply : uuid_supply demo_uuid.
Proof.
  assert (∀ n, String.length (demo_uuid n) = S n) as Hl by (induction n; cbn [demo_uuid String.length]; [done|by f_equal]).
  split.
  - intros i j E. apply (f_equal String.length) in E. rewrite !Hl in E. lia.
  - intros n. split; [|intros E; apply (f_equal String.length) in E; by rewrite Hl in E].
    induction n as [|n IH]; [by vm_compute|]. cbn [demo_uuid all_hex]. by rewrite IH.
Qed.

Definition demo_rows : list TenantServiceVolume := [
  mkVolumeRow 1 "share-file" "data" "/data" false 10 "RWX" "";
  mkVolumeRow 2 "config-file" "conf" "/etc/app.conf" false 0 "" "";
  mkVolumeRow 3 "alicloud-disk" "disk" "/disk" false 20 "RWX" "delete";
  mkVolumeRow 4 "memoryfs" "tmp" "/data" false 0 "" ""]%string.
Definition demo_mounts : list TenantServiceMountRelation :=
  [mkMountRow 1 "other" "/shared" "shared" "share-file"]%string.
Lemma demo_row_ids : NoDup (sv_ID <$> demo_rows).
Proof. apply (bool_decide_unpack _). vm_compute. exact I. Qed.
Lemma demo_mount_ids : NoDup (mr_ID <$> demo_mounts).
Proof. apply (bool_decide_unpack _). vm_compute. exact I. Qed.
Definition demo_volume_db : VolumeDB := mkVolumeDB (λ _, inr (Some demo_rows)) (λ _, inr demo_mounts)
  (λ _ _, inr (mkVolumeRow 9 "share-file" "shared" "/var" false 0 "RWX" "")) (λ _ _, inr "port=${PORT}"%string)
  (λ _, inr "{}"%string) (λ _ _, inr []).
Definition demo_volume_app : AppService :=
  empty_app (mkBase "tenant" "t" "" "component" "alias" "" "" "" 0 0 "" 1 false false "" [] ∅ "").

Definition demo_version : VersionInfo := mkVersionInfo "component" "" "slug" "/slugs/1.tgz" "".

Abbreviation demo_create envs :=
  (@createVolumes ref_runtime demo_volume_db demo_unmarshal (λ c, pvc_Storage c) (λ d, get_str d "app.conf")
     (λ _, ∅) demo_uuid demo_version envs [] demo_volume_app).

Lemma demo_created : ∃ st, demo_create [mkEnv "PORT" "5000" None] = inr st ∧
  volume_names (vs_define st) = ["manual1"; "a"; "manual3"; "mnt1"; "slug"]%string ∧
  mount_paths (vs_define st) = ["/data"; "/etc/app.conf"; "/disk"; "/shared"; "/tmp/slug/slug.tgz"]%string ∧
  manual_claims (vs_as st) = ["manual1"]%string ∧ claim_names (vs_as st) = ["manual1"; "manual3"]%string ∧
  (pl_rest <$> configMaps (vs_as st)) = ["port=5000"]%string.
Proof. eexists. split; [vm_compute; reflexivity|]. vm_compute. split_and!; reflexivity. Qed.

Lemma volumes_fit_pod_witness : ∃ st, demo_create [] = inr st ∧
  NoDup (volume_names (vs_define st)) ∧ NoDup (mount_paths (vs_define st)).
Proof.
  destruct (demo_create []) as [e|st] eqn:E; [vm_compute in E; discriminate E|]. exists st. split; [done|].
  destruct (@volumes_fit_pod ref_runtime demo_volume_db demo_unmarshal (λ c, pvc_Storage c) (λ d, get_str d "app.conf") (λ _, ∅)
    demo_uuid demo_supply demo_version [] [] demo_volume_app (Some demo_rows) demo_mounts st eq_refl eq_refl) as (H1 & _ & H3).
  - exact demo_row_ids.
  - exact demo_mount_ids.
  - exact E.
  - split; [exact H1|]. apply H3. vm_compute. set_solver.
Defined.

Lemma claims_behind_volumes_witness : ∃ st, demo_create [] = inr st ∧ "manual3"%string ∉ manual_claims (vs_as st).
Proof.
  destruct (demo_create []) as [e|st] eqn:E; [vm_compute in E; discriminate E|]. exists st. split; [done|].
  destruct (@claims_behind_volumes ref_runtime demo_volume_db demo_unmarshal (λ c, pvc_Storage c) (λ d, get_str d "app.conf") (λ _, ∅)
    demo_uuid demo_version [] [] demo_volume_app (Some demo_rows) demo_mounts st eq_refl eq_refl E) as [_ Hm].
  intros Hin. destruct (Hm eq_refl _ Hin) as [Hin'|(w & Hw & Hk & Hn)]; [vm_compute in Hin'; set_solver|].
  cbn in Hw. repeat (apply elem_of_cons in Hw as [->|Hw]; [first [vm_compute in Hk; discriminate Hk|vm_compute in Hn; discriminate Hn]|]).
  by apply not_elem_of_nil in Hw.
Defined.
