(* ===== verification/Version.v ===== *)
(** * The pod template of a component

    [worker/appm/conversion/version.go] and [resource.go]: the environment,
    the resources, the ports, the probes, the placement and the main container
    of a component, put together by [TenantServiceVersion]. *)
From stdpp Require Import pretty.
From S2P Require Import Prelude Variables Kube AppService Conversion Gateway Volume ThirdParty.

(** ** Rows *)

Record TenantServiceProbe := mkProbeRow {
  pr_Scheme : string;
  pr_Path : string;
  pr_Port : Z;
  pr_HTTPHeader : string;
  pr_InitialDelaySecond : Z;
  pr_PeriodSecond : Z;
  pr_TimeoutSecond : Z;
  pr_FailureThreshold : Z;
  pr_SuccessThreshold : Z
}.

Record TenantServiceLable := mkLabelRow { lb_LabelKey : string; lb_LabelValue : string }.

Definition LabelKeyNodeSelector : string := "node-selector".
Definition LabelKeyNodeAffinity : string := "node-affinity".
Definition LabelKeyServiceAffinity : string := "service-affinity".
Definition LabelKeyServiceAntyAffinity : string := "service-anti-affinity".
Definition LabelKeyServicePrivileged : string := "privileged".

(** The queries: relations are the ids at their other end, an alias row is
    alias and id, an HTTP rule comes with its container port; a probe and the
    privileged label may be missing. *)
Record PodDB := mkPodDB {
  pd_version : string → string → error + VersionInfo;
  pd_relations : string → error + list string;
  pd_reverse_relations : string → error + list string;
  pd_depend_envs : list string → list string → error + list TenantServiceEnvVar;
  pd_aliases : list string → error + list (string * string);
  pd_rules : string → error + list (Z * HTTPRule);
  pd_probe : string → string → error + option TenantServiceProbe;
  pd_selector_labels : string → error + list TenantServiceLable;
  pd_affinity_labels : string → error + list TenantServiceLable;
  pd_privileged_label : string → error + unit
}.

(** ** Resources ([resource.go]) *)

Record ResourceRequirements := mkRequirements {
  rs_req_memory : Z; rs_req_cpu : Z; rs_lim_memory : Z; rs_lim_cpu : Z }.

Definition default_base (memory : Z) : Z :=
  let b := Z.quot memory 128 in if decide (b ≤ 0)%Z then 1%Z else b.

Definition default_cpu_limit (memory : Z) : Z :=
  if decide (memory < 512)%Z then int64 (default_base memory * 80)
  else if decide (memory ≤ 1024)%Z then int64 (default_base memory * 160)
  else int64 (Z.quot (int64 (memory - 1024)) 1024 * 500 + 1280).

Definition createResourcesByDefaultCPU (memory setCPURequest setCPULimit : Z) : ResourceRequirements :=
  let cpuRequest := int64 (default_base memory * 30) in
  let cpuLimit := default_cpu_limit memory in
  let cpuLimit := if decide (0 < setCPULimit)%Z then setCPULimit else cpuLimit in
  let cpuRequest := if decide (0 < setCPURequest)%Z then setCPURequest else cpuRequest in
  let bytes := int64 (memory * 1024 * 1024) in
  mkRequirements bytes cpuRequest bytes cpuLimit.

(** A positive number of the extension set, else 0. *)
Definition extension_number (a : AppService) (key : string) : Z :=
  match b_ExtensionSet (base a) !! key with
  | Some v => let n := (Atoi v).1 in if decide (0 < n)%Z then n else 0%Z
  | None => 0%Z
  end.

Definition createResources (a : AppService) : ResourceRequirements :=
  createResourcesByDefaultCPU (b_ContainerMemory (base a)) (extension_number a "cpurequest")
    (extension_number a "cpulimit").

(** [envutil.GetMemoryType] *)
Definition memoryLabels : list (Z * string) :=
  [(128, "micro"); (256, "small"); (512, "medium"); (1024, "large"); (2048, "2xlarge"); (4096, "4xlarge");
   (8192, "8xlarge"); (16384, "16xlarge"); (32768, "32xlarge"); (65536, "64xlarge")]%Z%string.
Definition GetMemoryType (memorySize : Z) : string :=
  match List.find (λ l, bool_decide (l.1 = memorySize)) memoryLabels with
  | Some l => l.2
  | None => "small"
  end.

(** ** Probes *)

(** A header with more than one equals sign is dropped. *)
Definition probe_headers (text : string) : list (string * string) :=
  omap (λ hd, match split_char 61 hd with
              | [k] => Some (k, ""%string)
              | [k; v] => Some (k, v)
              | _ => None
              end) (split_char 44 text).

Definition probe_of (mode : string) (row : TenantServiceProbe) : option Probe :=
  let success := if decide (mode = "liveness"%string ∧ (pr_SuccessThreshold row < 1)%Z) then 1%Z
                 else pr_SuccessThreshold row in
  let failure := if decide (mode = "readiness"%string ∧ (pr_FailureThreshold row < 1)%Z) then 3%Z
                 else pr_FailureThreshold row in
  let p := mkProbe (int32 failure) (int32 success) (int32 (pr_InitialDelaySecond row))
    (int32 (pr_TimeoutSecond row)) (int32 (pr_PeriodSecond row)) in
  if decide (pr_Scheme row = "tcp"%string) then Some (p (TCPSocket (int32 (pr_Port row))))
  else if decide (pr_Scheme row = "http"%string) then
    Some (p (HTTPGet (pr_Path row) (int32 (pr_Port row))
      (if decide (pr_HTTPHeader row = ""%string) then [] else probe_headers (pr_HTTPHeader row))))
  else None.

(** ** Placement *)

(** [strings.SplitN(s, "=", 2)] of a string with an equals sign. *)
Definition cut_equals (s : string) : option (string * string) :=
  match split_two 61 s with [k; v] => Some (k, v) | _ => None end.

Definition node_label (v : string) : string := "kato_node_lable_" +:+ v.

Definition add_selector (selector : gmap string string) (l : TenantServiceLable) : gmap string string :=
  let v := lb_LabelValue l in
  if decide (v = "windows" ∨ v = "linux")%string then <[LabelOS := v]> selector
  else if decide (v = LabelKeyServicePrivileged) then selector
  else match cut_equals v with
       | Some (k, w) => <[k := w]> selector
       | None => <[node_label v := "true"%string]> selector
       end.

(** [strings.SplitN(s, "=", 1)] has one element: reading the second panics.
    [os]: a label asked for Windows. *)
Fixpoint affinity_terms (TenantID : string) (labels : list TenantServiceLable) (af : Affinity) (os : bool) :
    result (Affinity * bool) :=
  match labels with
  | [] => Ok (af, os)
  | l :: labels' =>
    let v := lb_LabelValue l in
    let require nr af := mkAffinity (af_NodeAffinity af ++ [nr]) (af_PodAffinity af) (af_PodAntiAffinity af) in
    if decide (lb_LabelKey l = LabelKeyNodeSelector ∧ v = "windows"%string) then
      affinity_terms TenantID labels' af true
    else if decide (lb_LabelKey l = LabelKeyNodeAffinity) then
      if decide (v = "windows"%string) then
        affinity_terms TenantID labels' (require (mkRequirement LabelOS "In" [v]) af) true
      else if str_contains v "=" then Panic
      else affinity_terms TenantID labels' (require (mkRequirement (node_label v) "In" ["true"%string]) af) os
    else if decide (lb_LabelKey l = LabelKeyServiceAffinity) then
      affinity_terms TenantID labels'
        (mkAffinity (af_NodeAffinity af) (af_PodAffinity af ++ [(v, TenantID)]) (af_PodAntiAffinity af)) os
    else if decide (lb_LabelKey l = LabelKeyServiceAntyAffinity) then
      affinity_terms TenantID labels'
        (mkAffinity (af_NodeAffinity af) (af_PodAffinity af) (af_PodAntiAffinity af ++ [(v, TenantID)])) os
    else affinity_terms TenantID labels' af os
  end.

Definition createPodAnnotations (a : AppService) : gmap string string :=
  let quote := String (Ascii.ascii_of_nat 34) "" in
  let annotations := if decide (Replicas a ≤ 1)%Z
    then {["kato.com/tolerate-unready-endpoints"%string := "true"%string]} else ∅ in
  let ip := get_str (b_ExtensionSet (base a)) "pod_ip" in
  if decide (Replicas a = 1%Z ∧ ip ≠ ""%string)
  then <["cni.projectcalico.org/ipAddrs"%string := ("[" +:+ quote +:+ ip +:+ quote +:+ "]")%string]> annotations
  else annotations.

(** Pairs of key and operator. *)
Definition createToleration (nodeSelector : gmap string string) : list (string * string) :=
  if decide (nodeSelector !! "type"%string = Some "virtual-kubelet"%string)
  then [("virtual-kubelet.io/provider", "Exists")]%string else [].

Definition strip_prefix (n : nat) (s : string) : string := String.substring n (String.length s - n) s.

Section placement.
Context `{GoRuntime} (pdb : PodDB).

Definition createProbe (a : AppService) (mode : string) : option Probe :=
  match pd_probe pdb (ServiceID a) mode with inr (Some row) => probe_of mode row | _ => None end.

Definition createNodeSelector (a : AppService) : gmap string string :=
  match pd_selector_labels pdb (ServiceID a) with inl _ => ∅ | inr labels => foldl add_selector ∅ labels end.

Definition createAffinity (a : AppService) : result Affinity :=
  let labels := match pd_affinity_labels pdb (ServiceID a) with inl _ => [] | inr l => l end in
  then_do (affinity_terms (TenantID a) labels (mkAffinity [] [] []) false) (λ st,
    let '(af, osWindowsSelect) := st in
    Ok (if osWindowsSelect : bool then af
        else mkAffinity (af_NodeAffinity af ++ [mkRequirement LabelOS "NotIn" ["windows"%string]])
               (af_PodAffinity af) (af_PodAntiAffinity af))).

Definition add_host (cache : gmap string (list string)) (kv : string * string) : gmap string (list string) :=
  if String.prefix "host_" kv.1 && ParseIP kv.2
  then <[kv.2 := default [] (cache !! kv.2) ++ [strip_prefix 5 kv.1]]> cache else cache.

Definition createHostAliases (a : AppService) : list (string * list string) :=
  range_order (foldl add_host ∅ (range_order (b_ExtensionSet (base a)))).
End placement.

(** ** The environment *)

Definition env (name value : string) : EnvVar := mkEnv name value None.
Definition field_env (name path : string) : EnvVar := mkEnv name "" (Some path).

(** Aliases and ids, separated by commas. *)
Definition depend_list (aliases : list (string * string)) : string :=
  foldl (λ d sa, ((if decide (d = ""%string) then "" else d +:+ ",") +:+ sa.1 +:+ ":" +:+ sa.2)%string) ""%string aliases.

(** A domain and its protocol. *)
Record Domains := mkDomains { dm_global : string * string; dm_first : string * string }.

(** The rules of one port, up to the first with a domain of its own. *)
Fixpoint port_domain (defDomain : string) (rules : list (string * string)) (d : Domains) :
    Domains * (string * string) :=
  match rules with
  | [] => (d, (""%string, ""%string))
  | r :: rules' =>
    if negb (str_contains r.1 defDomain) then
      (mkDomains (if decide ((dm_global d).1 = ""%string) then r else dm_global d) (dm_first d), r)
    else
      port_domain defDomain rules'
        (mkDomains (dm_global d) (if decide ((dm_first d).1 = ""%string) then r else dm_first d))
  end.

Definition domain_envs (p : Z) (d : string * string) : list EnvVar :=
  [env ("DOMAIN_" +:+ pretty p) d.1; env ("DOMAIN_PROTOCOL_" +:+ pretty p) d.2].

Fixpoint ports_domains (defDomain : string) (rules_of : Z → list (string * string)) (ports : list Z)
    (d : Domains) : Domains * list EnvVar :=
  match ports with
  | [] => (d, [])
  | p :: ports' =>
    match rules_of p with
    | [] => ports_domains defDomain rules_of ports' d
    | first :: _ =>
      let '(d, own) := port_domain defDomain (rules_of p) d in
      let own := if decide (own.1 = ""%string) then first else own in
      let '(d, l) := ports_domains defDomain rules_of ports' d in
      (d, domain_envs p own ++ l)
    end
  end.

(** The outer ports; a row without the flag is dereferenced. *)
Fixpoint outer_ports (ports : list TenantServicesPort) : result (list Z) :=
  match ports with
  | [] => Ok []
  | p :: ports' =>
    match tp_IsOuterService p with
    | None => Panic
    | Some o => then_do (outer_ports ports') (λ l, Ok (if o : bool then tp_ContainerPort p :: l else l))
    end
  end.

Section env.
Context `{GoRuntime} (pdb : PodDB) (vdb : VolumeDB) (gdb : GatewayDB).
Context (secret_rest : gmap string string → opaque) (secret_data : opaque → gmap string string).

Definition convertRulesToEnvs (a : AppService) (ports : list TenantServicesPort) : result (list EnvVar) :=
  let defDomain := ("." +:+ ServiceAlias a +:+ "." +:+ b_TenantName (base a) +:+ ".")%string in
  let httpRules := match pd_rules pdb (ServiceID a) with inl _ => [] | inr l => l end in
  let rules_of p := (λ r, (hr_Domain r.2, if decide (hr_CertificateID r.2 = ""%string) then "http" else "https")%string) <$>
    filter (λ r, r.1 = p) httpRules in
  then_do (outer_ports ports) (λ portInts,
    let '(d, re) := ports_domains defDomain rules_of (sort_slice (λ x y, bool_decide (x < y)%Z) portInts)
      (mkDomains ("", "") ("", ""))%string in
    let g := if decide ((dm_global d).1 = ""%string) then dm_first d else dm_global d in
    Ok (re ++ (if decide (g.1 = ""%string) then [] else [env "DOMAIN" g.1; env "DOMAIN_PROTOCOL" g.2]))).

(** What the component depends on: the changed component, its variables and
    the variables its dependencies hand out. *)
Definition dependency_envs (a : AppService) : result (AppService * list EnvVar * list TenantServiceEnvVar) :=
  let bootSeqDepServiceIDs := get_str (b_ExtensionSet (base a)) "boot_seq_dep_service_ids" in
  match pd_relations pdb (ServiceID a) with
  | inl e => Err e
  | inr [] => Ok (a, [], [])
  | inr relationIDs =>
    match pd_depend_envs pdb relationIDs ["outer"; "both"]%string with
    | inl e => Err e
    | inr es =>
      match pd_aliases pdb relationIDs with
      | inl e => Err e
      | inr serviceAliases =>
        let startup := fst <$> filter (λ sa, bootSeqDepServiceIDs ≠ ""%string ∧
                                              str_contains bootSeqDepServiceIDs sa.2 = true) serviceAliases in
        Ok (a <| base ::= λ b, b <| b_Dependces := relationIDs |>
                <| b_NeedProxy ::= λ n, n || bool_decide (b_GovernanceMode b = GovernanceModeBuildInServiceMesh) |> |>,
            [env "DEPEND_SERVICE" (depend_list serviceAliases);
             env "DEPEND_SERVICE_COUNT" (pretty (length serviceAliases));
             env "STARTUP_SEQUENCE_DEPENDENCIES" (String.concat "," startup)],
            es)
      end
    end
  end.

Definition reverse_envs (a : AppService) : result (list EnvVar) :=
  match pd_reverse_relations pdb (ServiceID a) with
  | inl e => Err e
  | inr [] => Ok []
  | inr ids =>
    match pd_aliases pdb ids with
    | inl e => Err e
    | inr aliases => Ok [env "REVERSE_DEPEND_SERVICE" (depend_list aliases)]
    end
  end.

Definition port_envs (a : AppService) : result (list EnvVar) :=
  match gd_ports gdb (ServiceID a) with
  | inl e => Err e
  | inr [] => Ok []
  | inr ((port :: _) as ports) =>
    then_do (convertRulesToEnvs a ports) (λ menvs,
      Ok ([env "PORT" (pretty (tp_ContainerPort port)); env "PROTOCOL" (tp_Protocol port)] ++ menvs ++
          [env "MONITOR_PORT" (String.concat ":" (pretty ∘ tp_ContainerPort <$> ports))]))
  end.

Definition default_envs (a : AppService) : list EnvVar :=
  [env "TENANT_ID" (TenantID a); env "SERVICE_ID" (ServiceID a);
   env "MEMORY_SIZE" (GetMemoryType (b_ContainerMemory (base a))); env "SERVICE_NAME" (ServiceAlias a);
   env "SERVICE_POD_NUM" (pretty (Replicas a)); field_env "HOST_IP" "status.hostIP";
   field_env "POD_IP" "status.podIP"].

Definition parse_env (config : gmap string string) (e : EnvVar) : EnvVar :=
  e <| env_Value := ParseVariable (env_Value e) config |>.
Definition parse_secret (config : gmap string string) (s : Secret) : Secret :=
  s <| pl_rest := secret_rest ((λ v, ParseVariable v config) <$> secret_data (pl_rest s)) |>.

(** A variable whose name begins with [ES_] sets an extension. *)
Definition set_extension (ext : gmap string string) (kv : string * string) : gmap string string :=
  if String.prefix "ES_" kv.1 then <[ToLower (strip_prefix 3 kv.1) := kv.2]> ext else ext.

Definition custom_envs (rows : list TenantServiceEnvVar) : list EnvVar :=
  (λ r, env (TrimSpace (er_AttrName r)) (er_AttrValue r)) <$> rows.

(** The variables before they are parsed, in order. *)
Definition collect_envs (a : AppService) : result (AppService * list EnvVar) :=
  then_do (dependency_envs a) (λ '(a, denvs, outer_rows),
  then_do (reverse_envs a) (λ renvs,
  then_do (port_envs a) (λ penvs,
    match vd_envs vdb (ServiceID a) ["inner"; "both"; "outer"]%string with
    | inl e => Err e
    | inr rows =>
      Ok (a, [env "LOGGER_DRIVER_NAME" "streamlog"] ++ denvs ++ renvs ++ penvs ++
             custom_envs (outer_rows ++ rows) ++ default_envs a)
    end))).

Definition createEnv (a : AppService) : result (AppService * list EnvVar) :=
  then_do (collect_envs a) (λ '(a, envs),
    let config := env_settings envs (secret_settings secret_data (GetEnvVarSecrets a)) in
    Ok (a <| envVarSecrets ::= map (parse_secret config) |>
          <| base ::= λ b, b <| b_ExtensionSet ::= λ ext, foldl set_extension ext (range_order config) |> |>,
        map (parse_env config) envs)).
End env.

(** ** The container *)

Definition map_pod_port (port : TenantServicesPort) (pport : TenantServicesStreamPluginPort) : TenantServicesPort :=
  if decide (pp_ContainerPort pport = tp_ContainerPort port) then
    port <| tp_ContainerPort := pp_PluginPort pport |> <| tp_MappingPort := pp_PluginPort pport |>
  else port.
Definition createUpstreamPluginMappingPort (ports : list TenantServicesPort)
    (pluginPorts : list TenantServicesStreamPluginPort) : list TenantServicesPort :=
  (λ p, foldl map_pod_port p pluginPorts) <$> ports.

Section template.
Context `{GoRuntime} (pdb : PodDB) (vdb : VolumeDB) (gdb : GatewayDB).
Context (secret_rest : gmap string string → opaque) (secret_data : opaque → gmap string string).
Context (unmarshal : string → error + gmap string dynamic).
Context (claim_rest : ClaimSpec → opaque) (configmap_rest : gmap string string → opaque) (NewUUID : nat → string).
(** [builder.RUNNERIMAGENAME] and the variable [IMAGE_PULL_SECRET]. *)
Context (RUNNERIMAGENAME IMAGE_PULL_SECRET : string).

(** An error leaves the container without ports. *)
Definition createPorts (a : AppService) : list ContainerPort :=
  let published ps := (λ p, mkContainerPort (int32 (tp_ContainerPort p)) (conversionPortProtocol (tp_Protocol p))) <$> ps in
  match gd_ports gdb (ServiceID a) with
  | inl _ | inr [] => []
  | inr ps =>
    match checkUpstreamPluginRelation gdb (ServiceID a) with
    | inl _ => []
    | inr false => published ps
    | inr true =>
      match gd_plugin_ports gdb (ServiceID a) with
      | inl _ => []
      | inr pluginPorts => published (createUpstreamPluginMappingPort ps pluginPorts)
      end
    end
  end.

Definition createArgs (version : VersionInfo) (envs : list EnvVar) : list string :=
  if decide (vi_Cmd version = ""%string) then []
  else RemoveSpaces (split_char 32 (ParseVariable (vi_Cmd version) (env_settings envs ∅))).

Definition image_name (version : VersionInfo) : string :=
  if decide (vi_ImageName version = ""%string) then
    if decide (vi_DeliveredType version = "slug"%string) then RUNNERIMAGENAME else vi_DeliveredPath version
  else vi_ImageName version.

Definition getMainContainer (a : AppService) (version : VersionInfo) (dv : Define) (envs : list EnvVar)
    (envVarSecrets : list Secret) : result Container :=
  let r := createResources a in
  let c privileged := mkContainer (ServiceID a) (image_name version) (rs_req_memory r) (rs_req_cpu r)
    (rs_lim_memory r) (rs_lim_cpu r) (createProbe pdb a "readiness") (createProbe pdb a "liveness")
    (createArgs version envs) (createPorts a) envs (map pl_name envVarSecrets) (df_volumeMounts dv) privileged [] in
  match pd_privileged_label pdb (ServiceID a) with
  | inr _ => Ok (c true)
  | inl e => if decide (e = ERecordNotFound) then Ok (c false) else Err (EWrap "get privileged label" e)
  end.

Definition setImagePullSecrets : list string :=
  if decide (IMAGE_PULL_SECRET = ""%string) then [] else [IMAGE_PULL_SECRET].

Definition extension (a : AppService) (key : string) : string := get_str (b_ExtensionSet (base a)) key.

Definition kube_config (a : AppService) (dv : Define) : Define :=
  if b_NeedProxy (base a)
  then SetVolume ShareFileVolumeType "kube-config" "/etc/kubernetes" "/grdata/kubernetes" "DirectoryOrCreate" true dv
  else dv.

Definition pod_template (a : AppService) (dv : Define) (container : Container) (affinity : Affinity) :
    PodTemplateSpec :=
  let nodeSelector := createNodeSelector pdb a in
  mkTemplate (GetCommonLabels [<["name"%string := ServiceAlias a]> {["version"%string := DeployVersion a]}] a)
    [container] [] (ServiceID a +:+ "-pod-spec") (createPodAnnotations a)
    (mkPodSpec (df_volumes dv) setImagePullSecrets nodeSelector (createToleration nodeSelector) (Some affinity)
      (createHostAliases a) (extension a "hostname") (extension a "selectnode")
      (bool_decide (is_Some (b_ExtensionSet (base a) !! "hostnetwork"%string))) (extension a "shcedulername")
      (if GetDeployment a is Some _ then Some 10%Z else None)).

Definition TenantServiceVersion : Conversion := λ a,
  match pd_version pdb (DeployVersion a) (ServiceID a) with
  | inl e => Err (EWrap "get service deploy version failure" e)
  | inr version =>
    match createEnv pdb vdb gdb secret_rest secret_data a with
    | Panic => Panic
    | Err e => Err (EWrap "conv service envs failure" e)
    | Ok (a, envs) =>
      let secs := GetEnvVarSecrets a in
      match createVolumes vdb unmarshal claim_rest configmap_rest secret_data NewUUID version envs secs a with
      | inl e => Err (EWrap "create volume in pod template error" e)
      | inr st =>
        let a := vs_as st in
        match getMainContainer a version (vs_define st) envs secs with
        | Panic => Panic
        | Err e => Err (EWrap "conv service main container failure" e)
        | Ok container =>
          then_do (createAffinity pdb a) (λ affinity,
            Ok (SetPodTemplate (pod_template a (kube_config a (vs_define st)) container affinity) a))
        end
      end
    end
  end.
End template.
