(* ===== verification/VersionSpec.v ===== *)
(** * What a pod template is made of

    Theorems about [Version]: resources, precedence among the variables,
    placement, and the template that [TenantServiceVersion] sets. *)
From stdpp Require Import pretty.
From S2P Require Import Prelude Variables Kube AppService Store Conversion ConversionSpec Gateway Volume VolumeSpec.
From S2P Require Import ThirdParty Version HandleSpec.

(** ** Resources *)

Lemma wrap64_id z : in_int64 z → int64 z = z.
Proof. unfold in_int64, wrap. intros Hz. rewrite Z.mod_small; lia. Qed.

Lemma default_limits m : (0 ≤ m < 2 ^ 42)%Z →
  (0 < int64 (default_base m * 30) ≤ default_cpu_limit m)%Z ∧ int64 (m * 1024 * 1024) = (m * 1048576)%Z.
Proof.
  intros Hm. pose proof (Z.quot_rem' m 128) as Hq. pose proof (Z.rem_bound_pos m 128 ltac:(lia) ltac:(lia)) as Hr.
  assert (1 ≤ default_base m ≤ 2 ^ 36)%Z as Hb by (unfold default_base; case_decide; lia).
  assert (128 * default_base m ≤ Z.max m 128)%Z as Hb' by (unfold default_base; case_decide; lia).
  assert (m < 128 * (default_base m + 1))%Z as Hb2 by (unfold default_base; case_decide; lia).
  split; [|rewrite wrap64_id; [lia|unfold in_int64; lia]].
  rewrite (wrap64_id (default_base m * 30)) by (unfold in_int64; lia). split; [lia|].
  unfold default_cpu_limit. case_decide; [|case_decide].
  - rewrite wrap64_id by (unfold in_int64; lia). lia.
  - rewrite wrap64_id by (unfold in_int64; lia). lia.
  - rewrite (wrap64_id (m - 1024)) by (unfold in_int64; lia).
    pose proof (Z.quot_rem' (m - 1024) 1024) as Hq2. pose proof (Z.rem_bound_pos (m - 1024) 1024 ltac:(lia) ltac:(lia)) as Hr2.
    rewrite wrap64_id by (unfold in_int64; lia). lia.
Qed.

(** The resources of a container, for a memory of up to 2^42
    megabytes.  Memory is requested as it is limited, without overflow.  With
    neither CPU number set, the defaults are positive and the
    request is within the limit.  A number that is set replaces its default
    and nothing compares it with the other one: the pod is admissible exactly
    when the limit set covers the default request, when the default limit
    covers the request set, or when the two numbers set agree. *)
Theorem resources_admissible (m req lim : Z) (Hm : (0 ≤ m < 2 ^ 42)%Z) (Hreq : (0 ≤ req)%Z) (Hlim : (0 ≤ lim)%Z) :
  let r := createResourcesByDefaultCPU m req lim in
  rs_req_memory r = (m * 1048576)%Z ∧ rs_lim_memory r = (m * 1048576)%Z ∧
  (0 < rs_req_cpu r)%Z ∧ (0 < rs_lim_cpu r)%Z ∧
  (req = 0 → lim = 0 → rs_req_cpu r ≤ rs_lim_cpu r)%Z ∧
  (0 < lim → req = 0 → (rs_req_cpu r ≤ rs_lim_cpu r ↔ Z.max 1 (Z.quot m 128) * 30 ≤ lim))%Z ∧
  (0 < req → lim = 0 → (rs_req_cpu r ≤ rs_lim_cpu r ↔ req ≤ default_cpu_limit m))%Z ∧
  (0 < req → 0 < lim → (rs_req_cpu r ≤ rs_lim_cpu r ↔ req ≤ lim))%Z.
Proof.
  destruct (default_limits m Hm) as [[H1 H2] H3]. unfold createResourcesByDefaultCPU. cbv zeta.
  cbn [rs_req_memory rs_lim_memory rs_req_cpu rs_lim_cpu]. rewrite H3.
  assert (int64 (default_base m * 30) = Z.max 1 (Z.quot m 128) * 30)%Z as H4.
  { assert (default_base m = Z.max 1 (Z.quot m 128))%Z as -> by (unfold default_base; case_decide; lia).
    rewrite wrap64_id; [done|]. pose proof (Z.quot_rem' m 128). pose proof (Z.rem_bound_pos m 128 ltac:(lia) ltac:(lia)).
    unfold in_int64. lia. }
  split_and!; try done; intros; repeat case_decide; try split; lia.
Qed.

Lemma resources_admissible_witness :
  let r := createResourcesByDefaultCPU 1024 0 100 in
  rs_req_cpu r = 240%Z ∧ rs_lim_cpu r = 100%Z ∧ ¬ (rs_req_cpu r ≤ rs_lim_cpu r)%Z.
Proof.
  destruct (resources_admissible 1024 0 100) as (_ & _ & _ & _ & _ & H & _); [lia..|].
  split; [reflexivity|]. split; [reflexivity|]. intros Hle. apply H in Hle; [|lia..]. vm_compute in Hle. by apply Hle.
Defined.

(** ** Precedence among the variables

    Of several variables of one name the container sees the last. *)
Fixpoint effective (l : list EnvVar) (n : string) : option EnvVar :=
  match l with
  | [] => None
  | e :: l' => match effective l' n with
               | Some x => Some x
               | None => if decide (env_Name e = n) then Some e else None
               end
  end.

Lemma env_union_assoc (x y z : option EnvVar) : (x ∪ y) ∪ z = x ∪ (y ∪ z).
Proof. by destruct x, y, z. Qed.

Lemma effective_app l1 l2 n : effective (l1 ++ l2) n = union (effective l2 n) (effective l1 n).
Proof.
  induction l1 as [|e l1 IH]; cbn [app effective]; [by destruct (effective l2 n)|]. rewrite IH.
  destruct (effective l2 n), (effective l1 n); try done; by destruct (decide (env_Name e = n)).
Qed.

Lemma effective_parse config l n : effective (map (parse_env config) l) n = parse_env config <$> effective l n.
Proof.
  induction l as [|e l IH]; [done|]. cbn [map effective]. rewrite IH. destruct (effective l n); [done|].
  cbn. by destruct (decide (env_Name e = n)).
Qed.

(** The substitution reads the variables with the same precedence. *)
Lemma env_settings_lookup l config n : env_settings l config !! n = union (env_Value <$> effective l n) (config !! n).
Proof.
  unfold env_settings. revert config. induction l as [|e l IH]; intros config; cbn [foldl effective].
  { by destruct (config !! n). }
  rewrite IH. destruct (effective l n) as [x|].
  - by destruct (<[_ := _]> config !! n), (config !! n).
  - destruct (decide (env_Name e = n)) as [<-|].
    + rewrite lookup_insert_eq. by destruct (config !! env_Name e).
    + by rewrite lookup_insert_ne by done.
Qed.

Lemma parse_plain s config : has_char 36 s = false → ParseVariable s config = s.
Proof.
  intros Hs. unfold ParseVariable. pose proof (find_text s "" Hs) as Hf.
  assert (s +:+ "" = s) as E by (clear; induction s as [|c s IH]; [done|]; exact (f_equal (String c) IH)).
  rewrite E in Hf. by rewrite Hf.
Qed.

Lemma effective_elem l e : NoDup (env_Name <$> l) → e ∈ l → effective l (env_Name e) = Some e.
Proof.
  induction l as [|x l IH]; [by intros _ ?%not_elem_of_nil|]. rewrite fmap_cons. intros [Hx Hl]%NoDup_cons Hin.
  apply elem_of_cons in Hin as [->|Hin]; cbn [effective].
  - assert (effective l (env_Name x) = None) as ->; [|by rewrite decide_True].
    clear -Hx. induction l as [|y l IH]; [done|]. rewrite fmap_cons, not_elem_of_cons in Hx. cbn [effective].
    rewrite IH by tauto. rewrite decide_False; [done|]. intros E. by apply (proj1 Hx).
  - by rewrite IH.
Qed.

Section env.
Context `{GoRuntime} (pdb : PodDB) (vdb : VolumeDB) (gdb : GatewayDB).
Context (secret_rest : gmap string string → opaque) (secret_data : opaque → gmap string string).

Lemma dependency_keeps a a1 denvs rows : dependency_envs pdb a = Ok (a1, denvs, rows) →
  base a1 = (base a) <| b_Dependces := b_Dependces (base a1) |> <| b_NeedProxy := b_NeedProxy (base a1) |> ∧
  a1 = a <| base := base a1 |>.
Proof.
  unfold dependency_envs. destruct (pd_relations pdb (ServiceID a)) as [|[|r rs]]; [done|..].
  - intros [= <- <- <-]. by destruct a as [[] ? ? ? ? ? ? ? ? ? ? ? ? ? ? ? ? ? ? ? ? ? ? ? ? ? ?].
  - destruct (pd_depend_envs _ _ _); [done|]. destruct (pd_aliases _ _); [done|]. intros [= <- _ _].
    by destruct a as [[] ? ? ? ? ? ? ? ? ? ? ? ? ? ? ? ? ? ? ? ? ? ? ? ? ? ?].
Qed.

(** The names of the default variables are distinct. *)
Lemma default_names a : NoDup (env_Name <$> default_envs a).
Proof. apply (bool_decide_unpack _). vm_compute. exact I. Qed.

(** Who decides a variable of the container.  The
    defaults of the platform win over the component's own variables,
    these over the variables its dependencies hand out, and these over
    the generated ones (ports, domains, dependencies): the container's last entry of a
    name is that of the first group in this order that has the name.  The
    text of every variable is parsed with the settings that the same order
    gives, the secrets of configuration groups coming last; so no variable of
    a user changes the id of the component or of its tenant. *)
Theorem env_precedence (a a' : AppService) (envs : list EnvVar)
    (Hrun : createEnv pdb vdb gdb secret_rest secret_data a = Ok (a', envs)) :
  ∃ a1 denvs outer renvs penvs rows config,
    dependency_envs pdb a = Ok (a1, denvs, outer) ∧ reverse_envs pdb a1 = Ok renvs ∧
    port_envs pdb gdb a1 = Ok penvs ∧ vd_envs vdb (ServiceID a) ["inner"; "both"; "outer"]%string = inr rows ∧
    (∀ n, let chosen := effective (default_envs a1) n ∪ (effective (custom_envs rows) n ∪
            (effective (custom_envs outer) n ∪
             effective ([env "LOGGER_DRIVER_NAME" "streamlog"] ++ denvs ++ renvs ++ penvs) n)) in
      effective envs n = parse_env config <$> chosen ∧
      config !! n = (env_Value <$> chosen) ∪ secret_settings secret_data (envVarSecrets a) !! n) ∧
    (∀ e, e ∈ default_envs a → has_char 36 (env_Value e) = false → effective envs (env_Name e) = Some e).
Proof.
  unfold createEnv, collect_envs in Hrun.
  destruct (dependency_envs pdb a) as [[[a1 denvs] outer]|e|] eqn:Ed; cbn [then_do] in Hrun; [|done..].
  destruct (dependency_keeps _ _ _ _ Ed) as [Hb Ha1].
  destruct (reverse_envs pdb a1) as [renvs|e|] eqn:Er; cbn [then_do] in Hrun; [|done..].
  destruct (port_envs pdb gdb a1) as [penvs|e|] eqn:Ep; cbn [then_do] in Hrun; [|done..].
  assert (ServiceID a1 = ServiceID a) as Hid by (unfold ServiceID; by rewrite Hb).
  rewrite Hid in Hrun. destruct (vd_envs _ _ _) as [e|rows] eqn:Ev; cbn [then_do] in Hrun; [done|].
  set (defaults := default_envs a1) in *.
  set (l := [env "LOGGER_DRIVER_NAME" "streamlog"] ++ denvs ++ renvs ++ penvs ++ custom_envs (outer ++ rows) ++ defaults) in Hrun.
  cbv zeta in Hrun. set (config := env_settings l (secret_settings secret_data (GetEnvVarSecrets a1))) in Hrun.
  assert (envs = map (parse_env config) l) as -> by (by injection Hrun).
  exists a1, denvs, outer, renvs, penvs, rows, config.
  assert (default_envs a = defaults) as Hdef.
  { unfold defaults, default_envs, TenantID, ServiceID, ServiceAlias, Replicas. by rewrite Hb. }
  assert (∀ n, effective l n = effective defaults n ∪ (effective (custom_envs rows) n ∪
            (effective (custom_envs outer) n ∪
             effective ([env "LOGGER_DRIVER_NAME" "streamlog"] ++ denvs ++ renvs ++ penvs) n))) as Hl.
  { intros n. unfold l, custom_envs. rewrite fmap_app, !effective_app. by rewrite !env_union_assoc. }
  split; [done|]. split; [done|]. split; [done|]. split; [done|]. split.
  - intros n. cbv zeta. rewrite <- Hl. split; [apply effective_parse|]. unfold config. rewrite env_settings_lookup.
    unfold GetEnvVarSecrets. by rewrite Ha1.
  - intros e He Hp. rewrite effective_parse, Hl.
    rewrite Hdef in He. rewrite (effective_elem defaults e) by (done || apply default_names).
    assert (∀ o : option EnvVar, Some e ∪ o = Some e) as -> by (by intros []). cbn.
    unfold parse_env. rewrite parse_plain by done. by destruct e.
Qed.
End env.

(** ** Placement *)

(** The labels of a key, and those that ask for Windows. *)
Definition with_key (key : string) (labels : list TenantServiceLable) : list string :=
  lb_LabelValue <$> filter (λ l, lb_LabelKey l = key) labels.
Definition asks_windows (l : TenantServiceLable) : Prop :=
  lb_LabelValue l = "windows"%string ∧ (lb_LabelKey l = LabelKeyNodeSelector ∨ lb_LabelKey l = LabelKeyNodeAffinity).
#[export] Instance asks_windows_dec l : Decision (asks_windows l).
Proof. unfold asks_windows. apply _. Defined.
Definition bad_label (l : TenantServiceLable) : Prop :=
  lb_LabelKey l = LabelKeyNodeAffinity ∧ lb_LabelValue l ≠ "windows"%string ∧ str_contains (lb_LabelValue l) "=" = true.
#[export] Instance bad_label_dec l : Decision (bad_label l).
Proof. unfold bad_label. apply _. Defined.

Definition node_requirement (v : string) : NodeRequirement :=
  if decide (v = "windows"%string) then mkRequirement LabelOS "In" [v]
  else mkRequirement (node_label v) "In" ["true"%string].

Lemma node_requirement_plain v : v ≠ "windows"%string → node_requirement v = mkRequirement (node_label v) "In" ["true"%string].
Proof. intros Hv. unfold node_requirement. by rewrite decide_False. Qed.

Abbreviation some P labels := (existsb (λ l, bool_decide (P l)) labels).

Lemma some_true (P : TenantServiceLable → Prop) `{∀ l, Decision (P l)} labels :
  some P labels = true ↔ ∃ l, l ∈ labels ∧ P l.
Proof.
  rewrite existsb_exists. split; intros (l & H1 & H2); exists l; rewrite bool_decide_eq_true, <- list_elem_of_In in *; done.
Qed.

Lemma affinity_terms_outcome ns labels af os :
  affinity_terms ns labels af os =
  if some bad_label labels then Panic
  else Ok (mkAffinity (af_NodeAffinity af ++ (node_requirement <$> with_key LabelKeyNodeAffinity labels))
             (af_PodAffinity af ++ ((λ v, (v, ns)) <$> with_key LabelKeyServiceAffinity labels))
             (af_PodAntiAffinity af ++ ((λ v, (v, ns)) <$> with_key LabelKeyServiceAntyAffinity labels)),
           os || some asks_windows labels).
Proof.
  revert af os. induction labels as [|[key v] labels IH]; intros af os.
  { cbn. rewrite !app_nil_r, orb_false_r. by destruct af. }
  assert (∀ k, key ≠ k → with_key k (mkLabelRow key v :: labels) = with_key k labels) as Hother.
  { intros k Hne. unfold with_key. by rewrite filter_cons_False. }
  assert (∀ k, key = k → with_key k (mkLabelRow key v :: labels) = v :: with_key k labels) as Hsame.
  { intros k E. unfold with_key. by rewrite filter_cons_True. }
  cbn [affinity_terms existsb lb_LabelKey lb_LabelValue].
  assert (∀ P : TenantServiceLable → Prop, ∀ D : Decision (P (mkLabelRow key v)),
    ¬ P (mkLabelRow key v) → bool_decide (P (mkLabelRow key v)) = false) as Hno by (intros; by apply bool_decide_eq_false_2).
  destruct (decide (key = LabelKeyNodeSelector ∧ v = "windows"%string)) as [[-> ->]|Hsel].
  { rewrite IH, Hno by (unfold bad_label; cbn; intros []; discriminate). rewrite !Hother by discriminate.
    rewrite (bool_decide_eq_true_2 (asks_windows _)) by (split; [done|by left]). cbn [orb]. by rewrite orb_true_r. }
  destruct (decide (key = LabelKeyNodeAffinity)) as [->|Hna].
  - rewrite !(Hother LabelKeyServiceAffinity), !(Hother LabelKeyServiceAntyAffinity), Hsame by (done || discriminate).
    destruct (decide (v = "windows"%string)) as [->|Hv].
    + rewrite IH, Hno by (unfold bad_label; cbn; tauto). cbn [orb af_NodeAffinity af_PodAffinity af_PodAntiAffinity].
      rewrite (bool_decide_eq_true_2 (asks_windows _)) by (split; [done|by right]). rewrite fmap_cons. cbn [orb].
      rewrite orb_true_r, <- (assoc_L (++)). done.
    + rewrite (Hno asks_windows) by (unfold asks_windows; cbn; tauto). cbn [orb].
      destruct (str_contains v "=") eqn:Ec.
      * by rewrite bool_decide_eq_true_2.
      * rewrite IH, Hno by (unfold bad_label; cbn; rewrite Ec; intros (_ & _ & ?); done).
        cbn [orb af_NodeAffinity af_PodAffinity af_PodAntiAffinity]. rewrite fmap_cons, <- (assoc_L (++)).
        by rewrite (node_requirement_plain v Hv).
  - rewrite (Hno bad_label) by (unfold bad_label; cbn; tauto).
    rewrite (Hno asks_windows) by (unfold asks_windows; cbn; tauto). cbn [orb].
    rewrite (Hother LabelKeyNodeAffinity) by done.
    destruct (decide (key = LabelKeyServiceAffinity)) as [->|Hsa].
    + rewrite IH, Hsame, (Hother LabelKeyServiceAntyAffinity) by (done || discriminate).
      cbn [af_NodeAffinity af_PodAffinity af_PodAntiAffinity]. by rewrite fmap_cons, <- (assoc_L (++)).
    + rewrite (Hother LabelKeyServiceAffinity) by done. destruct (decide (key = LabelKeyServiceAntyAffinity)) as [->|Hanti].
      * rewrite IH, Hsame by done.
        cbn [af_NodeAffinity af_PodAffinity af_PodAntiAffinity]. by rewrite fmap_cons, <- (assoc_L (++)).
      * by rewrite IH, Hother.
Qed.

Definition affinity_rows (pdb : PodDB) (a : AppService) : list TenantServiceLable :=
  match pd_affinity_labels pdb (ServiceID a) with inl _ => [] | inr l => l end.

(** Building the affinity of a component panics, and with it the
    worker's task, exactly when a node-affinity label other than [windows]
    holds an equals sign: the label is split into one part and the second is
    read.  Otherwise every label has its term, in order, under the key it
    was stored with, and the pod is kept off Windows nodes unless a label
    asks for them. *)
Theorem affinity_outcome (pdb : PodDB) (a : AppService) :
  let labels := affinity_rows pdb a in
  (createAffinity pdb a = Panic ↔ ∃ l, l ∈ labels ∧ bad_label l) ∧
  ((∀ l, l ∈ labels → ¬ bad_label l) → ∃ af, createAffinity pdb a = Ok af ∧
     af_PodAffinity af = (λ v, (v, TenantID a)) <$> with_key LabelKeyServiceAffinity labels ∧
     af_PodAntiAffinity af = (λ v, (v, TenantID a)) <$> with_key LabelKeyServiceAntyAffinity labels ∧
     ((∃ l, l ∈ labels ∧ asks_windows l) →
        af_NodeAffinity af = node_requirement <$> with_key LabelKeyNodeAffinity labels) ∧
     (¬ (∃ l, l ∈ labels ∧ asks_windows l) →
        af_NodeAffinity af = (node_requirement <$> with_key LabelKeyNodeAffinity labels) ++
                             [mkRequirement LabelOS "NotIn" ["windows"%string]])).
Proof.
  cbv zeta. unfold createAffinity. fold (affinity_rows pdb a). rewrite affinity_terms_outcome.
  destruct (some bad_label (affinity_rows pdb a)) eqn:Eb; cbn [then_do].
  - apply (some_true bad_label) in Eb. split; [done|]. intros Hn. destruct Eb as (l & Hl & Hb). by destruct (Hn l Hl).
  - assert (¬ ∃ l, l ∈ affinity_rows pdb a ∧ bad_label l) as Hn by (intros Hb; apply (some_true bad_label) in Hb; congruence).
    split; [split; [done|intros Hb; by destruct (Hn Hb)]|]. intros _. eexists. split; [reflexivity|].
    cbn [orb app af_NodeAffinity af_PodAffinity af_PodAntiAffinity].
    destruct (some asks_windows (affinity_rows pdb a)) eqn:Ew; cbn [af_NodeAffinity af_PodAffinity af_PodAntiAffinity];
      (split; [done|]; split; [done|]).
    + apply (some_true asks_windows) in Ew. split; [done|]. intros Hw. by destruct (Hw Ew).
    + split; [|done]. intros Hw. apply (some_true asks_windows) in Hw. congruence.
Qed.

(** ** Host aliases *)

Lemma strip_host h : strip_prefix 5 ("host_" +:+ h) = h.
Proof.
  unfold strip_prefix. change (String.substring 0 (String.length h - 0) h = h). rewrite Nat.sub_0_r.
  induction h as [|c h IH]; [done|]. cbn [String.length String.substring]. by rewrite IH.
Qed.

Lemma add_host_elem c kv ip h :
  h ∈ default [] (add_host c kv !! ip) ↔
  h ∈ default [] (c !! ip) ∨ kv = (("host_" +:+ h)%string, ip) ∧ ParseIP ip = true.
Proof.
  destruct kv as [k v]. unfold add_host. cbn [fst snd].
  destruct (String.prefix "host_" k) eqn:Ep; cbn [andb].
  - apply prefix_app in Ep as [r ->]. destruct (ParseIP v) eqn:Ev.
    + destruct (decide (v = ip)) as [->|Hne].
      * rewrite lookup_insert_eq. cbn [default from_option id]. rewrite elem_of_app, list_elem_of_singleton, strip_host.
        split; [intros [?| ->]; [by left|by right]|intros [?|[[= E] _]]; [by left|right]]. exact (eq_sym E).
      * rewrite lookup_insert_ne by done. split; [by left|]. by intros [?|[[= _ ?] _]].
    + split; [by left|]. intros [?|[[= _ ->] ?]]; [done|congruence].
  - split; [by left|]. intros [?|[[= -> _] _]]; [done|]. by rewrite app_prefix in Ep.
Qed.

Lemma add_hosts_elem l c ip h :
  h ∈ default [] (foldl add_host c l !! ip) ↔
  h ∈ default [] (c !! ip) ∨ (("host_" +:+ h)%string, ip) ∈ l ∧ ParseIP ip = true.
Proof.
  revert c. induction l as [|kv l IH]; intros c; cbn [foldl].
  - split; [by left|]. intros [?|[H%not_elem_of_nil _]]; done.
  - rewrite IH, add_host_elem, elem_of_cons. naive_solver.
Qed.

(** The host aliases of a pod, in whatever order Go visits
    the two maps: one entry for each address, and under an address exactly
    the names whose extension [host_<name>] is that address, provided
    it is an address. *)
Theorem host_aliases_group `{GoRuntimeLaws} (a : AppService) :
  NoDup (createHostAliases a).*1 ∧
  ∀ ip h, (∃ hs, (ip, hs) ∈ createHostAliases a ∧ h ∈ hs) ↔
    b_ExtensionSet (base a) !! ("host_" +:+ h)%string = Some ip ∧ ParseIP ip = true.
Proof.
  unfold createHostAliases. set (cache := foldl add_host ∅ _). split.
  - rewrite (range_order_perm _ cache). apply NoDup_fst_map_to_list.
  - intros ip h. transitivity (h ∈ default [] (cache !! ip)).
    + split.
      * intros (hs & Hin & Hh). rewrite (range_order_perm _ cache) in Hin. apply elem_of_map_to_list in Hin. by rewrite Hin.
      * destruct (cache !! ip) as [hs|] eqn:E; [|by intros ?%not_elem_of_nil]. intros Hh. exists hs. split; [|done].
        rewrite (range_order_perm _ cache). by apply elem_of_map_to_list.
    + unfold cache. rewrite add_hosts_elem, (range_order_perm _ (b_ExtensionSet (base a))), elem_of_map_to_list, lookup_empty.
      split; [intros [?%not_elem_of_nil|?]; done|by right].
Qed.

(** ** Extensions *)

(** A key with an upper-case letter is not set by any variable. *)
Fixpoint has_upper (s : string) : bool :=
  match s with
  | EmptyString => false
  | String c s' => let n := Ascii.nat_of_ascii c in bool_decide (65 ≤ n ≤ 90) || has_upper s'
  end.

Lemma lower_char c : let n := Ascii.nat_of_ascii (map_char 65 90 (λ n, n + 32) c) in ¬ 65 ≤ n ≤ 90.
Proof.
  unfold map_char. cbv zeta. case_bool_decide as Hc; [|done].
  rewrite Ascii.nat_ascii_embedding by lia. lia.
Qed.

Lemma to_lower_plain s : has_upper (ToLower s) = false.
Proof.
  induction s as [|c s IH]; [done|]. unfold ToLower in *. cbn [map_string has_upper].
  rewrite bool_decide_eq_false_2 by apply lower_char. exact IH.
Qed.

Lemma extensions_keep k l ext : has_upper k = true → foldl set_extension ext l !! k = ext !! k.
Proof.
  intros Hk. revert ext. induction l as [|kv l IH]; intros ext; [done|]. cbn [foldl]. rewrite IH.
  unfold set_extension. destruct (String.prefix "ES_" kv.1); [|done]. apply lookup_insert_ne.
  intros <-. by rewrite to_lower_plain in Hk.
Qed.

Section template.
Context `{GoRuntime} (pdb : PodDB) (vdb : VolumeDB) (gdb : GatewayDB).
Context (secret_rest : gmap string string → opaque) (secret_data : opaque → gmap string string).
Context (unmarshal : string → error + gmap string dynamic).
Context (claim_rest : ClaimSpec → opaque) (configmap_rest : gmap string string → opaque) (NewUUID : nat → string).
Context (RUNNERIMAGENAME IMAGE_PULL_SECRET : string).

(** What [createEnv] changes of a component. *)
Lemma create_env_keeps a a' envs : createEnv pdb vdb gdb secret_rest secret_data a = Ok (a', envs) →
  (wf a → wf a') ∧
  (ServiceID a' = ServiceID a ∧ TenantID a' = TenantID a ∧ DeployVersion a' = DeployVersion a ∧
   ServiceAlias a' = ServiceAlias a) ∧
  b_CreaterID (base a') = b_CreaterID (base a) ∧
  statefulset a' = statefulset a ∧ deployment a' = deployment a ∧
  (∀ k, has_upper k = true → b_ExtensionSet (base a') !! k = b_ExtensionSet (base a) !! k).
Proof.
  unfold createEnv, collect_envs.
  destruct (dependency_envs pdb a) as [[[a1 denvs] outer]|e|] eqn:Ed; cbn [then_do]; [|done..].
  destruct (dependency_keeps _ _ _ _ _ Ed) as [Hb Ha1].
  destruct (reverse_envs pdb a1) as [renvs|e|]; cbn [then_do]; [|done..].
  destruct (port_envs pdb gdb a1) as [penvs|e|]; cbn [then_do]; [|done..].
  destruct (vd_envs _ _ _) as [e|rows]; cbn [then_do]; [done|]. intros [= <- <-].
  split; [intros Hw; apply (wf_same a); try (by rewrite Ha1); exact Hw|].
  split_and!.
  - unfold ServiceID. cbn. by rewrite Hb.
  - unfold TenantID. cbn. by rewrite Hb.
  - unfold DeployVersion. cbn. by rewrite Hb.
  - unfold ServiceAlias. cbn. by rewrite Hb.
  - cbn. by rewrite Hb.
  - cbn. by rewrite Ha1.
  - cbn. by rewrite Ha1.
  - intros k Hk. cbn. rewrite extensions_keep by done. by rewrite Hb.
Qed.

(** What the volumes change of a component: of a stateful set only the claim
    templates. *)
Definition bare (w : Workload) : Workload := w <| wl_VolumeClaimTemplates := [] |>.
Lemma bare_stateful a a' : bare <$> statefulset a' = bare <$> statefulset a → stateful a' = stateful a.
Proof. unfold stateful. by destruct (statefulset a), (statefulset a'). Qed.

Record volumes_keep (a a' : AppService) : Prop := {
  vk_wf : wf a → wf a';
  vk_base : base a' = base a;
  vk_deployment : deployment a' = deployment a;
  vk_statefulset : bare <$> statefulset a' = bare <$> statefulset a;
  vk_secrets : envVarSecrets a' = envVarSecrets a
}.
#[local] Instance volumes_keep_preorder : PreOrder volumes_keep.
Proof.
  split; [by intros a; split|]. intros a b c [A1 A2 A3 A4 A5] [B1 B2 B3 B4 B5]. split; [auto|congruence..].
Qed.

Lemma keep_claim c a : volumes_keep a (SetClaim c a).
Proof. split; [|done..]. intros Hw. exact (proj1 (pres_run _ (preserving_op (OpSetClaim c)) a _ Hw eq_refl)). Qed.
Lemma keep_manual c a : volumes_keep a (SetClaimManually c a).
Proof. split; [|done..]. intros Hw. exact (proj1 (pres_run _ (preserving_op (OpSetClaimManually c)) a _ Hw eq_refl)). Qed.
Lemma keep_config c a : volumes_keep a (SetConfigMap c a).
Proof. split; [|done..]. intros Hw. exact (proj1 (pres_run _ (preserving_op (OpSetConfigMap c)) a _ Hw eq_refl)). Qed.
Lemma keep_template c a : volumes_keep a (add_template c a).
Proof.
  split; [intros Hw; by apply (wf_same a)|done|done| |done].
  unfold add_template. cbn. by destruct (statefulset a).
Qed.

Abbreviation create := (CreateVolume vdb unmarshal claim_rest configmap_rest secret_data NewUUID).

Lemma volume_create_keeps k v envs secs st st' : create k v envs secs st = inr st' → volumes_keep (vs_as st) (vs_as st').
Proof.
  assert (∀ c, volumes_keep (vs_as st) (add_template (in_tenant (vs_as st) c) (SetClaim c (vs_as st)))) as Ht.
  { intros c. etransitivity; [apply (keep_claim c)|apply keep_template]. }
  destruct k; cbn [CreateVolume].
  - intros [= <-]. unfold share_create. destruct (GetStatefulSet _); [apply Ht|].
    destruct (mounted _ _); [reflexivity|]. etransitivity; [apply keep_claim|apply keep_manual].
  - destruct (vd_config_file _ _ _); [done|]. intros [= <-]. apply keep_config.
  - unfold memory_create. destruct (decide _); [by intros [= <-]|]. destruct (mounted _ _); [by intros [= <-]|].
    destruct (vd_envs _ _ _); [done|]. by intros [= <-].
  - intros [= <-]. unfold local_create. destruct (GetStatefulSet _); [apply Ht|reflexivity].
  - unfold other_create. destruct (vd_capacity_validation _ _); [done|].
    destruct (ValidateVolumeCapacity _ _ _); [done|]. intros [= <-]. apply Ht.
Qed.

Lemma depend_keeps k sv t envs st st' : CreateDependVolume vdb configmap_rest NewUUID k sv t envs st = inr st' →
  volumes_keep (vs_as st) (vs_as st').
Proof.
  destruct k; cbn [CreateDependVolume]; try (by intros [= <-]).
  - destruct (mounted _ _); by intros [= <-].
  - destruct (vd_volume_by_name _ _ _); [done|]. destruct (vd_config_file _ _ _); [done|]. intros [= <-]. apply keep_config.
Qed.

Lemma created_keeps version envs secs a st :
  createVolumes vdb unmarshal claim_rest configmap_rest secret_data NewUUID version envs secs a = inr st →
  volumes_keep a (vs_as st).
Proof.
  unfold createVolumes. destruct (vd_volumes _ _) as [|o]; [done|]. destruct (vd_mounts _ _) as [|ts]; [done|].
  set (st0 := mkVS a _ 0). set (st1 := foldl _ st0 _).
  assert (∀ l st, volumes_keep (vs_as st)
    (vs_as (foldl (own_volume vdb unmarshal claim_rest configmap_rest secret_data NewUUID envs secs) st l))) as Hown.
  { induction l as [|v l IH]; intros s; [reflexivity|]. cbn [foldl]. etransitivity; [|apply IH].
    unfold own_volume. destruct (NewVolumeManager _ _) as [k|]; [|reflexivity]. unfold attempt.
    destruct (create k v envs secs s) eqn:E; [reflexivity|]. by eapply volume_create_keeps. }
  assert (volumes_keep a (vs_as st1)) as H1 by exact (Hown (default [] o) st0).
  assert (∀ l s s', depend_volumes vdb configmap_rest NewUUID envs l s = inr s' → volumes_keep (vs_as s) (vs_as s')) as Hdep.
  { induction l as [|t l IH]; intros s s'; cbn [depend_volumes]; [by intros [= <-]|].
    destruct (vd_volume_by_name _ _ _) as [|sv]; [done|]. intros Hr. etransitivity; [|exact (IH _ _ Hr)].
    destruct (NewVolumeManager _ _) as [k|]; [|reflexivity]. unfold attempt.
    destruct (CreateDependVolume _ _ _ _ _ _ _ _) eqn:E; [reflexivity|]. by eapply depend_keeps. }
  destruct o as [vs|]; [|by intros [= <-]].
  destruct (depend_volumes _ _ _ _ _ _) as [|st2] eqn:E; [done|]. intros [= <-]. etransitivity; [exact H1|].
  exact (Hdep _ _ _ E).
Qed.

Abbreviation version_conversion := (TenantServiceVersion pdb vdb gdb secret_rest secret_data unmarshal claim_rest
  configmap_rest NewUUID RUNNERIMAGENAME IMAGE_PULL_SECRET).

Lemma wf_set_template t a : wf a → wf (SetPodTemplate t a).
Proof. intros Hw. exact (proj1 (pres_run _ (preserving_op (OpSetPodTemplate t)) a _ Hw eq_refl)). Qed.

(** What a successful run has computed. *)
Lemma version_inv a a' : version_conversion a = Ok a' →
  ∃ version a1 envs st container affinity, pd_version pdb (DeployVersion a) (ServiceID a) = inr version ∧
    createEnv pdb vdb gdb secret_rest secret_data a = Ok (a1, envs) ∧
    createVolumes vdb unmarshal claim_rest configmap_rest secret_data NewUUID version envs (envVarSecrets a1) a1 = inr st ∧
    getMainContainer pdb gdb RUNNERIMAGENAME (vs_as st) version (vs_define st) envs (envVarSecrets a1) = Ok container ∧
    createAffinity pdb (vs_as st) = Ok affinity ∧
    a' = SetPodTemplate (pod_template pdb IMAGE_PULL_SECRET (vs_as st) (kube_config (vs_as st) (vs_define st))
                           container affinity) (vs_as st).
Proof.
  unfold TenantServiceVersion, GetEnvVarSecrets. destruct (pd_version _ _ _) as [|version]; [done|].
  destruct (createEnv _ _ _ _ _ a) as [[a1 envs]| |] eqn:Ee; [|done..].
  destruct (createVolumes _ _ _ _ _ _ _ _ _ _) as [|st] eqn:Ev; [done|].
  destruct (getMainContainer _ _ _ _ _ _ _) as [container| |] eqn:Ec; [|done..].
  destruct (createAffinity _ _) as [affinity| |] eqn:Ea; cbn [then_do]; [|done..].
  intros [= <-]. exists version, a1, envs, st, container, affinity. split_and!; done.
Qed.

Lemma main_container_inv a version dv envs secs c :
  getMainContainer pdb gdb RUNNERIMAGENAME a version dv envs secs = Ok c →
  c_Name c = ServiceID a ∧ c_Env c = envs ∧ c_VolumeMounts c = df_volumeMounts dv ∧ c_EnvFrom c = map pl_name secs.
Proof.
  unfold getMainContainer. destruct (pd_privileged_label _ _) as [e|[]].
  - destruct (decide (e = ERecordNotFound)); [|done]. by intros [= <-].
  - by intros [= <-].
Qed.

Lemma kube_config_fits a dv : "kube-config"%string ∉ volume_names dv → NoDup (volume_names dv) →
  mount_names dv ⊆ volume_names dv →
  NoDup (volume_names (kube_config a dv)) ∧ volume_names dv ⊆ volume_names (kube_config a dv).
Proof.
  intros Hf Hn Hm. unfold kube_config. destruct (b_NeedProxy (base a)); [|done].
  unfold SetVolume. destruct (mounted _ dv) eqn:Em; [done|].
  rewrite decide_False by discriminate. rewrite decide_True by done.
  rewrite !decide_False by discriminate.
  destruct (adds_fits "kube-config" "/etc/kubernetes" dv _
    (adds_one _ _ dv (mkVolume "kube-config" (HostPath "/grdata/kubernetes" "DirectoryOrCreate"))
       (mkMount "kube-config" "/etc/kubernetes" true "") eq_refl eq_refl eq_refl) Hf
    ltac:(right; intros Hp%mounted_true; congruence) Hn Hm) as (H1 & _ & _ & H2 & _). done.
Qed.

(** A stateful set apart from its claim templates, and a workload with another template. *)
Definition statefulset_of (a : AppService) : option Workload := bare <$> statefulset a.
Definition with_template (t : PodTemplateSpec) (w : Workload) : Workload := w <| wl_Template := t |>.

Lemma version_template (Hsupply : uuid_supply NewUUID) (a a' : AppService)
    (Hrun : version_conversion a = Ok a')
    (Hids : ∀ sid vs, vd_volumes vdb sid = inr (Some vs) → NoDup (sv_ID <$> vs))
    (Hmids : ∀ sid ts, vd_mounts vdb sid = inr ts → NoDup (mr_ID <$> ts)) :
  ((wf a → wf a') ∧ ServiceID a' = ServiceID a ∧ TenantID a' = TenantID a ∧ DeployVersion a' = DeployVersion a ∧
   b_CreaterID (base a') = b_CreaterID (base a)) ∧
  ∃ t c, statefulset_of a' = with_template t <$> statefulset_of a ∧
    deployment a' = with_template t <$> deployment a ∧
    owner_of (pt_Labels t) = mkOwner (ServiceID a) (DeployVersion a) (b_CreaterID (base a)) ∧
    (pt_Labels t !! "name"%string = Some (ServiceAlias a) ∧ pt_Labels t !! "tenant_id"%string = Some (TenantID a) ∧
     pt_Labels t !! "service_id"%string = Some (ServiceID a)) ∧
    pt_Containers t = [c] ∧ pt_InitContainers t = [] ∧ c_Name c = ServiceID a ∧
    NoDup (vol_Name <$> sp_Volumes (pt_Spec t)) ∧
    vm_Name <$> c_VolumeMounts c ⊆ vol_Name <$> sp_Volumes (pt_Spec t) ∧
    "kube-config"%string ∉ vm_Name <$> c_VolumeMounts c.
Proof.
  destruct (version_inv a a' Hrun) as (version & a1 & envs & st & c & af & _ & He & Hv & Hc & _ & ->).
  destruct (create_env_keeps a a1 envs He) as (Hw1 & (Hid1 & Ht1 & Hd1 & Hal1) & Hcr1 & Hs1 & Hdep1 & _).
  pose proof (created_keeps _ _ _ _ _ Hv) as [Hw2 Hb2 Hdep2 Hst2 _].
  destruct (main_container_inv _ _ _ _ _ _ Hc) as (Hcn & _ & Hcm & _).
  assert (∃ o ts, vd_volumes vdb (vi_ServiceID version) = inr o ∧ vd_mounts vdb (vi_ServiceID version) = inr ts)
    as (o & ts & Ho & Hts).
  { unfold createVolumes in Hv. destruct (vd_volumes _ _); [done|]. destruct (vd_mounts _ _); [done|]. eauto. }
  destruct (created_fits vdb unmarshal claim_rest configmap_rest secret_data NewUUID Hsupply version envs (envVarSecrets a1) a1 o ts st Ho Hts)
    as (Hn & Hm & _ & Hk); [destruct o; [by eapply Hids|constructor]|by eapply Hmids|exact Hv|].
  destruct (kube_config_fits (vs_as st) _ Hk Hn Hm) as [Hkn Hkm].
  assert (ServiceID (vs_as st) = ServiceID a ∧ TenantID (vs_as st) = TenantID a ∧ DeployVersion (vs_as st) = DeployVersion a ∧
    ServiceAlias (vs_as st) = ServiceAlias a) as (Hid2 & Ht2 & Hd2 & Hal2).
  { unfold ServiceID, TenantID, DeployVersion, ServiceAlias in *. by rewrite Hb2. }
  assert (b_CreaterID (base (vs_as st)) = b_CreaterID (base a)) as Hcr2 by congruence.
  split.
  { split; [intros Hw; exact (wf_set_template _ _ (Hw2 (Hw1 Hw)))|]. split; [exact Hid2|]. split; [exact Ht2|]. by split. }
  set (t := pod_template pdb IMAGE_PULL_SECRET (vs_as st) (kube_config (vs_as st) (vs_define st)) c af).
  exists t, c. split.
  { unfold statefulset_of. rewrite <- Hs1. cbn. revert Hst2.
    destruct (statefulset (vs_as st)) as [w1|], (statefulset a1) as [w2|]; [|done..]. intros E.
    exact (f_equal (fmap (M := option) (with_template t)) E). }
  split; [cbn; by rewrite Hdep2, Hdep1|]. split.
  { unfold t, pod_template. cbn [pt_Labels]. erewrite common_labels_owner.
    - rewrite Hid2. f_equal. exact Hcr2.
    - cbn [foldl]. rewrite map_union_empty, lookup_insert_ne, lookup_singleton_eq by done. by rewrite Hd2. }
  split.
  { unfold t, pod_template, GetCommonLabels. cbn [pt_Labels foldl]. rewrite <- Hal2, <- Ht2, <- Hid2. split_and!.
    - rewrite !lookup_insert_ne by done. by rewrite map_union_empty, lookup_insert_eq.
    - by rewrite lookup_insert_ne, lookup_insert_eq by done.
    - by rewrite !lookup_insert_ne, lookup_insert_eq by done. }
  split; [reflexivity|]. split; [reflexivity|]. split; [by rewrite Hcn|]. split; [exact Hkn|].
  rewrite Hcm. split; [intros x Hx; apply Hkm; by apply Hm|]. intros Hin. by apply Hk, Hm.
Qed.

(** C15 (functional): the template [TenantServiceVersion] gives the component's
    workload.  Its labels name the component, its version and its creator,
    so that the informers give the pods back to it.  It has one container,
    named after the component; the volumes have distinct names, and every
    mount of the container is of one of them; the volume [kube-config] that a
    component behind a mesh gets is not mounted.  The component itself keeps its
    ids, its version and its workloads apart from the template and the
    claim templates. *)
Theorem version_builds_template (Hsupply : uuid_supply NewUUID) (a a' : AppService)
    (Hrun : version_conversion a = Ok a')
    (Hids : ∀ sid vs, vd_volumes vdb sid = inr (Some vs) → NoDup (sv_ID <$> vs))
    (Hmids : ∀ sid ts, vd_mounts vdb sid = inr ts → NoDup (mr_ID <$> ts)) :
  (wf a → wf a') ∧ ServiceID a' = ServiceID a ∧ TenantID a' = TenantID a ∧ DeployVersion a' = DeployVersion a ∧
  ∃ t c, statefulset_of a' = with_template t <$> statefulset_of a ∧
    deployment a' = with_template t <$> deployment a ∧
    owner_of (pt_Labels t) = mkOwner (ServiceID a) (DeployVersion a) (b_CreaterID (base a)) ∧
    pt_Containers t = [c] ∧ pt_InitContainers t = [] ∧ c_Name c = ServiceID a ∧
    NoDup (vol_Name <$> sp_Volumes (pt_Spec t)) ∧
    vm_Name <$> c_VolumeMounts c ⊆ vol_Name <$> sp_Volumes (pt_Spec t) ∧
    "kube-config"%string ∉ vm_Name <$> c_VolumeMounts c.
Proof.
  destruct (version_template Hsupply a a' Hrun Hids Hmids) as ((H1 & H2 & H3 & H4 & _) & t & c & K1 & K2 & K3 & _ & K).
  do 4 (split; [assumption|]). by exists t, c.
Qed.

#[export] Instance sound_TenantServiceVersion : sound_conversion version_conversion.
Proof.
  split.
  - split. intros a a' Hwf Hrun.
    destruct (version_inv a a' Hrun) as (version & a1 & envs & st & c & af & _ & He & Hv & _ & _ & ->).
    destruct (create_env_keeps a a1 envs He) as (Hw1 & (Hid1 & _) & _).
    pose proof (created_keeps _ _ _ _ _ Hv) as [Hw2 Hb2 _ _ _].
    split; [apply wf_set_template; auto|]. change (ServiceID (vs_as st) = ServiceID a).
    unfold ServiceID in *. congruence.
  - intros a e. unfold TenantServiceVersion. destruct (pd_version _ _ _); [by intros [= <-]|].
    destruct (createEnv _ _ _ _ _ a) as [[a1 envs]| |]; [|by intros [= <-]|done].
    destruct (createVolumes _ _ _ _ _ _ _ _ _ _) as [|st]; [by intros [= <-]|].
    destruct (getMainContainer _ _ _ _ _ _ _) as [container| |]; [|by intros [= <-]|done].
    unfold createAffinity. rewrite affinity_terms_outcome.
    destruct (some bad_label _); cbn [then_do]; done.
Qed.
End template.

(** ** Examples *)

Definition demo_labels : list TenantServiceLable := [
  mkLabelRow "node-affinity" "ssd"; mkLabelRow "service-affinity" "cache"; mkLabelRow "node-selector" "zone=a"]%string.
Definition demo_pod_db : PodDB := mkPodDB (λ _ _, inr (mkVersionInfo "component" "registry/app:1" "image" "" "run ${PORT}"))
  (λ _, inr ["db"%string]) (λ _, inr []) (λ _ _, inr [mkEnvRow "DB_HOST" "127.0.0.1"; mkEnvRow "PORT" "3306"]%string)
  (λ _, inr [("gr-db", "db")]%string) (λ _, inr []) (λ _ _, inr None) (λ _, inr demo_labels) (λ _, inr demo_labels)
  (λ _, inl ERecordNotFound).
Definition demo_pod_volumes : VolumeDB := mkVolumeDB (λ _, inr (Some demo_rows)) (λ _, inr demo_mounts)
  (λ _ _, inr (mkVolumeRow 9 "share-file" "shared" "/var" false 0 "RWX" "")) (λ _ _, inr "port=${PORT}"%string)
  (λ _, inr "{}"%string) (λ _ _, inr [mkEnvRow " URL " "http://${DB_HOST}:${PORT}"; mkEnvRow "SERVICE_ID" "mine"]%string).
Definition demo_pod_ports : GatewayDB := mkGatewayDB
  (λ _, inr [mkTenantPort 1 "component" 5000 5000 "http" (Some true) (Some false) "alias-5000"])
  (λ _ _, inr false) (λ _, inr []) (λ _ _, inr []) (λ _ _, inr []) (λ _, inr None) (λ _, inr []) (λ _, inr []) (λ _, inr []).

Definition demo_workload : Workload := zero_workload <| wl_Replicas := Some 1%Z |>.
Definition demo_pod_app : AppService :=
  (empty_app (mkBase "tenant" "t" "" "component" "alias" "" "" "v1" 0 512 "" 1 false false "creator" []
     {["host_db.local"%string := "10.0.0.1"%string; "host_x"%string := "nowhere"%string; "selectnode"%string := "n1"%string]}
     GovernanceModeBuildInServiceMesh)) <| deployment := Some demo_workload |>.

Abbreviation demo_env := (@createEnv ref_runtime demo_pod_db demo_pod_volumes demo_pod_ports (λ _, ""%string) (λ _, ∅) demo_pod_app).
Abbreviation demo_version_run := (@TenantServiceVersion ref_runtime demo_pod_db demo_pod_volumes demo_pod_ports (λ _, ""%string)
  (λ _, ∅) demo_unmarshal (λ c, pvc_Storage c) (λ d, get_str d "app.conf") demo_uuid "/runner" "" demo_pod_app).

Definition env_pairs (l : list EnvVar) : list (string * string) := (λ e, (env_Name e, env_Value e)) <$> l.

Lemma demo_env_builds : ∃ a envs, demo_env = Ok (a, envs) ∧ env_Value <$> effective envs "URL" = Some "http://127.0.0.1:3306"%string ∧
  b_NeedProxy (base a) = true.
Proof. do 2 eexists. split; [vm_compute; reflexivity|]. split; reflexivity. Qed.

Lemma env_precedence_witness : ∃ a envs, demo_env = Ok (a, envs) ∧
  effective envs "SERVICE_ID" = Some (env "SERVICE_ID" "component").
Proof.
  destruct demo_env_builds as (a & envs & E & _). exists a, envs. split; [exact E|].
  destruct (@env_precedence ref_runtime demo_pod_db demo_pod_volumes demo_pod_ports (λ _, ""%string) (λ _, ∅) demo_pod_app
    a envs E) as (_ & _ & _ & _ & _ & _ & _ & _ & _ & _ & _ & _ & H).
  apply (H (env "SERVICE_ID" "component")); [|reflexivity]. right. left.
Defined.

Lemma demo_version_ok : ∃ a w c, demo_version_run = Ok a ∧ deployment a = Some w ∧
  pt_Containers (wl_Template w) = [c] ∧ c_Args c = ["run"; "3306"]%string ∧ c_Image c = "registry/app:1"%string ∧
  volume_names (mkDefine [] (sp_Volumes (pt_Spec (wl_Template w)))) = ["manual1"; "a"; "manual3"; "mnt1"; "kube-config"]%string.
Proof. do 3 eexists. split; [vm_compute; reflexivity|]. split; [reflexivity|]. split; [reflexivity|]. split_and!; reflexivity. Qed.

Lemma version_builds_template_witness : ∃ a w, demo_version_run = Ok a ∧ deployment a = Some w ∧
  owned_version (owner_of (pt_Labels (wl_Template w))) = true.
Proof.
  destruct demo_version_ok as (a & w & c & E & Hw & _). exists a, w. split; [exact E|]. split; [exact Hw|].
  destruct (@version_builds_template ref_runtime demo_pod_db demo_pod_volumes demo_pod_ports (λ _, ""%string) (λ _, ∅)
    demo_unmarshal (λ c, pvc_Storage c) (λ d, get_str d "app.conf") demo_uuid "/runner" "" demo_supply demo_pod_app a E)
    as (_ & _ & _ & _ & t & c' & _ & Hd & Ho & _).
  - intros sid vs [= <-]. exact demo_row_ids.
  - intros sid ts [= <-]. exact demo_mount_ids.
  - rewrite Hw in Hd. injection Hd as ->. change (wl_Template (with_template t demo_workload)) with t. rewrite Ho. reflexivity.
Defined.

Lemma affinity_outcome_panics :
  createAffinity (mkPodDB (λ _ _, inl (EMsg "")) (λ _, inr []) (λ _, inr []) (λ _ _, inr []) (λ _, inr []) (λ _, inr [])
    (λ _ _, inr None) (λ _, inr []) (λ _, inr [mkLabelRow "node-affinity" "zone=a"]%string) (λ _, inr tt)) demo_pod_app = Panic.
Proof. vm_compute. reflexivity. Qed.

Lemma host_aliases_group_witness :
  ∃ hs, ("10.0.0.1"%string, hs) ∈ @createHostAliases ref_runtime demo_pod_app ∧ "db.local"%string ∈ hs.
Proof.
  apply (proj2 (@host_aliases_group ref_runtime ref_runtime_laws demo_pod_app) "10.0.0.1"%string "db.local"%string).
  split; vm_compute; reflexivity.
Defined.
