(* ===== verification/Plugin.v ===== *)
(** * The plugins of a component

    [worker/appm/conversion/plugin.go]: the containers that plugins and the
    service mesh add to the pod template, and the configuration maps they
    read. *)
From stdpp Require Import pretty.
From S2P Require Import Prelude Variables Kube AppService Conversion Gateway Volume Version.

(** ** Rows *)

Record TenantServicePluginRelation := mkPluginRelation {
  pl_VersionID : string;
  pl_PluginID : string;
  pl_ServiceID : string;
  pl_PluginModel : string;
  pl_ContainerCPU : Z;
  pl_ContainerMemory : Z;
  pl_Switch : bool
}.

Record TenantPluginBuildVersion := mkBuildVersion { bv_ContainerCMD : string; bv_BuildLocalImage : string }.

Record TenantPluginVersionDiscoverConfig := mkDiscoverConfig {
  dc_ServiceID : string; dc_PluginID : string; dc_ConfigStr : string }.

(** The queries; a configuration that is not found, or not read, is none;
    the variables of a plugin are name and value. *)
Record PluginDB := mkPluginDB {
  gl_relations : string → error + list TenantServicePluginRelation;
  gl_build_version : string → string → error + TenantPluginBuildVersion;
  gl_plugin_model : string → string → error + string;
  gl_config : string → string → option TenantPluginVersionDiscoverConfig;
  gl_version_envs : string → string → error + list (string * string)
}.

Definition InitPlugin : string := "init-plugin".
Definition InBoundNetPlugin : string := "net-plugin:up".
Definition OutBoundNetPlugin : string := "net-plugin:down".
Definition InBoundAndOutBoundNetPlugin : string := "net-plugin:in-and-out".

(** ** Configurations ([api/model]) *)

Record BasePort := mkBasePort { bp_Port : Z; bp_ListenPort : Z; bp_Protocol : string; bp_rest : opaque }.
#[export] Instance eta_BasePort : Eta BasePort := λ p,
  mkBasePort (bp_Port p) (bp_ListenPort p) (bp_Protocol p) (bp_rest p).

Record BaseService := mkBaseService {
  bs_ServiceAlias : string;
  bs_ServiceID : string;
  bs_DependServiceAlias : string;
  bs_DependServiceID : string;
  bs_Port : Z;
  bs_Protocol : string
}.

Record ResourceSpec := mkResourceSpec {
  rsp_BasePorts : list BasePort; rsp_BaseServices : list BaseService; rsp_rest : opaque }.
#[export] Instance eta_ResourceSpec : Eta ResourceSpec := λ s,
  mkResourceSpec (rsp_BasePorts s) (rsp_BaseServices s) (rsp_rest s).

Definition zero_container : Container := mkContainer "" "" 0 0 0 0 None None [] [] [] [] [] false [].

Definition with_resources (r : ResourceRequirements) (c : Container) : Container :=
  c <| c_req_memory := rs_req_memory r |> <| c_req_cpu := rs_req_cpu r |>
    <| c_lim_memory := rs_lim_memory r |> <| c_lim_cpu := rs_lim_cpu r |>.

Definition createPluginResources (memory cpu : Z) : ResourceRequirements :=
  createResourcesByDefaultCPU memory cpu cpu.

Definition createTCPUDPMeshRecources (a : AppService) : ResourceRequirements :=
  let cpu := extension_number a "tcpudp_mesh_cpu" in
  let memory := let n := extension_number a "tcpudp_mesh_memory" in if decide (n = 0)%Z then 128%Z else n in
  createResourcesByDefaultCPU memory cpu (if decide (cpu < 120)%Z then 120%Z else cpu).

(** The first port that does not carry UDP. *)
Definition first_port {A} (protocol : A → string) (port : A → Z) (l : list A) : Z :=
  match List.find (λ x, negb (bool_decide (ToLower (protocol x) = "udp"%string))) l with
  | Some x => port x
  | None => 0%Z
  end.

(** Without a configured port the configuration is dereferenced. *)
Definition setSidecarContainerLifecycle (a : AppService) (con : Container) (pluginConfig : option ResourceSpec) :
    result Container :=
  let ext key := get_str (b_ExtensionSet (base a)) key in
  if decide (ToLower (ext "DISABLE_SIDECAR_CHECK"%string) = "true"%string) then Ok con else
  let wait port := Ok (con <| c_PostStart := ["/root/kato-mesh-data-panel"; "wait"; pretty port]%string |>) in
  let cport := if decide (ext "SIDECAR_CHECK_PORT"%string = ""%string) then 0%Z
               else (Atoi (ext "SIDECAR_CHECK_PORT"%string)).1 in
  if decide (cport ≠ 0)%Z then wait cport else
  match pluginConfig with
  | None => Panic
  | Some cfg =>
    let port := first_port bs_Protocol bs_Port (rsp_BaseServices cfg) in
    wait (if decide (port = 0)%Z then first_port bp_Protocol bp_Port (rsp_BasePorts cfg) else port)
  end.

(** The listener ports of the inbound plugin's configuration, for the ports
    both have. *)
Definition listen_port (inbound : list BasePort) (p : BasePort) : BasePort :=
  foldl (λ p q, if decide (bp_Port p = bp_Port q) then p <| bp_ListenPort := bp_ListenPort q |> else p) p inbound.

(** [as.ServiceID[len(as.ServiceID)-20:]] *)
Definition id_suffix (id : string) : option string :=
  if decide (String.length id < 20) then None else Some (strip_prefix (String.length id - 20) id).

Section plugin.
Context (gldb : PluginDB) (pdb : PodDB) (gdb : GatewayDB) (db : ConversionDB).
(** [json.Unmarshal] into a [ResourceSpec]: what it has filled in, and
    whether it succeeds; [json.Marshal]. *)
Context (unmarshal_spec : string → ResourceSpec * bool) (marshal_spec : ResourceSpec → error + string).
Context (configmap_rest : gmap string string → opaque).
(** The variables of the worker's environment, and the images of the mesh. *)
Context (XDS_HOST_IP XDS_HOST_PORT API_HOST_PORT DISABLE_INIT_SECURITY TCPMeshImageName ProbeMeshImageName : string).

(** Host, port of the discovery service, port of the API. *)
Definition getXDSHostIPAndPort : string * string * string :=
  (XDS_HOST_IP, if decide (XDS_HOST_PORT = ""%string) then "6101"%string else XDS_HOST_PORT,
   if decide (API_HOST_PORT = ""%string) then "6100"%string else API_HOST_PORT).

Definition xdsHostIPEnv (xdsHost : string) : EnvVar :=
  if decide (xdsHost = ""%string) then field_env "XDS_HOST_IP" "status.hostIP" else env "XDS_HOST_IP" xdsHost.

Definition xds_envs : list EnvVar :=
  let '(xdsHost, xdsHostPort, apiHostPort) := getXDSHostIPAndPort in
  [xdsHostIPEnv xdsHost; env "API_HOST_PORT" apiHostPort; env "XDS_HOST_PORT" xdsHostPort].

(** ** Containers *)

Definition plugin_envs_raw (pluginID tenantID serviceAlias : string) (mainEnvs : list EnvVar)
    (versionEnvs : list (string * string)) : list EnvVar :=
  mainEnvs ++ ((λ e, env e.1 e.2) <$> versionEnvs) ++ xds_envs ++
  [env "DISCOVER_URL" ("http://${XDS_HOST_IP}:6100/v1/resources/" +:+ tenantID +:+ "/" +:+ serviceAlias +:+ "/" +:+ pluginID);
   env "DISCOVER_URL_NOHOST" ("/v1/resources/" +:+ tenantID +:+ "/" +:+ serviceAlias +:+ "/" +:+ pluginID);
   env "PLUGIN_ID" pluginID].

Definition createPluginEnvs (pluginID tenantID serviceAlias : string) (mainEnvs : list EnvVar) (serviceID : string) :
    error + list EnvVar :=
  let go versionEnvs :=
    let envs := plugin_envs_raw pluginID tenantID serviceAlias mainEnvs versionEnvs in
    inr (map (parse_env (env_settings envs ∅)) envs) in
  match gl_version_envs gldb serviceID pluginID with
  | inl e => if decide (e = ERecordNotFound) then go [] else inl e
  | inr versionEnvs => go versionEnvs
  end.

Definition createPluginArgs (cmd : string) (envs : list EnvVar) : list string :=
  if decide (cmd = ""%string) then [] else split_char 32 (ParseVariable cmd (env_settings envs ∅)).

(** The variables of a mesh container. *)
Definition mesh_envs (pluginID : string) (envs : list EnvVar) : list EnvVar :=
  envs ++ [env "PLUGIN_ID" pluginID] ++ xds_envs.

Definition mesh_container (a : AppService) (prefix image pluginID : string) (envs : list EnvVar) : result Container :=
  match id_suffix (ServiceID a) with
  | None => Panic
  | Some suffix =>
    Ok (with_resources (createTCPUDPMeshRecources a)
          (zero_container <| c_Name := (prefix +:+ suffix)%string |> <| c_Env := mesh_envs pluginID envs |>
                          <| c_Image := image |>))
  end.

Definition createTCPDefaultPluginContainer (a : AppService) (pluginID : string) (envs : list EnvVar)
    (pluginConfig : option ResourceSpec) : result Container :=
  then_do (mesh_container a "default-tcpmesh-" TCPMeshImageName pluginID envs) (λ c,
    setSidecarContainerLifecycle a c pluginConfig).

Definition createProbeMeshInitContainer (a : AppService) (pluginID : string) (envs : list EnvVar) : result Container :=
  mesh_container a "probe-mesh-" ProbeMeshImageName pluginID envs.

(** ** Configuration maps *)

Definition plugin_config_map (a : AppService) (serviceID pluginID labelID configStr pluginModel : string) : ConfigMap :=
  mkPlain (zero_meta <| m_Name := ("config-" +:+ serviceID +:+ "-" +:+ pluginID)%string |>
      <| m_Labels := GetCommonLabels [{["plugin_id"%string := labelID; "service_alias"%string := ServiceAlias a]}] a |>)
    (configmap_rest {["plugin-config"%string := configStr; "plugin-model"%string := pluginModel]}).

(** With an inbound plugin its listener ports go into the configuration of
    every plugin, unless the text cannot be read or written. *)
Definition propagated (inbound : option ResourceSpec) (configStr : string) : string :=
  match inbound with
  | None => configStr
  | Some i =>
    let '(oldConfig, ok) := unmarshal_spec configStr in
    if ok : bool then
      match marshal_spec (oldConfig <| rsp_BasePorts ::= map (listen_port (rsp_BasePorts i)) |>) with
      | inr newConfig => newConfig
      | inl _ => configStr
      end
    else configStr
  end.

Definition ApplyPluginConfig (r : TenantServicePluginRelation) (inbound : option ResourceSpec) (a : AppService) :
    AppService :=
  match gl_config gldb (pl_ServiceID r) (pl_PluginID r) with
  | None => a
  | Some config =>
    SetConfigMap (plugin_config_map a (dc_ServiceID config) (dc_PluginID config) (pl_PluginID r)
      (propagated inbound (dc_ConfigStr config)) (pl_PluginModel r)) a
  end.

(** The inner ports of one dependency; an unread service is dereferenced. *)
Fixpoint inner_services (a : AppService) (dep : option TenantServices) (ports : list TenantServicesPort) :
    result (list BaseService) :=
  match ports with
  | [] => Ok []
  | p :: ports' =>
    match tp_IsInnerService p with
    | None => Panic
    | Some false => inner_services a dep ports'
    | Some true =>
      match dep with
      | None => Panic
      | Some d =>
        then_do (inner_services a dep ports') (λ l,
          Ok (mkBaseService (ServiceAlias a) (ServiceID a) (ts_ServiceAlias d) (ts_ServiceID d)
                (tp_ContainerPort p) (tp_Protocol p) :: l))
      end
    end
  end.

Definition or_none {A} (r : error + A) : option A := match r with inl _ => None | inr x => Some x end.

Fixpoint depend_services (a : AppService) (deps : list string) : result (list BaseService) :=
  match deps with
  | [] => Ok []
  | d :: deps' =>
    then_do (inner_services a (or_none (cd_GetServiceByID db d)) (default [] (or_none (gd_ports gdb d)))) (λ l,
    then_do (depend_services a deps') (λ l', Ok (l ++ l')))
  end.

(** The plugin's id, its configuration if it could be written, and the component. *)
Definition applyDefaultMeshPluginConfig (a : AppService) : result (string * option ResourceSpec * AppService) :=
  then_do (depend_services a (default [] (or_none (pd_relations pdb (ServiceID a))))) (λ baseServices,
    let res := mkResourceSpec [] baseServices "" in
    match marshal_spec res with
    | inl _ => Ok (""%string, None, a)
    | inr resJSON =>
      let pluginID := ("def-mesh" +:+ ServiceID a)%string in
      Ok (pluginID, Some res,
          SetConfigMap (plugin_config_map a (ServiceID a) pluginID pluginID resJSON OutBoundNetPlugin) a)
    end).

(** ** The loop over the plugins *)

Record PluginState := mkPluginState {
  ps_pre : list Container;
  ps_post : list Container;
  ps_init : list Container;
  ps_netPlugin : bool;
  ps_meshPluginID : string;
  ps_inBound : option TenantServicePluginRelation
}.
#[export] Instance eta_PluginState : Eta PluginState := λ s,
  mkPluginState (ps_pre s) (ps_post s) (ps_init s) (ps_netPlugin s) (ps_meshPluginID s) (ps_inBound s).

Definition is_inbound (m : string) : bool := bool_decide (m = InBoundAndOutBoundNetPlugin ∨ m = InBoundNetPlugin).
Definition is_outbound (m : string) : bool := bool_decide (m = OutBoundNetPlugin ∨ m = InBoundAndOutBoundNetPlugin).

(** Once a plugin has taken the outbound traffic, every later plugin with
    services in its configuration waits for the mesh as well. *)
Definition sidecar (a : AppService) (r : TenantServicePluginRelation) (netPlugin : bool) (pc : Container) :
    result Container :=
  if netPlugin then
    match gl_config gldb (ServiceID a) (pl_PluginID r) with
    | None => Ok pc
    | Some config =>
      let resourceConfig := (unmarshal_spec (dc_ConfigStr config)).1 in
      match rsp_BaseServices resourceConfig with
      | [] => Ok pc
      | _ => setSidecarContainerLifecycle a pc (Some resourceConfig)
      end
    end
  else Ok pc.

Definition plugin_container (a : AppService) (mainContainer : Container) (r : TenantServicePluginRelation)
    (v : TenantPluginBuildVersion) (envs : list EnvVar) : Container :=
  with_resources (createPluginResources (pl_ContainerMemory r) (pl_ContainerCPU r))
    (zero_container <| c_Name := ("plugin-" +:+ pl_PluginID r)%string |> <| c_Image := bv_BuildLocalImage v |>
       <| c_Env := envs |> <| c_EnvFrom := map pl_name (GetEnvVarSecrets a) |>
       <| c_Args := createPluginArgs (bv_ContainerCMD v) envs |>
       <| c_VolumeMounts := c_VolumeMounts mainContainer |>).

Definition place (a : AppService) (r : TenantServicePluginRelation) (pluginModel : string) (pc : Container)
    (st : PluginState) : result PluginState :=
  let pre := is_inbound pluginModel || is_outbound pluginModel in
  let st := if is_inbound pluginModel then st <| ps_inBound := Some r |> else st in
  let st := if is_outbound pluginModel
            then st <| ps_netPlugin := true |> <| ps_meshPluginID := pl_PluginID r |> else st in
  then_do (sidecar a r (ps_netPlugin st) pc) (λ pc,
    Ok (if decide (pluginModel = InitPlugin) then
          let pc := if decide (ToLower DISABLE_INIT_SECURITY = "true"%string) then pc else pc <| c_Privileged := true |> in
          st <| ps_init ::= λ l, l ++ [pc] |>
        else if pre then st <| ps_pre ::= λ l, l ++ [pc] |>
        else st <| ps_post ::= λ l, l ++ [pc] |>)).

Definition add_plugin (a : AppService) (mainContainer : Container) (r : TenantServicePluginRelation)
    (st : PluginState) : result PluginState :=
  if negb (pl_Switch r) then Ok st else
  match gl_build_version gldb (pl_PluginID r) (pl_VersionID r) with
  | inl _ => Ok st
  | inr v =>
    match GetPodTemplate a with
    | None => Ok st
    | Some _ =>
      match createPluginEnvs (pl_PluginID r) (TenantID a) (ServiceAlias a) (c_Env mainContainer) (ServiceID a) with
      | inl e => Err e
      | inr envs =>
        match gl_plugin_model gldb (pl_PluginID r) (TenantID a) with
        | inl e => Err (EWrap "get plugin model info failure" e)
        | inr m => place a r m (plugin_container a mainContainer r v envs) st
        end
      end
    end
  end.

Fixpoint add_plugins (a : AppService) (mainContainer : Container) (l : list TenantServicePluginRelation)
    (st : PluginState) : result PluginState :=
  match l with
  | [] => Ok st
  | r :: l' => then_do (add_plugin a mainContainer r st) (add_plugins a mainContainer l')
  end.

Definition inbound_config (inBound : option TenantServicePluginRelation) : option ResourceSpec :=
  r ← inBound;
  config ← gl_config gldb (pl_ServiceID r) (pl_PluginID r);
  let '(spec, ok) := unmarshal_spec (dc_ConfigStr config) in
  if ok : bool then Some spec else None.

Definition main_container (a : AppService) : Container :=
  match GetPodTemplate a with
  | Some t => default zero_container (head (pt_Containers t))
  | None => zero_container
  end.

(** The mesh sidecar when nothing else takes the outbound traffic. *)
Definition default_mesh (mainContainer : Container) (st : PluginState) (a : AppService) :
    result (PluginState * AppService) :=
  if b_NeedProxy (base a) && negb (ps_netPlugin st) then
    then_do (applyDefaultMeshPluginConfig a) (λ '(pluginID, pluginConfig, a),
    then_do (createTCPDefaultPluginContainer a pluginID (c_Env mainContainer) pluginConfig) (λ c,
      Ok (st <| ps_pre ::= λ l, l ++ [c] |> <| ps_meshPluginID := pluginID |>, a)))
  else Ok (st, a).

(** The init containers, those before and those after the component's. *)
Definition plugin_containers (a : AppService) (appPlugins : list TenantServicePluginRelation) :
    result (list Container * list Container * list Container * AppService) :=
  if bool_decide (length appPlugins = 0) && negb (b_NeedProxy (base a)) then Ok ([], [], [], a) else
  let mainContainer := main_container a in
  then_do (add_plugins a mainContainer appPlugins (mkPluginState [] [] [] false "" None)) (λ st,
    let a := foldl (λ a r, ApplyPluginConfig r (inbound_config (ps_inBound st)) a) a appPlugins in
    then_do (default_mesh mainContainer st a) (λ '(st, a),
    then_do (createProbeMeshInitContainer a (ps_meshPluginID st) (c_Env mainContainer)) (λ bootSequence,
      let waits := b_NeedProxy (base a) &&
        nonempty_string (get_str (b_ExtensionSet (base a)) "boot_seq_dep_service_ids") in
      Ok (if waits then ps_init st ++ [bootSequence] else ps_init st, ps_pre st, ps_post st,
          a <| BootSeqContainer := Some bootSequence |>)))).

Definition conversionServicePlugin (a : AppService) :
    result (list Container * list Container * list Container * AppService) :=
  match gl_relations gldb (ServiceID a) with
  | inl e =>
    if decide (e = ERecordNotFound) then plugin_containers a [] else Err (EWrap "find plugins error" e)
  | inr appPlugins => plugin_containers a appPlugins
  end.

(** The template is changed through the pointer [GetPodTemplate] returns. *)
Definition change_template (f : PodTemplateSpec → PodTemplateSpec) (a : AppService) : AppService :=
  match statefulset a with
  | Some _ => a <| statefulset ::= fmap (λ w, w <| wl_Template ::= f |>) |>
  | None => a <| deployment ::= fmap (λ w, w <| wl_Template ::= f |>) |>
  end.

Definition TenantServicePlugin : Conversion := λ a,
  then_do (conversionServicePlugin a) (λ '(initContainers, preContainers, postContainers, a),
    match GetPodTemplate a with
    | None => Err (EMsg "pod templete is nil before define plugin")
    | Some _ =>
      Ok (change_template (λ t, t <| pt_Containers ::= λ l, preContainers ++ l ++ postContainers |>
                                  <| pt_InitContainers := initContainers |>) a)
    end).
End plugin.
