(* ===== verification/PluginSpec.v ===== *)
(** * What plugins add to a component

    Theorems about [Plugin]: where the containers go, what the address of the
    discovery service becomes, and when the conversion can crash. *)
From stdpp Require Import pretty.
From S2P Require Import Prelude Variables Kube AppService Store Conversion Handle HandleSpec ConversionSpec Gateway.
From S2P Require Import Volume Version VersionSpec Plugin.

Section plugin.
Context (gldb : PluginDB) (pdb : PodDB) (gdb : GatewayDB) (db : ConversionDB).
Context (unmarshal_spec : string → ResourceSpec * bool) (marshal_spec : ResourceSpec → error + string).
Context (configmap_rest : gmap string string → opaque).
Context (XDS_HOST_IP XDS_HOST_PORT API_HOST_PORT DISABLE_INIT_SECURITY TCPMeshImageName ProbeMeshImageName : string).

Abbreviation convert := (TenantServicePlugin gldb pdb gdb db unmarshal_spec marshal_spec configmap_rest XDS_HOST_IP
  XDS_HOST_PORT API_HOST_PORT DISABLE_INIT_SECURITY TCPMeshImageName ProbeMeshImageName).
Abbreviation add1 := (add_plugin gldb unmarshal_spec XDS_HOST_IP XDS_HOST_PORT API_HOST_PORT DISABLE_INIT_SECURITY).
Abbreviation add := (add_plugins gldb unmarshal_spec XDS_HOST_IP XDS_HOST_PORT API_HOST_PORT DISABLE_INIT_SECURITY).
Abbreviation service_plugin := (conversionServicePlugin gldb pdb gdb db unmarshal_spec marshal_spec configmap_rest
  XDS_HOST_IP XDS_HOST_PORT API_HOST_PORT DISABLE_INIT_SECURITY TCPMeshImageName ProbeMeshImageName).
Abbreviation containers := (plugin_containers gldb pdb gdb db unmarshal_spec marshal_spec configmap_rest
  XDS_HOST_IP XDS_HOST_PORT API_HOST_PORT DISABLE_INIT_SECURITY TCPMeshImageName ProbeMeshImageName).

(** ** Where containers go *)

(** The model of a plugin that is switched on and has a built version. *)
Definition installed (a : AppService) (r : TenantServicePluginRelation) : option string :=
  if pl_Switch r then
    match gl_build_version gldb (pl_PluginID r) (pl_VersionID r), gl_plugin_model gldb (pl_PluginID r) (TenantID a) with
    | inr _, inr m => Some m
    | _, _ => None
    end
  else None.

Definition is_init (m : string) : bool := bool_decide (m = InitPlugin).
Definition is_net (m : string) : bool := is_inbound m || is_outbound m.
Definition is_plain (m : string) : bool := negb (is_init m) && negb (is_net m).

Definition names_where (P : string → bool) (a : AppService) (l : list TenantServicePluginRelation) : list string :=
  omap (λ r, m ← installed a r; if P m then Some ("plugin-" +:+ pl_PluginID r)%string else None) l.
Definition takes_outbound (a : AppService) (r : TenantServicePluginRelation) : bool :=
  match installed a r with Some m => is_outbound m | None => false end.

Lemma lifecycle_name a c cfg c' : setSidecarContainerLifecycle a c cfg = Ok c' → c_Name c' = c_Name c.
Proof.
  unfold setSidecarContainerLifecycle. destruct (decide _); [by intros [= <-]|].
  destruct (decide _); [by intros [= <-]|]. destruct cfg; [by intros [= <-]|done].
Qed.

Lemma sidecar_name a r n pc c' : sidecar gldb unmarshal_spec a r n pc = Ok c' → c_Name c' = c_Name pc.
Proof.
  unfold sidecar. destruct n; [|by intros [= <-]]. destruct (gl_config _ _ _); [|by intros [= <-]].
  destruct (rsp_BaseServices _); [by intros [= <-]|apply lifecycle_name].
Qed.

(** What one plugin does to the state. *)
Record adds_names (a : AppService) (l : list TenantServicePluginRelation) (st st' : PluginState) : Prop := {
  an_pre : c_Name <$> ps_pre st' = (c_Name <$> ps_pre st) ++ names_where is_net a l;
  an_post : c_Name <$> ps_post st' = (c_Name <$> ps_post st) ++ names_where is_plain a l;
  an_init : c_Name <$> ps_init st' = (c_Name <$> ps_init st) ++ names_where is_init a l;
  an_net : ps_netPlugin st' = ps_netPlugin st || existsb (takes_outbound a) l
}.

Lemma adds_names_none a r st : installed a r = None → adds_names a [r] st st.
Proof.
  intros Hi. split; unfold names_where, takes_outbound; cbn; rewrite Hi; cbn; by rewrite ?app_nil_r, ?orb_false_r.
Qed.

Lemma place_names a r m pc st st' : installed a r = Some m → c_Name pc = ("plugin-" +:+ pl_PluginID r)%string →
  place gldb unmarshal_spec DISABLE_INIT_SECURITY a r m pc st = Ok st' → adds_names a [r] st st'.
Proof.
  intros Hi Hn. unfold place.
  set (st1 := if is_inbound m then _ else st). set (st2 := if is_outbound m then _ else st1).
  assert (ps_pre st2 = ps_pre st ∧ ps_post st2 = ps_post st ∧ ps_init st2 = ps_init st ∧
    ps_netPlugin st2 = ps_netPlugin st || is_outbound m) as (E1 & E2 & E3 & E4).
  { unfold st2, st1. destruct (is_inbound m), (is_outbound m); cbn; by rewrite ?orb_true_r, ?orb_false_r. }
  destruct (sidecar _ _ _ _ _ _) as [c| |] eqn:Es; cbn [then_do]; [|done..]. intros [= <-].
  apply sidecar_name in Es. rewrite Hn in Es.
  assert (ps_netPlugin st || existsb (takes_outbound a) [r] = ps_netPlugin st || is_outbound m) as Hnet.
  { unfold takes_outbound. cbn [existsb]. by rewrite Hi, orb_false_r. }
  assert (∀ P, names_where P a [r] = if P m then [("plugin-" +:+ pl_PluginID r)%string] else []) as Hw.
  { intros P. unfold names_where. cbn. rewrite Hi. cbn. by destruct (P m). }
  assert (is_init m = true → is_net m = false) as Hx.
  { intros ->%bool_decide_eq_true. vm_compute. reflexivity. }
  revert E1 E2 E3 E4. generalize st2. intros [pre post init net mesh inb].
  cbn [ps_pre ps_post ps_init ps_netPlugin]. intros -> -> -> ->.
  destruct (decide (m = InitPlugin)) as [Hm|Hm].
  - assert (is_init m = true) as Hmi by by apply bool_decide_eq_true.
    set (pc' := if decide _ then c else _).
    assert (c_Name pc' = ("plugin-" +:+ pl_PluginID r)%string) as Hpc by (unfold pc'; by destruct (decide _)).
    split; rewrite ?Hw, ?Hnet; unfold is_plain; rewrite ?(Hx Hmi), ?Hmi; cbn [negb andb]; rewrite ?app_nil_r; try reflexivity.
    change (c_Name <$> (ps_init st ++ [pc']) = (c_Name <$> ps_init st) ++ ["plugin-" +:+ pl_PluginID r]).
    rewrite fmap_app. by rewrite <- Hpc.
  - assert (is_init m = false) as Hmi by by apply bool_decide_eq_false.
    fold (is_net m). destruct (is_net m) eqn:Hnt;
      split; rewrite ?Hw, ?Hnet; unfold is_plain; rewrite ?Hnt, ?Hmi; cbn [negb andb]; rewrite ?app_nil_r; try reflexivity.
    + change (c_Name <$> (ps_pre st ++ [c]) = (c_Name <$> ps_pre st) ++ ["plugin-" +:+ pl_PluginID r]).
      rewrite fmap_app. by rewrite <- Es.
    + change (c_Name <$> (ps_post st ++ [c]) = (c_Name <$> ps_post st) ++ ["plugin-" +:+ pl_PluginID r]).
      rewrite fmap_app. by rewrite <- Es.
Qed.

Lemma add_plugin_names a t main r st st' : GetPodTemplate a = Some t → add1 a main r st = Ok st' → adds_names a [r] st st'.
Proof.
  intros Ht. unfold add_plugin. destruct (pl_Switch r) eqn:Es; cbn [negb].
  - destruct (gl_build_version _ _ _) as [e|v] eqn:Ev.
    { intros [= <-]. apply adds_names_none. unfold installed. by rewrite Es, Ev. }
    rewrite Ht. destruct (createPluginEnvs _ _ _ _ _ _ _ _ _) as [e|envs]; [done|].
    destruct (gl_plugin_model _ _ _) as [e|m] eqn:Em; [done|]. apply place_names; [|done].
    unfold installed. by rewrite Es, Ev, Em.
  - intros [= <-]. apply adds_names_none. unfold installed. by rewrite Es.
Qed.

Lemma names_where_cons P a r l : names_where P a (r :: l) = names_where P a [r] ++ names_where P a l.
Proof. unfold names_where. cbn. by destruct (m ← installed a r; _). Qed.

Lemma add_plugins_names a t main l st st' : GetPodTemplate a = Some t → add a main l st = Ok st' → adds_names a l st st'.
Proof.
  intros Ht. revert st. induction l as [|r l IH]; intros st; cbn [add_plugins].
  - intros [= <-]. split; cbn; by rewrite ?app_nil_r, ?orb_false_r.
  - destruct (add1 a main r st) as [st1| |] eqn:E; cbn [then_do]; [|done..]. intros Hr.
    destruct (add_plugin_names _ _ _ _ _ _ Ht E) as [H1 H2 H3 H4]. destruct (IH _ Hr) as [K1 K2 K3 K4].
    split; rewrite ?(names_where_cons _ _ r l); [rewrite K1, H1|rewrite K2, H2|rewrite K3, H3|rewrite K4, H4];
      rewrite <- ?(assoc_L (++)), <- ?orb_assoc; try done. cbn [existsb]. by rewrite orb_false_r.
Qed.

(** The containers added mount what the component's container mounts, or nothing. *)
Definition shares_mounts (main c : Container) : Prop := c_VolumeMounts c = c_VolumeMounts main ∨ c_VolumeMounts c = [].
Definition all_containers (st : PluginState) : list Container := ps_pre st ++ ps_post st ++ ps_init st.

Lemma Forall_app_3 {A} (P : A → Prop) l1 l2 l3 : Forall P (l1 ++ l2 ++ l3) ↔ Forall P l1 ∧ Forall P l2 ∧ Forall P l3.
Proof. by rewrite !Forall_app. Qed.

Lemma lifecycle_mounts a c cfg c' : setSidecarContainerLifecycle a c cfg = Ok c' → c_VolumeMounts c' = c_VolumeMounts c.
Proof.
  unfold setSidecarContainerLifecycle. destruct (decide _); [by intros [= <-]|].
  destruct (decide _); [by intros [= <-]|]. destruct cfg; [by intros [= <-]|done].
Qed.

Lemma sidecar_mounts a r n pc c' : sidecar gldb unmarshal_spec a r n pc = Ok c' → c_VolumeMounts c' = c_VolumeMounts pc.
Proof.
  unfold sidecar. destruct n; [|by intros [= <-]]. destruct (gl_config _ _ _); [|by intros [= <-]].
  destruct (rsp_BaseServices _); [by intros [= <-]|apply lifecycle_mounts].
Qed.

Lemma place_mounts a main r m pc st st' : shares_mounts main pc → Forall (shares_mounts main) (all_containers st) →
  place gldb unmarshal_spec DISABLE_INIT_SECURITY a r m pc st = Ok st' → Forall (shares_mounts main) (all_containers st').
Proof.
  intros Hpc Hst. unfold place.
  set (st1 := if is_inbound m then _ else st). set (st2 := if is_outbound m then _ else st1).
  assert (all_containers st2 = all_containers st) as E by (unfold st2, st1; by destruct (is_inbound m), (is_outbound m)).
  destruct (sidecar _ _ _ _ _ _) as [c| |] eqn:Es; cbn [then_do]; [|done..]. intros [= <-].
  apply sidecar_mounts in Es. assert (shares_mounts main c) as Hc by (unfold shares_mounts in *; by rewrite Es).
  rewrite <- E in Hst. clear E. revert Hst. generalize st2. intros [pre post init net mesh inb]. unfold all_containers.
  cbn [ps_pre ps_post ps_init]. rewrite !Forall_app. intros (H1 & H2 & H3).
  destruct (decide (m = InitPlugin)).
  - set (pc' := if decide _ then c else _). assert (shares_mounts main pc') as Hpc' by (unfold pc'; by destruct (decide _)).
    change (Forall (shares_mounts main) pre ∧ Forall (shares_mounts main) post ∧ Forall (shares_mounts main) (init ++ [pc'])).
    rewrite Forall_app. auto.
  - destruct (is_inbound m || is_outbound m).
    + change (Forall (shares_mounts main) (pre ++ [c]) ∧ Forall (shares_mounts main) post ∧ Forall (shares_mounts main) init).
      rewrite Forall_app. auto.
    + change (Forall (shares_mounts main) pre ∧ Forall (shares_mounts main) (post ++ [c]) ∧ Forall (shares_mounts main) init).
      rewrite Forall_app. auto.
Qed.

Lemma add_plugins_mounts a main l st st' : Forall (shares_mounts main) (all_containers st) →
  add a main l st = Ok st' → Forall (shares_mounts main) (all_containers st').
Proof.
  revert st. induction l as [|r l IH]; intros st Hst; cbn [add_plugins]; [by intros [= <-]|].
  destruct (add1 a main r st) as [st1| |] eqn:E; cbn [then_do]; [|done..]. apply IH. revert E. unfold add_plugin.
  destruct (negb _); [by intros [= <-]|]. destruct (gl_build_version _ _ _); [by intros [= <-]|].
  destruct (GetPodTemplate a); [|by intros [= <-]]. destruct (createPluginEnvs _ _ _ _ _ _ _ _ _); [done|].
  destruct (gl_plugin_model _ _ _); [done|]. apply place_mounts; [by left|done].
Qed.

(** ** The whole conversion *)

(** Nothing changes but the configuration maps. *)
Record only_configs (a a' : AppService) : Prop := {
  oc_wf : wf a → wf a';
  oc_base : base a' = base a;
  oc_statefulset : statefulset a' = statefulset a;
  oc_deployment : deployment a' = deployment a
}.
#[local] Instance only_configs_preorder : PreOrder only_configs.
Proof. split; [by intros a; split|]. intros a b c [A1 A2 A3 A4] [B1 B2 B3 B4]. split; [auto|congruence..]. Qed.

Lemma only_config_map c a : only_configs a (SetConfigMap c a).
Proof. split; [|done..]. intros Hw. exact (proj1 (pres_run _ (preserving_op (OpSetConfigMap c)) a _ Hw eq_refl)). Qed.

Lemma apply_configs_only inbound l a :
  only_configs a (foldl (λ a r, ApplyPluginConfig gldb unmarshal_spec marshal_spec configmap_rest r inbound a) a l).
Proof.
  revert a. induction l as [|r l IH]; intros a; [reflexivity|]. cbn [foldl]. etransitivity; [|apply IH].
  unfold ApplyPluginConfig. destruct (gl_config _ _ _); [apply only_config_map|reflexivity].
Qed.

Lemma mesh_container_name a prefix image id envs c :
  mesh_container XDS_HOST_IP XDS_HOST_PORT API_HOST_PORT a prefix image id envs = Ok c →
  ∃ suffix, id_suffix (ServiceID a) = Some suffix ∧ c_Name c = (prefix +:+ suffix)%string ∧ c_VolumeMounts c = [].
Proof. unfold mesh_container. destruct (id_suffix _) as [suffix|]; [|done]. intros [= <-]. by exists suffix. Qed.

(** The sidecar is added when the component is behind the mesh and no plugin
    takes its outbound traffic. *)
Definition mesh_names (prefix : string) (a : AppService) (b : bool) : list string :=
  if b then [(prefix +:+ default "" (id_suffix (ServiceID a)))%string] else [].

Abbreviation mesh := (default_mesh pdb gdb db marshal_spec configmap_rest XDS_HOST_IP XDS_HOST_PORT API_HOST_PORT TCPMeshImageName).

Lemma default_mesh_names main st a st' a' : mesh main st a = Ok (st', a') →
  only_configs a a' ∧ ps_post st' = ps_post st ∧ ps_init st' = ps_init st ∧
  c_Name <$> ps_pre st' = (c_Name <$> ps_pre st) ++
    mesh_names "default-tcpmesh-" a (b_NeedProxy (base a) && negb (ps_netPlugin st)) ∧
  (Forall (shares_mounts main) (all_containers st) → Forall (shares_mounts main) (all_containers st')).
Proof.
  unfold default_mesh. destruct (b_NeedProxy (base a) && negb (ps_netPlugin st)) eqn:Eb.
  - destruct (applyDefaultMeshPluginConfig _ _ _ _ _ a) as [[[id cfg] a1]| |] eqn:Em; cbn [then_do]; [|done..].
    assert (only_configs a a1) as Ho.
    { unfold applyDefaultMeshPluginConfig in Em. destruct (depend_services _ _ _ _); cbn [then_do] in Em; [|done..].
      destruct (marshal_spec _); injection Em as _ _ <-; [reflexivity|apply only_config_map]. }
    unfold createTCPDefaultPluginContainer. destruct (mesh_container _ _ _ _ _ _ _ _) as [c1| |] eqn:Ec; cbn [then_do]; [|done..].
    destruct (setSidecarContainerLifecycle _ _ _) as [c| |] eqn:El; cbn [then_do]; [|done..]. intros [= <- <-].
    apply mesh_container_name in Ec as (suffix & Hs & Hn & Hv). pose proof (lifecycle_mounts _ _ _ _ El) as Hv'.
    apply lifecycle_name in El.
    split; [exact Ho|]. split; [done|]. split; [done|]. split; [|].
    2: { unfold all_containers. intros (F1 & F2 & F3)%Forall_app_3.
      change (Forall (shares_mounts main) ((ps_pre st ++ [c]) ++ ps_post st ++ ps_init st)).
      apply Forall_app_3. split; [|done]. apply Forall_app. split; [done|]. apply Forall_singleton. right. congruence. }
    change (c_Name <$> (ps_pre st ++ [c]) = (c_Name <$> ps_pre st) ++ mesh_names "default-tcpmesh-" a true).
    rewrite fmap_app. unfold mesh_names, ServiceID in *. rewrite <- (oc_base _ _ Ho), Hs. cbn. by rewrite El, Hn.
  - intros [= <- <-]. split; [reflexivity|]. split; [done|]. split; [done|]. split; [by rewrite app_nil_r|done].
Qed.

Definition rows_of (r : error + list TenantServicePluginRelation) : list TenantServicePluginRelation :=
  match r with inl _ => [] | inr l => l end.

Definition waits (a : AppService) : bool :=
  b_NeedProxy (base a) && nonempty_string (get_str (b_ExtensionSet (base a)) "boot_seq_dep_service_ids").

Definition plugin_result (a : AppService) (l : list TenantServicePluginRelation)
    (r : list Container * list Container * list Container * AppService) : Prop :=
  let '(init, pre, post, a') := r in
  only_configs a a' ∧
  c_Name <$> pre = names_where is_net a l ++
    mesh_names "default-tcpmesh-" a (b_NeedProxy (base a) && negb (existsb (takes_outbound a) l)) ∧
  c_Name <$> post = names_where is_plain a l ∧
  c_Name <$> init = names_where is_init a l ++ mesh_names "probe-mesh-" a (waits a) ∧
  Forall (shares_mounts (main_container a)) (pre ++ post ++ init).

Lemma containers_only a l init pre post a' : containers a l = Ok (init, pre, post, a') → only_configs a a'.
Proof.
  unfold plugin_containers. destruct (_ && _); [by intros [= _ _ _ <-]|].
  destruct (add a _ l _) as [st| |]; cbn [then_do]; [|done..]. set (a1 := foldl _ a l).
  pose proof (apply_configs_only (inbound_config gldb unmarshal_spec (ps_inBound st)) l a) as Ho1. fold a1 in Ho1.
  destruct (mesh _ st a1) as [[st2 a2]| |] eqn:Em; cbn [then_do]; [|done..].
  destruct (default_mesh_names _ _ _ _ _ Em) as (Ho2 & _).
  destruct (createProbeMeshInitContainer _ _ _ _ _ _ _); cbn [then_do]; [|done..]. intros [= _ _ _ <-].
  assert (only_configs a a2) as [] by (by etransitivity). split; [|done..]. intros Hw. apply (wf_same a2); auto.
Qed.

Lemma service_plugin_only a init pre post a' : service_plugin a = Ok (init, pre, post, a') → only_configs a a'.
Proof.
  unfold conversionServicePlugin. destruct (gl_relations _ _); [destruct (decide _); [|done]|]; apply containers_only.
Qed.

Lemma only_configs_template a a' : only_configs a a' → GetPodTemplate a' = GetPodTemplate a.
Proof. intros [_ _ E1 E2]. unfold GetPodTemplate. by rewrite E1, E2. Qed.

Lemma service_plugin_spec a t r : GetPodTemplate a = Some t → service_plugin a = Ok r →
  plugin_result a (rows_of (gl_relations gldb (ServiceID a))) r.
Proof.
  intros Ht. unfold conversionServicePlugin.
  assert (∀ l, containers a l = Ok r → plugin_result a l r) as Hgo.
  { intros l. unfold plugin_containers. destruct (bool_decide (length l = 0) && negb (b_NeedProxy (base a))) eqn:Eb.
    - intros [= <-]. apply andb_true_iff in Eb as [El%bool_decide_eq_true Ep%negb_true_iff]. destruct l; [|done].
      unfold plugin_result, mesh_names, waits. rewrite Ep. split; [reflexivity|]. split_and!; done || constructor.
    - destruct (add a (main_container a) l _) as [st| |] eqn:Ea; cbn [then_do]; [|done..].
      destruct (add_plugins_names _ _ _ _ _ _ Ht Ea) as [N1 N2 N3 N4]. cbn in N1, N2, N3, N4.
      set (a1 := foldl _ a l). pose proof (apply_configs_only (inbound_config gldb unmarshal_spec (ps_inBound st)) l a) as Ho1.
      fold a1 in Ho1. destruct (mesh (main_container a) st a1) as [[st2 a2]| |] eqn:Em; cbn [then_do]; [|done..].
      destruct (default_mesh_names _ _ _ _ _ Em) as (Ho2 & M2 & M3 & M1 & M4).
      destruct (createProbeMeshInitContainer _ _ _ _ _ _ _) as [boot| |] eqn:Ep; cbn [then_do]; [|done..].
      apply mesh_container_name in Ep as (suffix & Hsuf & Hboot & Hbv). intros [= <-].
      assert (only_configs a a2) as Ho by (by etransitivity).
      assert (ServiceID a2 = ServiceID a ∧ ServiceID a1 = ServiceID a) as [Hid2 Hid1].
      { unfold ServiceID. by rewrite (oc_base _ _ Ho), (oc_base _ _ Ho1). }
      unfold plugin_result. split; [destruct Ho; split; [|done..]; intros Hw; apply (wf_same a2); auto|].
      rewrite M1, N1, M2, N2. unfold mesh_names. rewrite Hid1, (oc_base _ _ Ho1), N4.
      split; [done|]. split; [done|]. rewrite Hid2 in Hsuf. fold (waits a2).
      replace (waits a2) with (waits a) by (unfold waits; by rewrite (oc_base _ _ Ho)).
      assert (Forall (shares_mounts (main_container a)) (all_containers st2)) as Hall.
      { apply M4. by eapply add_plugins_mounts; [|exact Ea]. }
      apply Forall_app_3 in Hall as (F1 & F2 & F3). rewrite M2 in F2. rewrite Forall_app_3.
      destruct (waits a); [|by rewrite <- N3, <- M3, app_nil_r]. rewrite fmap_app, <- N3, <- M3, Hsuf. cbn. rewrite Hboot. split; [done|]. split; [done|]. split; [done|]. apply Forall_app. split; [done|].
      apply Forall_singleton. by right. }
  destruct (gl_relations gldb (ServiceID a)) as [e|l]; [|apply Hgo].
  destruct (decide (e = ERecordNotFound)); [apply Hgo|done].
Qed.

Lemma plugin_template (a a' : AppService) (Hrun : convert a = Ok a') :
  let l := rows_of (gl_relations gldb (ServiceID a)) in
  ∃ t t' pre post, GetPodTemplate a = Some t ∧ GetPodTemplate a' = Some t' ∧
    pt_Containers t' = pre ++ pt_Containers t ++ post ∧
    c_Name <$> pre = names_where is_net a l ++
      mesh_names "default-tcpmesh-" a (b_NeedProxy (base a) && negb (existsb (takes_outbound a) l)) ∧
    c_Name <$> post = names_where is_plain a l ∧
    c_Name <$> pt_InitContainers t' = names_where is_init a l ++ mesh_names "probe-mesh-" a (waits a) ∧
    pt_Labels t' = pt_Labels t ∧ pt_Spec t' = pt_Spec t ∧ base a' = base a ∧ (wf a → wf a') ∧
    Forall (shares_mounts (main_container a)) (pre ++ post ++ pt_InitContainers t') ∧
    statefulset a' = (if statefulset a is Some w then Some (with_template t' w) else None) ∧
    deployment a' = (if statefulset a is Some _ then deployment a else with_template t' <$> deployment a).
Proof.
  cbv zeta. unfold TenantServicePlugin in Hrun.
  destruct (service_plugin a) as [[[[init pre] post] a1]| |] eqn:Es; cbn [then_do] in Hrun; [|done..].
  destruct (GetPodTemplate a1) as [t1|] eqn:Et1; [|done]. injection Hrun as <-.
  assert (GetPodTemplate a = Some t1) as Ht by (by rewrite <- (only_configs_template _ _ (service_plugin_only _ _ _ _ _ Es))).
  destruct (service_plugin_spec _ _ _ Ht Es) as (Ho & H1 & H2 & H3 & H4).
  exists t1, (t1 <| pt_Containers ::= λ l, pre ++ l ++ post |> <| pt_InitContainers := init |>), pre, post.
  split; [done|]. split.
  { unfold GetPodTemplate, change_template in *. destruct (statefulset a1) eqn:Es1; cbn.
    - rewrite Es1. cbn. by injection Et1 as ->.
    - rewrite Es1. destruct (deployment a1); cbn in *; [|done]. by injection Et1 as ->. }
  split; [done|]. split; [done|]. split; [done|]. split; [done|]. split; [done|]. split; [done|].
  split; [unfold change_template; destruct (statefulset a1); cbn; apply (oc_base _ _ Ho)|].
  split; [intros Hw; pose proof (oc_wf _ _ Ho Hw); unfold change_template; destruct (statefulset a1); by apply (wf_same a1)|].
  split; [exact H4|]. rewrite <- (oc_statefulset _ _ Ho), <- (oc_deployment _ _ Ho).
  unfold GetPodTemplate in Et1. unfold change_template. destruct (statefulset a1) eqn:Es1; cbn; rewrite ?Es1.
  - injection Et1 as <-. by split.
  - split; [done|]. destruct (deployment a1); [|done]. cbn in Et1. by injection Et1 as <-.
Qed.

(** Where the plugins of a component go.  Each plugin that is
    switched on and has a built version gives one container, named after it:
    an init plugin an init container, a network plugin a container before
    the component's own, any other one behind it, in the order of the rows.
    A component behind the mesh gets the default sidecar exactly when no
    plugin takes its outbound traffic, and the container that waits for its
    dependencies when it names some.  The component's own containers
    and everything but template and configuration maps stay as they are. *)
Theorem plugins_placed (a a' : AppService) (Hrun : convert a = Ok a') :
  let l := rows_of (gl_relations gldb (ServiceID a)) in
  ∃ t t' pre post, GetPodTemplate a = Some t ∧ GetPodTemplate a' = Some t' ∧
    pt_Containers t' = pre ++ pt_Containers t ++ post ∧
    c_Name <$> pre = names_where is_net a l ++
      mesh_names "default-tcpmesh-" a (b_NeedProxy (base a) && negb (existsb (takes_outbound a) l)) ∧
    c_Name <$> post = names_where is_plain a l ∧
    c_Name <$> pt_InitContainers t' = names_where is_init a l ++ mesh_names "probe-mesh-" a (waits a) ∧
    pt_Labels t' = pt_Labels t ∧ pt_Spec t' = pt_Spec t ∧ base a' = base a ∧ (wf a → wf a').
Proof.
  destruct (plugin_template a a' Hrun) as (t & t' & pre & post & H1 & H2 & H3 & H4 & H5 & H6 & H7 & H8 & H9 & H10 & _).
  exists t, t', pre, post. split_and!; assumption.
Qed.

(** ** The address of the discovery service *)

Lemma app_nil_str s : s +:+ "" = s.
Proof. induction s as [|c s IH]; [done|]. exact (f_equal (String c) IH). Qed.

Abbreviation raw := (plugin_envs_raw XDS_HOST_IP XDS_HOST_PORT API_HOST_PORT).
Abbreviation plugin_envs := (createPluginEnvs gldb XDS_HOST_IP XDS_HOST_PORT API_HOST_PORT).

Lemma plugin_envs_inv id tenant alias main sid envs : plugin_envs id tenant alias main sid = inr envs →
  ∃ ves, envs = map (parse_env (env_settings (raw id tenant alias main ves) ∅)) (raw id tenant alias main ves).
Proof.
  unfold createPluginEnvs. destruct (gl_version_envs _ _ _) as [e|ves].
  - destruct (decide (e = ERecordNotFound)); [|done]. intros [= <-]. by exists [].
  - intros [= <-]. by exists ves.
Qed.

(** The last entries of a plugin's environment. *)
Lemma raw_tail id tenant alias main ves n x :
  effective (xds_envs XDS_HOST_IP XDS_HOST_PORT API_HOST_PORT ++
    [env "DISCOVER_URL" ("http://${XDS_HOST_IP}:6100/v1/resources/" +:+ tenant +:+ "/" +:+ alias +:+ "/" +:+ id);
     env "DISCOVER_URL_NOHOST" ("/v1/resources/" +:+ tenant +:+ "/" +:+ alias +:+ "/" +:+ id);
     env "PLUGIN_ID" id]) n = Some x →
  effective (raw id tenant alias main ves) n = Some x.
Proof.
  intros Hx. unfold plugin_envs_raw. rewrite (assoc_L (++) main), effective_app, Hx.
  by destruct (effective (main ++ _) n).
Qed.

(** What a plugin gets to know of the mesh, whatever variables
    the component or the plugin's version bring: its own id, and the address
    of the discovery service with the host that the worker was given.
    When the worker was given none, the host is to be the node's, which only
    Kubernetes knows: [XDS_HOST_IP] is a reference to a field, its value in
    the worker is empty, and so is the host of [DISCOVER_URL]. *)
Theorem discover_url_host (id tenant alias : string) main sid envs
    (Hrun : plugin_envs id tenant alias main sid = inr envs)
    (Hhost : has_char 36 XDS_HOST_IP = false)
    (Hplain : has_char 36 (tenant +:+ "/" +:+ alias +:+ "/" +:+ id) = false) :
  effective envs "DISCOVER_URL" = Some (env "DISCOVER_URL"
    ("http://" +:+ XDS_HOST_IP +:+ ":6100/v1/resources/" +:+ tenant +:+ "/" +:+ alias +:+ "/" +:+ id)) ∧
  effective envs "XDS_HOST_IP" = Some (xdsHostIPEnv XDS_HOST_IP) ∧
  env_Name <$> effective envs "PLUGIN_ID" = Some "PLUGIN_ID"%string ∧
  (XDS_HOST_IP = ""%string → env_Value <$> effective envs "DISCOVER_URL" =
     Some ("http://:6100/v1/resources/" +:+ tenant +:+ "/" +:+ alias +:+ "/" +:+ id)%string).
Proof.
  apply plugin_envs_inv in Hrun as (ves & ->). set (l := raw _ _ _ _ _). set (config := env_settings l ∅).
  set (tail := (tenant +:+ "/" +:+ alias +:+ "/" +:+ id)%string) in *.
  assert (effective l "XDS_HOST_IP" = Some (xdsHostIPEnv XDS_HOST_IP)) as Hx.
  { unfold l. apply raw_tail. unfold xds_envs, getXDSHostIPAndPort, xdsHostIPEnv. by destruct (decide (XDS_HOST_IP = _)). }
  assert (env_Value (xdsHostIPEnv XDS_HOST_IP) = XDS_HOST_IP) as Hv.
  { unfold xdsHostIPEnv. by destruct (decide (XDS_HOST_IP = _)) as [->|]. }
  assert (config !! "XDS_HOST_IP"%string = Some XDS_HOST_IP) as Hc.
  { unfold config. rewrite env_settings_lookup, Hx. cbn. by rewrite Hv. }
  assert (ParseVariable ("http://${XDS_HOST_IP}:6100/v1/resources/" +:+ tail) config =
    "http://" +:+ XDS_HOST_IP +:+ ":6100/v1/resources/" +:+ tail)%string as Hp.
  { pose proof (parse_segments config [Text "http://"; Var "XDS_HOST_IP"; Text (":6100/v1/resources/" +:+ tail)]) as Hs.
    cbn [text_of foldr render substitute] in Hs. rewrite app_nil_str in Hs.
    unfold meaning in Hs. change (getVariableKey (render_var "XDS_HOST_IP")) with ("XDS_HOST_IP"%string, ""%string) in Hs.
    cbv beta iota in Hs. rewrite Hc in Hs. apply Hs. split.
    - repeat constructor. cbn [plain_segment]. rewrite has_char_app. exact Hplain.
    - repeat constructor. intros v. unfold replacement.
      change (getVariableKey (render_var "XDS_HOST_IP")) with ("XDS_HOST_IP"%string, ""%string).
      cbv beta iota. rewrite Hc. by intros [= <-]. }
  rewrite !effective_parse, Hx.
  assert (effective l "DISCOVER_URL" = Some (env "DISCOVER_URL" ("http://${XDS_HOST_IP}:6100/v1/resources/" +:+ tail))) as Hd.
  { unfold l. apply raw_tail. unfold xds_envs, getXDSHostIPAndPort, xdsHostIPEnv. by destruct (decide (XDS_HOST_IP = _)). }
  assert (effective l "PLUGIN_ID" = Some (env "PLUGIN_ID" id)) as Hi.
  { unfold l. apply raw_tail. unfold xds_envs, getXDSHostIPAndPort, xdsHostIPEnv. by destruct (decide (XDS_HOST_IP = _)). }
  rewrite Hd, Hi. cbn [fmap option_fmap option_map]. unfold parse_env at 1.
  split; [change (env_Value (env ?n ?v)) with v; by rewrite Hp|]. split; [|split; [done|]].
  - unfold parse_env. rewrite parse_plain by (by rewrite Hv). unfold xdsHostIPEnv. by destruct (decide _).
  - intros E. change (Some (ParseVariable ("http://${XDS_HOST_IP}:6100/v1/resources/" +:+ tail) config) =
      Some ("http://:6100/v1/resources/" +:+ tail)%string). rewrite Hp, E. done.
Qed.

(** ** Crashes *)

Lemma lifecycle_safe a c cfg : setSidecarContainerLifecycle a c (Some cfg) ≠ Panic.
Proof. unfold setSidecarContainerLifecycle. destruct (decide _); [done|]. by destruct (decide _). Qed.

Lemma add_plugins_safe a main l st : add a main l st ≠ Panic.
Proof.
  revert st. induction l as [|r l IH]; intros st; cbn [add_plugins]; [done|].
  assert (add1 a main r st ≠ Panic) as H1.
  { unfold add_plugin. destruct (negb _); [done|]. destruct (gl_build_version _ _ _); [done|].
    destruct (GetPodTemplate a); [|done]. destruct (createPluginEnvs _ _ _ _ _ _ _ _ _) as [|envs]; [done|].
    destruct (gl_plugin_model _ _ _) as [|m]; [done|]. unfold place.
    set (st1 := if is_outbound m then _ else _).
    assert (∀ pc, sidecar gldb unmarshal_spec a r (ps_netPlugin st1) pc ≠ Panic) as Hs.
    { intros pc. unfold sidecar. destruct (ps_netPlugin st1); [|done]. destruct (gl_config _ _ _); [|done].
      destruct (rsp_BaseServices _); [done|apply lifecycle_safe]. }
    specialize (Hs (plugin_container a main r t envs)). by destruct (sidecar _ _ _ _ _ _). }
  destruct (add1 a main r st); cbn [then_do]; [apply IH|done..].
Qed.

Lemma inner_services_safe a dep ports : Forall (λ p, is_Some (tp_IsInnerService p)) ports → is_Some dep →
  ∃ l, inner_services a dep ports = Ok l.
Proof.
  intros Hp [d ->]. induction Hp as [|p ports [b Hb] _ [l IH]]; cbn [inner_services]; [eauto|].
  rewrite Hb, IH. destruct b; eauto.
Qed.

Lemma mesh_container_safe a prefix image id envs : 20 ≤ String.length (ServiceID a) →
  ∃ c, mesh_container XDS_HOST_IP XDS_HOST_PORT API_HOST_PORT a prefix image id envs = Ok c.
Proof. intros Hl. unfold mesh_container, id_suffix. rewrite decide_False by lia. eauto. Qed.

Lemma depend_services_error b deps e : depend_services gdb db b deps ≠ Err e.
Proof.
  revert e. induction deps as [|d deps IH]; intros e; cbn [depend_services]; [done|].
  assert (∀ ports dep e, inner_services b dep ports ≠ Err e) as Hi.
  { clear. induction ports as [|p ports IH]; intros dep e; cbn [inner_services]; [done|].
    destruct (tp_IsInnerService p) as [[]|]; [|apply IH|done]. destruct dep as [d|]; [|done].
    destruct (inner_services b (Some d) ports) as [|e1|] eqn:E; cbn [then_do]; [done| |done]. by apply IH in E. }
  destruct (inner_services _ _ _) as [l|e1|] eqn:E; cbn [then_do]; [|by apply Hi in E|done].
  destruct (depend_services _ _ b deps) as [|e1|] eqn:E1; cbn [then_do]; [done| |done]. by destruct (IH e1).
Qed.

Lemma depend_services_safe b deps :
  (∀ d ports, gd_ports gdb d = inr ports → Forall (λ p, is_Some (tp_IsInnerService p)) ports) →
  (∀ d, d ∈ deps → ∃ ts, cd_GetServiceByID db d = inr ts) → ∃ l, depend_services gdb db b deps = Ok l.
Proof.
  intros Hflags Hd. induction deps as [|d deps IH]; cbn [depend_services]; [eauto|].
  destruct (inner_services_safe b (or_none (cd_GetServiceByID db d)) (default [] (or_none (gd_ports gdb d)))) as [l1 ->].
  - destruct (gd_ports gdb d) as [e|ports] eqn:E; [constructor|]. exact (Hflags _ _ E).
  - destruct (Hd d) as [ts ->]; [by apply list_elem_of_here|]. cbn. eauto.
  - cbn [then_do]. destruct IH as [l2 ->]; [intros x Hx; apply Hd; by apply list_elem_of_further|]. cbn. eauto.
Qed.

Lemma default_mesh_safe main st a : 20 ≤ String.length (ServiceID a) → (∀ s, ∃ t, marshal_spec s = inr t) →
  (∀ d ports, gd_ports gdb d = inr ports → Forall (λ p, is_Some (tp_IsInnerService p)) ports) →
  (∀ deps d, pd_relations pdb (ServiceID a) = inr deps → d ∈ deps → ∃ ts, cd_GetServiceByID db d = inr ts) →
  ∃ r, mesh main st a = Ok r.
Proof.
  intros Hlen Hmarshal Hflags Hdeps. unfold default_mesh. destruct (_ && _); [|eauto].
  unfold applyDefaultMeshPluginConfig. set (deps := default [] (or_none (pd_relations pdb (ServiceID a)))).
  destruct (depend_services_safe a deps Hflags) as [l ->].
  { intros d. unfold deps. destruct (pd_relations pdb (ServiceID a)) as [e|ds] eqn:E; cbn; [by intros ?%not_elem_of_nil|].
    by apply Hdeps. }
  cbn [then_do]. destruct (Hmarshal (mkResourceSpec [] l "")) as [t ->]. cbn [then_do].
  set (a2 := SetConfigMap _ a). unfold createTCPDefaultPluginContainer.
  set (id := ("def-mesh" +:+ ServiceID a)%string).
  destruct (mesh_container_safe a2 "default-tcpmesh-" TCPMeshImageName id (c_Env main) Hlen) as [c ->]. cbn [then_do].
  pose proof (lifecycle_safe a2 c (mkResourceSpec [] l "")) as Hl.
  destruct (setSidecarContainerLifecycle _ _ _) as [c'| |] eqn:E; cbn [then_do]; [eauto| |done].
  unfold setSidecarContainerLifecycle in E. destruct (decide _); [done|]. by destruct (decide _).
Qed.

Lemma containers_safe a l : 20 ≤ String.length (ServiceID a) → (∀ s, ∃ t, marshal_spec s = inr t) →
  (∀ d ports, gd_ports gdb d = inr ports → Forall (λ p, is_Some (tp_IsInnerService p)) ports) →
  (∀ deps d, pd_relations pdb (ServiceID a) = inr deps → d ∈ deps → ∃ ts, cd_GetServiceByID db d = inr ts) →
  containers a l ≠ Panic.
Proof.
  intros Hlen Hmarshal Hflags Hdeps. unfold plugin_containers. destruct (_ && _); [done|].
  destruct (add a _ l _) as [st| |] eqn:Ea; cbn [then_do]; [|done|by apply add_plugins_safe in Ea].
  set (a1 := foldl _ a l). pose proof (apply_configs_only (inbound_config gldb unmarshal_spec (ps_inBound st)) l a) as Ho.
  fold a1 in Ho. assert (ServiceID a1 = ServiceID a) as H1 by (unfold ServiceID; by rewrite (oc_base _ _ Ho)).
  destruct (default_mesh_safe (main_container a) st a1) as [[st2 a2] Hm]; [by rewrite H1|done|done|by rewrite H1|].
  rewrite Hm. cbn [then_do]. destruct (default_mesh_names _ _ _ _ _ Hm) as (Ho2 & _).
  assert (ServiceID a2 = ServiceID a) as H2 by (rewrite <- H1; unfold ServiceID; by rewrite (oc_base _ _ Ho2)).
  unfold createProbeMeshInitContainer.
  destruct (mesh_container_safe a2 "probe-mesh-" ProbeMeshImageName (ps_meshPluginID st2) (c_Env (main_container a)))
    as [c ->]; [by rewrite H2|done].
Qed.

(** What keeps the plugin conversion from crashing the worker.
    It returns normally, a result or an error, when the id of the component
    has the twenty characters its suffix is cut from, every port of
    its dependencies has its flag, and every dependency is still there: a
    relation to a component that has been deleted is a nil dereference
    when ports of it are left. *)
Theorem plugin_conversion_safe (a : AppService) (Hlen : 20 ≤ String.length (ServiceID a))
    (Hmarshal : ∀ s, ∃ t, marshal_spec s = inr t)
    (Hflags : ∀ d ports, gd_ports gdb d = inr ports → Forall (λ p, is_Some (tp_IsInnerService p)) ports)
    (Hdeps : ∀ deps d, pd_relations pdb (ServiceID a) = inr deps → d ∈ deps → ∃ ts, cd_GetServiceByID db d = inr ts) :
  convert a ≠ Panic.
Proof.
  pose proof (λ l, containers_safe a l Hlen Hmarshal Hflags Hdeps) as Hc. unfold TenantServicePlugin.
  assert (service_plugin a ≠ Panic) as Hs.
  { unfold conversionServicePlugin. destruct (gl_relations _ _); [destruct (decide _); [apply Hc|done]|apply Hc]. }
  destruct (service_plugin a) as [[[[i pre] post] a1]| |]; cbn [then_do]; [|done..]. by destruct (GetPodTemplate a1).
Qed.

(** ** As a conversion *)

Lemma add_plugins_error a main l st e : (∀ s p e, gl_version_envs gldb s p = inl e → e ≠ ErrCallback) →
  add a main l st = Err e → e ≠ ErrCallback.
Proof.
  intros Hdb. revert st. induction l as [|r l IH]; intros st; cbn [add_plugins]; [done|].
  destruct (add1 a main r st) as [st1|e1|] eqn:E; cbn [then_do]; [apply IH| |done]. intros [= <-]. revert E.
  unfold add_plugin. destruct (negb _); [done|]. destruct (gl_build_version _ _ _); [done|].
  destruct (GetPodTemplate a); [|done]. destruct (createPluginEnvs _ _ _ _ _ _ _ _ _) as [e2|envs] eqn:Ee.
  - intros [= <-]. unfold createPluginEnvs in Ee. destruct (gl_version_envs _ _ _) as [e3|] eqn:E3; [|done].
    destruct (decide _); [done|]. injection Ee as <-. by eapply Hdb.
  - destruct (gl_plugin_model _ _ _) as [|m]; [by intros [= <-]|]. unfold place.
    destruct (sidecar _ _ _ _ _ _) as [| |] eqn:Es; cbn [then_do]; [done| |done]. intros [= <-].
    revert Es. unfold sidecar. destruct (ps_netPlugin _); [|done]. destruct (gl_config _ _ _); [|done].
    destruct (rsp_BaseServices _); [done|]. unfold setSidecarContainerLifecycle. destruct (decide _); [done|].
    by destruct (decide _).
Qed.

Lemma mesh_container_error a prefix image id envs e :
  mesh_container XDS_HOST_IP XDS_HOST_PORT API_HOST_PORT a prefix image id envs ≠ Err e.
Proof. unfold mesh_container. by destruct (id_suffix _). Qed.

Lemma lifecycle_error a c cfg e : setSidecarContainerLifecycle a c cfg ≠ Err e.
Proof. unfold setSidecarContainerLifecycle. destruct (decide _); [done|]. destruct (decide _); [done|]. by destruct cfg. Qed.

Lemma default_mesh_error main st a e : mesh main st a ≠ Err e.
Proof.
  unfold default_mesh. destruct (_ && _); [|done].
  destruct (applyDefaultMeshPluginConfig _ _ _ _ _ _) as [[[id cfg] b]|e2|] eqn:Ed; cbn [then_do]; [| |done].
  - unfold createTCPDefaultPluginContainer. destruct (mesh_container _ _ _ _ _ _ _ _) as [c|e3|] eqn:E; cbn [then_do];
      [|by apply mesh_container_error in E|done].
    destruct (setSidecarContainerLifecycle b c cfg) eqn:El; cbn [then_do]; [done|by apply lifecycle_error in El|done].
  - intros _. unfold applyDefaultMeshPluginConfig in Ed.
    destruct (depend_services _ _ _ _) as [l2|e3|] eqn:Ep; cbn [then_do] in Ed; [by destruct (marshal_spec _)| |done].
    by apply depend_services_error in Ep.
Qed.

Lemma sound_TenantServicePlugin : (∀ s p e, gl_version_envs gldb s p = inl e → e ≠ ErrCallback) →
  sound_conversion convert.
Proof.
  intros Hdb. split.
  - split. intros a a' Hwf Hrun.
    destruct (plugin_template a a' Hrun) as (t & t' & pre & post & _ & _ & _ & _ & _ & _ & _ & _ & Hb & Hw & _).
    split; [auto|]. unfold ServiceID. by rewrite Hb.
  - intros a e. unfold TenantServicePlugin.
    assert (∀ l e, containers a l = Err e → e ≠ ErrCallback) as Hc.
    { intros l e'. unfold plugin_containers. destruct (_ && _); [done|].
      destruct (add a _ l _) as [st|e1|] eqn:Ea; cbn [then_do]; [|intros [= <-]; by eapply add_plugins_error|done].
      set (a1 := foldl _ a l).
      destruct (mesh _ st a1) as [[st2 a2]|e1|] eqn:Em; cbn [then_do]; [|by apply default_mesh_error in Em|done].
      unfold createProbeMeshInitContainer. destruct (mesh_container _ _ _ _ _ _ _ _) eqn:E; cbn [then_do]; [done| |done].
      by apply mesh_container_error in E. }
    destruct (service_plugin a) as [[[[i pre] post] a1]|e1|] eqn:Es; cbn [then_do]; [| |done].
    + destruct (GetPodTemplate a1); [done|]. by intros [= <-].
    + intros [= <-]. unfold conversionServicePlugin in Es.
      destruct (gl_relations _ _); [destruct (decide _); [|by injection Es as <-]|]; by eapply Hc.
Qed.
End plugin.

(** ** Examples *)

Definition demo_plugins : list TenantServicePluginRelation := [
  mkPluginRelation "v1" "log" "component" "general-plugin" 100 64 true;
  mkPluginRelation "v1" "mesh" "component" "net-plugin:up" 100 64 true;
  mkPluginRelation "v1" "init" "component" "init-plugin" 100 64 true;
  mkPluginRelation "v1" "off" "component" "general-plugin" 100 64 false]%string.
Definition demo_plugin_model (id : string) : string :=
  if decide (id = "mesh"%string) then "net-plugin:up" else if decide (id = "init"%string) then "init-plugin" else "general-plugin".
Definition demo_plugin_db : PluginDB := mkPluginDB (λ _, inr demo_plugins) (λ _ _, inr (mkBuildVersion "" "registry/plugin:1"))
  (λ id _, inr (demo_plugin_model id)) (λ _ _, None) (λ _ _, inr [("LEVEL", "debug")]%string).
Definition demo_row (id : string) : TenantServices :=
  mkTenantServices "tenant" id ("gr" +:+ id) "" 0 512 "" "stateless_multiple" 1 "v1" "" "".
Definition demo_mesh_db : ConversionDB := mkConversionDB (λ _, inr None) (λ id, inr (demo_row id))
  (λ _, inr (mkTenants "t" "tenant")) (λ _, inr []) (λ _, false) (λ _, inr []) (λ _ _, inr []) (λ _, inr []) (λ _, inr []).
Definition gone_mesh_db : ConversionDB := mkConversionDB (λ _, inr None) (λ id, inl ERecordNotFound)
  (λ _, inr (mkTenants "t" "tenant")) (λ _, inr []) (λ _, false) (λ _, inr []) (λ _ _, inr []) (λ _, inr []) (λ _, inr []).
Definition demo_inner_ports : GatewayDB := mkGatewayDB
  (λ id, inr [mkTenantPort 1 id 3306 3306 "mysql" (Some true) (Some false) ""])
  (λ _ _, inr false) (λ _, inr []) (λ _ _, inr []) (λ _ _, inr []) (λ _, inr None) (λ _, inr []) (λ _, inr []) (λ _, inr []).
Definition demo_main : Container := zero_container <| c_Name := "app"%string |>.
Definition demo_plugin_app : AppService :=
  (empty_app (mkBase "tenant" "t" "" "0123456789abcdefghij0123" "alias" "" "" "v1" 0 512 "" 1 true false "creator" ["db"%string] ∅
     GovernanceModeBuildInServiceMesh))
    <| deployment := Some (demo_workload <| wl_Template ::= λ t, t <| pt_Containers := [demo_main] |> |>) |>.

Abbreviation demo_convert db := (TenantServicePlugin demo_plugin_db demo_pod_db demo_inner_ports db
  (λ _, (mkResourceSpec [] [] "", true)) (λ _, inr "{}"%string) (λ d, get_str d "plugin-config") "" "" "" "" "mesh:1" "probe:1"
  demo_plugin_app).

Lemma demo_converted : ∃ a w, demo_convert demo_mesh_db = Ok a ∧ deployment a = Some w ∧
  c_Name <$> pt_Containers (wl_Template w) = ["plugin-mesh"; "default-tcpmesh-456789abcdefghij0123"; "app"; "plugin-log"]%string ∧
  c_Name <$> pt_InitContainers (wl_Template w) = ["plugin-init"]%string ∧
  (c_PostStart <$> pt_Containers (wl_Template w)) !! 1 = Some ["/root/kato-mesh-data-panel"; "wait"; "3306"]%string.
Proof. do 2 eexists. split; [vm_compute; reflexivity|]. split; [reflexivity|]. split_and!; reflexivity. Qed.

(** The relation outlives the component it points to. *)
Example gone_dependency_panics : demo_convert gone_mesh_db = Panic.
Proof. vm_compute. reflexivity. Qed.

Lemma plugins_placed_witness : ∃ a t', demo_convert demo_mesh_db = Ok a ∧ GetPodTemplate a = Some t' ∧
  c_Name <$> pt_InitContainers t' = ["plugin-init"]%string.
Proof.
  destruct demo_converted as (a & w & E & _). exists a.
  destruct (plugins_placed _ _ _ _ _ _ _ _ _ _ _ _ _ _ _ E) as (t & t' & pre & post & _ & Ht' & _ & _ & _ & Hi & _).
  exists t'. split; [exact E|]. split; [exact Ht'|]. rewrite Hi. reflexivity.
Defined.

Lemma plugin_conversion_safe_witness : demo_convert demo_mesh_db ≠ Panic.
Proof.
  apply plugin_conversion_safe.
  - vm_compute. lia.
  - eauto.
  - intros d ports [= <-]. repeat constructor. eauto.
  - intros deps d _ _. exists (demo_row d). reflexivity.
Defined.

Lemma discover_url_host_witness : ∃ envs,
  createPluginEnvs demo_plugin_db "" "" "" "mesh" "tenant" "alias" [env "XDS_HOST_IP" "1.2.3.4"] "component" = inr envs ∧
  env_Value <$> effective envs "DISCOVER_URL" = Some "http://:6100/v1/resources/tenant/alias/mesh"%string.
Proof.
  destruct (createPluginEnvs demo_plugin_db "" "" "" "mesh" "tenant" "alias" [env "XDS_HOST_IP" "1.2.3.4"] "component")
    as [e|envs] eqn:E; [vm_compute in E; discriminate E|]. exists envs. split; [reflexivity|].
  destruct (discover_url_host demo_plugin_db "" "" "" "mesh" "tenant" "alias" _ _ envs E eq_refl eq_refl) as (_ & _ & _ & H).
  exact (H eq_refl).
Defined.
