(* ===== verification/BuildSpec.v ===== *)
(** * The workload the conversions build together

    The base conversion, the secrets of configuration groups, the pod
    template and the plugins, one after the other: what they build is a
    workload the API server accepts and the informers recognise. *)
From S2P Require Import Prelude Variables Kube AppService Store Conversion Handle HandleSpec ConversionSpec Gateway.
From S2P Require Import Volume VolumeSpec Version VersionSpec Plugin PluginSpec.

Lemma init_base_selector (state : bool) ts a a' :
  (if state then initBaseStatefulSet ts a else initBaseDeployment ts a) = Ok a' →
  statefulset a = None → deployment a = None →
  built_workload (negb state) a' = None ∧
  (∃ w, built_workload state a' = Some w ∧ wl_Selector w = initSelector ts ∅ ∧ wl_Replicas w = Some (int32 (ts_Replicas ts))) ∧
  ServiceAlias a' = ServiceAlias a ∧ DeployVersion a' = DeployVersion a.
Proof.
  destruct state; unfold initBaseStatefulSet, initBaseDeployment, SetStatefulSet, SetDeployment; intros E H1 H2.
  - simpl in E. rewrite H1 in E. simpl in E. injection E as <-. split; [exact H2|]. split; [by eexists|done].
  - simpl in E. rewrite H2 in E. simpl in E. injection E as <-. split; [exact H1|]. split; [by eexists|done].
Qed.

Lemma built_statefulset state a : built_workload state a = if state then statefulset a else deployment a.
Proof. done. Qed.

Section build.
Context `{GoRuntime} (db : ConversionDB) (pdb : PodDB) (vdb : VolumeDB) (gdb : GatewayDB) (gldb : PluginDB).
Context (NewTimeVersion : string) (secret_rest : gmap string string → opaque) (secret_data : opaque → gmap string string).
Context (unmarshal : string → error + gmap string dynamic).
Context (claim_rest : ClaimSpec → opaque) (configmap_rest : gmap string string → opaque) (NewUUID : nat → string).
Context (RUNNERIMAGENAME IMAGE_PULL_SECRET : string).
Context (unmarshal_spec : string → ResourceSpec * bool) (marshal_spec : ResourceSpec → error + string).
Context (XDS_HOST_IP XDS_HOST_PORT API_HOST_PORT DISABLE_INIT_SECURITY TCPMeshImageName ProbeMeshImageName : string).

(** The conversions that build the workload, in the order of [conversionList]. *)
Definition build_workload (a : AppService) : result AppService :=
  then_do (TenantServiceBase db NewTimeVersion a) (λ a,
  then_do (TenantServiceConfigGroup db secret_rest a) (λ a,
  then_do (TenantServiceVersion pdb vdb gdb secret_rest secret_data unmarshal claim_rest configmap_rest NewUUID
             RUNNERIMAGENAME IMAGE_PULL_SECRET a)
    (TenantServicePlugin gldb pdb gdb db unmarshal_spec marshal_spec configmap_rest XDS_HOST_IP XDS_HOST_PORT
       API_HOST_PORT DISABLE_INIT_SECURITY TCPMeshImageName ProbeMeshImageName))).

Lemma config_group_keeps a a' : TenantServiceConfigGroup db secret_rest a = Ok a' →
  base a' = base a ∧ statefulset a' = statefulset a ∧ deployment a' = deployment a.
Proof.
  unfold TenantServiceConfigGroup. destruct (cd_config_groups db _) as [|groups]; [done|].
  destruct (group_secrets _ _ groups a); [done|]. by intros [= <-].
Qed.

(** The selector asks for labels every template of the component has. *)
Lemma selector_in_template ts t : pt_Labels t !! "name"%string = Some (ts_ServiceAlias ts) →
  pt_Labels t !! "tenant_id"%string = Some (ts_TenantID ts) →
  pt_Labels t !! "service_id"%string = Some (ts_ServiceID ts) → initSelector ts ∅ ⊆ pt_Labels t.
Proof.
  intros H1 H2 H3. unfold initSelector.
  repeat (apply insert_subseteq_l; [done|]). apply map_empty_subseteq.
Qed.

(** What the first two conversions leave for the template. *)
Lemma base_and_groups a0 a1 a2 : TenantServiceBase db NewTimeVersion a0 = Ok a1 →
  TenantServiceConfigGroup db secret_rest a1 = Ok a2 → statefulset a0 = None → deployment a0 = None →
  ∃ ts, cd_GetServiceByID db (ServiceID a0) = inr ts ∧ ServiceID a2 = ServiceID a0 ∧
    (ts_Kind ts ≠ ServiceKindThirdParty →
     TenantID a2 = ts_TenantID ts ∧ ServiceAlias a2 = ts_ServiceAlias ts ∧
     built_workload (negb (IsState ts)) a2 = None ∧
     ∃ w, built_workload (IsState ts) a2 = Some w ∧ wl_Selector w = initSelector ts ∅ ∧
       wl_Replicas w = Some (int32 (ts_Replicas ts))).
Proof.
  intros E1 E2 Hs Hd. destruct (config_group_keeps _ _ E2) as (Hb2 & Hs2 & Hd2).
  destruct (service_base_inv db NewTimeVersion a0 a1 E1) as (ts & tn & b & Hts & _ & _ & Hb & Hbs & Hbd & _ & _ & E).
  exists ts. split; [done|].
  assert (ServiceID a2 = ServiceID a1 ∧ TenantID a2 = TenantID a1 ∧ ServiceAlias a2 = ServiceAlias a1) as (I1 & I2 & I3).
  { unfold ServiceID, TenantID, ServiceAlias. by rewrite Hb2. }
  destruct (decide (ts_Kind ts = ServiceKindThirdParty)) as [Hk|Hk].
  { injection E as <-. split; [|done]. rewrite I1. unfold ServiceID. by rewrite Hb. }
  destruct (init_base_keeps (IsState ts) ts b a1) as (_ & J1 & J2 & _); [by destruct (IsState ts)|].
  destruct (init_base_selector (IsState ts) ts b a1) as (K1 & K2 & K3 & _); [by destruct (IsState ts)|congruence|congruence|].
  split; [rewrite I1, J1; unfold ServiceID; by rewrite Hb|]. intros _.
  split; [rewrite I2, J2; unfold TenantID; by rewrite Hb|].
  split; [rewrite I3, K3; unfold ServiceAlias; by rewrite Hb|].
  destruct (IsState ts); cbn [built_workload negb] in *; rewrite ?Hs2, ?Hd2; auto.
Qed.

(** C14 (refinement): the workload that the conversions build from the database
    for a component is one that Kubernetes admits.  A component that is not
    third-party gets exactly one workload, stateful or not as its row says,
    with the row's replicas.  Its selector asks only for labels its pods
    have; the labels name the component, so the pods the informers see come
    back to it.  The volumes of a pod have distinct names, and no container,
    the plugins' and the mesh's included, mounts a volume the pod does not
    have; the component's own container is among them, and every row
    read belongs to the component asked for. *)
Theorem workload_admissible (Hsupply : uuid_supply NewUUID) (a a' : AppService)
    (Hrun : build_workload a = Ok a') (Hs : statefulset a = None) (Hd : deployment a = None)
    (Hrow : ∀ sid row, cd_GetServiceByID db sid = inr row → ts_ServiceID row = sid)
    (Hids : ∀ sid vs, vd_volumes vdb sid = inr (Some vs) → NoDup (sv_ID <$> vs))
    (Hmids : ∀ sid ts, vd_mounts vdb sid = inr ts → NoDup (mr_ID <$> ts)) :
  ∃ ts, cd_GetServiceByID db (ServiceID a) = inr ts ∧ ServiceID a' = ServiceID a ∧
    (ts_Kind ts ≠ ServiceKindThirdParty → ∃ w, built_workload (IsState ts) a' = Some w ∧
       built_workload (negb (IsState ts)) a' = None ∧
       wl_Replicas w = Some (int32 (ts_Replicas ts)) ∧
       let t := wl_Template w in
       wl_Selector w ⊆ pt_Labels t ∧
       owner_of (pt_Labels t) = mkOwner (ServiceID a) (DeployVersion a') (b_CreaterID (base a')) ∧
       NoDup (vol_Name <$> sp_Volumes (pt_Spec t)) ∧
       Forall (λ c, vm_Name <$> c_VolumeMounts c ⊆ vol_Name <$> sp_Volumes (pt_Spec t))
         (pt_InitContainers t ++ pt_Containers t) ∧
       ServiceID a ∈ c_Name <$> pt_Containers t).
Proof.
  unfold build_workload in Hrun.
  destruct (TenantServiceBase db NewTimeVersion a) as [a1| |] eqn:E1; cbn [then_do] in Hrun; [|done..].
  destruct (TenantServiceConfigGroup db secret_rest a1) as [a2| |] eqn:E2; cbn [then_do] in Hrun; [|done..].
  destruct (TenantServiceVersion _ _ _ _ _ _ _ _ _ _ _ a2) as [a3| |] eqn:E3; cbn [then_do] in Hrun; [|done..].
  destruct (base_and_groups a a1 a2 E1 E2 Hs Hd) as (ts & Hts & Hid2 & Hkind).
  destruct (version_template _ _ _ _ _ _ _ _ _ _ _ Hsupply a2 a3 E3 Hids Hmids)
    as ((_ & Hid3 & Ht3 & Hv3 & Hc3) & t & c & Hs3 & Hd3 & Hown & (L1 & L2 & L3) & Hcs & _ & Hcn & Hnd & Hmt & _).
  destruct (plugin_template _ _ _ _ _ _ _ _ _ _ _ _ _ a3 a' Hrun)
    as (t3 & t' & pre & post & Ht3' & Ht' & Hcont & _ & _ & _ & Hlab & Hspec & Hb4 & _ & Hsh & Hs4 & Hd4).
  exists ts. split; [done|]. split; [unfold ServiceID in *; congruence|]. intros Hk.
  destruct (Hkind Hk) as (Htn & Hal & Hnone & w & Hw & Hsel & Hrep).
  assert (wl_Template <$> built_workload (IsState ts) a3 = Some t ∧ built_workload (negb (IsState ts)) a3 = None ∧
    ∃ w3, built_workload (IsState ts) a3 = Some w3 ∧ wl_Selector w3 = wl_Selector w ∧ wl_Replicas w3 = wl_Replicas w)
    as (Htmpl & Hnone3 & w3 & Hw3 & Hsel3 & Hrep3).
  { unfold statefulset_of in Hs3. destruct (IsState ts); cbn [built_workload negb] in *; rewrite ?Hw, ?Hnone in *.
    - destruct (statefulset a3) as [w3|]; [|done]. cbn in Hs3. injection Hs3. intros. rewrite Hd3. split_and!; [cbn; congruence|done|].
      exists w3. split_and!; [done|congruence..].
    - rewrite Hd3. destruct (statefulset a3); [done|]. split_and!; [done|done|]. by eexists. }
  assert (t3 = t) as ->.
  { unfold GetPodTemplate in Ht3'. destruct (IsState ts); cbn [built_workload negb] in *; rewrite Hw3 in *.
    - cbn in Htmpl. congruence.
    - rewrite Hnone3 in Ht3'. cbn in *. congruence. }
  exists (with_template t' w3). cbv zeta. change (wl_Template (with_template t' w3)) with t'.
  change (wl_Replicas (with_template t' w3)) with (wl_Replicas w3). change (wl_Selector (with_template t' w3)) with (wl_Selector w3).
  split; [|split].
  { destruct (IsState ts); cbn [built_workload negb] in *; [by rewrite Hs4, Hw3|]. by rewrite Hd4, Hnone3, Hw3. }
  { destruct (IsState ts); cbn [built_workload negb] in *; [by rewrite Hd4, Hw3|]. by rewrite Hs4, Hnone3. }
  split; [congruence|]. rewrite Hlab, Hspec. split.
  { rewrite Hsel3, Hsel. apply selector_in_template; rewrite ?L1, ?L2, ?L3; f_equal; [done|done|].
    rewrite Hid2. symmetry. by apply Hrow. }
  split. { rewrite Hown. unfold DeployVersion in *. rewrite Hb4. f_equal; [exact Hid2|done|done]. }
  split; [done|].
  assert (main_container a3 = c) as Hmain by (unfold main_container; by rewrite Ht3', Hcs).
  rewrite Hmain in Hsh. rewrite Hcont, Hcs.
  assert (∀ x, shares_mounts c x → vm_Name <$> c_VolumeMounts x ⊆ vol_Name <$> sp_Volumes (pt_Spec t)) as Hgood.
  { intros x [-> | ->]; [done|]. set_solver. }
  split.
  - apply Forall_app_3 in Hsh as (F1 & F2 & F3). rewrite !Forall_app, Forall_singleton.
    repeat split; try exact Hmt; (eapply Forall_impl; [eassumption|exact Hgood]).
  - rewrite !fmap_app, !elem_of_app. right. left. cbn. rewrite Hcn, Hid2. apply list_elem_of_here.
Qed.
End build.

(** ** An example *)

Definition demo_build_app : AppService :=
  empty_app (mkBase "" "" "" "0123456789abcdefghij0123" "" "" "" "" 0 0 "" 0 false false "" [] ∅
     GovernanceModeBuildInServiceMesh).

Abbreviation demo_build := (@build_workload ref_runtime demo_mesh_db demo_pod_db demo_pod_volumes demo_inner_ports demo_plugin_db
  "2021" (λ _, ""%string) (λ _, ∅) demo_unmarshal (λ c, pvc_Storage c) (λ d, get_str d "app.conf") demo_uuid "/runner" ""
  (λ _, (mkResourceSpec [] [] "", true)) (λ _, inr "{}"%string) "" "" "" "" "mesh:1" "probe:1" demo_build_app).

Lemma demo_build_ok : ∃ a w, demo_build = Ok a ∧ deployment a = Some w ∧
  c_Name <$> pt_Containers (wl_Template w) =
    ["plugin-mesh"; "default-tcpmesh-456789abcdefghij0123"; "0123456789abcdefghij0123"; "plugin-log"]%string ∧
  m_Name (wl_meta w) = "0123456789abcdefghij0123-deployment"%string.
Proof. do 2 eexists. split; [vm_compute; reflexivity|]. split; [reflexivity|]. split; reflexivity. Qed.

Lemma workload_admissible_witness : ∃ a w, demo_build = Ok a ∧ deployment a = Some w ∧
  wl_Selector w ⊆ pt_Labels (wl_Template w).
Proof.
  destruct demo_build_ok as (a & w & E & Hw & _).
  destruct (@workload_admissible ref_runtime demo_mesh_db demo_pod_db demo_pod_volumes demo_inner_ports demo_plugin_db
    "2021" (λ _, ""%string) (λ _, ∅) demo_unmarshal (λ c, pvc_Storage c) (λ d, get_str d "app.conf") demo_uuid "/runner" ""
    (λ _, (mkResourceSpec [] [] "", true)) (λ _, inr "{}"%string) "" "" "" "" "mesh:1" "probe:1" demo_supply demo_build_app a
    E eq_refl eq_refl) as (ts & Hts & _ & H).
  - intros sid row [= <-]. reflexivity.
  - intros sid vs [= <-]. exact demo_row_ids.
  - intros sid ts [= <-]. exact demo_mount_ids.
  - injection Hts as <-. destruct H as (w' & Hw' & _ & _ & Hsel & _); [discriminate|].
    change (deployment a = Some w') in Hw'. exists a, w'. split; [exact E|]. split; [exact Hw'|]. exact Hsel.
Defined.
