(* ===== verification/Annotation.v ===== *)
(** * The annotations of an ingress, as the gateway reads them

    [gateway/annotations]: the parsers of strings, booleans and integers, one
    parser for each group of settings, and [Extract], which runs all of them;
    the defaults are those of [gateway/controller/config].  What the worker
    writes ([Gateway.applyHTTPRule], [Gateway.applyTCPRule]) is read here. *)
From S2P Require Import Prelude Variables Kube Ensure Conversion Gateway.

(** ** Parsing one annotation: [annotations/parser] *)

Definition ErrMissingAnnotations : error := EMsg "ingress rule without annotations".
Definition NewInvalidAnnotationContent (name val : string) : error :=
  EMsg ("the annotation " +:+ name +:+ " does not contain a valid value (" +:+ val +:+ ")").

(** [strconv.ParseBool] *)
Definition ParseBool (s : string) : option bool :=
  if decide (s ∈ ["1"; "t"; "T"; "true"; "TRUE"; "True"]%string) then Some true
  else if decide (s ∈ ["0"; "f"; "F"; "false"; "FALSE"; "False"]%string) then Some false
  else None.

Section parser.
Context (annos : gmap string string).

Definition parseString (name : string) : error + string :=
  match annos !! name with Some v => inr v | None => inl ErrMissingAnnotations end.

Definition parseBool (name : string) : error + bool :=
  match annos !! name with
  | Some v => match ParseBool v with Some b => inr b | None => inl (NewInvalidAnnotationContent name v) end
  | None => inl ErrMissingAnnotations
  end.

Definition parseInt (name : string) : error + Z :=
  match annos !! name with
  | Some v => let '(i, ok) := Atoi v in if ok then inr i else inl (NewInvalidAnnotationContent name v)
  | None => inl ErrMissingAnnotations
  end.
End parser.

(** The name is never empty: [GetAnnotationWithPrefix] puts its prefix in front. *)
Definition checkAnnotation (ing : Ingress) : option error :=
  if decide (m_Annotations (ing_meta ing) = ∅) then Some ErrMissingAnnotations else None.

Definition get_annotation {A} (parse : gmap string string → string → error + A) (name : string) (ing : Ingress) :
    error + A :=
  match checkAnnotation ing with
  | Some e => inl e
  | None => parse (m_Annotations (ing_meta ing)) (GetAnnotationWithPrefix name)
  end.

Definition GetBoolAnnotation : string → Ingress → error + bool := get_annotation parseBool.
Definition GetStringAnnotation : string → Ingress → error + string := get_annotation parseString.
Definition GetIntAnnotation : string → Ingress → error + Z := get_annotation parseInt.

(** [strings.HasPrefix] followed by the replacement of the first occurrence of the prefix. *)
Fixpoint strip_prefix (p s : string) : option string :=
  match p, s with
  | EmptyString, _ => Some s
  | String a p', String b s' => if Ascii.ascii_dec a b then strip_prefix p' s' else None
  | String _ _, EmptyString => None
  end.

Definition keep_suffix (v : string) (kv : string * string) : option (string * string) :=
  match strip_prefix v kv.1 with
  | Some k => if decide (k = ""%string) then None else Some (k, kv.2)
  | None => None
  end.

(** The values whose names begin with a prefix, by the rest of the name. *)
Definition GetStringAnnotationWithPrefix (prefix : string) (ing : Ingress) : error + gmap string string :=
  match checkAnnotation ing with
  | Some e => inl e
  | None => inr (list_to_map (omap (keep_suffix (GetAnnotationWithPrefix prefix))
                               (map_to_list (m_Annotations (ing_meta ing)))))
  end.

(** A value that was parsed, or what stands for it. *)
Definition or_default {E A} (d : A) (r : E + A) : A := match r with inr a => a | inl _ => d end.

(** ** Defaults: [config.NewDefault] *)

Record Backend := mkDefaults {
  bk_ProxyBodySize : Z;
  bk_ProxyConnectTimeout : Z;
  bk_ProxySendTimeout : Z;
  bk_ProxyReadTimeout : Z;
  bk_ProxyBuffersNumber : Z;
  bk_ProxyBufferSize : string;
  bk_ProxyCookieDomain : string;
  bk_ProxyCookiePath : string;
  bk_ProxyNextUpstream : string;
  bk_ProxyNextUpstreamTries : Z;
  bk_ProxyNextUpstreamTimeout : Z;
  bk_ProxyRequestBuffering : string;
  bk_ProxyRedirectFrom : string;
  bk_ProxyRedirectTo : string;
  bk_ProxyBuffering : string;
  bk_SSLRedirect : bool;
  bk_ForceSSLRedirect : bool;
  bk_ProxySetHeaders : gmap string string
}.

Definition quote : string := String (Ascii.ascii_of_nat 34) "".

Definition NewDefault : Backend := {|
  bk_ProxyBodySize := 0;
  bk_ProxyConnectTimeout := 5;
  bk_ProxySendTimeout := 60;
  bk_ProxyReadTimeout := 60;
  bk_ProxyBuffersNumber := 4;
  bk_ProxyBufferSize := "4k";
  bk_ProxyCookieDomain := "off";
  bk_ProxyCookiePath := "off";
  bk_ProxyNextUpstream := "error timeout";
  bk_ProxyNextUpstreamTries := 3;
  bk_ProxyNextUpstreamTimeout := 0;
  bk_ProxyRequestBuffering := "on";
  bk_ProxyRedirectFrom := "off";
  bk_ProxyRedirectTo := "off";
  bk_ProxyBuffering := "off";
  bk_SSLRedirect := true;
  bk_ForceSSLRedirect := false;
  bk_ProxySetHeaders := list_to_map [
    ("Host", "$best_http_host"); ("X-Real-IP", "$remote_addr"); ("X-Forwarded-For", "$remote_addr");
    ("X-Forwarded-Host", "$best_http_host"); ("X-Forwarded-Port", "$pass_port");
    ("X-Forwarded-Proto", "$pass_access_scheme"); ("X-Scheme", "$pass_access_scheme");
    ("Proxy", quote +:+ quote)]%string
|}.

(** ** The parsers *)

(** [transform] of [header] and [cookie]: pairs [k=v] between semicolons; a
    pair without a name or a value is skipped. *)
Definition add_pair (m : gmap string string) (item : string) : gmap string string :=
  match split_char 61 item with
  | k :: v :: _ => if decide (k = "" ∨ v = "")%string then m else <[k := v]> m
  | _ => m
  end.

(** The nil map of the code is the empty one: it is returned for no other. *)
Definition transform (target : string) : gmap string string :=
  foldl add_pair ∅ (split_char 59 (drop_spaces target)).

Definition parse_header (ing : Ingress) : error + gmap string string :=
  match GetStringAnnotation "header" ing with inl e => inl e | inr hr => inr (transform hr) end.
Definition parse_cookie (ing : Ingress) : error + gmap string string :=
  match GetStringAnnotation "cookie" ing with inl e => inl e | inr co => inr (transform co) end.

Definition parse_weight (ing : Ingress) : Z :=
  match GetStringAnnotation "weight" ing with
  | inl _ => 1
  | inr wstr => if decide (wstr = ""%string) then 1 else let '(w, ok) := Atoi wstr in if ok then w else 1
  end.

Record L4Config := mkL4 { L4Enable : bool; L4Host : string; L4Port : Z }.

Definition parse_l4 (ing : Ingress) : error + L4Config :=
  let l4Enable := or_default false (GetBoolAnnotation "l4-enable" ing) in
  let l4Host := or_default ""%string (GetStringAnnotation "l4-host" ing) in
  let l4Host := if decide (l4Host = ""%string) then "0.0.0.0"%string else l4Host in
  let l4Port := or_default 0%Z (GetIntAnnotation "l4-port" ing) in
  if l4Enable && bool_decide (l4Port ≤ 0 ∨ 65535 < l4Port)%Z
  then inl (EMsg "error l4Port") else inr (mkL4 l4Enable l4Host l4Port).

Record Rewrite := mkRewrite { rw_Regex : string; rw_Replacement : string; rw_Flag : string }.
Record RewriteConfig := mkRewriteConfig {
  rc_Rewrites : list Rewrite;
  rc_Target : string;
  rc_SSLRedirect : bool;
  rc_ForceSSLRedirect : bool;
  rc_AppRoot : string;
  rc_UseRegex : bool
}.

Section rewrite.
Context `{GoRuntime}.

Definition put_rewrite (m : gmap string Rewrite) (kv : string * string) : gmap string Rewrite :=
  match split_char 45 kv.1 with
  | name :: part :: _ =>
    let r := default (mkRewrite "" "" "") (m !! name) in
    <[name := if decide (part = "regex"%string) then mkRewrite kv.2 (rw_Replacement r) (rw_Flag r)
              else if decide (part = "replacement"%string) then mkRewrite (rw_Regex r) kv.2 (rw_Flag r)
              else if decide (part = "flag"%string) then mkRewrite (rw_Regex r) (rw_Replacement r) kv.2
              else r]> m
  | _ => m
  end.

Definition convert (in_ : gmap string string) : list Rewrite :=
  (range_order (foldl put_rewrite ∅ (range_order in_))).*2.

Definition parse_rewrite (ing : Ingress) : RewriteConfig :=
  mkRewriteConfig (convert (or_default ∅ (GetStringAnnotationWithPrefix "rewrite-" ing)))
    (or_default ""%string (GetStringAnnotation "rewrite-target" ing))
    (or_default (bk_SSLRedirect NewDefault) (GetBoolAnnotation "ssl-redirect" ing))
    (or_default (bk_ForceSSLRedirect NewDefault) (GetBoolAnnotation "force-ssl-redirect" ing))
    (or_default ""%string (GetStringAnnotation "app-root" ing))
    (or_default false (GetBoolAnnotation "use-regex" ing)).
End rewrite.

Record ProxyConfig := mkProxy {
  px_BodySize : Z;
  px_ConnectTimeout : Z;
  px_SendTimeout : Z;
  px_ReadTimeout : Z;
  px_BuffersNumber : Z;
  px_BufferSize : string;
  px_CookieDomain : string;
  px_CookiePath : string;
  px_NextUpstream : string;
  px_NextUpstreamTimeout : Z;
  px_NextUpstreamTries : Z;
  px_ProxyRedirectFrom : string;
  px_ProxyRedirectTo : string;
  px_RequestBuffering : string;
  px_ProxyBuffering : string;
  px_SetHeaders : gmap string string
}.
#[export] Instance eta_ProxyConfig : Eta ProxyConfig := λ p,
  mkProxy (px_BodySize p) (px_ConnectTimeout p) (px_SendTimeout p) (px_ReadTimeout p) (px_BuffersNumber p)
    (px_BufferSize p) (px_CookieDomain p) (px_CookiePath p) (px_NextUpstream p) (px_NextUpstreamTimeout p)
    (px_NextUpstreamTries p) (px_ProxyRedirectFrom p) (px_ProxyRedirectTo p) (px_RequestBuffering p)
    (px_ProxyBuffering p) (px_SetHeaders p).
#[export] Instance ProxyConfig_eq_dec : EqDecision ProxyConfig.
Proof. solve_decision. Defined.

(** The configuration of an ingress whose annotations were never read. *)
Definition zero_proxy : ProxyConfig := mkProxy 0 0 0 0 0 "" "" "" "" 0 0 "" "" "" "" ∅.

(** The value [empty] stands for the empty one; what the ingress sets goes before the default. *)
Definition set_headers (own : gmap string string) : gmap string string :=
  ((λ v, if decide (v = "empty"%string) then ""%string else v) <$> own) ∪ bk_ProxySetHeaders NewDefault.

Definition parse_proxy (ing : Ingress) : ProxyConfig := {|
  px_BodySize := or_default (bk_ProxyBodySize NewDefault) (GetIntAnnotation "proxy-body-size" ing);
  px_ConnectTimeout := or_default (bk_ProxyConnectTimeout NewDefault) (GetIntAnnotation "proxy-connect-timeout" ing);
  px_SendTimeout := or_default (bk_ProxySendTimeout NewDefault) (GetIntAnnotation "proxy-send-timeout" ing);
  px_ReadTimeout := or_default (bk_ProxyReadTimeout NewDefault) (GetIntAnnotation "proxy-read-timeout" ing);
  px_BuffersNumber := or_default (bk_ProxyBuffersNumber NewDefault) (GetIntAnnotation "proxy-buffers-number" ing);
  px_BufferSize := or_default (bk_ProxyBufferSize NewDefault) (GetStringAnnotation "proxy-buffer-size" ing);
  px_CookieDomain := or_default (bk_ProxyCookieDomain NewDefault) (GetStringAnnotation "proxy-cookie-domain" ing);
  px_CookiePath := or_default (bk_ProxyCookiePath NewDefault) (GetStringAnnotation "proxy-cookie-path" ing);
  px_NextUpstream := or_default (bk_ProxyNextUpstream NewDefault) (GetStringAnnotation "proxy-next-upstream" ing);
  px_NextUpstreamTimeout :=
    or_default (bk_ProxyNextUpstreamTimeout NewDefault) (GetIntAnnotation "proxy-next-upstream-timeout" ing);
  px_NextUpstreamTries :=
    or_default (bk_ProxyNextUpstreamTries NewDefault) (GetIntAnnotation "proxy-next-upstream-tries" ing);
  px_ProxyRedirectFrom := or_default (bk_ProxyRedirectFrom NewDefault) (GetStringAnnotation "proxy-redirect-from" ing);
  px_ProxyRedirectTo := or_default (bk_ProxyRedirectTo NewDefault) (GetStringAnnotation "proxy-redirect-to" ing);
  px_RequestBuffering :=
    or_default (bk_ProxyRequestBuffering NewDefault) (GetStringAnnotation "proxy-request-buffering" ing);
  px_ProxyBuffering := or_default (bk_ProxyBuffering NewDefault) (GetStringAnnotation "proxy-buffering" ing);
  px_SetHeaders := set_headers (or_default ∅ (GetStringAnnotationWithPrefix "set-header-" ing))
|}.

Definition parse_upstreamhashby : Ingress → error + string := GetStringAnnotation "upstream-hash-by".
Definition parse_lbtype : Ingress → error + string := GetStringAnnotation "lb-type".

(** ** [Extract] *)

(** [annotations.Ingress]; a header or cookie map that is nil is empty. *)
Record Annotations := mkAnns {
  an_meta : ObjectMeta;
  an_Header : gmap string string;
  an_Cookie : gmap string string;
  an_Weight : Z;
  an_Rewrite : RewriteConfig;
  an_L4 : L4Config;
  an_UpstreamHashBy : string;
  an_LoadBalancingType : string;
  an_Proxy : ProxyConfig
}.

Definition zero_rewrite : RewriteConfig := mkRewriteConfig [] "" false false "" false.

(** The value of a parser that fails is left out, and the field keeps its
    zero: none of the errors is of the kind that denies a location.  The
    fields are set by [mergo.MapWithOverwrite] on a record that holds only the
    metadata. *)
Definition Extract `{GoRuntime} (ing : Ingress) : Annotations := {|
  an_meta := ing_meta ing;
  an_Header := or_default ∅ (parse_header ing);
  an_Cookie := or_default ∅ (parse_cookie ing);
  an_Weight := parse_weight ing;
  an_Rewrite := parse_rewrite ing;
  an_L4 := or_default (mkL4 false "" 0) (parse_l4 ing);
  an_UpstreamHashBy := or_default ""%string (parse_upstreamhashby ing);
  an_LoadBalancingType := or_default ""%string (parse_lbtype ing);
  an_Proxy := parse_proxy ing
|}.

Example transform_demo : transform "k1=v1; k2 = v2;=x;k3;k2=v3" = {["k1" := "v1"; "k2" := "v3"]}%string.
Proof. vm_compute. reflexivity. Qed.
