(* ===== verification/AnnotationSpec.v ===== *)
(** * What the gateway reads of what the worker writes

    Theorems about [Annotation]: the pairs of headers and cookies, the range of
    ports, and that the ingresses of [Gateway.applyTCPRule] and
    [Gateway.applyHTTPRule] are read back as the rules they come from. *)
From stdpp Require Import pretty.
From S2P Require Import Prelude Kube AppService Ensure Conversion Gateway GatewaySpec EventFile Variables Annotation.

(** ** Pairs *)

Definition plain (s : string) : Prop :=
  s ≠ ""%string ∧ has_char 32 s = false ∧ has_char 59 s = false ∧ has_char 61 s = false.

Definition semicolon : string := String (Ascii.ascii_of_nat 59) "".
Definition equals : string := String (Ascii.ascii_of_nat 61) "".

Definition print_pair (kv : string * string) : string := (kv.1 +:+ equals +:+ kv.2)%string.
Definition print_pairs (l : list (string * string)) : string := String.concat semicolon (print_pair <$> l).

Lemma split_char_none n s : has_char n s = false → split_char n s = [s].
Proof.
  induction s as [|c s IH]; [done|]. cbn [has_char split_char]. intros [Hc Hs]%orb_false_iff.
  by rewrite Hc, IH.
Qed.

Lemma split_char_sep n s t : has_char n s = false →
  split_char n (s +:+ String (Ascii.ascii_of_nat n) t) = if decide (n < 256) then s :: split_char n t else split_char n (s +:+ String (Ascii.ascii_of_nat n) t).
Proof.
  case_decide as Hn; [|done]. induction s as [|c s IH]; intros Hs.
  - change ("" +:+ ?x) with x. cbn [split_char]. unfold char_is at 1. rewrite Ascii.nat_ascii_embedding by done.
    by rewrite bool_decide_eq_true_2.
  - cbn [has_char] in Hs. apply orb_false_iff in Hs as [Hc Hs].
    change (String c s +:+ ?x) with (String c (s +:+ x)). cbn [split_char]. by rewrite Hc, IH.
Qed.

Lemma drop_spaces_none s : has_char 32 s = false → drop_spaces s = s.
Proof.
  induction s as [|c s IH]; [done|]. cbn [has_char drop_spaces]. intros [Hc Hs]%orb_false_iff.
  unfold char_is in Hc. apply bool_decide_eq_false in Hc. rewrite decide_False by done. by rewrite IH.
Qed.

Lemma concat_cons sep x y l : String.concat sep (x :: y :: l) = (x +:+ sep +:+ String.concat sep (y :: l))%string.
Proof. done. Qed.

Lemma has_char_pair n kv : n ≠ 61 → has_char n (print_pair kv) = has_char n kv.1 || has_char n kv.2.
Proof.
  intros Hn. unfold print_pair. rewrite !has_char_app. cbn [equals has_char].
  assert (char_is n (Ascii.ascii_of_nat 61) = false) as ->; [|by rewrite orb_false_l].
  apply bool_decide_eq_false. by vm_compute Ascii.nat_of_ascii.
Qed.

Lemma plain_pair kv : plain kv.1 → plain kv.2 →
  has_char 32 (print_pair kv) = false ∧ has_char 59 (print_pair kv) = false ∧
  ∀ m, add_pair m (print_pair kv) = <[kv.1 := kv.2]> m.
Proof.
  intros (K0 & K1 & K2 & K3) (V0 & V1 & V2 & V3). rewrite !has_char_pair by done.
  rewrite K1, K2, V1, V2. split; [done|]. split; [done|]. intros m. unfold add_pair, print_pair, equals.
  change (String (Ascii.ascii_of_nat 61) "" +:+ kv.2) with (String (Ascii.ascii_of_nat 61) kv.2).
  rewrite split_char_sep by done. rewrite decide_True by lia. rewrite split_char_none by done.
  rewrite decide_False; [done|]. by intros [?|?].
Qed.

Lemma split_pairs l : Forall (λ kv, plain kv.1 ∧ plain kv.2) l → l ≠ [] →
  has_char 32 (print_pairs l) = false ∧ split_char 59 (print_pairs l) = print_pair <$> l.
Proof.
  intros Hl Hne. unfold print_pairs. induction Hl as [|x l [Hk Hv] Hl IH]; [done|].
  destruct (plain_pair x Hk Hv) as (H1 & H2 & _). destruct l as [|y l].
  - cbn. split; [done|]. by apply split_char_none.
  - rewrite !fmap_cons, concat_cons. destruct IH as [H3 H4]; [done|]. rewrite fmap_cons in H3, H4.
    split; [by rewrite !has_char_app, H1, H3|]. unfold semicolon at 1.
    change (String (Ascii.ascii_of_nat 59) "" +:+ ?s) with (String (Ascii.ascii_of_nat 59) s).
    rewrite split_char_sep by done. rewrite decide_True by lia. by rewrite H4.
Qed.

(** Pairs printed as [k=v;k=v] are read back: each name has the
    value printed last for it, if names and values are not empty and hold no
    space, no semicolon and no equals sign. *)
Theorem transform_parses (l : list (string * string)) (Hl : Forall (λ kv, plain kv.1 ∧ plain kv.2) l) :
  transform (print_pairs l) = foldl (λ m kv, <[kv.1 := kv.2]> m) ∅ l.
Proof.
  destruct l as [|x l]; [done|]. destruct (split_pairs (x :: l) Hl) as [H1 H2]; [done|].
  unfold transform. rewrite drop_spaces_none, H2 by done. generalize (∅ : gmap string string). clear H1 H2.
  induction Hl as [|y l' [Hk Hv] Hl IH]; [done|]. intros m. rewrite fmap_cons. cbn [foldl].
  destruct (plain_pair y Hk Hv) as (_ & _ & ->). apply IH.
Qed.

(** ** Ports *)

(** Whatever the annotations of an ingress say, a port the
    gateway accepts for it is a TCP port. *)
Theorem l4_port_in_range `{GoRuntime} (ing : Ingress) (He : L4Enable (an_L4 (Extract ing)) = true) :
  (1 ≤ L4Port (an_L4 (Extract ing)) ≤ 65535)%Z.
Proof.
  revert He. cbn [Extract an_L4]. unfold parse_l4.
  destruct (or_default false _); [|done]. cbn [andb].
  destruct (bool_decide_reflect ((or_default 0%Z (GetIntAnnotation "l4-port" ing) ≤ 0 ∨
    65535 < or_default 0%Z (GetIntAnnotation "l4-port" ing))%Z)) as [H'|H']; [done|]. cbn. lia.
Qed.

(** ** Rules *)

Lemma annotation_ne a b : a ≠ b → GetAnnotationWithPrefix a ≠ GetAnnotationWithPrefix b.
Proof. intros H E. apply H. exact (inj (String.append "nginx.ingress.kubernetes.io/") _ _ E). Qed.

Ltac lookup_annotation :=
  repeat first
    [ rewrite lookup_insert_eq
    | rewrite lookup_insert_ne by (apply annotation_ne; discriminate)
    | rewrite lookup_singleton_eq
    | rewrite lookup_singleton_ne by (apply annotation_ne; discriminate) ].

Lemma get_some {A} (parse : gmap string string → string → error + A) name ing :
  m_Annotations (ing_meta ing) ≠ ∅ →
  get_annotation parse name ing = parse (m_Annotations (ing_meta ing)) (GetAnnotationWithPrefix name).
Proof. intros H. unfold get_annotation, checkAnnotation. by rewrite decide_False. Qed.

(** Without annotations nothing is found either way. *)
Lemma get_string name ing : GetStringAnnotation name ing =
  parseString (m_Annotations (ing_meta ing)) (GetAnnotationWithPrefix name).
Proof.
  unfold GetStringAnnotation, get_annotation, checkAnnotation. case_decide as E; [|done].
  unfold parseString. by rewrite E, lookup_empty.
Qed.
Lemma get_bool name ing : GetBoolAnnotation name ing =
  parseBool (m_Annotations (ing_meta ing)) (GetAnnotationWithPrefix name).
Proof.
  unfold GetBoolAnnotation, get_annotation, checkAnnotation. case_decide as E; [|done].
  unfold parseBool. by rewrite E, lookup_empty.
Qed.
Lemma get_int name ing : GetIntAnnotation name ing =
  parseInt (m_Annotations (ing_meta ing)) (GetAnnotationWithPrefix name).
Proof.
  unfold GetIntAnnotation, get_annotation, checkAnnotation. case_decide as E; [|done].
  unfold parseInt. by rewrite E, lookup_empty.
Qed.

(** The ingress that the worker makes of a TCP rule is read by
    the gateway as that rule: its address, [0.0.0.0] if it has none, and its
    port.  A port outside 1 to 65535 turns the annotation off: the gateway then takes the
    ingress for one of a host without rules. *)
Theorem tcp_rule_understood `{GoRuntime} (a : AppServiceBuild) (rule : TCPRule) (service : Service) (ns : string)
    (ing : Ingress) (Hing : applyTCPRule a rule service ns = Ok ing) (Hport : in_int64 (tr_Port rule)) :
  an_L4 (Extract ing) =
    (if decide (1 ≤ tr_Port rule ≤ 65535)%Z
     then mkL4 true (if decide (tr_IP rule = ""%string) then "0.0.0.0" else tr_IP rule) (tr_Port rule)
     else mkL4 false "" 0) ∧
  ing_Rules ing = [].
Proof.
  unfold applyTCPRule in Hing. destruct (svc_Ports service) as [|p ps]; [done|]. injection Hing as <-.
  split; [|done]. cbn [Extract an_L4]. unfold parse_l4. rewrite get_bool, get_string, get_int.
  cbn [ing_meta]. unfold parseBool, parseString, parseInt.
  match goal with |- context [m_Annotations ?m] => set (ann := m_Annotations m) end.
  assert (ann !! GetAnnotationWithPrefix "l4-enable" = Some "true"%string ∧
          ann !! GetAnnotationWithPrefix "l4-host" = Some (tr_IP rule) ∧
          ann !! GetAnnotationWithPrefix "l4-port" = Some (pretty (tr_Port rule))) as (H1 & H2 & H3).
  { unfold ann. cbn. repeat split; lookup_annotation; done. }
  rewrite H1, H2, H3, Atoi_pretty by done.
  change (or_default false _) with true. cbn [andb or_default].
  destruct (decide (1 ≤ tr_Port rule ≤ 65535)%Z) as [Hr|Hr].
  - rewrite bool_decide_eq_false_2 by lia. done.
  - by rewrite bool_decide_eq_true_2 by lia.
Qed.

(** *** Names with a prefix *)

Lemma strip_prefix_spec p s r : strip_prefix p s = Some r ↔ s = (p +:+ r)%string.
Proof.
  revert s. induction p as [|c p IH]; intros s; [split; [by intros [= ->]|by intros ->]|].
  change (String c p +:+ r) with (String c (p +:+ r)). destruct s as [|d s]; [done|]. cbn [strip_prefix].
  destruct (Ascii.ascii_dec c d) as [->|Hne].
  - rewrite IH. split; [by intros ->|by intros [= ->]].
  - split; [done|]. by intros [=].
Qed.

Lemma keep_suffix_spec v kv k x : keep_suffix v kv = Some (k, x) ↔ kv = ((v +:+ k)%string, x) ∧ k ≠ ""%string.
Proof.
  destruct kv as [n y]. unfold keep_suffix. cbn [fst snd]. destruct (strip_prefix v n) as [r|] eqn:E.
  - apply strip_prefix_spec in E. subst n. case_decide as Hr.
    + split; [done|]. intros [[= Hn ->] Hk]. apply (inj (String.append v)) in Hn. by subst.
    + split; [by intros [= -> ->]|]. intros [[= Hn ->] Hk]. apply (inj (String.append v)) in Hn. by subst.
  - split; [done|]. intros [[= -> ->] _]. assert (strip_prefix v (v +:+ k) = Some k) by by apply strip_prefix_spec.
    congruence.
Qed.

Lemma suffix_map_lookup v (m : gmap string string) k : k ≠ ""%string →
  (list_to_map (omap (keep_suffix v) (map_to_list m)) : gmap string string) !! k = m !! (v +:+ k)%string.
Proof.
  intros Hk. set (l := omap (keep_suffix v) (map_to_list m)).
  assert (∀ n x, (n, x) ∈ l ↔ m !! (v +:+ n)%string = Some x ∧ n ≠ ""%string) as Hin.
  { intros n x. unfold l. rewrite list_elem_of_omap. split.
    - intros (kv & Hkv & [-> Hn]%keep_suffix_spec). by apply elem_of_map_to_list in Hkv.
    - intros [Hm Hn]. exists ((v +:+ n)%string, x). split; [by apply elem_of_map_to_list|].
      by apply keep_suffix_spec. }
  assert (∀ n x y, (n, x) ∈ l → (n, y) ∈ l → x = y) as Hfun.
  { intros n x y [Hx _]%Hin [Hy _]%Hin. congruence. }
  destruct (m !! (v +:+ k)%string) as [x|] eqn:E.
  - apply elem_of_list_to_map_1'; [|by apply Hin]. intros y Hy. apply (Hfun k); [by apply Hin|done].
  - apply not_elem_of_list_to_map_1. intros ([n y] & -> & Hy)%list_elem_of_fmap. cbn in E.
    apply Hin in Hy as [Hy _]. congruence.
Qed.

Lemma get_with_prefix p ing k : k ≠ ""%string →
  or_default ∅ (GetStringAnnotationWithPrefix p ing) !! k =
  m_Annotations (ing_meta ing) !! GetAnnotationWithPrefix (p +:+ k).
Proof.
  intros Hk. unfold GetStringAnnotationWithPrefix, checkAnnotation. case_decide as E.
  - by rewrite E, !lookup_empty.
  - cbn [or_default]. rewrite suffix_map_lookup by done. unfold GetAnnotationWithPrefix. by rewrite app_assoc_str.
Qed.

(** *** Rules of hosts *)

(** The settings of a rule, [proxy-...] and [set-header-...]. *)
Definition setting_key (k : string) : bool := String.prefix "proxy-" k || String.prefix "set-header-" k.

Lemma setting_key_ne k k' : setting_key k = true → setting_key k' = false →
  GetAnnotationWithPrefix k ≠ GetAnnotationWithPrefix k'.
Proof. intros H H'. apply annotation_ne. intros ->. congruence. Qed.

Definition put_setting (m : gmap string string) (cfg : string * string) : gmap string string :=
  <[GetAnnotationWithPrefix cfg.1 := cfg.2]> m.

Lemma settings_other l m k : k ∉ (GetAnnotationWithPrefix ∘ fst) <$> l → foldl put_setting m l !! k = m !! k.
Proof.
  revert m. induction l as [|x l IH]; intros m; [done|]. rewrite fmap_cons, not_elem_of_cons. intros [Hx Hl].
  cbn [foldl]. rewrite IH by done. unfold put_setting. apply lookup_insert_ne. intros E. by apply Hx.
Qed.

Lemma settings_lookup l m k : NoDup l.*1 →
  foldl put_setting m l !! GetAnnotationWithPrefix k =
  match (list_to_map l : gmap string string) !! k with Some v => Some v | None => m !! GetAnnotationWithPrefix k end.
Proof.
  revert m. induction l as [|[n v] l IH]; intros m Hnd; [by rewrite list_to_map_nil, lookup_empty|].
  rewrite fmap_cons, NoDup_cons in Hnd. destruct Hnd as [Hn Hnd]. rewrite list_to_map_cons. cbn [foldl].
  rewrite IH by done. unfold put_setting. cbn [fst snd]. destruct (decide (n = k)) as [->|Hne].
  - rewrite (not_elem_of_list_to_map_1 l) by done. by rewrite !lookup_insert_eq.
  - rewrite (lookup_insert_ne _ n k) by done. destruct (_ !! k); [done|].
    rewrite lookup_insert_ne; [done|]. by apply annotation_ne.
Qed.

Section http.
Context (gdb : GatewayDB) (EX_DOMAIN : string) (secret_rest : gmap string string → opaque).

(** What the settings of a rule leave of its other annotations, and what they add. *)
Lemma http_annotations a rule cp pp service ing sec exts configs :
  applyHTTPRule gdb EX_DOMAIN secret_rest a rule cp pp service = Ok (ing, sec) →
  gd_extensions gdb (hr_UUID rule) = inr exts → gd_configs gdb (hr_UUID rule) = inr configs →
  m_Annotations (ing_meta ing) = foldl put_setting (foldl (apply_extension rule) (rule_annotations rule) exts) configs.
Proof.
  intros Hing Hext Hcfg. unfold applyHTTPRule in Hing.
  apply then_do_ok in Hing as (dom & _ & Hing). apply then_do_ok in Hing as (sc & _ & Hing).
  rewrite Hext, Hcfg in Hing. by injection Hing as <- _.
Qed.

Lemma extension_other rule m ext k :
  k ≠ "force-ssl-redirect"%string → k ≠ "upstream-hash-by"%string → k ≠ "lb-type"%string →
  apply_extension rule m ext !! GetAnnotationWithPrefix k = m !! GetAnnotationWithPrefix k.
Proof.
  intros H1 H2 H3. destruct ext as [key value]. unfold apply_extension.
  repeat case_decide; try done; try (by rewrite lookup_insert_ne by (apply annotation_ne; congruence)).
  destruct (String.prefix _ _); [destruct (second_field value); [|done]|];
    by rewrite lookup_insert_ne by (apply annotation_ne; congruence).
Qed.

Lemma extensions_other rule exts m k :
  k ≠ "force-ssl-redirect"%string → k ≠ "upstream-hash-by"%string → k ≠ "lb-type"%string →
  foldl (apply_extension rule) m exts !! GetAnnotationWithPrefix k = m !! GetAnnotationWithPrefix k.
Proof.
  intros H1 H2 H3. revert m. induction exts as [|x exts IH]; intros m; [done|]. cbn [foldl].
  rewrite IH. by apply extension_other.
Qed.

Lemma extension_redirect rule m ext :
  apply_extension rule m ext !! GetAnnotationWithPrefix "force-ssl-redirect" =
  if decide (ext.1 = "httptohttps"%string ∧ hr_CertificateID rule ≠ ""%string) then Some "true"%string
  else m !! GetAnnotationWithPrefix "force-ssl-redirect".
Proof.
  destruct ext as [key value]. unfold apply_extension. cbn [fst].
  destruct (decide (key = "httptohttps"%string)) as [->|Hk].
  - destruct (decide (hr_CertificateID rule = ""%string)) as [Hc|Hc].
    + rewrite decide_False; [done|]. by intros [_ H].
    + rewrite decide_True by done. by rewrite lookup_insert_eq.
  - rewrite (decide_False (P := _ ∧ _)) by (by intros [H _]). case_decide; [|done].
    destruct (String.prefix _ _); [destruct (second_field value); [|done]|];
      by rewrite lookup_insert_ne by (apply annotation_ne; discriminate).
Qed.

Lemma extensions_redirect rule exts m :
  foldl (apply_extension rule) m exts !! GetAnnotationWithPrefix "force-ssl-redirect" =
  if decide ("httptohttps"%string ∈ exts.*1 ∧ hr_CertificateID rule ≠ ""%string) then Some "true"%string
  else m !! GetAnnotationWithPrefix "force-ssl-redirect".
Proof.
  revert m. induction exts as [|x exts IH]; intros m; cbn [foldl].
  { rewrite decide_False; [done|]. intros [H _]. by apply elem_of_nil in H. }
  rewrite IH, extension_redirect, fmap_cons.
  destruct (decide ("httptohttps"%string ∈ exts.*1 ∧ hr_CertificateID rule ≠ ""%string)) as [[H1 H2]|H1].
  - rewrite decide_True; [done|]. split; [by apply list_elem_of_further|done].
  - destruct (decide (x.1 = "httptohttps"%string ∧ hr_CertificateID rule ≠ ""%string)) as [[H2 H3]|H2].
    + rewrite decide_True; [done|]. split; [rewrite <- H2; by apply list_elem_of_here|done].
    + rewrite decide_False; [done|]. intros [[H3|H3]%elem_of_cons H4]; [|by apply H1]. by apply H2.
Qed.

Lemma rule_annotation_lookup rule :
  rule_annotations rule !! GetAnnotationWithPrefix "header" =
    (if nonempty_string (hr_Header rule) then Some (hr_Header rule) else None) ∧
  rule_annotations rule !! GetAnnotationWithPrefix "cookie" =
    (if nonempty_string (hr_Cookie rule) then Some (hr_Cookie rule) else None) ∧
  rule_annotations rule !! GetAnnotationWithPrefix "weight" =
    (if bool_decide (1 < hr_Weight rule)%Z then Some (pretty (hr_Weight rule)) else None).
Proof.
  unfold rule_annotations, set_if.
  destruct (nonempty_string (hr_Cookie rule)), (nonempty_string (hr_Header rule)), (bool_decide _);
    repeat split; lookup_annotation; done.
Qed.

Lemma rule_annotation_other rule k : k ∉ ["header"; "cookie"; "weight"]%string →
  rule_annotations rule !! GetAnnotationWithPrefix k = None.
Proof.
  intros Hk. unfold rule_annotations, set_if. rewrite !not_elem_of_cons in Hk. destruct Hk as (H1 & H2 & H3 & _).
  destruct (nonempty_string (hr_Cookie rule)), (nonempty_string (hr_Header rule)), (bool_decide _);
    rewrite ?lookup_insert_ne by (apply annotation_ne; congruence); done.
Qed.
End http.

(** *** What the gateway makes of a rule *)

Lemma suffix_map_none v (m : gmap string string) :
  (list_to_map (omap (keep_suffix v) (map_to_list m)) : gmap string string) !! ""%string = None.
Proof.
  apply not_elem_of_list_to_map_1. intros ([n y] & Hn & Hy)%list_elem_of_fmap. cbn in Hn. subst n.
  apply list_elem_of_omap in Hy as (kv & _ & [_ Hk]%keep_suffix_spec). done.
Qed.

(** The settings of a rule by name, and the proxy configuration they ask for. *)
Section wanted.
Context (settings : gmap string string).

Definition str_setting (name d : string) : string := default d (settings !! name).
Definition int_setting (name : string) (d : Z) : Z :=
  match settings !! name with Some v => let '(i, ok) := Atoi v in if ok then i else d | None => d end.

Definition wanted_headers : gmap string string :=
  set_headers (list_to_map (omap (keep_suffix "set-header-") (map_to_list settings))).

Definition wanted_proxy : ProxyConfig := {|
  px_BodySize := int_setting "proxy-body-size" 0;
  px_ConnectTimeout := int_setting "proxy-connect-timeout" 5;
  px_SendTimeout := int_setting "proxy-send-timeout" 60;
  px_ReadTimeout := int_setting "proxy-read-timeout" 60;
  px_BuffersNumber := int_setting "proxy-buffers-number" 4;
  px_BufferSize := str_setting "proxy-buffer-size" "4k";
  px_CookieDomain := str_setting "proxy-cookie-domain" "off";
  px_CookiePath := str_setting "proxy-cookie-path" "off";
  px_NextUpstream := str_setting "proxy-next-upstream" "error timeout";
  px_NextUpstreamTimeout := int_setting "proxy-next-upstream-timeout" 0;
  px_NextUpstreamTries := int_setting "proxy-next-upstream-tries" 3;
  px_ProxyRedirectFrom := str_setting "proxy-redirect-from" "off";
  px_ProxyRedirectTo := str_setting "proxy-redirect-to" "off";
  px_RequestBuffering := str_setting "proxy-request-buffering" "on";
  px_ProxyBuffering := str_setting "proxy-buffering" "off";
  px_SetHeaders := wanted_headers
|}.
End wanted.

Lemma parse_str annos settings k d : annos !! GetAnnotationWithPrefix k = settings !! k →
  or_default d (parseString annos (GetAnnotationWithPrefix k)) = str_setting settings k d.
Proof. unfold parseString, str_setting. intros ->. by destruct (settings !! k). Qed.

Lemma parse_num annos settings k d : annos !! GetAnnotationWithPrefix k = settings !! k →
  or_default d (parseInt annos (GetAnnotationWithPrefix k)) = int_setting settings k d.
Proof.
  unfold parseInt, int_setting. intros ->. destruct (settings !! k) as [v|]; [|done]. by destruct (Atoi v) as [i []].
Qed.

Lemma proxy_from_settings ing settings :
  (∀ k, setting_key k = true → m_Annotations (ing_meta ing) !! GetAnnotationWithPrefix k = settings !! k) →
  parse_proxy ing = wanted_proxy settings.
Proof.
  intros Hs. unfold parse_proxy, wanted_proxy. rewrite !get_int, !get_string.
  rewrite !(parse_num _ settings), !(parse_str _ settings) by (apply Hs; reflexivity).
  assert (set_headers (or_default ∅ (GetStringAnnotationWithPrefix "set-header-" ing)) = wanted_headers settings) as ->;
    [|reflexivity].
  unfold wanted_headers. f_equal. apply map_eq. intros h. destruct (decide (h = ""%string)) as [->|Hh].
  - rewrite suffix_map_none. unfold GetStringAnnotationWithPrefix, checkAnnotation. case_decide; [done|].
    apply suffix_map_none.
  - rewrite get_with_prefix, suffix_map_lookup by done. apply Hs. unfold setting_key.
    apply orb_true_iff. right. clear Hs. by destruct h.
Qed.

Section http_rule.
Context `{GoRuntime} (gdb : GatewayDB) (EX_DOMAIN : string) (secret_rest : gmap string string → opaque).

(** How the gateway reads the ingress of an HTTP rule, for the composition with the tables too. *)
Lemma http_rule_read (a : AppServiceBuild) (rule : HTTPRule) (cp pp : Z) (service : Service)
    (ing : Ingress) (sec : option Secret) (exts configs : list (string * string))
    (Hing : applyHTTPRule gdb EX_DOMAIN secret_rest a rule cp pp service = Ok (ing, sec))
    (Hext : gd_extensions gdb (hr_UUID rule) = inr exts) (Hcfg : gd_configs gdb (hr_UUID rule) = inr configs)
    (Hkeys : Forall (λ c, setting_key c.1 = true) configs) (Hnd : NoDup configs.*1)
    (Hw : in_int64 (hr_Weight rule)) :
  let an := Extract ing in
  L4Enable (an_L4 an) = false ∧
  an_Header an = transform (hr_Header rule) ∧
  an_Cookie an = transform (hr_Cookie rule) ∧
  an_Weight an = Z.max 1 (hr_Weight rule) ∧
  rc_ForceSSLRedirect (an_Rewrite an) =
    bool_decide ("httptohttps"%string ∈ exts.*1 ∧ hr_CertificateID rule ≠ ""%string) ∧
  an_Proxy an = wanted_proxy (list_to_map configs).
Proof.
  pose proof (http_annotations gdb EX_DOMAIN secret_rest _ _ _ _ _ _ _ _ _ Hing Hext Hcfg) as Hann.
  assert (∀ k, setting_key k = false → m_Annotations (ing_meta ing) !! GetAnnotationWithPrefix k =
    foldl (apply_extension rule) (rule_annotations rule) exts !! GetAnnotationWithPrefix k) as Hown.
  { intros k Hk. rewrite Hann. apply settings_other. intros (c & Hc & Hin)%list_elem_of_fmap.
    rewrite Forall_forall in Hkeys. apply (setting_key_ne c.1 k); [by apply Hkeys|done|by symmetry]. }
  assert (∀ k, setting_key k = false → k ≠ "force-ssl-redirect"%string → k ≠ "upstream-hash-by"%string →
    k ≠ "lb-type"%string → m_Annotations (ing_meta ing) !! GetAnnotationWithPrefix k =
    rule_annotations rule !! GetAnnotationWithPrefix k) as Hrule.
  { intros k H1 H2 H3 H4. rewrite Hown by done. by apply extensions_other. }
  destruct (rule_annotation_lookup rule) as (Hh & Hc & Hweight).
  unfold Extract. cbn [an_L4 an_Header an_Cookie an_Weight an_Rewrite an_Proxy].
  split; [|split; [|split; [|split; [|split]]]].
  - unfold parse_l4. rewrite get_bool. unfold parseBool.
    rewrite Hrule, rule_annotation_other by (reflexivity || discriminate || (by apply (bool_decide_unpack _))). done.
  - unfold parse_header. rewrite get_string. unfold parseString. rewrite Hrule, Hh by (reflexivity || discriminate).
    by destruct (hr_Header rule).
  - unfold parse_cookie. rewrite get_string. unfold parseString. rewrite Hrule, Hc by (reflexivity || discriminate).
    by destruct (hr_Cookie rule).
  - unfold parse_weight. rewrite get_string. unfold parseString.
    rewrite Hrule, Hweight by (reflexivity || discriminate).
    destruct (bool_decide_reflect (1 < hr_Weight rule)%Z); [|lia].
    destruct (pretty_nonempty (hr_Weight rule)) as (c & s & E). rewrite decide_False by (rewrite E; discriminate).
    rewrite Atoi_pretty by done. lia.
  - unfold parse_rewrite. cbn [rc_ForceSSLRedirect]. rewrite get_bool. unfold parseBool.
    rewrite Hown, extensions_redirect, rule_annotation_other by (reflexivity || (by apply (bool_decide_unpack _))).
    clear Hweight Hh Hc. case_bool_decide as Hd.
    + by rewrite (decide_True _ _ Hd).
    + by rewrite (decide_False _ _ Hd).
  - apply proxy_from_settings. intros k Hk.
    assert (∀ n, setting_key n = false → k ≠ n) as Hne by (intros n Hn ->; congruence).
    rewrite Hann, settings_lookup by done. destruct ((list_to_map configs : gmap string string) !! k); [done|].
    rewrite extensions_other by (apply Hne; reflexivity). apply rule_annotation_other.
    rewrite !not_elem_of_cons. split_and!; try (apply Hne; reflexivity). apply not_elem_of_nil.
Qed.

(** C24 (roundtrip): the ingress that the worker makes of an HTTP rule is read
    by the gateway as that rule.  It is no port of its own; its header and
    cookie conditions and its weight (at least one) are the rule's; it
    redirects to HTTPS if the rule has the extension and a certificate; and
    its proxy configuration has every setting of the rule stored under a name the
    gateway reads, and the default for the others.  The name under which the API
    stores the number of buffers, [proxy-buffer-numbers], is not among these: the
    gateway reads [proxy-buffers-number]. *)
Theorem http_rule_understood (a : AppServiceBuild) (rule : HTTPRule) (cp pp : Z) (service : Service)
    (ing : Ingress) (sec : option Secret) (exts configs : list (string * string))
    (Hing : applyHTTPRule gdb EX_DOMAIN secret_rest a rule cp pp service = Ok (ing, sec))
    (Hext : gd_extensions gdb (hr_UUID rule) = inr exts) (Hcfg : gd_configs gdb (hr_UUID rule) = inr configs)
    (Hkeys : Forall (λ c, setting_key c.1 = true) configs) (Hnd : NoDup configs.*1)
    (Hw : in_int64 (hr_Weight rule)) :
  let an := Extract ing in
  L4Enable (an_L4 an) = false ∧
  an_Header an = transform (hr_Header rule) ∧
  an_Cookie an = transform (hr_Cookie rule) ∧
  an_Weight an = Z.max 1 (hr_Weight rule) ∧
  rc_ForceSSLRedirect (an_Rewrite an) =
    bool_decide ("httptohttps"%string ∈ exts.*1 ∧ hr_CertificateID rule ≠ ""%string) ∧
  an_Proxy an = wanted_proxy (list_to_map configs).
Proof. by eapply http_rule_read. Qed.
End http_rule.

(** ** The theorems at concrete inputs *)

Lemma transform_parses_witness :
  transform (print_pairs [("a", "1"); ("b", "2"); ("a", "3")]%string) = {["a" := "3"; "b" := "2"]}%string.
Proof.
  rewrite (transform_parses [("a", "1"); ("b", "2"); ("a", "3")]%string).
  - apply (bool_decide_unpack _). vm_compute. exact I.
  - repeat (apply Forall_cons; split; [split; (split; [discriminate|repeat split])|]). apply Forall_nil_2.
Defined.

Definition demo_tcp_ingress : Ingress :=
  mkIngress (zero_meta <| m_Name := "tcp" |> <| m_Annotations :=
    {[GetAnnotationWithPrefix "l4-port" := "9000"; GetAnnotationWithPrefix "l4-host" := "";
      GetAnnotationWithPrefix "l4-enable" := "true"]}%string |>) [] [] None "".

Lemma l4_port_in_range_witness : (1 ≤ L4Port (an_L4 (@Extract ref_runtime demo_tcp_ingress)) ≤ 65535)%Z.
Proof. apply (@l4_port_in_range ref_runtime demo_tcp_ingress). vm_compute. reflexivity. Defined.

Definition demo_outer : Service := createOuterService demo_builder demo_port.

Lemma tcp_rule_understood_witness : ∃ ing,
  applyTCPRule demo_builder (mkTCPRule "tcp" "" 9000) demo_outer "tenant" = Ok ing ∧
  an_L4 (@Extract ref_runtime ing) = mkL4 true "0.0.0.0" 9000.
Proof.
  eexists. split; [reflexivity|].
  refine (eq_trans (proj1 (@tcp_rule_understood ref_runtime demo_builder (mkTCPRule "tcp" "" 9000) demo_outer "tenant" _
    eq_refl _)) _); [unfold in_int64; cbn; lia|reflexivity].
Defined.

(** A rule with a header condition, a weight and two settings. *)
Definition demo_rule : HTTPRule := mkHTTPRule "rule" "a.com" "/" "k=v" "" 20 "".
Definition demo_rule_db : GatewayDB :=
  mkGatewayDB (λ _, inr []) (λ _ _, inr false) (λ _, inr []) (λ _ _, inr [demo_rule]) (λ _ _, inr [])
    (λ _, inr None) (λ _, inr [("httptohttps", "true")]%string)
    (λ _, inr [("proxy-body-size", "8"); ("set-header-Host", "a.org")]%string) (λ _, inr []).

Lemma http_rule_understood_witness : ∃ ing,
  applyHTTPRule demo_rule_db "" (λ _, ""%string) demo_builder demo_rule 80 80 demo_outer = Ok (ing, None) ∧
  an_Header (@Extract ref_runtime ing) = {["k" := "v"]}%string ∧
  px_BodySize (an_Proxy (@Extract ref_runtime ing)) = 8%Z ∧
  rc_ForceSSLRedirect (an_Rewrite (@Extract ref_runtime ing)) = false.
Proof.
  eexists. split; [reflexivity|].
  destruct (@http_rule_understood ref_runtime demo_rule_db "" (λ _, ""%string) demo_builder demo_rule 80 80 demo_outer _ None
    [("httptohttps", "true")]%string [("proxy-body-size", "8"); ("set-header-Host", "a.org")]%string
    eq_refl eq_refl eq_refl) as (_ & H1 & _ & _ & H2 & H3).
  - repeat (apply Forall_cons; split; [reflexivity|]). apply Forall_nil_2.
  - apply (bool_decide_unpack _). vm_compute. exact I.
  - unfold in_int64; cbn; lia.
  - split; [|split].
    + refine (eq_trans H1 _). apply (bool_decide_unpack _). vm_compute. exact I.
    + refine (eq_trans (f_equal px_BodySize H3) _). vm_compute. reflexivity.
    + refine (eq_trans H2 _). vm_compute. reflexivity.
Defined.
