(* ===== verification/GwModel.v ===== *)
(** * What the gateway serves

    [gateway/v1]: pools of nodes, virtual services with their locations and
    certificates, the configuration made of them, and the [Equals] methods that decide
    whether a new configuration has to be written.  [util.BackendName] names
    the pools. *)
From S2P Require Import Prelude Variables Kube Gateway Annotation.

(** ** Data *)

(** [v1.Meta]; the index is not compared. *)
Record Meta := mkGwMeta { mt_Name : string; mt_Namespace : string; mt_ServiceID : string; mt_PluginName : string }.
#[export] Instance Meta_eq_dec : EqDecision Meta.
Proof. solve_decision. Defined.

Inductive ConditionType := HeaderType | CookieType | DefaultType.
#[export] Instance ConditionType_eq_dec : EqDecision ConditionType.
Proof. solve_decision. Defined.

(** The text of a type. *)
Definition type_text (t : ConditionType) : string :=
  match t with HeaderType => "header" | CookieType => "cookie" | DefaultType => "default" end.

Record Condition := mkCond { cd_Type : ConditionType; cd_Value : gmap string string }.
#[export] Instance Condition_eq_dec : EqDecision Condition.
Proof. solve_decision. Defined.

(** Conditions by the name of the backend they choose. *)
Record Location := mkLocation {
  lc_Path : string;
  lc_NameCondition : gmap string Condition;
  lc_Rewrite : RewriteConfig;
  lc_Proxy : ProxyConfig;
  lc_DisableProxyPass : bool
}.
#[export] Instance eta_Location : Eta Location := λ l,
  mkLocation (lc_Path l) (lc_NameCondition l) (lc_Rewrite l) (lc_Proxy l) (lc_DisableProxyPass l).

(** [sc_ptr] is the identity of the object: certificates are shared between
    the store and the services that use them.  [sc_Certificate] is the encoded certificate that
    [x509.Certificate.Equal] compares; the embedded [*Meta] is nil and the
    expiry is zero in every certificate the gateway makes. *)
Record SSLCert := mkSSLCert {
  sc_ptr : nat;
  sc_Certificate : option string;
  sc_CertificateStr : string;
  sc_PrivateKey : string;
  sc_CertificatePem : string;
  sc_CN : list string
}.

(** [v1.VirtualService]; [ExtensionConfig], which nothing sets, is left out. *)
Record VirtualService := mkVS {
  vs_Meta : Meta;
  vs_Enabled : bool;
  vs_Protocol : string;
  vs_BackendProtocol : string;
  vs_Port : Z;
  vs_Listening : list string;
  vs_Note : string;
  vs_DefaultPoolName : string;
  vs_RuleNames : list string;
  vs_SSLdecrypt : bool;
  vs_DefaultCertificateName : string;
  vs_RequestLogEnable : bool;
  vs_RequestLogFileName : string;
  vs_RequestLogFormat : string;
  vs_ConnectTimeout : Z;
  vs_Timeout : Z;
  vs_ServerName : string;
  vs_PoolName : string;
  vs_SSlProtocols : string;
  vs_SSLCert : option SSLCert;
  vs_Locations : list Location;
  vs_ForceSSLRedirect : bool
}.
#[export] Instance eta_VirtualService : Eta VirtualService := λ v,
  mkVS (vs_Meta v) (vs_Enabled v) (vs_Protocol v) (vs_BackendProtocol v) (vs_Port v) (vs_Listening v) (vs_Note v)
    (vs_DefaultPoolName v) (vs_RuleNames v) (vs_SSLdecrypt v) (vs_DefaultCertificateName v) (vs_RequestLogEnable v)
    (vs_RequestLogFileName v) (vs_RequestLogFormat v) (vs_ConnectTimeout v) (vs_Timeout v) (vs_ServerName v)
    (vs_PoolName v) (vs_SSlProtocols v) (vs_SSLCert v) (vs_Locations v) (vs_ForceSSLRedirect v).
Definition zero_vs : VirtualService :=
  mkVS (mkGwMeta "" "" "" "") false "" "" 0 [] "" "" [] false "" false "" "" 0 0 "" "" "" None [] false.

(** [v1.Node] and [v1.Pool], with the fields the gateway sets. *)
Record Node := mkNode { nd_Host : string; nd_Port : Z; nd_Weight : Z }.
#[export] Instance Node_eq_dec : EqDecision Node.
Proof. solve_decision. Defined.

Record Pool := mkPool {
  po_Name : string;
  po_Namespace : string;
  po_LoadBalancingType : string;
  po_UpstreamHashBy : string;
  po_Nodes : list Node
}.
#[export] Instance eta_Pool : Eta Pool := λ p,
  mkPool (po_Name p) (po_Namespace p) (po_LoadBalancingType p) (po_UpstreamHashBy p) (po_Nodes p).

Definition RoundRobin : string := "round-robin".
Definition CookieSessionAffinity : string := "cookie-session-affinity".
Definition GetLoadBalancingType (s : string) : string :=
  if decide (s = RoundRobin) then RoundRobin
  else if decide (s = CookieSessionAffinity) then CookieSessionAffinity
  else RoundRobin.

(** [v1.Config] *)
Record Config := mkConfig {
  cf_HTTPPools : list Pool;
  cf_TCPPools : list Pool;
  cf_L7VS : list VirtualService;
  cf_L4VS : list VirtualService
}.

(** [util.BackendName] *)
Definition BackendName (name ns : string) : string :=
  let name := (ns +:+ "_" +:+ name)%string in
  let name := replace_all "." "_" name in
  let name := replace_all "-" "_" name in
  let name := replace_all ":" "_" name in
  let name := replace_all "/" "slash" name in
  drop_spaces name.

(** ** Comparison

    The methods also return true for two equal pointers.  The services,
    locations and conditions that are compared come from two runs of
    [ListVirtualService], which makes its own; certificates do not, and theirs
    is kept. *)

(** The loops over two slices: every element of the first has one in the second. *)
Definition each_has {A B} (eq : A → B → bool) (l : list A) (l' : list B) : bool := forallb (λ x, existsb (eq x) l') l.
Definition slices_match {A B} (eq : A → B → bool) (l : list A) (l' : list B) : bool :=
  bool_decide (length l = length l') && each_has eq l l'.

Definition str_eqb (a b : string) : bool := bool_decide (a = b).

Definition Condition_Equals (c cc : Condition) : bool :=
  bool_decide (cd_Type c = cd_Type cc) && bool_decide (size (cd_Value c) = size (cd_Value cc)) &&
  forallb (λ '(k, v), bool_decide (cd_Value cc !! k = Some v)) (map_to_list (cd_Value c)).

(** A header that is absent on the right reads as the empty string. *)
Definition Proxy_Equal (s l2 : ProxyConfig) : bool :=
  bool_decide (px_BodySize s = px_BodySize l2 ∧ px_ConnectTimeout s = px_ConnectTimeout l2 ∧
    px_SendTimeout s = px_SendTimeout l2 ∧ px_ReadTimeout s = px_ReadTimeout l2 ∧
    px_BuffersNumber s = px_BuffersNumber l2 ∧ px_BufferSize s = px_BufferSize l2 ∧
    px_CookieDomain s = px_CookieDomain l2 ∧ px_CookiePath s = px_CookiePath l2 ∧
    px_NextUpstream s = px_NextUpstream l2 ∧ px_NextUpstreamTries s = px_NextUpstreamTries l2 ∧
    px_RequestBuffering s = px_RequestBuffering l2 ∧ px_ProxyRedirectFrom s = px_ProxyRedirectFrom l2 ∧
    px_ProxyRedirectTo s = px_ProxyRedirectTo l2 ∧ px_ProxyBuffering s = px_ProxyBuffering l2 ∧
    size (px_SetHeaders s) = size (px_SetHeaders l2)) &&
  forallb (λ '(k, v), str_eqb (default ""%string (px_SetHeaders l2 !! k)) v) (map_to_list (px_SetHeaders s)).

Definition Location_Equals (l c : Location) : bool :=
  str_eqb (lc_Path l) (lc_Path c) && bool_decide (size (lc_NameCondition l) = size (lc_NameCondition c)) &&
  forallb (λ '(name, lcond), match lc_NameCondition c !! name with
                             | Some ccond => Condition_Equals ccond lcond
                             | None => false
                             end) (map_to_list (lc_NameCondition l)) &&
  Proxy_Equal (lc_Proxy l) (lc_Proxy c).

(** The loop over the names asks for a name that differs. *)
Definition SSLCert_Equals (s c : SSLCert) : bool :=
  bool_decide (sc_ptr s = sc_ptr c) ||
  (bool_decide (sc_Certificate s = sc_Certificate c) && str_eqb (sc_CertificateStr s) (sc_CertificateStr c) &&
   str_eqb (sc_PrivateKey s) (sc_PrivateKey c) &&
   slices_match (λ scn ccn, negb (str_eqb scn ccn)) (sc_CN s) (sc_CN c)).

Definition cert_Equals (s c : option SSLCert) : bool :=
  match s, c with
  | Some s, Some c => SSLCert_Equals s c
  | None, None => true
  | _, _ => false
  end.

Definition VirtualService_Equals (v c : VirtualService) : bool :=
  bool_decide (vs_Meta v = vs_Meta c) &&
  bool_decide (vs_Enabled v = vs_Enabled c) && str_eqb (vs_Protocol v) (vs_Protocol c) &&
  str_eqb (vs_BackendProtocol v) (vs_BackendProtocol c) && bool_decide (vs_Port v = vs_Port c) &&
  slices_match str_eqb (vs_Listening v) (vs_Listening c) &&
  str_eqb (vs_Note v) (vs_Note c) && str_eqb (vs_DefaultPoolName v) (vs_DefaultPoolName c) &&
  slices_match str_eqb (vs_RuleNames v) (vs_RuleNames c) &&
  bool_decide (vs_SSLdecrypt v = vs_SSLdecrypt c) &&
  str_eqb (vs_DefaultCertificateName v) (vs_DefaultCertificateName c) &&
  bool_decide (vs_RequestLogEnable v = vs_RequestLogEnable c) &&
  str_eqb (vs_RequestLogFileName v) (vs_RequestLogFileName c) &&
  str_eqb (vs_RequestLogFormat v) (vs_RequestLogFormat c) &&
  bool_decide (vs_ConnectTimeout v = vs_ConnectTimeout c) && bool_decide (vs_Timeout v = vs_Timeout c) &&
  str_eqb (vs_ServerName v) (vs_ServerName c) && str_eqb (vs_PoolName v) (vs_PoolName c) &&
  slices_match Location_Equals (vs_Locations v) (vs_Locations c) &&
  cert_Equals (vs_SSLCert v) (vs_SSLCert c) &&
  bool_decide (vs_ForceSSLRedirect v = vs_ForceSSLRedirect c).

(** [rcfg] is nil before the first configuration is written. *)
Definition Config_Equals (cfg : option Config) (c : Config) : bool :=
  match cfg with
  | None => false
  | Some cfg => slices_match VirtualService_Equals (cf_L7VS cfg) (cf_L7VS c) &&
                slices_match VirtualService_Equals (cf_L4VS cfg) (cf_L4VS c)
  end.
