(* ===== verification/GwStore.v ===== *)
(** * The gateway's view of the cluster

    [gateway/store]: which ingresses count, the virtual services and pools
    they ask for ([ListVirtualService], [ListPool]), the certificates kept
    for them, and the handlers of the informers' events. *)
From stdpp Require Import pretty.
From S2P Require Import Prelude Variables Kube Ensure Conversion Gateway ThirdParty Annotation GwModel.

Definition DefVirSrvName : string := "_".

Definition meta_key (m : ObjectMeta) : string := (m_Namespace m +:+ "/" +:+ m_Name m)%string.
Definition ing_key (i : Ingress) : string := meta_key (ing_meta i).

(** [option.ListenPorts] *)
Record ListenPorts := mkListenPorts { lp_HTTP : Z; lp_HTTPS : Z; lp_Status : Z; lp_Stream : Z; lp_Health : Z }.

(** [backend] *)
Record backend := mkPoolBackend {
  bd_name : string; bd_weight : Z; bd_hashBy : string; bd_loadBalancingType : string }.
#[export] Instance backend_eq_dec : EqDecision backend.
Proof. solve_decision. Defined.

(** The package's variables: which services have a pool, and the backends of a
    service.  The sets are never emptied. *)
Record PoolMaps := mkPoolMaps {
  l7PoolMap : gset string;
  l7PoolBackendMap : gmap string (list backend);
  l4PoolMap : gset string;
  l4PoolBackendMap : gmap string (list backend)
}.
#[export] Instance eta_PoolMaps : Eta PoolMaps := λ p,
  mkPoolMaps (l7PoolMap p) (l7PoolBackendMap p) (l4PoolMap p) (l4PoolBackendMap p).

(** What the listers of the store hold. *)
Record Listers := mkListers {
  ls_Ingress : list Ingress;
  ls_Endpoint : gmap string Endpoints;
  ls_Service : gmap string Service;
  ls_Annotation : gmap string Annotations;
  ls_ssl : gmap string SSLCert
}.

(** ** Which ingresses count *)

Definition hasReadyAddresses (ep : Endpoints) : bool :=
  existsb (λ ss, bool_decide (0 < length (ss_Addresses ss))) (ep_Subsets ep).

Definition rule_backends (ing : Ingress) : list IngressBackend := ing_Rules ing ≫= λ r, (ir_Paths r).*2.

(** The default backend, or the backend of the first path. *)
Definition endpoint_key (ing : Ingress) : string :=
  let key b := (m_Namespace (ing_meta ing) +:+ "/" +:+ ib_ServiceName b)%string in
  match ing_Backend ing with
  | Some b => key b
  | None => match rule_backends ing with b :: _ => key b | [] => ""%string end
  end.

Section store.
Context `{GoRuntime}.
Context (lst : Listers).
Context (ports : ListenPorts).
(** [IPManager.IPInCurrentHost], and the environment variable [SSL_PROTOCOLS]. *)
Context (IPInCurrentHost : string → bool).
Context (SSL_PROTOCOLS : string).

Definition ingressIsValid (ing : Ingress) : bool :=
  match ls_Endpoint lst !! endpoint_key ing with
  | None => false
  | Some ep => negb (bool_decide (ep_Subsets ep = [])) && hasReadyAddresses ep
  end.

Definition GetServiceProtocol (key : string) (port : Z) : string :=
  match ls_Service lst !! key with
  | None => "TCP"
  | Some svc => match find (λ p, bool_decide (sp_Port p = port)) (svc_Ports svc) with
                | Some p => sp_Protocol p
                | None => "TCP"
                end
  end.

(** ** The first loop of [ListVirtualService]

    Locations are shared between a service and the map [srvLocMap]: a service
    names a shared one by its key there.  A service is shared between the
    slice [l7vs] and the map [l7vsMap]: the slice holds its name. *)
Inductive LocRef := Shared (key : string) | Own (l : Location).

Record VServer := mkVServer { sv_vs : VirtualService; sv_locs : list LocRef }.

Record Scan := mkScan {
  sn_l7vs : list string;
  sn_l7vsMap : gmap string VServer;
  sn_srvLocMap : gmap string Location;
  sn_l4vs : list VirtualService;
  sn_pools : PoolMaps
}.
#[local] Instance eta_Scan : Eta Scan := λ s,
  mkScan (sn_l7vs s) (sn_l7vsMap s) (sn_srvLocMap s) (sn_l4vs s) (sn_pools s).

Definition add_backend (service : string) (b : backend) (m : gmap string (list backend)) : gmap string (list backend) :=
  <[service := default [] (m !! service) ++ [b]]> m.

(** *** Ports *)

Definition l4_host (c : L4Config) : string :=
  let host := drop_spaces (L4Host c) in if decide (host = ""%string) then "0.0.0.0" else host.

Definition host_here (host : string) : bool :=
  if decide (host = "0.0.0.0"%string) then true else ParseIP host && IPInCurrentHost host.

Definition l4_listening (ing : Ingress) (c : L4Config) (b : IngressBackend) : string :=
  let protocol := GetServiceProtocol (m_Namespace (ing_meta ing) +:+ "/" +:+ ib_ServiceName b) (ib_ServicePort b) in
  let listening := (l4_host c +:+ ":" +:+ pretty (L4Port c))%string in
  if decide (protocol = "UDP"%string) then (listening +:+ " udp")%string else listening.

Definition l4_server (ing : Ingress) (anns : Annotations) (b : IngressBackend) : VirtualService :=
  let listening := l4_listening ing (an_L4 anns) b in
  zero_vs <| vs_Meta := mkGwMeta "" (m_Namespace (an_meta anns)) (default ""%string (m_Labels (an_meta anns) !! "service_id"%string)) "" |>
          <| vs_Listening := [listening] |>
          <| vs_PoolName := BackendName listening (m_Namespace (ing_meta ing)) |>
          <| vs_Protocol := GetServiceProtocol (m_Namespace (ing_meta ing) +:+ "/" +:+ ib_ServiceName b)
                              (ib_ServicePort b) |>.

(** The test whether the address is taken ends with a [continue] of its own
    loop over the two keys, not of the loop over the ingresses: it only logs. *)
Definition add_l4 (ing : Ingress) (anns : Annotations) (st : Scan) : result Scan :=
  if negb (host_here (l4_host (an_L4 anns))) then Ok st else
  match ing_Backend ing with
  | None => Panic
  | Some b =>
    if bool_decide (L4Port (an_L4 anns) ∈ [lp_HTTP ports; lp_HTTPS ports; lp_Health ports; lp_Status ports])
    then Ok st else
    let vs := l4_server ing anns b in
    Ok (st <| sn_l4vs ::= λ l, l ++ [vs] |>
           <| sn_pools ::= λ p, p <| l4PoolMap ::= λ s, {[ib_ServiceName b]} ∪ s |>
                <| l4PoolBackendMap ::= add_backend (ib_ServiceName b)
                     (mkPoolBackend (vs_PoolName vs) (an_Weight anns) "" "") |> |>)
  end.

(** *** Hosts *)

(** The certificates of the hosts of an ingress; the first one is the default. *)
Definition add_tls (ns : string) (m : gmap string SSLCert) (tls : IngressTLS) : gmap string SSLCert :=
  match ls_ssl lst !! (ns +:+ "/" +:+ tls_SecretName tls)%string with
  | None => m
  | Some cert =>
    let m := foldl (λ m host, <[host := cert]> m) m (tls_Hosts tls) in
    match m !! DefVirSrvName with Some _ => m | None => <[DefVirSrvName := cert]> m end
  end.
Definition hostSSLMap (ing : Ingress) : gmap string SSLCert :=
  foldl (add_tls (m_Namespace (ing_meta ing))) ∅ (ing_TLS ing).

Definition virSrvName (certs : gmap string SSLCert) (rule : IngressRule) : string :=
  let name := drop_spaces (ir_Host rule) in
  let name := if decide (name = ""%string) then DefVirSrvName else name in
  if decide (certs = ∅) then name else ("tls" +:+ name)%string.

(** The certificate is looked up under the name with its prefix. *)
Definition l7_server (ing : Ingress) (anns : Annotations) (certs : gmap string SSLCert) (name : string) : VirtualService :=
  let vs := zero_vs <| vs_Listening := [pretty (lp_HTTP ports)] |> <| vs_ServerName := name |>
      <| vs_SSlProtocols := if decide (SSL_PROTOCOLS = ""%string) then "TLSv1.2 TLSv1.3" else SSL_PROTOCOLS |>
      <| vs_Meta := mkGwMeta "" (m_Namespace (ing_meta ing)) (default ""%string (m_Labels (an_meta anns) !! "service_id"%string)) "" |> in
  if decide (certs = ∅) then vs
  else vs <| vs_Listening := [pretty (lp_HTTPS ports); "ssl"%string] |>
          <| vs_SSLCert := match certs !! name with Some c => Some c | None => certs !! DefVirSrvName end |>.

Definition put_server (name : string) (vs : VirtualService) (st : Scan) : Scan :=
  match sn_l7vsMap st !! name with
  | Some _ => st
  | None => st <| sn_l7vsMap ::= <[name := mkVServer vs []]> |> <| sn_l7vs ::= λ l, l ++ [name] |>
  end.

Definition add_location (name : string) (r : LocRef) (st : Scan) : Scan :=
  st <| sn_l7vsMap ::= alter (λ v, mkVServer (sv_vs v) (sv_locs v ++ [r])) name |>.

Definition nameCondition (anns : Annotations) : Condition :=
  if decide (an_Header anns = ∅) then
    if decide (an_Cookie anns = ∅) then mkCond DefaultType {["1" := "1"]}%string
    else mkCond CookieType (an_Cookie anns)
  else mkCond HeaderType (an_Header anns).

Definition locKey (name path : string) : string := (name +:+ "_" +:+ path)%string.

Definition l7_backend_name (ing : Ingress) (anns : Annotations) (name path : string) : string :=
  BackendName (locKey name path +:+ "_" +:+ type_text (cd_Type (nameCondition anns))) (m_Namespace (ing_meta ing)).

Definition add_path (ing : Ingress) (anns : Annotations) (name : string) (st : Scan) (path : string * IngressBackend) : Scan :=
  let '(p, b) := path in
  let key := locKey name p in
  let st := st <| sn_pools ::= λ ps, ps <| l7PoolMap ::= λ s, {[ib_ServiceName b]} ∪ s |> |> in
  let st := match sn_srvLocMap st !! key with
            | Some _ => st
            | None => add_location name (Shared key)
                        (st <| sn_srvLocMap ::= <[key := mkLocation p ∅ zero_rewrite (an_Proxy anns) false]> |>)
            end in
  let backendName := l7_backend_name ing anns name p in
  st <| sn_srvLocMap ::= alter (λ l, l <| lc_NameCondition ::= <[backendName := nameCondition anns]> |>) key |>
     <| sn_pools ::= λ ps, ps <| l7PoolBackendMap ::= add_backend (ib_ServiceName b)
          (mkPoolBackend backendName (an_Weight anns) (an_UpstreamHashBy anns) (an_LoadBalancingType anns)) |> |>.

Definition add_rule (ing : Ingress) (anns : Annotations) (certs : gmap string SSLCert) (st : Scan) (rule : IngressRule) : Scan :=
  let name := virSrvName certs rule in
  foldl (add_path ing anns name) (put_server name (l7_server ing anns certs name) st) (ir_Paths rule).

Definition add_l7 (ing : Ingress) (anns : Annotations) (st : Scan) : Scan :=
  foldl (add_rule ing anns (hostSSLMap ing)) st (ing_Rules ing).

Definition is_l4 (anns : Annotations) : bool :=
  L4Enable (an_L4 anns) && negb (bool_decide (L4Port (an_L4 anns) = 0%Z)).

Definition add_ingress (st : Scan) (ing : Ingress) : result Scan :=
  if ingressIsValid ing then
    match ls_Annotation lst !! ing_key ing with
    | None => Ok st
    | Some anns => if is_l4 anns then add_l4 ing anns st else Ok (add_l7 ing anns st)
    end
  else Ok st.

Fixpoint add_ingresses (l : list Ingress) (st : Scan) : result Scan :=
  match l with
  | [] => Ok st
  | ing :: l' => then_do (add_ingress st ing) (add_ingresses l')
  end.

(** ** The second loop: redirects to HTTPS *)

Definition redirect_rewrite : RewriteConfig :=
  mkRewriteConfig [mkRewrite "^" "https://$http_host$request_uri?" "permanent"] "" false false "" false.

Definition add_redirect_path (anns : Annotations) (name : string) (st : Scan) (path : string * IngressBackend) : Scan :=
  match sn_srvLocMap st !! locKey name path.1 with
  | Some _ => st
  | None => add_location name (Own (mkLocation path.1 ∅ redirect_rewrite (an_Proxy anns) true)) st
  end.

Definition redirect_server (name : string) : VirtualService :=
  zero_vs <| vs_Listening := [pretty (lp_HTTP ports)] |> <| vs_ServerName := name |>.

Definition add_redirect_rule (anns : Annotations) (st : Scan) (rule : IngressRule) : Scan :=
  let name := TrimSpace (ir_Host rule) in
  foldl (add_redirect_path anns name) (put_server name (redirect_server name) st) (ir_Paths rule).

(** Missing annotations read as a record of zeros, which asks for no redirect. *)
Definition add_redirect (st : Scan) (ing : Ingress) : Scan :=
  if ingressIsValid ing then
    match ls_Annotation lst !! ing_key ing with
    | None => st
    | Some anns =>
      if rc_ForceSSLRedirect (an_Rewrite anns) && negb (is_l4 anns)
      then foldl (add_redirect_rule anns) st (ing_Rules ing) else st
    end
  else st.

(** ** The result *)

Definition resolve (locs : gmap string Location) (r : LocRef) : list Location :=
  match r with Shared key => option_list (locs !! key) | Own l => [l] end.

Definition finish (st : Scan) (name : string) : list VirtualService :=
  match sn_l7vsMap st !! name with
  | None => []
  | Some v => [(sv_vs v) <| vs_Locations := sv_locs v ≫= resolve (sn_srvLocMap st) |>]
  end.

Definition start_scan (p : PoolMaps) : Scan := mkScan [] ∅ ∅ [] (p <| l7PoolBackendMap := ∅ |> <| l4PoolBackendMap := ∅ |>).

(** [again]: the same ingresses, in the order of the second call of [List]. *)
Definition ListVirtualService (again : list Ingress) (p : PoolMaps) :
    result (list VirtualService * list VirtualService * PoolMaps) :=
  then_do (add_ingresses (ls_Ingress lst) (start_scan p)) (λ st,
    let st := foldl add_redirect st again in
    Ok (sn_l7vs st ≫= finish st, sn_l4vs st, sn_pools st)).

(** ** Pools *)

Definition subset_nodes (weight : Z) (ss : EndpointSubset) : list Node :=
  ss_Ports ss ≫= λ port, (λ ip, mkNode ip port.2 weight) <$> ss_Addresses ss.

Definition endpoint_nodes (ep : Endpoints) (weight : Z) : list Node := ep_Subsets ep ≫= subset_nodes weight.

Definition new_l7_pool (b : backend) : Pool :=
  mkPool (bd_name b) "default" (GetLoadBalancingType (bd_loadBalancingType b)) (bd_hashBy b) [].
Definition new_l4_pool (b : backend) : Pool := mkPool (bd_name b) "default" "" "" [].

Definition add_nodes (new : backend → Pool) (served : bool) (ep : Endpoints) (m : gmap string Pool) (b : backend) :
    gmap string Pool :=
  let pool := default (new b) (m !! bd_name b) in
  <[bd_name b := pool <| po_Nodes ::= λ l, l ++ (if served then endpoint_nodes ep (bd_weight b) else []) |>]> m.

(** Endpoints without subsets are passed over. *)
Definition add_endpoints (new : backend → Pool) (pools : gset string) (backends : gmap string (list backend))
    (m : gmap string Pool) (ep : Endpoints) : gmap string Pool :=
  if decide (ep_Subsets ep = []) then m
  else foldl (add_nodes new (bool_decide (m_Name (ep_meta ep) ∈ pools)) ep) m
         (default [] (backends !! m_Name (ep_meta ep))).

Definition pools_of (new : backend → Pool) (pools : gset string) (backends : gmap string (list backend)) :
    gmap string Pool :=
  foldl (add_endpoints new pools backends) ∅ (range_order (ls_Endpoint lst)).*2.

Definition ListPool (p : PoolMaps) : list Pool * list Pool :=
  ((range_order (pools_of new_l7_pool (l7PoolMap p) (l7PoolBackendMap p))).*2,
   (range_order (pools_of new_l4_pool (l4PoolMap p) (l4PoolBackendMap p))).*2).
End store.
