(* ===== verification/GwStoreSpec.v ===== *)
(** * What the gateway serves: theorems about [GwStore]

    The rules of the ingresses that count form one list of requests.  The
    locations, their conditions, the backends and the servers of
    [ListVirtualService] are functions of that list, and the pools of
    [ListPool] follow from the backends. *)
From stdpp Require Import pretty.
From S2P Require Import Prelude Variables Kube Ensure Conversion Gateway EventFile Annotation GwModel GwStore.

(** One path of a rule of a host, with the name of its server. *)
Record Req := mkReq {
  rq_ing : Ingress; rq_anns : Annotations; rq_name : string; rq_path : string; rq_backend : IngressBackend }.

Section spec.
Context `{GoRuntime}.
Context (lst : Listers) (ports : ListenPorts) (IPInCurrentHost : string → bool) (SSL_PROTOCOLS : string).

Abbreviation add_ingress := (GwStore.add_ingress lst ports IPInCurrentHost SSL_PROTOCOLS).
Abbreviation add_ingresses := (GwStore.add_ingresses lst ports IPInCurrentHost SSL_PROTOCOLS).
Abbreviation hostSSLMap := (GwStore.hostSSLMap lst).
Abbreviation ListVirtualService := (GwStore.ListVirtualService lst ports IPInCurrentHost SSL_PROTOCOLS).

(** The annotations of an ingress that counts. *)
Definition counted (ing : Ingress) : option Annotations :=
  if ingressIsValid lst ing then ls_Annotation lst !! ing_key ing else None.

Definition rule_requests (ing : Ingress) (anns : Annotations) (rule : IngressRule) : list Req :=
  (λ pb, mkReq ing anns (virSrvName (hostSSLMap ing) rule) pb.1 pb.2) <$> ir_Paths rule.

Definition ing_requests (ing : Ingress) : list Req :=
  match counted ing with
  | Some anns => if is_l4 anns then [] else ing_Rules ing ≫= rule_requests ing anns
  | None => []
  end.

Definition requests : list Req := ls_Ingress lst ≫= ing_requests.

Definition rq_key (r : Req) : string := locKey (rq_name r) (rq_path r).
Definition rq_bname (r : Req) : string := l7_backend_name (rq_ing r) (rq_anns r) (rq_name r) (rq_path r).
Definition rq_pool (r : Req) : GwStore.backend :=
  mkPoolBackend (rq_bname r) (an_Weight (rq_anns r)) (an_UpstreamHashBy (rq_anns r)) (an_LoadBalancingType (rq_anns r)).

(** ** The scan as a fold over the requests

    A part of the state that only [add_path] changes. *)
Section projection.
Context {X : Type} (π : Scan → X) (step : X → Req → X).
Context (Hpath : ∀ ing anns name st p b,
  π (add_path ing anns name st (p, b)) = step (π st) (mkReq ing anns name p b)).
Context (Hserver : ∀ name vs st, π (put_server name vs st) = π st).
Context (Hl4 : ∀ ing anns st st', add_l4 lst ports IPInCurrentHost ing anns st = Ok st' → π st' = π st).

Lemma fold_paths ing anns name st l :
  π (foldl (add_path ing anns name) st l) = foldl step (π st) ((λ pb, mkReq ing anns name pb.1 pb.2) <$> l).
Proof.
  revert st. induction l as [|[p b] l IH]; intros st; [done|]. rewrite fmap_cons. cbn [foldl fst snd].
  by rewrite IH, Hpath.
Qed.

Lemma fold_rules ing anns st l :
  π (foldl (add_rule ports SSL_PROTOCOLS ing anns (hostSSLMap ing)) st l) =
  foldl step (π st) (l ≫= rule_requests ing anns).
Proof.
  revert st. induction l as [|r l IH]; intros st; [done|]. rewrite bind_cons, foldl_app. cbn [foldl].
  rewrite IH. f_equal. unfold add_rule. by rewrite fold_paths, Hserver.
Qed.

Lemma fold_ingresses l st st' : add_ingresses l st = Ok st' → π st' = foldl step (π st) (l ≫= ing_requests).
Proof.
  revert st. induction l as [|ing l IH]; intros st; [by intros [= <-]|]. cbn [GwStore.add_ingresses].
  intros (st1 & H1 & H2)%then_do_ok. rewrite (IH _ H2), bind_cons, foldl_app. f_equal.
  unfold GwStore.add_ingress in H1. unfold ing_requests, counted.
  destruct (ingressIsValid lst ing); [|by injection H1 as <-].
  destruct (ls_Annotation lst !! ing_key ing) as [anns|]; [|by injection H1 as <-].
  destruct (is_l4 anns); [by eapply Hl4|]. injection H1 as <-. apply fold_rules.
Qed.
End projection.

Lemma add_l4_ok ing anns st st' : add_l4 lst ports IPInCurrentHost ing anns st = Ok st' →
  sn_l7vs st' = sn_l7vs st ∧ sn_l7vsMap st' = sn_l7vsMap st ∧ sn_srvLocMap st' = sn_srvLocMap st ∧
  l7PoolMap (sn_pools st') = l7PoolMap (sn_pools st) ∧
  l7PoolBackendMap (sn_pools st') = l7PoolBackendMap (sn_pools st).
Proof.
  unfold add_l4. destruct (negb _); [by intros [= <-]|]. destruct (ing_Backend ing) as [b|]; [|done].
  destruct (bool_decide _); by intros [= <-].
Qed.

(** ** Locations *)

Definition new_location (r : Req) : Location := mkLocation (rq_path r) ∅ zero_rewrite (an_Proxy (rq_anns r)) false.

Definition loc_step (m : gmap string Location) (r : Req) : gmap string Location :=
  alter (λ l, l <| lc_NameCondition ::= <[rq_bname r := nameCondition (rq_anns r)]> |>) (rq_key r)
    (match m !! rq_key r with Some _ => m | None => <[rq_key r := new_location r]> m end).

Lemma put_server_locs name vs st : sn_srvLocMap (put_server name vs st) = sn_srvLocMap st.
Proof. unfold put_server. by destruct (sn_l7vsMap st !! name). Qed.

Lemma put_server_pools name vs st : sn_pools (put_server name vs st) = sn_pools st.
Proof. unfold put_server. by destruct (sn_l7vsMap st !! name). Qed.

Lemma add_path_locs ing anns name st p b :
  sn_srvLocMap (add_path ing anns name st (p, b)) = loc_step (sn_srvLocMap st) (mkReq ing anns name p b).
Proof.
  unfold add_path, loc_step. cbn [rq_key rq_bname rq_name rq_path rq_anns rq_ing].
  destruct st as [a m locs l4 ps]. cbn. by destruct (locs !! _).
Qed.

(** The location of a key: its path and proxy settings are those of the first
    request for it, its conditions those of all of them. *)
Definition conditions (l : list Req) : gmap string Condition :=
  foldl (λ m r, <[rq_bname r := nameCondition (rq_anns r)]> m) ∅ l.

Definition location_of (key : string) (l : list Req) : option Location :=
  match base.filter (λ r, rq_key r = key) l with
  | [] => None
  | r :: l' => Some ((new_location r) <| lc_NameCondition := conditions (r :: l') |>)
  end.

Lemma conditions_snoc l r : conditions (l ++ [r]) = <[rq_bname r := nameCondition (rq_anns r)]> (conditions l).
Proof. unfold conditions. by rewrite foldl_app. Qed.

Lemma locations_fold l key : foldl loc_step ∅ l !! key = location_of key l.
Proof.
  induction l as [|r l IH] using rev_ind; [exact (lookup_empty key)|]. rewrite foldl_app. cbn [foldl].
  unfold location_of in *. rewrite filter_app, filter_cons, filter_nil. unfold loc_step at 1.
  set (m := foldl loc_step ∅ l) in *. case_decide as Hk.
  - rewrite Hk, lookup_alter_eq. rewrite <- Hk in IH. rewrite Hk in IH.
    destruct (base.filter _ l) as [|r' l'] eqn:E.
    + rewrite IH, lookup_insert_eq. cbn. by rewrite insert_empty.
    + rewrite IH, IH. cbn [fmap option_fmap option_map app]. f_equal.
      change (r' :: l' ++ [r]) with ((r' :: l') ++ [r]). rewrite conditions_snoc. done.
  - rewrite app_nil_r, lookup_alter_ne by done. rewrite <- IH. destruct (m !! rq_key r); [done|].
    by rewrite lookup_insert_ne.
Qed.

(** ** Backends *)

Definition bk_step (m : gmap string (list GwStore.backend)) (r : Req) : gmap string (list GwStore.backend) :=
  add_backend (ib_ServiceName (rq_backend r)) (rq_pool r) m.

Lemma add_path_backends ing anns name st p b :
  l7PoolBackendMap (sn_pools (add_path ing anns name st (p, b))) =
  bk_step (l7PoolBackendMap (sn_pools st)) (mkReq ing anns name p b).
Proof. destruct st as [a m locs l4 [? ? ? ?]]. cbn. by destruct (locs !! _). Qed.

Lemma add_path_services ing anns name st p b :
  l7PoolMap (sn_pools (add_path ing anns name st (p, b))) = {[ib_ServiceName b]} ∪ l7PoolMap (sn_pools st).
Proof. destruct st as [a m locs l4 [? ? ? ?]]. cbn. by destruct (locs !! _). Qed.

Lemma backends_fold l service :
  default [] (foldl bk_step ∅ l !! service) =
  rq_pool <$> base.filter (λ r, ib_ServiceName (rq_backend r) = service) l.
Proof.
  induction l as [|r l IH] using rev_ind; [done|]. rewrite foldl_app, filter_app, fmap_app, <- IH.
  cbn [foldl]. unfold bk_step at 1, add_backend. rewrite filter_cons, filter_nil. case_decide as Hs.
  - by rewrite Hs, lookup_insert_eq.
  - rewrite lookup_insert_ne by done. by rewrite fmap_nil, app_nil_r.
Qed.

Lemma services_fold l s service :
  service ∈ foldl (λ s r, {[ib_ServiceName (rq_backend r)]} ∪ s) s l ↔
  (∃ r, r ∈ l ∧ ib_ServiceName (rq_backend r) = service) ∨ service ∈ (s : gset string).
Proof.
  revert s. induction l as [|r l IH]; intros s; cbn [foldl].
  { split; [by right|]. intros [(r & Hr & _)|?]; [by apply elem_of_nil in Hr|done]. }
  rewrite IH, elem_of_union, elem_of_singleton. setoid_rewrite elem_of_cons. split.
  - intros [(r' & Hr & E)|[->|Hs]]; [left; eauto|left; eauto|by right].
  - intros [(r' & [->|Hr] & E)|Hs]; [right; left; by rewrite E|left; eauto|by right; right].
Qed.
End spec.

(** ** Pools *)

Section pools.
Context `{GoRuntimeLaws}.

Lemma range_order_elem {V} (m : gmap string V) k v : (k, v) ∈ range_order m ↔ m !! k = Some v.
Proof. by rewrite range_order_perm, elem_of_map_to_list. Qed.

Lemma elem_of_range_values {V} (m : gmap string V) v : v ∈ (range_order m).*2 ↔ ∃ k, m !! k = Some v.
Proof.
  rewrite list_elem_of_fmap. split.
  - intros ([k x] & -> & Hk). exists k. by apply range_order_elem in Hk.
  - intros [k Hk]. exists (k, v). split; [done|]. by apply range_order_elem.
Qed.

Definition pool_nodes (m : gmap string Pool) (n : string) : list Node := default [] (po_Nodes <$> m !! n).

Section one_kind.
Context (new : GwStore.backend → Pool) (Hnew : ∀ b, po_Name (new b) = bd_name b ∧ po_Nodes (new b) = []).

Definition named_nodes (served : bool) (ep : Endpoints) (n : string) (b : GwStore.backend) : list Node :=
  if decide (bd_name b = n ∧ served = true) then endpoint_nodes ep (bd_weight b) else [].

Lemma named_nodes_eq served ep n b : named_nodes served ep n b =
  if decide (bd_name b = n) then if served then endpoint_nodes ep (bd_weight b) else [] else [].
Proof.
  unfold named_nodes. destruct (decide (bd_name b = n ∧ served = true)) as [[Hn ->]|Hd].
  - by rewrite decide_True.
  - destruct (decide (bd_name b = n)); [|done]. destruct served; [|done]. by destruct Hd.
Qed.

Lemma add_nodes_nodes served ep m b n :
  pool_nodes (add_nodes new served ep m b) n = pool_nodes m n ++ named_nodes served ep n b.
Proof.
  unfold pool_nodes, add_nodes. rewrite named_nodes_eq. destruct (decide (bd_name b = n)) as [<-|Hn].
  - rewrite lookup_insert_eq. destruct (Hnew b) as [_ Hb]. destruct (m !! bd_name b) as [pool|]; cbn; [done|].
    by rewrite Hb.
  - rewrite lookup_insert_ne by done. by rewrite app_nil_r.
Qed.

Lemma add_nodes_list_nodes served ep l m n :
  pool_nodes (foldl (add_nodes new served ep) m l) n = pool_nodes m n ++ (l ≫= named_nodes served ep n).
Proof.
  revert m. induction l as [|b l IH]; intros m; [by rewrite app_nil_r|]. cbn [foldl].
  rewrite IH, add_nodes_nodes, bind_cons. by rewrite <- app_assoc.
Qed.

Definition ep_nodes (pools : gset string) (backends : gmap string (list GwStore.backend)) (n : string) (ep : Endpoints) :
    list Node :=
  default [] (backends !! m_Name (ep_meta ep)) ≫= named_nodes (bool_decide (m_Name (ep_meta ep) ∈ pools)) ep n.

Lemma no_subsets_no_nodes ep w : ep_Subsets ep = [] → endpoint_nodes ep w = [].
Proof. unfold endpoint_nodes. by intros ->. Qed.

Lemma add_endpoints_nodes pools backends l m n :
  pool_nodes (foldl (add_endpoints new pools backends) m l) n = pool_nodes m n ++ (l ≫= ep_nodes pools backends n).
Proof.
  revert m. induction l as [|ep l IH]; intros m; [by rewrite app_nil_r|]. cbn [foldl].
  rewrite IH, bind_cons, app_assoc. f_equal. unfold add_endpoints. case_decide as He.
  - assert (ep_nodes pools backends n ep = []) as ->; [|by rewrite app_nil_r]. unfold ep_nodes.
    induction (default [] _) as [|b bs IHb]; [done|].
    rewrite bind_cons, IHb, named_nodes_eq, no_subsets_no_nodes by done. by destruct (decide _), (bool_decide _).
  - by rewrite add_nodes_list_nodes.
Qed.

Lemma add_nodes_names served ep l m : map_Forall (λ n p, po_Name p = n) m →
  map_Forall (λ n p, po_Name p = n) (foldl (add_nodes new served ep) m l).
Proof.
  revert m. induction l as [|b l IH]; intros m Hm; [done|]. apply IH. apply map_Forall_insert_2; [|done].
  destruct (m !! bd_name b) as [p|] eqn:E; cbn; [by apply (Hm _ _ E)|apply Hnew].
Qed.

Lemma pools_of_names lst pools backends : map_Forall (λ n p, po_Name p = n) (pools_of lst new pools backends).
Proof.
  unfold pools_of. generalize (range_order (ls_Endpoint lst)).*2. intros l.
  assert (∀ m, map_Forall (λ n p, po_Name p = n) m →
    map_Forall (λ n p, po_Name p = n) (foldl (add_endpoints new pools backends) m l)) as Hgo.
  { induction l as [|ep l IH]; intros m Hm; [done|]. apply IH. unfold add_endpoints.
    case_decide; [done|by apply add_nodes_names]. }
  apply Hgo, map_Forall_empty.
Qed.

(** The nodes of the pool of a name. *)
Lemma pools_of_exact lst pools backends n nd :
  (∃ p, p ∈ (range_order (pools_of lst new pools backends)).*2 ∧ po_Name p = n ∧ nd ∈ po_Nodes p) ↔
  ∃ k ep b, ls_Endpoint lst !! k = Some ep ∧ m_Name (ep_meta ep) ∈ pools ∧
    b ∈ default [] (backends !! m_Name (ep_meta ep)) ∧ bd_name b = n ∧ nd ∈ endpoint_nodes ep (bd_weight b).
Proof.
  pose proof (pools_of_names lst pools backends) as Hnames.
  pose proof (add_endpoints_nodes pools backends (range_order (ls_Endpoint lst)).*2 ∅ n) as Hn.
  fold (pools_of lst new pools backends) in Hn. unfold pool_nodes in Hn at 2. rewrite lookup_empty in Hn. cbn in Hn.
  trans (nd ∈ pool_nodes (pools_of lst new pools backends) n).
  - unfold pool_nodes. split.
    + intros (p & Hp & Hpn & Hnd). apply elem_of_range_values in Hp as [k Hk].
      pose proof (Hnames _ _ Hk) as E. cbn in E. subst k. rewrite <- Hpn, Hk. exact Hnd.
    + destruct (pools_of lst new pools backends !! n) as [p|] eqn:E; [|by intros ?%elem_of_nil].
      intros Hnd. exists p. split; [apply elem_of_range_values; by exists n|]. split; [exact (Hnames _ _ E)|done].
  - rewrite Hn, list_elem_of_bind. unfold ep_nodes, named_nodes. split.
    + intros (ep & Hnd & [k Hk]%elem_of_range_values). apply list_elem_of_bind in Hnd as (b & Hnd & Hb).
      case_decide as Hd; [|by apply elem_of_nil in Hnd]. destruct Hd as [Hbn Hs]. apply bool_decide_eq_true in Hs.
      by exists k, ep, b.
    + intros (k & ep & b & Hk & Hs & Hb & Hbn & Hnd). exists ep. split; [|apply elem_of_range_values; by exists k].
      apply list_elem_of_bind. exists b. split; [|done]. rewrite decide_True; [done|].
      split; [done|by apply bool_decide_eq_true].
Qed.
End one_kind.
End pools.

(** ** What [ListVirtualService] returns *)

Section result.
Context `{GoRuntimeLaws}.
Context (lst : Listers) (ports : ListenPorts) (IPInCurrentHost : string → bool) (SSL_PROTOCOLS : string).

Abbreviation add_ingresses := (GwStore.add_ingresses lst ports IPInCurrentHost SSL_PROTOCOLS).
Abbreviation ListVirtualService := (GwStore.ListVirtualService lst ports IPInCurrentHost SSL_PROTOCOLS).
Abbreviation reqs := (requests lst).

Lemma add_location_keeps {X} (π : Scan → X) name r st :
  (∀ st m, π (mkScan (sn_l7vs st) m (sn_srvLocMap st) (sn_l4vs st) (sn_pools st)) = π st) →
  π (add_location name r st) = π st.
Proof. intros Hπ. apply Hπ. Qed.

(** The second loop only adds servers and locations of their own. *)
Definition outside (st : Scan) : gmap string Location * list VirtualService * PoolMaps :=
  (sn_srvLocMap st, sn_l4vs st, sn_pools st).

Lemma redirect_outside st ing : outside (add_redirect lst ports st ing) = outside st.
Proof.
  unfold add_redirect. destruct (ingressIsValid lst ing); [|done].
  destruct (ls_Annotation lst !! ing_key ing) as [anns|]; [|done]. destruct (_ && _); [|done].
  revert st. induction (ing_Rules ing) as [|rule rules IH]; intros st; [done|]. cbn [foldl]. rewrite IH.
  unfold add_redirect_rule. trans (outside (put_server (TrimSpace (ir_Host rule))
    (redirect_server ports (TrimSpace (ir_Host rule))) st)).
  - generalize (put_server (TrimSpace (ir_Host rule)) (redirect_server ports (TrimSpace (ir_Host rule))) st).
    induction (ir_Paths rule) as [|p paths IHp]; intros st'; [done|]. cbn [foldl]. rewrite IHp.
    unfold add_redirect_path. by destruct (sn_srvLocMap st' !! _).
  - unfold put_server. by destruct (sn_l7vsMap st !! _).
Qed.

Lemma redirects_outside st l : outside (foldl (add_redirect lst ports) st l) = outside st.
Proof. revert st. induction l as [|ing l IH]; intros st; [done|]. cbn [foldl]. by rewrite IH, redirect_outside. Qed.

Lemma list_result again p l7 l4 p' : ListVirtualService again p = Ok (l7, l4, p') →
  ∃ st, add_ingresses (ls_Ingress lst) (start_scan p) = Ok st ∧
    l7 = (let st2 := foldl (add_redirect lst ports) st again in sn_l7vs st2 ≫= finish st2) ∧
    l4 = sn_l4vs st ∧ p' = sn_pools st.
Proof.
  unfold GwStore.ListVirtualService. intros (st & H1 & H2)%then_do_ok. exists st. split; [done|].
  injection H2 as <- <- <-. pose proof (redirects_outside st again) as Ho. injection Ho as _ E1 E2. by rewrite E1, E2.
Qed.

(** *** The pools of hosts *)

Lemma http_backends p st : add_ingresses (ls_Ingress lst) (start_scan p) = Ok st →
  l7PoolBackendMap (sn_pools st) = foldl bk_step ∅ reqs ∧
  sn_srvLocMap st = foldl loc_step ∅ reqs ∧
  ∀ r, r ∈ reqs → ib_ServiceName (rq_backend r) ∈ l7PoolMap (sn_pools st).
Proof.
  intros Hst. split; [|split].
  - apply (fold_ingresses lst ports IPInCurrentHost SSL_PROTOCOLS (λ st, l7PoolBackendMap (sn_pools st)) bk_step) in Hst;
      [exact Hst|apply add_path_backends|intros; by rewrite put_server_pools|].
    intros ing anns st0 st1 H1. apply add_l4_ok in H1. tauto.
  - apply (fold_ingresses lst ports IPInCurrentHost SSL_PROTOCOLS sn_srvLocMap loc_step) in Hst;
      [exact Hst|apply add_path_locs|apply put_server_locs|].
    intros ing anns st0 st1 H1. apply add_l4_ok in H1; tauto.
  - intros r Hr. apply (fold_ingresses lst ports IPInCurrentHost SSL_PROTOCOLS (λ st, l7PoolMap (sn_pools st))
      (λ s r, {[ib_ServiceName (rq_backend r)]} ∪ s)) in Hst;
      [|apply add_path_services|intros; by rewrite put_server_pools|intros ing anns st0 st1 H1; apply add_l4_ok in H1; tauto].
    cbn beta in Hst. rewrite Hst. apply services_fold. left. by exists r.
Qed.

(** The nodes of the pools of hosts, after
    [ListVirtualService] has run: a node is in the pool of a name exactly if a
    path of an ingress that counts asks for a backend of that name, and the
    node is a ready address and a port of endpoints that have the name of the path's
    service, with the weight of the ingress.  Only the name of the endpoints
    is compared: those of any namespace will do. *)
Theorem pools_exact (again : list Ingress) (p p' : PoolMaps) (l7 l4 : list VirtualService) (n : string) (nd : Node)
    (Hlist : ListVirtualService again p = Ok (l7, l4, p')) :
  (∃ pool, pool ∈ (ListPool lst p').1 ∧ po_Name pool = n ∧ nd ∈ po_Nodes pool) ↔
  ∃ r k ep, r ∈ requests lst ∧ rq_bname r = n ∧ ls_Endpoint lst !! k = Some ep ∧
    m_Name (ep_meta ep) = ib_ServiceName (rq_backend r) ∧ nd ∈ endpoint_nodes ep (an_Weight (rq_anns r)).
Proof.
  destruct (list_result _ _ _ _ _ Hlist) as (st & Hst & _ & _ & ->). clear Hlist.
  destruct (http_backends _ _ Hst) as (Hb & _ & Hs). unfold ListPool. cbn [fst].
  rewrite pools_of_exact by done. rewrite Hb. split.
  - intros (k & ep & b & Hk & _ & Hin & Hn & Hnd). rewrite backends_fold in Hin.
    apply list_elem_of_fmap in Hin as (r & -> & Hr). apply list_elem_of_filter in Hr as [Hsvc Hr].
    by exists r, k, ep.
  - intros (r & k & ep & Hr & Hn & Hk & Hsvc & Hnd). exists k, ep, (rq_pool r).
    split; [done|]. split; [rewrite Hsvc; by apply Hs|]. split; [|done].
    rewrite backends_fold. apply list_elem_of_fmap_2, list_elem_of_filter. by split.
Qed.
End result.

(** ** Servers and their locations *)

(** What holds of a scan that has seen the requests [done]. *)
Record scan_ok (done : list Req) (st : Scan) : Prop := {
  so_nodup : NoDup (sn_l7vs st);
  so_dom n : n ∈ sn_l7vs st ↔ is_Some (sn_l7vsMap st !! n);
  so_name n v : sn_l7vsMap st !! n = Some v → vs_ServerName (sv_vs v) = n;
  so_keys key : is_Some (sn_srvLocMap st !! key) ↔ key ∈ rq_key <$> done;
  so_shared n v key : sn_l7vsMap st !! n = Some v → Shared key ∈ sv_locs v →
    ∃ r, r ∈ done ∧ rq_key r = key ∧ rq_name r = n;
  so_placed r : r ∈ done → ∃ r0 v, r0 ∈ done ∧ rq_key r0 = rq_key r ∧
    sn_l7vsMap st !! rq_name r0 = Some v ∧ Shared (rq_key r) ∈ sv_locs v;
  so_own n v l : sn_l7vsMap st !! n = Some v → Own l ∈ sv_locs v → lc_DisableProxyPass l = true
}.

Lemma scan_ok_start p : scan_ok [] (start_scan p).
Proof.
  split; cbn; try (intros; by rewrite ?lookup_empty in *).
  - constructor.
  - intros n. rewrite lookup_empty. split; [by intros ?%elem_of_nil|by intros [? ?]].
  - intros key. rewrite lookup_empty. split; [by intros [? ?]|by intros ?%elem_of_nil].
  - by intros r ?%elem_of_nil.
Qed.

Lemma scan_ok_pools done st l4 ps :
  scan_ok done st → scan_ok done (mkScan (sn_l7vs st) (sn_l7vsMap st) (sn_srvLocMap st) l4 ps).
Proof. intros [? ? ? ? ? ? ?]. by split. Qed.

Lemma scan_ok_server done st name vs : vs_ServerName vs = name → scan_ok done st → scan_ok done (put_server name vs st).
Proof.
  intros Hvs [Hnd Hdom Hname Hkeys Hsh Hpl Hown]. unfold put_server.
  destruct (sn_l7vsMap st !! name) as [v|] eqn:E; [done|]. destruct st as [names m locs l4 ps]. cbn in *.
  assert (name ∉ names) as Hfresh by (rewrite Hdom, E; by intros [? ?]).
  assert (∀ n v, <[name := mkVServer vs []]> m !! n = Some v →
    (n = name ∧ v = mkVServer vs []) ∨ m !! n = Some v) as Hcases.
  { intros n v. destruct (decide (n = name)) as [->|]; [rewrite lookup_insert_eq; intros [= <-]; by left|].
    rewrite lookup_insert_ne by done. by right. }
  split; cbn.
  - apply NoDup_app. split; [done|]. split; [by intros x Hx ->%list_elem_of_singleton|apply NoDup_singleton].
  - intros n. rewrite elem_of_app, list_elem_of_singleton, Hdom. destruct (decide (n = name)) as [->|Hn].
    + rewrite lookup_insert_eq. split; [by eexists|by right].
    + rewrite lookup_insert_ne by done. split; [by intros [?|?]|by left].
  - intros n v [[-> ->]|Hv]%Hcases; [done|by apply Hname].
  - exact Hkeys.
  - intros n v key [[-> ->]|Hv]%Hcases Hk; [by apply elem_of_nil in Hk|by eapply Hsh].
  - intros r (r0 & v & H1 & H2 & H3 & H4)%Hpl. exists r0, v. split_and!; try done.
    rewrite lookup_insert_ne; [done|]. congruence.
  - intros n v l [[-> ->]|Hv]%Hcases Hl; [by apply elem_of_nil in Hl|by eapply Hown].
Qed.

(** Adding a reference to a server. *)
Lemma alter_server m name (r : LocRef) n v :
  (alter (λ v, mkVServer (sv_vs v) (sv_locs v ++ [r])) name m : gmap string VServer) !! n = Some v →
  ∃ v0, m !! n = Some v0 ∧ sv_vs v = sv_vs v0 ∧ sv_locs v = sv_locs v0 ++ (if decide (n = name) then [r] else []).
Proof.
  destruct (decide (n = name)) as [->|Hn].
  - rewrite lookup_alter_eq. destruct (m !! name) as [v0|]; [|done]. intros [= <-]. by exists v0.
  - rewrite lookup_alter_ne by done. intros Hv. exists v. by rewrite app_nil_r.
Qed.

Lemma alter_server_some m name (r : LocRef) n v0 : m !! n = Some v0 →
  ∃ v, (alter (λ v, mkVServer (sv_vs v) (sv_locs v ++ [r])) name m : gmap string VServer) !! n = Some v ∧
    sv_vs v = sv_vs v0 ∧ sv_locs v = sv_locs v0 ++ (if decide (n = name) then [r] else []).
Proof.
  intros Hv. destruct (decide (n = name)) as [->|Hn].
  - rewrite lookup_alter_eq, Hv. by eexists.
  - rewrite lookup_alter_ne by done. exists v0. by rewrite app_nil_r.
Qed.

Lemma scan_ok_own done st name l : lc_DisableProxyPass l = true → scan_ok done st →
  scan_ok done (add_location name (Own l) st).
Proof.
  intros Hl [Hnd Hdom Hname Hkeys Hsh Hpl Hown]. destruct st as [names m locs l4 ps]. cbn in *. split; cbn.
  - done.
  - intros n. rewrite Hdom. unfold is_Some. split; intros [v Hv].
    + apply (alter_server_some m name (Own l)) in Hv as (v' & Hv & _). by exists v'.
    + apply alter_server in Hv as (v0 & Hv & _). by exists v0.
  - intros n v (v0 & Hv & -> & _)%alter_server. by apply Hname.
  - exact Hkeys.
  - intros n v key (v0 & Hv & _ & ->)%alter_server [Hk|Hk]%elem_of_app; [by eapply Hsh|].
    case_decide; [apply list_elem_of_singleton in Hk|apply elem_of_nil in Hk]; done.
  - intros r (r0 & v & H1 & H2 & H3 & H4)%Hpl.
    apply (alter_server_some m name (Own l)) in H3 as (v' & H3 & _ & E). exists r0, v'. split_and!; try done.
    rewrite E. apply elem_of_app. by left.
  - intros n v l' (v0 & Hv & _ & ->)%alter_server [Hk|Hk]%elem_of_app; [by eapply Hown|].
    case_decide; [by apply list_elem_of_singleton in Hk as [= ->]|by apply elem_of_nil in Hk].
Qed.

Lemma scan_ok_path done st ing anns name p b : is_Some (sn_l7vsMap st !! name) → scan_ok done st →
  scan_ok (done ++ [mkReq ing anns name p b]) (add_path ing anns name st (p, b)).
Proof.
  intros [v0 Hv0] [Hnd Hdom Hname Hkeys Hsh Hpl Hown]. destruct st as [names m locs l4 ps]. cbn in *.
  set (r := mkReq ing anns name p b). unfold add_path. cbn. change (locKey name p) with (rq_key r).
  destruct (locs !! rq_key r) as [loc|] eqn:E; cbn.
  - assert (rq_key r ∈ rq_key <$> done) as (r1 & Hr1 & Hin1)%list_elem_of_fmap by (apply Hkeys; by exists loc).
    split; cbn; try done.
    + intros key. rewrite lookup_alter_is_Some, Hkeys, fmap_app, elem_of_app. split; [by left|].
      intros [?|Hk]; [done|]. apply list_elem_of_singleton in Hk as ->. apply Hkeys. by exists loc.
    + intros n v key Hv Hk. destruct (Hsh _ _ _ Hv Hk) as (r' & Hr' & ?). exists r'. split; [|done].
      apply elem_of_app. by left.
    + intros r' Hr'. assert (∃ r'', r'' ∈ done ∧ rq_key r'' = rq_key r') as (r'' & Hin & Hkey).
      { apply elem_of_app in Hr' as [Hr'| ->%list_elem_of_singleton]; [by exists r'|by exists r1]. }
      destruct (Hpl _ Hin) as (r0 & v & H1 & H2 & H3 & H4). rewrite <- Hkey. exists r0, v. split_and!; try done.
      apply elem_of_app. by left.
  - split; cbn.
    + done.
    + intros n. rewrite Hdom. unfold is_Some. split; intros [v Hv].
      * apply (alter_server_some m name (Shared (rq_key r))) in Hv as (v' & Hv & _). by exists v'.
      * apply alter_server in Hv as (v1 & Hv & _). by exists v1.
    + intros n v (v1 & Hv & -> & _)%alter_server. by apply Hname.
    + intros key. rewrite lookup_alter_is_Some, lookup_insert_is_Some, Hkeys, fmap_app, elem_of_app, fmap_cons, fmap_nil,
        list_elem_of_singleton. split; [|intros [?| ->]]; [|destruct (decide (rq_key r = key)); [by left|by right]|by left].
      intros [<-|[_ ?]]; [by right|by left].
    + intros n v key (v1 & Hv & _ & ->)%alter_server [Hk|Hk]%elem_of_app.
      * destruct (Hsh _ _ _ Hv Hk) as (r' & Hr' & ?). exists r'. split; [|done]. apply elem_of_app. by left.
      * case_decide as Hn; [apply list_elem_of_singleton in Hk as [= ->]|by apply elem_of_nil in Hk].
        exists r. split; [apply elem_of_app; right; by apply list_elem_of_singleton|by subst].
    + intros r' [Hr'| ->%list_elem_of_singleton]%elem_of_app.
      * destruct (Hpl _ Hr') as (r0 & v & H1 & H2 & H3 & H4).
        apply (alter_server_some m name (Shared (rq_key r))) in H3 as (v' & H3 & _ & E'). exists r0, v'.
        split_and!; try done; [apply elem_of_app; by left|]. rewrite E'. apply elem_of_app. by left.
      * destruct (alter_server_some m name (Shared (rq_key r)) name v0 Hv0) as (v' & H3 & _ & E'). exists r, v'.
        split_and!; try done; [apply elem_of_app; right; by apply list_elem_of_singleton|].
        rewrite E', decide_True by done. apply elem_of_app. right. by apply list_elem_of_singleton.
    + intros n v l (v1 & Hv & _ & ->)%alter_server [Hk|Hk]%elem_of_app; [by eapply Hown|].
      case_decide; [apply list_elem_of_singleton in Hk|apply elem_of_nil in Hk]; done.
Qed.

Lemma put_server_present name vs st : is_Some (sn_l7vsMap (put_server name vs st) !! name).
Proof.
  unfold put_server. destruct (sn_l7vsMap st !! name) as [v|] eqn:E; [by exists v|].
  destruct st. cbn. rewrite lookup_insert_eq. by eexists.
Qed.

Lemma add_path_present ing anns name st pb n :
  is_Some (sn_l7vsMap st !! n) → is_Some (sn_l7vsMap (add_path ing anns name st pb) !! n).
Proof.
  destruct pb as [p b], st as [names m locs l4 ps]. unfold add_path. cbn. destruct (locs !! _); [done|]. cbn.
  intros [v Hv]. apply (alter_server_some m name (Shared (locKey name p))) in Hv as (v' & Hv & _). by exists v'.
Qed.

Section scan.
Context `{GoRuntimeLaws}.
Context (lst : Listers) (ports : ListenPorts) (IPInCurrentHost : string → bool) (SSL_PROTOCOLS : string).

Lemma scan_ok_paths done st ing anns name l : is_Some (sn_l7vsMap st !! name) → scan_ok done st →
  scan_ok (done ++ ((λ pb, mkReq ing anns name pb.1 pb.2) <$> l)) (foldl (add_path ing anns name) st l).
Proof.
  revert done st. induction l as [|[p b] l IH]; intros done st Hn Hok; [by rewrite app_nil_r|].
  rewrite fmap_cons. cbn [foldl fst snd]. rewrite (cons_middle _ done), app_assoc. apply IH.
  - by apply add_path_present.
  - by apply scan_ok_path.
Qed.

Lemma l7_server_name ing anns certs name : vs_ServerName (l7_server ports SSL_PROTOCOLS ing anns certs name) = name.
Proof. unfold l7_server. by case_decide. Qed.

Lemma scan_ok_rules done st ing anns l : scan_ok done st →
  scan_ok (done ++ (l ≫= rule_requests lst ing anns))
    (foldl (add_rule ports SSL_PROTOCOLS ing anns (hostSSLMap lst ing)) st l).
Proof.
  revert done st. induction l as [|rule l IH]; intros done st Hok; [by rewrite app_nil_r|].
  rewrite bind_cons, app_assoc. cbn [foldl]. apply IH. unfold add_rule, rule_requests.
  apply scan_ok_paths; [apply put_server_present|]. apply scan_ok_server; [apply l7_server_name|done].
Qed.

Lemma scan_ok_ingresses done l st st' : scan_ok done st →
  add_ingresses lst ports IPInCurrentHost SSL_PROTOCOLS l st = Ok st' → scan_ok (done ++ (l ≫= ing_requests lst)) st'.
Proof.
  revert done st. induction l as [|ing l IH]; intros done st Hok; [intros [= <-]; by rewrite app_nil_r|].
  cbn [add_ingresses]. intros (st1 & H1 & H2)%then_do_ok. rewrite bind_cons, app_assoc. eapply IH; [|done].
  unfold add_ingress in H1. unfold ing_requests, counted.
  destruct (ingressIsValid lst ing); [|injection H1 as <-; by rewrite app_nil_r].
  destruct (ls_Annotation lst !! ing_key ing) as [anns|]; [|injection H1 as <-; by rewrite app_nil_r].
  destruct (is_l4 anns).
  - rewrite app_nil_r. unfold add_l4 in H1. destruct (negb _); [by injection H1 as <-|].
    destruct (ing_Backend ing); [|done]. destruct (bool_decide _); injection H1 as <-; [done|].
    exact (scan_ok_pools _ _ _ _ Hok).
  - injection H1 as <-. by apply scan_ok_rules.
Qed.

Lemma scan_ok_redirect done st ing : scan_ok done st → scan_ok done (add_redirect lst ports st ing).
Proof.
  intros Hok. unfold add_redirect. destruct (ingressIsValid lst ing); [|done].
  destruct (ls_Annotation lst !! ing_key ing) as [anns|]; [|done]. destruct (_ && _); [|done].
  revert st Hok. induction (ing_Rules ing) as [|rule rules IH]; intros st Hok; [done|]. apply IH.
  unfold add_redirect_rule. apply (scan_ok_server _ _ (TrimSpace (ir_Host rule))
    (redirect_server ports (TrimSpace (ir_Host rule)))) in Hok; [|done]. revert Hok.
  generalize (put_server (TrimSpace (ir_Host rule)) (redirect_server ports (TrimSpace (ir_Host rule))) st).
  induction (ir_Paths rule) as [|p paths IHp]; intros st' Hok; [done|]. apply IHp.
  unfold add_redirect_path. destruct (sn_srvLocMap st' !! _); [done|]. by apply scan_ok_own.
Qed.

Lemma scan_ok_redirects done st l : scan_ok done st → scan_ok done (foldl (add_redirect lst ports) st l).
Proof. revert st. induction l as [|ing l IH]; intros st Hok; [done|]. by apply IH, scan_ok_redirect. Qed.

(** The state at the end of both loops. *)
Lemma list_scan again p l7 l4 p' :
  ListVirtualService lst ports IPInCurrentHost SSL_PROTOCOLS again p = Ok (l7, l4, p') →
  ∃ st, scan_ok (requests lst) st ∧ sn_srvLocMap st = foldl loc_step ∅ (requests lst) ∧ l7 = sn_l7vs st ≫= finish st.
Proof.
  intros (st & Hst & -> & _ & _)%list_result. exists (foldl (add_redirect lst ports) st again). split; [|split; [|done]].
  - apply scan_ok_redirects. exact (scan_ok_ingresses [] _ _ _ (scan_ok_start p) Hst).
  - destruct (http_backends _ _ _ _ _ _ Hst) as (_ & <- & _).
    pose proof (redirects_outside lst ports st again) as Ho. by injection Ho as -> _ _.
Qed.

Lemma elem_of_finish done st vs : scan_ok done st → vs ∈ sn_l7vs st ≫= finish st ↔
  ∃ n v, sn_l7vsMap st !! n = Some v ∧ vs = (sv_vs v) <| vs_Locations := sv_locs v ≫= resolve (sn_srvLocMap st) |>.
Proof.
  intros Hok. rewrite list_elem_of_bind. unfold finish. split.
  - intros (n & Hvs & Hn). destruct (sn_l7vsMap st !! n) as [v|] eqn:E; [|by apply elem_of_nil in Hvs].
    apply list_elem_of_singleton in Hvs. by exists n, v.
  - intros (n & v & Hv & ->). exists n. rewrite Hv. split; [by apply list_elem_of_singleton|].
    apply (so_dom _ _ Hok). by exists v.
Qed.

(** *** Names *)

(** The servers of hosts have distinct names, whatever the
    ingresses are. *)
Theorem server_names_distinct (again : list Ingress) (p p' : PoolMaps) (l7 l4 : list VirtualService)
    (Hlist : ListVirtualService lst ports IPInCurrentHost SSL_PROTOCOLS again p = Ok (l7, l4, p')) :
  NoDup (vs_ServerName <$> l7).
Proof.
  apply list_scan in Hlist as (st & Hok & _ & ->).
  assert (vs_ServerName <$> (sn_l7vs st ≫= finish st) = sn_l7vs st) as ->; [|apply (so_nodup _ _ Hok)].
  assert (∀ n, n ∈ sn_l7vs st → is_Some (sn_l7vsMap st !! n)) as Hall by (intros n; apply (so_dom _ _ Hok)).
  induction (sn_l7vs st) as [|n l IH]; [done|]. rewrite bind_cons, fmap_app, IH.
  - unfold finish. destruct (Hall n) as [v Hv]; [apply list_elem_of_here|]. rewrite Hv. cbn.
    f_equal. exact (so_name _ _ Hok _ _ Hv).
  - intros n' Hn'. apply Hall. by apply list_elem_of_further.
Qed.

(** *** Paths *)

Definition slash : Ascii.ascii := Ascii.ascii_of_nat 47.

(** What the API server checks of a host and of a path. *)
Definition plain_request (r : Req) : Prop := has_char 47 (rq_name r) = false ∧ ∃ q, rq_path r = String slash q.

Lemma cut_at_slash a a' x x' : has_char 47 a = false → has_char 47 a' = false →
  (a +:+ String slash x)%string = (a' +:+ String slash x')%string → a = a' ∧ x = x'.
Proof.
  revert a'. induction a as [|c a IH]; intros [|c' a']; cbn [has_char].
  - intros _ _ [= ->]. done.
  - intros _ [Hc _]%orb_false_iff E. change (String c' a' +:+ ?s) with (String c' (a' +:+ s)) in E.
    injection E as <- _. vm_compute in Hc. discriminate Hc.
  - intros [Hc _]%orb_false_iff _ E. change (String c a +:+ ?s) with (String c (a +:+ s)) in E.
    injection E as -> _. vm_compute in Hc. discriminate Hc.
  - intros [_ Ha]%orb_false_iff [_ Ha']%orb_false_iff E.
    change (String c a +:+ ?s) with (String c (a +:+ s)) in E.
    change (String c' a' +:+ ?s) with (String c' (a' +:+ s)) in E.
    injection E as -> E. by destruct (IH _ Ha Ha' E) as [-> ->].
Qed.

Lemma app_underscore_inj a a' : (a +:+ "_")%string = (a' +:+ "_")%string → a = a'.
Proof.
  revert a'. induction a as [|c a IH]; intros [|c' a'] E; [done|..].
  - change (String c' a' +:+ "_") with (String c' (a' +:+ "_")) in E. injection E as _ E. by destruct a'.
  - change (String c a +:+ "_") with (String c (a +:+ "_")) in E. injection E as _ E. by destruct a.
  - change (String c a +:+ "_") with (String c (a +:+ "_")) in E.
    change (String c' a' +:+ "_") with (String c' (a' +:+ "_")) in E. injection E as -> E. by rewrite (IH _ E).
Qed.

Lemma plain_key_inj r r' : plain_request r → plain_request r' → rq_key r = rq_key r' →
  rq_name r = rq_name r' ∧ rq_path r = rq_path r'.
Proof.
  intros [Hn [q Hq]] [Hn' [q' Hq']]. unfold rq_key, locKey. rewrite Hq, Hq'.
  change ("_" +:+ String slash q) with (String (Ascii.ascii_of_nat 95) (String slash q)).
  change ("_" +:+ String slash q') with (String (Ascii.ascii_of_nat 95) (String slash q')).
  assert (∀ a x, (a +:+ String (Ascii.ascii_of_nat 95) x)%string = ((a +:+ "_") +:+ x)%string) as Hcut by (intros; by rewrite app_assoc_str).
  rewrite (Hcut (rq_name r)), (Hcut (rq_name r')). intros E. apply cut_at_slash in E as [E ->].
  - split; [by apply app_underscore_inj|done].
  - by rewrite has_char_app, Hn.
  - by rewrite has_char_app, Hn'.
Qed.

Lemma conditions_lookup l n : is_Some (conditions l !! n) ↔ ∃ r, r ∈ l ∧ rq_bname r = n.
Proof.
  induction l as [|r l IH] using rev_ind.
  - split; [by intros [? ?]|]. by intros (r & ?%elem_of_nil & _).
  - rewrite conditions_snoc, lookup_insert_is_Some, IH. setoid_rewrite elem_of_app. setoid_rewrite list_elem_of_singleton.
    split.
    + intros [Hn|[_ (r' & Hr & Hn)]]; [exists r; by split; [right|]|exists r'; by split; [left|]].
    + intros (r' & [Hr| ->] & Hn); [|by left]. destruct (decide (rq_bname r = n)); [by left|right].
      split; [done|]. by exists r'.
Qed.

Lemma location_of_spec key l loc : location_of key l = Some loc →
  lc_DisableProxyPass loc = false ∧ (∃ r, r ∈ l ∧ rq_key r = key ∧ lc_Path loc = rq_path r) ∧
  ∀ n, is_Some (lc_NameCondition loc !! n) ↔ ∃ r, r ∈ l ∧ rq_key r = key ∧ rq_bname r = n.
Proof.
  unfold location_of. destruct (base.filter _ l) as [|r l'] eqn:E; [done|]. intros [= <-].
  assert (∀ r', r' ∈ r :: l' ↔ rq_key r' = key ∧ r' ∈ l) as Hin by (intros r'; by rewrite <- E, list_elem_of_filter).
  split; [done|]. split.
  - exists r. destruct (proj1 (Hin r) (list_elem_of_here _ _)). done.
  - intros n. change (lc_NameCondition _) with (conditions (r :: l')). rewrite conditions_lookup.
    setoid_rewrite Hin. naive_solver.
Qed.

(** C22 (functional): where requests for hosts go.  With hosts and paths as the
    API server admits them, a server of name [n] has a location for the path [q] that passes to the
    backend [b] exactly if a rule of an ingress that counts asks for it; such
    a location is no redirect. *)
Theorem paths_served (again : list Ingress) (p p' : PoolMaps) (l7 l4 : list VirtualService) (n q b : string)
    (Hlist : ListVirtualService lst ports IPInCurrentHost SSL_PROTOCOLS again p = Ok (l7, l4, p'))
    (Hplain : Forall plain_request (requests lst)) :
  (∃ vs loc, vs ∈ l7 ∧ vs_ServerName vs = n ∧ loc ∈ vs_Locations vs ∧ lc_Path loc = q ∧
     lc_DisableProxyPass loc = false ∧ is_Some (lc_NameCondition loc !! b)) ↔
  ∃ r, r ∈ requests lst ∧ rq_name r = n ∧ rq_path r = q ∧ rq_bname r = b.
Proof.
  apply list_scan in Hlist as (st & Hok & Hlocs & ->). rewrite Forall_forall in Hplain.
  assert (∀ key, sn_srvLocMap st !! key = location_of key (requests lst)) as Hloc
    by (intros key; rewrite Hlocs; apply locations_fold).
  split.
  - intros (vs & loc & Hvs & Hn & Hin & Hq & Hd & Hb).
    apply (elem_of_finish (requests lst)) in Hvs as (n' & v & Hv & ->); [|done]. cbn in Hn, Hin.
    rewrite (so_name _ _ Hok _ _ Hv) in Hn. subst n'. apply list_elem_of_bind in Hin as (ref & Hin & Href).
    destruct ref as [key|l]; [|apply list_elem_of_singleton in Hin as ->; by rewrite (so_own _ _ Hok _ _ _ Hv Href) in Hd].
    cbn in Hin. rewrite Hloc in Hin. destruct (location_of key _) as [loc'|] eqn:E; [|by apply elem_of_nil in Hin].
    apply list_elem_of_singleton in Hin as ->. destruct (location_of_spec _ _ _ E) as (_ & (r & Hr & Hkey & Hp) & Hc).
    apply Hc in Hb as (r1 & Hr1 & Hkey1 & Hb). destruct (so_shared _ _ Hok _ _ _ Hv Href) as (r2 & Hr2 & Hkey2 & Hn).
    destruct (plain_key_inj r1 r) as [E1 E2]; [by apply Hplain..|congruence|].
    destruct (plain_key_inj r1 r2) as [E3 E4]; [by apply Hplain..|congruence|].
    exists r1. split; [done|]. split; [congruence|]. split; [congruence|done].
  - intros (r & Hr & Hn & Hq & Hb). destruct (so_placed _ _ Hok r Hr) as (r0 & v & Hr0 & Hkey & Hv & Hin).
    destruct (plain_key_inj r0 r) as [E1 E2]; [by apply Hplain..|done|]. rewrite E1, Hn in Hv.
    assert (is_Some (sn_srvLocMap st !! rq_key r)) as [loc Hl].
    { apply (so_keys _ _ Hok). by apply list_elem_of_fmap_2. }
    exists ((sv_vs v) <| vs_Locations := sv_locs v ≫= resolve (sn_srvLocMap st) |>), loc.
    split; [apply (elem_of_finish (requests lst)); [done|by exists n, v]|].
    split; [exact (so_name _ _ Hok _ _ Hv)|]. split.
    { apply list_elem_of_bind. exists (Shared (rq_key r)). split; [|done]. cbn. rewrite Hl.
      by apply list_elem_of_singleton. }
    rewrite Hloc in Hl. destruct (location_of_spec _ _ _ Hl) as (Hd & (r1 & Hr1 & Hkey1 & Hp) & Hc).
    destruct (plain_key_inj r1 r) as [_ E3]; [by apply Hplain..|done|].
    split; [congruence|]. split; [done|]. apply Hc. by exists r.
Qed.

(** ** Ports *)

Definition reserved_port (c : L4Config) : bool :=
  bool_decide (L4Port c ∈ [lp_HTTP ports; lp_HTTPS ports; lp_Health ports; lp_Status ports]).

(** An ingress for a port that this node serves. *)
Definition port_request (ing : Ingress) : list (Ingress * Annotations * IngressBackend) :=
  match counted lst ing with
  | Some anns =>
    if is_l4 anns && host_here IPInCurrentHost (l4_host (an_L4 anns)) && negb (reserved_port (an_L4 anns))
    then match ing_Backend ing with Some b => [(ing, anns, b)] | None => [] end else []
  | None => []
  end.

Definition port_server (x : Ingress * Annotations * IngressBackend) : VirtualService :=
  l4_server lst x.1.1 x.1.2 x.2.

Definition l4_step (m : gmap string (list GwStore.backend)) (x : Ingress * Annotations * IngressBackend) :
    gmap string (list GwStore.backend) :=
  add_backend (ib_ServiceName x.2) (mkPoolBackend (vs_PoolName (port_server x)) (an_Weight x.1.2) "" "") m.

Definition l4_part (st : Scan) : list VirtualService * gmap string (list GwStore.backend) :=
  (sn_l4vs st, l4PoolBackendMap (sn_pools st)).

Lemma add_l7_part ing anns st : l4_part (add_l7 lst ports SSL_PROTOCOLS ing anns st) = l4_part st.
Proof.
  unfold add_l7. rewrite (fold_rules lst ports SSL_PROTOCOLS l4_part (λ x _, x)).
  - induction (ing_Rules ing ≫= _) as [|r l IH]; [done|]. exact IH.
  - intros ing' anns' name [a m locs l4 [? ? ? ?]] p b. unfold l4_part, add_path. cbn. by destruct (locs !! _).
  - intros name vs [a m locs l4 ps]. unfold l4_part, put_server. cbn. by destruct (m !! _).
Qed.

Lemma l4_scan l st st' : add_ingresses lst ports IPInCurrentHost SSL_PROTOCOLS l st = Ok st' →
  sn_l4vs st' = sn_l4vs st ++ (port_server <$> (l ≫= port_request)) ∧
  l4PoolBackendMap (sn_pools st') = foldl l4_step (l4PoolBackendMap (sn_pools st)) (l ≫= port_request) ∧
  l4PoolMap (sn_pools st) ⊆ l4PoolMap (sn_pools st') ∧
  ∀ x, x ∈ l ≫= port_request → ib_ServiceName x.2 ∈ l4PoolMap (sn_pools st').
Proof.
  revert st. induction l as [|ing l IH]; intros st.
  { intros [= <-]. rewrite app_nil_r. split_and!; try done. by intros x ?%elem_of_nil. }
  cbn [add_ingresses]. intros (st1 & H1 & H2)%then_do_ok. destruct (IH _ H2) as (E1 & E2 & E3 & E4). clear IH H2.
  rewrite bind_cons, fmap_app, foldl_app.
  assert (sn_l4vs st1 = sn_l4vs st ++ (port_server <$> port_request ing) ∧
    l4PoolBackendMap (sn_pools st1) = foldl l4_step (l4PoolBackendMap (sn_pools st)) (port_request ing) ∧
    l4PoolMap (sn_pools st) ⊆ l4PoolMap (sn_pools st1) ∧
    ∀ x, x ∈ port_request ing → ib_ServiceName x.2 ∈ l4PoolMap (sn_pools st1)) as (F1 & F2 & F3 & F4).
  { assert (port_request ing = [] → l4_part st1 = l4_part st →  l4PoolMap (sn_pools st1) = l4PoolMap (sn_pools st) →
      sn_l4vs st1 = sn_l4vs st ++ (port_server <$> port_request ing) ∧
      l4PoolBackendMap (sn_pools st1) = foldl l4_step (l4PoolBackendMap (sn_pools st)) (port_request ing) ∧
      l4PoolMap (sn_pools st) ⊆ l4PoolMap (sn_pools st1) ∧
      ∀ x, x ∈ port_request ing → ib_ServiceName x.2 ∈ l4PoolMap (sn_pools st1)) as Hnone.
    { intros -> [= Ha Hb] Hc. rewrite app_nil_r. split_and!; try done; [by rewrite Hc|by intros x ?%elem_of_nil]. }
    unfold add_ingress in H1. unfold port_request, counted in *.
    destruct (ingressIsValid lst ing); [|injection H1 as <-; by apply Hnone].
    destruct (ls_Annotation lst !! ing_key ing) as [anns|]; [|injection H1 as <-; by apply Hnone].
    destruct (is_l4 anns).
    - unfold add_l4 in H1. fold (reserved_port (an_L4 anns)) in H1. cbn [andb] in *.
      destruct (host_here IPInCurrentHost (l4_host (an_L4 anns))); cbn [negb andb] in *;
        [|injection H1 as <-; by apply Hnone].
      destruct (ing_Backend ing) as [b|]; [|done].
      destruct (reserved_port (an_L4 anns)); cbn [negb] in *; [injection H1 as <-; by apply Hnone|].
      injection H1 as <-. destruct st as [a m locs l4 [? ? ? ?]]. cbn. split_and!; try done; [set_solver|].
      intros x ->%list_elem_of_singleton. cbn. set_solver.
    - injection H1 as <-. apply Hnone; [done|apply add_l7_part|].
      unfold add_l7. rewrite (fold_rules lst ports SSL_PROTOCOLS (λ st, l4PoolMap (sn_pools st)) (λ x _, x)).
      + induction (ing_Rules ing ≫= _) as [|r l' IH]; [done|]. exact IH.
      + intros ing' anns' name [a m locs l4 [? ? ? ?]] p b. unfold add_path. cbn. by destruct (locs !! _).
      + intros name vs [a m locs l4 ps]. unfold put_server. cbn. by destruct (m !! _). }
  split; [rewrite E1, F1; by rewrite <- app_assoc|]. split; [by rewrite E2, F2|].
  split; [by trans (l4PoolMap (sn_pools st1))|]. intros x [Hx|Hx]%elem_of_app; [apply E3; by apply F4|by apply E4].
Qed.

(** C23 (functional): the servers of ports are those of the ingresses that
    count, are for a port and an address of this node, and not for one of the
    gateway's four ports, one server for each and in their order.  Two ingresses
    for one address thus both get a server, although a comment of
    [ListVirtualService] says that the latter is discarded and the log that it
    will be ignored: the [continue] meant for that ends a turn of an inner loop.
    The pool a server passes to holds exactly the ready addresses of the
    endpoints named like the services of the servers that pass to it. *)
Theorem ports_exact (again : list Ingress) (p p' : PoolMaps) (l7 l4 : list VirtualService)
    (Hlist : ListVirtualService lst ports IPInCurrentHost SSL_PROTOCOLS again p = Ok (l7, l4, p')) :
  let wanted := ls_Ingress lst ≫= port_request in
  l4 = port_server <$> wanted ∧
  ∀ n nd, (∃ pool, pool ∈ (ListPool lst p').2 ∧ po_Name pool = n ∧ nd ∈ po_Nodes pool) ↔
    ∃ x k ep, x ∈ wanted ∧ vs_PoolName (port_server x) = n ∧ ls_Endpoint lst !! k = Some ep ∧
      m_Name (ep_meta ep) = ib_ServiceName x.2 ∧ nd ∈ endpoint_nodes ep (an_Weight x.1.2).
Proof.
  cbn zeta. destruct (list_result _ _ _ _ _ _ _ _ _ Hlist) as (st & Hst & _ & -> & ->). clear Hlist.
  destruct (l4_scan _ _ _ Hst) as (H1 & H2 & _ & H4). split; [exact H1|]. intros n nd.
  unfold ListPool. cbn [snd]. rewrite pools_of_exact by done. cbn in H2. rewrite H2.
  assert (∀ l service, default [] (foldl l4_step ∅ l !! service) =
    (λ x, mkPoolBackend (vs_PoolName (port_server x)) (an_Weight x.1.2) "" "") <$>
      base.filter (λ x, ib_ServiceName x.2 = service) l) as Hfold.
  { intros l service. induction l as [|x l IH] using rev_ind; [done|]. rewrite foldl_app, filter_app, fmap_app, <- IH.
    cbn [foldl]. unfold l4_step at 1, add_backend. rewrite filter_cons, filter_nil. case_decide as Hs.
    - by rewrite Hs, lookup_insert_eq.
    - rewrite lookup_insert_ne by done. by rewrite fmap_nil, app_nil_r. }
  split.
  - intros (k & ep & b & Hk & _ & Hin & Hn & Hnd). rewrite Hfold in Hin.
    apply list_elem_of_fmap in Hin as (x & -> & Hx). apply list_elem_of_filter in Hx as [Hsvc Hx].
    by exists x, k, ep.
  - intros (x & k & ep & Hx & Hn & Hk & Hsvc & Hnd). exists k, ep.
    exists (mkPoolBackend (vs_PoolName (port_server x)) (an_Weight x.1.2) "" "").
    split; [done|]. split; [rewrite Hsvc; by apply H4|]. split; [|done].
    rewrite Hfold. apply list_elem_of_fmap. exists x. split; [done|]. apply list_elem_of_filter. by split.
Qed.
End scan.

Section panics.
Context `{GoRuntimeLaws}.
Context (lst : Listers) (ports : ListenPorts) (IPInCurrentHost : string → bool) (SSL_PROTOCOLS : string).

(** An ingress whose annotations ask for a port of this node and that names no service. *)
Definition portless (ing : Ingress) : Prop :=
  ∃ anns, counted lst ing = Some anns ∧ is_l4 anns = true ∧
    host_here IPInCurrentHost (l4_host (an_L4 anns)) = true ∧ ing_Backend ing = None.

(** Making the servers ends in a panic exactly if an ingress that
    counts is for a port of this node and has no default backend; there are no
    errors. *)
Theorem listing_panics (again : list Ingress) (p : PoolMaps) :
  (ListVirtualService lst ports IPInCurrentHost SSL_PROTOCOLS again p = Panic ↔ Exists portless (ls_Ingress lst)) ∧
  ∀ e, ListVirtualService lst ports IPInCurrentHost SSL_PROTOCOLS again p ≠ Err e.
Proof.
  assert (∀ l st, (add_ingresses lst ports IPInCurrentHost SSL_PROTOCOLS l st = Panic ↔ Exists portless l) ∧
    ∀ e, add_ingresses lst ports IPInCurrentHost SSL_PROTOCOLS l st ≠ Err e) as Hgo.
  { induction l as [|ing l IH]; intros st; [split; [split; [done|by intros ?%Exists_nil]|done]|].
    cbn [add_ingresses]. rewrite Exists_cons.
    assert ((portless ing ∧ add_ingress lst ports IPInCurrentHost SSL_PROTOCOLS st ing = Panic) ∨
      (¬ portless ing ∧ ∃ st', add_ingress lst ports IPInCurrentHost SSL_PROTOCOLS st ing = Ok st'))
      as [[Hp ->]|[Hp [st' ->]]].
    - unfold portless, counted, add_ingress. destruct (ingressIsValid lst ing); [|right; split; [|by eexists]; naive_solver].
      destruct (ls_Annotation lst !! ing_key ing) as [anns|]; [|right; split; [|by eexists]; naive_solver].
      destruct (is_l4 anns) eqn:E1; [|right; split; [|by eexists]; intros (? & [= <-] & ? & _); congruence].
      unfold add_l4. destruct (host_here _ _) eqn:E2;
        [|right; split; [|by eexists]; intros (? & [= <-] & _ & ? & _); congruence].
      cbn [negb]. destruct (ing_Backend ing) as [b|] eqn:E3; [right|left; split; [by eexists|done]].
      split; [intros (? & _ & _ & _ & ?); congruence|]. destruct (bool_decide _); by eexists.
    - cbn [then_do]. split; [|done]. split; [by left|done].
    - cbn [then_do]. destruct (IH st') as [IH1 IH2]. split; [|exact IH2]. rewrite IH1. tauto. }
  destruct (Hgo (ls_Ingress lst) (start_scan p)) as [H1 H2]. unfold ListVirtualService.
  destruct (add_ingresses _ _ _ _ _ _) as [st|e|]; cbn [then_do].
  - split; [|done]. rewrite <- H1. done.
  - by destruct (H2 e).
  - split; [|done]. rewrite <- H1. done.
Qed.
End panics.

(** ** An example *)

Definition demo_annotated (name : string) (annos : gmap string string) (rules : list IngressRule) (tls : list IngressTLS)
    (b : option IngressBackend) : Ingress :=
  mkIngress (zero_meta <| m_Name := name |> <| m_Namespace := "t" |> <| m_Annotations := annos |>) rules tls b "".

Definition demo_rule (host service : string) : IngressRule := mkIngressRule host [("/", mkBackend service 80)]%string.

Definition demo_http : Ingress := demo_annotated "r1" ∅ [demo_rule "a.com" "web"] [] None.

Definition demo_tcp (name service : string) : Ingress :=
  demo_annotated name (<[GetAnnotationWithPrefix "l4-enable" := "true"]> {[GetAnnotationWithPrefix "l4-port" := "9000"]})%string
    [] [] (Some (mkBackend service 5000)).

Definition demo_eps (ns name ip : string) : Endpoints :=
  mkEndpoints (zero_meta <| m_Name := name |> <| m_Namespace := ns |>) [mkSubset [ip] [] [("", 5000%Z)]]%string.

Definition demo_eps_map : gmap string Endpoints :=
  <["t/web" := demo_eps "t" "web" "10.0.0.1"]> (<["t/db" := demo_eps "t" "db" "10.0.0.2"]>
  (<["t/app" := demo_eps "t" "app" "10.0.0.3"]> {["u/web" := demo_eps "u" "web" "10.9.9.9"]}))%string.

Definition demo_listers (ings : list Ingress) (ssl : gmap string SSLCert) : Listers :=
  mkListers ings demo_eps_map ∅ (list_to_map ((λ i, (ing_key i, @Extract ref_runtime i)) <$> ings)) ssl.

Definition demo_ports : ListenPorts := mkListenPorts 80 443 18080 18081 10254.

Definition demo_list (ings : list Ingress) (ssl : gmap string SSLCert) :
    result (list VirtualService * list VirtualService * PoolMaps) :=
  ListVirtualService (demo_listers ings ssl) demo_ports (λ _, false) "" ings (mkPoolMaps ∅ ∅ ∅ ∅).

Definition demo_ings : list Ingress := [demo_http; demo_tcp "r2" "db"].
Definition demo_made : list VirtualService * list VirtualService * PoolMaps :=
  match demo_list demo_ings ∅ with Ok x => x | _ => ([], [], mkPoolMaps ∅ ∅ ∅ ∅) end.

Lemma demo_lists : demo_list demo_ings ∅ = Ok (demo_made.1.1, demo_made.1.2, demo_made.2).
Proof.
  unfold demo_made. assert (match demo_list demo_ings ∅ with Ok _ => True | _ => False end) as H by (vm_compute; exact I).
  destruct (demo_list demo_ings ∅) as [[[a b] c]|e|]; [reflexivity|destruct H|destruct H].
Qed.

Definition demo_req : Req := mkReq demo_http (@Extract ref_runtime demo_http) "a.com" "/" (mkBackend "web" 80).

Lemma demo_requests : demo_req ∈ requests (demo_listers demo_ings ∅) ∧ Forall plain_request (requests (demo_listers demo_ings ∅)).
Proof.
  assert (requests (demo_listers demo_ings ∅) = [demo_req]) as -> by (vm_compute; reflexivity).
  split; [by apply list_elem_of_singleton|]. constructor; [|constructor]. split; [reflexivity|]. exists ""%string. reflexivity.
Qed.

Lemma server_names_distinct_witness : NoDup (vs_ServerName <$> demo_made.1.1).
Proof. exact (@server_names_distinct _ _ _ _ _ _ _ _ _ demo_lists). Defined.

Lemma pools_exact_witness : ∃ pool, pool ∈ (@ListPool ref_runtime (demo_listers demo_ings ∅) demo_made.2).1 ∧
  po_Name pool = rq_bname demo_req ∧ mkNode "10.0.0.1" 5000 1 ∈ po_Nodes pool.
Proof.
  apply (@pools_exact ref_runtime ref_runtime_laws _ _ _ _ _ _ _ _ _ (rq_bname demo_req) (mkNode "10.0.0.1" 5000 1) demo_lists).
  exists demo_req, "t/web"%string, (demo_eps "t" "web" "10.0.0.1"). split; [apply demo_requests|]. split; [done|].
  split; [by vm_compute|]. split; [done|]. apply (bool_decide_unpack _). vm_compute. exact I.
Defined.

Lemma paths_served_witness : ∃ vs loc, vs ∈ demo_made.1.1 ∧ vs_ServerName vs = "a.com"%string ∧ loc ∈ vs_Locations vs ∧
  lc_Path loc = "/"%string ∧ lc_DisableProxyPass loc = false ∧ is_Some (lc_NameCondition loc !! rq_bname demo_req).
Proof.
  apply (@paths_served _ _ _ _ _ _ _ _ _ "a.com" "/" (rq_bname demo_req) demo_lists
    (proj2 demo_requests)).
  exists demo_req. split; [apply demo_requests|done].
Defined.

Lemma ports_exact_witness : vs_Listening <$> demo_made.1.2 = [["0.0.0.0:9000"%string]].
Proof.
  destruct (@ports_exact ref_runtime ref_runtime_laws _ _ _ _ _ _ _ _ _ demo_lists) as [-> _].
  vm_compute. reflexivity.
Defined.

(** Two ingresses for one port: the second one is not left out, as the code
    says it is. *)
Example port_served_twice :
  match demo_list [demo_tcp "r2" "db"; demo_tcp "r3" "app"] ∅ with
  | Ok (_, l4, _) => vs_Listening <$> l4
  | _ => []
  end = [["0.0.0.0:9000"]; ["0.0.0.0:9000"]]%string.
Proof. vm_compute. reflexivity. Qed.

(** Endpoints of another namespace with the name of the service serve it too. *)
Example foreign_endpoints_serve :
  match demo_list [demo_http] ∅ with
  | Ok (_, _, p) => (@ListPool ref_runtime (demo_listers [demo_http] ∅) p).1 ≫= (λ pool, nd_Host <$> po_Nodes pool)
  | _ => []
  end ≡ₚ ["10.0.0.1"; "10.9.9.9"]%string.
Proof.
  assert (∀ (l : list string) a b, l = [a; b] ∨ l = [b; a] → l ≡ₚ [a; b]) as Hp.
  { intros l a b [->| ->]; [done|apply Permutation_swap]. }
  apply Hp. vm_compute. (by left) || (by right).
Qed.

(** Hosts that differ in a dot and a dash share a backend. *)
Example hosts_share_backend : BackendName (locKey "a-b.com" "/" +:+ "_default") "t" = BackendName (locKey "a.b.com" "/" +:+ "_default") "t".
Proof. vm_compute. reflexivity. Qed.

(** With two certificates every host gets the first one. *)
Definition demo_cert (n : nat) (cn : string) : SSLCert := mkSSLCert n (Some cn) cn "" (cn +:+ ".pem") [cn].
Definition demo_tls : Ingress :=
  demo_annotated "r4" ∅ [demo_rule "a.com" "web"; demo_rule "b.com" "web"] [mkTLS ["a.com"] "ca"; mkTLS ["b.com"] "cb"]%string None.

Example first_certificate_for_all :
  match demo_list [demo_tls] (<["t/ca" := demo_cert 0 "a.com"]> {["t/cb" := demo_cert 1 "b.com"]})%string with
  | Ok (l7, _, _) => (λ vs, (vs_ServerName vs, sc_CN <$> vs_SSLCert vs)) <$> l7
  | _ => []
  end = [("tlsa.com", Some ["a.com"]); ("tlsb.com", Some ["a.com"])]%string.
Proof. vm_compute. reflexivity. Qed.

(** Two ingresses that redirect one path: two locations for it in one server. *)
Definition demo_redirect (name : string) : Ingress :=
  demo_annotated name {[GetAnnotationWithPrefix "force-ssl-redirect" := "true"%string]} [demo_rule "a.com" "web"]
    [mkTLS ["a.com"] "ca"]%string None.

Example redirect_location_twice :
  match demo_list [demo_redirect "r5"; demo_redirect "r6"] {["t/ca" := demo_cert 0 "a.com"]}%string with
  | Ok (l7, _, _) => (λ vs, (vs_ServerName vs, lc_Path <$> vs_Locations vs)) <$> l7
  | _ => []
  end = [("tlsa.com", ["/"]); ("a.com", ["/"; "/"])]%string.
Proof. vm_compute. reflexivity. Qed.
