(* ===== verification/GwSync.v ===== *)
(** * The gateway at work

    The handlers of [gateway/store] that keep annotations and certificates up
    to date, the translation of virtual services into nginx servers and of
    pools into upstreams ([gateway/controller/openresty]), the file that holds
    the servers and its rollback, and [syncGateway], which ties them together. *)
From stdpp Require Import pretty.
From S2P Require Import Prelude Variables Kube Ensure Conversion Gateway Annotation GwModel GwStore.

(** ** Certificates and events: [gateway/store] *)

Inductive EventType := CreateEvent | UpdateEvent | DeleteEvent.
#[export] Instance EventType_eq_dec : EqDecision EventType.
Proof. solve_decision. Defined.

(** The store, the files of certificates it writes, the number of certificates
    made so far, and what it put on the update channel: the kind of an event
    and the key of its object. *)
Record GwState := mkGwState {
  gs_Ingress : gmap string Ingress;
  gs_Endpoint : gmap string Endpoints;
  gs_Service : gmap string Service;
  gs_Secret : gmap string Secret;
  gs_Annotation : gmap string Annotations;
  gs_secretIngressMap : gmap string (list string);
  gs_ssl : gmap string SSLCert;
  gs_made : nat;
  gs_files : gmap string string;
  gs_updates : list (EventType * string)
}.
#[export] Instance eta_GwState : Eta GwState := λ s,
  mkGwState (gs_Ingress s) (gs_Endpoint s) (gs_Service s) (gs_Secret s) (gs_Annotation s) (gs_secretIngressMap s)
    (gs_ssl s) (gs_made s) (gs_files s) (gs_updates s).

Definition CertificatePath : string := "/run/nginx/conf/certificate".

(** [strings.Replace(s, "/", "-", 1)] *)
Fixpoint dash_first (s : string) : string :=
  match s with
  | EmptyString => ""
  | String c s' => if char_is 47 c then String (Ascii.ascii_of_nat 45) s' else String c (dash_first s')
  end.
Definition pem_file (secrKey : string) : string := (CertificatePath +:+ "/" +:+ dash_first secrKey +:+ ".pem")%string.

Section events.
Context `{GoRuntime}.
(** The data of a secret; writing a file may fail; what [pem] and [x509] read from a file: the
    encoded certificate and its common name. *)
Context (secret_data : opaque → gmap string string).
Context (write_error : string → option error).
Context (parse_certificate : string → error + string * string).

Definition getCertificatePem (secrKey : string) (st : GwState) : GwState * (error + SSLCert) :=
  match gs_Secret st !! secrKey with
  | None => (st, inl (EMsg "the secret does not exists"))
  | Some secret =>
    let crt := default ""%string (secret_data (pl_rest secret) !! "tls.crt"%string) in
    let key := default ""%string (secret_data (pl_rest secret) !! "tls.key"%string) in
    let filename := pem_file secrKey in
    let content := (crt +:+ String (Ascii.ascii_of_nat 10) "" +:+ key)%string in
    match write_error filename with
    | Some e => (st, inl e)
    | None =>
      let st := st <| gs_files ::= <[filename := content]> |> in
      match parse_certificate content with
      | inl e => (st, inl (EWrap "generate certificate object failed" e))
      | inr (raw, cn) => (st <| gs_made ::= S |>, inr (mkSSLCert (gs_made st) (Some raw) raw key filename [cn]))
      end
    end
  end.

Definition syncSecret (st : GwState) (secrKey : string) : GwState :=
  match getCertificatePem secrKey st with
  | (st, inl _) => st
  | (st, inr cert) =>
    match gs_ssl st !! secrKey with
    | Some old => if SSLCert_Equals cert old then st else st <| gs_ssl ::= <[secrKey := cert]> |>
    | None => st <| gs_ssl ::= <[secrKey := cert]> |>
    end
  end.

Definition getSecretKeys (st : GwState) (key : string) : list string := default [] (gs_secretIngressMap st !! key).

Definition syncSecrets (ing : Ingress) (st : GwState) : GwState := foldl syncSecret st (getSecretKeys st (ing_key ing)).

Definition extractAnnotations (ing : Ingress) (st : GwState) : GwState :=
  st <| gs_Annotation ::= <[ing_key ing := Extract ing]> |>.

(** [secretIngressMap.update]: one more key for each certificate, every time. *)
Definition update_secret_map (ing : Ingress) (st : GwState) : GwState :=
  foldl (λ st tls, st <| gs_secretIngressMap ::= λ m,
    <[ing_key ing := default [] (m !! ing_key ing) ++ [(m_Namespace (ing_meta ing) +:+ "/" +:+ tls_SecretName tls)%string]]> m |>)
    st (ing_TLS ing).

Definition send (t : EventType) (key : string) (st : GwState) : GwState := st <| gs_updates ::= λ l, l ++ [(t, key)] |>.

Definition take_ingress (ing : Ingress) (st : GwState) : GwState :=
  syncSecrets ing (update_secret_map ing (extractAnnotations ing st)).

(** The informer changes the lister before it calls a handler.  Two versions
    with the same resource version are ignored, and equal ones have the same. *)
Definition ingress_added (ing : Ingress) (st : GwState) : GwState :=
  send CreateEvent (ing_key ing) (take_ingress ing (st <| gs_Ingress ::= <[ing_key ing := ing]> |>)).

Definition ingress_updated (old cur : Ingress) (st : GwState) : GwState :=
  let st := st <| gs_Ingress ::= <[ing_key cur := cur]> |> in
  if decide (m_ResourceVersion (ing_meta old) = m_ResourceVersion (ing_meta cur)) then st
  else send UpdateEvent (ing_key cur) (take_ingress cur st).

(** Its annotations and the keys of its secrets stay. *)
Definition ingress_deleted (ing : Ingress) (st : GwState) : GwState :=
  send DeleteEvent (ing_key ing) (st <| gs_Ingress ::= delete (ing_key ing) |>).

Definition sec_key (s : Secret) : string := meta_key (pl_meta s).

(** The keys found for a secret are looked up among the ingresses. *)
Definition sync_users (ings : list string) (st : GwState) : GwState :=
  foldl (λ st k, match gs_Ingress st !! k with Some ing => syncSecrets ing st | None => st end) st ings.

Definition secret_changed (t : EventType) (s : Secret) (st : GwState) : GwState :=
  match getSecretKeys st (sec_key s) with
  | [] => st
  | ings => send t (sec_key s) (sync_users ings st)
  end.

Definition secret_added (s : Secret) (st : GwState) : GwState :=
  secret_changed CreateEvent s (st <| gs_Secret ::= <[sec_key s := s]> |>).

Definition secret_updated (old cur : Secret) (st : GwState) : GwState :=
  let st := st <| gs_Secret ::= <[sec_key cur := cur]> |> in
  if decide (m_ResourceVersion (pl_meta old) = m_ResourceVersion (pl_meta cur)) then st
  else secret_changed UpdateEvent cur st.

Definition secret_deleted (s : Secret) (st : GwState) : GwState :=
  let st := st <| gs_Secret ::= delete (sec_key s) |> <| gs_ssl ::= delete (sec_key s) |> in
  match getSecretKeys st (sec_key s) with
  | [] => st
  | _ => send DeleteEvent (sec_key s) st
  end.

Definition ep_key (ep : Endpoints) : string := meta_key (ep_meta ep).
Definition endpoints_added (ep : Endpoints) (st : GwState) : GwState :=
  send CreateEvent (ep_key ep) (st <| gs_Endpoint ::= <[ep_key ep := ep]> |>).
Definition endpoints_updated (old cur : Endpoints) (st : GwState) : GwState :=
  let st := st <| gs_Endpoint ::= <[ep_key cur := cur]> |> in
  if decide (m_ResourceVersion (ep_meta old) ≠ m_ResourceVersion (ep_meta cur) ∧ ep_Subsets old ≠ ep_Subsets cur)
  then send UpdateEvent (ep_key cur) st else st.
Definition endpoints_deleted (ep : Endpoints) (st : GwState) : GwState :=
  send DeleteEvent (ep_key ep) (st <| gs_Endpoint ::= delete (ep_key ep) |>).

(** One round of [loopUpdateIngress]: an address of the node changed. *)
Definition ip_changed (t : EventType) (ip : string) (st : GwState) : GwState :=
  foldl (λ st ing, if decide (L4Host (an_L4 (Extract ing)) = ip) then send t (ing_key ing) (take_ingress ing st) else st)
    st (range_order (gs_Ingress st)).*2.

(** What [ListVirtualService] and [ListPool] see; [ings] is what [Ingress.List] returned,
    which ranges over a map in an order of its own every time. *)
Definition listers (ings : list Ingress) (st : GwState) : Listers :=
  mkListers ings (gs_Endpoint st) (gs_Service st) (gs_Annotation st) (gs_ssl st).
End events.

(** ** nginx servers: [openresty/model] and [openresty/service.go] *)

Record NgxLocation := mkNgxLocation {
  nl_DisableAccessLog : bool;
  nl_AccessLogPath : string;
  nl_EnableMetrics : bool;
  nl_Path : string;
  nl_NameCondition : gmap string Condition;
  nl_Proxy : ProxyConfig;
  nl_Rewrite : RewriteConfig;
  nl_PathRewrite : bool;
  nl_DisableProxyPass : bool
}.
#[export] Instance eta_NgxLocation : Eta NgxLocation := λ l,
  mkNgxLocation (nl_DisableAccessLog l) (nl_AccessLogPath l) (nl_EnableMetrics l) (nl_Path l) (nl_NameCondition l)
    (nl_Proxy l) (nl_Rewrite l) (nl_PathRewrite l) (nl_DisableProxyPass l).

Record NgxServer := mkNgxServer {
  ns_Listen : string;
  ns_Protocol : string;
  ns_ServerName : string;
  ns_OptionValue : gmap string string;
  ns_SSLProtocols : string;
  ns_SSLCertificate : string;
  ns_SSLCertificateKey : string;
  ns_EnableSSLStapling : bool;
  ns_UpstreamName : string;
  ns_Locations : list NgxLocation;
  ns_ProxyStreamTimeout : string;
  ns_ProxyStreamNextUpstream : bool;
  ns_ProxyStreamNextUpstreamTimeout : string;
  ns_ProxyStreamNextUpstreamTries : Z
}.
#[export] Instance eta_NgxServer : Eta NgxServer := λ s,
  mkNgxServer (ns_Listen s) (ns_Protocol s) (ns_ServerName s) (ns_OptionValue s) (ns_SSLProtocols s)
    (ns_SSLCertificate s) (ns_SSLCertificateKey s) (ns_EnableSSLStapling s) (ns_UpstreamName s) (ns_Locations s)
    (ns_ProxyStreamTimeout s) (ns_ProxyStreamNextUpstream s) (ns_ProxyStreamNextUpstreamTimeout s)
    (ns_ProxyStreamNextUpstreamTries s).

(** The options of the gateway that its servers depend on. *)
Record GwOptions := mkGwOptions { go_ports : ListenPorts; go_AccessLogPath : string; go_EnableSSLStapling : bool }.

(** [strings.Replace(s, sub, "", 1)] *)
Fixpoint remove_first_sub (sub s : string) : string :=
  match strip_prefix sub s with
  | Some rest => rest
  | None => match s with EmptyString => "" | String c s' => String c (remove_first_sub sub s') end
  end.

Definition option_values (m : Meta) : gmap string string :=
  {["tenant_id" := mt_Namespace m; "service_id" := mt_ServiceID m]}%string.

Section nginx.
Context (conf : GwOptions).

Definition ngx_location (loc : Location) : NgxLocation :=
  mkNgxLocation (bool_decide (go_AccessLogPath conf = ""%string)) (go_AccessLogPath conf) true (lc_Path loc)
    (lc_NameCondition loc) (lc_Proxy loc) (lc_Rewrite loc) false (lc_DisableProxyPass loc).

Definition l7_ngx_server (vs : VirtualService) : NgxServer :=
  let '(protocols, certificate, stapling) :=
    match vs_SSLCert vs with
    | Some c => (vs_SSlProtocols vs, sc_CertificatePem c, go_EnableSSLStapling conf)
    | None => (""%string, ""%string, false)
    end in
  mkNgxServer (String.concat " " (vs_Listening vs)) "HTTP" (remove_first_sub "tls" (vs_ServerName vs))
    (option_values (vs_Meta vs)) protocols certificate certificate stapling "" (ngx_location <$> vs_Locations vs)
    "" true "600s" 3.

Definition l4_ngx_server (vs : VirtualService) : NgxServer :=
  mkNgxServer (String.concat " " (vs_Listening vs)) (vs_Protocol vs) "" (option_values (vs_Meta vs)) "" "" "" false
    (vs_PoolName vs) [] "" true "600s" 3.

Definition getNgxServer (c : Config) : list NgxServer * list NgxServer :=
  (l7_ngx_server <$> cf_L7VS c, l4_ngx_server <$> cf_L4VS c).
End nginx.

(** *** Validation *)

Section validation.
(** [httpguts.ValidHeaderFieldName] and [httpguts.ValidHeaderFieldValue]. *)
Context (ValidHeaderFieldName ValidHeaderFieldValue : string → bool).

Definition or_str (s d : string) : string := if decide (s = ""%string) then d else s.

Definition Proxy_Validation (s : ProxyConfig) : error + ProxyConfig :=
  if forallb (λ '(k, v), ValidHeaderFieldName k && ValidHeaderFieldValue v) (map_to_list (px_SetHeaders s)) then
    inr (s <| px_ProxyBuffering ::= λ x, or_str x (bk_ProxyBuffering NewDefault) |>
           <| px_BufferSize ::= λ x, or_str x (bk_ProxyBufferSize NewDefault) |>
           <| px_BuffersNumber ::= λ x, if decide (x = 0%Z) then bk_ProxyBuffersNumber NewDefault else x |>
           <| px_RequestBuffering ::= λ x, or_str x (bk_ProxyRequestBuffering NewDefault) |>
           <| px_CookieDomain ::= λ x, or_str x (bk_ProxyCookieDomain NewDefault) |>
           <| px_CookiePath ::= λ x, or_str x (bk_ProxyCookiePath NewDefault) |>)
  else inl (EMsg "header is valid").

Definition Location_Validation (l : NgxLocation) : error + NgxLocation :=
  if decide (nl_Path l = ""%string) then inl (EMsg "location path can not be empty")
  else match Proxy_Validation (nl_Proxy l) with
       | inl e => inl (EWrap "location proxy config is valid" e)
       | inr p => inr (l <| nl_Proxy := p |>)
       end.

Fixpoint validate_locations (l : list NgxLocation) : error + list NgxLocation :=
  match l with
  | [] => inr []
  | x :: l' => match Location_Validation x with
               | inl e => inl e
               | inr x => match validate_locations l' with inl e => inl e | inr l' => inr (x :: l') end
               end
  end.

Definition Server_Validation (s : NgxServer) : error + NgxServer :=
  if has_char 32 (ns_ServerName s) then inl (EMsg "servername is valid") else
  let s := s <| ns_ProxyStreamTimeout ::= λ x, or_str x "600s" |>
             <| ns_Protocol ::= λ x, or_str x (if decide (ns_ServerName s = ""%string) then "TCP" else "HTTP") |> in
  match validate_locations (ns_Locations s) with
  | inl e => inl (EWrap "servername location is valid" e)
  | inr l => inr (s <| ns_Locations := l |>)
  end.

Definition valid_servers (servers : list NgxServer) : list NgxServer :=
  omap (λ s, match Server_Validation s with inr s => Some s | inl _ => None end) servers.

(** ** Writing the configuration: [openresty/template] *)

Inductive fs_op := OpMkdir | OpRead | OpRename | OpOpen | OpWrite | OpRollback | OpRemove.

Abbreviation Files := (gmap string string).

(** The operations on files that fail; what is on disk after a write that
    fails; [nginx -t] on the files; the template engine. *)
Context (fails : fs_op → bool) (partial : string → string).
Context (CheckConfig : Files → bool).

Definition bak (file : string) : string := (file +:+ ".bak")%string.

(** After the rename and the write: the new file is tested, and the old one
    put back if the test fails. *)
Definition test_written (file : string) (old : option string) (fs : Files) : Files * option error :=
  if CheckConfig fs then
    (match old with
     | Some _ => if fails OpRemove then fs else delete (bak file) fs
     | None => fs
     end, None)
  else
    (match old with
     | Some o => if fails OpRollback then fs else <[file := o]> (delete (bak file) fs)
     | None => fs
     end, Some (EMsg "nginx config check error")).

(** A file that cannot be read is taken for a file that does not exist.  The
    file is opened for appending. *)
Definition writeFile (body file : string) (fs : Files) : Files * option error :=
  if fails OpMkdir then (fs, Some (EMsg "check or create dir failure")) else
  let old := if fails OpRead then None else fs !! file in
  if bool_decide (is_Some old) && fails OpRename then (fs, Some (EMsg "rename server config file failure")) else
  let fs := match old with Some o => <[bak file := o]> (delete file fs) | None => fs end in
  if fails OpOpen then (fs, Some (EMsg "open server config file failure")) else
  let written := if fails OpWrite then partial body else body in
  let fs := <[file := (default ""%string (fs !! file) +:+ written)%string]> fs in
  if fails OpWrite then (fs, Some (EMsg "write server config file failure")) else
  test_written file old fs.

(** [NginxServerContext] *)
Record NginxServerContext := mkContext {
  nc_Servers : list NgxServer; nc_TCPBackends : list NgxServer; nc_UDPBackends : list NgxServer }.

Definition with_protocol (p : string) (l : list NgxServer) : list NgxServer :=
  base.filter (λ s, ns_Protocol s = p) l.

Context (render : string → NginxServerContext → error + string).
Context (configFileDirPath : string).

Definition server_file (configtype tenant : string) : string :=
  (configFileDirPath +:+ "/" +:+ configtype +:+ "/" +:+ tenant +:+ "/" +:+ tenant +:+ "_servers.conf")%string.

(** An error of [writeFile] is only logged when there are servers. *)
Definition WriteServer (configtype tenant : string) (servers : list NgxServer) (fs : Files) : Files * option error :=
  let tenant := or_str tenant "default" in
  let configtype := or_str configtype "http" in
  let file := server_file configtype tenant in
  match valid_servers servers with
  | [] => writeFile "" file fs
  | valid =>
    match render configtype (mkContext (with_protocol "HTTP" valid) (with_protocol "TCP" valid) (with_protocol "UDP" valid)) with
    | inl e => (fs, Some e)
    | inr body => ((writeFile body file fs).1, None)
    end
  end.

Context (conf : GwOptions).
(** [nginxcmd.Reload] *)
Context (Reload : Files → option error).

Definition PersistConfig (c : Config) (fs : Files) : Files * option error :=
  let '(l7srv, l4srv) := getNgxServer conf c in
  let fs := (WriteServer "http" "" l7srv fs).1 in
  let fs := (WriteServer "stream" "" l4srv fs).1 in
  (fs, Reload fs).

(** ** Upstreams *)

(** [model.Backend], with its endpoints by address, port and weight. *)
Record NgxBackend := mkNgxBackend {
  nb_Name : string;
  nb_Endpoints : list (string * string * Z);
  nb_AffinityType : string;
  nb_CookieName : string;
  nb_UpstreamHashBy : string;
  nb_LoadBalancing : string
}.

(** [model.CreateBackendByPool] *)
Definition CreateBackendByPool (pool : Pool) : NgxBackend :=
  let '(lb, affinity, cookie) :=
    if decide (po_LoadBalancingType pool = RoundRobin) then ("round_robin", "", "")%string
    else if decide (po_LoadBalancingType pool = CookieSessionAffinity) then ("", "cookie", "kato-route")%string
    else ("", "", "")%string in
  mkNgxBackend (po_Name pool) ((λ n, (nd_Host n, pretty (nd_Port n), nd_Weight n)) <$> po_Nodes pool)
    affinity cookie (po_UpstreamHashBy pool) lb.

(** [persistUpstreams]: the weights stay behind. *)
Definition stream_backend (pool : Pool) : NgxBackend :=
  mkNgxBackend (po_Name pool) ((λ n, (nd_Host n, pretty (nd_Port n), 0%Z)) <$> po_Nodes pool) "" "" "" "".

(** What goes to nginx while it runs, and the metrics. *)
Inductive Output :=
  | SetStreams (l : list NgxBackend)
  | SetBackends (l : list NgxBackend)
  | SetHosts (current : gset string)
  | RemoveHostMetric (remove : gset string)
  | SetServerNum (http tcp : nat).

(** Sending upstreams may fail; a failure is logged by the caller. *)
Context (send_error : Output → option error).

(** Nothing is sent for a list of pools that is empty. *)
Definition UpdatePools (hpools tpools : list Pool) : list Output * option error :=
  let streams := match tpools with [] => [] | _ => [SetStreams (stream_backend <$> tpools)] end in
  match hpools with
  | [] => (streams, None)
  | _ => let o := SetBackends (CreateBackendByPool <$> hpools) in (streams ++ [o], send_error o)
  end.

(** ** [controller.go] *)

Definition getHosts (rucfg : option Config) (newcfg : Config) : gset string * gset string :=
  let names cfg := list_to_set (vs_ServerName <$> cf_L7VS cfg) in
  let old := match rucfg with Some c => names c | None => ∅ end in
  (old ∖ names newcfg, names newcfg).

Record GWController := mkGWController {
  gw_store : GwState;
  gw_pools : PoolMaps;
  gw_rcfg : option Config;
  gw_rrhp : list Pool;
  gw_rrtp : list Pool;
  gw_fs : Files;
  gw_out : list Output
}.
#[local] Instance eta_GWController : Eta GWController := λ g,
  mkGWController (gw_store g) (gw_pools g) (gw_rcfg g) (gw_rrhp g) (gw_rrtp g) (gw_fs g) (gw_out g).

Context `{GoRuntime} (IPInCurrentHost : string → bool) (SSL_PROTOCOLS : string).

(** The configuration the store asks for, when the ingresses are listed as [ings]
    and, for the redirections, as [again]. *)
Definition current_config (g : GWController) (ings again : list Ingress) : result (Config * PoolMaps) :=
  let lst := listers ings (gw_store g) in
  then_do (ListVirtualService lst (go_ports conf) IPInCurrentHost SSL_PROTOCOLS again (gw_pools g))
    (λ '(l7sv, l4sv, pools),
      let '(httpPools, tcpPools) := ListPool lst pools in
      Ok (mkConfig httpPools tcpPools l7sv l4sv, pools)).

Definition persist_current (cfg : Config) (http tcp : nat) (g : GWController) : GWController :=
  let '(fs, err) := PersistConfig cfg (gw_fs g) in
  let g := g <| gw_fs := fs |> in
  match err with
  | Some _ => g
  | None =>
    let '(remove, hosts) := getHosts (gw_rcfg g) cfg in
    g <| gw_out ::= λ o, o ++ [SetHosts hosts; RemoveHostMetric remove; SetServerNum http tcp] |>
      <| gw_rcfg := Some cfg |>
  end.

(** It never returns an error to the queue, which would try again. *)
Definition syncGateway (shutting_down : bool) (ings again : list Ingress) (g : GWController) : result GWController :=
  if shutting_down then Ok g else
  then_do (current_config g ings again) (λ '(cfg, pools),
    let httpPools := cf_HTTPPools cfg ++ gw_rrhp g in
    let tcpPools := cf_TCPPools cfg ++ gw_rrtp g in
    let g := g <| gw_pools := pools |> <| gw_out ::= λ o, o ++ (UpdatePools httpPools tcpPools).1 |> in
    Ok (if Config_Equals (gw_rcfg g) cfg then g else persist_current cfg (length httpPools) (length tcpPools) g)).
End validation.

(** A host that contains the prefix loses it. *)
Example tls_in_host : remove_first_sub "tls" "mytls.com" = "my.com"%string.
Proof. vm_compute. reflexivity. Qed.
