(* ===== verification/GwSyncSpec.v ===== *)
(** * The gateway at work: theorems

    About the comparison of configurations ([GwModel]), and about certificates,
    the file of servers and [syncGateway] ([GwSync]). *)
From stdpp Require Import pretty.
From S2P Require Import Prelude Variables Kube Ensure Conversion Gateway EventFile Annotation GwModel GwStore GwStoreSpec GwSync.

(** ** Comparison *)

Lemma str_eqb_true a b : str_eqb a b = true ↔ a = b.
Proof. apply bool_decide_eq_true. Qed.

Lemma each_has_spec {A B} (eq : A → B → bool) l l' :
  each_has eq l l' = true ↔ ∀ x, x ∈ l → ∃ y, y ∈ l' ∧ eq x y = true.
Proof.
  unfold each_has. rewrite forallb_forall. split; intros Hx x Hin.
  - apply list_elem_of_In, Hx, existsb_exists in Hin as (y & Hy & E). exists y. by rewrite list_elem_of_In.
  - apply list_elem_of_In, Hx in Hin as (y & Hy & E). apply existsb_exists. exists y. by rewrite <- list_elem_of_In.
Qed.

Lemma slices_match_refl {A} (eq : A → A → bool) l : (∀ x, x ∈ l → eq x x = true) → slices_match eq l l = true.
Proof.
  intros Hr. unfold slices_match. rewrite bool_decide_eq_true_2 by done. apply each_has_spec. intros x Hx.
  exists x. split; [done|by apply Hr].
Qed.

(** Slices of one length, the first without two elements of one key, match element by element. *)
Lemma slices_match_perm {A K} (eq : A → A → bool) (key : A → K) l l' :
  (∀ x y, eq x y = true → key x = key y) → NoDup (key <$> l) → slices_match eq l l' = true →
  ∃ l2, l2 ≡ₚ l' ∧ Forall2 (λ x y, eq x y = true) l l2.
Proof.
  intros Hkey Hnd [Hlen%bool_decide_eq_true Hall]%andb_true_iff. rewrite each_has_spec in Hall.
  revert l' Hlen Hall. induction l as [|x l IH]; intros l' Hlen Hall.
  { exists []. destruct l'; [by split|done]. }
  rewrite fmap_cons, NoDup_cons in Hnd. destruct Hnd as [Hx Hnd].
  destruct (Hall x) as (y & Hy & Exy); [apply list_elem_of_here|].
  apply list_elem_of_split in Hy as (l1 & l2 & ->).
  destruct (IH Hnd (l1 ++ l2)) as (l3 & Hp & Hf).
  - rewrite length_app in *. cbn in Hlen. lia.
  - intros z Hz. destruct (Hall z) as (w & Hw & Ezw); [by apply list_elem_of_further|]. exists w. split; [|done].
    apply elem_of_app in Hw as [Hw|Hw]; [apply elem_of_app; by left|].
    apply elem_of_cons in Hw as [->|Hw]; [|apply elem_of_app; by right]. destruct Hx.
    rewrite (Hkey _ _ Exy), <- (Hkey _ _ Ezw). by apply list_elem_of_fmap_2.
  - exists (y :: l3). split; [rewrite Hp; apply Permutation_middle|by constructor].
Qed.

Lemma sub_map_eq {V} (m m' : gmap string V) :
  size m = size m' → (∀ k v, m !! k = Some v → m' !! k = Some v) → m = m'.
Proof. intros Hs Hsub. apply map_subseteq_size_eq; [by apply map_subseteq_spec|lia]. Qed.

Lemma forall_map {V} (f : string → V → bool) (m : gmap string V) :
  forallb (λ '(k, v), f k v) (map_to_list m) = true ↔ ∀ k v, m !! k = Some v → f k v = true.
Proof.
  rewrite forallb_forall. split.
  - intros Hf k v Hk. apply (Hf (k, v)). by apply list_elem_of_In, elem_of_map_to_list.
  - intros Hf [k v] Hk. apply Hf. by apply elem_of_map_to_list, list_elem_of_In.
Qed.

Lemma Condition_Equals_eq c cc : Condition_Equals c cc = true ↔ c = cc.
Proof.
  unfold Condition_Equals. rewrite !andb_true_iff, !bool_decide_eq_true.
  rewrite (forall_map (λ k v, bool_decide (cd_Value cc !! k = Some v))). setoid_rewrite bool_decide_eq_true. split.
  - intros [[Ht Hs] Hv]. destruct c as [t m], cc as [t' m']. cbn in *. subst. f_equal. by apply sub_map_eq.
  - by intros ->.
Qed.

Lemma Proxy_Equal_refl s : Proxy_Equal s s = true.
Proof.
  unfold Proxy_Equal. apply andb_true_iff. split; [by apply bool_decide_eq_true|].
  apply (forall_map (λ k v, str_eqb (default ""%string (px_SetHeaders s !! k)) v)). intros k v Hk.
  apply str_eqb_true. by rewrite Hk.
Qed.

Lemma Location_Equals_spec l c : Location_Equals l c = true ↔
  lc_Path l = lc_Path c ∧ lc_NameCondition l = lc_NameCondition c ∧ Proxy_Equal (lc_Proxy l) (lc_Proxy c) = true.
Proof.
  unfold Location_Equals. rewrite !andb_true_iff, str_eqb_true, bool_decide_eq_true.
  rewrite (forall_map (λ name lcond, match lc_NameCondition c !! name with
                                     | Some ccond => Condition_Equals ccond lcond | None => false end)). split.
  - intros [[[Hp Hs] Hc] Hx]. split_and!; try done. apply sub_map_eq; [done|]. intros k v Hk. specialize (Hc k v Hk).
    destruct (lc_NameCondition c !! k) as [cc|]; [|done]. by apply Condition_Equals_eq in Hc as ->.
  - intros (Hp & Hc & Hx). rewrite Hc. split_and!; try done. intros k v Hk. rewrite Hk. by apply Condition_Equals_eq.
Qed.

Lemma Location_Equals_refl l : Location_Equals l l = true.
Proof. apply Location_Equals_spec. split_and!; try done. apply Proxy_Equal_refl. Qed.

(** A certificate is equal to itself by its pointer. *)
Lemma cert_Equals_refl s : cert_Equals s s = true.
Proof. destruct s as [s|]; [|done]. cbn. unfold SSLCert_Equals. by rewrite bool_decide_eq_true_2. Qed.

Lemma str_slices_refl l : slices_match str_eqb l l = true.
Proof. apply slices_match_refl. intros x _. by apply str_eqb_true. Qed.

Lemma VirtualService_Equals_refl v : VirtualService_Equals v v = true.
Proof.
  unfold VirtualService_Equals. rewrite !bool_decide_eq_true_2 by done. rewrite !str_slices_refl, cert_Equals_refl.
  rewrite slices_match_refl by (intros; apply Location_Equals_refl). unfold str_eqb. by rewrite !bool_decide_eq_true_2.
Qed.

Lemma Config_Equals_refl c : Config_Equals (Some c) c = true.
Proof. cbn. by rewrite !slices_match_refl by (intros; apply VirtualService_Equals_refl). Qed.

Lemma VirtualService_Equals_parts v c : VirtualService_Equals v c = true →
  vs_ServerName v = vs_ServerName c ∧ slices_match Location_Equals (vs_Locations v) (vs_Locations c) = true.
Proof.
  unfold VirtualService_Equals. rewrite !andb_true_iff. intros H.
  split; [apply str_eqb_true|]; tauto.
Qed.

(** Where a configuration sends the requests for a path of a server. *)
Definition routes (cfg : Config) (n q b : string) (c : Condition) : Prop :=
  ∃ vs loc, vs ∈ cf_L7VS cfg ∧ vs_ServerName vs = n ∧ loc ∈ vs_Locations vs ∧ lc_Path loc = q ∧
    lc_NameCondition loc !! b = Some c.

(** C27 (equivalence): when the gateway finds that a configuration equals the
    running one, and so writes nothing, both have the same routes: no server name and no path of a
    server may occur twice in the running one. *)
Theorem equal_configs_route_alike (cfg cfg' : Config) (Heq : Config_Equals (Some cfg) cfg' = true)
    (Hnames : NoDup (vs_ServerName <$> cf_L7VS cfg))
    (Hpaths : Forall (λ vs, NoDup (lc_Path <$> vs_Locations vs)) (cf_L7VS cfg)) (n q b : string) (c : Condition) :
  routes cfg n q b c ↔ routes cfg' n q b c.
Proof.
  cbn in Heq. apply andb_true_iff in Heq as [Heq _].
  apply (slices_match_perm _ vs_ServerName) in Heq as (l2 & Hp & Hf); [|by intros x y [? _]%VirtualService_Equals_parts|done].
  assert (∀ v v', v ∈ cf_L7VS cfg → VirtualService_Equals v v' = true →
    ∀ q c, (∃ loc, loc ∈ vs_Locations v ∧ lc_Path loc = q ∧ lc_NameCondition loc !! b = Some c) ↔
           (∃ loc, loc ∈ vs_Locations v' ∧ lc_Path loc = q ∧ lc_NameCondition loc !! b = Some c)) as Hlocs.
  { intros v v' Hv [_ Hl]%VirtualService_Equals_parts q' c'. rewrite Forall_forall in Hpaths.
    apply (slices_match_perm _ lc_Path) in Hl as (l3 & Hp3 & Hf3);
      [|by intros x y (? & _)%Location_Equals_spec|by apply Hpaths]. split.
    - intros (loc & Hin & Hq & Hc). apply list_elem_of_lookup in Hin as [i Hi].
      destruct (Forall2_lookup_l _ _ _ _ _ Hf3 Hi) as (loc' & Hi' & (E1 & E2 & _)%Location_Equals_spec).
      exists loc'. rewrite <- Hp3, <- E1, <- E2. split; [by eapply list_elem_of_lookup_2|done].
    - intros (loc & Hin & Hq & Hc). rewrite <- Hp3 in Hin. apply list_elem_of_lookup in Hin as [i Hi].
      destruct (Forall2_lookup_r _ _ _ _ _ Hf3 Hi) as (loc' & Hi' & (E1 & E2 & _)%Location_Equals_spec).
      exists loc'. rewrite E1, E2. split; [by eapply list_elem_of_lookup_2|done]. }
  split.
  - intros (v & loc & Hv & Hn & Hin & Hq & Hc). pose proof Hv as [i Hi]%list_elem_of_lookup.
    destruct (Forall2_lookup_l _ _ _ _ _ Hf Hi) as (v' & Hi' & E).
    destruct (proj1 (Hlocs v v' Hv E q c)) as (loc' & Hl); [by exists loc|]. exists v', loc'.
    apply VirtualService_Equals_parts in E as [E _]. rewrite <- Hp, <- E. split; [by eapply list_elem_of_lookup_2|done].
  - intros (v' & loc & Hv' & Hn & Hin & Hq & Hc). rewrite <- Hp in Hv'. apply list_elem_of_lookup in Hv' as [i Hi].
    destruct (Forall2_lookup_r _ _ _ _ _ Hf Hi) as (v & Hi' & E).
    assert (v ∈ cf_L7VS cfg) as Hv by by eapply list_elem_of_lookup_2.
    destruct (proj2 (Hlocs v v' Hv E q c)) as (loc' & Hl); [by exists loc|]. exists v, loc'.
    apply VirtualService_Equals_parts in E as [E _]. rewrite E. done.
Qed.

(** ** Certificates *)

(** Two certificates with one common name each, as the gateway makes them, are
    equal only if they are one object or have the same content under two
    common names. *)
Lemma certificates_never_equal s c cn cn' : sc_ptr s ≠ sc_ptr c → sc_CN s = [cn] → sc_CN c = [cn'] →
  SSLCert_Equals s c = true → cn ≠ cn'.
Proof.
  intros Hp Hs Hc. unfold SSLCert_Equals. rewrite bool_decide_eq_false_2 by done. rewrite Hs, Hc.
  unfold slices_match, each_has. cbn [forallb existsb].
  rewrite orb_false_l, orb_false_r, andb_true_r, !andb_true_iff, negb_true_iff. intros (_ & _ & Hn) ->.
  unfold str_eqb in Hn. by rewrite bool_decide_eq_true_2 in Hn.
Qed.

Section certificates.
Context `{GoRuntime}.
Context (secret_data : opaque → gmap string string) (write_error : string → option error).
Context (parse_certificate : string → error + string * string).

Abbreviation syncSecret := (GwSync.syncSecret secret_data write_error parse_certificate).
Abbreviation syncSecrets := (GwSync.syncSecrets secret_data write_error parse_certificate).
Abbreviation ingress_added := (GwSync.ingress_added secret_data write_error parse_certificate).
Abbreviation secret_changed := (GwSync.secret_changed secret_data write_error parse_certificate).
Abbreviation secret_updated := (GwSync.secret_updated secret_data write_error parse_certificate).

(** The certificate that the data of a secret make. *)
Definition cert_content (s : Secret) : string :=
  (default ""%string (secret_data (pl_rest s) !! "tls.crt"%string) +:+ String (Ascii.ascii_of_nat 10) "" +:+
   default ""%string (secret_data (pl_rest s) !! "tls.key"%string))%string.

Definition cert_of (ptr : nat) (key : string) (s : Secret) (raw cn : string) : SSLCert :=
  mkSSLCert ptr (Some raw) raw (default ""%string (secret_data (pl_rest s) !! "tls.key"%string)) (pem_file key) [cn].

(** A store in which the certificate of a key, if any, was made from the parser's output. *)
Definition certs_made (st : GwState) : Prop :=
  ∀ key c, gs_ssl st !! key = Some c → sc_ptr c < gs_made st ∧
    ∃ content raw cn, parse_certificate content = inr (raw, cn) ∧ sc_Certificate c = Some raw ∧ sc_CN c = [cn].

(** What [x509] reads from an encoded certificate is a function of it. *)
Definition names_determined : Prop := ∀ s s' raw cn cn',
  parse_certificate s = inr (raw, cn) → parse_certificate s' = inr (raw, cn') → cn = cn'.

Lemma sync_secret_stores st key s raw cn : names_determined → certs_made st →
  gs_Secret st !! key = Some s → write_error (pem_file key) = None →
  parse_certificate (cert_content s) = inr (raw, cn) →
  gs_ssl (syncSecret st key) = <[key := cert_of (gs_made st) key s raw cn]> (gs_ssl st) ∧
  gs_made (syncSecret st key) = S (gs_made st) ∧
  gs_files (syncSecret st key) = <[pem_file key := cert_content s]> (gs_files st).
Proof.
  intros Hdet Hm Hs Hw Hp. unfold GwSync.syncSecret, getCertificatePem. rewrite Hs, Hw.
  unfold cert_content in Hp. rewrite Hp. destruct st as [i e sv se an sm ssl made files up]. cbn in *.
  destruct (ssl !! key) as [old|] eqn:E; [|done].
  match goal with |- context [SSLCert_Equals ?c old] => change c with (cert_of made key s raw cn) end.
  assert (SSLCert_Equals (cert_of made key s raw cn) old = false) as ->; [|done].
  destruct (SSLCert_Equals _ old) eqn:Eq; [|done]. exfalso.
  destruct (Hm _ _ E) as (Hptr & content & raw' & cn' & Hp' & Hr & Hcn). cbn in Hptr.
  pose proof Eq as Eq'. apply (certificates_never_equal _ _ cn cn') in Eq; [|cbn; lia|done|done].
  unfold SSLCert_Equals in Eq'. cbn in Eq'. rewrite bool_decide_eq_false_2 in Eq' by lia.
  rewrite orb_false_l, !andb_true_iff, !bool_decide_eq_true in Eq'. destruct Eq' as [[[E1 _] _] _].
  rewrite Hr in E1. injection E1 as <-. apply Eq. by eapply Hdet.
Qed.

(** A renewed certificate reaches the gateway.  When the
    secret of an ingress changes, and both have one name, as the worker names
    them, the certificate of the secret is made anew from its data and
    stored, and one update is sent, whether the content differs or not. *)
Theorem renewed_certificate_stored (st : GwState) (ing : Ingress) (old cur : Secret) (raw cn : string)
    (Hdet : names_determined) (Hmade : certs_made st)
    (Hsame : sec_key cur = ing_key ing) (Hing : gs_Ingress st !! ing_key ing = Some ing)
    (Hmap : gs_secretIngressMap st !! ing_key ing = Some [sec_key cur])
    (Hver : m_ResourceVersion (pl_meta old) ≠ m_ResourceVersion (pl_meta cur))
    (Hw : write_error (pem_file (sec_key cur)) = None)
    (Hp : parse_certificate (cert_content cur) = inr (raw, cn)) :
  let st' := secret_updated old cur st in
  gs_ssl st' = <[sec_key cur := cert_of (gs_made st) (sec_key cur) cur raw cn]> (gs_ssl st) ∧
  gs_files st' !! pem_file (sec_key cur) = Some (cert_content cur) ∧
  gs_updates st' = gs_updates st ++ [(UpdateEvent, sec_key cur)].
Proof.
  cbn zeta. unfold GwSync.secret_updated. rewrite decide_False by done.
  set (st1 := st <| gs_Secret ::= <[sec_key cur := cur]> |>).
  assert (gs_Secret st1 !! sec_key cur = Some cur) as Hs1 by apply lookup_insert_eq.
  assert (certs_made st1) as Hm1 by exact Hmade.
  destruct (sync_secret_stores st1 (sec_key cur) cur raw cn Hdet Hm1 Hs1 Hw Hp) as (E1 & _ & E3).
  assert (gs_updates (syncSecret st1 (sec_key cur)) = gs_updates st) as E4.
  { unfold GwSync.syncSecret. destruct (getCertificatePem _ _ _ _ st1) as [st2 [e|cert]] eqn:E.
    - unfold getCertificatePem in E. rewrite Hs1, Hw in E. unfold cert_content in Hp. by rewrite Hp in E.
    - unfold getCertificatePem in E. rewrite Hs1, Hw in E. unfold cert_content in Hp. rewrite Hp in E.
      injection E as <- <-. destruct (gs_ssl _ !! _); [destruct (SSLCert_Equals _ _)|]; done. }
  assert (secret_changed UpdateEvent cur st1 = send UpdateEvent (sec_key cur) (syncSecret st1 (sec_key cur))) as ->.
  { unfold GwSync.secret_changed, getSecretKeys. change (gs_secretIngressMap st1) with (gs_secretIngressMap st).
    rewrite Hsame at 1. rewrite Hmap. cbn [default from_option id]. f_equal. unfold sync_users. cbn [foldl].
    change (gs_Ingress st1) with (gs_Ingress st). rewrite Hsame at 1. rewrite Hing.
    unfold GwSync.syncSecrets, getSecretKeys. change (gs_secretIngressMap st1) with (gs_secretIngressMap st).
    rewrite Hmap. done. }
  unfold send. destruct (syncSecret st1 (sec_key cur)) as [i e sv se an sm ssl made files up]. cbn in *.
  rewrite E1, E3, E4, lookup_insert_eq. done.
Qed.
End certificates.

(** ** The file of servers *)

Section files.
Context (ValidHeaderFieldName ValidHeaderFieldValue : string → bool).
Context (partial : string → string) (CheckConfig : gmap string string → bool).

Abbreviation no_failure := (λ _ : fs_op, false).
Abbreviation writeFile := (GwSync.writeFile no_failure partial CheckConfig).

(** The files at the moment of the test. *)
Definition tested (body file : string) (fs : gmap string string) : gmap string string :=
  <[file := body]> (match fs !! file with Some o => <[bak file := o]> (delete file fs) | None => fs end).

Lemma bak_ne file : bak file ≠ file.
Proof.
  unfold bak. intros E. assert (String.length (file +:+ ".bak") = String.length file) as Hl by by rewrite E.
  clear E. induction file as [|c file IH]; [done|]. injection Hl as Hl. by apply IH.
Qed.

(** When no operation on files fails, a new file of servers that
    passes the test of nginx replaces the old one and leaves nothing behind; one that
    does not pass is undone, if there was an old one, up to an older backup.
    A first file stays even if it does not pass. *)
Theorem write_file_outcome (body file : string) (fs : gmap string string) :
  writeFile body file fs =
    if CheckConfig (tested body file fs)
    then (<[file := body]> (if decide (is_Some (fs !! file)) then delete (bak file) fs else fs), None)
    else (if decide (is_Some (fs !! file)) then delete (bak file) fs else <[file := body]> fs,
          Some (EMsg "nginx config check error")).
Proof.
  pose proof (bak_ne file) as Hne. unfold GwSync.writeFile, tested. destruct (fs !! file) as [o|] eqn:E.
  - rewrite bool_decide_eq_true_2 by by eexists. rewrite !decide_True by by eexists. cbn [andb].
    rewrite lookup_insert_ne, lookup_delete_eq by done. cbn [default]. change ("" +:+ body) with body.
    unfold test_written. destruct (CheckConfig _); f_equal.
    + apply map_eq. intros k. destruct (decide (k = file)) as [->|].
      { by rewrite lookup_delete_ne, !lookup_insert_eq by done. }
      rewrite (lookup_insert_ne _ file k) by done. destruct (decide (k = bak file)) as [->|]; [by rewrite !lookup_delete_eq|].
      rewrite !lookup_delete_ne by done. by rewrite !lookup_insert_ne, lookup_delete_ne by done.
    + apply map_eq. intros k. destruct (decide (k = file)) as [->|].
      { by rewrite lookup_insert_eq, lookup_delete_ne by done. }
      rewrite lookup_insert_ne by done. destruct (decide (k = bak file)) as [->|]; [by rewrite !lookup_delete_eq|].
      rewrite !lookup_delete_ne by done. by rewrite !lookup_insert_ne, lookup_delete_ne by done.
  - assert (¬ is_Some (@None string)) as Hn by by intros [? ?].
    rewrite bool_decide_eq_false_2, !decide_False by done. cbn [andb default].
    rewrite E. change ("" +:+ body) with body. unfold test_written. by destruct (CheckConfig _).
Qed.
End files.

(** ** [syncGateway] *)

(** The pools of an earlier run have no influence on the servers. *)
Section earlier.
Context `{GoRuntime} (lst : Listers) (ports : ListenPorts) (IPInCurrentHost : string → bool) (SSL_PROTOCOLS : string).

Inductive same_servers : Scan → Scan → Prop :=
  | same_servers_intro a m locs l4 ps ps' : same_servers (mkScan a m locs l4 ps) (mkScan a m locs l4 ps').

Lemma same_put_server name vs st st' : same_servers st st' → same_servers (put_server name vs st) (put_server name vs st').
Proof. intros [a m locs l4 ps ps']. unfold put_server. cbn. destruct (m !! name); constructor. Qed.

Lemma same_add_path ing anns name pb st st' :
  same_servers st st' → same_servers (add_path ing anns name st pb) (add_path ing anns name st' pb).
Proof. intros [a m locs l4 ps ps']. destruct pb as [p b]. unfold add_path. cbn. destruct (locs !! _); constructor. Qed.

Lemma same_fold {A} (f : Scan → A → Scan) l st st' :
  (∀ st st' x, same_servers st st' → same_servers (f st x) (f st' x)) →
  same_servers st st' → same_servers (foldl f st l) (foldl f st' l).
Proof. intros Hf. revert st st'. induction l as [|x l IH]; intros st st' Hs; [done|]. apply IH. by apply Hf. Qed.

Lemma same_add_l7 ing anns st st' : same_servers st st' →
  same_servers (add_l7 lst ports SSL_PROTOCOLS ing anns st) (add_l7 lst ports SSL_PROTOCOLS ing anns st').
Proof.
  apply same_fold. intros s s' rule Hs. unfold add_rule. apply same_fold; [|by apply same_put_server].
  intros t t' pb. apply same_add_path.
Qed.

Lemma same_ingresses l st st' st1 : same_servers st st' →
  add_ingresses lst ports IPInCurrentHost SSL_PROTOCOLS l st = Ok st1 →
  ∃ st1', add_ingresses lst ports IPInCurrentHost SSL_PROTOCOLS l st' = Ok st1' ∧ same_servers st1 st1'.
Proof.
  revert st st'. induction l as [|ing l IH]; intros st st' Hs; [intros [= <-]; by exists st'|].
  cbn [add_ingresses]. intros (st2 & H1 & H2)%then_do_ok.
  assert (∃ st2', add_ingress lst ports IPInCurrentHost SSL_PROTOCOLS st' ing = Ok st2' ∧ same_servers st2 st2')
    as (st2' & -> & Hs2); [|by destruct (IH _ _ Hs2 H2) as (st1' & ? & ?); exists st1'].
  clear IH H2. unfold add_ingress in *. destruct (ingressIsValid lst ing); [|injection H1 as <-; by eexists].
  destruct (ls_Annotation lst !! ing_key ing) as [anns|]; [|injection H1 as <-; by eexists].
  destruct (is_l4 anns); [|injection H1 as <-; eexists; split; [done|by apply same_add_l7]].
  unfold add_l4 in *. destruct (negb _); [injection H1 as <-; by eexists|]. destruct (ing_Backend ing); [|done].
  destruct (bool_decide _); injection H1 as <-; [by eexists|]. eexists. split; [done|]. destruct Hs. constructor.
Qed.

Lemma same_redirect st st' ing : same_servers st st' →
  same_servers (add_redirect lst ports st ing) (add_redirect lst ports st' ing).
Proof.
  intros Hs. unfold add_redirect. destruct (ingressIsValid lst ing); [|done].
  destruct (ls_Annotation lst !! ing_key ing) as [anns|]; [|done]. destruct (_ && _); [|done]. revert Hs.
  apply same_fold. intros s s' rule Hs. unfold add_redirect_rule. apply same_fold; [|by apply same_put_server].
  intros t t' pb Ht. unfold add_redirect_path. destruct Ht as [a m locs l4 ps ps']. cbn.
  destruct (locs !! _); constructor.
Qed.

Lemma listing_ignores_pools again p p1 l7 l4 p' :
  ListVirtualService lst ports IPInCurrentHost SSL_PROTOCOLS again p = Ok (l7, l4, p') →
  ∃ p1', ListVirtualService lst ports IPInCurrentHost SSL_PROTOCOLS again p1 = Ok (l7, l4, p1').
Proof.
  unfold ListVirtualService. intros (st & H1 & H2)%then_do_ok.
  destruct (same_ingresses _ _ (start_scan p1) _ (same_servers_intro _ _ _ _ _ _) H1) as (st' & -> & Hs).
  cbn [then_do]. injection H2 as <- <- <-.
  pose proof (same_fold (add_redirect lst ports) again _ _ (λ s s' x, same_redirect s s' x) Hs) as Hr.
  inversion Hr as [a m locs l4 ps ps' E1 E2]. by exists ps'.
Qed.
End earlier.

Section sync.
Context `{GoRuntime}.
Context (ValidHeaderFieldName ValidHeaderFieldValue : string → bool).
Context (fails : fs_op → bool) (partial : string → string) (CheckConfig : gmap string string → bool).
Context (render : string → NginxServerContext → error + string) (configFileDirPath : string).
Context (conf : GwOptions) (Reload : gmap string string → option error) (send_error : Output → option error).
Context (IPInCurrentHost : string → bool) (SSL_PROTOCOLS : string).

Abbreviation writeFile := (GwSync.writeFile fails partial CheckConfig).
Abbreviation WriteServer :=
  (GwSync.WriteServer ValidHeaderFieldName ValidHeaderFieldValue fails partial CheckConfig render configFileDirPath).
Abbreviation current_config := (GwSync.current_config conf IPInCurrentHost SSL_PROTOCOLS).
Abbreviation syncGateway := (GwSync.syncGateway ValidHeaderFieldName ValidHeaderFieldValue fails partial CheckConfig
  render configFileDirPath conf Reload send_error IPInCurrentHost SSL_PROTOCOLS).

Definition http_file : string := server_file configFileDirPath "http" "default".
Definition stream_file : string := server_file configFileDirPath "stream" "default".

(** What nginx runs on: the two files are there and pass its test. *)
Definition valid_files (fs : gmap string string) : Prop :=
  CheckConfig fs = true ∧ is_Some (fs !! http_file) ∧ is_Some (fs !! stream_file).

(** A file of servers is written, or nothing is. *)
Lemma write_server_file t l fs : t ≠ ""%string →
  (WriteServer t "" l fs).1 = fs ∨ ∃ body, (WriteServer t "" l fs).1 = (writeFile body (server_file configFileDirPath t "default") fs).1.
Proof.
  intros Ht. unfold GwSync.WriteServer.
  assert (or_str t "http" = t ∧ or_str "" "default" = "default"%string) as [-> ->]
    by (split; [unfold or_str; by rewrite decide_False|done]).
  destruct (valid_servers _ _ l) as [|s l']; [right; by eexists|].
  destruct (render t _) as [e|body]; [by left|right; by exists body].
Qed.

(** The operations whose failure leaves no file of servers, or half of one. *)
Definition safe_failures : Prop := Forall (λ op, fails op = false) [OpRead; OpOpen; OpWrite; OpRollback].

Lemma write_valid body file fs : safe_failures → (∀ fs f, CheckConfig (delete (bak f) fs) = CheckConfig fs) →
  CheckConfig fs = true → is_Some (fs !! file) →
  CheckConfig (writeFile body file fs).1 = true ∧
  ∀ f, f ≠ bak file → is_Some (fs !! f) → is_Some ((writeFile body file fs).1 !! f).
Proof.
  intros [Hread [Hopen [Hwrite [Hroll _]%Forall_cons]%Forall_cons]%Forall_cons]%Forall_cons Hbak Hok [o Ho]. pose proof (bak_ne file) as Hne.
  unfold GwSync.writeFile. rewrite Hread, Hopen, Hwrite, Ho. destruct (fails OpMkdir); [done|].
  destruct (_ && _); [done|]. rewrite lookup_insert_ne, lookup_delete_eq by done.
  change (default "" None +:+ body)%string with body.
  set (fs1 := <[file := body]> (<[bak file := o]> (delete file fs))).
  assert (∀ f, f ≠ bak file → is_Some (fs !! f) → is_Some (fs1 !! f)) as Hin.
  { intros f Hf Hs. unfold fs1. destruct (decide (f = file)) as [->|]; [rewrite lookup_insert_eq; by eexists|].
    by rewrite !lookup_insert_ne, lookup_delete_ne by done. }
  unfold test_written. destruct (CheckConfig fs1) eqn:E.
  - destruct (fails OpRemove); cbn [fst]; [by split|]. split; [by rewrite Hbak|]. intros f Hf Hs.
    rewrite lookup_delete_ne by done. by apply Hin.
  - rewrite Hroll. cbn [fst]. assert (<[file := o]> (delete (bak file) fs1) = delete (bak file) fs) as ->.
    { unfold fs1. apply map_eq. intros k. destruct (decide (k = file)) as [->|].
      { by rewrite lookup_insert_eq, lookup_delete_ne by done. }
      rewrite lookup_insert_ne by done. destruct (decide (k = bak file)) as [->|]; [by rewrite !lookup_delete_eq|].
      rewrite !lookup_delete_ne by done. by rewrite !lookup_insert_ne, lookup_delete_ne by done. }
    split; [by rewrite Hbak|]. intros f Hf Hs. by rewrite lookup_delete_ne.
Qed.

Lemma files_distinct : http_file ≠ stream_file ∧ http_file ≠ bak stream_file ∧ stream_file ≠ bak http_file ∧
  http_file ≠ bak http_file ∧ stream_file ≠ bak stream_file.
Proof.
  assert (∀ a b, (configFileDirPath +:+ a)%string = (configFileDirPath +:+ b)%string → a = b) as Hinj
    by (intros a b; apply (inj (String.append configFileDirPath))).
  unfold bak, http_file, stream_file, server_file. split_and!; try (rewrite ?app_assoc_str; intros E%Hinj; discriminate E);
    intros E; symmetry in E; by apply (bak_ne _ E).
Qed.

Lemma persist_keeps_valid c fs : safe_failures → (∀ fs f, CheckConfig (delete (bak f) fs) = CheckConfig fs) → valid_files fs →
  valid_files (PersistConfig ValidHeaderFieldName ValidHeaderFieldValue fails partial CheckConfig render
    configFileDirPath conf Reload c fs).1.
Proof.
  intros Hsafe Hbak Hok. destruct files_distinct as (D1 & D2 & D3 & D4 & D5). unfold PersistConfig.
  destruct (getNgxServer conf c) as [l7srv l4srv]. cbn [fst].
  assert (∀ t l fs, t = "http"%string ∨ t = "stream"%string → valid_files fs → valid_files (WriteServer t "" l fs).1) as Hgo.
  { intros t l fs' Ht (H1 & H2 & H3).
    destruct (write_server_file t l fs') as [->|[body ->]]; [by destruct Ht as [->| ->]|done|].
    destruct Ht as [->| ->]; [fold http_file|fold stream_file].
    - destruct (write_valid body http_file fs' Hsafe Hbak H1 H2) as [E1 E2]. split; [done|].
      split; apply E2; done.
    - destruct (write_valid body stream_file fs' Hsafe Hbak H1 H3) as [E1 E2]. split; [done|].
      split; apply E2; done. }
  apply Hgo; [by right|]. apply Hgo; [by left|done].
Qed.

Abbreviation PersistConfig := (GwSync.PersistConfig ValidHeaderFieldName ValidHeaderFieldValue fails partial CheckConfig
  render configFileDirPath conf Reload).
Abbreviation persist_current := (GwSync.persist_current ValidHeaderFieldName ValidHeaderFieldValue fails partial CheckConfig
  render configFileDirPath conf Reload).

Lemma persist_current_parts cfg a b g :
  gw_store (persist_current cfg a b g) = gw_store g ∧ gw_pools (persist_current cfg a b g) = gw_pools g ∧
  gw_fs (persist_current cfg a b g) = (PersistConfig cfg (gw_fs g)).1 ∧
  gw_rcfg (persist_current cfg a b g) = if (PersistConfig cfg (gw_fs g)).2 is Some _ then gw_rcfg g else Some cfg.
Proof.
  unfold GwSync.persist_current. destruct (PersistConfig cfg (gw_fs g)) as [fs' [e|]]; by destruct g.
Qed.

(** C25 (safety): what nginx would load stays loadable.  If both files of servers
    are there and pass the test of nginx, they still do after a synchronisation,
    whatever the ingresses say and the template makes of them, as long as no file
    fails to be read, opened, written or put back (creating the directory, renaming
    the old file and removing the backup may fail), and nginx does not read the
    backups. *)
Theorem sync_keeps_valid_files (shutting_down : bool) (ings again : list Ingress) (g g' : GWController)
    (Hsafe : safe_failures) (Hbak : ∀ fs f, CheckConfig (delete (bak f) fs) = CheckConfig fs)
    (Hvalid : valid_files (gw_fs g)) (Hsync : syncGateway shutting_down ings again g = Ok g') :
  valid_files (gw_fs g').
Proof.
  unfold GwSync.syncGateway in Hsync. destruct shutting_down; [by injection Hsync as <-|].
  apply then_do_ok in Hsync as ([cfg pools] & _ & Hsync). destruct g as [sto po rc rh rt fs out]. cbn in *.
  destruct (Config_Equals rc cfg); injection Hsync as <-; [done|].
  destruct (persist_current_parts cfg (length (cf_HTTPPools cfg ++ rh)) (length (cf_TCPPools cfg ++ rt))
    (mkGWController sto pools rc rh rt fs (out ++ (UpdatePools send_error (cf_HTTPPools cfg ++ rh) (cf_TCPPools cfg ++ rt)).1)))
    as (_ & _ & E & _).
  unfold valid_files in *. pose proof (persist_keeps_valid cfg fs Hsafe Hbak Hvalid) as Hp. cbn [gw_fs] in E.
  unfold valid_files in Hp. rewrite <- E in Hp. exact Hp.
Qed.

(** What one synchronisation does to the files and to the record of what runs. *)
Lemma sync_outcome ings again g cfg pools : current_config g ings again = Ok (cfg, pools) →
  ∃ g', syncGateway false ings again g = Ok g' ∧ gw_store g' = gw_store g ∧ gw_pools g' = pools ∧
    if Config_Equals (gw_rcfg g) cfg then gw_fs g' = gw_fs g ∧ gw_rcfg g' = gw_rcfg g
    else gw_fs g' = (PersistConfig cfg (gw_fs g)).1 ∧
         gw_rcfg g' = if (PersistConfig cfg (gw_fs g)).2 is Some _ then gw_rcfg g else Some cfg.
Proof.
  intros Hc. unfold GwSync.syncGateway. rewrite Hc. cbn [then_do]. eexists. split; [reflexivity|].
  destruct g as [sto po rc rh rt fs out]. cbn [set_field gw_rcfg gw_fs gw_store gw_rrhp gw_rrtp].
  destruct (Config_Equals rc cfg); [done|].
  destruct (persist_current_parts cfg (length (cf_HTTPPools cfg ++ rh)) (length (cf_TCPPools cfg ++ rt))
    (mkGWController sto pools rc rh rt fs (out ++ (UpdatePools send_error (cf_HTTPPools cfg ++ rh) (cf_TCPPools cfg ++ rt)).1)))
    as (E1 & E2 & E3 & E4).
  split; [exact E1|]. split; [exact E2|]. split; [exact E3|exact E4].
Qed.

Lemma config_ignores_pools g g1 ings again cfg pools : current_config g ings again = Ok (cfg, pools) → gw_store g1 = gw_store g →
  ∃ cfg1 pools1, current_config g1 ings again = Ok (cfg1, pools1) ∧ cf_L7VS cfg1 = cf_L7VS cfg ∧ cf_L4VS cfg1 = cf_L4VS cfg.
Proof.
  unfold GwSync.current_config. intros ([[l7 l4] p'] & H1 & H2)%then_do_ok ->.
  apply (listing_ignores_pools _ _ _ _ _ _ (gw_pools g1)) in H1 as [p1' ->]. cbn [then_do].
  destruct (ListPool _ p') as [hp tp]. destruct (ListPool _ p1') as [hp1 tp1]. injection H2 as <- <-. by eexists _, _.
Qed.

(** C26 (termination): synchronising settles.  While the store does not change,
    nginx reloads and the ingresses are listed in the same order, the second of two
    synchronisations neither writes files nor changes what is recorded as running;
    so a configuration whose files were rejected is not tried again.  In another
    order it may be another configuration ([listing_order_matters]). *)
Theorem sync_settles (ings again : list Ingress) (g g1 g2 : GWController) (Hreload : ∀ fs, Reload fs = None)
    (H1 : syncGateway false ings again g = Ok g1) (H2 : syncGateway false ings again g1 = Ok g2) :
  gw_fs g2 = gw_fs g1 ∧ gw_rcfg g2 = gw_rcfg g1.
Proof.
  pose proof H1 as H1'. unfold GwSync.syncGateway in H1'. apply then_do_ok in H1' as ([cfg pools] & Hc & _).
  destruct (sync_outcome _ _ _ _ _ Hc) as (g1' & E1 & Hst & _ & Ho). rewrite H1 in E1. injection E1 as <-.
  destruct (config_ignores_pools g g1 ings again cfg pools Hc Hst) as (cfg1 & pools1 & Hc1 & E7 & E4).
  destruct (sync_outcome _ _ _ _ _ Hc1) as (g2' & E2 & _ & _ & Ho2). rewrite H2 in E2. injection E2 as <-.
  assert (∀ rc, Config_Equals rc cfg1 = Config_Equals rc cfg) as Hsame by (intros [rc|]; cbn; by rewrite ?E7, ?E4).
  rewrite Hsame in Ho2.
  assert (Config_Equals (gw_rcfg g1) cfg = true) as Heq; [|by rewrite Heq in Ho2].
  destruct (Config_Equals (gw_rcfg g) cfg) eqn:Er; destruct Ho as [_ ->]; [done|].
  assert ((PersistConfig cfg (gw_fs g)).2 = None) as ->; [|apply Config_Equals_refl].
  unfold GwSync.PersistConfig. destruct (getNgxServer conf cfg). apply Hreload.
Qed.

(** A rejected configuration counts as running.  If nginx rejects
    every change of the files but reloads the old ones, a synchronisation with another configuration puts
    the old files back, reports nothing, and records the new configuration as the running one. *)
Theorem rejected_config_recorded (ings again : list Ingress) (g : GWController) (cfg : Config) (pools : PoolMaps)
    (Hno : fails = λ _, false) (Hc : current_config g ings again = Ok (cfg, pools)) (Hne : Config_Equals (gw_rcfg g) cfg = false)
    (Hfiles : is_Some (gw_fs g !! http_file) ∧ is_Some (gw_fs g !! stream_file))
    (Hbak : gw_fs g !! bak http_file = None ∧ gw_fs g !! bak stream_file = None)
    (Hrej : ∀ fs, fs ≠ gw_fs g → CheckConfig fs = false) (Hreload : Reload (gw_fs g) = None) :
  ∃ g', syncGateway false ings again g = Ok g' ∧ gw_fs g' = gw_fs g ∧ gw_rcfg g' = Some cfg.
Proof.
  destruct (sync_outcome _ _ _ _ _ Hc) as (g' & Hs & _ & _ & Ho). exists g'. split; [done|]. rewrite Hne in Ho.
  assert (∀ t l, t = "http"%string ∨ t = "stream"%string → (WriteServer t "" l (gw_fs g)).1 = gw_fs g) as Hw.
  { intros t l Ht. destruct (write_server_file t l (gw_fs g)) as [E|[body ->]]; [by destruct Ht as [->| ->]|done|].
    assert (is_Some (gw_fs g !! server_file configFileDirPath t "default") ∧
            gw_fs g !! bak (server_file configFileDirPath t "default") = None) as [Hf Hb]
      by (destruct Ht as [->| ->]; split; tauto).
    rewrite Hno, write_file_outcome. rewrite Hrej.
    - rewrite decide_True by done. cbn. by apply delete_id.
    - intros E. unfold tested in E. destruct Hf as [o Ho']. rewrite Ho' in E.
      rewrite <- E in Hb. rewrite lookup_insert_ne, lookup_insert_eq in Hb; [done|]. intros E'. symmetry in E'.
      by apply (bak_ne _ E'). }
  unfold GwSync.PersistConfig in Ho. destruct (getNgxServer conf cfg) as [l7srv l4srv]. cbn [fst snd] in Ho.
  rewrite (Hw "http"%string l7srv (or_introl eq_refl)) in Ho.
  rewrite (Hw "stream"%string l4srv (or_intror eq_refl)), Hreload in Ho. exact Ho.
Qed.
End sync.

(** ** Server names *)

Lemma strip_prefix_app p s : strip_prefix p (p +:+ s) = Some s.
Proof.
  induction p as [|c p IH]; [done|]. change (String c p +:+ s) with (String c (p +:+ s)). cbn [strip_prefix].
  by destruct (Ascii.ascii_dec c c).
Qed.

Lemma remove_absent sub s : str_contains s sub = false → remove_first_sub sub s = s.
Proof.
  assert (∀ p t, strip_prefix p t = None ↔ String.prefix p t = false) as Hp.
  { induction p as [|c p IH]; intros [|d t]; try done. cbn [strip_prefix String.prefix].
    by destruct (Ascii.ascii_dec c d). }
  induction s as [|c s IH]; cbn [str_contains remove_first_sub]; intros [H1 H2]%orb_false_iff.
  - by rewrite (proj2 (Hp _ _) H1).
  - rewrite (proj2 (Hp _ _) H1). by rewrite IH.
Qed.

(** The name of an nginx server is the host, for a host with a certificate and
    for one whose name does not contain [tls]. *)
Theorem ngx_server_name (conf : GwOptions) (vs : VirtualService) (host : string) :
  (vs_ServerName vs = ("tls" +:+ host)%string → ns_ServerName (l7_ngx_server conf vs) = host) ∧
  (vs_ServerName vs = host → str_contains host "tls" = false → ns_ServerName (l7_ngx_server conf vs) = host).
Proof.
  assert (ns_ServerName (l7_ngx_server conf vs) = remove_first_sub "tls" (vs_ServerName vs)) as ->
    by (unfold l7_ngx_server; by destruct (vs_SSLCert vs)).
  split; [|by intros -> ?; apply remove_absent]. intros ->.
  assert (∀ s, remove_first_sub "tls" s = match strip_prefix "tls" s with
    | Some rest => rest | None => match s with EmptyString => "" | String c s' => String c (remove_first_sub "tls" s') end
    end) as -> by by intros []. by rewrite strip_prefix_app.
Qed.

(** ** An example *)

Definition demo_options : GwOptions := mkGwOptions demo_ports "" false.

Definition demo_state (ings : list Ingress) : GwState :=
  mkGwState (list_to_map ((λ i, (ing_key i, i)) <$> ings)) demo_eps_map ∅ ∅
    (list_to_map ((λ i, (ing_key i, @Extract ref_runtime i)) <$> ings)) ∅ ∅ 0 ∅ [].

Definition demo_files : gmap string string :=
  {["/c/http/default/default_servers.conf" := "old"; "/c/stream/default/default_servers.conf" := "old"]}%string.

Definition demo_controller (ings : list Ingress) : GWController :=
  mkGWController (demo_state ings) (mkPoolMaps ∅ ∅ ∅ ∅) None [] [] demo_files [].

Definition demo_sync (check : gmap string string → bool) (again : list Ingress) (g : GWController) : result GWController :=
  @syncGateway (λ _, true) (λ _, true) (λ _, false) id check (λ _ _, inr "new"%string) "/c" demo_options (λ _, None) (λ _, None)
    ref_runtime (λ _, false) "" false again again g.

Definition demo_cfg : Config * PoolMaps :=
  match @current_config demo_options ref_runtime (λ _, false) "" (demo_controller [demo_http]) [demo_http] [demo_http] with
  | Ok x => x | _ => (mkConfig [] [] [] [], mkPoolMaps ∅ ∅ ∅ ∅) end.

Lemma demo_current :
  @current_config demo_options ref_runtime (λ _, false) "" (demo_controller [demo_http]) [demo_http] [demo_http] = Ok (demo_cfg.1, demo_cfg.2).
Proof.
  unfold demo_cfg. assert (match @current_config demo_options ref_runtime (λ _, false) "" (demo_controller [demo_http]) [demo_http] [demo_http] with
    Ok _ => True | _ => False end) as H by (vm_compute; exact I).
  destruct (@current_config _ _ _ _ _ _) as [[a b]|e|]; [reflexivity|destruct H|destruct H].
Qed.

Definition only_old (fs : gmap string string) : bool := bool_decide (fs = demo_files).

Lemma rejected_config_recorded_witness :
  ∃ g', demo_sync only_old [demo_http] (demo_controller [demo_http]) = Ok g' ∧ gw_fs g' = demo_files ∧ gw_rcfg g' = Some demo_cfg.1.
Proof.
  apply (@rejected_config_recorded ref_runtime (λ _, true) (λ _, true) (λ _, false) id only_old (λ _ _, inr "new"%string) "/c" demo_options
    (λ _, None) (λ _, None) (λ _, false) "" [demo_http] [demo_http] (demo_controller [demo_http]) demo_cfg.1 demo_cfg.2 eq_refl demo_current).
  - reflexivity.
  - split; vm_compute; by eexists.
  - split; vm_compute; reflexivity.
  - intros fs Hfs. by apply bool_decide_eq_false.
  - reflexivity.
Defined.

Definition demo_synced (check : gmap string string → bool) (g : GWController) : GWController :=
  match demo_sync check [demo_http] g with Ok g' => g' | _ => g end.

Lemma demo_sync_ok check g : gw_store g = demo_state [demo_http] → demo_sync check [demo_http] g = Ok (demo_synced check g).
Proof.
  intros Hg. unfold demo_synced. pose proof demo_current as Hc.
  apply (config_ignores_pools demo_options (λ _, false) "" _ g) in Hc as (cfg & pools & Hc & _); [|done].
  destruct (sync_outcome (λ _, true) (λ _, true) (λ _, false) id check (λ _ _, inr "new"%string) "/c" demo_options (λ _, None) (λ _, None)
    (λ _, false) "" _ _ _ _ _ Hc) as (g' & Hs & _).
  unfold demo_sync. rewrite Hs. reflexivity.
Qed.

Lemma demo_sync_store check g : gw_store g = demo_state [demo_http] → gw_store (demo_synced check g) = demo_state [demo_http].
Proof.
  intros Hg. unfold demo_synced. pose proof demo_current as Hc.
  apply (config_ignores_pools demo_options (λ _, false) "" _ g) in Hc as (cfg & pools & Hc & _); [|done].
  destruct (sync_outcome (λ _, true) (λ _, true) (λ _, false) id check (λ _ _, inr "new"%string) "/c" demo_options (λ _, None) (λ _, None)
    (λ _, false) "" _ _ _ _ _ Hc) as (g' & Hs & Hst & _).
  unfold demo_sync. rewrite Hs. by rewrite Hst.
Qed.

Lemma sync_settles_witness : let g1 := demo_synced (λ _, true) (demo_controller [demo_http]) in
  let g2 := demo_synced (λ _, true) g1 in gw_fs g2 = gw_fs g1 ∧ gw_rcfg g2 = gw_rcfg g1.
Proof.
  cbn zeta. apply (@sync_settles ref_runtime (λ _, true) (λ _, true) (λ _, false) id (λ _, true) (λ _ _, inr "new"%string) "/c" demo_options
    (λ _, None) (λ _, None) (λ _, false) "" [demo_http] [demo_http] (demo_controller [demo_http])).
  - reflexivity.
  - by apply demo_sync_ok.
  - apply demo_sync_ok. by apply demo_sync_store.
Defined.

(** Nginx that accepts the old files and nothing else: a change is undone. *)
Definition old_served (fs : gmap string string) : bool :=
  bool_decide (fs !! http_file "/c" = Some "old"%string ∧ fs !! stream_file "/c" = Some "old"%string).

Lemma bak_ends f s c : String.get (String.length s - 1) s = Some c → c ≠ (Ascii.ascii_of_nat 107) → bak f ≠ s.
Proof.
  intros Hc Hk E. assert (String.length s = String.length f + 4) as Hl by (rewrite <- E; apply str_length_app).
  pose proof (String.append_correct2 f ".bak" 3) as Hg. change (String.append f ".bak") with (bak f) in Hg. rewrite E in Hg.
  replace (String.length s - 1) with (3 + String.length f) in Hc by lia. rewrite <- Hg in Hc. by injection Hc as <-.
Qed.

Lemma old_served_bak fs f : old_served (delete (bak f) fs) = old_served fs.
Proof.
  unfold old_served. rewrite !lookup_delete_ne; [done|..]; by eapply bak_ends; [vm_compute; reflexivity|].
Qed.

Lemma sync_keeps_valid_files_witness :
  let g' := demo_synced old_served (demo_controller [demo_http]) in
  valid_files old_served "/c" (gw_fs g') ∧ gw_rcfg g' = Some demo_cfg.1.
Proof.
  split; [|vm_compute; reflexivity].
  apply (@sync_keeps_valid_files ref_runtime (λ _, true) (λ _, true) (λ _, false) id old_served (λ _ _, inr "new"%string) "/c"
    demo_options (λ _, None) (λ _, None) (λ _, false) "" false [demo_http] [demo_http] (demo_controller [demo_http])).
  - by repeat constructor.
  - exact old_served_bak.
  - split; [vm_compute; reflexivity|]. split; vm_compute; by eexists.
  - by apply demo_sync_ok.
Defined.

(** Two rules for one path whose settings differ: the location has those of the
    ingress that comes first, so with the same store the second of two
    synchronisations that list them in another order writes another configuration. *)
Definition slow_http : Ingress :=
  demo_annotated "r2" {[GetAnnotationWithPrefix "proxy-read-timeout" := "600"%string]} [demo_rule "a.com" "web"] [] None.

Definition config_listed (ings : list Ingress) : option Config :=
  match @current_config demo_options ref_runtime (λ _, false) "" (demo_controller [demo_http; slow_http]) ings ings with
  | Ok x => Some x.1 | _ => None end.

Theorem listing_order_matters : ∃ cfg cfg',
  config_listed [demo_http; slow_http] = Some cfg ∧ config_listed [slow_http; demo_http] = Some cfg' ∧
  Config_Equals (Some cfg) cfg' = false ∧
  (cf_L7VS cfg ≫= λ vs, px_ReadTimeout ∘ lc_Proxy <$> vs_Locations vs) = [60%Z] ∧
  (cf_L7VS cfg' ≫= λ vs, px_ReadTimeout ∘ lc_Proxy <$> vs_Locations vs) = [600%Z].
Proof.
  destruct (config_listed [demo_http; slow_http]) as [cfg|] eqn:E1; [|vm_compute in E1; discriminate].
  destruct (config_listed [slow_http; demo_http]) as [cfg'|] eqn:E2; [|vm_compute in E2; discriminate].
  exists cfg, cfg'. split; [done|]. split; [done|]. vm_compute in E1, E2. injection E1 as <-. injection E2 as <-.
  split; [|split]; vm_compute; reflexivity.
Qed.

Definition demo_vs (name : string) : VirtualService :=
  zero_vs <| vs_ServerName := name |>
          <| vs_Locations := [mkLocation "/" {["b" := mkCond DefaultType ∅]} zero_rewrite zero_proxy false]%string |>.
Definition demo_config (names : list string) : Config := mkConfig [] [] (demo_vs <$> names) [].

Lemma equal_configs_route_alike_witness : routes (demo_config ["b.com"; "a.com"]%string) "a.com" "/" "b" (mkCond DefaultType ∅).
Proof.
  apply (equal_configs_route_alike (demo_config ["a.com"; "b.com"]%string)).
  - vm_compute. reflexivity.
  - apply (bool_decide_unpack _). vm_compute. exact I.
  - repeat constructor; apply not_elem_of_nil.
  - exists (demo_vs "a.com"), (mkLocation "/" {["b" := mkCond DefaultType ∅]} zero_rewrite zero_proxy false)%string.
    split; [apply list_elem_of_here|]. split; [reflexivity|]. split; [apply list_elem_of_here|]. split; reflexivity.
Defined.

(** What a renewal changes: the certificate object, so that the configuration
    that uses it is written again. *)
Definition demo_secure : Ingress := demo_annotated "r7" ∅ [demo_rule "a.com" "web"] [mkTLS ["a.com"] "r7"]%string None.
Definition demo_secret (version : string) : Secret :=
  mkPlain (zero_meta <| m_Name := "r7" |> <| m_Namespace := "t" |> <| m_ResourceVersion := version |>) "pem".
Definition demo_pem (rest : opaque) : gmap string string := {["tls.crt"%string := rest]}.
Definition demo_parse (s : string) : error + string * string := inr (s, "a.com"%string).

Definition demo_secure_state : GwState :=
  (demo_state [demo_secure]) <| gs_secretIngressMap := {["t/r7" := ["t/r7"]]}%string |>
    <| gs_Secret := {["t/r7" := demo_secret "1"]}%string |>.

Lemma renewed_certificate_stored_witness :
  sc_ptr <$> gs_ssl (@secret_updated demo_pem (λ _, None) demo_parse (demo_secret "1") (demo_secret "2") demo_secure_state) !! "t/r7"%string
    = Some 0.
Proof.
  destruct (renewed_certificate_stored demo_pem (λ _, None) demo_parse demo_secure_state demo_secure (demo_secret "1") (demo_secret "2")
    (cert_content demo_pem (demo_secret "2")) "a.com") as [E _].
  - by intros s s' raw cn cn' [= _ <-] [= _ <-].
  - intros key c Hc. discriminate Hc.
  - reflexivity.
  - vm_compute. reflexivity.
  - reflexivity.
  - discriminate.
  - reflexivity.
  - reflexivity.
  - rewrite E. reflexivity.
Defined.
