(* ===== verification/ComponentRows.v ===== *)
(** * The rows of a component

    The tables of [db/model] that hold the parts of a component: ports,
    environment, volumes and their files, mounts, plugins, probes, monitors,
    endpoints, autoscalers.  [ApiDao] keeps them with the other tables. *)
From S2P Require Import Prelude.

(** [TenantServicesPort]; the two flags may be NULL. *)
Record PortRow := mkPortRow {
  prt_ID : Z; prt_TenantID : string; prt_ServiceID : string; prt_ContainerPort : Z; prt_MappingPort : Z;
  prt_Protocol : string; prt_PortAlias : string; prt_IsInnerService : option bool; prt_IsOuterService : option bool;
  prt_K8sServiceName : string }.
#[export] Instance eta_PortRow : Eta PortRow := λ r,
  mkPortRow (prt_ID r) (prt_TenantID r) (prt_ServiceID r) (prt_ContainerPort r) (prt_MappingPort r) (prt_Protocol r)
    (prt_PortAlias r) (prt_IsInnerService r) (prt_IsOuterService r) (prt_K8sServiceName r).

(** [TenantServiceEnvVar] *)
Record EnvRow := mkEnvVarRow {
  env_ID : Z; env_TenantID : string; env_ServiceID : string; env_ContainerPort : Z; env_Name : string;
  env_AttrName : string; env_AttrValue : string; env_IsChange : bool; env_Scope : string }.
#[export] Instance eta_EnvRow : Eta EnvRow := λ r,
  mkEnvVarRow (env_ID r) (env_TenantID r) (env_ServiceID r) (env_ContainerPort r) (env_Name r) (env_AttrName r)
    (env_AttrValue r) (env_IsChange r) (env_Scope r).

(** [TenantServiceVolume] *)
Record VolumeRow := mkVolRow {
  vol_ID : Z; vol_ServiceID : string; vol_Category : string; vol_VolumeType : string; vol_VolumeName : string;
  vol_HostPath : string; vol_VolumePath : string; vol_IsReadOnly : bool; vol_VolumeCapacity : Z; vol_AccessMode : string;
  vol_SharePolicy : string; vol_BackupPolicy : string; vol_ReclaimPolicy : string; vol_AllowExpansion : bool;
  vol_VolumeProviderName : string }.
#[export] Instance eta_VolumeRow : Eta VolumeRow := λ r,
  mkVolRow (vol_ID r) (vol_ServiceID r) (vol_Category r) (vol_VolumeType r) (vol_VolumeName r) (vol_HostPath r)
    (vol_VolumePath r) (vol_IsReadOnly r) (vol_VolumeCapacity r) (vol_AccessMode r) (vol_SharePolicy r) (vol_BackupPolicy r)
    (vol_ReclaimPolicy r) (vol_AllowExpansion r) (vol_VolumeProviderName r).

(** [TenantServiceConfigFile] *)
Record ConfigFileRow := mkFileRow {
  cff_ID : Z; cff_ServiceID : string; cff_VolumeName : string; cff_FileContent : string }.
#[export] Instance eta_ConfigFileRow : Eta ConfigFileRow := λ r,
  mkFileRow (cff_ID r) (cff_ServiceID r) (cff_VolumeName r) (cff_FileContent r).

(** [TenantServiceMountRelation] *)
Record MountRow := mkMntRow {
  mnt_ID : Z; mnt_TenantID : string; mnt_ServiceID : string; mnt_DependServiceID : string; mnt_VolumePath : string;
  mnt_HostPath : string; mnt_VolumeName : string; mnt_VolumeType : string }.
#[export] Instance eta_MountRow : Eta MountRow := λ r,
  mkMntRow (mnt_ID r) (mnt_TenantID r) (mnt_ServiceID r) (mnt_DependServiceID r) (mnt_VolumePath r) (mnt_HostPath r)
    (mnt_VolumeName r) (mnt_VolumeType r).

(** [TenantServicePluginRelation] and [TenantServicesStreamPluginPort] *)
Record PluginRow := mkPlgRow {
  plg_ID : Z; plg_ServiceID : string; plg_PluginID : string; plg_PluginModel : string; plg_Switch : bool }.
Record PluginPortRow := mkPpRow {
  ppr_ID : Z; ppr_TenantID : string; ppr_ServiceID : string; ppr_PluginModel : string; ppr_ContainerPort : Z;
  ppr_PluginPort : Z }.
#[export] Instance eta_PluginPortRow : Eta PluginPortRow := λ r,
  mkPpRow (ppr_ID r) (ppr_TenantID r) (ppr_ServiceID r) (ppr_PluginModel r) (ppr_ContainerPort r) (ppr_PluginPort r).

(** [TenantServiceProbe] *)
Record ProbeRow := mkPrbRow {
  prb_ID : Z; prb_ServiceID : string; prb_ProbeID : string; prb_Mode : string; prb_Scheme : string; prb_Path : string;
  prb_Port : Z; prb_Cmd : string; prb_HTTPHeader : string; prb_InitialDelaySecond : Z; prb_PeriodSecond : Z;
  prb_TimeoutSecond : Z; prb_IsUsed : option Z; prb_FailureThreshold : Z; prb_SuccessThreshold : Z;
  prb_FailureAction : string }.
#[export] Instance eta_ProbeRow : Eta ProbeRow := λ r,
  mkPrbRow (prb_ID r) (prb_ServiceID r) (prb_ProbeID r) (prb_Mode r) (prb_Scheme r) (prb_Path r) (prb_Port r) (prb_Cmd r)
    (prb_HTTPHeader r) (prb_InitialDelaySecond r) (prb_PeriodSecond r) (prb_TimeoutSecond r) (prb_IsUsed r)
    (prb_FailureThreshold r) (prb_SuccessThreshold r) (prb_FailureAction r).

(** [TenantServiceMonitor] *)
Record MonitorRow := mkMonRow {
  mon_ID : Z; mon_TenantID : string; mon_ServiceID : string; mon_Name : string; mon_ServiceShowName : string;
  mon_Port : Z; mon_Path : string; mon_Interval : string }.

(** [Endpoint] and [ThirdPartySvcDiscoveryCfg] *)
Record EndpointRow := mkEpRow {
  ept_ID : Z; ept_UUID : string; ept_ServiceID : string; ept_IP : string; ept_Port : Z; ept_IsOnline : option bool }.
Record DiscoveryRow := mkDiscRow {
  dsc_ID : Z; dsc_ServiceID : string; dsc_Type : string; dsc_Servers : string; dsc_Key : string; dsc_Username : string;
  dsc_Password : string }.

(** [TenantServiceAutoscalerRules] and [TenantServiceAutoscalerRuleMetrics] *)
Record ScalerRow := mkScalerRow {
  asr_ID : Z; asr_RuleID : string; asr_ServiceID : string; asr_Enable : bool; asr_XPAType : string; asr_MinReplicas : Z;
  asr_MaxReplicas : Z }.
#[export] Instance eta_ScalerRow : Eta ScalerRow := λ r,
  mkScalerRow (asr_ID r) (asr_RuleID r) (asr_ServiceID r) (asr_Enable r) (asr_XPAType r) (asr_MinReplicas r) (asr_MaxReplicas r).
Record MetricRow := mkMetricRow {
  asm_ID : Z; asm_RuleID : string; asm_MetricsType : string; asm_MetricsName : string; asm_MetricTargetType : string;
  asm_MetricTargetValue : Z }.

(** Rows that are only deleted with their component: of code checks, plugin
    configurations, plugin environments and configuration groups. *)
Inductive owned_table := CodeCheckResults | PluginConfigs | PluginEnvs | ConfigGroupServices.
#[export] Instance owned_table_eq : EqDecision owned_table.
Proof. solve_decision. Defined.
Record OwnedRow := mkOwnedRow { own_Table : owned_table; own_ID : Z; own_ServiceID : string }.

(** The tables, but that of the components and of those that were deleted. *)
Record PartTables := mkParts {
  pt_ports : list PortRow;
  pt_envs : list EnvRow;
  pt_volumes : list VolumeRow;
  pt_files : list ConfigFileRow;
  pt_mounts : list MountRow;
  pt_plugins : list PluginRow;
  pt_pluginports : list PluginPortRow;
  pt_probes : list ProbeRow;
  pt_monitors : list MonitorRow;
  pt_endpoints : list EndpointRow;
  pt_discovery : list DiscoveryRow;
  pt_scalers : list ScalerRow;
  pt_metrics : list MetricRow;
  pt_owned : list OwnedRow
}.
#[export] Instance eta_PartTables : Eta PartTables := λ t,
  mkParts (pt_ports t) (pt_envs t) (pt_volumes t) (pt_files t) (pt_mounts t) (pt_plugins t) (pt_pluginports t) (pt_probes t)
    (pt_monitors t) (pt_endpoints t) (pt_discovery t) (pt_scalers t) (pt_metrics t) (pt_owned t).

Definition no_parts : PartTables := mkParts [] [] [] [] [] [] [] [] [] [] [] [] [] [].
