(* ===== verification/ApiDao.v ===== *)
(** * The tables of the API server

    The rows of [db/model] that gateway rules, operations and their events are
    kept in, the database they live in, and the data access objects of
    [db/mysql/dao/gateway.go].  A statement runs on the pool of connections or
    inside the open transaction; any statement may fail.  What gorm is asked
    for is SQL: a condition selects rows, an insertion takes the next primary
    key, [Save] writes the row of that primary key. *)
From S2P Require Import Prelude Task Gateway ComponentRows.

(** ** Rows *)

Record HTTPRuleRow := mkHTTPRow {
  hrr_ID : Z; hrr_UUID : string; hrr_ServiceID : string; hrr_ContainerPort : Z; hrr_Domain : string;
  hrr_Path : string; hrr_Header : string; hrr_Cookie : string; hrr_Weight : Z; hrr_IP : string;
  hrr_CertificateID : string }.
#[export] Instance eta_HTTPRuleRow : Eta HTTPRuleRow := λ r,
  mkHTTPRow (hrr_ID r) (hrr_UUID r) (hrr_ServiceID r) (hrr_ContainerPort r) (hrr_Domain r) (hrr_Path r) (hrr_Header r)
    (hrr_Cookie r) (hrr_Weight r) (hrr_IP r) (hrr_CertificateID r).

Record TCPRuleRow := mkTCPRow {
  trr_ID : Z; trr_UUID : string; trr_ServiceID : string; trr_ContainerPort : Z; trr_IP : string; trr_Port : Z }.
#[export] Instance eta_TCPRuleRow : Eta TCPRuleRow := λ r,
  mkTCPRow (trr_ID r) (trr_UUID r) (trr_ServiceID r) (trr_ContainerPort r) (trr_IP r) (trr_Port r).

Record CertificateRow := mkCertRow {
  cer_ID : Z; cer_UUID : string; cer_CertificateName : string; cer_Certificate : string; cer_PrivateKey : string }.
#[export] Instance eta_CertificateRow : Eta CertificateRow := λ r,
  mkCertRow (cer_ID r) (cer_UUID r) (cer_CertificateName r) (cer_Certificate r) (cer_PrivateKey r).

Record RuleExtensionRow := mkExtRow {
  rer_ID : Z; rer_UUID : string; rer_RuleID : string; rer_Key : string; rer_Value : string }.
#[export] Instance eta_RuleExtensionRow : Eta RuleExtensionRow := λ r,
  mkExtRow (rer_ID r) (rer_UUID r) (rer_RuleID r) (rer_Key r) (rer_Value r).

Record GwRuleConfigRow := mkCfgRow { grc_ID : Z; grc_RuleID : string; grc_Key : string; grc_Value : string }.
#[export] Instance eta_GwRuleConfigRow : Eta GwRuleConfigRow := λ r,
  mkCfgRow (grc_ID r) (grc_RuleID r) (grc_Key r) (grc_Value r).

Record TenantServiceLBMappingPort := mkLBPort { lbm_ID : Z; lbm_ServiceID : string; lbm_Port : Z }.

(** [TenantServices], as far as the requests read it. *)
Record ServiceRow := mkServiceRow {
  svr_ID : Z; svr_TenantID : string; svr_ServiceID : string; svr_ServiceAlias : string; svr_Namespace : string;
  svr_Kind : string; svr_ContainerMemory : Z; svr_Replicas : Z; svr_DeployVersion : string; svr_ServiceName : string;
  svr_ServiceType : string; svr_ExtendMethod : string; svr_ContainerCPU : Z; svr_ContainerGPU : Z; svr_AppID : string }.
#[export] Instance eta_ServiceRow : Eta ServiceRow := λ r,
  mkServiceRow (svr_ID r) (svr_TenantID r) (svr_ServiceID r) (svr_ServiceAlias r) (svr_Namespace r) (svr_Kind r)
    (svr_ContainerMemory r) (svr_Replicas r) (svr_DeployVersion r) (svr_ServiceName r) (svr_ServiceType r)
    (svr_ExtendMethod r) (svr_ContainerCPU r) (svr_ContainerGPU r) (svr_AppID r).

(** [TenantServicesDelete]: what a component was. *)
Record DeletedRow := mkDeletedRow { dlr_ID : Z; dlr_Service : ServiceRow }.

(** [VersionInfo] *)
Record VersionRow := mkVersionRow {
  vir_ID : Z; vir_BuildVersion : string; vir_EventID : string; vir_ServiceID : string; vir_Kind : string; vir_Cmd : string;
  vir_RepoURL : string; vir_Author : string; vir_FinalStatus : string; vir_PlanVersion : string }.
#[export] Instance eta_VersionRow : Eta VersionRow := λ r,
  mkVersionRow (vir_ID r) (vir_BuildVersion r) (vir_EventID r) (vir_ServiceID r) (vir_Kind r) (vir_Cmd r) (vir_RepoURL r)
    (vir_Author r) (vir_FinalStatus r) (vir_PlanVersion r).

(** [ServiceEvent] *)
Record EventRow := mkEventRow {
  evr_ID : Z; evr_EventID : string; evr_TenantID : string; evr_Target : string; evr_TargetID : string;
  evr_RequestBody : string; evr_UserName : string; evr_StartTime : string; evr_EndTime : string; evr_OptType : string;
  evr_SynType : Z; evr_Status : string; evr_FinalStatus : string; evr_Reason : string; evr_ServiceID : string }.
#[export] Instance eta_EventRow : Eta EventRow := λ r,
  mkEventRow (evr_ID r) (evr_EventID r) (evr_TenantID r) (evr_Target r) (evr_TargetID r) (evr_RequestBody r)
    (evr_UserName r) (evr_StartTime r) (evr_EndTime r) (evr_OptType r) (evr_SynType r) (evr_Status r)
    (evr_FinalStatus r) (evr_Reason r) (evr_ServiceID r).

(** [TenantServiceLable] and [TenantServiceRelation] *)
Record LabelRow := mkLabelRow { lbr_ID : Z; lbr_ServiceID : string; lbr_LabelKey : string; lbr_LabelValue : string }.
Record RelationRow := mkRelationRow { rlr_ID : Z; rlr_ServiceID : string; rlr_DependServiceID : string }.

(** The tables, and the next primary key. *)
Record Tables := mkTables {
  tb_http : list HTTPRuleRow;
  tb_tcp : list TCPRuleRow;
  tb_cert : list CertificateRow;
  tb_ext : list RuleExtensionRow;
  tb_cfg : list GwRuleConfigRow;
  tb_lb : list TenantServiceLBMappingPort;
  tb_services : list ServiceRow;
  tb_versions : list VersionRow;
  tb_events : list EventRow;
  tb_labels : list LabelRow;
  tb_relations : list RelationRow;
  tb_deleted : list DeletedRow;
  tb_parts : PartTables;
  tb_next : Z
}.
#[export] Instance eta_Tables : Eta Tables := λ t,
  mkTables (tb_http t) (tb_tcp t) (tb_cert t) (tb_ext t) (tb_cfg t) (tb_lb t) (tb_services t)
    (tb_versions t) (tb_events t) (tb_labels t) (tb_relations t) (tb_deleted t) (tb_parts t) (tb_next t).

(** Which table holds rows of a type, and where their primary key is. *)
Class Row (R : Type) := {
  rows : Tables → list R;
  on_rows : (list R → list R) → Tables → Tables;
  row_ID : R → Z;
  with_ID : Z → R → R
}.
#[export] Instance Row_http : Row HTTPRuleRow :=
  { rows := tb_http; on_rows f t := t <| tb_http ::= f |>; row_ID := hrr_ID; with_ID i r := r <| hrr_ID := i |> }.
#[export] Instance Row_tcp : Row TCPRuleRow :=
  { rows := tb_tcp; on_rows f t := t <| tb_tcp ::= f |>; row_ID := trr_ID; with_ID i r := r <| trr_ID := i |> }.
#[export] Instance Row_cert : Row CertificateRow :=
  { rows := tb_cert; on_rows f t := t <| tb_cert ::= f |>; row_ID := cer_ID; with_ID i r := r <| cer_ID := i |> }.
#[export] Instance Row_ext : Row RuleExtensionRow :=
  { rows := tb_ext; on_rows f t := t <| tb_ext ::= f |>; row_ID := rer_ID; with_ID i r := r <| rer_ID := i |> }.
#[export] Instance Row_cfg : Row GwRuleConfigRow :=
  { rows := tb_cfg; on_rows f t := t <| tb_cfg ::= f |>; row_ID := grc_ID; with_ID i r := r <| grc_ID := i |> }.
#[export] Instance Row_lb : Row TenantServiceLBMappingPort :=
  { rows := tb_lb; on_rows f t := t <| tb_lb ::= f |>; row_ID := lbm_ID;
    with_ID i r := mkLBPort i (lbm_ServiceID r) (lbm_Port r) }.
#[export] Instance Row_service : Row ServiceRow :=
  { rows := tb_services; on_rows f t := t <| tb_services ::= f |>; row_ID := svr_ID; with_ID i r := r <| svr_ID := i |> }.
#[export] Instance Row_version : Row VersionRow :=
  { rows := tb_versions; on_rows f t := t <| tb_versions ::= f |>; row_ID := vir_ID; with_ID i r := r <| vir_ID := i |> }.
#[export] Instance Row_event : Row EventRow :=
  { rows := tb_events; on_rows f t := t <| tb_events ::= f |>; row_ID := evr_ID; with_ID i r := r <| evr_ID := i |> }.
#[export] Instance Row_label : Row LabelRow :=
  { rows := tb_labels; on_rows f t := t <| tb_labels ::= f |>; row_ID := lbr_ID;
    with_ID i r := mkLabelRow i (lbr_ServiceID r) (lbr_LabelKey r) (lbr_LabelValue r) }.
#[export] Instance Row_relation : Row RelationRow :=
  { rows := tb_relations; on_rows f t := t <| tb_relations ::= f |>; row_ID := rlr_ID;
    with_ID i r := mkRelationRow i (rlr_ServiceID r) (rlr_DependServiceID r) }.

#[export] Instance Row_deleted : Row DeletedRow :=
  { rows := tb_deleted; on_rows f t := t <| tb_deleted ::= f |>; row_ID := dlr_ID;
    with_ID i r := mkDeletedRow i (dlr_Service r) }.

(** The parts of components. *)
Definition on_parts (f : PartTables → PartTables) (t : Tables) : Tables := t <| tb_parts ::= f |>.
#[export] Instance Row_port : Row PortRow :=
  { rows t := pt_ports (tb_parts t); on_rows f := on_parts (λ p, p <| pt_ports ::= f |>); row_ID := prt_ID;
    with_ID i r := r <| prt_ID := i |> }.
#[export] Instance Row_env : Row EnvRow :=
  { rows t := pt_envs (tb_parts t); on_rows f := on_parts (λ p, p <| pt_envs ::= f |>); row_ID := env_ID;
    with_ID i r := r <| env_ID := i |> }.
#[export] Instance Row_volume : Row VolumeRow :=
  { rows t := pt_volumes (tb_parts t); on_rows f := on_parts (λ p, p <| pt_volumes ::= f |>); row_ID := vol_ID;
    with_ID i r := r <| vol_ID := i |> }.
#[export] Instance Row_file : Row ConfigFileRow :=
  { rows t := pt_files (tb_parts t); on_rows f := on_parts (λ p, p <| pt_files ::= f |>); row_ID := cff_ID;
    with_ID i r := r <| cff_ID := i |> }.
#[export] Instance Row_mount : Row MountRow :=
  { rows t := pt_mounts (tb_parts t); on_rows f := on_parts (λ p, p <| pt_mounts ::= f |>); row_ID := mnt_ID;
    with_ID i r := r <| mnt_ID := i |> }.
#[export] Instance Row_plugin : Row PluginRow :=
  { rows t := pt_plugins (tb_parts t); on_rows f := on_parts (λ p, p <| pt_plugins ::= f |>); row_ID := plg_ID;
    with_ID i r := mkPlgRow i (plg_ServiceID r) (plg_PluginID r) (plg_PluginModel r) (plg_Switch r) }.
#[export] Instance Row_pluginport : Row PluginPortRow :=
  { rows t := pt_pluginports (tb_parts t); on_rows f := on_parts (λ p, p <| pt_pluginports ::= f |>); row_ID := ppr_ID;
    with_ID i r := r <| ppr_ID := i |> }.
#[export] Instance Row_probe : Row ProbeRow :=
  { rows t := pt_probes (tb_parts t); on_rows f := on_parts (λ p, p <| pt_probes ::= f |>); row_ID := prb_ID;
    with_ID i r := r <| prb_ID := i |> }.
#[export] Instance Row_monitor : Row MonitorRow :=
  { rows t := pt_monitors (tb_parts t); on_rows f := on_parts (λ p, p <| pt_monitors ::= f |>); row_ID := mon_ID;
    with_ID i r := mkMonRow i (mon_TenantID r) (mon_ServiceID r) (mon_Name r) (mon_ServiceShowName r) (mon_Port r) (mon_Path r) (mon_Interval r) }.
#[export] Instance Row_endpoint : Row EndpointRow :=
  { rows t := pt_endpoints (tb_parts t); on_rows f := on_parts (λ p, p <| pt_endpoints ::= f |>); row_ID := ept_ID;
    with_ID i r := mkEpRow i (ept_UUID r) (ept_ServiceID r) (ept_IP r) (ept_Port r) (ept_IsOnline r) }.
#[export] Instance Row_discovery : Row DiscoveryRow :=
  { rows t := pt_discovery (tb_parts t); on_rows f := on_parts (λ p, p <| pt_discovery ::= f |>); row_ID := dsc_ID;
    with_ID i r := mkDiscRow i (dsc_ServiceID r) (dsc_Type r) (dsc_Servers r) (dsc_Key r) (dsc_Username r) (dsc_Password r) }.
#[export] Instance Row_scaler : Row ScalerRow :=
  { rows t := pt_scalers (tb_parts t); on_rows f := on_parts (λ p, p <| pt_scalers ::= f |>); row_ID := asr_ID;
    with_ID i r := r <| asr_ID := i |> }.
#[export] Instance Row_metric : Row MetricRow :=
  { rows t := pt_metrics (tb_parts t); on_rows f := on_parts (λ p, p <| pt_metrics ::= f |>); row_ID := asm_ID;
    with_ID i r := mkMetricRow i (asm_RuleID r) (asm_MetricsType r) (asm_MetricsName r) (asm_MetricTargetType r) (asm_MetricTargetValue r) }.
#[export] Instance Row_owned : Row OwnedRow :=
  { rows t := pt_owned (tb_parts t); on_rows f := on_parts (λ p, p <| pt_owned ::= f |>); row_ID := own_ID;
    with_ID i r := mkOwnedRow (own_Table r) i (own_ServiceID r) }.

(** ** The database *)

(** A message for the workers: [apply_rule] of one component. *)
Record RuleTask := mkRuleTask {
  rt_service_id : string; rt_deploy_version : string; rt_action : string; rt_event_id : option string;
  rt_limit : string * string }.

(** A message for the builders: its topic, its type and the fields of its body
    that are told apart. *)
Record BuildTask := mkBuildTask { bt_Topic : string; bt_TaskType : string; bt_TaskBody : gmap string string }.

(** What is handed to the client of the queue. *)
Inductive SentTask := SentRule (t : RuleTask) | SentWork (taskType : string) (b : TaskBody) | SentBuild (t : BuildTask).

(** What is committed, what the open transaction sees, how many statements
    ran, how many ids were made, the locked ports with the end of their lock,
    and the messages that reached the queue. *)
Record World := mkWorld {
  w_db : Tables;
  w_tx : option Tables;
  w_statements : nat;
  w_ids : nat;
  w_lockPort : gmap Z Z;
  w_tasks : list SentTask
}.
#[export] Instance eta_World : Eta World := λ w,
  mkWorld (w_db w) (w_tx w) (w_statements w) (w_ids w) (w_lockPort w) (w_tasks w).

(** Which statements fail and how, in what order rows are returned, the ids
    [util.NewUUID] makes, whether a message can be sent. *)
Class ApiEnv := {
  statement_error : nat → option error;
  any_order : ∀ {A : Type}, list A → list A;
  NewUUID : nat → string;
  queue_error : SentTask → option error
}.

(** SQL gives the rows that were asked for, in some order; a statement that
    fails does not say that there is no row. *)
Class ApiEnvLaws `{ApiEnv} : Prop := {
  any_order_perm A (l : list A) : any_order l ≡ₚ l;
  statement_error_other n : statement_error n ≠ Some ERecordNotFound
}.

Inductive Conn := Pool | Tx.

Section gorm.
Context `{ApiEnv}.

Definition visible (c : Conn) (w : World) : Tables :=
  match c with Pool => w_db w | Tx => default (w_db w) (w_tx w) end.

Definition store_tables (c : Conn) (t : Tables) (w : World) : World :=
  match c with Pool => w <| w_db := t |> | Tx => w <| w_tx := Some t |> end.

Definition statement {A} (c : Conn) (f : Tables → Tables * A) : M World A := λ w,
  let w' := w <| w_statements ::= S |> in
  match statement_error (w_statements w) with
  | Some e => (w', Err e)
  | None => let '(t, a) := f (visible c w) in (store_tables c t w', Ok a)
  end.

Section table.
Context {R : Type} `{Row R}.

(** [Where(...).Find(&slice)] *)
Definition Find (c : Conn) (P : R → Prop) `{∀ r, Decision (P r)} : M World (list R) :=
  statement c (λ t, (t, any_order (base.filter P (rows t)))).

(** [Where(...).Find(&row)] *)
Definition Find_one (c : Conn) (P : R → Prop) `{∀ r, Decision (P r)} : M World R :=
  l ← Find c P;
  match l with r :: _ => mret r | [] => fail ERecordNotFound end.

(** [Where(...).Find(&old).RecordNotFound()]: another error is not one. *)
Definition RecordNotFound (c : Conn) (P : R → Prop) `{∀ r, Decision (P r)} : M World bool :=
  r ← catch (Find_one c P); mret (match r with inl ERecordNotFound => true | _ => false end).

Definition Create (c : Conn) (r : R) : M World unit :=
  statement c (λ t, ((on_rows (λ l, l ++ [with_ID (tb_next t) r]) t) <| tb_next ::= Z.succ |>, ())).

Definition save_row (r : R) (l : list R) : list R := (λ x, if decide (row_ID x = row_ID r) then r else x) <$> l.

(** [Save]: a row of no primary key, or of one that is not there, is created. *)
Definition Save (c : Conn) (r : R) : M World unit := λ w,
  if decide (row_ID r ≠ 0%Z ∧ row_ID r ∈ row_ID <$> rows (visible c w))
  then statement c (λ t, (on_rows (save_row r) t, ())) w
  else Create c r w.

Definition Delete (c : Conn) (P : R → Prop) `{∀ r, Decision (P r)} : M World unit :=
  statement c (λ t, (on_rows (base.filter (λ r, ¬ P r)) t, ())).
End table.

Definition Begin : M World unit := modify (λ w, w <| w_tx := Some (w_db w) |>).
Definition Rollback : M World unit := modify (λ w, w <| w_tx := None |>).

(** A commit that fails has changed nothing. *)
Definition Commit : M World unit := λ w,
  let w' := w <| w_statements ::= S |> <| w_tx := None |> in
  match statement_error (w_statements w) with
  | Some e => (w', Err e)
  | None => (w' <| w_db := visible Tx w |>, Ok ())
  end.
End gorm.

(** ** The data access objects *)

Section dao.
Context `{ApiEnv}.
Context (c : Conn).

(** [CertificateDaoImpl] *)

Definition CertificateDao_AddModel (certificate : CertificateRow) : M World unit :=
  ok ← RecordNotFound c (λ r, cer_UUID r = cer_UUID certificate);
  if (ok : bool) then Create c certificate else fail (EMsg "certificate already exists").

Definition CertificateDao_UpdateModel (cert : CertificateRow) : M World unit := Save c cert.

Definition CertificateDao_AddOrUpdate (cert : CertificateRow) : M World unit :=
  r ← catch (Find_one c (λ r, cer_UUID r = cer_UUID cert));
  match r with
  | inl ERecordNotFound => Create c cert
  | inl e => fail e
  | inr old => Save c (old <| cer_Certificate := cer_Certificate cert |> <| cer_PrivateKey := cer_PrivateKey cert |>)
  end.

(** [if err == gorm.ErrRecordNotFound { return nil, nil }] *)
Definition nil_if_absent {A} (m : M World A) : M World (option A) :=
  r ← catch m;
  match r with inl ERecordNotFound => mret None | inl e => fail e | inr a => mret (Some a) end.

Definition GetCertificateByID (certificateID : string) : M World (option CertificateRow) :=
  nil_if_absent (Find_one c (λ r, cer_UUID r = certificateID)).

(** [RuleExtensionDaoImpl] *)

Definition RuleExtensionDao_AddModel (re : RuleExtensionRow) : M World unit :=
  ok ← RecordNotFound c (λ r, rer_RuleID r = rer_RuleID re ∧ rer_Value r = rer_Value re);
  if (ok : bool) then Create c re else fail (EMsg "RuleExtension already exists").

Definition GetRuleExtensionByRuleID (ruleID : string) : M World (list RuleExtensionRow) :=
  Find c (λ r, rer_RuleID r = ruleID).

Definition DeleteRuleExtensionByRuleID (ruleID : string) : M World unit :=
  Delete c (λ r, rer_RuleID r = ruleID).

Definition RuleExtensionDao_DeleteByRuleIDs (ruleIDs : list string) : M World unit :=
  wrap_err "delete rule extentions" (Delete c (λ r, rer_RuleID r ∈ ruleIDs)).

(** [HTTPRuleDaoImpl] *)

Definition HTTPRuleDao_AddModel (httpRule : HTTPRuleRow) : M World unit :=
  ok ← RecordNotFound c (λ r, hrr_UUID r = hrr_UUID httpRule);
  if (ok : bool) then Create c httpRule else fail (EMsg "HTTPRule already exists").

Definition HTTPRuleDao_UpdateModel (hr : HTTPRuleRow) : M World unit := Save c hr.

Definition zero_http : HTTPRuleRow := mkHTTPRow 0 "" "" 0 "" "" "" "" 0 "" "".

(** A rule that is not there is the zero rule. *)
Definition GetHTTPRuleByID (id : string) : M World HTTPRuleRow :=
  r ← nil_if_absent (Find_one c (λ r, hrr_UUID r = id)); mret (default zero_http r).

Definition GetHTTPRuleByServiceIDAndContainerPort (serviceID : string) (containerPort : Z) : M World (list HTTPRuleRow) :=
  Find c (λ r, hrr_ServiceID r = serviceID ∧ hrr_ContainerPort r = containerPort).

Definition GetHTTPRulesByCertificateID (certificateID : string) : M World (list HTTPRuleRow) :=
  Find c (λ r, hrr_CertificateID r = certificateID).

Definition DeleteHTTPRuleByID (id : string) : M World unit := Delete c (λ r, hrr_UUID r = id).

(** Deleting nothing is no error: the test for one in both functions of this
    name is never true. *)
Definition HTTPRuleDao_DeleteByComponentPort (componentID : string) (port : Z) : M World unit :=
  Delete c (λ r, hrr_ServiceID r = componentID ∧ hrr_ContainerPort r = port).

Definition DeleteHTTPRuleByServiceID (serviceID : string) : M World unit :=
  Delete c (λ r, hrr_ServiceID r = serviceID).

Definition HTTPRuleDao_ListByServiceID (serviceID : string) : M World (list HTTPRuleRow) :=
  Find c (λ r, hrr_ServiceID r = serviceID).

Definition ListByComponentPort (componentID : string) (port : Z) : M World (list HTTPRuleRow) :=
  wrap_err "list http rules" (Find c (λ r, hrr_ServiceID r = componentID ∧ hrr_ContainerPort r = port)).

Definition ListByCertID (certID : string) : M World (list HTTPRuleRow) := Find c (λ r, hrr_CertificateID r = certID).

(** [TCPRuleDaoTmpl] *)

Definition TCPRuleDao_AddModel (tcpRule : TCPRuleRow) : M World unit :=
  ok ← RecordNotFound c (λ r, trr_UUID r = trr_UUID tcpRule ∨ (trr_IP r = trr_IP tcpRule ∧ trr_Port r = trr_Port tcpRule));
  if (ok : bool) then Create c tcpRule else fail (EMsg "TCPRule already exists").

Definition TCPRuleDao_UpdateModel (tr : TCPRuleRow) : M World unit := Save c tr.

Definition GetTCPRuleByServiceIDAndContainerPort (serviceID : string) (containerPort : Z) : M World (list TCPRuleRow) :=
  Find c (λ r, trr_ServiceID r = serviceID ∧ trr_ContainerPort r = containerPort).

(** A rule that is not there is nil. *)
Definition GetTCPRuleByID (id : string) : M World (option TCPRuleRow) :=
  nil_if_absent (Find_one c (λ r, trr_UUID r = id)).

Definition GetTCPRuleByServiceID (sid : string) : M World (list TCPRuleRow) := Find c (λ r, trr_ServiceID r = sid).

Definition TCPRuleDao_DeleteByID (uuid : string) : M World unit := Delete c (λ r, trr_UUID r = uuid).

Definition DeleteTCPRuleByServiceID (serviceID : string) : M World unit := Delete c (λ r, trr_ServiceID r = serviceID).

Definition TCPRuleDao_DeleteByComponentPort (componentID : string) (port : Z) : M World unit :=
  wrap_err "delete tcp rules" (Delete c (λ r, trr_ServiceID r = componentID ∧ trr_ContainerPort r = port)).

(** Of every address if the address is [0.0.0.0]; the order is by port, which
    no caller needs. *)
Definition GetUsedPortsByIP (ip : string) : M World (list TCPRuleRow) :=
  if decide (ip = "0.0.0.0"%string) then Find c (λ _, True)
  else Find c (λ r, trr_IP r = ip ∨ trr_IP r = "0.0.0.0"%string).

Definition TCPRuleDao_ListByServiceID (serviceID : string) : M World (list TCPRuleRow) :=
  Find c (λ r, trr_ServiceID r = serviceID).

(** [GwRuleConfigDaoImpl] *)

Definition GwRuleConfigDao_AddModel (cfg : GwRuleConfigRow) : M World unit :=
  ok ← RecordNotFound c (λ r, grc_RuleID r = grc_RuleID cfg ∧ grc_Key r = grc_Key cfg);
  if (ok : bool) then Create c cfg else fail (EMsg "rule config exists").

Definition DeleteByRuleID (rid : string) : M World unit := Delete c (λ r, grc_RuleID r = rid).

Definition GwRuleConfigDao_ListByRuleID (rid : string) : M World (list GwRuleConfigRow) := Find c (λ r, grc_RuleID r = rid).

Definition GwRuleConfigDao_DeleteByRuleIDs (ruleIDs : list string) : M World unit :=
  wrap_err "delete rule configs" (Delete c (λ r, grc_RuleID r ∈ ruleIDs)).

(** [tenants.go] *)

Definition DELServiceLBMappingPortByServiceIDAndPort (serviceID : string) (lbport : Z) : M World unit :=
  Delete c (λ r, lbm_ServiceID r = serviceID ∧ lbm_Port r = lbport).

Definition GetServiceByID (serviceID : string) : M World ServiceRow := Find_one c (λ r, svr_ServiceID r = serviceID).
End dao.

(** What the worker reads of these tables ([worker/appm/conversion/gateway.go]). *)
Section worker.
Context `{ApiEnv}.

Definition to_http (r : HTTPRuleRow) : HTTPRule :=
  mkHTTPRule (hrr_UUID r) (hrr_Domain r) (hrr_Path r) (hrr_Header r) (hrr_Cookie r) (hrr_Weight r) (hrr_CertificateID r).
Definition to_tcp (r : TCPRuleRow) : TCPRule := mkTCPRule (trr_UUID r) (trr_IP r) (trr_Port r).

Definition answer {A} (m : M World A) (w : World) : error + A :=
  match (m w).2 with Ok a => inr a | Err e => inl e | Panic => inl (EMsg "panic") end.

(** The rest of the database, and these tables. *)
Definition with_rules (gdb : GatewayDB) (w : World) : GatewayDB := {|
  gd_ports := gd_ports gdb;
  gd_check_plugin := gd_check_plugin gdb;
  gd_plugin_ports := gd_plugin_ports gdb;
  gd_http_rules := λ sid port, answer (l ← GetHTTPRuleByServiceIDAndContainerPort Pool sid port; mret (to_http <$> l)) w;
  gd_tcp_rules := λ sid port, answer (l ← GetTCPRuleByServiceIDAndContainerPort Pool sid port; mret (to_tcp <$> l)) w;
  gd_certificate := λ id, answer (r ← GetCertificateByID Pool id;
    mret ((λ r, mkCertificate (cer_Certificate r) (cer_PrivateKey r)) <$> r)) w;
  gd_extensions := λ id, answer (l ← GetRuleExtensionByRuleID Pool id; mret ((λ r, (rer_Key r, rer_Value r)) <$> l)) w;
  gd_configs := λ id, answer (l ← GwRuleConfigDao_ListByRuleID Pool id; mret ((λ r, (grc_Key r, grc_Value r)) <$> l)) w;
  gd_monitors := gd_monitors gdb
|}.
End worker.
