(* ===== verification/RuleAction.v ===== *)
(** * Requests for gateway rules

    [api/handler/gateway_action.go]: adding, changing and deleting rules for
    hosts and ports in transactions, the settings of a rule, certificates, free
    ports; and the checks of [api/controller/gateway.go] before them. *)
From stdpp Require Import pretty.
From S2P Require Import Prelude Gateway ApiDao.

(** ** Requests: [api/model/gateway_model.go] *)

Record RuleExtensionStruct := mkRuleExt { re_Key : string; re_Value : string }.

Record AddHTTPRuleStruct := mkAddHTTP {
  ah_HTTPRuleID : string; ah_ServiceID : string; ah_ContainerPort : Z; ah_Domain : string; ah_Path : string;
  ah_Header : string; ah_Cookie : string; ah_Weight : Z; ah_IP : string; ah_CertificateID : string;
  ah_Certificate : string; ah_PrivateKey : string; ah_RuleExtensions : list RuleExtensionStruct }.

(** [UpdateHTTPRuleStruct] has the same fields. *)
Definition UpdateHTTPRuleStruct : Type := AddHTTPRuleStruct.

Record AddTCPRuleStruct := mkAddTCP {
  at_TCPRuleID : string; at_ServiceID : string; at_ContainerPort : Z; at_IP : string; at_Port : Z;
  at_RuleExtensions : list RuleExtensionStruct }.
Definition UpdateTCPRuleStruct : Type := AddTCPRuleStruct.

Record SetHeader := mkSetHeader { sh_Key : string; sh_Value : string }.

(** [Body]; its rewrites are read by no code. *)
Record RuleConfigBody := mkBody {
  bd_ProxyConnectTimeout : Z; bd_ProxySendTimeout : Z; bd_ProxyReadTimeout : Z; bd_ProxyBodySize : Z;
  bd_SetHeaders : list SetHeader; bd_ProxyBufferSize : Z; bd_ProxyBufferNumbers : Z; bd_ProxyBuffering : string }.
Record RuleConfigReq := mkRuleConfigReq {
  rq_RuleID : string; rq_ServiceID : string; rq_EventID : string; rq_Body : RuleConfigBody }.

Record UpdCertificateReq := mkUpdCert {
  uc_CertificateID : string; uc_CertificateName : string; uc_Certificate : string; uc_PrivateKey : string }.

(** ** Free ports *)

Section ports.
Context (minPort maxPort : Z).

(** The loop over the used ports, sorted, when none is free above them. *)
Fixpoint pick_previous (used : list Z) (selectPort : Z) : Z :=
  match used with
  | [] => if decide (selectPort ≤ maxPort)%Z then selectPort else 0%Z
  | p :: used' =>
    if decide (p = selectPort) then pick_previous used' (int64 (selectPort + 1))
    else if decide (selectPort < p)%Z then selectPort
    else pick_previous used' (int64 (selectPort + 1))
  end.

Definition select_port (used : list Z) : Z :=
  match last (merge_sort Z.le used) with
  | None => minPort
  | Some p =>
    let selectPort := Z.max minPort (int64 (p + 1)) in
    if decide (selectPort ≤ maxPort)%Z then selectPort else pick_previous (merge_sort Z.le used) minPort
  end.
End ports.

(** [strconv.Atoi] of a variable of the environment; zero stands for unset. *)
Definition port_variable (value : string) (d : Z) : Z :=
  let n := (Atoi value).1 in if decide (n = 0%Z) then d else n.

Definition selectAvailablePort (getenv : string → string) (used : list Z) : Z :=
  select_port (port_variable (getenv "MIN_LB_PORT") 10000) (port_variable (getenv "MAX_LB_PORT") 65535) used.

(** ** The handler *)

Section action.
Context `{ApiEnv}.

Definition new_id : M World string := λ w, (w <| w_ids ::= S |>, Ok (NewUUID (w_ids w))).

(** [gorm.DB.Transaction] *)
Definition Transaction (fc : M World unit) : M World unit :=
  λ w, match fc (Begin w).1 with
       | (w', Ok _) => Commit w'
       | (w', r) => ((Rollback w').1, r)
       end.

(** The functions that begin a transaction themselves: every error of their
    body is followed by [tx.Rollback()]; a panic is caught by the deferred
    function, which rolls back and lets the function return no error. *)
Definition transaction {A} (body : M World A) (after : A → M World unit) : M World unit :=
  λ w, match body (Begin w).1 with
       | (w', Ok a) => (Commit ≫= λ _, after a) w'
       | (w', Err e) => ((Rollback w').1, Err e)
       | (w', Panic) => ((Rollback w').1, Ok ())
       end.

(** A message that cannot be sent is logged by every caller. *)
Definition SendTask (sid action : string) (event : option string) (limit : string * string) : M World unit :=
  service ← wrap_err "Unexpected error occurred while getting Service" (GetServiceByID Pool sid);
  let task := SentRule (mkRuleTask sid (svr_DeployVersion service) action event limit) in
  match queue_error task with
  | Some e => fail (EWrap "Unexpected error occurred while sending task" e)
  | None => modify (λ w, w <| w_tasks ::= λ l, l ++ [task] |>)
  end.

Definition try_send (sid action : string) (event : option string) (limit : string * string) : M World unit :=
  _ ← catch (SendTask sid action event limit); mret ().

Definition rule_path (path : string) : string := if String.prefix "/" path then path else ("/" +:+ path)%string.

Definition tcp_address (ip : string) (port : Z) : string * string := ("tcp-address", ip +:+ ":" +:+ pretty port)%string.

(** The loops over extensions; only those for hosts store the key. *)
Definition add_extension (c : Conn) (ruleID : string) (key : RuleExtensionStruct → string)
    (ruleExtension : RuleExtensionStruct) : M World unit :=
  uuid ← new_id;
  RuleExtensionDao_AddModel c (mkExtRow 0 uuid ruleID (key ruleExtension) (re_Value ruleExtension)).

Definition no_key : RuleExtensionStruct → string := λ _, ""%string.

(** *** Rules for hosts *)

Definition cert_name (uuid : string) : string := ("cert-" +:+ String.substring 0 8 uuid)%string.

Definition new_http_rule (req : AddHTTPRuleStruct) : HTTPRuleRow :=
  mkHTTPRow 0 (ah_HTTPRuleID req) (ah_ServiceID req) (ah_ContainerPort req) (ah_Domain req) (rule_path (ah_Path req))
    (ah_Header req) (ah_Cookie req) (ah_Weight req) (ah_IP req) (ah_CertificateID req).

Definition CreateHTTPRule (req : AddHTTPRuleStruct) : M World unit :=
  _ ← wrap_err "create http rule" (HTTPRuleDao_AddModel Tx (new_http_rule req));
  _ ← (if decide (drop_spaces (ah_CertificateID req) = ""%string) then mret () else
       uuid ← new_id;
       wrap_err "create or update http rule" (CertificateDao_AddOrUpdate Tx
         (mkCertRow 0 (ah_CertificateID req) (cert_name uuid) (ah_Certificate req) (ah_PrivateKey req))));
  forM (ah_RuleExtensions req) (λ e, wrap_err "create rule extensions" (add_extension Tx (ah_HTTPRuleID req) re_Key e)).

Definition AddHTTPRule (req : AddHTTPRuleStruct) : M World unit :=
  _ ← Transaction (CreateHTTPRule req);
  try_send (ah_ServiceID req) "add-http-rule" None ("domain", ah_Domain req)%string.

Definition keep_if_empty (new old : string) : string := if decide (new = ""%string) then old else new.
Definition keep_if_zero (new old : Z) : Z := if decide (new = 0%Z) then old else new.

Definition changed_http_rule (req : UpdateHTTPRuleStruct) (rule : HTTPRuleRow) : HTTPRuleRow :=
  mkHTTPRow (hrr_ID rule) (hrr_UUID rule) (keep_if_empty (ah_ServiceID req) (hrr_ServiceID rule))
    (keep_if_zero (ah_ContainerPort req) (hrr_ContainerPort rule)) (keep_if_empty (ah_Domain req) (hrr_Domain rule))
    (rule_path (ah_Path req)) (ah_Header req) (ah_Cookie req) (ah_Weight req) (keep_if_empty (ah_IP req) (hrr_IP rule))
    (if decide (drop_spaces (ah_CertificateID req) = ""%string) then ""%string else ah_CertificateID req).

(** No extension in the request leaves the old ones. *)
Definition replace_extensions (ruleID : string) (key : RuleExtensionStruct → string) (l : list RuleExtensionStruct) :
    M World unit :=
  match l with
  | [] => mret ()
  | _ => _ ← DeleteRuleExtensionByRuleID Tx ruleID; forM l (add_extension Tx ruleID key)
  end.

Definition update_http_body (req : UpdateHTTPRuleStruct) : M World HTTPRuleRow :=
  rule ← GetHTTPRuleByID Tx (ah_HTTPRuleID req);
  if decide (hrr_UUID rule = ""%string) then fail (EMsg "HTTPRule dosen't exist") else
  _ ← (if decide (drop_spaces (ah_CertificateID req) = ""%string) then mret () else
       CertificateDao_AddOrUpdate Tx (mkCertRow 0 (ah_CertificateID req) "" (ah_Certificate req) (ah_PrivateKey req)));
  _ ← replace_extensions (hrr_UUID rule) re_Key (ah_RuleExtensions req);
  let rule := changed_http_rule req rule in
  _ ← HTTPRuleDao_UpdateModel Tx rule;
  mret rule.

Definition UpdateHTTPRule (req : UpdateHTTPRuleStruct) : M World unit :=
  transaction (update_http_body req) (λ rule,
    try_send (hrr_ServiceID rule) "update-http-rule" None ("domain", ah_Domain req)%string).

Definition isCertificateBeingUsed (certID : string) : M World bool :=
  rules ← wrap_err "list rules by certificate id" (GetHTTPRulesByCertificateID Pool certID);
  mret (bool_decide (0 < length rules)).

(** The settings of the rule stay. *)
Definition delete_http_body (HTTPRuleID : string) : M World HTTPRuleRow :=
  httpRule ← GetHTTPRuleByID Tx HTTPRuleID;
  _ ← DeleteHTTPRuleByID Tx (hrr_UUID httpRule);
  _ ← DeleteRuleExtensionByRuleID Tx (hrr_UUID httpRule);
  mret httpRule.

Definition DeleteHTTPRule (HTTPRuleID : string) : M World unit :=
  transaction (delete_http_body HTTPRuleID) (λ httpRule,
    try_send (hrr_ServiceID httpRule) "delete-http-rule" None ("domain", hrr_Domain httpRule)%string).

Definition DeleteHTTPRuleByServiceIDWithTransaction (sid : string) : M World unit :=
  rules ← HTTPRuleDao_ListByServiceID Tx sid;
  forM rules (λ rule,
    _ ← DeleteRuleExtensionByRuleID Tx (hrr_UUID rule);
    _ ← DeleteByRuleID Tx (hrr_UUID rule);
    DeleteHTTPRuleByID Tx (hrr_UUID rule)).

Definition AddCertificate (req : AddHTTPRuleStruct) : M World unit :=
  uuid ← new_id;
  CertificateDao_AddModel Tx
    (mkCertRow 0 (ah_CertificateID req) (cert_name uuid) (ah_Certificate req) (ah_PrivateKey req)).

Definition UpdateCertificate (req : AddHTTPRuleStruct) : M World unit :=
  cert ← GetCertificateByID Tx (ah_CertificateID req);
  match cert with
  | None => fail (EMsg "Certificate doesn't exist")
  | Some cert =>
    uuid ← new_id;
    CertificateDao_UpdateModel Tx (cert <| cer_CertificateName := cert_name uuid |>
      <| cer_Certificate := ah_Certificate req |> <| cer_PrivateKey := ah_PrivateKey req |>)
  end.

(** *** Rules for ports *)

Definition new_tcp_rule (req : AddTCPRuleStruct) : TCPRuleRow :=
  mkTCPRow 0 (at_TCPRuleID req) (at_ServiceID req) (at_ContainerPort req) (at_IP req) (at_Port req).

Definition CreateTCPRule (req : AddTCPRuleStruct) : M World unit :=
  _ ← TCPRuleDao_AddModel Tx (new_tcp_rule req);
  forM (at_RuleExtensions req) (add_extension Tx (at_TCPRuleID req) no_key).

Definition AddTCPRule (req : AddTCPRuleStruct) : M World unit :=
  _ ← Transaction (CreateTCPRule req);
  try_send (at_ServiceID req) "add-tcp-rule" None (tcp_address (at_IP req) (at_Port req)).

Definition changed_tcp_rule (req : UpdateTCPRuleStruct) (rule : TCPRuleRow) : TCPRuleRow :=
  mkTCPRow (trr_ID rule) (trr_UUID rule) (keep_if_empty (at_ServiceID req) (trr_ServiceID rule))
    (keep_if_zero (at_ContainerPort req) (trr_ContainerPort rule)) (keep_if_empty (at_IP req) (trr_IP rule)) (at_Port req).

(** A rule that is not there is nil, and assigning its port panics. *)
Definition update_tcp_body (req : UpdateTCPRuleStruct) : M World TCPRuleRow :=
  tcpRule ← GetTCPRuleByID Tx (at_TCPRuleID req);
  match tcpRule with
  | None => panic
  | Some rule =>
    _ ← replace_extensions (trr_UUID rule) no_key (at_RuleExtensions req);
    let rule := changed_tcp_rule req rule in
    _ ← TCPRuleDao_UpdateModel Tx rule;
    mret rule
  end.

Definition UpdateTCPRule (req : UpdateTCPRuleStruct) (minPort : Z) : M World unit :=
  transaction (update_tcp_body req) (λ rule,
    try_send (trr_ServiceID rule) "update-tcp-rule" None (tcp_address (trr_IP rule) (trr_Port rule))).

Definition delete_tcp_body (TCPRuleID : string) : M World TCPRuleRow :=
  tcpRule ← GetTCPRuleByID Tx TCPRuleID;
  match tcpRule with
  | None => panic
  | Some rule =>
    _ ← DeleteRuleExtensionByRuleID Tx (trr_UUID rule);
    _ ← TCPRuleDao_DeleteByID Tx (trr_UUID rule);
    _ ← DELServiceLBMappingPortByServiceIDAndPort Tx (trr_ServiceID rule) (trr_Port rule);
    mret rule
  end.

Definition DeleteTCPRule (TCPRuleID : string) : M World unit :=
  transaction (delete_tcp_body TCPRuleID) (λ rule, try_send (trr_ServiceID rule) "delete-tcp-rule" None (tcp_address (trr_IP rule) (trr_Port rule))).

Definition DeleteTCPRuleByServiceIDWithTransaction (sid : string) : M World unit :=
  rules ← GetTCPRuleByServiceID Tx sid;
  forM rules (λ rule,
    _ ← DeleteRuleExtensionByRuleID Tx (trr_UUID rule);
    TCPRuleDao_DeleteByID Tx (trr_UUID rule)).

Definition AddRuleExtensions (ruleID : string) (l : list RuleExtensionStruct) : M World unit :=
  forM l (add_extension Tx ruleID no_key).

Definition GetAvailablePort (getenv : string → string) (now : Z) (ip : string) (lock : bool) : M World Z :=
  roles ← GetUsedPortsByIP Pool ip;
  _ ← modify (λ w, w <| w_lockPort ::= base.filter (λ kv, ¬ (kv.2 < now)%Z) |>);
  locked ← gets (λ w, (map_to_list (w_lockPort w)).*1);
  let port := selectAvailablePort getenv ((trr_Port <$> roles) ++ locked) in
  if decide (port = 0%Z) then fail (EMsg "no more lb port can be use with ip") else
  _ ← when lock (modify (λ w, w <| w_lockPort ::= <[port := (now + 120)%Z]> |>));
  mret port.

(** Every address of a gateway with the port proposed for it, zero if there is
    none; [res] is what etcd answers. *)
Definition GetGatewayIPs `{GoRuntime} (getenv : string → string) (now : Z) (res : error + list string) :
    M World (list (string * Z)) :=
  let port_of ip := r ← catch (GetAvailablePort getenv now ip false);
    mret (ip, match r with inr p => p | inl _ => 0%Z end) in
  d ← port_of "0.0.0.0"%string;
  match res with
  | inl _ => mret [d]
  | inr ips => foldM (λ l ip, x ← port_of ip; mret (l ++ [x])) [d] (sort_slice String.ltb ips)
  end.

(** An error reads as no rules. *)
Definition TCPIPPortExists (host : string) (port : Z) : M World bool :=
  r ← catch (GetUsedPortsByIP Pool host);
  mret (match r with inr roles => bool_decide (port ∈ trr_Port <$> roles) | inl _ => false end).

(** *** Settings *)

Definition numbers_of (b : RuleConfigBody) : list (string * string) :=
  [("proxy-connect-timeout", pretty (bd_ProxyConnectTimeout b)); ("proxy-send-timeout", pretty (bd_ProxySendTimeout b));
   ("proxy-read-timeout", pretty (bd_ProxyReadTimeout b)); ("proxy-body-size", pretty (bd_ProxyBodySize b));
   ("proxy-buffer-size", pretty (bd_ProxyBufferSize b) +:+ "k"); ("proxy-buffer-numbers", pretty (bd_ProxyBufferNumbers b));
   ("proxy-buffering", bd_ProxyBuffering b)]%string.

Definition put_header (m : gmap string string) (item : SetHeader) : gmap string string :=
  if decide (TrimSpace (sh_Key item) = ""%string) then m else
  <[("set-header-" +:+ sh_Key item)%string :=
    if decide (TrimSpace (sh_Value item) = ""%string) then "empty"%string else sh_Value item]> m.

Definition setheaders (b : RuleConfigBody) : gmap string string := foldl put_header ∅ (bd_SetHeaders b).

Definition configs_of `{GoRuntime} (b : RuleConfigBody) : list (string * string) :=
  numbers_of b ++ range_order (setheaders b).

Definition replace_configs (ruleID : string) (l : list (string * string)) : M World unit :=
  _ ← DeleteByRuleID Tx ruleID;
  forM l (λ kv, GwRuleConfigDao_AddModel Tx (mkCfgRow 0 ruleID kv.1 kv.2)).

Definition RuleConfig `{GoRuntime} (req : RuleConfigReq) : M World unit :=
  rule ← GetHTTPRuleByID Pool (rq_RuleID req);
  transaction (replace_configs (rq_RuleID req) (configs_of (rq_Body req)))
    (λ _, try_send (rq_ServiceID req) "update-rule-config" (Some (rq_EventID req)) ("domain", hrr_Domain rule)%string).

(** *** Certificates *)

Definition ListHTTPRulesByCertID (certID : string) : M World (list HTTPRuleRow) := ListByCertID Pool certID.

(** Without a transaction. *)
Definition UpdCertificate (req : UpdCertificateReq) : M World unit :=
  cert ← wrap_err "retrieve certificate" (GetCertificateByID Pool (uc_CertificateID req));
  match cert with
  | None =>
    wrap_err "update cert error" (CertificateDao_AddModel Pool
      (mkCertRow 0 (uc_CertificateID req) (uc_CertificateName req) (uc_Certificate req) (uc_PrivateKey req)))
  | Some cert =>
    _ ← wrap_err "update certificate" (CertificateDao_UpdateModel Pool
      (cert <| cer_CertificateName := uc_CertificateName req |> <| cer_Certificate := uc_Certificate req |>
            <| cer_PrivateKey := uc_PrivateKey req |>));
    rules ← wrap_err "list http rules" (ListHTTPRulesByCertID (uc_CertificateID req));
    forM rules (λ rule,
      eventID ← new_id;
      try_send (hrr_ServiceID rule) "update-rule-config" (Some eventID) ("domain", hrr_Domain rule)%string)
  end.

(** *** Closing a port *)

(** Outside the transaction of the caller. *)
Definition listHTTPRuleIDs (componentID : string) (port : Z) : M World (list string) :=
  httpRules ← ListByComponentPort Pool componentID port; mret (hrr_UUID <$> httpRules).

Definition DeleteIngressRulesByComponentPort (componentID : string) (port : Z) : M World unit :=
  httpRuleIDs ← listHTTPRuleIDs componentID port;
  _ ← GwRuleConfigDao_DeleteByRuleIDs Tx httpRuleIDs;
  _ ← RuleExtensionDao_DeleteByRuleIDs Tx httpRuleIDs;
  _ ← HTTPRuleDao_DeleteByComponentPort Tx componentID port;
  TCPRuleDao_DeleteByComponentPort Tx componentID port.
End action.

(** ** Checks before a request: [api/controller/gateway.go] *)

(** What the user is told: the fields that are not valid, an error, or success. *)
Inductive Response := InvalidFields (fields : list string) | Failed (e : error) | Success.

Section controller.
Context `{ApiEnv} `{GoRuntime}.
(** [IsDNS1123Subdomain], or [IsWildcardDNS1123Subdomain] of a domain with a star. *)
Context (valid_subdomain : string → bool).
(** [Config.MinExtPort] of the API server. *)
Context (MinExtPort : Z).

Definition invalid (b : bool) (field : string) : list string := if b then [field] else [].

(** Whether the domain is invalid. *)
Definition validateDomain (domain : string) : bool :=
  if decide (TrimSpace domain = ""%string) then false else negb (valid_subdomain domain).

(** A certificate needs its text and its key. *)
Definition certificate_fields (id cert key : string) : list string :=
  if decide (drop_spaces id = ""%string) then []
  else invalid (bool_decide (cert = ""%string)) "certificate" ++ invalid (bool_decide (key = ""%string)) "private_key".

(** The first extension that lacks a key or a value. *)
Fixpoint extension_fields (l : list RuleExtensionStruct) : list string :=
  match l with
  | [] => []
  | re :: l' =>
    if decide (re_Key re = ""%string) then ["key"%string]
    else if decide (re_Value re = ""%string) then ["value"%string]
    else extension_fields l'
  end.

Definition respond (values : list string) (m : M World unit) : M World Response :=
  match values with
  | [] => r ← catch m; mret (match r with inl e => Failed e | inr _ => Success end)
  | _ => mret (InvalidFields values)
  end.

Definition addHTTPRule (req : AddHTTPRuleStruct) : M World Response :=
  respond (invalid (bool_decide (ah_ContainerPort req = 0%Z)) "container_port" ++
           certificate_fields (ah_CertificateID req) (ah_Certificate req) (ah_PrivateKey req) ++
           invalid (validateDomain (ah_Domain req)) "domain")
    (AddHTTPRule req).

Definition updateHTTPRule (req : UpdateHTTPRuleStruct) : M World Response :=
  respond (certificate_fields (ah_CertificateID req) (ah_Certificate req) (ah_PrivateKey req) ++
           extension_fields (ah_RuleExtensions req) ++ invalid (validateDomain (ah_Domain req)) "domain")
    (UpdateHTTPRule req).

Definition deleteHTTPRule (id : string) : M World Response := respond [] (DeleteHTTPRule id).

Definition port_fields (req : AddTCPRuleStruct) : M World (list string) :=
  if decide (at_Port req = 0 ∨ at_Port req ≤ MinExtPort)%Z then mret ["port"%string]
  else taken ← TCPIPPortExists (at_IP req) (at_Port req); mret (invalid taken "port").

Definition Controller_AddTCPRule (req : AddTCPRuleStruct) : M World Response :=
  port ← port_fields req;
  respond (invalid (bool_decide (at_ContainerPort req = 0%Z)) "container_port" ++ port ++
           extension_fields (at_RuleExtensions req)) (AddTCPRule req).

Definition updateTCPRule (req : UpdateTCPRuleStruct) : M World Response :=
  respond (invalid (bool_decide (at_Port req ≠ 0 ∧ at_Port req ≤ MinExtPort)%Z) "port" ++
           extension_fields (at_RuleExtensions req)) (UpdateTCPRule req MinExtPort).

Definition deleteTCPRule (id : string) : M World Response := respond [] (DeleteTCPRule id).

Definition Controller_RuleConfig (sid eventID : string) (req : RuleConfigReq) : M World Response :=
  respond [] (RuleConfig (mkRuleConfigReq (rq_RuleID req) sid eventID (rq_Body req))).

Definition updCertificate (req : UpdCertificateReq) : M World Response := respond [] (UpdCertificate req).
End controller.
