(* ===== verification/RuleSpec.v ===== *)
(** * What becomes of requests for gateway rules

    Theorems about [ApiDao] and [RuleAction]: requests are all or nothing,
    keys stay unique, free ports are free, and a request reaches the gateway
    through the tables, the worker's ingress and the gateway's annotations. *)
From stdpp Require Import pretty.
From S2P Require Import Prelude Kube AppService Ensure Conversion Gateway Annotation EventFile AnnotationSpec ApiDao RuleAction.

(** ** Statements and transactions *)

Section transactions.
Context `{ApiEnv}.

(** [local]: what is committed does not change. *)
Class local {A} (m : M World A) : Prop := { local_run w : w_db (m w).1 = w_db w }.

#[export] Instance local_ret {A} (a : A) : local (mret a).
Proof. by split. Qed.
#[export] Instance local_fail {A} e : local (A := A) (fail e).
Proof. by split. Qed.
#[export] Instance local_panic {A} : local (A := A) panic.
Proof. by split. Qed.
#[export] Instance local_bind {A B} (m : M World A) (f : A → M World B) : local m → (∀ a, local (f a)) → local (m ≫= f).
Proof.
  intros [Hm] Hf. split. intros w. unfold mbind, M_bind. specialize (Hm w). destruct (m w) as [w' [a|e|]]; [|done..].
  cbn [fst] in Hm. rewrite <- Hm. apply Hf.
Qed.
#[export] Instance local_catch {A} (m : M World A) : local m → local (catch m).
Proof. intros [Hm]. split. intros w. specialize (Hm w). unfold catch. by destruct (m w) as [w' [a|e|]]. Qed.
#[export] Instance local_wrap {A} s (m : M World A) : local m → local (wrap_err s m).
Proof. intros [Hm]. split. intros w. specialize (Hm w). unfold wrap_err. by destruct (m w) as [w' [a|e|]]. Qed.
#[export] Instance local_forM {A} (l : list A) (f : A → M World unit) : (∀ x, local (f x)) → local (forM l f).
Proof. intros Hf. induction l as [|x l IH]; cbn [forM]; apply _. Qed.
#[export] Instance local_new_id : local new_id.
Proof. split. by intros []. Qed.
#[export] Instance local_statement {A} (f : Tables → Tables * A) : local (statement Tx f).
Proof. split. intros w. unfold statement. destruct (statement_error _); [by destruct w|]. destruct (f _). by destruct w. Qed.
#[export] Instance local_query {A} c (f : Tables → A) : local (statement c (λ t, (t, f t))).
Proof. split. intros w. unfold statement. destruct (statement_error _); by destruct w, c. Qed.
#[export] Instance local_find {R} `{Row R} c (P : R → Prop) `{∀ r, Decision (P r)} : local (Find c P).
Proof. apply local_query. Qed.
#[export] Instance local_find_one {R} `{Row R} c (P : R → Prop) `{∀ r, Decision (P r)} : local (Find_one c P).
Proof. unfold Find_one. apply local_bind; [apply _|]. intros [|]; apply _. Qed.
#[export] Instance local_not_found {R} `{Row R} c (P : R → Prop) `{∀ r, Decision (P r)} : local (RecordNotFound c P).
Proof. unfold RecordNotFound. apply _. Qed.
#[export] Instance local_create {R} `{Row R} (r : R) : local (Create Tx r).
Proof. unfold Create. apply _. Qed.
#[export] Instance local_delete {R} `{Row R} (P : R → Prop) `{∀ r, Decision (P r)} : local (Delete Tx P).
Proof. unfold Delete. apply _. Qed.
#[export] Instance local_save {R} `{Row R} (r : R) : local (Save Tx r).
Proof. split. intros w. unfold Save. case_decide; [apply local_statement|apply local_create]. Qed.

(** What a function does inside a transaction is local, by its parts. *)
Ltac is_local :=
  repeat first [apply local_bind; [|intros ?] | apply local_catch | apply local_wrap | apply local_forM; intros ? |
                apply _ | case_match].

Lemma local_nil_if_absent {A} (m : M World A) : local m → local (nil_if_absent m).
Proof. intros Hm. unfold nil_if_absent. is_local. Qed.

Lemma local_add_extension ruleID key e : local (add_extension Tx ruleID key e).
Proof. unfold add_extension, RuleExtensionDao_AddModel. is_local. Qed.

Lemma local_add_or_update cert : local (CertificateDao_AddOrUpdate Tx cert).
Proof. unfold CertificateDao_AddOrUpdate. is_local. Qed.

Lemma local_create_http req : local (CreateHTTPRule req).
Proof.
  unfold CreateHTTPRule, HTTPRuleDao_AddModel. pose proof local_add_extension. pose proof local_add_or_update. is_local.
Qed.

Lemma local_create_tcp req : local (CreateTCPRule req).
Proof. unfold CreateTCPRule, TCPRuleDao_AddModel. pose proof local_add_extension. is_local. Qed.

Lemma local_replace_extensions ruleID key l : local (replace_extensions ruleID key l).
Proof. unfold replace_extensions, DeleteRuleExtensionByRuleID. pose proof local_add_extension. is_local. Qed.

Lemma local_update_http req : local (update_http_body req).
Proof.
  unfold update_http_body, GetHTTPRuleByID, HTTPRuleDao_UpdateModel. pose proof local_replace_extensions.
  pose proof local_add_or_update. apply local_bind; [apply local_bind; [apply local_nil_if_absent|]; is_local|].
  intros rule. is_local.
Qed.

Lemma local_update_tcp req : local (update_tcp_body req).
Proof.
  unfold update_tcp_body, GetTCPRuleByID, TCPRuleDao_UpdateModel. pose proof local_replace_extensions.
  apply local_bind; [apply local_nil_if_absent; is_local|]. intros rule. is_local.
Qed.

Lemma local_replace_configs ruleID l : local (replace_configs ruleID l).
Proof. unfold replace_configs, DeleteByRuleID, GwRuleConfigDao_AddModel. is_local. Qed.

(** A query outside a transaction. *)
Lemma pool_query {A} (f : Tables → A) w : w_db (statement Pool (λ t, (t, f t)) w).1 = w_db w ∧
  w_tx (statement Pool (λ t, (t, f t)) w).1 = w_tx w.
Proof. unfold statement. by destruct (statement_error _), w. Qed.

Lemma pool_rule id w : w_db (GetHTTPRuleByID Pool id w).1 = w_db w ∧ w_tx (GetHTTPRuleByID Pool id w).1 = w_tx w.
Proof.
  unfold GetHTTPRuleByID, nil_if_absent, Find_one, Find, catch, mbind, M_bind.
  pose proof (pool_query (λ t, any_order (base.filter (λ r, hrr_UUID r = id) (rows t))) w) as Hq.
  destruct (statement Pool _ w) as [w1 [[|r l]|e|]]; cbn in *; [done|done| |done]. by destruct e.
Qed.

(** Messages change nothing but the queue. *)
Lemma try_send_quiet sid action ev limit w : ∃ w', try_send sid action ev limit w = (w', Ok ()) ∧
  w_db w' = w_db w ∧ w_tx w' = w_tx w.
Proof.
  unfold try_send, catch, SendTask, GetServiceByID, Find_one, Find, wrap_err, statement, mbind, M_bind. cbn.
  destruct (statement_error (w_statements w)); [eexists; split; [reflexivity|]; by destruct w|].
  destruct (any_order _) as [|row l]; cbn; [eexists; split; [reflexivity|]; by destruct w|].
  destruct (queue_error _); eexists; (split; [reflexivity|]); by destruct w.
Qed.

Lemma begin_visible w : visible Tx (Begin w).1 = w_db w.
Proof. by destruct w. Qed.

Lemma commit_outcome w : (∃ e, (Commit w).2 = Err e ∧ w_db (Commit w).1 = w_db w ∧ w_tx (Commit w).1 = None) ∨
  (Commit w).2 = Ok () ∧ w_db (Commit w).1 = visible Tx w ∧ w_tx (Commit w).1 = None.
Proof. unfold Commit. destruct (statement_error _) as [e|]; [left; exists e|right]; by destruct w. Qed.

(** A transaction is all or nothing. *)
Lemma transaction_outcome {A} (body : M World A) after w w' r : local body →
  (∀ a w, ∃ w', after a w = (w', Ok ()) ∧ w_db w' = w_db w ∧ w_tx w' = w_tx w) →
  transaction body after w = (w', r) → w_tx w' = None ∧
  ((∃ a w1, body (Begin w).1 = (w1, Ok a) ∧ w_db w' = visible Tx w1 ∧ r = Ok ()) ∨
   w_db w' = w_db w ∧ ((∃ e, r = Err e) ∨ r = Ok () ∧ (body (Begin w).1).2 = Panic)).
Proof.
  intros [Hl] Ha. unfold transaction. specialize (Hl (Begin w).1). change (w_db (Begin w).1) with (w_db w) in Hl.
  destruct (body (Begin w).1) as [w1 [a|e|]] eqn:E; cbn [fst snd] in *.
  - rewrite bind_unfold. destruct (commit_outcome w1) as [(e & E1 & E2 & E3)|(E1 & E2 & E3)];
      destruct (Commit w1) as [w2 r2]; cbn [fst snd] in *; subst r2.
    + intros [= <- <-]. split; [done|]. right. rewrite E2. split; [done|]. left. by eexists.
    + destruct (Ha a w2) as (w3 & -> & E4 & E5). intros [= <- <-]. rewrite E4, E5. split; [done|]. left. by exists a, w1.
  - intros [= <- <-]. split; [by destruct w1|]. right. split; [by destruct w1|]. left. by eexists.
  - intros [= <- <-]. split; [by destruct w1|]. right. split; [by destruct w1|]. by right.
Qed.

Lemma Transaction_outcome (body : M World unit) w w' r : local body → Transaction body w = (w', r) → w_tx w' = None ∧
  ((∃ w1, body (Begin w).1 = (w1, Ok ()) ∧ w_db w' = visible Tx w1 ∧ r = Ok ()) ∨ w_db w' = w_db w ∧ r ≠ Ok ()).
Proof.
  intros [Hl]. unfold Transaction. specialize (Hl (Begin w).1). change (w_db (Begin w).1) with (w_db w) in Hl.
  destruct (body (Begin w).1) as [w1 [[]|e|]] eqn:E; cbn [fst snd] in *.
  - destruct (commit_outcome w1) as [(e & E1 & E2 & E3)|(E1 & E2 & E3)]; destruct (Commit w1) as [w2 r2];
      cbn [fst snd] in *; subst r2; intros [= <- <-]; (split; [done|]).
    + right. by rewrite E2.
    + left. by exists w1.
  - intros [= <- <-]. split; [by destruct w1|]. right. by destruct w1.
  - intros [= <- <-]. split; [by destruct w1|]. right. by destruct w1.
Qed.

(** *** Requests *)

Inductive Request :=
  | AddHTTP (req : AddHTTPRuleStruct) | UpdateHTTP (req : UpdateHTTPRuleStruct) | DeleteHTTP (id : string)
  | AddTCP (req : AddTCPRuleStruct) | UpdateTCP (req : UpdateTCPRuleStruct) | DeleteTCP (id : string)
  | Configure (req : RuleConfigReq).

Context `{GoRuntime}.

Definition serve (r : Request) : M World unit :=
  match r with
  | AddHTTP req => AddHTTPRule req
  | UpdateHTTP req => UpdateHTTPRule req
  | DeleteHTTP id => DeleteHTTPRule id
  | AddTCP req => AddTCPRule req
  | UpdateTCP req => UpdateTCPRule req 0
  | DeleteTCP id => DeleteTCPRule id
  | Configure req => RuleConfig req
  end.

(** What a request does in its transaction. *)
Definition work (r : Request) : M World unit :=
  match r with
  | AddHTTP req => CreateHTTPRule req
  | UpdateHTTP req => _ ← update_http_body req; mret ()
  | DeleteHTTP id => _ ← delete_http_body id; mret ()
  | AddTCP req => CreateTCPRule req
  | UpdateTCP req => _ ← update_tcp_body req; mret ()
  | DeleteTCP id => _ ← delete_tcp_body id; mret ()
  | Configure req => replace_configs (rq_RuleID req) (configs_of (rq_Body req))
  end.

Lemma local_delete_http id : local (delete_http_body id).
Proof.
  unfold delete_http_body, GetHTTPRuleByID, DeleteHTTPRuleByID, DeleteRuleExtensionByRuleID.
  apply local_bind; [apply local_bind; [apply local_nil_if_absent|]; is_local|]. intros rule. is_local.
Qed.

Lemma local_delete_tcp id : local (delete_tcp_body id).
Proof.
  unfold delete_tcp_body, GetTCPRuleByID, TCPRuleDao_DeleteByID, DeleteRuleExtensionByRuleID,
    DELServiceLBMappingPortByServiceIDAndPort.
  apply local_bind; [apply local_nil_if_absent; is_local|]. intros rule. is_local.
Qed.

Lemma added_outcome body sid action limit w w' r : local body →
  (Transaction body ≫= λ _, try_send sid action None limit) w = (w', r) → w_tx w' = None ∧
  ((∃ w1, body (Begin w).1 = (w1, Ok ()) ∧ w_db w' = visible Tx w1 ∧ r = Ok ()) ∨ w_db w' = w_db w ∧ r ≠ Ok ()).
Proof.
  intros Hl. rewrite bind_unfold. destruct (Transaction body w) as [w1 r1] eqn:E.
  apply Transaction_outcome in E as [Htx Ho]; [|done]. destruct r1 as [[]|e|].
  - destruct (try_send_quiet sid action None limit w1) as (w2 & -> & E1 & E2). intros [= <- <-]. rewrite E1, E2.
    split; [done|]. destruct Ho as [(w0 & ? & ? & _)|[? []]]; [|done]. left. by exists w0.
  - intros [= <- <-]. split; [done|]. destruct Ho as [(w0 & _ & _ & [=])|?]. by right.
  - intros [= <- <-]. split; [done|]. destruct Ho as [(w0 & _ & _ & [=])|?]. by right.
Qed.

(** What is committed after a request: all of its work, or nothing. *)
Lemma serve_outcome req w w' r : w_tx w = None → serve req w = (w', r) → w_tx w' = None ∧
  ((∃ w0 w1, w_db w0 = w_db w ∧ work req (Begin w0).1 = (w1, Ok ()) ∧ w_db w' = visible Tx w1 ∧ r = Ok ()) ∨
   w_db w' = w_db w ∧ (r ≠ Ok () ∨ ∃ w0, w_db w0 = w_db w ∧ (work req (Begin w0).1).2 = Panic)).
Proof.
  intros Hw. assert (∀ A (body : M World A) after, local body →
    (∀ a w, ∃ w', after a w = (w', Ok ()) ∧ w_db w' = w_db w ∧ w_tx w' = w_tx w) → transaction body after w = (w', r) →
    w_tx w' = None ∧ ((∃ w0 w1, w_db w0 = w_db w ∧ (body ≫= λ _, mret ()) (Begin w0).1 = (w1, Ok ()) ∧
      w_db w' = visible Tx w1 ∧ r = Ok ()) ∨
    w_db w' = w_db w ∧ (r ≠ Ok () ∨ ∃ w0, w_db w0 = w_db w ∧ ((body ≫= λ _, mret ()) (Begin w0).1).2 = Panic))) as Ht.
  { intros A body after Hl Ha Hs. destruct (transaction_outcome _ _ _ _ _ Hl Ha Hs) as [Htx Ho]. split; [done|].
    destruct Ho as [(a & w1 & E & ? & ?)|[? [[e ->]|[-> Hp]]]].
    - left. exists w, w1. rewrite bind_unfold, E. done.
    - right. split; [done|]. by left.
    - right. split; [done|]. right. exists w. split; [done|]. rewrite bind_unfold.
      destruct (body _) as [w2 [| |]]; cbn in Hp; done. }
  destruct req as [req|req|id|req|req|id|req]; cbn [serve work].
  - intros (Htx & Ho)%added_outcome; [|apply local_create_http]. split; [done|].
    destruct Ho as [(w1 & ? & ? & ?)|[? ?]]; [left; by exists w, w1|right; by eauto].
  - apply Ht; [apply local_update_http|]. intros; apply try_send_quiet.
  - apply Ht; [apply local_delete_http|]. intros; apply try_send_quiet.
  - intros (Htx & Ho)%added_outcome; [|apply local_create_tcp]. split; [done|].
    destruct Ho as [(w1 & ? & ? & ?)|[? ?]]; [left; by exists w, w1|right; by eauto].
  - apply Ht; [apply local_update_tcp|]. intros; apply try_send_quiet.
  - apply Ht; [apply local_delete_tcp|]. intros; apply try_send_quiet.
  - unfold RuleConfig. rewrite bind_unfold.
    destruct (pool_rule (rq_RuleID req) w) as [E1 E2].
    destruct (GetHTTPRuleByID Pool (rq_RuleID req) w) as [w0 [rule|e|]]; cbn [fst] in *.
    + intros Hs. edestruct (transaction_outcome (replace_configs (rq_RuleID req) (configs_of (rq_Body req))))
        as [Htx Ho]; [apply local_replace_configs|intros; apply try_send_quiet|exact Hs|]. split; [done|].
      destruct Ho as [([] & w1 & E & ? & ?)|[? [[e ->]|[-> Hp]]]].
      * left. by exists w0, w1.
      * right. split; [by rewrite <- E1|]. by left.
      * right. split; [by rewrite <- E1|]. right. by exists w0.
    + intros [= <- <-]. split; [by rewrite E2|]. right. split; [done|]. by left.
    + intros [= <- <-]. split; [by rewrite E2|]. right. split; [done|]. by left.
Qed.

(** C29 (safety): a request is all or nothing.  Whatever statements fail, no
    transaction stays open, and what is committed is either what it was, as after
    every error, or all of the request's work on it. *)
Theorem requests_atomic (req : Request) (w w' : World) (r : result unit) (Hw : w_tx w = None)
    (Hs : serve req w = (w', r)) :
  w_tx w' = None ∧
  (w_db w' = w_db w ∨ r = Ok () ∧ ∃ w0 w1, w_db w0 = w_db w ∧ work req (Begin w0).1 = (w1, Ok ()) ∧
    w_db w' = visible Tx w1).
Proof.
  destruct (serve_outcome req w w' r Hw Hs) as [Htx [(w0 & w1 & H1 & H2 & H3 & ->)|[E _]]]; split; [done| |done|by left].
  right. split; [done|]. by exists w0, w1.
Qed.
End transactions.

(** ** Keys *)

(** Rows with distinct keys, and primary keys that are distinct and used up. *)
Record keys_ok {R K} (key : R → K) (id : R → Z) (next : Z) (l : list R) : Prop := {
  ko_key : NoDup (key <$> l);
  ko_id : NoDup (id <$> l);
  ko_next : Forall (λ r, (0 < id r < next)%Z) l
}.

Section keys.
Context {R K : Type} (key : R → K) (id : R → Z).

Lemma keys_mono next next' l : (next ≤ next')%Z → keys_ok key id next l → keys_ok key id next' l.
Proof. intros Hle [? ? Hn]. split; [done..|]. eapply Forall_impl; [exact Hn|]. intros r ?. cbn in *. lia. Qed.

Lemma keys_snoc next l r : (0 < next)%Z → id r = next → key r ∉ key <$> l → keys_ok key id next l →
  keys_ok key id (Z.succ next) (l ++ [r]).
Proof.
  intros Hp Hid Hk [H1 H2 H3]. rewrite Forall_forall in H3. split.
  - rewrite fmap_app. apply NoDup_app. split; [done|]. split; [|apply NoDup_singleton].
    intros x Hx Hin%list_elem_of_singleton. by subst x.
  - rewrite fmap_app. apply NoDup_app. split; [done|]. split; [|apply NoDup_singleton].
    intros x (y & -> & Hy)%list_elem_of_fmap Hin%list_elem_of_singleton. specialize (H3 y Hy). lia.
  - apply Forall_app. split; [|apply Forall_singleton; lia]. apply Forall_forall. intros x Hx. specialize (H3 x Hx). lia.
Qed.

Lemma keys_filter next l (P : R → Prop) `{∀ r, Decision (P r)} : keys_ok key id next l → keys_ok key id next (base.filter P l).
Proof.
  intros [H1 H2 H3]. split.
  - eapply sublist_NoDup; [exact H1|]. apply fmap_sublist, sublist_filter.
  - eapply sublist_NoDup; [exact H2|]. apply fmap_sublist, sublist_filter.
  - rewrite Forall_forall in *. intros x [_ Hx]%list_elem_of_filter. by apply H3.
Qed.

Lemma keys_replace next l r : (∀ x, x ∈ l → id x = id r → key x = key r) → keys_ok key id next l →
  keys_ok key id next ((λ x, if decide (id x = id r) then r else x) <$> l).
Proof.
  intros Hr [H1 H2 H3].
  assert (key <$> ((λ x, if decide (id x = id r) then r else x) <$> l) = key <$> l) as E1.
  { rewrite <- list_fmap_compose. apply list_fmap_ext. intros i x Hx%list_elem_of_lookup_2. cbn. case_decide; [|done].
    symmetry. by apply Hr. }
  assert (id <$> ((λ x, if decide (id x = id r) then r else x) <$> l) = id <$> l) as E2.
  { rewrite <- list_fmap_compose. apply list_fmap_ext. intros i x Hx. cbn. by case_decide. }
  split; [by rewrite E1|by rewrite E2|]. rewrite Forall_forall in *. intros x (y & -> & Hy)%list_elem_of_fmap.
  specialize (H3 y Hy). case_decide; lia.
Qed.
End keys.

(** The rules of the tables: one rule for an id, one certificate for an id, one
    extension of a value and one setting of a name for each rule. *)
Definition ext_key (r : RuleExtensionRow) : string * string := (rer_RuleID r, rer_Value r).
Definition cfg_key (r : GwRuleConfigRow) : string * string := (grc_RuleID r, grc_Key r).

Record keyed (t : Tables) : Prop := {
  kd_next : (0 < tb_next t)%Z;
  kd_http : keys_ok hrr_UUID hrr_ID (tb_next t) (tb_http t);
  kd_tcp : keys_ok trr_UUID trr_ID (tb_next t) (tb_tcp t);
  kd_cert : keys_ok cer_UUID cer_ID (tb_next t) (tb_cert t);
  kd_ext : keys_ok ext_key rer_ID (tb_next t) (tb_ext t);
  kd_cfg : keys_ok cfg_key grc_ID (tb_next t) (tb_cfg t)
}.

Section keyed.
Context `{ApiEnv} `{!ApiEnvLaws}.

(** A table with the key of its rows. *)
Class Keyed (R : Type) `{Row R} := {
  key_type : Type;
  key_of : R → key_type;
  key_with_ID i r : key_of (with_ID i r) = key_of r;
  ID_with_ID i (r : R) : row_ID (with_ID i r) = i;
  keyed_rows t : keyed t → keys_ok key_of row_ID (tb_next t) (rows t);
  keyed_on_rows t f next : (tb_next t ≤ next)%Z → keyed t → keys_ok key_of row_ID next (f (rows t)) →
    keyed ((on_rows f t) <| tb_next := next |>);
  next_on_rows t f : (on_rows f t) <| tb_next := tb_next t |> = on_rows f t;
  succ_on_rows t f : (on_rows f t) <| tb_next ::= Z.succ |> = (on_rows f t) <| tb_next := Z.succ (tb_next t) |>
}.
Ltac keyed_table := intros [h tc ce ex cf lb vs n] f next Hle [? ? ? ? ? ?] Hk; cbn in *; split; cbn;
  first [exact Hk|lia|eapply keys_mono; [exact Hle|done]].
#[export] Instance Keyed_http : Keyed HTTPRuleRow.
Proof. refine {| key_of := hrr_UUID |}; [by intros ? []|by intros ? []|by intros []; destruct 1|keyed_table|by intros []..]. Defined.
#[export] Instance Keyed_tcp : Keyed TCPRuleRow.
Proof. refine {| key_of := trr_UUID |}; [by intros ? []|by intros ? []|by intros []; destruct 1|keyed_table|by intros []..]. Defined.
#[export] Instance Keyed_cert : Keyed CertificateRow.
Proof. refine {| key_of := cer_UUID |}; [by intros ? []|by intros ? []|by intros []; destruct 1|keyed_table|by intros []..]. Defined.
#[export] Instance Keyed_ext : Keyed RuleExtensionRow.
Proof. refine {| key_of := ext_key |}; [by intros ? []|by intros ? []|by intros []; destruct 1|keyed_table|by intros []..]. Defined.
#[export] Instance Keyed_cfg : Keyed GwRuleConfigRow.
Proof. refine {| key_of := cfg_key |}; [by intros ? []|by intros ? []|by intros []; destruct 1|keyed_table|by intros []..]. Defined.

(** *** What a statement finds and leaves *)

(** [same_tables]: nothing was written. *)
Definition same_tables (w w' : World) : Prop := w_db w' = w_db w ∧ ∀ c, visible c w' = visible c w.

Lemma statement_same {A} c (f : Tables → A) w : same_tables w (statement c (λ t, (t, f t)) w).1.
Proof.
  unfold statement, same_tables. destruct (statement_error _); [by destruct w|].
  destruct c; (split; [by destruct w|intros []; by destruct w]).
Qed.

Lemma find_one_same {R} `{Row R} c (P : R → Prop) `{∀ r, Decision (P r)} w : same_tables w (Find_one c P w).1.
Proof.
  unfold Find_one, mbind, M_bind. pose proof (statement_same c (λ t, any_order (base.filter P (rows t))) w) as Hs.
  unfold Find. by destruct (statement c _ w) as [w' [[|r l]|e|]].
Qed.

Lemma find_one_result {R} `{Row R} c (P : R → Prop) `{∀ r, Decision (P r)} w :
  match (Find_one c P w).2 with
  | Ok r => P r ∧ r ∈ rows (visible c w)
  | Err ERecordNotFound => ∀ r, r ∈ rows (visible c w) → ¬ P r
  | Err _ => True
  | Panic => False
  end.
Proof.
  unfold Find_one, Find, statement, mbind, M_bind. destruct (statement_error (w_statements w)) as [e|] eqn:E; cbn.
  - destruct e; try done. by destruct (statement_error_other _ E).
  - assert (∀ r, r ∈ any_order (base.filter P (rows (visible c w))) ↔ P r ∧ r ∈ rows (visible c w)) as Hin
      by (intros r; by rewrite any_order_perm, list_elem_of_filter).
    destruct (any_order _) as [|r l]; cbn.
    + intros r Hr HP. by apply (not_elem_of_nil r), Hin.
    + apply Hin, list_elem_of_here.
Qed.

(** *** Preservation *)

Definition sound (w : World) : Prop := keyed (w_db w) ∧ ∀ t, w_tx w = Some t → keyed t.

Lemma sound_visible w c : sound w → keyed (visible c w).
Proof. intros [Hd Ht]. destruct c; [done|]. cbn. destruct (w_tx w) as [t|]; [by apply Ht|done]. Qed.

Lemma sound_store w c t n : sound w → keyed t → sound (store_tables c t (w <| w_statements := n |>)).
Proof. intros [Hd Ht] Hk. destruct c; (split; [done|]); destruct w; cbn in *; [done|]. by intros ? [= <-]. Qed.

(** A function started in a state of [P] keeps the tables keyed, and a result
    of it satisfies [Q]. *)
Definition keeps {A} (P : World → Prop) (m : M World A) (Q : A → World → Prop) : Prop :=
  ∀ w, sound w → P w → sound (m w).1 ∧ ∀ a, (m w).2 = Ok a → Q a (m w).1.

Lemma keeps_ret {A} (a : A) (Q : A → World → Prop) : keeps (Q a) (mret a) Q.
Proof. intros w Hw HQ. split; [done|]. by intros ? [= <-]. Qed.

Lemma keeps_stop {A} P (Q : A → World → Prop) : (∀ e, keeps P (fail e) Q) ∧ keeps P panic Q.
Proof. split; [intros e|]; intros w Hw _; done. Qed.

Lemma keeps_bind {A B} P (m : M World A) Q (f : A → M World B) S :
  keeps P m Q → (∀ a, keeps (Q a) (f a) S) → keeps P (m ≫= f) S.
Proof.
  intros Hm Hf w Hw HP. specialize (Hm w Hw HP). unfold mbind, M_bind. destruct (m w) as [w' [a|e|]]; cbn in *.
  - apply Hf; [apply Hm|by apply Hm].
  - destruct Hm. done.
  - destruct Hm. done.
Qed.

Lemma keeps_weaken {A} (P P' : World → Prop) (m : M World A) (Q Q' : A → World → Prop) :
  (∀ w, P' w → P w) → (∀ a w, Q a w → Q' a w) → keeps P m Q → keeps P' m Q'.
Proof. intros H1 H2 Hm w Hw HP. destruct (Hm w Hw (H1 _ HP)) as [Hs Hq]. split; [done|]. intros a Ha. by apply H2, Hq. Qed.

Lemma keeps_wrap {A} P s (m : M World A) Q : keeps P m Q → keeps P (wrap_err s m) Q.
Proof. intros Hm w Hw HP. specialize (Hm w Hw HP). unfold wrap_err. destruct (m w) as [w' [a|e|]]; [done| |done]. by destruct Hm. Qed.

Lemma keeps_forM {A} (P : World → Prop) (l : list A) (f : A → M World unit) :
  (∀ x, keeps P (f x) (λ _, P)) → keeps P (forM l f) (λ _, P).
Proof.
  intros Hf. induction l as [|x l IH]; cbn [forM]; [apply (keeps_ret () (λ _, P))|]. by apply (keeps_bind _ _ (λ _, P)).
Qed.

Definition anything {A} : A → World → Prop := λ _ _, True.
Definition always : World → Prop := λ _, True.

Lemma sound_same w w' : same_tables w w' → sound w → sound w'.
Proof.
  intros [E1 E2] Hw. pose proof (sound_visible w Tx Hw) as Ht. destruct Hw as [Hd _]. split; [by rewrite E1|].
  intros t Hx. rewrite <- (E2 Tx) in Ht. cbn in Ht. by rewrite Hx in Ht.
Qed.

Lemma keeps_done {A} (a : A) P : keeps P (mret a) anything.
Proof. by intros w Hw _. Qed.

Section table.
Context {R : Type} `{Keyed R}.

Lemma keeps_find_one c (P : R → Prop) `{∀ r, Decision (P r)} (I : World → Prop) :
  (∀ w w', same_tables w w' → I w → I w') →
  keeps I (catch (Find_one c P)) (λ x w, I w ∧ match x with
    | inr r => P r ∧ r ∈ rows (visible c w)
    | inl ERecordNotFound => ∀ r, r ∈ rows (visible c w) → ¬ P r
    | inl _ => True end).
Proof.
  intros HI w Hw HIw. pose proof (find_one_same c P w) as Hs. pose proof (find_one_result c P w) as Hr.
  unfold catch. destruct (Find_one c P w) as [w' r]. cbn [fst snd] in *.
  assert (sound w') as Hw' by (by eapply sound_same).
  assert (∀ c, visible c w' = visible c w) as Hv by apply Hs.
  destruct r as [r|e|]; [| |done]; (split; [done|]); intros a [= <-]; cbn; rewrite Hv; (split; [by eapply HI|done]).
Qed.

Lemma keeps_create c (r : R) : keeps (λ w, key_of r ∉ key_of <$> rows (visible c w)) (Create c r) anything.
Proof.
  intros w Hw Hk. split; [|done]. unfold Create, statement. destruct (statement_error _).
  { destruct Hw. by destruct w. }
  cbn [fst]. pose proof (sound_visible w c Hw) as Hv. apply sound_store; [done|]. rewrite succ_on_rows.
  apply (keyed_on_rows _ (λ l, l ++ [with_ID (tb_next (visible c w)) r])); [lia|done|].
  apply keys_snoc; [by destruct Hv|apply ID_with_ID|by rewrite key_with_ID|by apply keyed_rows].
Qed.

Lemma keeps_delete c (P : R → Prop) `{∀ r, Decision (P r)} : keeps always (Delete c P) anything.
Proof.
  intros w Hw _. split; [|done]. unfold Delete, statement. destruct (statement_error _).
  { destruct Hw. by destruct w. }
  cbn [fst]. pose proof (sound_visible w c Hw) as Hv. apply sound_store; [done|]. rewrite <- next_on_rows.
  apply keyed_on_rows; [lia|done|]. by apply keys_filter, keyed_rows.
Qed.

Lemma keeps_save c (r : R) :
  keeps (λ w, ∃ old, old ∈ rows (visible c w) ∧ row_ID old = row_ID r ∧ key_of old = key_of r) (Save c r) anything.
Proof.
  intros w Hw (old & Hold & Hid & Hkey). split; [|done]. pose proof (sound_visible w c Hw) as Hv.
  destruct (keyed_rows _ Hv) as [K1 K2 K3]. unfold Save. rewrite decide_True.
  - unfold statement. destruct (statement_error _); [destruct Hw; by destruct w|].
    cbn [fst]. apply sound_store; [done|]. rewrite <- next_on_rows.
    apply keyed_on_rows; [lia|done|]. apply keys_replace; [|by apply keyed_rows]. intros x Hx Ex. rewrite <- Hkey. f_equal.
    apply list_elem_of_lookup in Hx as [i Hi]. apply list_elem_of_lookup in Hold as [j Hj].
    assert (i = j) as ->; [|congruence]. eapply (NoDup_lookup _ i j (row_ID x) K2); rewrite list_lookup_fmap.
    + by rewrite Hi.
    + rewrite Hj. cbn. by rewrite Ex, <- Hid.
  - rewrite Forall_forall in K3. split; [specialize (K3 _ Hold); lia|]. rewrite <- Hid. by apply list_elem_of_fmap_2.
Qed.

(** Adding a row after looking for one of its key. *)
Lemma keeps_add c (P : R → Prop) `{∀ r, Decision (P r)} (r : R) e : (∀ x, key_of x = key_of r → P x) →
  keeps always (ok ← RecordNotFound c P; if (ok : bool) then Create c r else fail e) anything.
Proof.
  intros HP. apply (keeps_bind _ _ (λ ok w, ok = true → ∀ x, x ∈ rows (visible c w) → ¬ P x)).
  - unfold RecordNotFound. eapply keeps_bind; [by apply (keeps_find_one c P always)|].
    intros x. eapply keeps_weaken; [| |apply keeps_ret]; [|by intros ? ? HQ; exact HQ].
    intros w [_ Hx]. destruct x as [[]|]; intros ?; try done.
  - intros [|]; [|apply keeps_stop]. eapply keeps_weaken; [|done|apply keeps_create]. intros w Hw.
    intros (x & E & Hx)%list_elem_of_fmap. by apply (Hw eq_refl x Hx), HP.
Qed.
End table.

(** *** What a function leaves alone *)

Class Untouched (R : Type) `{Row R} {X} (π : Tables → X) : Prop := {
  untouched f t : π (on_rows f t) = π t;
  untouched_next g t : π (t <| tb_next ::= g |>) = π t
}.

Class leaves {X A} (π : Tables → X) (m : M World A) : Prop := { leaves_run w : π (visible Tx (m w).1) = π (visible Tx w) }.

Section leaves.
Context {X : Type} (π : Tables → X).

#[export] Instance leaves_ret {A} (a : A) : leaves π (mret a).
Proof. by split. Qed.
#[export] Instance leaves_fail {A} e : leaves (A := A) π (fail e).
Proof. by split. Qed.
#[export] Instance leaves_panic {A} : leaves (A := A) π panic.
Proof. by split. Qed.
#[export] Instance leaves_bind {A B} (m : M World A) (f : A → M World B) :
  leaves π m → (∀ a, leaves π (f a)) → leaves π (m ≫= f).
Proof.
  intros [Hm] Hf. split. intros w. unfold mbind, M_bind. specialize (Hm w). destruct (m w) as [w' [a|e|]]; [|done..].
  cbn [fst] in Hm. rewrite <- Hm. apply Hf.
Qed.
#[export] Instance leaves_catch {A} (m : M World A) : leaves π m → leaves π (catch m).
Proof. intros [Hm]. split. intros w. specialize (Hm w). unfold catch. by destruct (m w) as [w' [a|e|]]. Qed.
#[export] Instance leaves_wrap {A} s (m : M World A) : leaves π m → leaves π (wrap_err s m).
Proof. intros [Hm]. split. intros w. specialize (Hm w). unfold wrap_err. by destruct (m w) as [w' [a|e|]]. Qed.
#[export] Instance leaves_forM {A} (l : list A) (f : A → M World unit) : (∀ x, leaves π (f x)) → leaves π (forM l f).
Proof. intros Hf. induction l as [|x l IH]; cbn [forM]; apply _. Qed.
#[export] Instance leaves_new_id : leaves π new_id.
Proof. split. by intros []. Qed.
#[export] Instance leaves_find {R} `{Row R} c (P : R → Prop) `{∀ r, Decision (P r)} : leaves π (Find c P).
Proof. split. intros w. unfold Find. f_equal. apply statement_same. Qed.
#[export] Instance leaves_find_one {R} `{Row R} c (P : R → Prop) `{∀ r, Decision (P r)} : leaves π (Find_one c P).
Proof. split. intros w. f_equal. apply find_one_same. Qed.
#[export] Instance leaves_not_found {R} `{Row R} c (P : R → Prop) `{∀ r, Decision (P r)} : leaves π (RecordNotFound c P).
Proof. unfold RecordNotFound. apply _. Qed.

Context {R : Type} `{Untouched R X π}.
#[export] Instance leaves_create (r : R) : leaves π (Create Tx r).
Proof.
  split. intros w. unfold Create, statement. destruct (statement_error _); [by destruct w|].
  cbn [fst].
  trans (π ((on_rows (λ l, l ++ [with_ID (tb_next (visible Tx w)) r]) (visible Tx w)) <| tb_next ::= Z.succ |>)); [done|].
  by rewrite untouched_next, untouched.
Qed.
#[export] Instance leaves_delete (P : R → Prop) `{∀ r, Decision (P r)} : leaves π (Delete Tx P).
Proof.
  split. intros w. unfold Delete, statement. destruct (statement_error _); [by destruct w|].
  cbn [fst]. trans (π (on_rows (base.filter (λ r, ¬ P r)) (visible Tx w))); [done|]. by rewrite untouched.
Qed.
#[export] Instance leaves_save (r : R) : leaves π (Save Tx r).
Proof.
  split. intros w. unfold Save. case_decide; [|apply leaves_create]. unfold statement.
  destruct (statement_error _); [by destruct w|]. cbn [fst].
  trans (π (on_rows (save_row r) (visible Tx w))); [done|]. by rewrite untouched.
Qed.
End leaves.

Lemma keeps_while {A X} (π : Tables → X) (I : X → Prop) (m : M World A) : leaves π m → keeps always m anything →
  keeps (λ w, I (π (visible Tx w))) m (λ _ w, I (π (visible Tx w))).
Proof.
  intros Hl Hm w Hw HI. destruct (Hm w Hw) as [Hs Hq]; [done|]. split; [done|]. intros a Ha. by rewrite leaves_run.
Qed.
End keyed.

#[export] Hint Extern 0 (Untouched _ _) => (split; by intros ? []) : typeclass_instances.

(** ** Keys stay unique *)

(** What a function does to other tables, by its parts. *)
Ltac leaves_table :=
  repeat first [apply leaves_bind; [|intros ?] | apply leaves_catch | apply leaves_wrap | apply leaves_forM; intros ? |
                apply _ | case_match].

Section requests.
Context `{ApiEnv} `{!ApiEnvLaws} `{GoRuntime}.

Lemma keeps_new_id (P : World → Prop) : (∀ w, P w → P (new_id w).1) → keeps P new_id (λ _, P).
Proof. intros HP w Hw Hp. split; [by destruct w as [d t n i l k]|]. intros a _. by apply HP. Qed.

Lemma keeps_add_extension ruleID key e : keeps always (add_extension Tx ruleID key e) anything.
Proof.
  unfold add_extension. apply (keeps_bind _ _ (λ _, always)); [by apply keeps_new_id|]. intros uuid.
  apply keeps_add. intros x [= E1 E2]. done.
Qed.

Lemma keeps_extensions ruleID key l : keeps always (forM l (add_extension Tx ruleID key)) anything.
Proof.
  apply (keeps_weaken always always _ (λ _, always)); [done..|]. apply keeps_forM. intros x. apply keeps_add_extension.
Qed.

Lemma keeps_replace_extensions ruleID key l : keeps always (replace_extensions ruleID key l) anything.
Proof.
  destruct l as [|x l]; [apply (keeps_weaken always always _ (λ _, always)); [done..|]; apply (keeps_ret () (λ _, always))|].
  apply (keeps_bind _ _ anything); [apply keeps_delete|]. intros ?. apply keeps_extensions.
Qed.

Lemma keeps_add_or_update cert : keeps always (CertificateDao_AddOrUpdate Tx cert) anything.
Proof.
  unfold CertificateDao_AddOrUpdate. eapply keeps_bind; [by apply (keeps_find_one Tx _ always)|].
  intros [[]|old]; try apply keeps_stop.
  - eapply keeps_weaken; [|done|apply keeps_create]. intros w [_ Hw] (x & E & Hx)%list_elem_of_fmap.
    by apply (Hw x Hx).
  - eapply keeps_weaken; [|done|apply keeps_save]. intros w (_ & Hk & Hin). exists old. by destruct old.
Qed.

Lemma keeps_certificate (c : bool) cert :
  keeps always (if c then mret () else CertificateDao_AddOrUpdate Tx cert) anything.
Proof.
  destruct c; [|apply keeps_add_or_update].
  apply (keeps_weaken always always _ (λ _, always)); [done..|]. apply (keeps_ret () (λ _, always)).
Qed.

Lemma keeps_create_http req : keeps always (CreateHTTPRule req) anything.
Proof.
  unfold CreateHTTPRule, HTTPRuleDao_AddModel. apply (keeps_bind _ _ anything); [apply keeps_wrap, keeps_add; done|]. intros ?.
  apply (keeps_bind _ _ anything).
  - case_decide; [apply (keeps_weaken always always _ (λ _, always)); [done..|]; apply (keeps_ret () (λ _, always))|].
    apply (keeps_bind _ _ (λ _, always)); [by apply keeps_new_id|]. intros uuid. apply keeps_wrap, keeps_add_or_update.
  - intros ?. apply (keeps_weaken always always _ (λ _, always)); [done..|]. apply keeps_forM. intros e. apply keeps_wrap.
    apply keeps_add_extension.
Qed.

Lemma keeps_create_tcp req : keeps always (CreateTCPRule req) anything.
Proof.
  unfold CreateTCPRule, TCPRuleDao_AddModel. apply (keeps_bind _ _ anything).
  - apply keeps_add. intros x E. by left.
  - intros ?. apply keeps_extensions.
Qed.

Lemma keeps_replace_configs ruleID l : keeps always (replace_configs ruleID l) anything.
Proof.
  apply (keeps_bind _ _ anything); [apply keeps_delete|]. intros ?.
  apply (keeps_weaken always always _ (λ _, always)); [done..|]. apply keeps_forM. intros kv.
  apply keeps_add. intros x [= E1 E2]. done.
Qed.

(** The rule that was found is still there when it is saved. *)
Lemma keeps_found {R} `{Keyed R} (P : R → Prop) `{∀ r, Decision (P r)} :
  keeps always (nil_if_absent (Find_one Tx P)) (λ o w, match o with
    | Some r => P r ∧ r ∈ rows (visible Tx w) | None => True end).
Proof.
  unfold nil_if_absent. eapply keeps_bind; [by apply (keeps_find_one Tx P always)|].
  intros [e|r]; [destruct e|]; try apply keeps_stop.
  - eapply keeps_weaken; [| |apply (keeps_ret None (λ o w, match o with
      | Some r => P r ∧ r ∈ rows (visible Tx w) | None => True end))]; done.
  - eapply keeps_weaken; [| |apply (keeps_ret (Some r) (λ o w, match o with
      | Some r => P r ∧ r ∈ rows (visible Tx w) | None => True end))]; [|done]. by intros w [_ ?].
Qed.

Lemma leaves_extensions {X} (π : Tables → X) ruleID key l : Untouched RuleExtensionRow π → leaves π (replace_extensions ruleID key l).
Proof.
  intros Hu. unfold replace_extensions, DeleteRuleExtensionByRuleID, add_extension, RuleExtensionDao_AddModel. leaves_table.
Qed.

Lemma leaves_certificate {X} (π : Tables → X) (c : bool) cert : Untouched CertificateRow π →
  leaves π (if c then mret () else CertificateDao_AddOrUpdate Tx cert).
Proof. intros Hu. unfold CertificateDao_AddOrUpdate. leaves_table. Qed.

Lemma keeps_update_http req : keeps always (update_http_body req) anything.
Proof.
  unfold update_http_body, GetHTTPRuleByID.
  apply (keeps_bind _ _ (λ rule w, hrr_UUID rule ≠ ""%string → rule ∈ tb_http (visible Tx w))).
  { eapply keeps_bind; [apply keeps_found|]. intros o. eapply keeps_weaken; [| |apply keeps_ret].
    - intros w Ho. cbn. instantiate (1 := λ rule w, hrr_UUID rule ≠ ""%string → rule ∈ tb_http (visible Tx w)).
      destruct o as [r|]; [|done]. intros _. apply Ho.
    - done. }
  intros rule. case_decide as Hne; [apply keeps_stop|].
  apply (keeps_weaken (λ w, rule ∈ tb_http (visible Tx w)) _ _ anything); [by auto|done|].
  apply (keeps_bind _ _ (λ _ w, rule ∈ tb_http (visible Tx w))).
  { apply (keeps_while tb_http (λ l, rule ∈ l)).
    - case_decide; [apply leaves_ret|]. apply (leaves_certificate tb_http false). apply _.
    - case_decide; [apply (keeps_certificate true (mkCertRow 0 "" "" "" ""))|apply keeps_add_or_update]. }
  intros ?. apply (keeps_bind _ _ (λ _ w, rule ∈ tb_http (visible Tx w))).
  { apply (keeps_while tb_http (λ l, rule ∈ l)); [apply leaves_extensions; apply _|apply keeps_replace_extensions]. }
  intros ?. apply (keeps_bind _ _ anything); [|intros ?; apply keeps_done].
  apply (keeps_weaken (λ w, ∃ old, old ∈ rows (visible Tx w) ∧ row_ID old = row_ID (changed_http_rule req rule) ∧
    key_of old = key_of (changed_http_rule req rule)) _ _ anything); [|done|apply keeps_save]. intros w Hin. by exists rule.
Qed.

Lemma keeps_update_tcp req : keeps always (update_tcp_body req) anything.
Proof.
  unfold update_tcp_body, GetTCPRuleByID. eapply keeps_bind; [apply keeps_found|]. intros [rule|]; [|apply keeps_stop].
  apply (keeps_weaken (λ w, rule ∈ tb_tcp (visible Tx w)) _ _ anything); [by intros w [_ ?]|done|].
  apply (keeps_bind _ _ (λ _ w, rule ∈ tb_tcp (visible Tx w))).
  { apply (keeps_while tb_tcp (λ l, rule ∈ l)); [apply leaves_extensions; apply _|apply keeps_replace_extensions]. }
  intros ?. apply (keeps_bind _ _ anything); [|intros ?; apply keeps_done].
  apply (keeps_weaken (λ w, ∃ old, old ∈ rows (visible Tx w) ∧ row_ID old = row_ID (changed_tcp_rule req rule) ∧
    key_of old = key_of (changed_tcp_rule req rule)) _ _ anything); [|done|apply keeps_save]. intros w Hin. by exists rule.
Qed.

Lemma keeps_delete_http id : keeps always (delete_http_body id) anything.
Proof.
  unfold delete_http_body, GetHTTPRuleByID. apply (keeps_bind _ _ anything).
  { eapply keeps_bind; [apply keeps_found|]. intros o. apply keeps_done. }
  intros rule. apply (keeps_bind _ _ anything); [apply keeps_delete|]. intros ?.
  apply (keeps_bind _ _ anything); [apply keeps_delete|]. intros ?. apply keeps_done.
Qed.

Lemma keeps_delete_tcp id : keeps always (delete_tcp_body id) anything.
Proof.
  unfold delete_tcp_body, GetTCPRuleByID. eapply keeps_bind; [apply keeps_found|]. intros [rule|]; [|apply keeps_stop].
  apply (keeps_weaken always _ _ anything); [done..|].
  apply (keeps_bind _ _ anything); [apply keeps_delete|]. intros ?.
  apply (keeps_bind _ _ anything); [apply keeps_delete|]. intros ?.
  apply (keeps_bind _ _ anything); [|intros ?; apply keeps_done].
  intros w Hw _. split; [|done]. unfold DELServiceLBMappingPortByServiceIDAndPort, Delete, statement.
  destruct (statement_error _); [destruct Hw; by destruct w|]. cbn [fst]. apply sound_store; [done|].
  destruct (sound_visible w Tx Hw) as [? ? ? ? ? ?]. by destruct (visible Tx w).
Qed.

Lemma keeps_work req : keeps always (work req) anything.
Proof.
  destruct req; cbn [work]; try (eapply keeps_bind; [|intros ?; apply keeps_done]).
  - apply keeps_create_http.
  - apply keeps_update_http.
  - apply keeps_delete_http.
  - apply keeps_create_tcp.
  - apply keeps_update_tcp.
  - apply keeps_delete_tcp.
  - apply keeps_replace_configs.
Qed.

(** The rest of [CreateHTTPRule]. *)
Lemma leaves_created {X} (π : Tables → X) req : Untouched CertificateRow π → Untouched RuleExtensionRow π →
  leaves π (_ ← (if decide (drop_spaces (ah_CertificateID req) = ""%string) then mret () else
       uuid ← new_id;
       wrap_err "create or update http rule" (CertificateDao_AddOrUpdate Tx
         (mkCertRow 0 (ah_CertificateID req) (cert_name uuid) (ah_Certificate req) (ah_PrivateKey req))));
    forM (ah_RuleExtensions req) (λ e, wrap_err "create rule extensions" (add_extension Tx (ah_HTTPRuleID req) re_Key e))).
Proof.
  intros Hc Hx. unfold CertificateDao_AddOrUpdate, add_extension, RuleExtensionDao_AddModel. leaves_table.
Qed.

Definition serve_all (l : list Request) (w : World) : World := foldl (λ w req, (serve req w).1) w l.

(** C30 (invariant): keys stay unique.  Whatever requests are served, in whatever
    order, and whatever statements fail: no two rules have one id, no two
    certificates, no two extensions of a rule one value, and no two settings of a rule
    one name. *)
Theorem keys_unique (l : list Request) (w : World) (Htx : w_tx w = None) (Hk : keyed (w_db w)) :
  keyed (w_db (serve_all l w)) ∧ w_tx (serve_all l w) = None.
Proof.
  revert w Htx Hk. induction l as [|req l IH]; intros w Htx Hk; [done|]. cbn [serve_all foldl].
  destruct (serve req w) as [w' r] eqn:E.
  destruct (serve_outcome req w w' r Htx E) as [Htx' [(w0 & w1 & E0 & E1 & E2 & _)|[E2 _]]]; apply IH; try done.
  - cbn [fst]. rewrite E2. apply sound_visible. destruct (keeps_work req (Begin w0).1) as [Hs _].
    + split; [by destruct w0; cbn in *; subst|]. destruct w0; cbn in *; subst. by intros ? [= <-].
    + done.
    + by rewrite E1 in Hs.
  - cbn [fst]. by rewrite E2.
Qed.
End requests.
