(* ===== verification/RuleFlow.v ===== *)
(** * From a request to the gateway

    Free ports, and the path of a rule: the request of a user
    ([RuleAction]), the tables ([ApiDao]), the worker's ingress
    ([Gateway.applyHTTPRule]) and what the gateway reads of it
    ([Annotation.Extract]). *)
From stdpp Require Import pretty.
From S2P Require Import Prelude Kube AppService Ensure Conversion Gateway GatewaySpec Variables Annotation EventFile AnnotationSpec ComponentRows ApiDao RuleAction RuleSpec.

(** ** Free ports *)

Section ports.
Context (minPort maxPort : Z).

Lemma pick_free l s : StronglySorted Z.le l → (0 < s)%Z → (s + Z.of_nat (length l) < 2 ^ 63)%Z →
  pick_previous maxPort l s = 0%Z ∨ (s ≤ pick_previous maxPort l s)%Z ∧ pick_previous maxPort l s ∉ l.
Proof.
  revert s. induction l as [|p l IH]; intros s Hs H0 Hb; cbn [pick_previous].
  { case_decide; [right|by left]. split; [done|apply not_elem_of_nil]. }
  inversion Hs as [|? ? Hl Hp]; subst. rewrite Forall_forall in Hp. cbn [length] in Hb.
  assert (in_int64 (s + 1)) as H64 by (unfold in_int64; lia). rewrite (int64_small _ H64).
  destruct (IH (s + 1)%Z Hl ltac:(lia) ltac:(lia)) as [E|[H1 H2]].
  - repeat case_decide; [by left| |by left]. right. split; [lia|]. rewrite not_elem_of_cons. split; [lia|].
    intros Hin. specialize (Hp _ Hin). lia.
  - repeat case_decide.
    + right. split; [lia|]. rewrite not_elem_of_cons. split; [lia|done].
    + right. split; [lia|]. rewrite not_elem_of_cons. split; [lia|]. intros Hin. specialize (Hp _ Hin). lia.
    + right. split; [lia|]. rewrite not_elem_of_cons. split; [lia|done].
Qed.

Lemma pick_complete l s : StronglySorted Z.le l → NoDup l → Forall (λ u, s ≤ u ≤ maxPort)%Z l → (0 < s)%Z →
  (s + Z.of_nat (length l) < 2 ^ 63)%Z →
  if decide (pick_previous maxPort l s = 0%Z) then ∀ q, (s ≤ q ≤ maxPort)%Z → q ∈ l else (pick_previous maxPort l s ≤ maxPort)%Z.
Proof.
  revert s. induction l as [|p l IH]; intros s Hs Hnd Hr H0 Hb; cbn [pick_previous].
  { destruct (decide (s ≤ maxPort)%Z); case_decide; lia. }
  inversion Hs as [|? ? Hl Hp]; subst. apply NoDup_cons in Hnd as [Hn Hnd]. apply Forall_cons in Hr as [Hr0 Hr].
  rewrite Forall_forall in Hp. rewrite Forall_forall in Hr. cbn [length] in Hb.
  assert (in_int64 (s + 1)) as H64 by (unfold in_int64; lia). rewrite (int64_small _ H64).
  destruct (decide (p = s)) as [->|Hne].
  - specialize (IH (s + 1)%Z Hl Hnd). rewrite Forall_forall in IH. revert IH.
    destruct (decide (pick_previous maxPort l (s + 1) = 0%Z)); intros IH.
    + intros q Hq. destruct (decide (q = s)) as [->|]; [apply list_elem_of_here|]. apply list_elem_of_further, IH; try lia.
      intros u Hu. specialize (Hp u Hu). specialize (Hr u Hu). assert (u ≠ s) by congruence. lia.
    + apply IH; try lia. intros u Hu. specialize (Hp u Hu). specialize (Hr u Hu). assert (u ≠ s) by congruence. lia.
  - rewrite (decide_True (P := (s < p)%Z)) by lia. rewrite decide_False by lia. lia.
Qed.

Lemma sorted_ports used : StronglySorted Z.le (merge_sort Z.le used) ∧ merge_sort Z.le used ≡ₚ used.
Proof. split; [apply (StronglySorted_merge_sort Z.le)|apply merge_sort_Permutation]. Qed.

Lemma last_largest l p : StronglySorted Z.le l → last l = Some p → ∀ u, u ∈ l → (u ≤ p)%Z.
Proof.
  induction l as [|x l IH]; [done|]. intros Hs Hlast u Hu. inversion Hs as [|? ? Hl Hx]; subst.
  rewrite Forall_forall in Hx. destruct l as [|y l].
  - injection Hlast as ->. apply list_elem_of_singleton in Hu. lia.
  - rewrite last_cons_cons in Hlast. apply elem_of_cons in Hu as [->|Hu]; [|by apply IH].
    assert (p ∈ y :: l) as Hin by (apply last_Some_elem_of; done). specialize (Hx p Hin). lia.
Qed.

(** A port that is selected is not in use and not below the smallest; when the
    used ports are distinct and in the range, one is found exactly if there is one. *)
Lemma select_port_free used : (0 < minPort)%Z → (minPort + Z.of_nat (length used) < 2 ^ 63)%Z →
  Forall (λ u, 0 ≤ u < 2 ^ 32)%Z used →
  let p := select_port minPort maxPort used in
  (p = 0 ∨ minPort ≤ p ∧ p ∉ used)%Z ∧
  (minPort ≤ maxPort → NoDup used → Forall (λ u, minPort ≤ u ≤ maxPort) used →
   if decide (p = 0) then ∀ q, minPort ≤ q ≤ maxPort → q ∈ used else p ≤ maxPort)%Z.
Proof.
  intros H0 Hb Hu p. unfold p, select_port. clear p. destruct (sorted_ports used) as [Hs Hperm].
  set (l := merge_sort Z.le used) in *. rewrite Forall_forall in Hu.
  destruct (last l) as [m|] eqn:El.
  - pose proof (last_largest _ _ Hs El) as Hm. assert (m ∈ used) as Hin by (rewrite <- Hperm; by apply last_Some_elem_of).
    specialize (Hu _ Hin). assert (in_int64 (m + 1)) as H64 by (unfold in_int64; lia). rewrite (int64_small _ H64).
    assert (length l = length used) as Elen by (by apply Permutation_length).
    case_decide as Hfit.
    + split; [right; split; [lia|]; rewrite <- Hperm; intros Hx%Hm; lia|]. intros _ _ _. case_decide; lia.
    + split.
      * destruct (pick_free l minPort Hs H0) as [?|[? Hn]]; [lia|by left|right]. split; [done|]. by rewrite <- Hperm.
      * intros Hle Hnd Hr. assert (NoDup l) as Hnd' by by rewrite Hperm. assert (Forall (λ u, minPort ≤ u ≤ maxPort)%Z l) as Hr' by by rewrite Hperm.
        pose proof (pick_complete l minPort Hs Hnd' Hr' H0 ltac:(lia)) as Hc. case_decide; [|done]. intros q Hq. rewrite <- Hperm. by apply Hc.
  - apply last_None in El. rewrite El in Hperm. apply Permutation_nil in Hperm as ->.
    split; [right; split; [lia|apply not_elem_of_nil]|]. intros Hle _ _. case_decide; lia.
Qed.
End ports.

Section flow.
Context `{ApiEnv} `{!ApiEnvLaws}.

Definition min_port (getenv : string → string) : Z := port_variable (getenv "MIN_LB_PORT"%string) 10000.

(** The rules whose ports an address cannot use. *)
Definition conflicts (ip : string) (r : TCPRuleRow) : Prop :=
  ip = "0.0.0.0"%string ∨ trr_IP r = ip ∨ trr_IP r = "0.0.0.0"%string.

Lemma used_ports ip w : match (GetUsedPortsByIP Pool ip w).2 with
  | Ok l => ∀ r, r ∈ l ↔ r ∈ tb_tcp (w_db w) ∧ conflicts ip r
  | _ => True end.
Proof.
  unfold GetUsedPortsByIP, Find, statement, conflicts. destruct (decide _) as [->|Hip];
    destruct (statement_error _); cbn; try done; intros r; rewrite any_order_perm, list_elem_of_filter; naive_solver.
Qed.

Lemma used_ports_same ip w : w_db (GetUsedPortsByIP Pool ip w).1 = w_db w ∧
  w_lockPort (GetUsedPortsByIP Pool ip w).1 = w_lockPort w.
Proof.
  unfold GetUsedPortsByIP, Find, statement. destruct (decide _); destruct (statement_error _); by destruct w.
Qed.

(** C31 (bounds): the port the gateway proposes for an address is not below the
    smallest, no rule of that address or of all addresses has it, and nobody has locked it;
    then it is locked for two minutes if that was asked for.  Ports must be
    numbers a machine can count to, and there must not be too many. *)
Theorem available_port (getenv : string → string) (now : Z) (ip : string) (lock : bool) (w w' : World) (p : Z)
    (Hmin : (0 < min_port getenv < 2 ^ 32)%Z)
    (Hports : Forall (λ r, 0 ≤ trr_Port r < 2 ^ 32)%Z (tb_tcp (w_db w)))
    (Hlocks : map_Forall (λ q _, 0 ≤ q < 2 ^ 32)%Z (w_lockPort w))
    (Hfew : ∀ l w1, GetUsedPortsByIP Pool ip w = (w1, Ok l) → (Z.of_nat (length l + size (w_lockPort w)) < 2 ^ 62)%Z)
    (Hget : GetAvailablePort getenv now ip lock w = (w', Ok p)) :
  (min_port getenv ≤ p)%Z ∧
  (∀ r, r ∈ tb_tcp (w_db w) → conflicts ip r → trr_Port r ≠ p) ∧
  (∀ until, w_lockPort w !! p = Some until → (until < now)%Z) ∧
  w_db w' = w_db w ∧ (lock = true → w_lockPort w' !! p = Some (now + 120)%Z).
Proof.
  unfold GetAvailablePort in Hget. apply bind_ok_inv in Hget as (w1 & roles & E1 & Hget).
  pose proof (used_ports ip w) as Hu. pose proof (used_ports_same ip w) as [Hd Hl]. specialize (Hfew _ _ E1).
  rewrite E1 in Hu, Hd, Hl. cbn [fst snd] in Hu, Hd, Hl. cbn [modify gets] in Hget.
  unfold mbind, M_bind, modify, gets in Hget. cbn beta iota in Hget.
  set (live := base.filter (λ kv : Z * Z, ¬ (kv.2 < now)%Z) (w_lockPort w1)) in Hget.
  set (used := (trr_Port <$> roles) ++ (map_to_list live).*1).
  assert (∀ q, q ∈ (map_to_list live).*1 ↔ ∃ until, w_lockPort w !! q = Some until ∧ ¬ (until < now)%Z) as Hlive.
  { intros q. rewrite list_elem_of_fmap. split.
    - intros ([q' until] & -> & Hq%elem_of_map_to_list). unfold live in Hq. apply map_lookup_filter_Some in Hq as [Hq Hn].
      exists until. rewrite <- Hl. done.
    - intros (until & Hq & Hn). exists (q, until). split; [done|]. apply elem_of_map_to_list. unfold live.
      apply map_lookup_filter_Some. by rewrite Hl. }
  assert (w_lockPort (w1 <| w_lockPort ::= base.filter (λ kv : Z * Z, ¬ (kv.2 < now)%Z) |>) = live) as Elive by by destruct w1.
  rewrite Elive in Hget. fold used in Hget.
  destruct (select_port_free (min_port getenv) (port_variable (getenv "MAX_LB_PORT"%string) 65535) used) as [Hfree _].
  - lia.
  - assert (length used ≤ length roles + size (w_lockPort w)) as Hlen; [|lia].
    unfold used. rewrite length_app, !length_fmap. apply Nat.add_le_mono_l. change (length (map_to_list live)) with (length (map_to_list live)).
    rewrite length_map_to_list. rewrite <- Hl. unfold live. apply map_size_filter.
  - unfold used. apply Forall_app. rewrite Forall_forall in Hports. split; apply Forall_forall.
    + intros q (r & -> & Hr)%list_elem_of_fmap. apply Hports. by apply Hu in Hr as [? _].
    + intros q (until & Hq & _)%Hlive. apply (Hlocks q until Hq).
  - set (s := selectAvailablePort getenv used) in Hget.
    assert (s = 0 ∨ min_port getenv ≤ s ∧ s ∉ (trr_Port <$> roles) ++ (map_to_list live).*1)%Z as Hs by exact Hfree.
    clearbody s. clear Hfree. case_decide as Hz; [done|]. destruct Hs as [?|[Hle Hn]]; [done|].
    rewrite not_elem_of_app in Hn. destruct Hn as [Hn1 Hn2].
    assert (s = p ∧ w_db w' = w_db w1 ∧ (lock = true → w_lockPort w' !! p = Some (now + 120)%Z)) as (-> & Hdb & Hlock).
    { destruct lock; injection Hget as <- <-; destruct w1; (split; [done|]); (split; [done|]); [|done]. intros _. apply lookup_insert_eq. }
    split; [done|]. split; [|split; [|split; [by rewrite Hdb, Hd|exact Hlock]]].
    + intros r Hr Hc Heq. apply Hn1. rewrite <- Heq. apply list_elem_of_fmap_2. by apply Hu.
    + intros limit Hq. destruct (decide (limit < now)%Z) as [?|Hge]; [done|]. destruct Hn2. apply Hlive. by exists limit.
Qed.

(** ** What is written *)

(** A loop that adds a row for each element. *)
Lemma forM_adds {A R} `{Row R} (f : A → M World unit) (shape : A → R → Prop) l w w1 :
  (∀ x w w1, f x w = (w1, Ok ()) → ∃ r, shape x r ∧ rows (visible Tx w1) = rows (visible Tx w) ++ [r]) →
  forM l f w = (w1, Ok ()) → ∃ rs, Forall2 shape l rs ∧ rows (visible Tx w1) = rows (visible Tx w) ++ rs.
Proof.
  intros Hf. revert w. induction l as [|x l IH]; intros w; cbn [forM].
  - intros [= <-]. exists []. by rewrite app_nil_r.
  - intros (w2 & [] & Hm & Hr)%bind_ok_inv. destruct (Hf _ _ _ Hm) as (r & Hx & E1).
    destruct (IH _ Hr) as (rs & Hrs & E2). exists (r :: rs). split; [by constructor|]. by rewrite E2, E1, <- app_assoc.
Qed.

Lemma add_row {R} `{Keyed R} (P : R → Prop) `{∀ r, Decision (P r)} (r : R) e w w1
    (Hrows : ∀ t f g, rows ((on_rows f t) <| tb_next ::= g |>) = f (rows t)) :
  (ok ← RecordNotFound Tx P; if (ok : bool) then Create Tx r else fail e) w = (w1, Ok ()) →
  ∃ i, rows (visible Tx w1) = rows (visible Tx w) ++ [with_ID i r].
Proof.
  intros (w2 & ok & Hm & Hr)%bind_ok_inv.
  assert (rows (visible Tx w2) = rows (visible Tx w)) as E by (pose proof (leaves_run (π := rows) (m := RecordNotFound Tx P) w) as Hl; by rewrite Hm in Hl).
  destruct ok; [|done]. unfold Create, statement in Hr. destruct (statement_error _); [done|].
  injection Hr as <-. exists (tb_next (visible Tx w2)). rewrite <- E. apply Hrows.
Qed.

Context `{GoRuntime} `{!GoRuntimeLaws}.

Definition cfg_row (ruleID : string) (kv : string * string) (r : GwRuleConfigRow) : Prop :=
  grc_RuleID r = ruleID ∧ (grc_Key r, grc_Value r) = kv.

Lemma replace_configs_rows ruleID l w w1 : replace_configs ruleID l w = (w1, Ok ()) →
  ∃ rs, Forall2 (cfg_row ruleID) l rs ∧
    tb_cfg (visible Tx w1) = base.filter (λ r, ¬ grc_RuleID r = ruleID) (tb_cfg (visible Tx w)) ++ rs.
Proof.
  intros (w2 & [] & Hm & Hr)%bind_ok_inv.
  assert (tb_cfg (visible Tx w2) = base.filter (λ r, ¬ grc_RuleID r = ruleID) (tb_cfg (visible Tx w))) as <-.
  { unfold DeleteByRuleID, Delete, statement in Hm. destruct (statement_error _); [done|]. injection Hm as <-. done. }
  apply (forM_adds (R := GwRuleConfigRow) _ (cfg_row ruleID)) in Hr; [done|]. intros [k v] w3 w4 E.
  apply add_row in E as [i E]; [|by intros []]. eexists. split; [|exact E]. done.
Qed.

Lemma leaves_configs {X} (π : Tables → X) ruleID l : Untouched GwRuleConfigRow π → leaves π (replace_configs ruleID l).
Proof.
  intros Hu. unfold replace_configs, DeleteByRuleID, GwRuleConfigDao_AddModel.
  leaves_table.
Qed.

Lemma created_http_row req w w1 : CreateHTTPRule req w = (w1, Ok ()) →
  ∃ i, with_ID i (new_http_rule req) ∈ tb_http (visible Tx w1).
Proof.
  intros (w2 & [] & Hm & Hr)%bind_ok_inv.
  assert (∃ i, rows (visible Tx w2) = rows (visible Tx w) ++ [with_ID i (new_http_rule req)]) as [i E].
  { unfold wrap_err in Hm. destruct (HTTPRuleDao_AddModel Tx (new_http_rule req) w) as [w2' r] eqn:E.
    assert (w2' = w2 ∧ r = Ok ()) as [-> ->] by (destruct r as [[]|e|]; by simplify_eq).
    eapply add_row; [|exact E]. by intros []. }
  exists i. destruct (leaves_created tb_http req _ _) as [Hl]. specialize (Hl w2).
  rewrite Hr in Hl. cbn [fst] in Hl. rewrite Hl. change (tb_http (visible Tx w2)) with (rows (R := HTTPRuleRow) (visible Tx w2)).
  rewrite E. apply elem_of_app. right. apply list_elem_of_here.
Qed.

(** ** The settings of a rule *)

Lemma header_keys b k v : setheaders b !! k = Some v → ∃ h, k = ("set-header-" +:+ h)%string.
Proof.
  unfold setheaders. assert (∀ m, (∀ k v, m !! k = Some v → ∃ h, k = ("set-header-" +:+ h)%string) →
    foldl put_header m (bd_SetHeaders b) !! k = Some v → ∃ h, k = ("set-header-" +:+ h)%string) as Hm; [|by apply Hm].
  induction (bd_SetHeaders b) as [|x l IH]; intros m Hm; [apply Hm|]. cbn [foldl]. apply IH. intros k' v'.
  unfold put_header. case_decide; [apply Hm|]. rewrite lookup_insert. case_decide; [intros _; by eexists|apply Hm].
Qed.

Lemma configs_nodup b : NoDup (configs_of b).*1.
Proof.
  unfold configs_of. rewrite fmap_app. apply NoDup_app. split; [|split].
  - apply (bool_decide_unpack _). vm_compute. exact I.
  - intros k Hk ([k' v] & -> & Hin)%list_elem_of_fmap. rewrite range_order_perm in Hin.
    apply elem_of_map_to_list, header_keys in Hin as [h ->]. unfold numbers_of in Hk. rewrite !fmap_cons in Hk. cbn [fst] in Hk.
    rewrite !elem_of_cons in Hk. destruct Hk as [?|[?|[?|[?|[?|[?|[?|Hk]]]]]]]; try discriminate. by apply elem_of_nil in Hk.
  - rewrite range_order_perm. apply NoDup_fst_map_to_list.
Qed.

Lemma configs_keys b : Forall (λ c, setting_key c.1 = true) (configs_of b).
Proof.
  apply Forall_app. split; [by repeat constructor|]. apply Forall_forall. intros [k v] Hin. rewrite range_order_perm in Hin.
  apply elem_of_map_to_list, header_keys in Hin as [h ->]. cbn [fst]. unfold setting_key. apply orb_true_iff. right.
  by destruct h.
Qed.

Lemma configs_lookup b k v : (list_to_map (configs_of b) : gmap string string) !! k = Some v ↔ (k, v) ∈ configs_of b.
Proof. symmetry. apply elem_of_list_to_map, configs_nodup. Qed.

Lemma configs_header b h :
  (list_to_map (configs_of b) : gmap string string) !! ("set-header-" +:+ h)%string = setheaders b !! ("set-header-" +:+ h)%string.
Proof.
  apply option_eq. intros v. rewrite configs_lookup. unfold configs_of.
  rewrite elem_of_app, range_order_perm, elem_of_map_to_list. split; [|by right]. intros [Hk|?]; [|done].
  unfold numbers_of in Hk. rewrite !elem_of_cons in Hk.
  destruct Hk as [[=]|[[=]|[[=]|[[=]|[[=]|[[=]|[[=]|Hk]]]]]]]. by apply elem_of_nil in Hk.
Qed.

(** ** What is read *)

Lemma answer_find {R} `{Row R} {A} (P : R → Prop) `{∀ r, Decision (P r)} (f : R → A) w l :
  answer (x ← Find Pool P; mret (f <$> x)) w = inr l → l ≡ₚ f <$> base.filter P (rows (w_db w)).
Proof.
  unfold answer, Find, statement, mbind, M_bind. destruct (statement_error _); [done|]. cbn.
  intros [= <-]. by rewrite any_order_perm.
Qed.

Lemma applied_rule gdb EX_DOMAIN secret_rest a rule cp pp service ing sec :
  applyHTTPRule gdb EX_DOMAIN secret_rest a rule cp pp service = Ok (ing, sec) →
  (∃ exts configs, gd_extensions gdb (hr_UUID rule) = inr exts ∧ gd_configs gdb (hr_UUID rule) = inr configs) ∧
  (drop_spaces (hr_Domain rule) ≠ ""%string → drop_spaces (hr_Path rule) ≠ ""%string → ∃ b,
    ing_Rules ing = [mkIngressRule (drop_spaces (hr_Domain rule)) [(drop_spaces (hr_Path rule), b)]]).
Proof.
  unfold applyHTTPRule. intros Hing. apply then_do_ok in Hing as (domain & Hd & Hing).
  apply then_do_ok in Hing as (sec' & _ & Hing).
  destruct (gd_extensions gdb (hr_UUID rule)) as [|exts]; [done|]. destruct (gd_configs gdb (hr_UUID rule)) as [|configs]; [done|].
  injection Hing as <- <-. split; [by eexists _, _|]. intros H3 H4. rewrite decide_False in Hd by done. injection Hd as <-.
  rewrite decide_False by done. by eexists.
Qed.

Lemma filter_out {A} (P : A → Prop) `{∀ x, Decision (P x)} l : (∀ x, x ∈ l → ¬ P x) → base.filter P l = [].
Proof.
  intros Hl. induction l as [|x l IH]; [done|]. rewrite filter_cons_False by (apply Hl, list_elem_of_here).
  apply IH. intros y Hy. by apply Hl, list_elem_of_further.
Qed.

(** *** What a request that succeeds has done *)

Lemma added_work req w w1 : AddHTTPRule req w = (w1, Ok ()) →
  ∃ w2, CreateHTTPRule req (Begin w).1 = (w2, Ok ()) ∧ w_db w1 = visible Tx w2.
Proof.
  intros E. destruct (added_outcome _ _ _ _ _ _ _ (local_create_http req) E) as [_ [(w2 & E1 & E2 & _)|[_ []]]]; [|done].
  by exists w2.
Qed.

Lemma safe_statement {A} c (f : Tables → Tables * A) : safe (statement c f).
Proof. split. intros w. unfold statement. destruct (statement_error _); [done|]. by destruct (f _). Qed.

Lemma safe_replace_configs ruleID l : safe (replace_configs ruleID l).
Proof.
  apply safe_bind; [apply safe_statement|]. intros _. apply safe_forM. intros kv.
  unfold GwRuleConfigDao_AddModel, RecordNotFound. apply safe_bind; [|intros []; [apply safe_statement|apply safe_fail]].
  apply safe_bind; [|intros; apply safe_ret]. apply total_safe, total_catch. unfold Find_one.
  apply safe_bind; [apply safe_statement|]. intros [|]; [apply safe_fail|apply safe_ret].
Qed.

Lemma configured_work req w w1 : RuleConfig req w = (w1, Ok ()) →
  ∃ w0 w2, w_db w0 = w_db w ∧ replace_configs (rq_RuleID req) (configs_of (rq_Body req)) (Begin w0).1 = (w2, Ok ()) ∧
    w_db w1 = visible Tx w2.
Proof.
  intros (w0 & rule & E0 & E)%bind_ok_inv. pose proof (pool_rule (rq_RuleID req) w) as [Hd _]. rewrite E0 in Hd.
  eapply transaction_outcome in E as [_ [([] & w2 & E1 & E2 & _)|[_ [[e [=]]|[_ Hp]]]]];
    [|by destruct (safe_run _ (safe_replace_configs _ _) _ Hp)|apply local_replace_configs|intros; apply try_send_quiet].
  by exists w0, w2.
Qed.

Context (gdb : GatewayDB) (EX_DOMAIN : string) (secret_rest : gmap string string → opaque).

Lemma rule_path_nonempty path : drop_spaces (rule_path path) ≠ ""%string.
Proof.
  assert (∀ s, drop_spaces (String (Ascii.ascii_of_nat 47) s) ≠ ""%string) as Hs by by intros s.
  unfold rule_path. destruct (String.prefix "/" path) eqn:E; [|apply Hs]. destruct path as [|c path]; [done|].
  cbn [String.prefix] in E. destruct (Ascii.ascii_dec _ c) as [<-|]; [|done]. apply Hs.
Qed.

Lemma wanted_number b k z d : in_int64 z → (k, pretty z) ∈ configs_of b → int_setting (list_to_map (configs_of b)) k d = z.
Proof. intros Hz Hk%configs_lookup. unfold int_setting. by rewrite Hk, Atoi_pretty. Qed.

Lemma wanted_text b k v d : (k, v) ∈ configs_of b → str_setting (list_to_map (configs_of b)) k d = v.
Proof. intros Hk%configs_lookup. unfold str_setting. by rewrite Hk. Qed.

(** The proxy configuration that the settings of a request ask for. *)
Lemma wanted_settings b : in_int64 (bd_ProxyConnectTimeout b) → in_int64 (bd_ProxySendTimeout b) →
  in_int64 (bd_ProxyReadTimeout b) → in_int64 (bd_ProxyBodySize b) →
  let px := wanted_proxy (list_to_map (configs_of b)) in
  px_ConnectTimeout px = bd_ProxyConnectTimeout b ∧ px_SendTimeout px = bd_ProxySendTimeout b ∧
  px_ReadTimeout px = bd_ProxyReadTimeout b ∧ px_BodySize px = bd_ProxyBodySize b ∧
  px_BufferSize px = (pretty (bd_ProxyBufferSize b) +:+ "k")%string ∧
  px_ProxyBuffering px = bd_ProxyBuffering b ∧ px_BuffersNumber px = 4%Z ∧
  ∀ h, h ≠ ""%string → px_SetHeaders px !! h =
    match setheaders b !! ("set-header-" +:+ h)%string with
    | Some v => Some (if decide (v = "empty"%string) then ""%string else v)
    | None => bk_ProxySetHeaders NewDefault !! h
    end.
Proof.
  intros H3 H4 H5 H6. cbn zeta. unfold wanted_proxy. cbn [px_ConnectTimeout px_SendTimeout px_ReadTimeout px_BodySize
    px_BufferSize px_ProxyBuffering px_BuffersNumber px_SetHeaders].
  assert (∀ kv, kv ∈ numbers_of b → kv ∈ configs_of b) as Hin by (intros kv Hkv; apply elem_of_app; by left).
  assert (∀ i kv, numbers_of b !! i = Some kv → kv ∈ configs_of b) as Hat by (intros i kv Hi; by eapply Hin, list_elem_of_lookup_2).
  split_and!.
  - apply wanted_number; [done|]. by apply (Hat 0).
  - apply wanted_number; [done|]. by apply (Hat 1).
  - apply wanted_number; [done|]. by apply (Hat 2).
  - apply wanted_number; [done|]. by apply (Hat 3).
  - apply wanted_text. by apply (Hat 4).
  - apply wanted_text. by apply (Hat 6).
  - unfold int_setting. destruct ((list_to_map (configs_of b) : gmap string string) !! "proxy-buffers-number"%string) as [v|] eqn:E; [|done]. apply configs_lookup in E. unfold configs_of in E.
    apply elem_of_app in E as [E|E].
    + unfold numbers_of in E. rewrite !elem_of_cons in E.
      destruct E as [[=]|[[=]|[[=]|[[=]|[[=]|[[=]|[[=]|E]]]]]]]. by apply elem_of_nil in E.
    + rewrite range_order_perm in E. apply elem_of_map_to_list, header_keys in E as [h E]. done.
  - intros h Hh. unfold wanted_headers, set_headers. rewrite lookup_union, lookup_fmap, suffix_map_lookup, configs_header by done.
    destruct (setheaders b !! ("set-header-" +:+ h)%string) as [v|]; destruct (bk_ProxySetHeaders NewDefault !! h); reflexivity.
Qed.

(** C28 (refinement): a rule goes all the way.  When a user's request for a rule
    of a host and the settings for it have succeeded and the tables have not changed since,
    the worker finds the rule for its port, and of every ingress it makes of it the gateway reads
    what the user asked for in these respects: host and path, conditions, weight, timeouts,
    size of bodies and buffers, buffering, and every header, over the gateway's own ones.  The
    number of buffers asked for has no effect: it is the gateway's own, 4.  Nothing is said here
    of the rule's extensions and of its certificate. *)
Theorem request_reaches_gateway (a : AppServiceBuild) (req : AddHTTPRuleStruct) (creq : RuleConfigReq) (w w1 w2 w3 : World)
    (cp pp : Z) (service : Service) (ing : Ingress) (sec : option Secret)
    (Hadd : AddHTTPRule req w = (w1, Ok ())) (Hcfg : RuleConfig creq w1 = (w2, Ok ()))
    (Hid : rq_RuleID creq = ah_HTTPRuleID req) (Hlater : w_db w3 = w_db w2)
    (Hing : applyHTTPRule (with_rules gdb w3) EX_DOMAIN secret_rest a (to_http (new_http_rule req)) cp pp service = Ok (ing, sec))
    (Hw : in_int64 (ah_Weight req)) (Hct : in_int64 (bd_ProxyConnectTimeout (rq_Body creq)))
    (Hst : in_int64 (bd_ProxySendTimeout (rq_Body creq))) (Hrt : in_int64 (bd_ProxyReadTimeout (rq_Body creq)))
    (Hbs : in_int64 (bd_ProxyBodySize (rq_Body creq))) :
  (∀ l, gd_http_rules (with_rules gdb w3) (ah_ServiceID req) (ah_ContainerPort req) = inr l →
     to_http (new_http_rule req) ∈ l) ∧
  (drop_spaces (ah_Domain req) ≠ ""%string → ∃ b, ing_Rules ing =
     [mkIngressRule (drop_spaces (ah_Domain req)) [(drop_spaces (rule_path (ah_Path req)), b)]]) ∧
  let an := Extract ing in let px := an_Proxy an in let body := rq_Body creq in
  an_Header an = transform (ah_Header req) ∧ an_Cookie an = transform (ah_Cookie req) ∧
  an_Weight an = Z.max 1 (ah_Weight req) ∧
  px_ConnectTimeout px = bd_ProxyConnectTimeout body ∧ px_SendTimeout px = bd_ProxySendTimeout body ∧
  px_ReadTimeout px = bd_ProxyReadTimeout body ∧ px_BodySize px = bd_ProxyBodySize body ∧
  px_BufferSize px = (pretty (bd_ProxyBufferSize body) +:+ "k")%string ∧
  px_ProxyBuffering px = bd_ProxyBuffering body ∧ px_BuffersNumber px = 4%Z ∧
  ∀ h, h ≠ ""%string → px_SetHeaders px !! h =
    match setheaders body !! ("set-header-" +:+ h)%string with
    | Some v => Some (if decide (v = "empty"%string) then ""%string else v)
    | None => bk_ProxySetHeaders NewDefault !! h
    end.
Proof.
  destruct (added_work _ _ _ Hadd) as (wa & Ea & Eda). destruct (configured_work _ _ _ Hcfg) as (w0 & wb & E0 & Eb & Edb).
  destruct (created_http_row _ _ _ Ea) as [i Hrow].
  assert (with_ID i (new_http_rule req) ∈ tb_http (w_db w3)) as Hrow3.
  { rewrite Hlater, Edb. destruct (leaves_configs tb_http (rq_RuleID creq) (configs_of (rq_Body creq)) _) as [Hl].
    specialize (Hl (Begin w0).1). rewrite Eb in Hl. cbn [fst] in Hl. by rewrite Hl, begin_visible, E0, Eda. }
  destruct (replace_configs_rows _ _ _ _ Eb) as (rs & Hrs & Ers). rewrite <- Edb, begin_visible in Ers.
  destruct (applied_rule _ _ _ _ _ _ _ _ _ _ Hing) as [(exts & configs & Hexts & Hconfigs) Hrules].
  assert (configs ≡ₚ configs_of (rq_Body creq)) as Hperm.
  { unfold with_rules, gd_configs, GwRuleConfigDao_ListByRuleID in Hconfigs. apply answer_find in Hconfigs.
    rewrite Hconfigs, Hlater. change (rows (w_db w2)) with (tb_cfg (w_db w2)). rewrite Ers, filter_app.
    change (hr_UUID (to_http (new_http_rule req))) with (ah_HTTPRuleID req). rewrite <- Hid.
    rewrite filter_out by (intros r [? _]%list_elem_of_filter; done). cbn [app]. clear - Hrs. induction Hrs as [|kv r l rs [E1 E2] _ IH]; [done|].
    rewrite filter_cons_True, fmap_cons by done. by rewrite E2, IH. }
  assert (NoDup configs.*1) as Hnd by (rewrite Hperm; apply configs_nodup).
  pose proof (http_rule_read (with_rules gdb w3) EX_DOMAIN secret_rest a _ cp pp service ing sec exts configs Hing Hexts Hconfigs
    ltac:(rewrite Hperm; apply configs_keys) Hnd Hw) as (_ & Hh & Hc & Hweight & _ & Hpx).
  rewrite (list_to_map_proper _ _ Hnd Hperm) in Hpx.
  split; [|split; [|cbn zeta; split; [exact Hh|split; [exact Hc|split; [exact Hweight|]]]]].
  - unfold with_rules, gd_http_rules, GetHTTPRuleByServiceIDAndContainerPort. intros l Hl%answer_find. rewrite Hl.
    change (to_http (new_http_rule req)) with (to_http (with_ID i (new_http_rule req))). apply list_elem_of_fmap_2.
    by apply list_elem_of_filter.
  - intros Hd. apply Hrules; [exact Hd|]. apply rule_path_nonempty.
  - rewrite Hpx. apply wanted_settings; done.
Qed.
End flow.

(** ** Closing a port, and rules that are not there *)

Section closing.
Context `{ApiEnv} `{!ApiEnvLaws}.

Lemma delete_run {R} `{Row R} (P : R → Prop) `{∀ r, Decision (P r)} w w' : Delete Tx P w = (w', Ok ()) →
  w_db w' = w_db w ∧ visible Tx w' = on_rows (base.filter (λ r, ¬ P r)) (visible Tx w) ∧ is_Some (w_tx w').
Proof. unfold Delete, statement. destruct (statement_error _); [done|]. intros [= <-]. destruct w. by repeat split. Qed.

Lemma wrap_ok {A} s (m : M World A) w w' a : wrap_err s m w = (w', Ok a) → m w = (w', Ok a).
Proof. unfold wrap_err. destruct (m w) as [w1 [|e|]]; intros E; by simplify_eq. Qed.

(** Closing a port of a component takes its rules for hosts and
    for ports away, with the settings and extensions of the rules for hosts
    that are committed, and nothing else; what is committed stays until the caller commits.
    The extensions of the rules for ports stay. *)
Theorem port_closed (componentID : string) (port : Z) (w w' : World)
    (Hrun : DeleteIngressRulesByComponentPort componentID port w = (w', Ok ())) :
  let ids := hrr_UUID <$> base.filter (λ r, hrr_ServiceID r = componentID ∧ hrr_ContainerPort r = port) (tb_http (w_db w)) in
  w_db w' = w_db w ∧ ∃ t, w_tx w' = Some t ∧
    tb_http t = base.filter (λ r, ¬ (hrr_ServiceID r = componentID ∧ hrr_ContainerPort r = port)) (tb_http (visible Tx w)) ∧
    tb_tcp t = base.filter (λ r, ¬ (trr_ServiceID r = componentID ∧ trr_ContainerPort r = port)) (tb_tcp (visible Tx w)) ∧
    tb_cfg t = base.filter (λ r, grc_RuleID r ∉ ids) (tb_cfg (visible Tx w)) ∧
    tb_ext t = base.filter (λ r, rer_RuleID r ∉ ids) (tb_ext (visible Tx w)) ∧
    tb_cert t = tb_cert (visible Tx w) ∧ tb_lb t = tb_lb (visible Tx w).
Proof.
  unfold DeleteIngressRulesByComponentPort, listHTTPRuleIDs, ListByComponentPort in Hrun.
  apply bind_ok_inv in Hrun as (w1 & ids & H1 & Hrun). apply bind_ok_inv in H1 as (w1' & l & H1%wrap_ok & H1').
  injection H1' as <- <-.
  assert (w_db w1' = w_db w ∧ visible Tx w1' = visible Tx w ∧
    ∀ r, r ∈ l ↔ r ∈ base.filter (λ r, hrr_ServiceID r = componentID ∧ hrr_ContainerPort r = port) (tb_http (w_db w))) as (D1 & V1 & Hl).
  { unfold Find, statement in H1. destruct (statement_error _); [done|]. injection H1 as <- <-. destruct w. split; [done|].
    split; [done|]. intros r. by rewrite any_order_perm. }
  assert (∀ x, x ∈ hrr_UUID <$> l ↔ x ∈ hrr_UUID <$> base.filter (λ r, hrr_ServiceID r = componentID ∧ hrr_ContainerPort r = port)
    (tb_http (w_db w))) as Hids by (intros x; rewrite !list_elem_of_fmap; by setoid_rewrite Hl).
  apply bind_ok_inv in Hrun as (w2 & [] & (D2 & V2 & _)%wrap_ok%delete_run & Hrun).
  apply bind_ok_inv in Hrun as (w3 & [] & (D3 & V3 & _)%wrap_ok%delete_run & Hrun).
  apply bind_ok_inv in Hrun as (w4 & [] & (D4 & V4 & _)%delete_run & (D5 & V5 & [t Ht])%wrap_ok%delete_run).
  cbn zeta. rewrite D5, D4, D3, D2, D1. split; [done|]. exists t. split; [done|].
  assert (t = visible Tx w') as -> by (cbn; by rewrite Ht). rewrite V5, V4, V3, V2, V1.
  destruct (visible Tx w) as [h tc ce ex cf lb vs n]. cbn.
  repeat split; apply list_filter_iff; intros r; by rewrite Hids.
Qed.

(** Changing a rule for a port that is not there, or deleting it: the panic is
    caught, everything is rolled back, and no error is reported. *)
Theorem missing_rule_accepted (req : UpdateTCPRuleStruct) (minPort : Z) (id : string) (w : World)
    (Hno : ∀ r, r ∈ tb_tcp (w_db w) → trr_UUID r ≠ at_TCPRuleID req ∧ trr_UUID r ≠ id)
    (Hfine : statement_error (w_statements w) = None) :
  (∃ w', UpdateTCPRule req minPort w = (w', Ok ()) ∧ w_db w' = w_db w ∧ w_tasks w' = w_tasks w) ∧
  (∃ w', DeleteTCPRule id w = (w', Ok ()) ∧ w_db w' = w_db w ∧ w_tasks w' = w_tasks w).
Proof.
  assert (∀ i, (∀ r, r ∈ tb_tcp (w_db w) → trr_UUID r ≠ i) →
    GetTCPRuleByID Tx i (Begin w).1 = ((Begin w).1 <| w_statements ::= S |>, Ok None)) as Hget.
  { intros i Hi. unfold GetTCPRuleByID, nil_if_absent, Find_one, Find, catch, statement, mbind, M_bind.
    replace (w_statements (Begin w).1) with (w_statements w) by by destruct w. rewrite Hfine. cbn.
    rewrite filter_out by done. pose proof (any_order_perm TCPRuleRow []) as Hp. symmetry in Hp. apply Permutation_nil in Hp.
    rewrite Hp. by destruct w. }
  split; eexists; (split; [unfold UpdateTCPRule, DeleteTCPRule, transaction, update_tcp_body, delete_tcp_body;
    rewrite bind_unfold, Hget by (intros r Hr; by apply Hno in Hr as [? ?]); reflexivity|]); by destruct w.
Qed.
End closing.

(** ** What is accepted *)

Section accepted.
Context `{ApiEnv} `{!ApiEnvLaws}.

Lemma created_tcp_row req w w1 : CreateTCPRule req w = (w1, Ok ()) →
  ∃ i, with_ID i (new_tcp_rule req) ∈ tb_tcp (visible Tx w1).
Proof.
  intros (w2 & [] & Hm & Hr)%bind_ok_inv.
  assert (∃ i, rows (visible Tx w2) = rows (visible Tx w) ++ [with_ID i (new_tcp_rule req)]) as [i E]
    by (eapply add_row; [by intros []|exact Hm]).
  exists i. assert (leaves tb_tcp (forM (at_RuleExtensions req) (add_extension Tx (at_TCPRuleID req) no_key))) as [Hl]
    by (unfold add_extension, RuleExtensionDao_AddModel; leaves_table).
  specialize (Hl w2). rewrite Hr in Hl. cbn [fst] in Hl. rewrite Hl.
  change (tb_tcp (visible Tx w2)) with (rows (R := TCPRuleRow) (visible Tx w2)).
  rewrite E. apply elem_of_app. right. apply list_elem_of_here.
Qed.

Lemma port_free_if_looked (ip : string) (port : Z) (w : World) :
  statement_error (w_statements w) = None → (TCPIPPortExists ip port w).2 = Ok false →
  ∀ r, r ∈ tb_tcp (w_db w) → conflicts ip r → trr_Port r ≠ port.
Proof.
  intros Hok. unfold TCPIPPortExists, catch, mbind, M_bind. pose proof (used_ports ip w) as Hu.
  assert (∃ l, (GetUsedPortsByIP Pool ip w).2 = Ok l) as [l El].
  { unfold GetUsedPortsByIP, Find, statement. case_decide; rewrite Hok; by eexists. }
  destruct (GetUsedPortsByIP Pool ip w) as [w1 r]. cbn [snd] in El. subst r. cbn in Hu |- *. intros [= Hf] r Hr Hc <-.
  apply bool_decide_eq_false in Hf. apply Hf, list_elem_of_fmap_2. by apply Hu.
Qed.

(** A rule for a port that is accepted is stored, its port is above the
    smallest, and when the rules could be read no rule of that address, or of all
    addresses, had the port. *)
Theorem tcp_rule_accepted (MinExtPort : Z) (req : AddTCPRuleStruct) (w w' : World)
    (Hadd : Controller_AddTCPRule MinExtPort req w = (w', Ok Success)) :
  (MinExtPort < at_Port req)%Z ∧ at_Port req ≠ 0%Z ∧ at_ContainerPort req ≠ 0%Z ∧
  (∃ i, with_ID i (new_tcp_rule req) ∈ tb_tcp (w_db w')) ∧
  (statement_error (w_statements w) = None → ∀ r, r ∈ tb_tcp (w_db w) → conflicts (at_IP req) r → trr_Port r ≠ at_Port req).
Proof.
  unfold Controller_AddTCPRule in Hadd. apply bind_ok_inv in Hadd as (w1 & port & Hport & Hadd).
  unfold respond in Hadd. destruct (_ ++ port ++ _) as [|f l] eqn:Ef; [|done].
  apply app_eq_nil in Ef as [E1 Ef]. apply app_eq_nil in Ef as [-> E2].
  assert (AddTCPRule req w1 = (w', Ok ())) as Hrun.
  { apply bind_ok_inv in Hadd as (w2 & r & Hc & Hr). unfold catch in Hc. unfold mret, M_ret in Hr.
    destruct (AddTCPRule req w1) as [w3 [[]|e|]]; by simplify_eq. }
  unfold port_fields in Hport. case_decide as Hp; [done|]. apply bind_ok_inv in Hport as (w2 & taken & Ht & Hport).
  assert (taken = false) as -> by (destruct taken; [done|done]).
  split; [lia|]. split; [lia|]. split; [|split].
  - unfold invalid in E1. case_bool_decide; done.
  - destruct (added_outcome _ _ _ _ _ _ _ (local_create_tcp req) Hrun) as [_ [(w3 & E3 & E4 & _)|[_ []]]]; [|done].
    rewrite E4. by eapply created_tcp_row.
  - intros Hok. apply port_free_if_looked; [done|]. by rewrite Ht.
Qed.
End accepted.

(** ** The theorems at concrete inputs *)

(** Nothing fails, and rows come in the order of their keys. *)
Definition ref_api : ApiEnv := {|
  statement_error := λ _, None; any_order := λ _ l, l; NewUUID := λ n, pretty (Z.of_nat n); queue_error := λ _, None |}.
Lemma ref_api_laws : @ApiEnvLaws ref_api.
Proof. by split. Qed.

Definition demo_tables : Tables :=
  mkTables [] [mkTCPRow 1 "tcp" "svc" 80 "0.0.0.0" 10000] [] [] [] []
    [mkServiceRow 1 "tenant" "svc" "gr1" "ns" "internal" 512 1 "v1" "" "" "" 0 0 ""] [] [] [] [] [] no_parts 2.
Definition demo_world : World := mkWorld demo_tables None 0 0 {[10001%Z := 500%Z]} [].
Definition demo_add : AddHTTPRuleStruct :=
  mkAddHTTP "rule" "svc" 80 "a.com" "web" "k=v" "" 20 "" "" "" "" [mkRuleExt "httptohttps" "true"].
Definition demo_settings : RuleConfigReq :=
  mkRuleConfigReq "rule" "svc" "event" (mkBody 30 60 60 8 [mkSetHeader "Host" "a.org"; mkSetHeader "X-Scheme" " "] 16 8 "on").
Definition demo_added : World := (@AddHTTPRule ref_api demo_add demo_world).1.
Definition demo_configured : World := (@RuleConfig ref_api ref_runtime demo_settings demo_added).1.

Lemma run_ok {A} (m : M World A) w a : (m w).2 = Ok a → m w = ((m w).1, Ok a).
Proof. destruct (m w). by intros [= ->]. Qed.

Lemma demo_keyed : keyed demo_tables.
Proof.
  split; [done|..]; split; cbn; try apply NoDup_nil_2; try apply NoDup_singleton; try apply Forall_nil_2.
  by apply Forall_singleton.
Qed.

(** The task that both requests send to the workers. *)
Example demo_tasks : omap (λ t, match t with SentRule t => Some (rt_action t) | _ => None end) (w_tasks demo_configured) =
  ["add-http-rule"; "update-rule-config"]%string.
Proof. vm_compute. reflexivity. Qed.

Lemma requests_atomic_witness : w_tx demo_added = None ∧ w_db demo_added ≠ w_db demo_world ∧
  ∃ w0 w1, w_db w0 = w_db demo_world ∧ @work ref_api ref_runtime (AddHTTP demo_add) (Begin w0).1 = (w1, Ok ()) ∧
    w_db demo_added = visible Tx w1.
Proof.
  destruct (@requests_atomic ref_api ref_runtime (AddHTTP demo_add) demo_world demo_added (Ok ()) eq_refl) as [H1 H2].
  - apply (@run_ok unit). vm_compute. reflexivity.
  - assert (w_db demo_added ≠ w_db demo_world) as Hne.
    { intros E. apply (f_equal (λ t, length (tb_http t))) in E. vm_compute in E. discriminate E. }
    split; [exact H1|]. split; [exact Hne|]. destruct H2 as [E|[_ H2]]; [destruct (Hne E)|exact H2].
Defined.

Lemma keys_unique_witness : keyed (w_db (@serve_all ref_api ref_runtime [AddHTTP demo_add; Configure demo_settings] demo_world)).
Proof. apply (@keys_unique ref_api ref_api_laws ref_runtime _ demo_world eq_refl demo_keyed). Defined.

Lemma available_port_witness : ∃ w', @GetAvailablePort ref_api (λ _, ""%string) 100 "10.0.0.1" true demo_world = (w', Ok 10002%Z) ∧
  w_lockPort w' !! 10002%Z = Some 220%Z.
Proof.
  assert (@GetAvailablePort ref_api (λ _, ""%string) 100 "10.0.0.1" true demo_world =
    ((@GetAvailablePort ref_api (λ _, ""%string) 100 "10.0.0.1" true demo_world).1, Ok 10002%Z)) as E
    by (apply (@run_ok Z); vm_compute; reflexivity).
  eexists. split; [exact E|].
  apply (@available_port ref_api ref_api_laws (λ _, ""%string) 100 "10.0.0.1" true demo_world _ 10002); [| | | |exact E|reflexivity].
  - vm_compute. split; reflexivity.
  - apply Forall_singleton. vm_compute. split; [intros [=]|reflexivity].
  - intros q x Hq. change (({[10001%Z := 500%Z]} : gmap Z Z) !! q = Some x) in Hq. apply lookup_singleton_Some in Hq as [<- <-]. lia.
  - intros l w1 El. assert (length l = 1%nat) as ->; [|vm_compute; reflexivity].
    apply (f_equal (λ r : World * result (list TCPRuleRow), match r.2 with Ok l => length l | _ => 0 end)) in El.
    vm_compute in El. cbn in El. symmetry. exact El.
Defined.

Definition demo_applied : result (Ingress * option Secret) :=
  applyHTTPRule (@with_rules ref_api demo_gateway_db demo_configured) "" (λ _, ""%string) demo_builder
    (to_http (new_http_rule demo_add)) 80 80 demo_outer.
Definition demo_ing : Ingress := match demo_applied with Ok (i, _) => i | _ => mkIngress zero_meta [] [] None "" end.

(** The gateway's own header is replaced by an empty one. *)
Lemma request_reaches_gateway_witness :
  an_Weight (@Extract ref_runtime demo_ing) = 20%Z ∧
  px_ConnectTimeout (an_Proxy (@Extract ref_runtime demo_ing)) = 30%Z ∧
  px_BuffersNumber (an_Proxy (@Extract ref_runtime demo_ing)) = 4%Z ∧
  px_SetHeaders (an_Proxy (@Extract ref_runtime demo_ing)) !! "X-Scheme"%string = Some ""%string.
Proof.
  destruct (@request_reaches_gateway ref_api ref_api_laws ref_runtime ref_runtime_laws demo_gateway_db "" (λ _, ""%string)
    demo_builder demo_add demo_settings demo_world demo_added demo_configured demo_configured 80 80 demo_outer demo_ing None)
    as (_ & _ & _ & _ & H1 & H2 & _ & _ & _ & _ & _ & H3 & H4);
    [apply (@run_ok unit); vm_compute; reflexivity|apply (@run_ok unit); vm_compute; reflexivity|reflexivity|reflexivity|
     vm_compute; reflexivity|unfold in_int64; cbn; lia..|].
  split; [exact H1|]. split; [exact H2|]. split; [exact H3|].
  refine (eq_trans (H4 "X-Scheme"%string _) _); [discriminate|vm_compute; reflexivity].
Defined.

Lemma port_closed_witness : ∃ w' t, @DeleteIngressRulesByComponentPort ref_api "svc" 80 (Begin demo_configured).1 = (w', Ok ()) ∧
  w_tx w' = Some t ∧ tb_http t = [] ∧ tb_tcp t = [] ∧ tb_cfg t = [] ∧ tb_ext t = [].
Proof.
  assert (@DeleteIngressRulesByComponentPort ref_api "svc" 80 (Begin demo_configured).1 =
    ((@DeleteIngressRulesByComponentPort ref_api "svc" 80 (Begin demo_configured).1).1, Ok ())) as E
    by (apply (@run_ok unit); vm_compute; reflexivity).
  destruct (@port_closed ref_api ref_api_laws _ _ _ _ E) as [_ (t & Ht & H1 & H2 & H3 & H4 & _)].
  exists (@DeleteIngressRulesByComponentPort ref_api "svc" 80 (Begin demo_configured).1).1, t.
  split; [exact E|]. split; [exact Ht|]. split; [|split; [|split]].
  - refine (eq_trans H1 _). vm_compute. reflexivity.
  - refine (eq_trans H2 _). vm_compute. reflexivity.
  - refine (eq_trans H3 _). vm_compute. reflexivity.
  - refine (eq_trans H4 _). vm_compute. reflexivity.
Defined.

(** A changed rule for a port may take the port of another rule: only adding looks. *)
Example update_shares_port :
  let w := (@AddTCPRule ref_api (mkAddTCP "other" "svc" 81 "0.0.0.0" 10005 []) demo_world).1 in
  let w := (@UpdateTCPRule ref_api (mkAddTCP "other" "" 0 "" 10000 []) 0 w).1 in
  trr_Port <$> tb_tcp (w_db w) = [10000; 10000]%Z.
Proof. vm_compute. reflexivity. Qed.

(** Ports below the range, or twice in use, hide free ones; a port above the range is proposed. *)
Example free_ports_hidden : select_port 10000 10001 [9000; 10001]%Z = 0%Z.
Proof. vm_compute. reflexivity. Qed.
Example port_above_range : select_port 10000 10001 [10000; 10001; 20000]%Z = 10002%Z.
Proof. vm_compute. reflexivity. Qed.

(** Two extensions of one value: the second is refused. *)
Example extension_values_clash :
  (@AddHTTPRule ref_api (mkAddHTTP "r" "svc" 80 "b.com" "/" "" "" 1 "" "" "" "" [mkRuleExt "a" "true"; mkRuleExt "b" "true"])
     demo_world).2 = Err (EWrap "create rule extensions" (EMsg "RuleExtension already exists")).
Proof. vm_compute. reflexivity. Qed.

Lemma tcp_rule_accepted_witness : ∃ w', @Controller_AddTCPRule ref_api 1025 (mkAddTCP "new" "svc" 81 "10.0.0.1" 10005 []) demo_world =
    (w', Ok Success) ∧ ∃ i, with_ID i (new_tcp_rule (mkAddTCP "new" "svc" 81 "10.0.0.1" 10005 [])) ∈ tb_tcp (w_db w').
Proof.
  eexists. split; [apply (@run_ok Response); vm_compute; reflexivity|].
  apply (@tcp_rule_accepted ref_api ref_api_laws 1025 (mkAddTCP "new" "svc" 81 "10.0.0.1" 10005 []) demo_world).
  apply (@run_ok Response). vm_compute. reflexivity.
Defined.
