(* ===== verification/Queue.v ===== *)
(** * The message queue

    [util/etcd/queue.go]: a queue of many writers and many readers kept in etcd,
    as steps between which everybody else may act; [mq/api/mq/mq.go] and
    [mq/api/grpc/server/server.go], its topics and the server in front of it;
    [mq/client/client.go], the message a task becomes. *)
From stdpp Require Import pretty.
From S2P Require Import Prelude Task.

(** ** What the queue uses of etcd *)

Record KeyValue := mkKV { kv_Key : string; kv_Value : string; kv_ModRevision : Z }.
#[export] Instance KeyValue_eq_dec : EqDecision KeyValue.
Proof. solve_decision. Defined.

Class Etcd (S : Type) := {
  Revision : S → Z;
  (** [Get] of a prefix [WithFirstRev]: the oldest key, and whether there are more *)
  get_first : string → S → list KeyValue * bool;
  (** the count of the same range *)
  get_count : string → S → Z;
  (** [If(Version(key) = 0).Then(Put)], and whether it succeeded *)
  txn_put_new : string → string → S → S * bool;
  (** [If(ModRevision(key) = rev).Then(Delete)] *)
  txn_delete_rev : string → Z → S → S * bool;
  (** the first put a watch of a prefix from a revision reports *)
  first_put : string → Z → S → option KeyValue
}.

Definition under (prefix : string) (kv : KeyValue) : Prop := String.prefix prefix (kv_Key kv) = true.
#[export] Instance under_dec p kv : Decision (under p kv).
Proof. unfold under. apply _. Defined.

(** Revisions grow with every change; [alive] are the keys that are there and
    [puts] all that ever were, both from the oldest to the newest. *)
Class EtcdLaws (S : Type) `{Etcd S} := {
  alive : S → list KeyValue;
  puts : S → list KeyValue;
  puts_sorted s : StronglySorted (λ a b, kv_ModRevision a < kv_ModRevision b)%Z (puts s);
  puts_revision s kv : kv ∈ puts s → (kv_ModRevision kv ≤ Revision s)%Z;
  alive_puts s : alive s `sublist_of` puts s;
  get_first_law p s : get_first p s =
    let l := base.filter (under p) (alive s) in (take 1 l, bool_decide (1 < length l));
  get_count_law p s : get_count p s = Z.of_nat (length (base.filter (under p) (alive s)));
  txn_put_new_law k v s : let '(s', ok) := txn_put_new k v s in
    if decide (k ∈ kv_Key <$> alive s) then s' = s ∧ ok = false
    else ok = true ∧ (Revision s < Revision s')%Z ∧
         alive s' = alive s ++ [mkKV k v (Revision s')] ∧ puts s' = puts s ++ [mkKV k v (Revision s')];
  txn_delete_rev_law k r s : let '(s', ok) := txn_delete_rev k r s in
    if decide (Exists (λ kv, kv_Key kv = k ∧ kv_ModRevision kv = r) (alive s))
    then ok = true ∧ (Revision s ≤ Revision s')%Z ∧
         alive s' = base.filter (λ kv, kv_ModRevision kv ≠ r) (alive s) ∧ puts s' = puts s
    else s' = s ∧ ok = false;
  first_put_law p r s :
    first_put p r s = head (base.filter (λ kv, under p kv ∧ (r ≤ kv_ModRevision kv)%Z) (puts s))
}.

(** A request is answered, or fails before or after it took effect, or a watch
    stays silent for thirty seconds. *)
Inductive Reply := Replied | Failed | FailedApplied | Silent.

(** ** [util/etcd] *)

Definition ErrKeyExists : error := EMsg "key already exists".
Definition ErrNoWatcher : error := EMsg "no watcher channel".
Definition EEtcd : error := EMsg "etcd".

Section etcd.
Context {S : Type} `{Etcd S}.

(** The key, its revision and its value. *)
Definition RemoteKV : Type := KeyValue.

Definition putNewKV (r : Reply) (key val : string) (s : S) : S * (error + RemoteKV) :=
  match r with
  | Replied =>
    let '(s', ok) := txn_put_new key val s in
    (s', if ok : bool then inr (mkKV key val (Revision s')) else inl ErrKeyExists)
  | FailedApplied => ((txn_put_new key val s).1, inl EEtcd)
  | _ => (s, inl EEtcd)
  end.

Definition unique_key (prefix : string) (now : Z) : string := (prefix +:+ "/" +:+ pretty now)%string.

(** One round of the loop: [None] is another round. *)
Definition newUniqueKV (r : Reply) (prefix val : string) (now : Z) (s : S) : S * option (error + RemoteKV) :=
  match putNewKV r (unique_key prefix now) val s with
  | (s', inl e) => (s', if decide (e = ErrKeyExists) then None else Some (inl e))
  | (s', res) => (s', Some res)
  end.

Definition deleteRevKey (r : Reply) (key : string) (rev : Z) (s : S) : S * (error + bool) :=
  match r with
  | Replied => let '(s', ok) := txn_delete_rev key rev s in (s', inr ok)
  | FailedApplied => ((txn_delete_rev key rev s).1, inl EEtcd)
  | _ => (s, inl EEtcd)
  end.

(** Where [Dequeue] is: before [Get]; in the loop of [claimFirstKey], with what
    [Get] answered; watching from a revision; deleting the key of an event;
    back in its caller. *)
Inductive pc :=
  | Getting
  | Claiming (kvs : list KeyValue) (more : bool) (rev : Z)
  | Watching (rev : Z)
  | ClaimingEvent (ev : KeyValue)
  | Returned (res : error + string).

Definition claim (r : Reply) (k : KeyValue) (missing : pc) (s : S) : S * pc :=
  match deleteRevKey r (kv_Key k) (kv_ModRevision k) s with
  | (s', inl e) => (s', Returned (inl e))
  | (s', inr true) => (s', Returned (inr (kv_Value k)))
  | (s', inr false) => (s', missing)
  end.

Definition Dequeue_step (keyPrefix : string) (r : Reply) (p : pc) (s : S) : S * pc :=
  match p with
  | Getting =>
    (s, match r with
        | Replied => let '(kvs, more) := get_first keyPrefix s in Claiming kvs more (Revision s)
        | _ => Returned (inl EEtcd)
        end)
  | Claiming (k :: kvs) more rev => claim r k (Claiming kvs more rev) s
  | Claiming [] more rev => (s, if more then Getting else Watching rev)
  | Watching rev =>
    (s, match r with
        | Replied => match first_put keyPrefix rev s with Some ev => ClaimingEvent ev | None => p end
        | Silent => Getting
        | _ => Returned (inl ErrNoWatcher)
        end)
  | ClaimingEvent ev => claim r ev Getting s
  | Returned _ => (s, p)
  end.
End etcd.

(** ** Topics and the server *)

Definition BuilderTopic : string := "builder".
Definition WindowsBuilderTopic : string := "windows_builder".
Definition WorkerTopic : string := "worker".

(** [etcdQueue], with its topics in the order they were registered; the lock
    around them is held for one operation. *)
Record etcdQueue := mkEtcdQueue { eq_EtcdPrefix : string; eq_queues : list string }.
#[export] Instance eta_etcdQueue : Eta etcdQueue := λ e, mkEtcdQueue (eq_EtcdPrefix e) (eq_queues e).

Definition registerTopic (topic : string) (e : etcdQueue) : etcdQueue :=
  e <| eq_queues ::= λ l, if decide (topic ∈ l) then l else l ++ [topic] |>.

(** [Start], after the client is there; [topics] is the variable of the
    environment, split at commas. *)
Definition Start (topics : list string) (e : etcdQueue) : etcdQueue :=
  foldl (λ e t, registerTopic t e) e (topics ++ [BuilderTopic; WindowsBuilderTopic; WorkerTopic]).

Definition TopicIsExist (e : etcdQueue) (topic : string) : bool := bool_decide (topic ∈ eq_queues e).
Definition queueKey (e : etcdQueue) (topic : string) : string := (eq_EtcdPrefix e +:+ "/" +:+ topic)%string.

(** [if in.Topic == "" || !TopicIsExist(in.Topic)] *)
Definition supported (e : etcdQueue) (topic : string) : bool :=
  negb (bool_decide (topic = ""%string)) && TopicIsExist e topic.

(** [pb.TaskMessage]: the worker's message, and an id. *)
Record PbTaskMessage := mkPbMessage { pb_TaskId : string; pb_Message : TaskMessage }.

Record EnqueueRequest := mkEnqueueRequest { er_Topic : string; er_Message : PbTaskMessage }.

(** [proto.Marshal] and [proto.Unmarshal]. *)
Class Proto := {
  Marshal : PbTaskMessage → option string;
  Unmarshal_proto : string → option PbTaskMessage
}.
Class ProtoLaws `{Proto} : Prop := { unmarshal_marshal m s : Marshal m = Some s → Unmarshal_proto s = Some m }.

(** What has happened to messages. *)
Inductive Event :=
  | Enqueued (topic value : string)
  | Dequeued (consumer : nat) (topic value : string)
  | Dropped (topic value : string).

Record QState (S : Type) := mkQState { q_etcd : S; q_consumers : gmap nat (string * pc) }.
Arguments mkQState {S} _ _.
Arguments q_etcd {S} _.
Arguments q_consumers {S} _.
#[export] Instance eta_QState S : Eta (QState S) := λ st, mkQState (q_etcd st) (q_consumers st).

(** What may happen next: one round of an [Enqueue]; a call of [Dequeue]; the
    next step of a call; another user of etcd changes it. *)
Inductive Action (S : Type) :=
  | AEnqueue (topic value : string) (now : Z) (r : Reply)
  | ADequeue (consumer : nat) (topic : string)
  | AStep (consumer : nat) (r : Reply)
  | AOther (f : S → S).
Arguments AEnqueue {S} _ _ _ _.
Arguments ADequeue {S} _ _.
Arguments AStep {S} _ _.
Arguments AOther {S} _.

Section server.
Context {S : Type} `{Etcd S} (e : etcdQueue).

(** What [claim] did to the message it was after. *)
Definition claim_event (c : nat) (topic : string) (r : Reply) (p p' : pc) (s : S) : list Event :=
  match p, p' with
  | (Claiming (k :: _) _ _ | ClaimingEvent k), Returned (inr v) => [Dequeued c topic v]
  | (Claiming (k :: _) _ _ | ClaimingEvent k), Returned (inl _) =>
    match r with
    | FailedApplied => if (txn_delete_rev (kv_Key k) (kv_ModRevision k) s).2 then [Dropped topic (kv_Value k)] else []
    | _ => []
    end
  | _, _ => []
  end.

Definition put_event (topic key value : string) (r : Reply) (s : S) : list Event :=
  match r with
  | Replied | FailedApplied => if (txn_put_new key value s).2 then [Enqueued topic value] else []
  | _ => []
  end.

Definition act (a : Action S) (st : QState S) : QState S * list Event :=
  match a with
  | AEnqueue topic value now r =>
    if supported e topic then
      (st <| q_etcd := (newUniqueKV r (queueKey e topic) value now (q_etcd st)).1 |>,
       put_event topic (unique_key (queueKey e topic) now) value r (q_etcd st))
    else (st, [])
  | ADequeue c topic => (if supported e topic then st <| q_consumers ::= <[c := (topic, Getting)]> |> else st, [])
  | AStep c r =>
    match q_consumers st !! c with
    | Some (topic, p) =>
      let '(s', p') := Dequeue_step (queueKey e topic) r p (q_etcd st) in
      (mkQState s' (<[c := (topic, p')]> (q_consumers st)), claim_event c topic r p p' (q_etcd st))
    | None => (st, [])
    end
  | AOther f => (st <| q_etcd ::= f |>, [])
  end.

Fixpoint run (l : list (Action S)) (st : QState S) : QState S * list Event :=
  match l with
  | [] => (st, [])
  | a :: l' =>
    let '(st1, evs) := act a st in
    let '(st2, evs') := run l' st1 in
    (st2, evs ++ evs')
  end.

Definition MessageQueueSize (topic : string) (st : QState S) : Z := get_count (queueKey e topic) (q_etcd st).
End server.

Section client.
Context `{Proto}.

(** [mqServer.Enqueue]: the value that is queued. *)
Definition server_value (e : etcdQueue) (new_id : string) (q : EnqueueRequest) : error + string :=
  if supported e (er_Topic q) then
    let m := er_Message q in
    let m := if decide (pb_TaskId m = ""%string) then mkPbMessage new_id (pb_Message m) else m in
    match Marshal m with Some v => inr v | None => inl (EMsg "marshal") end
  else inl (EMsg "topic is not support").

(** [mqServer.Dequeue]: what becomes of the value taken from the queue. *)
Definition server_message (v : string) : error + PbTaskMessage :=
  match Unmarshal_proto v with Some m => inr m | None => inl (EMsg "unmarshal") end.

(** [TaskStruct] and [buildTask]; the body as JSON, unless it has none. *)
Record TaskStruct := mkTaskStruct { ts_Topic : string; ts_TaskType : string; ts_TaskBody : option string }.

Definition buildTask (now : string) (t : TaskStruct) : error + EnqueueRequest :=
  match ts_TaskBody t with
  | Some taskJSON => inr (mkEnqueueRequest (ts_Topic t)
      (mkPbMessage "" (mkMessage (ts_TaskType t) taskJSON now "kato")))
  | None => inl (EMsg "json")
  end.

(** [SendBuilderTopic], up to the call of the server. *)
Definition SendBuilderTopic (e : etcdQueue) (now new_id : string) (t : TaskStruct) : error + string :=
  match buildTask now t with
  | inl err => inl (EWrap "create task body error" err)
  | inr q => match server_value e new_id q with
             | inl err => inl (EWrap "send enqueue request error" err)
             | inr v => inr v
             end
  end.
End client.

(** ** The specification: one list for each topic *)

Fixpoint fifo (t : string) (evs : list Event) (q : list string) : option (list string) :=
  match evs with
  | [] => Some q
  | Enqueued t' v :: evs' => fifo t evs' (if decide (t' = t) then q ++ [v] else q)
  | (Dequeued _ t' v | Dropped t' v) :: evs' =>
    if decide (t' = t) then
      match q with
      | x :: q' => if decide (x = v) then fifo t evs' q' else None
      | [] => None
      end
    else fifo t evs' q
  end.

(** ** An etcd *)

(** Every put so far, the first with revision one, and whether it is still there. *)
Record RefEtcd := mkRefEtcd { re_puts : list (string * string * bool) }.

Definition ref_kv (i : nat) (x : string * string * bool) : KeyValue := mkKV x.1.1 x.1.2 (Z.of_nat i + 1).
Definition ref_entries (s : RefEtcd) : list (KeyValue * bool) := imap (λ i x, (ref_kv i x, x.2)) (re_puts s).
Definition ref_puts (s : RefEtcd) : list KeyValue := (ref_entries s).*1.
Definition ref_alive (s : RefEtcd) : list KeyValue := (base.filter (λ x, x.2 = true) (ref_entries s)).*1.
Definition ref_delete (r : Z) (s : RefEtcd) : RefEtcd :=
  mkRefEtcd (imap (λ i x, if decide (Z.of_nat i + 1 = r)%Z then (x.1, false) else x) (re_puts s)).

#[export] Instance RefEtcd_etcd : Etcd RefEtcd := {
  Revision s := Z.of_nat (length (re_puts s));
  get_first p s := let l := base.filter (under p) (ref_alive s) in (take 1 l, bool_decide (1 < length l));
  get_count p s := Z.of_nat (length (base.filter (under p) (ref_alive s)));
  txn_put_new k v s :=
    if decide (k ∈ kv_Key <$> ref_alive s) then (s, false) else (mkRefEtcd (re_puts s ++ [(k, v, true)]), true);
  txn_delete_rev k r s :=
    if decide (Exists (λ kv, kv_Key kv = k ∧ kv_ModRevision kv = r) (ref_alive s)) then (ref_delete r s, true) else (s, false);
  first_put p r s := head (base.filter (λ kv, under p kv ∧ (r ≤ kv_ModRevision kv)%Z) (ref_puts s))
}.

Lemma ref_entries_app l x : ref_entries (mkRefEtcd (l ++ [x])) =
  ref_entries (mkRefEtcd l) ++ [(mkKV x.1.1 x.1.2 (Z.of_nat (length l) + 1), x.2)].
Proof. unfold ref_entries, ref_kv. cbn. rewrite imap_app. cbn. by rewrite Nat.add_0_r. Qed.

Lemma ref_entries_elem s x : x ∈ ref_entries s → (1 ≤ kv_ModRevision x.1 ≤ Z.of_nat (length (re_puts s)))%Z.
Proof.
  intros [i Hi]%list_elem_of_lookup. unfold ref_entries in Hi. rewrite list_lookup_imap in Hi.
  destruct (re_puts s !! i) eqn:E; [|done]. apply lookup_lt_Some in E. cbn in Hi. simplify_eq. cbn. lia.
Qed.

Lemma ref_puts_sorted s : StronglySorted (λ a b, kv_ModRevision a < kv_ModRevision b)%Z (ref_puts s).
Proof.
  destruct s as [l]. induction l as [|x l IH] using rev_ind; [constructor|].
  unfold ref_puts in *. rewrite ref_entries_app, fmap_app. apply sorted_snoc; [exact IH|].
  intros y [z [-> Hz%ref_entries_elem]]%list_elem_of_fmap. cbn in *. lia.
Qed.

Lemma ref_delete_entries r s : ref_entries (ref_delete r s) =
  (λ x, if decide (kv_ModRevision x.1 = r) then (x.1, false) else x) <$> ref_entries s.
Proof.
  unfold ref_entries, ref_delete. cbn. rewrite fmap_imap. rewrite imap_imap || idtac.
  apply list_eq. intros i. rewrite !list_lookup_imap. destruct (re_puts s !! i) as [[[k v] b]|]; [|done].
  cbn. by destruct (decide (Z.of_nat i + 1 = r)%Z).
Qed.

Lemma ref_alive_delete r s : ref_alive (ref_delete r s) = base.filter (λ kv, kv_ModRevision kv ≠ r) (ref_alive s).
Proof.
  unfold ref_alive. rewrite ref_delete_entries. induction (ref_entries s) as [|[kv b] l IH]; [done|].
  rewrite fmap_cons. cbn [fst snd]. rewrite (filter_cons _ (kv, b)). cbn [snd].
  destruct b; cbn [decide]; [|rewrite (decide_False (P := false = true)) by done]; [rewrite (decide_True (P := true = true)) by done|].
  - rewrite fmap_cons, (filter_cons _ (kv)). cbn [fst]. destruct (decide (kv_ModRevision kv = r)) as [Hr|Hr].
    + rewrite filter_cons_False by done. rewrite decide_False by naive_solver. exact IH.
    + rewrite filter_cons_True by done. rewrite decide_True by done. rewrite fmap_cons. by f_equal.
  - rewrite filter_cons_False by (by destruct (decide _)). exact IH.
Qed.

#[export] Instance RefEtcd_laws : EtcdLaws RefEtcd.
Proof.
  refine {| alive := ref_alive; puts := ref_puts |}.
  - apply ref_puts_sorted.
  - intros s kv [x [-> Hx%ref_entries_elem]]%list_elem_of_fmap. cbn. lia.
  - intros s. apply sublist_map, sublist_filter.
  - done.
  - done.
  - intros k v s. cbn -[length]. case_decide as Hk; [done|]. split; [done|]. destruct s as [l]. cbn [re_puts].
    rewrite !length_app. split; [cbn; lia|]. unfold ref_alive, ref_puts. rewrite ref_entries_app, filter_app, !fmap_app. cbn.
    replace (Z.of_nat (length l) + 1)%Z with (Z.of_nat (length l + 1)) by lia. split; reflexivity.
  - intros k r s. cbn -[length]. case_decide as Hk; [|done]. split; [done|]. cbn [re_puts ref_delete]. rewrite length_imap.
    split; [lia|]. split; [apply ref_alive_delete|].
    unfold ref_puts. rewrite ref_delete_entries. induction (ref_entries s) as [|[kv b] l IH]; [done|].
    rewrite !fmap_cons, IH. by destruct (decide _).
  - done.
Defined.
