(* ===== verification/QueueSpec.v ===== *)
(** * What the message queue promises

    Every interleaving of writers and readers, with requests that fail before
    or after they took effect, is one of a list per topic, of which messages
    are taken at the head; a reader alone gets the head; tasks arrive as they
    were sent. *)
From stdpp Require Import pretty.
From S2P Require Import Prelude Task Queue.

Section spec.
Context {S : Type} `{EtcdLaws S} (e : etcdQueue).

(** The messages of a topic, the oldest first. *)
Definition held (t : string) (s : S) : list KeyValue := base.filter (under (queueKey e t)) (alive s).
Definition contents (t : string) (st : QState S) : list string := kv_Value <$> held t (q_etcd st).

(** No other topic has a key that begins like this one's, or the other way round. *)
Definition isolated (t : string) : Prop :=
  ∀ t', t' ∈ eq_queues e → t' ≠ t →
    String.prefix (queueKey e t) (queueKey e t') = false ∧ String.prefix (queueKey e t') (queueKey e t) = false.

(** What others do leaves the messages of the topic alone. *)
Definition quiet (t : string) (a : Action S) : Prop :=
  match a with
  | AOther f => ∀ s, held t (f s) = held t s ∧ (∀ kv, kv ∈ puts s → under (queueKey e t) kv → kv ∈ puts (f s)) ∧
                     (Revision s ≤ Revision (f s))%Z
  | _ => True
  end.

(** ** What a reader knows *)

(** What etcd holds of a topic only loses messages and gets newer ones. *)
Definition later (t : string) (s s' : S) : Prop :=
  (∀ kv, kv ∈ held t s' → kv ∈ held t s ∨ (Revision s < kv_ModRevision kv)%Z) ∧
  (∀ kv, kv ∈ puts s → under (queueKey e t) kv → kv ∈ puts s') ∧ (Revision s ≤ Revision s')%Z.

(** A message that was there, and none that is there is older. *)
Definition oldest (t : string) (k : KeyValue) (s : S) : Prop :=
  k ∈ puts s ∧ under (queueKey e t) k ∧ ∀ kv, kv ∈ held t s → (kv_ModRevision k ≤ kv_ModRevision kv)%Z.

Definition newer (t : string) (rev : Z) (s : S) : Prop :=
  (rev ≤ Revision s)%Z ∧ ∀ kv, kv ∈ held t s → (rev < kv_ModRevision kv)%Z.

Definition knows (t : string) (p : pc) (s : S) : Prop :=
  match p with
  | Claiming [] more rev => more = false → newer t rev s
  | Claiming [k] more rev => oldest t k s ∧ (rev ≤ Revision s)%Z ∧
      (more = false → ∀ kv, kv ∈ held t s → kv = k ∨ (rev < kv_ModRevision kv)%Z)
  | Claiming _ _ _ => False
  | Watching rev => newer t rev s
  | ClaimingEvent ev => oldest t ev s
  | _ => True
  end.

Lemma knows_later t p s s' : later t s s' → knows t p s → knows t p s'.
Proof.
  intros (Hh & Hp & Hr).
  assert (∀ k, oldest t k s → oldest t k s') as Hold.
  { intros k (Hk & Hu & Hmin). split; [by apply Hp|]. split; [done|]. intros kv [Hkv|Hkv]%Hh; [by apply Hmin|].
    apply puts_revision in Hk. lia. }
  assert (∀ rev, newer t rev s → newer t rev s') as Hnew.
  { intros rev [Hrev Hn]. split; [lia|]. intros kv [Hkv|Hkv]%Hh; [by apply Hn|lia]. }
  destruct p as [|[|k [|]] more rev|rev|ev|]; cbn; auto.
  intros (Hk & Hrev & Hm). split; [auto|]. split; [lia|]. intros Hf kv [Hkv|Hkv]%Hh; [by apply Hm|right; lia].
Qed.

(** What a reader may delete lies under its own topic. *)
Definition own (p : pc) (t : string) : Prop :=
  match p with
  | Claiming kvs _ _ => Forall (under (queueKey e t)) kvs
  | ClaimingEvent ev => under (queueKey e t) ev
  | _ => True
  end.

(** The invariant: readers of any topic hold keys of their own; those of [t] know what they should. *)
Definition sound (t : string) (st : QState S) : Prop :=
  map_Forall (λ _ c, c.1 ∈ eq_queues e ∧ own c.2 c.1 ∧ (c.1 = t → knows t c.2 (q_etcd st))) (q_consumers st).

(** ** What one request does to the messages of a topic *)

Lemma held_sorted t s : StronglySorted (λ a b, kv_ModRevision a < kv_ModRevision b)%Z (held t s).
Proof. eapply sublist_sorted; [|apply (puts_sorted s)]. etrans; [apply sublist_filter|apply alive_puts]. Qed.

Lemma held_elem t s kv : kv ∈ held t s ↔ kv ∈ alive s ∧ under (queueKey e t) kv.
Proof. unfold held. rewrite list_elem_of_filter. tauto. Qed.

Lemma alive_in_puts s kv : kv ∈ alive s → kv ∈ puts s.
Proof. intros Hk. eapply elem_of_sublist, alive_puts. done. Qed.

Lemma put_outcome t k v s s' ok : txn_put_new k v s = (s', ok) →
  later t s s' ∧
  held t s' = held t s ++ (if ok && String.prefix (queueKey e t) k then [mkKV k v (Revision s')] else []).
Proof.
  intros E. pose proof (txn_put_new_law k v s) as Hl. rewrite E in Hl. case_decide.
  - destruct Hl as [-> ->]. cbn. rewrite app_nil_r. split; [|done]. repeat split; auto; lia.
  - destruct Hl as (-> & Hr & Ha & Hp). assert (held t s' = held t s ++
      (if true && String.prefix (queueKey e t) k then [mkKV k v (Revision s')] else [])) as Hh.
    { unfold held. rewrite Ha, filter_app. f_equal. cbn [andb]. rewrite filter_cons.
      case_decide as Hu; unfold under in Hu; cbn [kv_Key] in Hu; [by rewrite Hu|].
      by destruct (String.prefix (queueKey e t) k). }
    split; [|done]. split; [|split; [|lia]].
    + intros kv. rewrite Hh. intros [Hkv|Hkv]%elem_of_app; [by left|right].
      destruct (true && _); [|by apply elem_of_nil in Hkv]. apply list_elem_of_singleton in Hkv as ->. done.
    + intros kv Hkv _. rewrite Hp. apply elem_of_app. by left.
Qed.

Lemma delete_outcome t k r s s' ok : txn_delete_rev k r s = (s', ok) →
  later t s s' ∧
  (if ok then Exists (λ kv, kv_Key kv = k ∧ kv_ModRevision kv = r) (alive s) ∧
              held t s' = base.filter (λ kv, kv_ModRevision kv ≠ r) (held t s)
   else s' = s ∧ ¬ Exists (λ kv, kv_Key kv = k ∧ kv_ModRevision kv = r) (alive s)).
Proof.
  intros E. pose proof (txn_delete_rev_law k r s) as Hl. rewrite E in Hl. case_decide as Hd.
  - destruct Hl as (-> & Hr & Ha & Hp). assert (held t s' = base.filter (λ kv, kv_ModRevision kv ≠ r) (held t s)) as Hh.
    { unfold held. rewrite Ha, !list_filter_filter. apply list_filter_iff. tauto. }
    split; [|done]. split; [|split; [by rewrite Hp|done]].
    intros kv Hkv. rewrite Hh in Hkv. apply list_elem_of_filter in Hkv as [_ Hkv]. by left.
  - destruct Hl as [-> ->]. split; [|done]. repeat split; auto; lia.
Qed.

(** Keys have one revision. *)
Lemma puts_inj s a b : a ∈ puts s → b ∈ puts s → kv_ModRevision a = kv_ModRevision b → a = b.
Proof.
  intros Ha Hb E. pose proof (puts_sorted s) as Hs. induction Hs as [|x l Hl IH Hx]; [by apply elem_of_nil in Ha|].
  rewrite Forall_forall in Hx. apply elem_of_cons in Ha as [->|Ha], Hb as [->|Hb]; [done|..|by apply IH].
  - specialize (Hx _ Hb). lia.
  - specialize (Hx _ Ha). lia.
Qed.

Lemma filter_ne_head (k : KeyValue) l : StronglySorted (λ a b, kv_ModRevision a < kv_ModRevision b)%Z (k :: l) →
  base.filter (λ kv, kv_ModRevision kv ≠ kv_ModRevision k) (k :: l) = l.
Proof.
  intros [_ Hk]%StronglySorted_inv. rewrite filter_cons_False by tauto. apply list_filter_all.
  intros kv Hkv. rewrite Forall_forall in Hk. specialize (Hk _ Hkv). lia.
Qed.

(** Deleting the oldest message takes the head. *)
Lemma delete_oldest t k s s' : oldest t k s → txn_delete_rev (kv_Key k) (kv_ModRevision k) s = (s', true) →
  held t s = k :: held t s'.
Proof.
  intros (Hk & Hu & Hmin) (_ & Hex & Hh)%(delete_outcome t). apply Exists_exists in Hex as (kv & Hkv & Ek & Er).
  assert (kv = k) as -> by (apply (puts_inj s); [by apply alive_in_puts|done|done]).
  assert (k ∈ held t s) as Hin by (by apply held_elem). rewrite Hh. pose proof (held_sorted t s) as Hs.
  destruct (held t s) as [|x l] eqn:E; [by apply elem_of_nil in Hin|].
  assert (x = k) as ->.
  { apply elem_of_cons in Hin as [->|Hin]; [done|]. apply StronglySorted_inv in Hs as [_ Hx]. rewrite Forall_forall in Hx.
    specialize (Hx _ Hin). specialize (Hmin x ltac:(constructor)). lia. }
  by rewrite filter_ne_head.
Qed.

(** Deleting a message of another topic changes nothing. *)
Lemma delete_foreign t k r s s' ok : String.prefix (queueKey e t) k = false → txn_delete_rev k r s = (s', ok) →
  held t s' = held t s.
Proof.
  intros Hk E. pose proof (delete_outcome t _ _ _ _ _ E) as [_ Hd]. destruct ok; [|by destruct Hd as [-> _]].
  destruct Hd as [Hex ->]. apply Exists_exists in Hex as (kv & Hkv & Ek & Er). apply list_filter_all.
  intros kv' [Hkv' Hu]%held_elem Er'. assert (kv' = kv) as -> by (apply (puts_inj s); [by apply alive_in_puts..|congruence]).
  unfold under in Hu. congruence.
Qed.

Lemma own_excludes t t' k : isolated t → t' ∈ eq_queues e → t' ≠ t → String.prefix (queueKey e t') k = true →
  String.prefix (queueKey e t) k = false.
Proof.
  intros Hi Ht Hne Hk. destruct (String.prefix (queueKey e t) k) eqn:Hu; [|done].
  destruct (Hi t' Ht Hne) as [H1 H2]. destruct (prefix_comparable _ _ _ Hu Hk); congruence.
Qed.

(** ** Steps *)

(** A reader of [t] takes the oldest message or none. *)
Lemma claim_oldest t c r k missing s s' p' : oldest t k s → (∀ res, missing ≠ Returned res) → claim r k missing s = (s', p') →
  later t s s' ∧
  ((∃ res, p' = Returned res) ∨ (p' = missing ∧ s' = s ∧ k ∉ held t s)) ∧
  fifo t (claim_event c t r (ClaimingEvent k) p' s) (kv_Value <$> held t s) = Some (kv_Value <$> held t s').
Proof.
  intros Hold Hmiss. unfold claim, deleteRevKey.
  assert (∀ ok s1, txn_delete_rev (kv_Key k) (kv_ModRevision k) s = (s1, ok) → ok = false → k ∉ held t s) as Hgone.
  { intros ok s1 (_ & Hd)%(delete_outcome t) -> [Hk _]%held_elem. apply Hd, Exists_exists. by exists k. }
  assert (later t s s) as Hrefl by (repeat split; auto; lia).
  destruct r; cbn; [| | |].
  - destruct (txn_delete_rev _ _ s) as [s1 [|]] eqn:E; intros [= <- <-].
    + split; [by apply (delete_outcome t) in E as [? _]|]. split; [left; by eexists|].
      rewrite (delete_oldest t k s s1) by done. cbn. by rewrite !decide_True by done.
    + pose proof (delete_outcome t _ _ _ _ _ E) as (_ & -> & _). split; [done|].
      split; [right; split; [done|]; split; [done|]; by eapply Hgone|]. cbn. destruct missing as [| | | |res]; try done. by destruct (Hmiss res).
  - intros [= <- <-]. split; [done|]. split; [left; by eexists|]. done.
  - destruct (txn_delete_rev _ _ s) as [s1 ok] eqn:E; intros [= <- <-]. cbn.
    split; [by apply (delete_outcome t) in E as [? _]|]. split; [left; by eexists|]. destruct ok.
    + rewrite (delete_oldest t k s s1) by done. cbn. by rewrite !decide_True by done.
    + by pose proof (delete_outcome t _ _ _ _ _ E) as (_ & -> & _).
  - intros [= <- <-]. split; [done|]. split; [left; by eexists|]. done.
Qed.

Lemma get_first_knows t s kvs more : get_first (queueKey e t) s = (kvs, more) →
  Forall (under (queueKey e t)) kvs ∧ knows t (Claiming kvs more (Revision s)) s.
Proof.
  rewrite get_first_law. fold (held t s). intros [= <- <-]. pose proof (held_sorted t s) as Hs.
  destruct (held t s) as [|k l] eqn:E; cbn [take length].
  - split; [constructor|]. intros _. split; [lia|]. intros kv Hkv. by rewrite E in Hkv; apply elem_of_nil in Hkv.
  - assert (k ∈ held t s) as [Hk Hu]%held_elem by (rewrite E; constructor). split; [by repeat constructor|].
    apply StronglySorted_inv in Hs as [_ Hx]. rewrite Forall_forall in Hx. split; [|split; [lia|]].
    + split; [by apply alive_in_puts|]. split; [done|]. intros kv. rewrite E. intros [->|Hkv]%elem_of_cons; [lia|].
      specialize (Hx _ Hkv). lia.
    + intros Hf kv. rewrite E. apply bool_decide_eq_false in Hf. destruct l; [|cbn in Hf; lia].
      intros ->%list_elem_of_singleton. by left.
Qed.

Lemma first_put_oldest t rev s ev : newer t rev s → first_put (queueKey e t) rev s = Some ev → oldest t ev s.
Proof.
  intros [_ Hn]. rewrite first_put_law. set (P := λ kv, under _ kv ∧ (rev ≤ kv_ModRevision kv)%Z).
  assert (StronglySorted (λ a b, kv_ModRevision a < kv_ModRevision b)%Z (base.filter P (puts s))) as Hs
    by (eapply sublist_sorted; [apply sublist_filter|apply puts_sorted]).
  destruct (base.filter P (puts s)) as [|x l] eqn:E; [done|]. intros [= ->].
  assert (ev ∈ base.filter P (puts s)) as [[Hu _] Hp]%list_elem_of_filter by (rewrite E; constructor).
  split; [done|]. split; [done|]. intros kv Hkv. pose proof (Hn _ Hkv). apply held_elem in Hkv as [Ha Hk].
  assert (kv ∈ base.filter P (puts s)) as Hin.
  { apply list_elem_of_filter. split; [split; [done|lia]|by apply alive_in_puts]. }
  rewrite E in Hin. apply StronglySorted_inv in Hs as [_ Hx]. rewrite Forall_forall in Hx.
  apply elem_of_cons in Hin as [->|Hin]; [lia|]. specialize (Hx _ Hin). lia.
Qed.

Lemma later_refl t s : later t s s.
Proof. repeat split; auto; lia. Qed.

Lemma step_reader t c r p s s' p' : knows t p s → Dequeue_step (queueKey e t) r p s = (s', p') →
  knows t p' s' ∧ later t s s' ∧ fifo t (claim_event c t r p p' s) (kv_Value <$> held t s) = Some (kv_Value <$> held t s').
Proof.
  pose proof (later_refl t s) as Hrefl.
  destruct p as [|[|k [|]] more rev|rev|ev|res]; cbn [Dequeue_step knows]; [| |intros Hk Hstep|done|intros Hk|intros Hk Hstep|].
  - intros _. destruct r; intros [= <- <-]; try done. destruct (get_first _ s) as [kvs more] eqn:E.
    split; [by apply get_first_knows|]. by destruct kvs.
  - intros Hk [= <- <-]. split; [destruct more; [done|by apply Hk]|]. by destruct more.
  - destruct Hk as (Hold & Hrev & Hm).
    pose proof (claim_oldest t c r k (Claiming [] more rev) s s' p' Hold ltac:(done) Hstep) as (Hl & Hp & Hf).
    split; [|done]. destruct Hp as [[res ->]|(-> & -> & Hk)]; [done|]. cbn. intros Hmore. split; [done|].
    intros kv Hkv. destruct (Hm Hmore kv Hkv) as [->|]; done.
  - destruct r; intros [= <- <-]; try done. destruct (first_put _ rev s) as [ev|] eqn:E; [|done].
    split; [by eapply first_put_oldest|done].
  - pose proof (claim_oldest t c r ev Getting s s' p' Hk ltac:(done) Hstep) as (Hl & Hp & Hf).
    split; [|done]. by destruct Hp as [[res ->]|(-> & _ & _)].
  - intros _ [= <- <-]. done.
Qed.

Lemma claim_own t r k missing s s' p' : own missing t → claim r k missing s = (s', p') → own p' t.
Proof. unfold claim. destruct (deleteRevKey _ _ _ _) as [s1 [|[|]]]; intros ? [= <- <-]; done. Qed.

Lemma step_own t r p s s' p' : own p t → Dequeue_step (queueKey e t) r p s = (s', p') → own p' t.
Proof.
  destruct p as [|[|k kvs] more rev|rev|ev|]; cbn [Dequeue_step own].
  - intros _. destruct r; intros [= <- <-]; try done. destruct (get_first _ s) as [kvs more] eqn:E.
    by apply get_first_knows in E as [? _].
  - intros _ [= <- <-]. by destruct more.
  - intros [_ Hkvs]%Forall_cons. by apply claim_own.
  - intros _. destruct r; intros [= <- <-]; try done. destruct (first_put _ rev s) as [ev|] eqn:E; [|done].
    rewrite first_put_law in E. apply head_Some_elem_of in E. by apply list_elem_of_filter in E as [[? _] _].
  - intros _. by apply claim_own.
  - intros _ [= <- <-]. done.
Qed.

Lemma claim_foreign t r k missing s s' p' : String.prefix (queueKey e t) (kv_Key k) = false →
  claim r k missing s = (s', p') → later t s s' ∧ held t s' = held t s.
Proof.
  intros Hk. unfold claim, deleteRevKey. destruct r; cbn; [| | |]; try (intros [= <- <-]; split; [apply later_refl|done]).
  - destruct (txn_delete_rev _ _ s) as [s1 ok] eqn:E. intros Heq.
    assert (s' = s1) as -> by (destruct ok; by simplify_eq). split; [by apply (delete_outcome t) in E as [? _]|].
    by eapply delete_foreign.
  - destruct (txn_delete_rev _ _ s) as [s1 ok] eqn:E. intros [= <- <-]. split; [by apply (delete_outcome t) in E as [? _]|].
    by eapply delete_foreign.
Qed.

Lemma step_foreign t t' r p s s' p' : isolated t → t' ∈ eq_queues e → t' ≠ t → own p t' →
  Dequeue_step (queueKey e t') r p s = (s', p') → later t s s' ∧ held t s' = held t s.
Proof.
  intros Hi Ht Hne. assert (later t s s ∧ held t s = held t s) as Hrefl by (split; [apply later_refl|done]).
  destruct p as [|[|k kvs] more rev|rev|ev|]; cbn [Dequeue_step own].
  - intros _. by intros [= <- _].
  - intros _. by intros [= <- _].
  - intros [Hk _]%Forall_cons. eapply claim_foreign; by eapply own_excludes.
  - intros _. by intros [= <- _].
  - intros Hk. eapply claim_foreign; by eapply own_excludes.
  - intros _. by intros [= <- _].
Qed.

Lemma claim_event_foreign t t' c r p p' s q : t' ≠ t → fifo t (claim_event c t' r p p' s) q = Some q.
Proof.
  intros Hne. unfold claim_event. destruct p as [|[|k kvs] ? ?| |ev|], p' as [| | | |[er|v]]; try done;
    try (destruct r; try done; destruct (txn_delete_rev _ _ s).2; [|done]); cbn; by rewrite decide_False.
Qed.

Lemma sound_later t s s' cs : later t s s' → sound t (mkQState s cs) → sound t (mkQState s' cs).
Proof.
  intros Hl Hs c x Hc. destruct (Hs c x Hc) as (Hq & Ho & Hk). split; [done|]. split; [done|].
  intros Ht. cbn in *. by eapply knows_later; [|apply Hk].
Qed.

Lemma unique_key_own p now : String.prefix p (unique_key p now) = true.
Proof. apply app_prefix. Qed.

Lemma put_fifo t t' v now r s : (t' = t ∨ String.prefix (queueKey e t) (unique_key (queueKey e t') now) = false) →
  let s' := (newUniqueKV r (queueKey e t') v now s).1 in
  later t s s' ∧ fifo t (put_event t' (unique_key (queueKey e t') now) v r s) (kv_Value <$> held t s) =
    (if decide (t' = t) then Some (kv_Value <$> held t s') else Some (kv_Value <$> held t s)) ∧
  (t' ≠ t → held t s' = held t s).
Proof.
  intros Ht s'. assert ((newUniqueKV r (queueKey e t') v now s).1 =
    match r with Replied | FailedApplied => (txn_put_new (unique_key (queueKey e t') now) v s).1 | _ => s end) as Es.
  { unfold newUniqueKV, putNewKV. destruct r; cbn; try done. by destruct (txn_put_new _ v s) as [s1 [|]]. }
  subst s'. rewrite Es. clear Es.
  assert (later t s s ∧ fifo t [] (kv_Value <$> held t s) =
    (if decide (t' = t) then Some (kv_Value <$> held t s) else Some (kv_Value <$> held t s)) ∧
    (t' ≠ t → held t s = held t s)) as Hnothing by (split; [apply later_refl|]; split; [by case_decide|done]).
  assert (∀ s1 ok, txn_put_new (unique_key (queueKey e t') now) v s = (s1, ok) → later t s s1 ∧
    fifo t (if ok then [Enqueued t' v] else []) (kv_Value <$> held t s) =
    (if decide (t' = t) then Some (kv_Value <$> held t s1) else Some (kv_Value <$> held t s)) ∧
    (t' ≠ t → held t s1 = held t s)) as Hput.
  { intros s1 ok [Hl Hh]%(put_outcome t). split; [done|]. rewrite Hh.
    destruct Ht as [->|Hf]; [rewrite unique_key_own, decide_True by done|rewrite Hf, andb_false_r, app_nil_r].
    - split; [|done]. destruct ok; cbn; [|by rewrite app_nil_r]. by rewrite decide_True, fmap_app by done.
    - split; [|done]. destruct ok; cbn; [|by case_decide]. case_decide as Hd; [|done]. subst t'.
      by rewrite unique_key_own in Hf. }
  destruct r; cbn [put_event]; try exact Hnothing;
    (destruct (txn_put_new _ v s) as [s1 ok] eqn:E; exact (Hput s1 ok eq_refl)).
Qed.

Lemma act_fifo t a st st' evs : isolated t → quiet t a → sound t st → act e a st = (st', evs) →
  sound t st' ∧ fifo t evs (contents t st) = Some (contents t st').
Proof.
  intros Hi Hq Hs. destruct st as [s cs]. destruct a as [t' v now r|c t'|c r|f]; cbn [act q_etcd q_consumers].
  - destruct (supported e t') eqn:Hsup; [|by intros [= <- <-]]. intros [= <- <-]. cbn.
    apply andb_prop in Hsup as [_ Hsup%bool_decide_eq_true].
    assert (t' = t ∨ String.prefix (queueKey e t) (unique_key (queueKey e t') now) = false) as Ht.
    { destruct (decide (t' = t)) as [|Hne]; [by left|right]. apply (own_excludes t t'); [done..|]. apply unique_key_own. }
    destruct (put_fifo t t' v now r s Ht) as (Hl & Hf & Hh). split; [by eapply sound_later|]. unfold contents. cbn.
    rewrite Hf. case_decide as Hd; [done|]. by rewrite Hh.
  - destruct (supported e t') eqn:Hsup; intros [= <- <-]; [|done]. split; [|done].
    apply andb_prop in Hsup as [_ Hsup%bool_decide_eq_true]. apply map_Forall_insert_2; [|exact Hs]. done.
  - destruct (cs !! c) as [[t' p]|] eqn:Hc; [|by intros [= <- <-]]. destruct (Dequeue_step _ r p s) as [s' p'] eqn:E.
    intros [= <- <-]. destruct (Hs c _ Hc) as (Hin & Hown & Hk). cbn in *. unfold contents. cbn.
    assert (own p' t') as Hown' by (by eapply step_own).
    destruct (decide (t' = t)) as [->|Hne].
    + destruct (step_reader t c r p s s' p' (Hk eq_refl) E) as (Hk' & Hl & Hf). split; [|done].
      apply map_Forall_insert_2; [done|]. exact (sound_later t s s' cs Hl Hs).
    + destruct (step_foreign t t' r p s s' p' Hi Hin Hne Hown E) as [Hl Hh]. rewrite claim_event_foreign, Hh by done.
      split; [|done]. apply map_Forall_insert_2; [done|]. exact (sound_later t s s' cs Hl Hs).
  - intros [= <- <-]. destruct (Hq s) as (Hh & Hp & Hr). unfold contents. cbn.
    split; [|do 2 f_equal; symmetry; exact Hh]. apply (sound_later t s); [|exact Hs]. split; [|by split]. intros kv Hkv. left. rewrite <- Hh. exact Hkv.
Qed.

Lemma fifo_app t l l' q : fifo t (l ++ l') q = q' ← fifo t l q; fifo t l' q'.
Proof.
  revert q. induction l as [|[t' v|c t' v|t' v] l IH]; intros q; cbn; [done|apply IH|..];
    (case_decide; [|apply IH]); destruct q; [done| |done|]; (case_decide; [apply IH|done]).
Qed.

Lemma run_fifo t l st st' evs : isolated t → Forall (quiet t) l → sound t st → run e l st = (st', evs) →
  sound t st' ∧ fifo t evs (contents t st) = Some (contents t st').
Proof.
  intros Hi Hl. revert st st' evs. induction Hl as [|a l Ha Hl IH]; intros st st' evs Hs; cbn; [by intros [= <- <-]|].
  destruct (act e a st) as [st1 ev1] eqn:E1, (run e l st1) as [st2 ev2] eqn:E2. intros [= <- <-].
  destruct (act_fifo t a st st1 ev1 Hi Ha Hs E1) as [Hs1 Hf1]. destruct (IH st1 st2 ev2 Hs1 E2) as [Hs2 Hf2].
  split; [done|]. rewrite fifo_app, Hf1. exact Hf2.
Qed.

Lemma sound_empty t s : sound t (mkQState s ∅).
Proof. apply map_Forall_empty. Qed.

(** C32 (refinement): whatever writers, readers and failures do and in whatever
    order, a topic whose name no other topic's begins with is one list: puts go to
    its end, and what a reader returns, or loses to a failed request, is its head
    at that moment; no message is returned twice. *)
Theorem queue_is_fifo t l s st' evs (Hi : isolated t) (Hq : Forall (quiet t) l)
    (Hrun : run e l (mkQState s ∅) = (st', evs)) :
  fifo t evs (contents t (mkQState s ∅)) = Some (contents t st').
Proof. by apply (run_fifo t l _ st' evs Hi Hq (sound_empty t s)). Qed.

(** ** A reader on its own *)

(** [n] steps of a reader that are all answered, while nobody else does anything. *)
Fixpoint solo (n : nat) (t : string) (p : pc) (s : S) : S * pc :=
  match n with
  | O => (s, p)
  | Datatypes.S n' => let '(s', p') := Dequeue_step (queueKey e t) Replied p s in solo n' t p' s'
  end.

Lemma solo_run t c n p s cs : cs !! c = Some (t, p) →
  ∃ evs cs', run e (replicate n (AStep c Replied)) (mkQState s cs) = (mkQState (solo n t p s).1 cs', evs) ∧
             cs' !! c = Some (t, (solo n t p s).2).
Proof.
  revert p s cs. induction n as [|n IH]; intros p s cs Hc; cbn; [by eexists _, cs|].
  rewrite Hc. destruct (Dequeue_step _ Replied p s) as [s' p'].
  destruct (IH p' s' (<[c := (t, p')]> cs)) as (evs & cs' & -> & Hc'); [by rewrite lookup_insert, decide_True|].
  by eexists _, cs'.
Qed.

Lemma solo_returned n t res s : solo n t (Returned res) s = (s, Returned res).
Proof. by induction n. Qed.

(** The head is returned within [n] steps. *)
Definition gets (t : string) (n : nat) (p : pc) (s : S) : Prop :=
  ∀ m k l, n ≤ m → held t s = k :: l → ∃ s', solo m t p s = (s', Returned (inr (kv_Value k))) ∧ held t s' = l.

Lemma gets_step t n p s s' p' : Dequeue_step (queueKey e t) Replied p s = (s', p') → held t s' = held t s →
  gets t n p' s' → gets t (Datatypes.S n) p s.
Proof.
  intros E Hh Hg m k l Hm Hk. destruct m as [|m]; [lia|]. cbn. rewrite E. apply Hg; [lia|]. by rewrite Hh.
Qed.

Lemma gets_claim t n k0 p missing s : oldest t k0 s → (∀ r, Dequeue_step (queueKey e t) r p s = claim r k0 missing s) →
  gets t n missing s → gets t (Datatypes.S n) p s.
Proof.
  intros Hold Hp Hg m k l Hm Hk. destruct m as [|m]; [lia|]. cbn. rewrite Hp. unfold claim, deleteRevKey.
  destruct (txn_delete_rev _ _ s) as [s1 [|]] eqn:E.
  - rewrite solo_returned. pose proof (delete_oldest t k0 s s1 Hold E) as Hh. rewrite Hk in Hh. simplify_eq. by exists s1.
  - destruct (delete_outcome t _ _ _ _ _ E) as (_ & -> & _). apply Hg; [lia|done].
Qed.

Lemma gets_getting t s : gets t 2 Getting s.
Proof.
  intros m k l Hm Hk. destruct m as [|m]; [lia|]. cbn. destruct (get_first _ s) as [kvs more] eqn:E.
  pose proof (get_first_knows t s kvs more E) as [_ Hkn]. rewrite get_first_law in E. fold (held t s) in E. rewrite Hk in E.
  cbn in E. simplify_eq. destruct Hkn as (Hold & _). destruct m as [|m]; [lia|]. cbn. unfold claim, deleteRevKey.
  destruct (txn_delete_rev _ _ s) as [s1 [|]] eqn:E.
  - rewrite solo_returned. pose proof (delete_oldest t k s s1 Hold E) as Hh. rewrite Hk in Hh. simplify_eq. by exists s1.
  - destruct (delete_outcome t _ _ _ _ _ E) as (_ & -> & Hno). destruct Hno. apply Exists_exists. exists k. split; [|done].
    apply (held_elem t). rewrite Hk. constructor.
Qed.

Lemma gets_watching t rev s : newer t rev s → gets t 4 (Watching rev) s.
Proof.
  intros Hn m k l Hm Hk. destruct (first_put (queueKey e t) rev s) as [ev|] eqn:E.
  - apply (gets_step t 3 _ s s (ClaimingEvent ev)); [by cbn; rewrite E|done| |done|done].
    eapply gets_claim; [by eapply first_put_oldest|done|apply gets_getting].
  - rewrite first_put_law in E. assert (k ∈ held t s) as Hin by (rewrite Hk; constructor).
    apply Hn in Hin as Hr. apply held_elem in Hin as [Ha Hu].
    assert (k ∈ base.filter (λ kv, under (queueKey e t) kv ∧ (rev ≤ kv_ModRevision kv)%Z) (puts s)) as Hf.
    { apply list_elem_of_filter. split; [split; [done|lia]|by apply alive_in_puts]. }
    destruct (base.filter _ (puts s)); [by apply elem_of_nil in Hf|done].
Qed.

Lemma gets_head t p s : knows t p s → (∀ res, p ≠ Returned res) → gets t 6 p s.
Proof.
  assert (∀ n p s, n ≤ 6 → gets t n p s → gets t 6 p s) as Hle.
  { intros n p0 s0 Hn Hg m k l Hm Hk. apply Hg; [lia|done]. }
  assert (∀ more rev, knows t (Claiming [] more rev) s → gets t 5 (Claiming [] more rev) s) as Hnil.
  { intros [|] rev Hk.
    - intros m k l Hm Hh. apply (gets_step t 2 _ s s Getting); [done|done|apply gets_getting|lia|done].
    - apply (gets_step t 4 _ s s (Watching rev)); [done|done|]. apply gets_watching. by apply Hk. }
  destruct p as [|[|k [|]] more rev|rev|ev|res]; intros Hk Hp.
  - apply (Hle 2); [lia|]. apply gets_getting.
  - apply (Hle 5); [lia|]. by apply Hnil.
  - destruct Hk as (Hold & Hrev & Hm).
    destruct (decide (k ∈ held t s)) as [Hin|Hout].
    + intros m k' l Hm' Hh. destruct m as [|m]; [lia|]. cbn. unfold claim, deleteRevKey.
      destruct (txn_delete_rev _ _ s) as [s1 [|]] eqn:E.
      * rewrite solo_returned. pose proof (delete_oldest t k s s1 Hold E) as Hh'. rewrite Hh in Hh'. simplify_eq. by exists s1.
      * destruct (delete_outcome t _ _ _ _ _ E) as (_ & -> & Hno). destruct Hno. apply Exists_exists. exists k.
        split; [|done]. by apply held_elem in Hin as [? _].
    + eapply gets_claim; [done|done|]. apply Hnil. intros Hf. split; [done|]. intros kv Hkv.
      destruct (Hm Hf kv Hkv) as [->|]; done.
  - done.
  - apply (Hle 4); [lia|]. by apply gets_watching.
  - apply (Hle 3); [lia|]. eapply gets_claim; [done|done|apply gets_getting].
  - by destruct (Hp res).
Qed.

(** C33 (liveness): at any moment, a reader that has not returned and is the only
    one to act has the oldest message of its topic after six requests that are
    answered, whatever went on before, if no other topic of the queue begins with the
    name of this one or the other way round ([isolated]: the keys of a topic are those
    with its name as prefix, and topics that overlap take each other's messages, [topics_clash])
    and other users of etcd have left the messages of the topic alone ([quiet]). *)
Theorem reader_gets_head t c p l s st evs v q (Hi : isolated t) (Hq : Forall (quiet t) l)
    (Hrun : run e l (mkQState s ∅) = (st, evs)) (Hc : q_consumers st !! c = Some (t, p)) (Hp : ∀ res, p ≠ Returned res)
    (Hv : contents t st = v :: q) :
  ∃ st' evs', run e (replicate 6 (AStep c Replied)) st = (st', evs') ∧
    q_consumers st' !! c = Some (t, Returned (inr v)) ∧ contents t st' = q.
Proof.
  destruct (run_fifo t l _ st evs Hi Hq (sound_empty t s) Hrun) as [Hs _]. destruct st as [s1 cs]. unfold contents in *.
  cbn in *. destruct (Hs c _ Hc) as (_ & _ & Hk). destruct (held t s1) as [|k l'] eqn:Hh; [done|].
  cbn in Hv. injection Hv as <- <-. destruct (gets_head t p s1 (Hk eq_refl) Hp 6 k l' ltac:(lia) Hh) as (s2 & E & Hh2).
  destruct (solo_run t c 6 p s1 cs Hc) as (evs' & cs' & Hr & Hc'). rewrite E in Hr, Hc'. eexists _, _.
  split; [exact Hr|]. cbn. by rewrite Hh2.
Qed.

(** ** Tasks *)

Definition sent (t : string) : list Event → list string :=
  omap (λ ev, match ev with Enqueued t' v => if decide (t' = t) then Some v else None | _ => None end).
Definition taken (t : string) : list Event → list string :=
  omap (λ ev, match ev with Dequeued _ t' v | Dropped t' v => if decide (t' = t) then Some v else None | _ => None end).

Lemma fifo_split t evs q q' : fifo t evs q = Some q' → q ++ sent t evs = taken t evs ++ q'.
Proof.
  revert q. induction evs as [|[t' v|c t' v|t' v] evs IH]; intros q; cbn; [intros [= ->]; by rewrite app_nil_r| |..].
  - intros E%IH. case_decide; [by rewrite <- app_assoc in E|exact E].
  - case_decide; [|apply IH]. destruct q as [|x q]; [done|]. case_decide as Hx; [subst|done].
    intros E%IH. exact (f_equal (cons v) E).
  - case_decide; [|apply IH]. destruct q as [|x q]; [done|]. case_decide as Hx; [subst|done].
    intros E%IH. exact (f_equal (cons v) E).
Qed.

Lemma act_enqueued a st st' evs t v : act e a st = (st', evs) → Enqueued t v ∈ evs →
  ∃ now r, a = AEnqueue t v now r.
Proof.
  destruct a as [t' v' now r|c t'|c r|f]; cbn [act].
  - destruct (supported e t'); [|by intros [= <- <-] ?%elem_of_nil]. intros [= <- <-] Hin. unfold put_event in Hin.
    assert (∀ b : bool, Enqueued t v ∈ (if b then [Enqueued t' v'] else []) →
      ∃ now0 r0, AEnqueue (S := S) t' v' now r = AEnqueue t v now0 r0) as Hb.
    { intros [|] Hx; [|by apply elem_of_nil in Hx]. apply list_elem_of_singleton in Hx. simplify_eq. by eexists _, _. }
    destruct r; try (by apply elem_of_nil in Hin); by apply Hb in Hin.
  - by intros [= <- <-] ?%elem_of_nil.
  - destruct (q_consumers st !! c) as [[t' p]|]; [|by intros [= <- <-] ?%elem_of_nil].
    destruct (Dequeue_step _ r p _) as [s' p']. intros [= <- <-] Hin. exfalso. unfold claim_event in Hin.
    assert (∀ k, Enqueued t v ∉ [Dequeued c t' k]) as Hd by (by intros k ?%list_elem_of_singleton).
    assert (∀ (b : bool) k, Enqueued t v ∉ (if b then [Dropped t' k] else [])) as Hx
      by (intros [|] k Hk; [by apply list_elem_of_singleton in Hk|by apply elem_of_nil in Hk]).
    destruct p as [|[|k kvs] ? ?| |ev|], p' as [| | | |[er|u]]; try (by apply elem_of_nil in Hin); try (by apply Hd in Hin);
      destruct r; try (by apply elem_of_nil in Hin); by apply Hx in Hin.
  - by intros [= <- <-] ?%elem_of_nil.
Qed.

Lemma run_enqueued l st st' evs t v : run e l st = (st', evs) → Enqueued t v ∈ evs →
  ∃ now r, AEnqueue t v now r ∈ l.
Proof.
  revert st st' evs. induction l as [|a l IH]; intros st st' evs; cbn; [by intros [= <- <-] ?%elem_of_nil|].
  destruct (act e a st) as [st1 ev1] eqn:E1, (run e l st1) as [st2 ev2] eqn:E2. intros [= <- <-] [Hin|Hin]%elem_of_app.
  - destruct (act_enqueued _ _ _ _ _ _ E1 Hin) as (now & r & ->). exists now, r. constructor.
  - destruct (IH _ _ _ E2 Hin) as (now & r & Ha). exists now, r. by constructor.
Qed.

Context `{ProtoLaws}.

(** A value that [SendBuilderTopic] gave for a task of a topic. *)
Definition task_value (t v : string) (ts : TaskStruct) (now : string) : Prop :=
  ts_Topic ts = t ∧ ∃ id, SendBuilderTopic e now id ts = inr v.

Lemma task_value_message t v ts now : task_value t v ts now →
  ∃ id body, ts_TaskBody ts = Some body ∧
    server_message v = inr (mkPbMessage id (mkMessage (ts_TaskType ts) body now "kato")).
Proof.
  intros [Ht [id Hs]]. unfold SendBuilderTopic, buildTask in Hs. destruct (ts_TaskBody ts) as [body|]; [|done].
  unfold server_value in Hs. cbn in Hs. destruct (supported e (ts_Topic ts)); [|done]. cbn in Hs.
  destruct (Marshal _) as [v'|] eqn:Em; [|done]. injection Hs as ->. exists id, body. split; [done|].
  unfold server_message. by rewrite (unmarshal_marshal _ _ Em).
Qed.

(** C34 (roundtrip): when only tasks are sent to a topic that was empty, no other
    topic overlaps it ([isolated]) and other users of etcd leave its messages alone
    ([quiet]), what readers have taken and what is queued make up what was sent, in
    order, and every message a reader returns decodes to the type and body of a
    task of that topic. *)
Theorem tasks_arrive_in_order t l s st evs (Hi : isolated t) (Hq : Forall (quiet t) l) (Hempty : held t s = [])
    (Htasks : ∀ v now r, AEnqueue t v now r ∈ l → ∃ ts time, task_value t v ts time)
    (Hrun : run e l (mkQState s ∅) = (st, evs)) :
  sent t evs = taken t evs ++ contents t st ∧
  ∀ c v, Dequeued c t v ∈ evs → ∃ ts time id body, ts_Topic ts = t ∧ ts_TaskBody ts = Some body ∧
    server_message v = inr (mkPbMessage id (mkMessage (ts_TaskType ts) body time "kato")).
Proof.
  destruct (run_fifo t l _ st evs Hi Hq (sound_empty t s) Hrun) as [_ Hf]. unfold contents in Hf at 1. cbn in Hf.
  rewrite Hempty in Hf. apply fifo_split in Hf. cbn in Hf. split; [done|]. intros c v Hd.
  assert (v ∈ sent t evs) as Hv.
  { rewrite Hf. apply elem_of_app. left. apply list_elem_of_omap. eexists. split; [exact Hd|]. cbn. by rewrite decide_True by done. }
  apply list_elem_of_omap in Hv as ([t' v'| |] & Hin & Hv); try done. case_decide; [|done]. simplify_eq.
  destruct (run_enqueued _ _ _ _ _ _ Hrun Hin) as (now & r & Ha). destruct (Htasks _ _ _ Ha) as (ts & time & Htv).
  destruct (task_value_message _ _ _ _ Htv) as (id & body & Hb & Hm). exists ts, time, id, body. by split; [apply Htv|].
Qed.
End spec.

(** ** Examples *)

Definition demo_queue : etcdQueue := Start [] (mkEtcdQueue "/mq" []).
Definition empty_etcd : RefEtcd := mkRefEtcd [].

Lemma demo_isolated : isolated demo_queue WorkerTopic.
Proof.
  intros t Ht%list_elem_of_In Hne. vm_compute in Ht.
  destruct Ht as [<-|[<-|[<-|[]]]]; [split; vm_compute; reflexivity..|by destruct Hne].
Qed.

(** Two readers see the same message; one gets it, the other watches and is told of it again. *)
Definition demo_race : list (Action RefEtcd) :=
  [AEnqueue WorkerTopic "a" 1 Replied; ADequeue 1 WorkerTopic; ADequeue 2 WorkerTopic; AStep 1 Replied; AStep 2 Replied;
   AStep 2 Replied; AStep 1 Replied; AStep 1 Replied; AStep 1 Replied; AEnqueue WorkerTopic "b" 2 Replied;
   AEnqueue WorkerTopic "c" 2 Replied; AEnqueue BuilderTopic "d" 2 Replied].

Example demo_race_run :
  let '(st, evs) := run demo_queue demo_race (mkQState empty_etcd ∅) in
  evs = [Enqueued WorkerTopic "a"; Dequeued 2 WorkerTopic "a"; Enqueued WorkerTopic "b"; Enqueued BuilderTopic "d"]%string ∧
  q_consumers st !! 1 = Some (WorkerTopic, ClaimingEvent (mkKV "/mq/worker/1" "a" 1)).
Proof. vm_compute. split; reflexivity. Qed.

(** A topic whose name another one begins with gets the messages of both. *)
Example topics_clash :
  let e := Start ["work"%string] (mkEtcdQueue "/mq" []) in
  (run e [AEnqueue WorkerTopic "a" 1 Replied; ADequeue 1 "work"; AStep 1 Replied; AStep 1 Replied]%string
     (mkQState empty_etcd ∅)).2 = [Enqueued WorkerTopic "a"; Dequeued 1 "work" "a"]%string.
Proof. vm_compute. reflexivity. Qed.

(** A message goes when its deletion is carried out, answered or not. *)
Example answer_lost :
  (run demo_queue [AEnqueue WorkerTopic "a" 1 Replied; ADequeue 1 WorkerTopic; AStep 1 Replied; AStep 1 FailedApplied]%string
     (mkQState empty_etcd ∅)).2 = [Enqueued WorkerTopic "a"; Dropped WorkerTopic "a"]%string.
Proof. vm_compute. reflexivity. Qed.

Lemma demo_quiet (l : list (Action RefEtcd)) : Forall (λ a, match a with AOther _ => False | _ => True end) l →
  Forall (quiet demo_queue WorkerTopic) l.
Proof. intros Hl. eapply Forall_impl; [exact Hl|]. by intros []. Qed.

Definition demo_result : QState RefEtcd * list Event := run demo_queue demo_race (mkQState empty_etcd ∅).

Lemma queue_is_fifo_witness : fifo WorkerTopic demo_result.2 [] = Some ["b"%string].
Proof.
  refine (eq_trans (queue_is_fifo demo_queue WorkerTopic demo_race empty_etcd demo_result.1 demo_result.2
    demo_isolated (demo_quiet demo_race _) (surjective_pairing _)) _); [repeat constructor|vm_compute; reflexivity].
Defined.

Lemma reader_gets_head_witness :
  ∃ st' evs', run demo_queue (replicate 6 (AStep 1 Replied)) demo_result.1 = (st', evs') ∧
    q_consumers st' !! 1 = Some (WorkerTopic, Returned (inr "b"%string)) ∧ contents demo_queue WorkerTopic st' = [].
Proof.
  refine (reader_gets_head demo_queue WorkerTopic 1 (ClaimingEvent (mkKV "/mq/worker/1" "a" 1)) demo_race empty_etcd
    demo_result.1 demo_result.2 "b"%string [] demo_isolated (demo_quiet demo_race _) (surjective_pairing _) _ _ _);
    [repeat constructor|vm_compute; reflexivity|done|vm_compute; reflexivity].
Defined.

Definition demo_start : TaskStruct := mkTaskStruct WorkerTopic "start" (Some "{}"%string).
Definition demo_pb : PbTaskMessage := mkPbMessage "id" (mkMessage "start" "{}" "now" "kato").

(** Knows the one message of the example. *)
#[local] Instance demo_proto : Proto := {
  Marshal m := if decide (pb_TaskId m = "id" ∧ tm_TaskType (pb_Message m) = "start" ∧ tm_TaskBody (pb_Message m) = "{}" ∧
                          tm_CreateTime (pb_Message m) = "now" ∧ tm_User (pb_Message m) = "kato")%string
               then Some "m"%string else None;
  Unmarshal_proto s := if decide (s = "m"%string) then Some demo_pb else None
}.
#[local] Instance demo_proto_laws : ProtoLaws.
Proof.
  split. intros [id [ty b c u]] s. unfold Marshal, Unmarshal_proto. cbn.
  case_decide as Hd; [|done]. intros [= <-]. destruct Hd as (-> & -> & -> & -> & ->). done.
Qed.

Definition demo_sends : list (Action RefEtcd) :=
  [AEnqueue WorkerTopic "m" 1 Replied; ADequeue 1 WorkerTopic; AStep 1 Replied; AStep 1 Replied].

Definition demo_sent : QState RefEtcd * list Event := run demo_queue demo_sends (mkQState empty_etcd ∅).

Lemma tasks_arrive_in_order_witness :
  ∃ ts time id body, ts_Topic ts = WorkerTopic ∧ ts_TaskBody ts = Some body ∧
    server_message "m" = inr (mkPbMessage id (mkMessage (ts_TaskType ts) body time "kato")).
Proof.
  refine (proj2 (tasks_arrive_in_order demo_queue WorkerTopic demo_sends empty_etcd demo_sent.1 demo_sent.2
    demo_isolated (demo_quiet demo_sends _) _ _ (surjective_pairing _)) 1 "m"%string _).
  - repeat constructor.
  - vm_compute. reflexivity.
  - intros v now r Hin. exists demo_start, "now"%string. split; [done|]. exists "id"%string.
    apply list_elem_of_In in Hin. destruct Hin as [[= <- <- <-]|[Hin|[Hin|[Hin|[]]]]]; [vm_compute; reflexivity|discriminate..].
  - vm_compute. repeat constructor.
Defined.
