(* ===== verification/Operation.v ===== *)
(** * Operations on a component

    [api/handler/service_operation.go]: building, starting, stopping, upgrading
    and rolling back a component; [api/util/events.go]: the events that record
    them; and the events of a batch ([api/controller/batch_operation.go]). *)
From S2P Require Import Prelude Task ComponentRows ApiDao.
From stdpp Require Import pretty.

(** [time.RFC3339], in seconds. *)
Class Rfc3339 := { Format : Z → string; Parse : string → option Z }.
Class Rfc3339Laws `{Rfc3339} : Prop := { parse_format t : Parse (Format t) = Some t }.

(** [OperationResult] *)
Record OperationResult := mkOperationResult {
  or_Operation : string; or_ServiceID : string; or_DeployVersion : string; or_EventID : string; or_Status : string;
  or_ErrMsg : string }.
#[export] Instance eta_OperationResult : Eta OperationResult := λ r,
  mkOperationResult (or_Operation r) (or_ServiceID r) (or_DeployVersion r) (or_EventID r) (or_Status r) (or_ErrMsg r).

(** ** Requests: [api/model/model.go] *)

Record BuildImageInfo := mkImageInfo { bi_ImageURL : string; bi_User : string; bi_Password : string; bi_Cmd : string }.
Record BuildCodeInfo := mkCodeInfo {
  bc_RepoURL : string; bc_Branch : string; bc_Lang : string; bc_ServerType : string; bc_Runtime : string;
  bc_User : string; bc_Password : string; bc_Cmd : string }.
(** The environment and the settings of a build, and where a slug is, are only passed on. *)
Record BuildInfoRequestStruct := mkBuildInfo {
  br_Kind : string; br_Action : string; br_EventID : string; br_PlanVersion : string; br_DeployVersion : string;
  br_Operator : string; br_ImageInfo : BuildImageInfo; br_CodeInfo : BuildCodeInfo; br_TenantName : string;
  br_ServiceID : string }.
#[export] Instance eta_BuildInfo : Eta BuildInfoRequestStruct := λ r,
  mkBuildInfo (br_Kind r) (br_Action r) (br_EventID r) (br_PlanVersion r) (br_DeployVersion r) (br_Operator r)
    (br_ImageInfo r) (br_CodeInfo r) (br_TenantName r) (br_ServiceID r).
Record UpgradeInfoRequestStruct := mkUpgradeInfo {
  ur_UpgradeVersion : string; ur_EventID : string; ur_ServiceID : string; ur_Configs : gmap string string }.
#[export] Instance eta_UpgradeInfo : Eta UpgradeInfoRequestStruct := λ r,
  mkUpgradeInfo (ur_UpgradeVersion r) (ur_EventID r) (ur_ServiceID r) (ur_Configs r).
Record RollbackInfoRequestStruct := mkRollbackInfo {
  rr_RollBackVersion : string; rr_EventID : string; rr_ServiceID : string }.
Record StartOrStopInfoRequestStruct := mkStartInfo {
  sr_EventID : string; sr_ServiceID : string; sr_Configs : gmap string string; sr_DepServiceIDInBootSeq : list string }.
#[export] Instance eta_StartInfo : Eta StartOrStopInfoRequestStruct := λ r,
  mkStartInfo (sr_EventID r) (sr_ServiceID r) (sr_Configs r) (sr_DepServiceIDInBootSeq r).

Section operation.
Context `{ApiEnv}.

(** ** Data access: [db/mysql/dao] *)

Definition Service_UpdateModel (service : ServiceRow) : M World unit := Save Pool service.

Definition VersionInfo_AddModel (result : VersionRow) : M World unit :=
  ok ← RecordNotFound Pool (λ r, vir_BuildVersion r = vir_BuildVersion result ∧ vir_ServiceID r = vir_ServiceID result);
  if (ok : bool) then Create Pool result else fail (EMsg "record already exists").

Definition GetVersionByDeployVersion (version serviceID : string) : M World VersionRow :=
  Find_one Pool (λ r, vir_BuildVersion r = version ∧ vir_ServiceID r = serviceID).

Definition GetLabelByNodeSelectorKey (serviceID labelValue : string) : M World LabelRow :=
  Find_one Pool (λ r, lbr_ServiceID r = serviceID ∧ lbr_LabelKey r = "node-selector"%string ∧ lbr_LabelValue r = labelValue).

(** [EventDaoImpl]; [update] there is a pointer to a pointer, which gorm follows. *)
Definition Event_UpdateModel (update : EventRow) : M World unit :=
  r ← catch (Find_one Pool (λ r, evr_EventID r = evr_EventID update));
  match r with
  | inl ERecordNotFound => mret ()
  | inl _ => Save Pool (update <| evr_ID := 0%Z |>)
  | inr old => Save Pool (update <| evr_ID := evr_ID old |>)
  end.

Definition Event_AddModel (result : EventRow) : M World unit :=
  ok ← RecordNotFound Pool (λ r, evr_EventID r = evr_EventID result);
  if (ok : bool) then Create Pool result else Event_UpdateModel result.

Definition GetEventByEventID (eventID : string) : M World EventRow := Find_one Pool (λ r, evr_EventID r = eventID).

(** [Last]: the greatest primary key. *)
Definition latest (r : EventRow) (old : option EventRow) : option EventRow :=
  match old with Some o => if decide (evr_ID o < evr_ID r)%Z then Some r else Some o | None => Some r end.

Definition GetLastASyncEvent (target targetID : string) : M World EventRow :=
  l ← Find Pool (λ r, evr_Target r = target ∧ evr_TargetID r = targetID ∧ evr_SynType r = 0%Z);
  match foldr latest None l with Some r => mret r | None => fail ERecordNotFound end.

(** ** Events: [api/util/events.go] *)

Definition ASYNEVENTTYPE : Z := 0.
Definition SYNEVENTTYPE : Z := 1.
Definition TargetTypeService : string := "service".

Context `{Rfc3339} (now : Z).

Definition three_minutes : Z := 180.

(** Whether a last event that has not ended may be passed over. *)
Definition checkTimeout (event : EventRow) : M World bool :=
  if decide (evr_SynType event = ASYNEVENTTYPE ∧ evr_FinalStatus event = ""%string) then
    match Parse (evr_StartTime event) with
    | None => mret false
    | Some start =>
      if decide (start + three_minutes < now)%Z then
        r ← catch (Event_UpdateModel (event <| evr_FinalStatus := "timeout"%string |>));
        mret (match r with inr _ => true | inl _ => false end)
      else mret false
    end
  else mret true.

Definition CanDoEvent (synType : Z) (target targetID : string) : M World bool :=
  if decide (synType = SYNEVENTTYPE) then mret true else
  r ← catch (GetLastASyncEvent target targetID);
  match r with
  | inl ERecordNotFound => mret true
  | inl _ => mret false
  | inr event =>
    if decide (evr_FinalStatus event ≠ ""%string) then mret true else checkTimeout event
  end.

Definition CreateEvent (target optType targetID tenantID reqBody userName : string) (synType : Z) : M World EventRow :=
  uuid ← (λ w, (w <| w_ids ::= S |>, Ok (NewUUID (w_ids w))));
  let event := mkEventRow 0 uuid tenantID target targetID (String.substring 0 1024 reqBody) userName (Format now) ""
                 optType synType "" "" "" "" in
  _ ← Event_AddModel event; mret event.

(** The first try, and two more. *)
Fixpoint update_again (tries : nat) (event : EventRow) : M World unit :=
  match tries with
  | O => mret ()
  | S tries' =>
    r ← catch (Event_UpdateModel event);
    match r with inr _ => mret () | inl _ => update_again tries' event end
  end.

Definition UpdateEvent (eventID : string) (statusCode : Z) : M World unit :=
  r ← catch (GetEventByEventID eventID);
  match r with
  | inl _ => mret ()
  | inr event => update_again 3 (event <| evr_FinalStatus := "complete"%string |> <| evr_EndTime := Format now |>
      <| evr_Status := (if decide (statusCode < 400)%Z then "success" else "failure")%string |>)
  end.

(** ** Messages *)

Definition send (t : SentTask) : M World unit := λ w,
  match queue_error t with
  | Some e => (w, Err e)
  | None => (w <| w_tasks ::= λ l, l ++ [t] |>, Ok ())
  end.

Definition isWindowsService (serviceID : string) : M World bool :=
  r ← catch (GetLabelByNodeSelectorKey serviceID "windows"); mret (match r with inr _ => true | inl _ => false end).

Definition sendBuildTopic (serviceID taskType : string) (body : gmap string string) : M World unit :=
  windows ← isWindowsService serviceID;
  send (SentBuild (mkBuildTask (if (windows : bool) then "windows_builder" else "builder")%string taskType body)).

(** Name and password, if both are there. *)
Definition with_login (user password : string) (body : gmap string string) : gmap string string :=
  if decide (user ≠ "" ∧ password ≠ "")%string then <["user" := user]> (<["password" := password]> body)%string else body.

Definition buildFromImage (r : BuildInfoRequestStruct) (service : ServiceRow) : M World unit :=
  if decide (bi_ImageURL (br_ImageInfo r) = "" ∨ br_DeployVersion r = "")%string
  then fail (EMsg "build from image failure, args error")
  else sendBuildTopic (svr_ServiceID service) "build_from_image" (with_login (bi_User (br_ImageInfo r)) (bi_Password (br_ImageInfo r))
    {["image" := bi_ImageURL (br_ImageInfo r); "service_id" := svr_ServiceID service; "deploy_version" := br_DeployVersion r;
      "namespace" := svr_Namespace service; "event_id" := br_EventID r; "tenant_name" := br_TenantName r;
      "service_alias" := svr_ServiceAlias service; "action" := br_Action r; "code_from" := "image_manual"]})%string.

Definition buildFromSourceCode (r : BuildInfoRequestStruct) (service : ServiceRow) : M World unit :=
  let c := br_CodeInfo r in
  if decide (bc_RepoURL c = "" ∨ bc_Branch c = "" ∨ br_DeployVersion r = "")%string
  then fail (EMsg "build from code failure, args error")
  else sendBuildTopic (svr_ServiceID service) "build_from_source_code" (with_login (bc_User c) (bc_Password c)
    {["tenant_id" := svr_TenantID service; "service_id" := svr_ServiceID service; "repo_url" := bc_RepoURL c;
      "action" := br_Action r; "lang" := bc_Lang c; "runtime" := bc_Runtime c; "deploy_version" := br_DeployVersion r;
      "event_id" := br_EventID r; "tenant_name" := br_TenantName r; "branch" := bc_Branch c;
      "server_type" := bc_ServerType c; "service_alias" := svr_ServiceAlias service; "expire" := "180"]})%string.

Definition buildFromMarketSlug (r : BuildInfoRequestStruct) (service : ServiceRow) : M World unit :=
  sendBuildTopic (svr_ServiceID service) "build_from_market_slug"
    {["deploy_version" := br_DeployVersion r; "event_id" := br_EventID r; "action" := br_Action r;
      "tenant_name" := br_TenantName r; "tenant_id" := svr_TenantID service; "service_id" := svr_ServiceID service;
      "service_alias" := svr_ServiceAlias service]}%string.

(** ** The operations *)

(** [util.CreateVersionByTime] *)
Context (CreateVersionByTime : string).

Definition third_party (service : ServiceRow) : bool := bool_decide (svr_Kind service = "third_party"%string).

Definition refuse (re : OperationResult) (msg : string) : M World OperationResult := mret (re <| or_ErrMsg := msg |>).

(** The component, unless it cannot be read or is not run by the platform. *)
Definition with_service (serviceID : string) (re : OperationResult) (missing thirdparty : string)
    (k : ServiceRow → M World OperationResult) : M World OperationResult :=
  r ← catch (GetServiceByID Pool serviceID);
  match r with
  | inl _ => refuse re missing
  | inr service => if third_party service then refuse re thirdparty else k service
  end.

(** What follows a message. *)
Definition after_send (r : error + unit) (re : OperationResult) (msg : string) : OperationResult :=
  match r with inl _ => re <| or_ErrMsg := msg |> | inr _ => re <| or_Status := "success"%string |> end.

Definition Stop (stopInfo : StartOrStopInfoRequestStruct) : M World OperationResult :=
  let re := mkOperationResult "stop" (sr_ServiceID stopInfo) "" (sr_EventID stopInfo) "failure" "" in
  with_service (sr_ServiceID stopInfo) re "get service failure" "is a thirdparty service" (λ service,
    r ← catch (send (SentWork "stop" (BStop (mkStop (svr_TenantID service) (svr_ServiceID service) (svr_DeployVersion service)
                 (or_EventID re) (sr_Configs stopInfo)))));
    mret (after_send r re "start service failure")).

(** The event is part of the result only once the component is read. *)
Definition Start (startInfo : StartOrStopInfoRequestStruct) : M World OperationResult :=
  let re := mkOperationResult "start" (sr_ServiceID startInfo) "" "" "failure" "" in
  with_service (sr_ServiceID startInfo) re "get service failure" "is thirdpart service" (λ service,
    let re := re <| or_EventID := sr_EventID startInfo |> in
    r ← catch (send (SentWork "start" (BStart (mkStart (svr_TenantID service) (svr_ServiceID service) (svr_DeployVersion service)
                 (sr_EventID startInfo) (sr_Configs startInfo) (sr_DepServiceIDInBootSeq startInfo)))));
    mret (after_send r re "start service failure")).

(** [Save] writes the whole row, as it was read, with its new version. *)
Definition set_version (v : string) (service : ServiceRow) : ServiceRow := service <| svr_DeployVersion := v |>.

(** A message to upgrade, and the old version again when it cannot be sent. *)
Definition send_upgrade (service : ServiceRow) (oldDeployVersion version : string) (configs : gmap string string)
    (re : OperationResult) (msg : string) : M World OperationResult :=
  r ← catch (send (SentWork "rolling_upgrade" (BRollingUpgrade (mkRolling (svr_TenantID service) (svr_ServiceID service)
               version (or_EventID re) [] configs))));
  _ ← (match r with inl _ => _ ← catch (Service_UpdateModel (set_version oldDeployVersion service)); mret () | inr _ => mret () end);
  mret (after_send r re msg).

Definition Upgrade (ru : UpgradeInfoRequestStruct) : M World OperationResult :=
  let re := mkOperationResult "upgrade" (ur_ServiceID ru) "" (ur_EventID ru) "failure" "" in
  with_service (ur_ServiceID ru) re "get service failure" "is thirdpart service" (λ services,
    let upgradeVersion := if decide (ur_UpgradeVersion ru = ""%string) then svr_DeployVersion services else ur_UpgradeVersion ru in
    r ← catch (GetVersionByDeployVersion upgradeVersion (ur_ServiceID ru));
    match r with
    | inl _ => refuse re "get service version failure"
    | inr version =>
      let go service := send_upgrade service (svr_DeployVersion services) upgradeVersion (ur_Configs ru) re
                          "send service upgrade message failure" in
      if decide (vir_FinalStatus version ≠ "success"%string) then go services
      else
        r ← catch (Service_UpdateModel (set_version upgradeVersion services));
        match r with
        | inl _ => refuse re "update service deploy version failure"
        | inr _ => go (set_version upgradeVersion services)
        end
    end).

(** Whether the version exists is not looked up. *)
Definition RollBack (rollback : RollbackInfoRequestStruct) : M World OperationResult :=
  let re := mkOperationResult "rollback" (rr_ServiceID rollback) "" (rr_EventID rollback) "failure" "" in
  with_service (rr_ServiceID rollback) re "find service failure" "is thirdpart service" (λ service,
    r ← catch (Service_UpdateModel (set_version (rr_RollBackVersion rollback) service));
    match r with
    | inl _ => refuse re "update service version failure"
    | inr _ => send_upgrade (set_version (rr_RollBackVersion rollback) service) (svr_DeployVersion service)
                 (rr_RollBackVersion rollback) ∅ re "send service rollback message failure"
    end).

(** [Restart] does nothing. *)
Definition Restart (restartInfo : StartOrStopInfoRequestStruct) : M World OperationResult :=
  mret (mkOperationResult "" "" "" "" "" "").

Definition new_version (buildInfo : BuildInfoRequestStruct) : VersionRow :=
  mkVersionRow 0 (br_DeployVersion buildInfo) (br_EventID buildInfo) (br_ServiceID buildInfo) (br_Kind buildInfo)
    (if decide (bc_Cmd (br_CodeInfo buildInfo) = ""%string) then bi_Cmd (br_ImageInfo buildInfo) else bc_Cmd (br_CodeInfo buildInfo))
    (bc_RepoURL (br_CodeInfo buildInfo)) (br_Operator buildInfo) "" (br_PlanVersion buildInfo).

(** The message of each kind of build. *)
Definition build_of_kind (buildInfo : BuildInfoRequestStruct) (service : ServiceRow) : option (M World unit) :=
  if decide (br_Kind buildInfo = "build_from_image" ∨ br_Kind buildInfo = "build_from_market_image")%string
  then Some (buildFromImage buildInfo service)
  else if decide (br_Kind buildInfo = "build_from_source_code"%string) then Some (buildFromSourceCode buildInfo service)
  else if decide (br_Kind buildInfo = "build_from_market_slug"%string) then Some (buildFromMarketSlug buildInfo service)
  else None.

Definition Build (buildInfo : BuildInfoRequestStruct) : M World OperationResult :=
  let re := mkOperationResult "" "" "" "" "" "" in
  with_service (br_ServiceID buildInfo) re "find service failure" "is thirdpart service" (λ service,
    let buildInfo := buildInfo <| br_DeployVersion := CreateVersionByTime |> in
    let re := re <| or_DeployVersion := CreateVersionByTime |> in
    r ← catch (VersionInfo_AddModel (new_version buildInfo));
    match r with
    | inl _ => refuse re "create service new version failure"
    | inr _ =>
      let re := mkOperationResult "build" (svr_ServiceID service) CreateVersionByTime (br_EventID buildInfo) "failure" "" in
      match build_of_kind buildInfo service with
      | None => refuse re "kind is unsupport"
      | Some m => r ← catch m; mret (after_send r re "build service failure")
      end
    end).

(** ** The events of a batch: [api/controller/batch_operation.go] *)

(** The event of one request: the request with it, and what is said when it
    could not be stored; the request keeps the event it had then. *)
Definition batch_event {R} (optType tenantID operator : string) (id : R → string) (set_event : string → R → R) (x : R) :
    M World (R * list OperationResult) :=
  r ← catch (CreateEvent TargetTypeService optType (id x) tenantID "" operator ASYNEVENTTYPE);
  mret (match r with
        | inl _ => (x, [mkOperationResult "" (id x) "" "" "" "create event failure"])
        | inr event => (set_event (evr_EventID event) x, [])
        end).

Fixpoint batch_events {R} (optType tenantID operator : string) (id : R → string) (set_event : string → R → R) (l : list R) :
    M World (list R * list OperationResult) :=
  match l with
  | [] => mret ([], [])
  | x :: l' =>
    y ← batch_event optType tenantID operator id set_event x;
    ys ← batch_events optType tenantID operator id set_event l';
    mret (y.1 :: ys.1, y.2 ++ ys.2)
  end.

Record BatchBody := mkBatchBody {
  bb_BuildInfos : list BuildInfoRequestStruct; bb_StartInfos : list StartOrStopInfoRequestStruct;
  bb_StopInfos : list StartOrStopInfoRequestStruct; bb_UpgradeInfos : list UpgradeInfoRequestStruct }.

Definition createBatchEvents (tenantID operator : string) (b : BatchBody) : M World (BatchBody * list OperationResult) :=
  builds ← batch_events "build-service" tenantID operator br_ServiceID (λ e r, r <| br_EventID := e |>) (bb_BuildInfos b);
  starts ← batch_events "start-service" tenantID operator sr_ServiceID (λ e r, r <| sr_EventID := e |>) (bb_StartInfos b);
  stops ← batch_events "stop-service" tenantID operator sr_ServiceID (λ e r, r <| sr_EventID := e |>) (bb_StopInfos b);
  upgrades ← batch_events "upgrade-service" tenantID operator ur_ServiceID (λ e r, r <| ur_EventID := e |>) (bb_UpgradeInfos b);
  mret (mkBatchBody builds.1 starts.1 stops.1 upgrades.1, builds.2 ++ starts.2 ++ stops.2 ++ upgrades.2).
End operation.
