(* ===== verification/OperationSpec.v ===== *)
(** * What the operations on a component promise

    An operation either sends its one message or leaves everything as it was;
    the last event of a component decides whether a new one may begin. *)
From S2P Require Import Prelude Task ComponentRows ApiDao Operation.

(** ** Sending nothing *)

(** A computation that sends nothing, whatever comes of it. *)
Class silent {A} (m : M World A) : Prop := { silent_run w : w_tasks (m w).1 = w_tasks w }.
Arguments silent_run {A} m {_} w.

Section silent.
Context `{ApiEnv}.

#[export] Instance silent_bind {A B} (m : M World A) (f : A → M World B) : silent m → (∀ a, silent (f a)) → silent (m ≫= f).
Proof.
  intros [Hm] Hf. split. intros w. unfold mbind, M_bind. specialize (Hm w). destruct (m w) as [w1 [a|e|]]; [|done..].
  cbn in Hm. rewrite <- Hm. apply Hf.
Qed.
#[export] Instance silent_ret {A} (a : A) : silent (mret a).
Proof. done. Qed.
#[export] Instance silent_fail {A} e : silent (A := A) (fail e).
Proof. done. Qed.
#[export] Instance silent_panic {A} : silent (panic (A := A)).
Proof. done. Qed.
#[export] Instance silent_catch {A} (m : M World A) : silent m → silent (catch m).
Proof. intros [Hm]. split. intros w. unfold catch. specialize (Hm w). by destruct (m w) as [w1 []]. Qed.
#[export] Instance silent_wrap {A} msg (m : M World A) : silent m → silent (wrap_err msg m).
Proof. intros [Hm]. split. intros w. unfold wrap_err. specialize (Hm w). by destruct (m w) as [w1 []]. Qed.
#[export] Instance silent_forM {A} (l : list A) (f : A → M World unit) : (∀ x, silent (f x)) → silent (forM l f).
Proof. intros Hf. induction l as [|x l IH]; cbn [forM]; apply _. Qed.
#[export] Instance silent_statement {A} c (f : Tables → Tables * A) : silent (statement c f).
Proof. split. intros w. unfold statement. destruct (statement_error _); [by destruct w|]. destruct (f _). by destruct w, c. Qed.
#[export] Instance silent_find {R} `{Row R} c (P : R → Prop) `{∀ r, Decision (P r)} : silent (Find c P).
Proof. apply silent_statement. Qed.
#[export] Instance silent_find_one {R} `{Row R} c (P : R → Prop) `{∀ r, Decision (P r)} : silent (Find_one c P).
Proof. apply silent_bind; [apply _|]. intros []; apply _. Qed.
#[export] Instance silent_not_found {R} `{Row R} c (P : R → Prop) `{∀ r, Decision (P r)} : silent (RecordNotFound c P).
Proof. unfold RecordNotFound. apply _. Qed.
#[export] Instance silent_create {R} `{Row R} c (r : R) : silent (Create c r).
Proof. apply silent_statement. Qed.
#[export] Instance silent_delete {R} `{Row R} c (P : R → Prop) `{∀ r, Decision (P r)} : silent (Delete c P).
Proof. apply silent_statement. Qed.
End silent.

Section operations.
Context `{ApiEnvLaws}.

(** ** Statements *)

Lemma find_outcome {R} `{Row R} c (P : R → Prop) `{∀ r, Decision (P r)} w :
  let '(w', r) := Find c P w in
  w_db w' = w_db w ∧ w_tasks w' = w_tasks w ∧ (∀ l, r = Ok l → l ≡ₚ base.filter P (rows (visible c w))) ∧ r ≠ Panic ∧
  (c = Pool → w_tx w' = w_tx w) ∧ (statement_error (w_statements w) = None → ∃ l, r = Ok l).
Proof.
  unfold Find, statement. destruct (statement_error (w_statements w)) as [e|] eqn:E; cbn.
  - destruct w; repeat split; try done; congruence.
  - destruct w, c; cbn; (repeat split; try done; [|by intros _; eexists]); intros l [= <-]; apply any_order_perm.
Qed.

(** Reading one row from the pool changes nothing else. *)
Record reads {A} (m : M World A) : Prop := {
  reads_db w : w_db (m w).1 = w_db w;
  reads_tx w : w_tx (m w).1 = w_tx w;
  reads_tasks w : w_tasks (m w).1 = w_tasks w;
  reads_safe w : (m w).2 ≠ Panic
}.

Lemma reads_find_one {R} `{Row R} (P : R → Prop) `{∀ r, Decision (P r)} : reads (Find_one Pool P).
Proof.
  split; intros w; unfold Find_one, mbind, M_bind; pose proof (find_outcome Pool P w) as Hf;
    destruct (Find Pool P w) as [w' [[|r l]|e|]]; cbn; try apply Hf; try done; by destruct Hf as (_ & _ & _ & ? & _).
Qed.

Lemma find_one_elem {R} `{Row R} (P : R → Prop) `{∀ r, Decision (P r)} w w' r :
  Find_one Pool P w = (w', Ok r) → r ∈ rows (w_db w) ∧ P r.
Proof.
  unfold Find_one. intros (w1 & l & Hl & Hr)%bind_ok_inv. pose proof (find_outcome Pool P w) as Hf. rewrite Hl in Hf.
  destruct Hf as (_ & _ & Hf & _). destruct l as [|x l]; [done|]. injection Hr as _ <-. specialize (Hf _ eq_refl).
  assert (x ∈ base.filter P (rows (visible Pool w))) as [Hx Hp]%list_elem_of_filter by (rewrite <- Hf; constructor).
  done.
Qed.

Lemma reads_catch {A} (m : M World A) w : reads m →
  ∃ w' r, catch m w = (w', Ok r) ∧ w_db w' = w_db w ∧ w_tx w' = w_tx w ∧ w_tasks w' = w_tasks w ∧
    ∀ a, r = inr a → m w = (w', Ok a).
Proof.
  intros [Hdb Htx Ht Hs]. specialize (Hdb w). specialize (Htx w). specialize (Ht w). specialize (Hs w).
  unfold catch. destruct (m w) as [w' [a|e|]] eqn:E; [| |done]; cbn in *; eexists w', _;
    (split; [reflexivity|]; repeat split; try done); intros a'; congruence.
Qed.

Lemma send_outcome t w : ∃ w' r, catch (send t) w = (w', Ok r) ∧ w_db w' = w_db w ∧ w_tx w' = w_tx w ∧
  match r with inr _ => w_tasks w' = w_tasks w ++ [t] | inl _ => w' = w end.
Proof. unfold catch, send. destruct (queue_error t); eexists _, _; (split; [reflexivity|]); by destruct w. Qed.

(** ** Starting and stopping *)

Definition start_message (stop : bool) (req : StartOrStopInfoRequestStruct) (service : ServiceRow) : SentTask :=
  if stop then SentWork "stop" (BStop (mkStop (svr_TenantID service) (svr_ServiceID service) (svr_DeployVersion service)
                                 (sr_EventID req) (sr_Configs req)))
  else SentWork "start" (BStart (mkStart (svr_TenantID service) (svr_ServiceID service) (svr_DeployVersion service)
                                 (sr_EventID req) (sr_Configs req) (sr_DepServiceIDInBootSeq req))).

(** The component a request is about, one the platform runs. *)
Definition operated (serviceID : string) (w : World) (service : ServiceRow) : Prop :=
  service ∈ tb_services (w_db w) ∧ svr_ServiceID service = serviceID ∧ third_party service = false.

Definition refused (w w' : World) (re : OperationResult) : Prop :=
  or_Status re = "failure"%string ∧ or_ErrMsg re ≠ ""%string ∧ w_tasks w' = w_tasks w ∧ w_db w' = w_db w.

Lemma with_service_outcome id re missing third k w : missing ≠ ""%string → third ≠ ""%string → or_Status re = "failure"%string →
  (∃ w' re', with_service id re missing third k w = (w', Ok re') ∧ refused w w' re') ∨
  ∃ w1 service, operated id w service ∧ w_db w1 = w_db w ∧ w_tx w1 = w_tx w ∧ w_tasks w1 = w_tasks w ∧
    with_service id re missing third k w = k service w1.
Proof.
  intros Hm Ht3 Hre. unfold with_service. destruct (reads_catch (GetServiceByID Pool id) w) as (w1 & r & E & Hdb & Htx & Ht & Hr);
    [apply reads_find_one|]. rewrite (bind_ok _ _ _ _ _ E). destruct r as [e|service].
  - left. eexists _, _. split; [reflexivity|]. by repeat split.
  - destruct (third_party service) eqn:Et.
    + left. eexists _, _. split; [reflexivity|]. by repeat split.
    + right. exists w1, service. specialize (Hr _ eq_refl). apply find_one_elem in Hr as [Hin Hid]. by repeat split.
Qed.

(** Starting and stopping are one message or nothing. *)
Lemma start_stop_outcome (stop : bool) (req : StartOrStopInfoRequestStruct) (w : World) :
  ∃ w' re, (if stop then Stop req w else Start req w) = (w', Ok re) ∧
  (refused w w' re ∨
   or_Status re = "success"%string ∧ w_db w' = w_db w ∧ ∃ service, operated (sr_ServiceID req) w service ∧
     w_tasks w' = w_tasks w ++ [start_message stop req service]).
Proof.
  destruct stop.
  all: unfold Stop, Start; match goal with |- context [with_service ?id ?re ?msg ?tp ?k] =>
    destruct (with_service_outcome id re msg tp k w) as [(w' & re' & -> & Hr)|(w1 & service & Ho & Hdb & Htx & Ht & ->)]; [done|done|done|..] end;
    [by exists w', re'; split; [|left]|].
  all: match goal with |- context [send ?t] => destruct (send_outcome t w1) as (w2 & r & E & Hdb2 & Htx2 & Hr) end;
    rewrite (bind_ok _ _ _ _ _ E); eexists w2, _; (split; [reflexivity|]); destruct r as [e|u]; cbn in Hr.
  1,3: left; subst w2; by repeat split.
  all: right; split; [done|]; split; [congruence|]; exists service; split; [done|]; by rewrite Hr, Ht.
Qed.

(** ** Upgrading and rolling back *)

Lemma save_row_ids (r : ServiceRow) l : svr_ID <$> save_row r l = svr_ID <$> l.
Proof.
  unfold save_row. rewrite <- list_fmap_compose. apply list_fmap_ext. intros i x _. cbn. by case_decide.
Qed.

Lemma same_id (x y : ServiceRow) l : NoDup (svr_ID <$> l) → x ∈ l → y ∈ l → svr_ID x = svr_ID y → x = y.
Proof.
  intros Hnd [i Hi]%list_elem_of_lookup [j Hj]%list_elem_of_lookup E.
  assert (i = j) as <-; [|congruence]. eapply (NoDup_lookup _ i j (svr_ID x) Hnd); rewrite list_lookup_fmap.
  - by rewrite Hi.
  - by rewrite Hj; cbn; rewrite E.
Qed.

Lemma save_row_self (x : ServiceRow) l : NoDup (svr_ID <$> l) → x ∈ l → save_row x l = l.
Proof.
  intros Hnd Hx. unfold save_row. rewrite <- (list_fmap_id l) at 2. apply list_fmap_ext. intros i y Hy. cbn. unfold id.
  case_decide as E; [|done]. symmetry. apply (same_id y x l); [done|by eapply list_elem_of_lookup_2|done|done].
Qed.

Lemma save_row_restore (x r : ServiceRow) l : NoDup (svr_ID <$> l) → x ∈ l → svr_ID r = svr_ID x →
  save_row x (save_row r l) = l.
Proof.
  intros Hnd Hx Hr. rewrite <- (save_row_self x l) at 2 by done. unfold save_row. rewrite <- list_fmap_compose.
  apply list_fmap_ext. intros i y Hy. cbn. rewrite Hr. destruct (decide (svr_ID y = svr_ID x)) as [E|E].
  - by rewrite decide_True.
  - by rewrite decide_False.
Qed.

Context (Hcalm : ∀ n, statement_error n = None).

Lemma save_service (r : ServiceRow) w : svr_ID r ≠ 0%Z → svr_ID r ∈ svr_ID <$> tb_services (w_db w) →
  ∃ w', catch (Service_UpdateModel r) w = (w', Ok (inr ())) ∧ w_db w' = (w_db w) <| tb_services ::= save_row r |> ∧
    w_tasks w' = w_tasks w.
Proof.
  intros Hz Hin. unfold catch, Service_UpdateModel, Save, statement. rewrite decide_True by done. rewrite Hcalm.
  eexists. split; [reflexivity|]. by destruct w.
Qed.

Definition upgrade_message (service : ServiceRow) (version event : string) (configs : gmap string string) : SentTask :=
  SentWork "rolling_upgrade" (BRollingUpgrade (mkRolling (svr_TenantID service) (svr_ServiceID service) version event [] configs)).

(** What is left of an upgrade: the message with the rows as they are, or the rows as they were. *)
Lemma send_upgrade_outcome (service old : ServiceRow) (l : list ServiceRow) version configs re msg w :
  msg ≠ ""%string → or_Status re = "failure"%string → svr_ID service ≠ 0%Z → NoDup (svr_ID <$> l) → old ∈ l →
  old = set_version (svr_DeployVersion old) service → svr_ID service = svr_ID old →
  tb_services (w_db w) = l ∨ tb_services (w_db w) = save_row service l →
  ∃ w' re', send_upgrade service (svr_DeployVersion old) version configs re msg w = (w', Ok re') ∧
  (or_Status re' = "failure"%string ∧ or_ErrMsg re' ≠ ""%string ∧ w_tasks w' = w_tasks w ∧ tb_services (w_db w') = l ∨
   or_Status re' = "success"%string ∧ w_db w' = w_db w ∧
   w_tasks w' = w_tasks w ++ [upgrade_message service version (or_EventID re) configs]).
Proof.
  intros Hmsg Hre Hz Hnd Hin Hold Hid Hl. unfold send_upgrade.
  match goal with |- context [send ?t] => destruct (send_outcome t w) as (w1 & r & E & Hdb & Htx & Hr) end.
  rewrite (bind_ok _ _ _ _ _ E). destruct r as [e|u].
  - subst w1. rewrite <- Hold.
    assert (svr_ID <$> tb_services (w_db w) = svr_ID <$> l) as Hids by (destruct Hl as [-> | ->]; [done|apply save_row_ids]).
    destruct (save_service old w) as (w2 & Es & Hdb2 & Ht2); [congruence|rewrite Hids; by apply list_elem_of_fmap_2|].
    unfold mbind, M_bind. rewrite Es. cbn. eexists w2, _. split; [reflexivity|]. left. repeat split; try done.
    rewrite Hdb2. change (save_row old (tb_services (w_db w)) = l). destruct Hl as [-> | ->].
    + by apply save_row_self.
    + by apply save_row_restore.
  - cbn. eexists w1, _. split; [reflexivity|]. right. repeat split; [congruence|exact Hr].
Qed.

(** Nothing came of a request. *)
Definition untouched (w w' : World) (re : OperationResult) : Prop :=
  or_Status re = "failure"%string ∧ or_ErrMsg re ≠ ""%string ∧ w_tasks w' = w_tasks w ∧
  tb_services (w_db w') = tb_services (w_db w).

Lemma refused_untouched w w' re : refused w w' re → untouched w w' re.
Proof. intros (? & ? & ? & Hdb). by repeat split; [..|rewrite Hdb]. Qed.

(** A component is moved to a version and the message is sent, or nothing happens. *)
Lemma move_outcome (service : ServiceRow) id w w1 version configs re msg :
  NoDup (svr_ID <$> tb_services (w_db w)) → Forall (λ r, svr_ID r ≠ 0%Z) (tb_services (w_db w)) → operated id w service →
  w_db w1 = w_db w → w_tasks w1 = w_tasks w → msg ≠ ""%string → or_Status re = "failure"%string →
  ∃ w2, catch (Service_UpdateModel (set_version version service)) w1 = (w2, Ok (inr ())) ∧
  ∃ w' re', send_upgrade (set_version version service) (svr_DeployVersion service) version configs re msg w2 = (w', Ok re') ∧
  (untouched w w' re' ∨
   or_Status re' = "success"%string ∧ w_tasks w' = w_tasks w ++ [upgrade_message service version (or_EventID re) configs] ∧
   tb_services (w_db w') = save_row (set_version version service) (tb_services (w_db w))).
Proof.
  intros Hnd Hnz (Hin & Hid & Hthird) Hdb Ht Hmsg Hre. assert (svr_ID service ≠ 0%Z) as Hz by (by eapply Forall_forall in Hnz).
  destruct (save_service (set_version version service) w1) as (w2 & Es & Hdb2 & Ht2).
  { by destruct service. }
  { rewrite Hdb. replace (svr_ID (set_version version service)) with (svr_ID service) by (by destruct service).
    by apply list_elem_of_fmap_2. }
  exists w2. split; [done|].
  assert (tb_services (w_db w2) = save_row (set_version version service) (tb_services (w_db w))) as Hs2
    by (rewrite Hdb2, Hdb; by destruct (w_db w)).
  destruct (send_upgrade_outcome (set_version version service) service (tb_services (w_db w)) version configs re msg w2)
    as (w' & re' & E & Ho); [done|done|by destruct service|done|done|by destruct service|by destruct service|by right|].
  exists w', re'. split; [done|]. destruct Ho as [(? & ? & Ht' & Hs)|(? & Hdb' & Ht')].
  - left. repeat split; [done..|congruence|done].
  - right. split; [done|]. split; [rewrite Ht', Ht2, Ht; by destruct service|]. congruence.
Qed.

Section keys.
Context (w : World) (Hkeys : NoDup (svr_ID <$> tb_services (w_db w))).
Context (Hids : Forall (λ r, svr_ID r ≠ 0%Z) (tb_services (w_db w))).

Lemma upgrade_outcome (ru : UpgradeInfoRequestStruct) : ∃ w' re, Upgrade ru w = (w', Ok re) ∧ (untouched w w' re ∨
  or_Status re = "success"%string ∧ ∃ service built,
    let v := if decide (ur_UpgradeVersion ru = ""%string) then svr_DeployVersion service else ur_UpgradeVersion ru in
    operated (ur_ServiceID ru) w service ∧
    built ∈ tb_versions (w_db w) ∧ vir_BuildVersion built = v ∧ vir_ServiceID built = ur_ServiceID ru ∧
    w_tasks w' = w_tasks w ++ [upgrade_message service v (ur_EventID ru) (ur_Configs ru)] ∧
    tb_services (w_db w') = if decide (vir_FinalStatus built = "success"%string)
      then save_row (set_version v service) (tb_services (w_db w)) else tb_services (w_db w)).
Proof.
  unfold Upgrade. match goal with |- context [with_service ?id ?re ?msg ?tp ?k] =>
    destruct (with_service_outcome id re msg tp k w) as [(w' & re' & -> & Hr)|(w1 & service & Ho & Hdb & Htx & Ht & ->)];
      [done|done|done|exists w', re'; split; [done|left; by apply refused_untouched]|] end.
  set (v := if decide (ur_UpgradeVersion ru = ""%string) then _ else _).
  destruct (reads_catch (GetVersionByDeployVersion v (ur_ServiceID ru)) w1) as (w2 & r & E & Hdb2 & Htx2 & Ht2 & Hr);
    [apply reads_find_one|]. rewrite (bind_ok _ _ _ _ _ E). destruct r as [e|built].
  { eexists w2, _. split; [reflexivity|]. left. repeat split; [done|congruence|by rewrite Hdb2, Hdb]. }
  specialize (Hr _ eq_refl). apply find_one_elem in Hr as [Hin [Hv Hs]]. rewrite Hdb in Hin.
  assert (w_db w2 = w_db w) as Hdb' by congruence. assert (w_tasks w2 = w_tasks w) as Ht' by congruence. cbn zeta.
  destruct (decide (vir_FinalStatus built = "success"%string)) as [Hok|Hok].
  + rewrite decide_False by tauto. match goal with |- context [send_upgrade _ _ v _ ?re ?msg] =>
      destruct (move_outcome service (ur_ServiceID ru) w w2 v (ur_Configs ru) re msg)
        as (w3 & E3 & w4 & re4 & E4 & Hout); [done..|] end.
    rewrite (bind_ok _ _ _ _ _ E3). exists w4, re4. split; [exact E4|]. destruct Hout as [Hout|(Hst & Htasks & Hsv)]; [by left|right].
    split; [done|]. exists service, built. cbn zeta. fold v. rewrite (decide_True (P := vir_FinalStatus built = _)) by done.
    exact (conj Ho (conj Hin (conj Hv (conj Hs (conj Htasks Hsv))))).
  + rewrite decide_True by done. destruct Ho as (Hsin & Hid & Hthird).
    assert (svr_ID service ≠ 0%Z) as Hz by (by eapply Forall_forall in Hids).
    match goal with |- context [send_upgrade _ _ v _ ?re ?msg] =>
      destruct (send_upgrade_outcome service service (tb_services (w_db w)) v (ur_Configs ru) re msg w2)
        as (w4 & re4 & E4 & Hout); [done..|by destruct service|done|by left; rewrite Hdb'|] end.
    exists w4, re4. split; [exact E4|]. destruct Hout as [(? & ? & Htk & Hsv)|(Hst & Hd4 & Htk)].
    * left. repeat split; [done..|congruence|done].
    * right. split; [done|]. exists service, built. cbn zeta. fold v.
      rewrite (decide_False (P := vir_FinalStatus built = _)) by done.
      rewrite Ht' in Htk. exact (conj (conj Hsin (conj Hid Hthird)) (conj Hin (conj Hv (conj Hs (conj Htk
        (f_equal tb_services (eq_trans Hd4 Hdb'))))))).
Qed.

Lemma rollback_outcome (rb : RollbackInfoRequestStruct) : ∃ w' re, RollBack rb w = (w', Ok re) ∧ (untouched w w' re ∨
  or_Status re = "success"%string ∧ ∃ service, operated (rr_ServiceID rb) w service ∧
    w_tasks w' = w_tasks w ++ [upgrade_message service (rr_RollBackVersion rb) (rr_EventID rb) ∅] ∧
    tb_services (w_db w') = save_row (set_version (rr_RollBackVersion rb) service) (tb_services (w_db w))).
Proof.
  unfold RollBack. match goal with |- context [with_service ?id ?re ?msg ?tp ?k] =>
    destruct (with_service_outcome id re msg tp k w) as [(w' & re' & -> & Hr)|(w1 & service & Ho & Hdb & Htx & Ht & ->)];
      [done|done|done|exists w', re'; split; [done|left; by apply refused_untouched]|] end.
  match goal with |- context [send_upgrade _ _ _ _ ?re ?msg] =>
    destruct (move_outcome service (rr_ServiceID rb) w w1 (rr_RollBackVersion rb) ∅ re msg)
      as (w3 & E3 & w4 & re4 & E4 & Hout); [done..|] end.
  rewrite (bind_ok _ _ _ _ _ E3). exists w4, re4. split; [exact E4|].
  destruct Hout as [Hout|(Hst & Htasks & Hsv)]; [by left|right]. split; [done|]. by exists service.
Qed.
End keys.

(** C36 (error): when the statements of the database succeed, an upgrade or a
    rollback whose message cannot be sent leaves every component with the version it
    had; otherwise it sends one message, with the version asked for.  The component
    then has that version after a rollback, and after an upgrade if the version, which an
    upgrade looks up, was built with success; if it was not, the component keeps its version
    in the database although the message carries the other. *)
Theorem upgrade_or_nothing (w : World) (Hkeys : NoDup (svr_ID <$> tb_services (w_db w)))
    (Hids : Forall (λ r, svr_ID r ≠ 0%Z) (tb_services (w_db w))) :
  (∀ ru, ∃ w' re, Upgrade ru w = (w', Ok re) ∧ (untouched w w' re ∨
     or_Status re = "success"%string ∧ ∃ service built,
       let v := if decide (ur_UpgradeVersion ru = ""%string) then svr_DeployVersion service else ur_UpgradeVersion ru in
       operated (ur_ServiceID ru) w service ∧
       built ∈ tb_versions (w_db w) ∧ vir_BuildVersion built = v ∧ vir_ServiceID built = ur_ServiceID ru ∧
       w_tasks w' = w_tasks w ++ [upgrade_message service v (ur_EventID ru) (ur_Configs ru)] ∧
       tb_services (w_db w') = if decide (vir_FinalStatus built = "success"%string)
         then save_row (set_version v service) (tb_services (w_db w)) else tb_services (w_db w))) ∧
  (∀ rb, ∃ w' re, RollBack rb w = (w', Ok re) ∧ (untouched w w' re ∨
     or_Status re = "success"%string ∧ ∃ service, operated (rr_ServiceID rb) w service ∧
       w_tasks w' = w_tasks w ++ [upgrade_message service (rr_RollBackVersion rb) (rr_EventID rb) ∅] ∧
       tb_services (w_db w') = save_row (set_version (rr_RollBackVersion rb) service) (tb_services (w_db w)))).
Proof. split; intros ?; [by apply upgrade_outcome|by apply rollback_outcome]. Qed.

(** ** Whether a new event may begin *)

Lemma latest_spec (l : list EventRow) :
  match foldr latest None l with
  | None => l = []
  | Some r => r ∈ l ∧ ∀ x, x ∈ l → (evr_ID x ≤ evr_ID r)%Z
  end.
Proof.
  induction l as [|x l IH]; [done|]. cbn [foldr]. destruct (foldr latest None l) as [r|]; cbn.
  - destruct IH as [Hr Hx]. case_decide.
    + split; [constructor|]. intros y [->|Hy]%elem_of_cons; [lia|]. specialize (Hx _ Hy). lia.
    + split; [by constructor|]. intros y [->|Hy]%elem_of_cons; [lia|by apply Hx].
  - subst l. split; [constructor|]. by intros y ->%list_elem_of_singleton.
Qed.

Lemma calm_find {R} `{Row R} (P : R → Prop) `{∀ r, Decision (P r)} w :
  ∃ w' l, Find Pool P w = (w', Ok l) ∧ w_db w' = w_db w ∧ l ≡ₚ base.filter P (rows (w_db w)).
Proof.
  pose proof (find_outcome Pool P w) as Hf. destruct (Find Pool P w) as [w' r]. destruct Hf as (Hdb & _ & Hl & _ & _ & Hok).
  destruct (Hok (Hcalm _)) as [l ->]. exists w', l. split; [done|]. split; [done|]. by apply Hl.
Qed.

Lemma calm_save (r : EventRow) w : ∃ w', Save Pool r w = (w', Ok ()).
Proof. unfold Save, Create, statement. case_decide; rewrite Hcalm; by eexists. Qed.

Lemma calm_event_update (r : EventRow) w : ∃ w', catch (Event_UpdateModel r) w = (w', Ok (inr ())).
Proof.
  unfold Event_UpdateModel, Find_one. destruct (calm_find (λ x, evr_EventID x = evr_EventID r) w) as (w1 & l & E & _ & _).
  unfold catch, mbind, M_bind. rewrite E. destruct l as [|x l]; [by eexists|]. cbn.
  destruct (calm_save (r <| evr_ID := evr_ID x |>) w1) as [w2 ->]. by eexists.
Qed.

Context `{Rfc3339} (now : Z).

Definition about (target targetID : string) (w : World) (e : EventRow) : Prop :=
  e ∈ tb_events (w_db w) ∧ evr_Target e = target ∧ evr_TargetID e = targetID ∧ evr_SynType e = ASYNEVENTTYPE.

Definition outdated (e : EventRow) : Prop := ∃ start, Parse (evr_StartTime e) = Some start ∧ (start + 180 < now)%Z.

(** C37 (functional): when the statements of the database succeed, a new asynchronous
    event of a target may begin exactly when its last one has ended, began more than
    three minutes ago, or there is none.  (A synchronous event always may.) *)
Theorem event_gate (target targetID : string) (w : World) :
  ∃ w' b, CanDoEvent now ASYNEVENTTYPE target targetID w = (w', Ok b) ∧
    ((∀ e, ¬ about target targetID w e) ∧ b = true ∨
     ∃ last, about target targetID w last ∧ (∀ e, about target targetID w e → (evr_ID e ≤ evr_ID last)%Z) ∧
       (b = true ↔ evr_FinalStatus last ≠ ""%string ∨ outdated last)).
Proof.
  set (P := λ r, evr_Target r = target ∧ evr_TargetID r = targetID ∧ evr_SynType r = 0%Z).
  destruct (calm_find P w) as (w1 & l & E & _ & Hl).
  assert (∀ e, e ∈ l ↔ about target targetID w e) as Habout.
  { intros e. rewrite Hl, list_elem_of_filter. unfold about, P. tauto. }
  assert (catch (GetLastASyncEvent target targetID) w = (w1, Ok (match foldr latest None l with
    Some r => inr r | None => inl ERecordNotFound end))) as Hlast.
  { unfold catch, GetLastASyncEvent, mbind, M_bind. fold P. rewrite E. by destruct (foldr latest None l). }
  unfold CanDoEvent. rewrite decide_False by done. rewrite (bind_ok _ _ _ _ _ Hlast).
  pose proof (latest_spec l) as Hlat. destruct (foldr latest None l) as [last|].
  - destruct Hlat as [Hin Hmax]. apply Habout in Hin as Hab. destruct Hab as (Hrow & Htg & Hid & Hsyn).
    assert (∀ (w' : World) (b : bool), (b = true ↔ evr_FinalStatus last ≠ ""%string ∨ outdated last) →
      ∃ w'' b', (w', Ok (A := bool) b) = (w'', Ok b') ∧
      ((∀ e, ¬ about target targetID w e) ∧ b' = true ∨
       ∃ last, about target targetID w last ∧ (∀ e, about target targetID w e → (evr_ID e ≤ evr_ID last)%Z) ∧
       (b' = true ↔ evr_FinalStatus last ≠ ""%string ∨ outdated last))) as Hdone.
    { intros w' b Hb. exists w', b. split; [done|]. right. exists last. split; [by apply Habout|].
      split; [intros e He; by apply Hmax, Habout|done]. }
    destruct (decide (evr_FinalStatus last = ""%string)) as [Hf|Hf];
      [rewrite decide_False by tauto|rewrite decide_True by done; apply Hdone; tauto].
    unfold checkTimeout. rewrite decide_True by done.
    destruct (Parse (evr_StartTime last)) as [start|] eqn:Ep;
      [|apply Hdone; split; [done|]; intros [?|(s & Hs & _)]; [done|congruence]].
    case_decide as Hlt.
    + destruct (calm_event_update (last <| evr_FinalStatus := "timeout"%string |>) w1) as [w2 Eu].
      rewrite (bind_ok _ _ _ _ _ Eu). apply Hdone. split; [|done]. intros _. right. by exists start.
    + apply Hdone. split; [done|]. intros [?|(s & Hs & Hlt')]; [done|]. rewrite Ep in Hs. injection Hs as <-.
      unfold three_minutes in Hlt. lia.
  - subst l. eexists w1, _. split; [reflexivity|]. left. split; [|done]. intros e He. apply Habout in He.
    by apply elem_of_nil in He.
Qed.
End operations.

(** ** Examples *)

#[local] Instance sure_env : ApiEnv := {
  statement_error _ := None; any_order _ l := l; NewUUID _ := "id"%string;
  queue_error t := match t with SentWork _ (BRollingUpgrade b) => if decide (rolling_EventID b = "lost"%string)
                                  then Some (EMsg "queue") else None | _ => None end }.
#[local] Instance sure_laws : ApiEnvLaws.
Proof. by split. Qed.

Definition web_row : ServiceRow := mkServiceRow 1 "t" "web" "gr1" "ns" "internal" 512 1 "v1" "" "" "" 0 0 "".
Definition web_version : VersionRow := mkVersionRow 3 "v2" "e0" "web" "" "" "" "" "success" "".
Definition web_events : list EventRow :=
  [mkEventRow 5 "e5" "t" "service" "web" "" "me" "0" "" "build-service" 0 "" "complete" "" "";
   mkEventRow 7 "e7" "t" "service" "web" "" "me" "1000" "" "build-service" 0 "" "" "" ""]%string.
Definition web_world : World :=
  mkWorld (mkTables [] [] [] [] [] [] [web_row] [web_version] web_events [] [] [] no_parts 8) None 0 0 ∅ [].

Lemma sure_calm n : statement_error n = None.
Proof. reflexivity. Qed.

(** An upgrade whose message is lost puts the old version back. *)
Example lost_upgrade :
  let '(w', r) := Upgrade (mkUpgradeInfo "v2" "lost" "web" ∅) web_world in
  r = Ok (mkOperationResult "upgrade" "web" "" "lost" "failure" "send service upgrade message failure")%string ∧
  w_statements w' = 4 ∧ w_db w' = w_db web_world ∧ w_tasks w' = [].
Proof. vm_compute. split; [|split; [|split]]; reflexivity. Qed.

Lemma upgrade_or_nothing_witness :
  ∃ w' re, Upgrade (mkUpgradeInfo "v2" "e8" "web" ∅) web_world = (w', Ok re) ∧ or_Status re = "success"%string ∧
    tb_services (w_db w') = [set_version "v2" web_row].
Proof.
  destruct (proj1 (upgrade_or_nothing sure_calm web_world
    ltac:(apply (bool_decide_unpack _); vm_compute; exact I) ltac:(apply (bool_decide_unpack _); vm_compute; exact I))
    (mkUpgradeInfo "v2" "e8" "web" ∅)) as (w' & re & E & [(Hf & _)|(Hs & _)]); exists w', re; split; [exact E| |exact E|].
  - vm_compute in E. injection E as _ <-. discriminate Hf.
  - split; [exact Hs|]. vm_compute in E. injection E as <- _. vm_compute. reflexivity.
Defined.

#[local] Instance sure_times : Rfc3339 :=
  { Format _ := "1000"%string; Parse s := if decide (s = "1000"%string) then Some 1000%Z else None }.

(** The event that has not ended began too long ago, or not. *)
Lemma event_gate_witness :
  (∃ w', CanDoEvent 1180 ASYNEVENTTYPE "service" "web" web_world = (w', Ok false)) ∧
  ∃ w', CanDoEvent 1181 ASYNEVENTTYPE "service" "web" web_world = (w', Ok true).
Proof.
  destruct (event_gate sure_calm 1180 "service" "web" web_world) as (w1 & b1 & E1 & _).
  destruct (event_gate sure_calm 1181 "service" "web" web_world) as (w2 & b2 & E2 & _).
  split; [exists w1; rewrite E1; vm_compute in E1; injection E1 as _ <-|exists w2; rewrite E2; vm_compute in E2; injection E2 as _ <-];
    reflexivity.
Defined.
