(* ===== verification/Batch.v ===== *)
(** * Operations on many components at once

    [api/handler/service_batch_operation.go]: the order in which the components
    of a batch start, the memory they may take, their events, and the loops over
    the requests.  The requests themselves ([model.BatchOpRequesters]), the
    operation on one component and [retryutil.Retry] are not in the sources:
    they are the class [BatchOpRequester] and parameters. *)
From S2P Require Import Prelude ComponentRows ApiDao Operation.

(** ** The order of starting *)

Record ServiceDependency := mkServiceDependency {
  sd_serviceIDs : list string;
  sd_sid2depsids : gmap string (list string);
  sd_depsid2sids : gmap string (list string)
}.

Definition append_at (k v : string) (m : gmap string (list string)) : gmap string (list string) :=
  <[k := default [] (m !! k) ++ [v]]> m.

Definition NewServiceDependency (serviceIDs : list string) (relations : list RelationRow) : ServiceDependency :=
  mkServiceDependency serviceIDs
    (foldl (λ m r, append_at (rlr_ServiceID r) (rlr_DependServiceID r) m) ∅ relations)
    (foldl (λ m r, append_at (rlr_DependServiceID r) (rlr_ServiceID r) m) ∅ relations).

Section dependency.
Context (s : ServiceDependency).

(** Those nothing depends on, and the first that depends on something. *)
Definition headNodes : list string :=
  base.filter (λ sid, sd_depsid2sids s !! sid = None) (sd_serviceIDs s) ++
  take 1 (base.filter (λ sid, is_Some (sd_sid2depsids s !! sid)) (sd_serviceIDs s)).

Definition alreadyInLinkedList (l : list string) (depsid : string) : bool := bool_decide (depsid ∈ l).

Definition childInLinkedList (l : list string) (sid : string) : bool :=
  match sd_sid2depsids s !! sid with
  | Some depsids => existsb (alreadyInLinkedList l) depsids
  | None => false
  end.

(** The lists that extend [l]; with fuel, [None] when it runs out. *)
Fixpoint buildLinkListByHead (fuel : nat) (l : list string) : option (list (list string)) :=
  match fuel with
  | O => None
  | S fuel' =>
    match last l with
    | None => Some []
    | Some sid =>
      match sd_sid2depsids s !! sid with
      | None => Some [l]
      | Some depsids =>
        result ← mapM (λ depsid,
          if alreadyInLinkedList l depsid || childInLinkedList l depsid then Some [l]
          else sublists ← buildLinkListByHead fuel' (l ++ [depsid]);
               Some (match sublists with [] => [l ++ [depsid]] | _ => sublists end)) depsids;
        Some (concat result)
      end
    end
  end.

(** Every member of a list with the next one. *)
Definition neighbours (l : list string) : list (string * string) := zip l (tail l).

Definition add_neighbour (result : gmap string (list string)) (p : string * string) : gmap string (list string) :=
  if decide (p.2 ∈ default [] (result !! p.1)) then result else append_at p.1 p.2 result.

Definition serviceStartupSequence (fuel : nat) : option (gmap string (list string)) :=
  lists ← mapM (λ h, buildLinkListByHead fuel [h]) headNodes;
  Some (foldl add_neighbour ∅ (concat (neighbours <$> concat lists))).
End dependency.

(** ** Memory *)

(** What the code asks of a request and of the result of one. *)
Class BatchOpRequester (Req Item : Type) := {
  GetComponentID : Req → string;
  GetEventID : Req → string;
  OpType : Req → string;
  UpdateConfig : string → string → Req → Req;
  BatchOpFailureItem : Req → Item;
  set_ErrMsg : error → Item → Item;
  set_Success : Item → Item
}.

Record AllocMemory (Req Item : Type) := mkAllocMemory {
  am_allcm : Z; am_batchOpResult : list Item; am_batchOpRequests : list Req; am_badOpRequest : list Req }.
Arguments mkAllocMemory {Req Item} _ _ _ _.
Arguments am_allcm {Req Item} _.
Arguments am_batchOpResult {Req Item} _.
Arguments am_batchOpRequests {Req Item} _.
Arguments am_badOpRequest {Req Item} _.

Section memory.
Context {Req Item : Type} `{BatchOpRequester Req Item}.

Definition list_components (components : list ServiceRow) : gmap string ServiceRow :=
  foldl (λ m c, <[svr_ServiceID c := c]> m) ∅ components.

Definition request_memory (c : ServiceRow) : Z := int64 (svr_ContainerMemory c * svr_Replicas c).

(** [check]: the memory that is left, or an error. *)
Definition check (components : gmap string ServiceRow) (allcm : Z) (componentID : string) : error + Z :=
  match components !! componentID with
  | None => inl (EMsg "component not found")
  | Some c =>
    if decide (allcm < request_memory c)%Z then inl (EMsg "tenant_lack_of_memory")
    else inr (int64 (allcm - request_memory c))
  end.

Definition check_request (components : gmap string ServiceRow) (am : AllocMemory Req Item) (req : Req) :
    AllocMemory Req Item :=
  match check components (am_allcm am) (GetComponentID req) with
  | inl e => mkAllocMemory (am_allcm am) (am_batchOpResult am ++ [set_ErrMsg e (BatchOpFailureItem req)])
               (am_batchOpRequests am) (am_badOpRequest am ++ [req])
  | inr rest => mkAllocMemory rest (am_batchOpResult am) (am_batchOpRequests am ++ [req]) (am_badOpRequest am)
  end.

Definition check_all (components : gmap string ServiceRow) (allcm : Z) (reqs : list Req) : AllocMemory Req Item :=
  foldl (check_request components) (mkAllocMemory allcm [] [] []) reqs.
End memory.

(** ** The operations *)

(** What the sources leave open: the memory a tenant uses and what the cluster
    has, [gormbulkups.BulkUpsert] and [retryutil.Retry]. *)
Class BatchEnv := {
  tenant_memory : string → error + Z;
  cluster_memory : error + Z;
  BulkUpsert : Conn → list EventRow → M World unit;
  Retry : M World unit → M World unit
}.

Record Tenants := mkTenants { tn_UUID : string; tn_LimitMemory : Z }.

Section operations.
Context `{ApiEnv, Rfc3339, BatchEnv} {Req Item : Type} `{BatchOpRequester Req Item}.
Context (now : Z).

Definition ListByServiceIDs (serviceIDs : list string) : M World (list RelationRow) :=
  Find Pool (λ r, rlr_ServiceID r ∈ serviceIDs).

Definition GetServiceByIDs (uids : list string) : M World (list ServiceRow) := Find Pool (λ r, svr_ServiceID r ∈ uids).

(** An error is logged and the nil dependencies are used. *)
Definition startup_sequence (serviceIDs : list string) : M World (gmap string (list string)) :=
  r ← catch (ListByServiceIDs serviceIDs);
  match r with
  | inl _ => panic
  | inr relations =>
    match serviceStartupSequence (NewServiceDependency serviceIDs relations) (S (length relations)) with
    | Some m => mret m
    | None => panic
    end
  end.

Definition of_sum {A} (r : error + A) : M World A := match r with inr a => mret a | inl e => fail e end.

(** The memory there is, and what lacks when there is none. *)
Definition allocatable (tenant : Tenants) : M World (Z * string) :=
  if decide (tn_LimitMemory tenant ≠ 0%Z) then
    used ← of_sum (tenant_memory (tn_UUID tenant));
    mret (int64 (tn_LimitMemory tenant - used), "tenant_lack_of_memory"%string)
  else
    allcm ← of_sum cluster_memory;
    mret (allcm, "cluster_lack_of_memory"%string).

Definition NewAllocMemory (tenant : Tenants) (batchOpReqs : list Req) : M World (AllocMemory Req Item * string) :=
  a ← allocatable tenant;
  components ← GetServiceByIDs (GetComponentID (Item := Item) <$> batchOpReqs);
  mret (check_all (list_components components) a.1 batchOpReqs, a.2).

Fixpoint checkEvents (batchOpReqs : list Req) : M World (list Req * list Item) :=
  match batchOpReqs with
  | [] => mret ([], [])
  | req :: reqs =>
    ok ← CanDoEvent now SYNEVENTTYPE "service" (GetComponentID (Item := Item) req);
    rest ← checkEvents reqs;
    mret (if (ok : bool) then (req :: rest.1, rest.2)
          else (rest.1, set_ErrMsg (EMsg "The last event has not been completed") (BatchOpFailureItem req) :: rest.2))
  end.

(** Events of refused requests are over when they begin. *)
Definition event_of (tenantID operator : string) (bads : list string) (memoryType : string) (req : Req) : EventRow :=
  let bad := bool_decide (GetEventID (Item := Item) req ∈ bads) in
  let on_bad s := (if bad then s else "")%string in
  mkEventRow 0 (GetEventID (Item := Item) req) tenantID TargetTypeService (GetComponentID (Item := Item) req) "" operator
    (Format now) (on_bad (Format now)) (OpType (Item := Item) req) ASYNEVENTTYPE (on_bad "failure")%string
    (on_bad "complete")%string (on_bad memoryType) "".

Definition createEvents (tenantID operator : string) (batchOpReqs badOpReqs : list Req) (memoryType : string) : M World unit :=
  let events := event_of tenantID operator (GetEventID (Item := Item) <$> badOpReqs) memoryType <$> batchOpReqs in
  λ w, match wrap_err "create events in batch" (BulkUpsert Tx events) (Begin w).1 with
       | (w', Ok _) => Commit w'
       | (w', r) => ((Rollback w').1, r)
       end.

(** The loop over the requests that go ahead. *)
Fixpoint run_requests (operate : Req → M World unit) (reqs : list Req) : M World (list Item) :=
  match reqs with
  | [] => mret []
  | req :: reqs' =>
    r ← catch (Retry (operate req));
    items ← run_requests operate reqs';
    mret (match r with inl e => set_ErrMsg e (BatchOpFailureItem req) | inr _ => set_Success (BatchOpFailureItem req) end :: items)
  end.

Definition with_sequence (m : gmap string (list string)) (req : Req) : Req :=
  UpdateConfig (Item := Item) "boot_seq_dep_service_ids"
    (String.concat "," (default [] (m !! GetComponentID (Item := Item) req))) req.

(** [Build] and [Start]: events are checked for all requests. *)
Definition operate_checked (operate : Req → M World unit) (tenant : Tenants) (operator : string) (batchOpReqs : list Req) :
    M World (list Item) :=
  m ← startup_sequence (GetComponentID (Item := Item) <$> batchOpReqs);
  am ← wrap_err "new alloc memory" (NewAllocMemory tenant batchOpReqs);
  checked ← checkEvents batchOpReqs;
  _ ← createEvents (tn_UUID tenant) operator checked.1 (am_badOpRequest am.1) am.2;
  items ← run_requests operate (with_sequence m <$> am_batchOpRequests am.1);
  mret (am_batchOpResult am.1 ++ checked.2 ++ items).

(** [Upgrade]: for those there is memory for. *)
Definition operate_upgrade (operate : Req → M World unit) (tenant : Tenants) (operator : string) (batchOpReqs : list Req) :
    M World (list Item) :=
  m ← startup_sequence (GetComponentID (Item := Item) <$> batchOpReqs);
  am ← wrap_err "new alloc memory" (NewAllocMemory tenant batchOpReqs);
  checked ← checkEvents (am_batchOpRequests am.1);
  _ ← createEvents (tn_UUID tenant) operator batchOpReqs (am_badOpRequest am.1) am.2;
  items ← run_requests operate (with_sequence m <$> checked.1);
  mret (am_batchOpResult am.1 ++ checked.2 ++ items).

(** [Stop]: no order, no memory. *)
Definition operate_stop (operate : Req → M World unit) (tenant : Tenants) (operator : string) (batchOpReqs : list Req) :
    M World (list Item) :=
  checked ← checkEvents batchOpReqs;
  _ ← createEvents (tn_UUID tenant) operator checked.1 [] "";
  items ← run_requests operate checked.1;
  mret (checked.2 ++ items).
End operations.
