(* ===== verification/BatchSpec.v ===== *)
(** * What the batch operations promise

    The order of starting is the dependency relation when that has no cycle,
    and may have one otherwise; memory is granted in turn and never beyond what
    there is. *)
From S2P Require Import Prelude ComponentRows ApiDao Operation OperationSpec Batch.

(** ** The order of starting *)

Section sequence.
Context (serviceIDs : list string) (relations : list RelationRow).
(** The relations are read by the ids of their components. *)
Context (Hids : Forall (λ r, rlr_ServiceID r ∈ serviceIDs) relations).

Definition depends (a b : string) : Prop := ∃ r, r ∈ relations ∧ rlr_ServiceID r = a ∧ rlr_DependServiceID r = b.

Abbreviation sd := (NewServiceDependency serviceIDs relations).
Abbreviation build := (buildLinkListByHead sd).

Lemma lookup_append_at k v m k' : append_at k v m !! k' = if decide (k = k') then Some (default [] (m !! k) ++ [v]) else m !! k'.
Proof. unfold append_at. case_decide as Hk; [subst; by rewrite lookup_insert, decide_True|by rewrite lookup_insert_ne]. Qed.

Lemma append_all_lookup (f g : RelationRow → string) (l : list RelationRow) k :
  foldl (λ m r, append_at (f r) (g r) m) ∅ l !! k =
  match g <$> base.filter (λ r, f r = k) l with [] => None | l' => Some l' end.
Proof.
  induction l as [|r l IH] using rev_ind; [apply lookup_empty|]. rewrite foldl_app, filter_app, fmap_app. cbn [foldl].
  rewrite lookup_append_at, (filter_cons _ r []). destruct (decide (f r = k)) as [<-|Hk].
  - rewrite IH. cbn. by destruct (g <$> _).
  - rewrite IH. cbn. by rewrite app_nil_r.
Qed.

Lemma sid2depsids_elem s ds d : sd_sid2depsids sd !! s = Some ds → d ∈ ds ↔ depends s d.
Proof.
  cbn. rewrite append_all_lookup. destruct (_ <$> _) as [|x l] eqn:E; [done|]. intros [= <-]. rewrite <- E.
  rewrite list_elem_of_fmap. unfold depends. split.
  - intros (r & -> & [Hs Hr]%list_elem_of_filter). by exists r.
  - intros (r & Hr & Hs & <-). exists r. split; [done|]. by apply list_elem_of_filter.
Qed.

Lemma sid2depsids_some s ds : sd_sid2depsids sd !! s = Some ds → ds ≠ [].
Proof. cbn. rewrite append_all_lookup. by destruct (_ <$> _); intros [= <-]. Qed.

Lemma sid2depsids_none s d : sd_sid2depsids sd !! s = None → ¬ depends s d.
Proof.
  cbn. rewrite append_all_lookup. destruct (_ <$> _) as [|x l] eqn:E; [|done]. intros _ (r & Hr & Hs & Hd).
  apply fmap_nil_inv in E. assert (r ∈ base.filter (λ r, rlr_ServiceID r = s) relations) as Hin by (by apply list_elem_of_filter).
  rewrite E in Hin. by apply elem_of_nil in Hin.
Qed.

Lemma depsid2sids_none d s : sd_depsid2sids sd !! d = None → ¬ depends s d.
Proof.
  cbn. rewrite append_all_lookup. destruct (_ <$> _) as [|x l] eqn:E; [|done]. intros _ (r & Hr & Hs & Hd).
  apply fmap_nil_inv in E. assert (r ∈ base.filter (λ r, rlr_DependServiceID r = d) relations) as Hin by (by apply list_elem_of_filter).
  rewrite E in Hin. by apply elem_of_nil in Hin.
Qed.

Lemma depsid2sids_some d l : sd_depsid2sids sd !! d = Some l → ∃ s, depends s d.
Proof.
  cbn. rewrite append_all_lookup. destruct (_ <$> _) as [|x l'] eqn:E; [done|]. intros _.
  assert (x ∈ rlr_ServiceID <$> base.filter (λ r, rlr_DependServiceID r = d) relations) as Hin by (rewrite E; constructor).
  apply list_elem_of_fmap in Hin as (r & -> & [Hd Hr]%list_elem_of_filter). exists (rlr_ServiceID r), r. done.
Qed.

(** ** The lists end, whatever the dependencies are *)

Definition unseen (l : list string) : gset string := list_to_set (rlr_DependServiceID <$> relations) ∖ list_to_set l.

Lemma unseen_step l s d : depends s d → d ∉ l → size (unseen (l ++ [d])) < size (unseen l).
Proof.
  intros (r & Hr & Hs & Hd) Hl. apply subset_size. unfold unseen. split.
  - set_solver.
  - intros Hsub. assert (d ∈ unseen (l ++ [d])) as Hin; [|unfold unseen in Hin; set_solver].
    apply Hsub, elem_of_difference. split; [|set_solver]. apply elem_of_list_to_set, list_elem_of_fmap. by exists r.
Qed.

Lemma build_total fuel l : size (unseen l) < fuel → is_Some (build fuel l).
Proof.
  revert l. induction fuel as [|fuel IH]; intros l Hf; [lia|]. cbn [buildLinkListByHead].
  destruct (last l) as [sid|]; [|done]. destruct (sd_sid2depsids sd !! sid) as [ds|] eqn:Hds; [|done].
  assert (is_Some (mapM (λ depsid,
    if alreadyInLinkedList l depsid || childInLinkedList sd l depsid then Some [l]
    else sublists ← build fuel (l ++ [depsid]); Some (match sublists with [] => [l ++ [depsid]] | _ => sublists end)) ds))
    as [x ->]; [|done].
  apply mapM_is_Some, Forall_forall. intros d Hd.
  cbn. destruct (alreadyInLinkedList l d || childInLinkedList sd l d) eqn:E; [done|]. apply orb_false_elim in E as [E _].
  apply bool_decide_eq_false in E. apply (sid2depsids_elem _ _ _ Hds) in Hd.
  destruct (IH (l ++ [d])) as [y ->]; [|done]. pose proof (unseen_step _ _ _ Hd E). lia.
Qed.

Lemma unseen_bound l : size (unseen l) ≤ length relations.
Proof.
  etrans; [apply subseteq_size, subseteq_difference_l; reflexivity|].
  rewrite <- (length_fmap rlr_DependServiceID). generalize (rlr_DependServiceID <$> relations). clear.
  induction l as [|x l IH]; cbn [list_to_set length]; [by rewrite size_empty|]. rewrite size_union_alt, size_singleton.
  assert (size (list_to_set l ∖ {[x]} : gset string) ≤ size (list_to_set l : gset string)) by (apply subseteq_size; set_solver).
  lia.
Qed.

(** ** Lists follow dependencies *)

Fixpoint path (s : string) (q : list string) : Prop :=
  match q with [] => True | d :: q' => depends s d ∧ path d q' end.

Lemma path_snoc h q p s : path h q → last (h :: q) = Some p → depends p s → path h (q ++ [s]).
Proof.
  revert h. induction q as [|d q IH]; intros h Hq Hl Hs; cbn in *; [by simplify_eq|].
  destruct Hq as [Hd Hq]. split; [done|]. by apply IH.
Qed.

Lemma neighbours_path h q a b : path h q → (a, b) ∈ neighbours (h :: q) → depends a b.
Proof.
  unfold neighbours. cbn [tail]. revert h. induction q as [|d q IH]; intros h Hq Hin; [by apply elem_of_nil in Hin|].
  destruct Hq as [Hd Hq]. cbn [zip zip_with] in Hin. apply elem_of_cons in Hin as [[= -> ->]|Hin]; [done|]. by apply (IH d).
Qed.

Lemma neighbours_last h q a b rest : last (h :: q) = Some a → (a, b) ∈ neighbours (h :: q ++ b :: rest).
Proof.
  unfold neighbours. cbn [tail]. revert h. induction q as [|d q IH]; intros h Hl; cbn in *; [simplify_eq; constructor|].
  apply elem_of_cons. right. by apply IH.
Qed.

Lemma build_element fuel l sid ds ls l' : last l = Some sid → sd_sid2depsids sd !! sid = Some ds →
  build (S fuel) l = Some ls → l' ∈ ls → ∃ d, d ∈ ds ∧
    (l' = l ∨ l' = l ++ [d] ∨ ∃ sub, build fuel (l ++ [d]) = Some sub ∧ l' ∈ sub).
Proof.
  intros Hl Hds Hb Hin. cbn [buildLinkListByHead] in Hb. rewrite Hl, Hds in Hb.
  destruct (mapM _ ds) as [res|] eqn:Em; [|done]. injection Hb as <-. apply list_elem_of_In, in_concat in Hin as (x & Hx & Hin).
  apply list_elem_of_In in Hx, Hin. apply mapM_Some in Em. apply list_elem_of_lookup in Hx as [i Hi].
  destruct (Forall2_lookup_r _ _ _ _ _ Em Hi) as (d & Hd & Hx). exists d. split; [by eapply list_elem_of_lookup_2|].
  destruct (alreadyInLinkedList l d || childInLinkedList sd l d).
  - injection Hx as <-. apply list_elem_of_singleton in Hin. by left.
  - destruct (build fuel (l ++ [d])) as [sub|]; [|done]. injection Hx as <-. right. destruct sub as [|y sub].
    + apply list_elem_of_singleton in Hin. by left.
    + right. by eexists.
Qed.

Lemma build_sound fuel l sid ls l' : last l = Some sid → build fuel l = Some ls → l' ∈ ls → ∃ q, l' = l ++ q ∧ path sid q.
Proof.
  revert l sid ls. induction fuel as [|fuel IH]; intros l sid ls Hl Hb Hin; [done|].
  destruct (sd_sid2depsids sd !! sid) as [ds|] eqn:Hds.
  - destruct (build_element _ _ _ _ _ _ Hl Hds Hb Hin) as (d & Hd & [->|[->|(sub & Hs & Hsub)]]).
    + exists []. by rewrite app_nil_r.
    + exists [d]. split; [done|]. split; [|done]. by apply (sid2depsids_elem _ _ _ Hds).
    + destruct (IH (l ++ [d]) d sub) as (q & -> & Hq); [by rewrite last_snoc|done|done|].
      exists (d :: q). rewrite <- app_assoc. split; [done|]. split; [|done]. by apply (sid2depsids_elem _ _ _ Hds).
  - cbn [buildLinkListByHead] in Hb. rewrite Hl, Hds in Hb. injection Hb as <-. apply list_elem_of_singleton in Hin as ->.
    exists []. by rewrite app_nil_r.
Qed.

Lemma build_nonempty fuel l sid ls : last l = Some sid → build fuel l = Some ls → ∃ l', l' ∈ ls.
Proof.
  destruct fuel as [|fuel]; [done|]. intros Hl Hb. cbn [buildLinkListByHead] in Hb. rewrite Hl in Hb.
  destruct (sd_sid2depsids sd !! sid) as [ds|] eqn:Hds; [|injection Hb as <-; exists l; constructor].
  destruct ds as [|d ds]; [by apply sid2depsids_some in Hds|]. destruct (mapM _ (d :: ds)) as [res|] eqn:Em; [|done].
  injection Hb as <-. apply mapM_Some in Em. apply Forall2_cons_inv_l in Em as (x & res' & Hx & _ & ->).
  assert (∃ y, y ∈ x) as [y Hy]; [|exists y; cbn; apply elem_of_app; by left].
  destruct (alreadyInLinkedList l d || childInLinkedList sd l d); [injection Hx as <-; exists l; constructor|].
  destruct (build fuel (l ++ [d])) as [[|y sub]|]; [| |done]; injection Hx as <-; eexists; constructor.
Qed.

(** ** Every path is followed when there is no cycle *)

Section acyclic.
Context (rank : string → nat) (Hrank : ∀ a b, depends a b → rank b < rank a).

Definition above (l : list string) (sid : string) : Prop := last l = Some sid ∧ ∀ x, x ∈ l → rank sid ≤ rank x.

Lemma above_step l sid d : above l sid → depends sid d → above (l ++ [d]) d.
Proof.
  intros [Hl Hx] Hd%Hrank. split; [by rewrite last_snoc|]. intros x [Hin|Hin]%elem_of_app.
  - apply Hx in Hin. lia.
  - apply list_elem_of_singleton in Hin as ->. lia.
Qed.

Lemma above_fresh l sid d : above l sid → depends sid d → alreadyInLinkedList l d || childInLinkedList sd l d = false.
Proof.
  intros [Hl Hx] Hd%Hrank. apply orb_false_intro.
  - apply bool_decide_eq_false. intros Hin%Hx. lia.
  - unfold childInLinkedList. destruct (sd_sid2depsids sd !! d) as [cs|] eqn:Hcs; [|done].
    apply not_true_is_false. intros (c & Hc & Hin)%existsb_exists. apply bool_decide_eq_true in Hin.
    apply list_elem_of_In, (sid2depsids_elem _ _ _ Hcs), Hrank in Hc. apply Hx in Hin. lia.
Qed.

Lemma build_covers q : ∀ fuel l sid ls, above l sid → build fuel l = Some ls → path sid q →
  ∃ l' q', l' ∈ ls ∧ l' = (l ++ q) ++ q'.
Proof.
  induction q as [|d q IH]; intros fuel l sid ls Hl Hb Hq.
  - destruct Hl as [Hl _]. destruct (build_nonempty _ _ _ _ Hl Hb) as [l' Hin].
    destruct (build_sound _ _ _ _ _ Hl Hb Hin) as (q' & -> & _). exists (l ++ q'), q'. by rewrite app_nil_r.
  - destruct Hq as [Hd Hq]. destruct fuel as [|fuel]; [done|]. cbn [buildLinkListByHead] in Hb. rewrite (proj1 Hl) in Hb.
    destruct (sd_sid2depsids sd !! sid) as [ds|] eqn:Hds; [|by destruct (sid2depsids_none _ _ Hds Hd)].
    destruct (mapM _ ds) as [res|] eqn:Em; [|done]. injection Hb as <-. apply mapM_Some in Em.
    pose proof (proj2 (sid2depsids_elem _ _ _ Hds) Hd) as [i Hi]%list_elem_of_lookup.
    destruct (Forall2_lookup_l _ _ _ _ _ Em Hi) as (x & Hx & E). rewrite (above_fresh l sid d) in E by done.
    destruct (build fuel (l ++ [d])) as [sub|] eqn:Hs; [|done].
    destruct (IH fuel (l ++ [d]) d sub (above_step _ _ _ Hl Hd) Hs Hq) as (l' & q' & Hin & ->).
    exists (((l ++ [d]) ++ q) ++ q'), q'. split; [|by rewrite <- (app_assoc l [d] q)].
    apply list_elem_of_In, in_concat. exists x.
    apply list_elem_of_lookup_2 in Hx. split; [by apply list_elem_of_In|]. injection E as <-.
    destruct sub; [by apply elem_of_nil in Hin|]. by apply list_elem_of_In.
Qed.

(** Every component is reached from a head. *)
Lemma heads_reach s : s ∈ serviceIDs → ∃ h q, h ∈ headNodes sd ∧ path h q ∧ last (h :: q) = Some s.
Proof.
  set (B := max_list ((λ r, rank (rlr_ServiceID r)) <$> relations)).
  assert (∀ a b, depends a b → rank a ≤ B) as HB.
  { intros a b (r & Hr & <- & _). apply max_list_elem_of_le. by apply (list_elem_of_fmap_2 (λ r, rank (rlr_ServiceID r))). }
  remember (B - rank s) as n eqn:Hn. revert s Hn. induction (lt_wf n) as [n _ IH]. intros s -> Hs.
  destruct (sd_depsid2sids sd !! s) as [l|] eqn:E.
  - destruct (depsid2sids_some _ _ E) as [p Hp]. pose proof (Hrank _ _ Hp). pose proof (HB _ _ Hp).
    assert (p ∈ serviceIDs) as Hpin by (destruct Hp as (r & Hr & <- & _); by apply (proj1 (Forall_forall _ _) Hids)).
    destruct (IH (B - rank p) ltac:(lia) p eq_refl Hpin) as (h & q & Hh & Hq & Hl). exists h, (q ++ [s]).
    split; [done|]. split; [|by rewrite app_comm_cons, last_snoc]. by apply path_snoc with p.
  - exists s, []. split; [|done]. unfold headNodes. apply elem_of_app. left. by apply list_elem_of_filter.
Qed.
End acyclic.

(** ** The result *)

Lemma add_neighbours_elem (P : list (string * string)) s d :
  d ∈ default [] (foldl add_neighbour ∅ P !! s) ↔ (s, d) ∈ P.
Proof.
  induction P as [|[a b] P IH] using rev_ind; [cbn [foldl]; rewrite lookup_empty; cbn; by rewrite !elem_of_nil|].
  rewrite foldl_app, elem_of_app, list_elem_of_singleton, <- IH. cbn [foldl]. unfold add_neighbour. cbn [fst snd].
  case_decide as Hb; [naive_solver|]. rewrite lookup_append_at. case_decide as Ha; cbn; [subst|naive_solver].
  rewrite elem_of_app, list_elem_of_singleton. naive_solver.
Qed.

Lemma add_neighbours_nodup (P : list (string * string)) s : NoDup (default [] (foldl add_neighbour ∅ P !! s)).
Proof.
  induction P as [|[a b] P IH] using rev_ind; [cbn [foldl]; rewrite lookup_empty; constructor|].
  rewrite foldl_app. cbn [foldl]. unfold add_neighbour. cbn [fst snd]. case_decide as Hb; [done|].
  rewrite lookup_append_at. case_decide as Ha; cbn; [subst|done]. apply NoDup_app. split; [done|].
  split; [|apply NoDup_singleton]. by intros x Hx ->%list_elem_of_singleton.
Qed.

Definition sequence : option (gmap string (list string)) := serviceStartupSequence sd (S (length relations)).

Lemma sequence_some : is_Some sequence.
Proof.
  unfold sequence, serviceStartupSequence.
  assert (is_Some (mapM (λ h, build (S (length relations)) [h]) (headNodes sd))) as [x ->]; [|done].
  apply mapM_is_Some, Forall_forall. intros h _. cbn beta. apply build_total. pose proof (unseen_bound [h]). lia.
Qed.

Lemma sequence_sound m s d : sequence = Some m → d ∈ default [] (m !! s) → depends s d.
Proof.
  unfold sequence, serviceStartupSequence. destruct (mapM _ _) as [lists|] eqn:Em; [|done]. intros [= <-].
  rewrite add_neighbours_elem. intros (ps & Hps & Hin)%list_elem_of_In%in_concat.
  apply list_elem_of_In, list_elem_of_fmap in Hps as (l & -> & Hl). apply list_elem_of_In in Hin.
  apply list_elem_of_In, in_concat in Hl as (ls & Hls & Hl). apply list_elem_of_In in Hls, Hl.
  apply mapM_Some in Em. apply list_elem_of_lookup in Hls as [i Hi].
  destruct (Forall2_lookup_r _ _ _ _ _ Em Hi) as (h & _ & Hb).
  destruct (build_sound _ [h] h ls l eq_refl Hb Hl) as (q & -> & Hq). by apply (neighbours_path h q).
Qed.

(** C38 (equivalence): for components whose dependencies have no cycle, the order of
    starting is found, and a component waits for exactly those it depends on, each
    named once. *)
Theorem startup_sequence_exact (rank : string → nat) (Hrank : ∀ a b, depends a b → rank b < rank a) :
  ∃ m, sequence = Some m ∧ ∀ s, (∀ d, d ∈ default [] (m !! s) ↔ depends s d) ∧ NoDup (default [] (m !! s)).
Proof.
  destruct sequence_some as [m Hm]. exists m. split; [done|]. intros s.
  split; [intros d; split; [by apply sequence_sound|]|].
  - intros Hd. assert (s ∈ serviceIDs) as Hs by (destruct Hd as (r & Hr & <- & _); by apply (proj1 (Forall_forall _ _) Hids)).
    destruct (heads_reach rank Hrank s Hs) as (h & q & Hh & Hq & Hl). unfold sequence, serviceStartupSequence in Hm.
    destruct (mapM _ _) as [lists|] eqn:Em; [|done]. injection Hm as <-. apply add_neighbours_elem.
    apply mapM_Some in Em. apply list_elem_of_lookup in Hh as [i Hi].
    destruct (Forall2_lookup_l _ _ _ _ _ Em Hi) as (ls & Hls & Hb).
    destruct (build_covers rank Hrank (q ++ [d]) (S (length relations)) [h] h ls) as (l' & q' & Hin & ->); [|exact Hb|by eapply path_snoc|].
    { split; [done|]. by intros x ->%list_elem_of_singleton. }
    apply list_elem_of_In, in_concat. exists (neighbours (h :: q ++ d :: q')). split.
    + apply list_elem_of_In, list_elem_of_fmap. exists (h :: q ++ d :: q'). split; [done|]. apply list_elem_of_In, in_concat.
      exists ls. split; [apply list_elem_of_In; by eapply list_elem_of_lookup_2|]. apply list_elem_of_In.
      cbn in Hin. by rewrite <- app_assoc in Hin.
    + apply list_elem_of_In. by apply neighbours_last.
  - unfold sequence, serviceStartupSequence in Hm. destruct (mapM _ _); [|done]. injection Hm as <-. apply add_neighbours_nodup.
Qed.
End sequence.

(** A ring of three components is cut at two places instead of one. *)
Example ring_cut_twice :
  sequence ["a"; "b"; "c"]%string [mkRelationRow 1 "a" "b"; mkRelationRow 2 "b" "c"; mkRelationRow 3 "c" "a"]%string =
  Some {["a" := ["b"]]}%string.
Proof. vm_compute. reflexivity. Qed.

(** A ring that is entered at three places is not cut at all: its components
    would wait for each other. *)
Example ring_not_cut :
  sequence ["x"; "y"; "z"; "a"; "b"; "c"]%string
    [mkRelationRow 1 "a" "b"; mkRelationRow 2 "b" "c"; mkRelationRow 3 "c" "a"; mkRelationRow 4 "x" "a";
     mkRelationRow 5 "y" "b"; mkRelationRow 6 "z" "c"]%string =
  Some {["a" := ["b"]; "b" := ["c"]; "c" := ["a"]; "x" := ["a"]; "y" := ["b"]; "z" := ["c"]]}%string.
Proof. vm_compute. reflexivity. Qed.

Definition demo_relations : list RelationRow :=
  [mkRelationRow 1 "web" "api"; mkRelationRow 2 "api" "db"; mkRelationRow 3 "web" "db"]%string.
Definition demo_rank (s : string) : nat :=
  if decide (s = "web"%string) then 2 else if decide (s = "api"%string) then 1 else 0.

Lemma startup_sequence_exact_witness :
  ∃ m, sequence ["web"; "api"; "db"]%string demo_relations = Some m ∧
    ∀ s, (∀ d, d ∈ default [] (m !! s) ↔ depends demo_relations s d) ∧ NoDup (default [] (m !! s)).
Proof.
  refine (startup_sequence_exact ["web"; "api"; "db"]%string demo_relations _ demo_rank _).
  - repeat constructor; vm_compute; set_solver.
  - intros a b (r & Hr & <- & <-). apply list_elem_of_In in Hr. destruct Hr as [<-|[<-|[<-|[]]]]; vm_compute; lia.
Defined.

(** ** Memory *)

Section memory.
Context {Req Item : Type} `{BatchOpRequester Req Item}.
Context (components : gmap string ServiceRow).

Definition memory_of (req : Req) : Z :=
  match components !! GetComponentID (Item := Item) req with Some c => request_memory c | None => 0%Z end.

Abbreviation total := (foldr (λ req n, memory_of req + n)%Z 0%Z).

Lemma total_snoc l req : total (l ++ [req]) = (total l + memory_of req)%Z.
Proof. induction l as [|x l IH]; cbn [foldr app]; lia. Qed.

Lemma check_outcome allcm req :
  match check components allcm (GetComponentID (Item := Item) req) with
  | inl _ => components !! GetComponentID (Item := Item) req = None ∨ (allcm < memory_of req)%Z
  | inr rest => (memory_of req ≤ allcm)%Z ∧ rest = int64 (allcm - memory_of req)
  end.
Proof. unfold check, memory_of. destruct (components !! _); [|by left]. case_decide; [by right|]. split; [lia|done]. Qed.

Lemma check_all_partition (allcm : Z) (reqs : list Req) :
  let am := check_all (Item := Item) components allcm reqs in
  am_batchOpRequests am ++ am_badOpRequest am ≡ₚ reqs ∧ length (am_batchOpResult am) = length (am_badOpRequest am).
Proof.
  unfold check_all. induction reqs as [|req reqs IH] using rev_ind; [done|]. rewrite foldl_app. cbn [foldl].
  destruct (foldl _ _ reqs) as [rest res granted bad]. unfold check_request. cbn [am_allcm].
  cbn [am_batchOpRequests am_badOpRequest am_batchOpResult] in IH. destruct IH as [Hperm Hlen].
  destruct (check components _ _) as [e|rest']; cbn [am_batchOpRequests am_badOpRequest am_batchOpResult].
  - rewrite !length_app. cbn. split; [by rewrite app_assoc, Hperm|lia].
  - split; [|done]. rewrite <- app_assoc. cbn. by rewrite <- Permutation_middle, <- Hperm, Permutation_cons_append.
Qed.

(** C39 (bounds): memory is granted request by request: together the components
    granted never take more than there is, what is left is the difference, every
    request is granted or refused, and a component refused would not fit into what
    is left even at the end. *)
Theorem memory_granted (allcm : Z) (reqs : list Req) (Ha : (0 ≤ allcm < 2 ^ 63)%Z)
    (Hc : map_Forall (λ _ c, 0 ≤ request_memory c)%Z components) :
  let am := check_all (Item := Item) components allcm reqs in
  (total (am_batchOpRequests am) ≤ allcm)%Z ∧ am_allcm am = (allcm - total (am_batchOpRequests am))%Z ∧
  am_batchOpRequests am ++ am_badOpRequest am ≡ₚ reqs ∧
  ∀ req, req ∈ am_badOpRequest am →
    components !! GetComponentID (Item := Item) req = None ∨ (am_allcm am < memory_of req)%Z.
Proof.
  intros am. enough ((total (am_batchOpRequests am) ≤ allcm)%Z ∧ am_allcm am = (allcm - total (am_batchOpRequests am))%Z ∧
    ∀ req, req ∈ am_badOpRequest am →
      components !! GetComponentID (Item := Item) req = None ∨ (am_allcm am < memory_of req)%Z) as (? & ? & ?).
  { split; [done|]. split; [done|]. split; [apply check_all_partition|done]. }
  subst am. unfold check_all. assert (∀ req, (0 ≤ memory_of req)%Z) as Hpos.
  { intros req. unfold memory_of. destruct (components !! _) eqn:E; [by apply (Hc _ _ E)|lia]. }
  induction reqs as [|req reqs IH] using rev_ind; [cbn; split; [lia|]; split; [lia|by intros ? ?%elem_of_nil]|].
  rewrite foldl_app. cbn [foldl]. destruct (foldl _ _ reqs) as [rest res granted bad].
  destruct IH as (Hle & Hrest & Hbad). cbn [am_allcm am_batchOpRequests am_badOpRequest] in Hle, Hrest, Hbad. subst rest.
  unfold check_request. cbn [am_allcm]. pose proof (check_outcome (allcm - total granted) req) as Ho.
  pose proof (Hpos req). destruct (check components _ _) as [e|rest']; cbn [am_allcm am_batchOpRequests am_badOpRequest].
  - split; [lia|]. split; [done|]. intros r [Hr|Hr]%elem_of_app; [by apply Hbad|].
    apply list_elem_of_singleton in Hr as ->. done.
  - destruct Ho as [Hm ->]. rewrite total_snoc. split; [lia|].
    assert (int64 (allcm - total granted - memory_of req) = allcm - total granted - memory_of req)%Z as ->.
    { apply int64_small. unfold in_int64. assert (0 ≤ total granted)%Z; [|lia]. clear -Hpos.
      induction granted as [|x l IH]; cbn [foldr]; [lia|]. specialize (Hpos x). lia. }
    split; [lia|]. intros r Hr%Hbad. destruct Hr as [|Hr]; [by left|right]. lia.
Qed.
End memory.

(** ** The operations *)

Section operations.
Context `{ApiEnvLaws, Rfc3339, BatchEnv} {Req Item : Type} `{BatchOpRequester Req Item}.
Context (now : Z).

(** The check of the last event is made as for an event that is handled at
    once, and lets everything through. *)
Lemma checkEvents_all (reqs : list Req) w : checkEvents (Item := Item) now reqs w = (w, Ok (reqs, [])).
Proof.
  revert w. induction reqs as [|req reqs IH]; intros w; [done|]. cbn [checkEvents]. unfold CanDoEvent.
  rewrite decide_True by done. unfold mbind, M_bind in *. cbn. by rewrite IH.
Qed.

(** Every request is operated on, one after the other, and answered with what
    came of it: [served reqs w w' items]. *)
Inductive served (operate : Req → M World unit) : list Req → World → World → list Item → Prop :=
  | served_none w : served operate [] w w []
  | served_ok req reqs w w1 w' items : Retry (operate req) w = (w1, Ok ()) → served operate reqs w1 w' items →
      served operate (req :: reqs) w w' (set_Success (BatchOpFailureItem req) :: items)
  | served_err req reqs w w1 w' items e : Retry (operate req) w = (w1, Err e) → served operate reqs w1 w' items →
      served operate (req :: reqs) w w' (set_ErrMsg e (BatchOpFailureItem req) :: items).

Lemma run_requests_served operate (reqs : list Req) w w' items :
  run_requests (Item := Item) operate reqs w = (w', Ok items) → served operate reqs w w' items.
Proof.
  revert w w' items. induction reqs as [|req reqs IH]; intros w w' items; cbn [run_requests]; [intros [= <- <-]; constructor|].
  intros (w1 & r & Hc & Hr)%bind_ok_inv. apply bind_ok_inv in Hr as (w2 & items' & Hi & Hr).
  injection Hr as -> <-. apply IH in Hi. unfold catch in Hc.
  destruct (Retry (operate req) w) as [w3 [[]|e|]] eqn:E; [| |done]; injection Hc as <- <-; by econstructor.
Qed.

Lemma served_length operate reqs w w' items : served operate reqs w w' items → length items = length reqs.
Proof. induction 1; simpl; congruence. Qed.

Lemma run_requests_no_err operate (reqs : list Req) w w' e : run_requests (Item := Item) operate reqs w ≠ (w', Err e).
Proof.
  revert w. induction reqs as [|req reqs IH]; intros w; cbn [run_requests]; [done|].
  unfold catch, mbind, M_bind in *. destruct (Retry (operate req) w) as [w1 [a|e1|]]; [..|done].
  all: specialize (IH w1); destruct (run_requests operate reqs w1) as [w2 [b|e2|]]; cbn; [done| |done]; intros [= -> ->]; by apply IH.
Qed.

#[local] Instance silent_sum {A} (r : error + A) : silent (of_sum r).
Proof. by destruct r. Qed.

Context (Hbulk : ∀ c l, silent (BulkUpsert c l)).

Lemma silent_sequence ids : silent (startup_sequence ids).
Proof.
  unfold startup_sequence. apply silent_bind; [apply silent_catch, silent_find|]. intros [e|rs]; [apply silent_panic|].
  destruct (serviceStartupSequence _ _); [apply silent_ret|apply silent_panic].
Qed.

Lemma silent_memory tenant (reqs : list Req) : silent (NewAllocMemory (Item := Item) tenant reqs).
Proof.
  unfold NewAllocMemory, allocatable. apply silent_bind; [|intros a; apply silent_bind; [apply silent_find|done]].
  case_decide; (apply silent_bind; [apply silent_sum|done]).
Qed.

Lemma silent_events tid op (reqs bads : list Req) mt : silent (createEvents (Item := Item) now tid op reqs bads mt).
Proof.
  split. intros w. unfold createEvents. pose proof (silent_run _ (silent := silent_wrap "create events in batch" _ (Hbulk Tx
    (event_of (Item := Item) now tid op (GetEventID (Item := Item) <$> bads) mt <$> reqs))) (Begin w).1) as Hs.
  destruct (wrap_err _ _ (Begin w).1) as [w' [u|e|]]; cbn in *; [|done..].
  unfold Commit. by destruct (statement_error _).
Qed.

(** ** What a batch is decided by *)

(** The order of starting, of the relations there are. *)
Definition read_order (ids : list string) (w : World) (m : gmap string (list string)) : Prop :=
  ∃ relations, (∀ r, r ∈ relations ↔ r ∈ tb_relations (w_db w) ∧ rlr_ServiceID r ∈ ids) ∧
    serviceStartupSequence (NewServiceDependency ids relations) (S (length relations)) = Some m.

(** The memory there is: of the tenant, if that is limited, or of the cluster. *)
Definition read_memory (tenant : Tenants) (allcm : Z) : Prop :=
  if decide (tn_LimitMemory tenant = 0%Z) then cluster_memory = inr allcm
  else ∃ used, tenant_memory (tn_UUID tenant) = inr used ∧ allcm = int64 (tn_LimitMemory tenant - used).

Lemma find_rows {R} `{Row R} (P : R → Prop) `{∀ r, Decision (P r)} w w' l : Find Pool P w = (w', Ok l) →
  w_db w' = w_db w ∧ ∀ r, r ∈ l ↔ r ∈ rows (w_db w) ∧ P r.
Proof.
  intros E. pose proof (find_outcome Pool P w) as Hf. rewrite E in Hf. destruct Hf as (Hdb & _ & Hl & _).
  split; [done|]. intros r. rewrite (Hl _ eq_refl), list_elem_of_filter. cbn. tauto.
Qed.

Lemma startup_outcome ids w w' m : startup_sequence ids w = (w', Ok m) → w_db w' = w_db w ∧ read_order ids w m.
Proof.
  unfold startup_sequence. intros (w1 & r & E & Hr)%bind_ok_inv.
  unfold catch in E. destruct (ListByServiceIDs ids w) as [w2 [rs|e|]] eqn:E2; [| |done]; injection E as <- <-; [|done].
  apply find_rows in E2 as [Hdb Hrs]. destruct (serviceStartupSequence _ _) as [m'|] eqn:Em; [|done]. injection Hr as <- <-.
  split; [done|]. by exists rs.
Qed.

Lemma memory_outcome tenant (reqs : list Req) w w' am : NewAllocMemory (Item := Item) tenant reqs w = (w', Ok am) →
  ∃ components allcm, am.1 = check_all (list_components components) allcm reqs ∧ read_memory tenant allcm ∧
    ∀ c, c ∈ components ↔ c ∈ tb_services (w_db w) ∧ svr_ServiceID c ∈ GetComponentID (Item := Item) <$> reqs.
Proof.
  unfold NewAllocMemory. intros (w1 & a & Ea & E)%bind_ok_inv. apply bind_ok_inv in E as (w2 & comps & Ec & E).
  injection E as _ <-. exists comps, a.1. split; [done|]. apply find_rows in Ec as [_ Hc].
  assert (w1 = w ∧ read_memory tenant a.1) as [-> Hm]; [|by split].
  unfold allocatable in Ea. unfold read_memory. destruct (decide (tn_LimitMemory tenant = 0%Z)) as [Hz|Hz].
  - rewrite decide_False in Ea by tauto. apply bind_ok_inv in Ea as (w3 & n & En & Ea). injection Ea as <- <-.
    unfold of_sum in En. destruct cluster_memory; [done|]. by injection En as <- <-.
  - rewrite decide_True in Ea by done. apply bind_ok_inv in Ea as (w3 & n & En & Ea). injection Ea as <- <-.
    unfold of_sum in En. destruct (tenant_memory _) as [|used]; [done|]. injection En as <- <-. split; [done|]. by exists used.
Qed.

(** C40 (functional): a request to start or build a batch is answered as a whole
    with an error, and then nothing has been sent, or request by request.  From the
    components and relations of the database and the memory there is follow those
    refused, and the order of starting.  Every other one is operated on, one after
    the other and with the components it waits for, from a state in which nothing
    has been sent yet, and its answer is the outcome of that; each request gets one
    answer.  (The events of all are created before, for the bulk insertion sends
    nothing; a crash of an operation is a crash of the batch.) *)
Theorem batch_answers operate tenant operator (reqs : list Req) w w' r
    (Hrun : operate_checked (Item := Item) now operate tenant operator reqs w = (w', r)) :
  let ids := GetComponentID (Item := Item) <$> reqs in
  match r with
  | Ok items => ∃ components allcm m items',
      let am := check_all (Item := Item) (list_components components) allcm reqs in
      (∀ c, c ∈ components ↔ c ∈ tb_services (w_db w) ∧ svr_ServiceID c ∈ ids) ∧ read_memory tenant allcm ∧ read_order ids w m ∧
      items = am_batchOpResult am ++ items' ∧
      (∃ w1, w_tasks w1 = w_tasks w ∧ served operate (with_sequence (Item := Item) m <$> am_batchOpRequests am) w1 w' items') ∧
      length items = length reqs
  | Err _ => w_tasks w' = w_tasks w
  | Panic => True
  end.
Proof.
  unfold operate_checked in Hrun. cbn zeta.
  destruct (startup_sequence (GetComponentID (Item := Item) <$> reqs) w) as [w1 [m|e|]] eqn:E1;
    pose proof (silent_run _ (silent := silent_sequence (GetComponentID (Item := Item) <$> reqs)) w) as S1; rewrite E1 in S1; cbn [fst] in S1;
    unfold mbind at 1, M_bind at 1 in Hrun; rewrite E1 in Hrun; [|by injection Hrun as <- <-..].
  pose proof (silent_wrap "new alloc memory" _ (silent_memory tenant reqs)) as [S2]. specialize (S2 w1).
  unfold mbind at 1, M_bind at 1 in Hrun.
  destruct (wrap_err "new alloc memory" (NewAllocMemory tenant reqs) w1) as [w2 [am|e|]] eqn:E2; cbn [fst] in S2;
    [|by injection Hrun as <- <-; congruence|by injection Hrun as <- <-].
  unfold mbind at 1, M_bind at 1 in Hrun. rewrite checkEvents_all in Hrun. cbn [fst snd] in Hrun.
  pose proof (silent_run _ (silent := silent_events (tn_UUID tenant) operator reqs (am_badOpRequest am.1) am.2) w2) as S3.
  unfold mbind at 1, M_bind at 1 in Hrun.
  destruct (createEvents _ _ _ reqs _ _ w2) as [w3 [u|e|]] eqn:E3; cbn [fst] in S3;
    [|by injection Hrun as <- <-; congruence|by injection Hrun as <- <-].
  unfold mbind, M_bind in Hrun.
  destruct (run_requests operate _ w3) as [w4 [items'|e|]] eqn:E4; [|by apply run_requests_no_err in E4|by injection Hrun as <- <-].
  injection Hrun as <- <-. cbn [app].
  apply startup_outcome in E1 as [Hdb Hm].
  assert (NewAllocMemory (Item := Item) tenant reqs w1 = (w2, Ok am)) as Em.
  { unfold wrap_err in E2. destruct (NewAllocMemory tenant reqs w1) as [w2' [am'|e|]]; [done| |done]. by injection E2. }
  apply memory_outcome in Em as (components & allcm & Ham & Hmem & Hcs). rewrite Hdb in Hcs.
  exists components, allcm, m, items'. rewrite <- Ham. pose proof (run_requests_served _ _ _ _ _ E4) as Hf.
  split; [done|]. split; [done|]. split; [done|]. split; [done|]. split; [exists w3; split; [congruence|done]|].
  apply served_length in Hf. rewrite length_fmap in Hf. rewrite length_app, Hf.
  destruct (check_all_partition (list_components components) allcm reqs) as [Hperm Hlen]. rewrite <- Ham in Hperm, Hlen.
  rewrite Hlen, <- (Permutation_length Hperm), length_app. lia.
Qed.
End operations.

(** ** Examples *)

Record DemoReq := mkDemoReq { dq_component : string; dq_config : list (string * string) }.
Record DemoItem := mkDemoItem { di_component : string; di_error : option error; di_success : bool }.

#[local] Instance demo_requester : BatchOpRequester DemoReq DemoItem := {
  GetComponentID := dq_component;
  GetEventID := dq_component;
  OpType _ := "start-service"%string;
  UpdateConfig k v r := mkDemoReq (dq_component r) ((k, v) :: dq_config r);
  BatchOpFailureItem r := mkDemoItem (dq_component r) None false;
  set_ErrMsg e i := mkDemoItem (di_component i) (Some e) false;
  set_Success i := mkDemoItem (di_component i) None true
}.

#[local] Instance calm_env : ApiEnv := {
  statement_error _ := None; any_order _ l := l; NewUUID _ := "id"%string; queue_error _ := None }.
#[local] Instance demo_times : Rfc3339 := { Format _ := "now"%string; Parse _ := None }.
#[local] Instance demo_batch_env : BatchEnv := {
  tenant_memory _ := inr 0%Z;
  cluster_memory := inr 1024%Z;
  BulkUpsert c l := forM l (Create c);
  Retry m := m
}.

Lemma demo_bulk c l : silent (BulkUpsert c l).
Proof.
  cbn. induction l as [|r l IH]; [apply silent_ret|]. apply silent_bind; [|done]. split. intros w. by destruct c, w.
Qed.

Definition demo_services : list ServiceRow :=
  [mkServiceRow 1 "t" "web" "gr1" "ns" "internal" 512 1 "v1" "" "" "" 0 0 ""; mkServiceRow 2 "t" "api" "gr2" "ns" "internal" 512 1 "v1" "" "" "" 0 0 "";
   mkServiceRow 3 "t" "db" "gr3" "ns" "internal" 128 1 "v1" "" "" "" 0 0 ""]%string.
Definition demo_batch_world : World :=
  mkWorld (mkTables [] [] [] [] [] [] demo_services [] [] [] demo_relations [] no_parts 4) None 0 0 ∅ [].
Definition demo_batch : list DemoReq := [mkDemoReq "web" []; mkDemoReq "api" []; mkDemoReq "db" []]%string.

(** The operation of the example sends the order the component starts in. *)
Definition demo_operate (r : DemoReq) : M World unit :=
  send (SentBuild (mkBuildTask "worker" (dq_component r) (list_to_map (dq_config r)))).

Definition demo_start : World * result (list DemoItem) :=
  operate_checked (Item := DemoItem) 0 demo_operate (mkTenants "t" 700) "me" demo_batch demo_batch_world.

(** There is memory for the first and the last of three. *)
Example demo_start_run :
  demo_start.2 = Ok [mkDemoItem "api" (Some (EMsg "tenant_lack_of_memory")) false; mkDemoItem "web" None true;
                     mkDemoItem "db" None true]%string ∧
  w_tasks demo_start.1 =
    [SentBuild (mkBuildTask "worker" "web" {["boot_seq_dep_service_ids" := "api,db"]});
     SentBuild (mkBuildTask "worker" "db" {["boot_seq_dep_service_ids" := ""]})]%string ∧
  evr_Status <$> tb_events (w_db demo_start.1) = [""; "failure"; ""]%string.
Proof. split; [|split]; vm_compute; reflexivity. Qed.

Lemma memory_granted_witness :
  let am := check_all (Item := DemoItem) (list_components demo_services) 700 demo_batch in
  (foldr (λ req n, memory_of (Item := DemoItem) (list_components demo_services) req + n) 0 (am_batchOpRequests am) ≤ 700)%Z.
Proof.
  refine (proj1 (memory_granted (Item := DemoItem) (list_components demo_services) 700 demo_batch _ _)); [lia|].
  apply (bool_decide_unpack _). vm_compute. exact I.
Defined.

#[local] Instance calm_laws : ApiEnvLaws.
Proof. by split. Qed.

Lemma batch_answers_witness :
  ∃ components allcm m items',
    let am := check_all (Item := DemoItem) (list_components components) allcm demo_batch in
    (∀ c, c ∈ components ↔ c ∈ demo_services ∧ svr_ServiceID c ∈ ["web"; "api"; "db"]%string) ∧
    (∃ used, inr 0%Z = inr (A := error) used ∧ allcm = int64 (700 - used)) ∧
    read_order ["web"; "api"; "db"]%string demo_batch_world m ∧
    match demo_start.2 with Ok items => items | _ => [] end = am_batchOpResult am ++ items' ∧
    (∃ w1, w_tasks w1 = [] ∧
      served demo_operate (with_sequence (Item := DemoItem) m <$> am_batchOpRequests am) w1 demo_start.1 items') ∧ 3 = 3.
Proof.
  exact (batch_answers (Item := DemoItem) 0 demo_bulk demo_operate (mkTenants "t" 700) "me" demo_batch demo_batch_world
    demo_start.1 demo_start.2 (surjective_pairing _)).
Defined.
