(* ===== verification/OperationFlow.v ===== *)
(** * From an operation to its controller

    A request of the API server ([Operation]) becomes a message, the message
    a value of the queue ([Queue]), the value a task ([Task]), and the task a
    controller of the worker ([HandleSpec]). *)
From S2P Require Import Prelude Kube AppService AppStatus Patch Store Sequence Task ComponentRows ApiDao Handle HandleSpec Queue QueueSpec Operation OperationSpec.

(** How bodies are written, and that they are read back. *)
Class TaskJson := { encode : TaskBody → option string }.
Class TaskJsonLaws `{TaskJson, Unmarshal} : Prop := {
  start_json b s : encode (BStart b) = Some s → un_start s = Some b;
  stop_json b s : encode (BStop b) = Some s → un_stop s = Some b;
  rolling_json b s : encode (BRollingUpgrade b) = Some s → un_rolling s = Some b
}.

(** The requests that end in one message to the worker. *)
Inductive request :=
  | RStart (r : StartOrStopInfoRequestStruct)
  | RStop (r : StartOrStopInfoRequestStruct)
  | RUpgrade (r : UpgradeInfoRequestStruct)
  | RRollback (r : RollbackInfoRequestStruct).

Definition target (r : request) : string :=
  match r with
  | RStart r | RStop r => sr_ServiceID r | RUpgrade r => ur_ServiceID r | RRollback r => rr_ServiceID r
  end.

Definition task_type (r : request) : string :=
  match r with RStart _ => "start" | RStop _ => "stop" | _ => "rolling_upgrade" end.

(** What a request asks the worker to do with a component. *)
Definition ordered (r : request) (service : ServiceRow) : TaskBody :=
  let t := svr_TenantID service in let i := svr_ServiceID service in let v := svr_DeployVersion service in
  match r with
  | RStart r => BStart (mkStart t i v (sr_EventID r) (sr_Configs r) (sr_DepServiceIDInBootSeq r))
  | RStop r => BStop (mkStop t i v (sr_EventID r) (sr_Configs r))
  | RUpgrade r => BRollingUpgrade (mkRolling t i (if decide (ur_UpgradeVersion r = ""%string) then v else ur_UpgradeVersion r)
                    (ur_EventID r) [] (ur_Configs r))
  | RRollback r => BRollingUpgrade (mkRolling t i (rr_RollBackVersion r) (rr_EventID r) [] ∅)
  end.

(** The controller a request is for: it depends on what the worker knows of the component then. *)
Definition controller_for (r : request) (p : presence) (patched : bool) : option TypeController :=
  match r, p with
  | RStart _, Running => None
  | RStart _, _ => Some TypeStartController
  | RStop _, Absent => None
  | RStop _, _ => Some TypeStopController
  | _, Running => if patched then Some TypeUpgradeController else None
  | _, _ => Some TypeStartController
  end.

Section flow.
Context `{ApiEnvLaws} (Hcalm : ∀ n, statement_error n = None).
Context `{ProtoLaws} `{TaskJsonLaws}.
Context {C : Type} (kc : KubeClient C) (kl : C → ∀ k, string → string → option (obj k)).
Context `{!KubeLaws kc kl, ComponentKinds}.
Context (InitCacheAppService : string → string → init_error + AppService).
Context (InitAppService : string → gmap string string → list string → result AppService).
Context (encode_statefulset encode_deployment : Workload → json).
Context (db : Database).
Context (sha224 : string → string) (list_services : string → gmap string string → option (list string)).
Context (NewUUID : Manager → string).
Context {HL : handler_laws InitCacheAppService InitAppService db}.

Abbreviation worker := (exec_task kc InitCacheAppService InitAppService encode_statefulset
  encode_deployment db sha224 list_services NewUUID).

Definition perform (r : request) : M ApiDao.World OperationResult :=
  match r with RStart r => Start r | RStop r => Stop r | RUpgrade r => Upgrade r | RRollback r => RollBack r end.

(** What the client of the queue is given for a message to the worker. *)
Definition posted (taskType : string) (b : TaskBody) : TaskStruct := mkTaskStruct WorkerTopic taskType (encode b).

Lemma perform_sends r w w' re (Hkeys : NoDup (svr_ID <$> tb_services (w_db w)))
    (Hids : Forall (λ r, svr_ID r ≠ 0%Z) (tb_services (w_db w))) :
  perform r w = (w', Ok re) → or_Status re = "success"%string →
  ∃ service, operated (target r) w service ∧ w_tasks w' = w_tasks w ++ [SentWork (task_type r) (ordered r service)].
Proof.
  intros E Hs. destruct r as [r|r|r|r]; cbn [perform target] in *.
  - destruct (start_stop_outcome false r w) as (w1 & re1 & E1 & Ho). rewrite E in E1. injection E1 as <- <-.
    destruct Ho as [(Hf & _)|(_ & _ & service & Ho & Ht)]; [congruence|]. by exists service.
  - destruct (start_stop_outcome true r w) as (w1 & re1 & E1 & Ho). rewrite E in E1. injection E1 as <- <-.
    destruct Ho as [(Hf & _)|(_ & _ & service & Ho & Ht)]; [congruence|]. by exists service.
  - destruct (upgrade_outcome Hcalm w Hkeys Hids r) as (w1 & re1 & E1 & Ho). rewrite E in E1. injection E1 as <- <-.
    destruct Ho as [(Hf & _)|(_ & service & built & Ho & _ & _ & _ & Ht & _)]; [congruence|]. by exists service.
  - destruct (rollback_outcome Hcalm w Hkeys Hids r) as (w1 & re1 & E1 & Ho). rewrite E in E1. injection E1 as <- <-.
    destruct Ho as [(Hf & _)|(_ & service & Ho & Ht & _)]; [congruence|]. by exists service.
Qed.

Lemma decoded_body r service body : encode (ordered r service) = Some body →
  NewTaskBody (task_type r) body = ordered r service.
Proof.
  destruct r; cbn [ordered task_type]; intros Hb; unfold NewTaskBody.
  - by rewrite (start_json _ _ Hb).
  - by rewrite (stop_json _ _ Hb).
  - by rewrite (rolling_json _ _ Hb).
  - by rewrite (rolling_json _ _ Hb).
Qed.

Lemma server_message_value e now id ts v body : SendBuilderTopic e now id ts = inr v → ts_TaskBody ts = Some body →
  ∃ tid, server_message v = inr (mkPbMessage tid (mkMessage (ts_TaskType ts) body now "kato")).
Proof.
  unfold SendBuilderTopic, buildTask. intros Hv Hb. rewrite Hb in Hv. unfold server_value in Hv. cbn in Hv.
  destruct (supported e (ts_Topic ts)); [|done]. destruct (Marshal _) as [s|] eqn:Em; [|done].
  injection Hv as <-. exists id. unfold server_message. by rewrite (unmarshal_marshal _ _ Em).
Qed.

(** C35 (refinement): a request that succeeded left one message, about a component of
    the database; whatever the queue makes of it, the worker that takes it ends with
    the controller the request is for, started for that component and no other, or
    with none when one of its own sources fails. *)
Theorem operation_reaches_worker (r : request) (w w' : ApiDao.World) (re : OperationResult)
    (Hkeys : NoDup (svr_ID <$> tb_services (w_db w))) (Hids : Forall (λ r, svr_ID r ≠ 0%Z) (tb_services (w_db w)))
    (Hrun : perform r w = (w', Ok re)) (Hok : or_Status re = "success"%string) :
  ∃ service, operated (target r) w service ∧
    w_tasks w' = w_tasks w ++ [SentWork (task_type r) (ordered r service)] ∧
    ∀ e now id v, SendBuilderTopic e now id (posted (task_type r) (ordered r service)) = inr v →
      ∃ m, server_message v = inr m ∧
        let task := TransTask (pb_Message m) in
        Body task = ordered r service ∧
        ∀ ww, store_ok (w_store ww) →
          ends InitAppService db NewUUID (target r)
            (controller_for r (presence_of (target r) ww)
               (patched InitAppService encode_statefulset encode_deployment (Body task) ww)) ww (worker task ww).
Proof.
  destruct (perform_sends r w w' re Hkeys Hids Hrun Hok) as (service & Ho & Ht). exists service. split; [done|]. split; [done|].
  intros e now id v Hv. assert (∃ body, encode (ordered r service) = Some body) as [body Hb].
  { unfold SendBuilderTopic, buildTask, posted in Hv. cbn in Hv. destruct (encode _) as [body|]; [by exists body|done]. }
  destruct (server_message_value _ _ _ _ _ body Hv Hb) as [tid Hm]. eexists. split; [exact Hm|]. cbn zeta.
  assert (Body (TransTask (pb_Message (mkPbMessage tid (mkMessage (ts_TaskType (posted (task_type r) (ordered r service))) body now "kato"))))
    = ordered r service) as Hbody by (cbn; by apply decoded_body).
  split; [exact Hbody|]. intros ww Hw.
  set (task := TransTask _) in *. destruct Ho as (_ & Hid & _).
  pose proof (task_ends kc kl InitCacheAppService InitAppService encode_statefulset encode_deployment db sha224 list_services
    NewUUID task (target r) ww Hw) as Hends.
  assert (Type_ task = task_type r) as Hty by done. rewrite Hty, Hbody in Hends. rewrite Hbody.
  destruct r; cbn [ordered task_type target controller_for] in *;
    specialize (Hends eq_refl (f_equal Some Hid)); exact Hends.
Qed.
End flow.

(** ** Example: a start, end to end *)

Definition flow_body : StartTaskBody := mkStart "tenant" "svc" "v1" "event" ∅ [].

#[local] Instance flow_json : TaskJson :=
  { encode b := match b with
                | BStart b => if decide (start_ServiceID b = "svc" ∧ start_TenantID b = "tenant" ∧ start_DeployVersion b = "v1" ∧
                                start_EventID b = "event" ∧ start_Configs b = ∅ ∧ start_DepServiceIDInBootSeq b = [])%string
                              then Some "{}"%string else None
                | _ => None end }.
#[local] Instance flow_unmarshal : Unmarshal := {
  un_start s := if decide (s = "{}"%string) then Some flow_body else None;
  un_stop _ := None; un_restart _ := None; un_rolling _ := None; un_rollback _ := None; un_group_start _ := None;
  un_group_stop _ := None; un_horizontal _ := None; un_vertical _ := None; un_rule _ := None; un_plugin _ := None;
  un_gc _ := None; un_delete_tenant _ := None; un_refresh _ := None }.
#[local] Instance flow_json_laws : TaskJsonLaws.
Proof.
  split; [|done..]. intros [] s. cbn. case_decide as Hd; [|done]. intros [= <-]. rewrite decide_True by done.
  destruct Hd as (-> & -> & -> & -> & -> & ->). reflexivity.
Qed.

Definition flow_world : ApiDao.World :=
  ApiDao.mkWorld (mkTables [] [] [] [] [] [] [mkServiceRow 1 "tenant" "svc" "gr1" "ns" "internal" 512 1 "v1" "" "" "" 0 0 ""]%string [] [] [] [] [] no_parts 2)
    None 0 0 ∅ [].
Definition flow_request : request := RStart (mkStartInfo "event" "svc" ∅ []).
Definition flow_result : ApiDao.World * result OperationResult := @perform sure_env flow_request flow_world.

Lemma operation_reaches_worker_witness :
  ∃ m w' a, @server_message demo_proto "m" = inr m ∧
    @exec_task RefKube.cluster RefKube.client demo_kinds demo_init_cache demo_init
      demo_encoding demo_encoding demo_db (λ s, s) (λ _ _, None) (λ _, "id"%string) (TransTask (pb_Message m))
      demo_world = (w', Ok ()) ∧
    w_controllers w' !! "id"%string = Some (mkController TypeStartController [a]) ∧ ServiceID a = "svc"%string.
Proof.
  destruct (@operation_reaches_worker sure_env sure_laws sure_calm demo_proto demo_proto_laws flow_json flow_unmarshal
    flow_json_laws RefKube.cluster RefKube.client RefKube.lookup _ demo_kinds demo_init_cache demo_init demo_encoding
    demo_encoding demo_db (λ s, s) (λ _ _, None) (λ _, "id"%string) demo_handler_laws flow_request flow_world flow_result.1
    (mkOperationResult "start" "svc" "" "event" "success" "")
    ltac:(apply (bool_decide_unpack _); vm_compute; exact I) ltac:(apply (bool_decide_unpack _); vm_compute; exact I)
    ltac:(vm_compute; reflexivity) eq_refl) as (service & Ho & _ & Hend).
  assert (service = mkServiceRow 1 "tenant" "svc" "gr1" "ns" "internal" 512 1 "v1" "" "" "" 0 0 "") as ->.
  { destruct Ho as [Hin _]. by apply list_elem_of_singleton in Hin. }
  destruct (Hend demo_queue "now"%string "id"%string "m"%string ltac:(vm_compute; reflexivity)) as (m & Hm & Hb & Hw).
  assert (m = demo_pb) as -> by (vm_compute in Hm; by injection Hm).
  specialize (Hw demo_world ltac:(by intros ? ? ?)). destruct Hw as [_ (o & He & Ho')].
  destruct Ho' as [Ho'|[-> Hs]].
  - destruct o as [[t a]|]; [|discriminate].
    assert (t = TypeStartController) as -> by (by injection Ho').
    destruct (eff_app _ _ _ _ _ He _ _ eq_refl) as [Ha _].
    eexists _, _, a. split; [reflexivity|]. split; [reflexivity|]. split; [|exact Ha].
    exact (f_equal (lookup "id"%string) (eff_controllers _ _ _ _ _ He)).
  - exfalso. apply Hs. split; [by eexists|]. intros. by eexists.
Defined.
