(* ===== verification/ComponentDao.v ===== *)
(** * Data access of a component's parts

    [db/mysql/dao]: the data access objects of ports, environment variables,
    volumes, mounts, relations, labels, plugin ports, probes, endpoints and
    autoscalers, as statements of [ApiDao]. *)
From stdpp Require Import pretty sorting.
From S2P Require Import Prelude ComponentRows ApiDao.

Definition ErrRecordAlreadyExist : error := EMsg "record already exist".
Definition ErrPortNotFound : error := EMsg "service port not found".

(** [gormbulkups.BulkUpsert] *)
Class BulkUpserts `{ApiEnv} := { bulk_upsert : ∀ {R : Type} `{Row R}, Conn → list R → M World unit }.

(** What the objects have in common. *)
Section common.
Context `{ApiEnv} {R : Type} `{Row R} (c : Conn).

(** A row that is added unless there is one like it. *)
Definition add_unless (P : R → Prop) `{∀ r, Decision (P r)} (r : R) (e : error) : M World unit :=
  ok ← RecordNotFound c P; if (ok : bool) then Create c r else fail e.

(** A row that is saved if it has a primary key. *)
Definition save_with_id (r : R) (msg : string) : M World unit :=
  if decide (row_ID r = 0%Z) then fail (EMsg msg) else Save c r.

(** [Where(...).Find(&row)] and [Where(...).Delete(&row)]: the row that was found
    has a primary key, which then is a condition as well. *)
Definition delete_found (P : R → Prop) `{∀ r, Decision (P r)} : M World unit :=
  r ← Find_one c P; Delete c (λ x, P x ∧ row_ID x = row_ID r).

(** [Where(...).Update(columns)] *)
Definition update_where (P : R → Prop) `{∀ r, Decision (P r)} (f : R → R) : M World unit :=
  statement c (λ t, (on_rows (λ l, (λ r, if decide (P r) then f r else r) <$> l) t, ())).

(** The first of several rows with one key. *)
Fixpoint dedup_by (key : R → string) (seen : list string) (l : list R) : list R :=
  match l with
  | [] => []
  | r :: l' => if decide (key r ∈ seen) then dedup_by key seen l' else r :: dedup_by key (key r :: seen) l'
  end.
End common.

Section dao.
Context `{ApiEnv} (c : Conn).

(** ** Components *)

(** A new row takes the default of a column whose field is blank. *)
Definition column_default {A} `{EqDecision A} (blank d a : A) : A := if decide (a = blank) then d else a.

Definition service_defaults (s : ServiceRow) : ServiceRow :=
  s <| svr_ContainerCPU ::= column_default 0%Z 500%Z |> <| svr_ContainerMemory ::= column_default 0%Z 128%Z |>
    <| svr_ExtendMethod ::= column_default "" "stateless" |>%string <| svr_Replicas ::= column_default 0%Z 1%Z |>
    <| svr_Kind ::= column_default "" "internal" |>%string.

Definition Service_AddModel (service : ServiceRow) : M World unit :=
  add_unless c (λ r, svr_ServiceAlias r = svr_ServiceAlias service ∧ svr_TenantID r = svr_TenantID service)
    (service_defaults service) (EMsg "service name is exist in tenant").

Definition DeleteServiceByServiceID (serviceID : string) : M World unit := Delete c (λ r, svr_ServiceID r = serviceID).

(** A component of the same alias that was deleted before is not an error, and not replaced. *)
Definition ServiceDelete_AddModel (r : DeletedRow) : M World unit :=
  ok ← RecordNotFound c (λ x, svr_ServiceAlias (dlr_Service x) = svr_ServiceAlias (dlr_Service r) ∧
         svr_TenantID (dlr_Service x) = svr_TenantID (dlr_Service r));
  if (ok : bool) then Create c r else mret ().

(** The columns asked for; components from before version 5.2 have their type in a label. *)
Definition GetServiceTypeByID (serviceID : string) : M World ServiceRow :=
  service ← Find_one c (λ r, svr_ServiceID r = serviceID);
  if decide (svr_ExtendMethod service = ""%string) then
    labels ← Find c (λ r, lbr_ServiceID r = serviceID ∧ lbr_LabelKey r = "service-type"%string);
    mret (match last labels with Some l => service <| svr_ExtendMethod := lbr_LabelValue l |> | None => service end)
  else mret service.

(** ** Ports *)

Definition Port_AddModel (port : PortRow) : M World unit :=
  add_unless c (λ r, prt_ServiceID r = prt_ServiceID port ∧ prt_ContainerPort r = prt_ContainerPort port) port
    ErrRecordAlreadyExist.

Definition Port_UpdateModel (port : PortRow) : M World unit := save_with_id c port "port id can not be empty when update ".

Definition Port_Key (t : PortRow) : string :=
  (prt_TenantID t +:+ "/" +:+ prt_ServiceID t +:+ "/" +:+ pretty (prt_ContainerPort t))%string.

Definition CreateOrUpdatePortsInBatch `{!BulkUpserts} (ports : list PortRow) : M World unit :=
  wrap_err "create or update ports in batch" (bulk_upsert c (dedup_by Port_Key [] ports)).

Definition Port_DeleteModel (serviceID : string) (containerPort : Z) : M World unit :=
  Delete c (λ r, prt_ServiceID r = serviceID ∧ prt_ContainerPort r = containerPort).

Definition GetByTenantAndName (tenantID name : string) : M World PortRow :=
  Find_one c (λ r, prt_TenantID r = tenantID ∧ prt_K8sServiceName r = name).

Definition GetPort (serviceID : string) (port : Z) : M World PortRow := λ w,
  match Find_one c (λ r, prt_ServiceID r = serviceID ∧ prt_ContainerPort r = port) w with
  | (w', Err ERecordNotFound) => (w', Err (EWrap "get port" ErrPortNotFound))
  | res => res
  end.

Definition DELPortsByServiceID (serviceID : string) : M World unit := Delete c (λ r, prt_ServiceID r = serviceID).

(** ** Relations and labels *)

Definition Relation_AddModel (relation : RelationRow) : M World unit :=
  add_unless c (λ r, rlr_ServiceID r = rlr_ServiceID relation ∧ rlr_DependServiceID r = rlr_DependServiceID relation) relation
    ErrRecordAlreadyExist.

Definition DeleteRelationByDepID (serviceID depID : string) : M World unit :=
  Delete c (λ r, rlr_ServiceID r = serviceID ∧ rlr_DependServiceID r = depID).

Definition DELRelationsByServiceID (serviceID : string) : M World unit := Delete c (λ r, rlr_ServiceID r = serviceID).

Definition Label_AddModel (label : LabelRow) : M World unit :=
  add_unless c (λ r, lbr_ServiceID r = lbr_ServiceID label ∧ lbr_LabelKey r = lbr_LabelKey label ∧
                     lbr_LabelValue r = lbr_LabelValue label) label (EMsg "label is exist").

Definition DeleteLabelByServiceID (serviceID : string) : M World unit := Delete c (λ r, lbr_ServiceID r = serviceID).

Definition DelTenantServiceLabelsByServiceIDKeyValue (serviceID labelKey labelValue : string) : M World unit :=
  Delete c (λ r, lbr_ServiceID r = serviceID ∧ lbr_LabelKey r = labelKey ∧ lbr_LabelValue r = labelValue).

Definition DelTenantServiceLabelsByServiceIDKey (serviceID labelKey : string) : M World unit :=
  Delete c (λ r, lbr_ServiceID r = serviceID ∧ lbr_LabelKey r = labelKey).

(** ** Environment variables *)

(** A value that is too long is cut. *)
Definition Env_AddModel (env : EnvRow) : M World unit :=
  add_unless c (λ r, env_ServiceID r = env_ServiceID env ∧ env_AttrName r = env_AttrName env)
    (env <| env_Scope ::= column_default "" "outer" |>%string <| env_AttrValue ::= String.substring 0 (Z.to_nat 65532) |>) ErrRecordAlreadyExist.

Definition Env_UpdateModel (env : EnvRow) : M World unit :=
  update_where c (λ r, env_ServiceID r = env_ServiceID env ∧ env_AttrName r = env_AttrName env)
    (λ r, r <| env_AttrValue := env_AttrValue env |> <| env_IsChange := env_IsChange env |> <| env_Scope := env_Scope env |>).

Definition Env_key (e : EnvRow) : string := (env_TenantID e +:+ "+" +:+ env_ServiceID e +:+ "+" +:+ env_AttrName e)%string.

Definition CreateOrUpdateEnvsInBatch `{!BulkUpserts} (envs : list EnvRow) : M World unit :=
  wrap_err "create or update envs in batch" (bulk_upsert c (dedup_by Env_key [] envs)).

Definition Env_DeleteModel (serviceID envName : string) : M World unit :=
  Delete c (λ r, env_ServiceID r = serviceID ∧ env_AttrName r = envName).

Definition DELServiceEnvsByServiceID (serviceID : string) : M World unit := delete_found c (λ r, env_ServiceID r = serviceID).

(** ** Volumes, their files and mounts *)

Definition Volume_AddModel (volume : VolumeRow) : M World unit :=
  add_unless c (λ r, (vol_VolumeName r = vol_VolumeName volume ∨ vol_VolumePath r = vol_VolumePath volume) ∧
                     vol_ServiceID r = vol_ServiceID volume) volume (EMsg "volume is exist").

Definition Volume_UpdateModel (volume : VolumeRow) : M World unit :=
  save_with_id c volume "volume id can not be empty when update ".

Definition GetTenantServiceVolumesByServiceID (serviceID : string) : M World (list VolumeRow) :=
  Find c (λ r, vol_ServiceID r = serviceID).

Definition Volume_DeleteModel (serviceID volumeName : string) : M World unit :=
  delete_found c (λ r, vol_VolumeName r = volumeName ∧ vol_ServiceID r = serviceID).

Definition DeleteByServiceIDAndVolumePath (serviceID volumePath : string) : M World unit :=
  delete_found c (λ r, vol_VolumePath r = volumePath ∧ vol_ServiceID r = serviceID).

Definition GetVolumeByServiceIDAndName (serviceID name : string) : M World VolumeRow :=
  Find_one c (λ r, vol_ServiceID r = serviceID ∧ vol_VolumeName r = name).

Definition DeleteTenantServiceVolumesByServiceID (serviceID : string) : M World unit :=
  Delete c (λ r, vol_ServiceID r = serviceID).

Definition ConfigFile_AddModel (configFile : ConfigFileRow) : M World unit :=
  r ← catch (Find_one c (λ r, cff_ServiceID r = cff_ServiceID configFile ∧ cff_VolumeName r = cff_VolumeName configFile));
  match r with
  | inl ERecordNotFound => Create c configFile
  | inl _ => Save c (mkFileRow 0 "" "" (cff_FileContent configFile))
  | inr old => Save c (old <| cff_FileContent := cff_FileContent configFile |>)
  end.

(** [Update] with a struct leaves columns alone whose new value is blank. *)
Definition ConfigFile_UpdateModel (configFile : ConfigFileRow) : M World unit :=
  update_where c (λ r, cff_ServiceID r = cff_ServiceID configFile ∧ cff_VolumeName r = cff_VolumeName configFile)
    (λ r, if decide (cff_FileContent configFile = ""%string) then r else r <| cff_FileContent := cff_FileContent configFile |>).

Definition GetByVolumeName (sid volumeName : string) : M World ConfigFileRow :=
  Find_one c (λ r, cff_ServiceID r = sid ∧ cff_VolumeName r = volumeName).

Definition DelByVolumeID (sid volumeName : string) : M World unit :=
  Delete c (λ r, cff_ServiceID r = sid ∧ cff_VolumeName r = volumeName).

Definition ConfigFile_DelByServiceID (sid : string) : M World unit := Delete c (λ r, cff_ServiceID r = sid).

Definition Mount_AddModel (relation : MountRow) : M World unit :=
  add_unless c (λ r, mnt_ServiceID r = mnt_ServiceID relation ∧ mnt_DependServiceID r = mnt_DependServiceID relation ∧
                     mnt_VolumeName r = mnt_VolumeName relation) relation ErrRecordAlreadyExist.

Definition DElTenantServiceMountRelationByServiceAndName (serviceID name : string) : M World unit :=
  delete_found c (λ r, mnt_ServiceID r = serviceID ∧ mnt_VolumeName r = name).

Definition DElTenantServiceMountRelationByDepService (serviceID depServiceID : string) : M World unit :=
  delete_found c (λ r, mnt_ServiceID r = serviceID ∧ mnt_DependServiceID r = depServiceID).

Definition DELTenantServiceMountRelationByServiceID (serviceID : string) : M World unit :=
  Delete c (λ r, mnt_ServiceID r = serviceID).

(** ** Plugins *)

Definition NetPluginUp : string := "net-plugin:up".

Definition CheckSomeModelPluginByServiceID (serviceID pluginModel : string) : M World bool :=
  l ← Find c (λ r, plg_ServiceID r = serviceID ∧ plg_PluginModel r = pluginModel ∧ plg_Switch r = true);
  mret (bool_decide (length l = 1)).

Definition DeleteALLRelationByServiceID (serviceID : string) : M World unit := Delete c (λ r, plg_ServiceID r = serviceID).

Definition PluginPort_AddModel (port : PluginPortRow) : M World unit :=
  add_unless c (λ r, ppr_ServiceID r = ppr_ServiceID port ∧ ppr_ContainerPort r = ppr_ContainerPort port ∧
                     ppr_PluginModel r = ppr_PluginModel port) port (EMsg "plugin port mappint is exist").

Definition PluginPort_UpdateModel (port : PluginPortRow) : M World unit :=
  save_with_id c port "id can not be empty when update plugin mapping port".

(** [Order("plugin_port asc")] *)
Definition port_le (a b : PluginPortRow) : Prop := (ppr_PluginPort a ≤ ppr_PluginPort b)%Z.
#[export] Instance port_le_dec a b : Decision (port_le a b).
Proof. unfold port_le. apply _. Defined.

Definition GetPluginMappingPorts (serviceID : string) : M World (list PluginPortRow) :=
  l ← Find c (λ r, ppr_ServiceID r = serviceID); mret (merge_sort port_le l).

Definition GetPluginMappingPort (serviceID pluginModel : string) (containerPort : Z) : M World PluginPortRow :=
  Find_one c (λ r, ppr_ServiceID r = serviceID ∧ ppr_PluginModel r = pluginModel ∧ ppr_ContainerPort r = containerPort).

(** The loop over the range: [Some] when it returns. *)
Fixpoint scan_ports (newPort : PluginPortRow) (waitPort : Z) (ports : list PluginPortRow) : M World (option Z) :=
  match ports with
  | [] => mret None
  | p :: ports' =>
    if decide (ppr_PluginPort p = waitPort) then scan_ports newPort (waitPort + 1) ports'
    else
      r ← catch (PluginPort_AddModel (newPort <| ppr_PluginPort := waitPort |>));
      match r with inl _ => mret (Some 0%Z) | inr _ => scan_ports newPort waitPort ports' end
  end.

Definition minPluginPort : Z := 65301.
Definition maxPluginPort : Z := 65400.

Definition SetPluginMappingPort (tenantID serviceID pluginModel : string) (containerPort : Z) : M World Z :=
  ports ← GetPluginMappingPorts serviceID;
  match list_find (λ p, ppr_ContainerPort p = containerPort) ports, last ports with
  | Some (_, oldp), _ => mret (ppr_PluginPort oldp)
  | None, oldMaxPort =>
    let newPort := mkPpRow 0 tenantID serviceID pluginModel containerPort in
    let add p := _ ← PluginPort_AddModel (newPort p); mret p in
    match oldMaxPort with
    | None => add minPluginPort
    | Some oldMaxPort =>
      scanned ← (if decide (maxPluginPort - 2 < ppr_PluginPort oldMaxPort)%Z
                 then scan_ports (newPort 0%Z) minPluginPort ports else mret None);
      match scanned with
      | Some p => mret p
      | None => add (if decide (containerPort = ppr_PluginPort oldMaxPort + 1)%Z then ppr_PluginPort oldMaxPort + 2
                     else ppr_PluginPort oldMaxPort + 1)%Z
      end
    end
  end.

Definition DeletePluginMappingPortByContainerPort (serviceID pluginModel : string) (containerPort : Z) : M World unit :=
  Delete c (λ r, ppr_ServiceID r = serviceID ∧ ppr_PluginModel r = pluginModel ∧ ppr_ContainerPort r = containerPort).

Definition DeleteAllPluginMappingPortByServiceID (serviceID : string) : M World unit :=
  Delete c (λ r, ppr_ServiceID r = serviceID).

(** ** Probes, monitors, endpoints, autoscalers *)

Definition probe_defaults (p : ProbeRow) : ProbeRow :=
  p <| prb_Mode ::= column_default "" "liveness" |>%string <| prb_Scheme ::= column_default "" "scheme" |>%string
    <| prb_Port ::= column_default 0%Z 80%Z |> <| prb_InitialDelaySecond ::= column_default 0%Z 4%Z |>
    <| prb_PeriodSecond ::= column_default 0%Z 3%Z |> <| prb_TimeoutSecond ::= column_default 0%Z 5%Z |>
    <| prb_IsUsed ::= column_default None (Some 1%Z) |> <| prb_FailureThreshold ::= column_default 0%Z 3%Z |>
    <| prb_SuccessThreshold ::= column_default 0%Z 1%Z |>.

Definition Probe_AddModel (probe : ProbeRow) : M World unit :=
  add_unless c (λ r, prb_ServiceID r = prb_ServiceID probe ∧ prb_Mode r = prb_Mode probe) (probe_defaults probe)
    (EMsg "probe mode is exist").

Definition Probe_UpdateModel (probe : ProbeRow) : M World unit :=
  if decide (prb_ID probe = 0%Z) then
    old ← Find_one c (λ r, prb_ServiceID r = prb_ServiceID probe ∧ prb_ProbeID r = prb_ProbeID probe);
    if decide (prb_ID old = 0%Z) then fail ERecordNotFound else Save c (probe <| prb_ID := prb_ID old |>)
  else Save c probe.

Definition Probe_DeleteModel (serviceID probeID : string) : M World unit :=
  Delete c (λ r, prb_ServiceID r = serviceID ∧ prb_ProbeID r = probeID).

Definition DELServiceProbesByServiceID (serviceID : string) : M World unit := Delete c (λ r, prb_ServiceID r = serviceID).

Definition Monitor_AddModel (m : MonitorRow) : M World unit :=
  add_unless c (λ r, mon_Name r = mon_Name m ∧ mon_TenantID r = mon_TenantID m) m (EMsg "service monitor name is exist").

Definition DeleteServiceMonitorByServiceID (serviceID : string) : M World unit := Delete c (λ r, mon_ServiceID r = serviceID).

Definition Endpoint_AddModel (ep : EndpointRow) : M World unit :=
  ok ← RecordNotFound c (λ r, ept_ServiceID r = ept_ServiceID ep ∧ ept_IP r = ept_IP ep ∧ ept_Port r = ept_Port ep);
  if (ok : bool) then Save c ep else fail ErrRecordAlreadyExist.

Definition Endpoint_DeleteByServiceID (sid : string) : M World unit := Delete c (λ r, ept_ServiceID r = sid).

Definition Discovery_AddModel (cfg : DiscoveryRow) : M World unit :=
  add_unless c (λ r, dsc_ServiceID r = dsc_ServiceID cfg) cfg (EMsg "Discovery configuration exists").

Definition Discovery_DeleteByServiceID (sid : string) : M World unit := Delete c (λ r, dsc_ServiceID r = sid).

Definition Scaler_AddModel (rule : ScalerRow) : M World unit :=
  add_unless c (λ r, asr_RuleID r = asr_RuleID rule) rule ErrRecordAlreadyExist.

Definition Scaler_GetByRuleID (ruleID : string) : M World ScalerRow := Find_one c (λ r, asr_RuleID r = ruleID).

Definition Scaler_UpdateModel (rule : ScalerRow) : M World unit := Save c rule.

Definition Metric_AddModel (metric : MetricRow) : M World unit :=
  add_unless c (λ r, asm_RuleID r = asm_RuleID metric ∧ asm_MetricsType r = asm_MetricsType metric ∧
                     asm_MetricsName r = asm_MetricsName metric) metric ErrRecordAlreadyExist.

Definition Metric_DeleteByRuleID (ruleID : string) : M World unit := Delete c (λ r, asm_RuleID r = ruleID).

(** ** What else is deleted with a component *)

Definition delete_owned (t : owned_table) (serviceID : string) : M World unit :=
  Delete c (λ r, own_Table r = t ∧ own_ServiceID r = serviceID).

Definition DeleteVersionByServiceID (serviceID : string) : M World unit := Delete c (λ r, vir_ServiceID r = serviceID).

(** Events by a column of their own, which is not the one they are listed by;
    no rows are not a missing record. *)
Definition DelEventByServiceID (serviceID : string) : M World unit :=
  _ ← catch (Find c (λ r, evr_ServiceID r = serviceID)); Delete c (λ r, evr_ServiceID r = serviceID).

Definition ListByTargetID (targetID : string) : M World (list EventRow) := Find c (λ r, evr_TargetID r = targetID).
End dao.
