(* ===== verification/ComponentAction.v ===== *)
(** * Requests about components

    [api/handler/service.go]: labels, dependencies, environment variables and
    probes of a component, scaling, upgrading and rolling back, changing a
    component, deleting it with all that belongs to it, and autoscalers. *)
From S2P Require Import Prelude Task AppStatus ComponentRows ApiDao RuleAction Operation ComponentDao.

(** What a request reads besides the database: whether the licence has GPUs,
    the pods and the status of a component, variables of the environment, and
    the data access method [SetEventStatus] and an error that a file not
    among the sources declares. *)
Class ComponentEnv := {
  gpu_license : bool;
  GetServicePods : string → error + nat;
  GetStatus : string → string;
  Getenv : string → string;
  SetEventStatus : string → World → World;
  ErrHorizontalDueToNoChange : error
}.

(** Values of a decoded JSON object. *)
Inductive JsonValue := JString (s : string) | JInt (n : Z) | JNull | JOther.

Definition as_int (v : option JsonValue) : option Z := match v with Some (JInt n) => Some n | _ => None end.
Definition as_string (v : option JsonValue) : option string := match v with Some (JString s) => Some s | _ => None end.

(** [ServiceType] *)
Definition is_state (extendMethod : string) : bool :=
  bool_decide (extendMethod = "state_multiple" ∨ extendMethod = "state_singleton")%string.
Definition is_singleton (extendMethod : string) : bool :=
  bool_decide (extendMethod ≠ "" ∧ extendMethod ≠ "stateless_multiple" ∧ extendMethod ≠ "state_multiple")%string.


(** [VerticalScalingTaskBody] as the handler reads it: amounts may be nil. *)
Record VerticalRequest := mkVerticalRequest {
  vq_TenantID : string; vq_ServiceID : string; vq_ContainerCPU : option Z; vq_ContainerMemory : option Z;
  vq_ContainerGPU : option Z; vq_EventID : string }.

Record StartStopStruct := mkStartStop {
  ss_TenantID : string; ss_ServiceID : string; ss_EventID : string; ss_TaskType : string }.

Record MetricStruct := mkMetric {
  mt_MetricsType : string; mt_MetricsName : string; mt_MetricTargetType : string; mt_MetricTargetValue : Z }.
Record AutoscalerRuleReq := mkScalerReq {
  aq_RuleID : string; aq_ServiceID : string; aq_Enable : bool; aq_XPAType : string; aq_MinReplicas : Z; aq_MaxReplicas : Z;
  aq_Metrics : list MetricStruct }.

Section action.
Context `{ApiEnv}.

(** What functions that open a transaction do: an error of the body is
    followed by [tx.Rollback()], and so is a panic, after which the function
    returns its zero values. *)
Definition in_transaction {A} (zero : A) (body : M World A) : M World A :=
  λ w, match body (Begin w).1 with
       | (w', Ok a) => (_ ← Commit; mret a) w'
       | (w', Err e) => ((Rollback w').1, Err e)
       | (w', Panic) => ((Rollback w').1, Ok zero)
       end.

(** A write whose error is not looked at. *)
Definition quietly (m : M World unit) : M World unit := _ ← catch m; mret ().

(** ** Labels, dependencies, variables, probes *)

Definition AddLabel (labels : list (string * string)) (serviceID : string) : M World unit :=
  in_transaction () (forM labels (λ label, Label_AddModel Tx (mkLabelRow 0 serviceID label.1 label.2))).

Definition UpdateLabel (labels : list (string * string)) (serviceID : string) : M World unit :=
  in_transaction () (forM labels (λ label,
    _ ← DelTenantServiceLabelsByServiceIDKey Tx serviceID label.1;
    Label_AddModel Tx (mkLabelRow 0 serviceID label.1 label.2))).

Definition DeleteLabel (labels : list (string * string)) (serviceID : string) : M World unit :=
  in_transaction () (forM labels (λ label, DelTenantServiceLabelsByServiceIDKeyValue Tx serviceID label.1 label.2)).

(** Adding a dependency that is there is no error. *)
Definition ServiceDepend (action serviceID depServiceID : string) : M World unit :=
  if decide (action = "add"%string) then
    r ← catch (Relation_AddModel Pool (mkRelationRow 0 serviceID depServiceID));
    match r with inl e => if decide (e = ErrRecordAlreadyExist) then mret () else fail e | inr _ => mret () end
  else when (bool_decide (action = "delete"%string)) (DeleteRelationByDepID Pool serviceID depServiceID).

Definition EnvAttr (action : string) (at_ : EnvRow) : M World unit :=
  if decide (action = "add"%string) then Env_AddModel Pool at_
  else if decide (action = "delete"%string) then Env_DeleteModel Pool (env_ServiceID at_) (env_AttrName at_)
  else when (bool_decide (action = "update"%string)) (Env_UpdateModel Pool at_).

Definition ServiceProbe (tsp : ProbeRow) (action : string) : M World unit :=
  if decide (action = "add"%string) then Probe_AddModel Pool tsp
  else if decide (action = "update"%string) then Probe_UpdateModel Pool tsp
  else when (bool_decide (action = "delete"%string)) (Probe_DeleteModel Pool (prb_ServiceID tsp) (prb_ProbeID tsp)).

(** ** Starting, upgrading, rolling back, scaling *)

(** Whatever the type of the task, its body is that of a stop. *)
Definition StartStopService (sss : StartStopStruct) : M World unit :=
  services ← GetServiceByID Pool (ss_ServiceID sss);
  send (SentWork (ss_TaskType sss) (BStop (mkStop (ss_TenantID sss) (ss_ServiceID sss) (svr_DeployVersion services)
    (ss_EventID sss) ∅))).

(** A message for the workers; if it cannot be sent, the row is written as it was. *)
Definition send_or_undo (taskType : string) (body : TaskBody) (old : ServiceRow) : M World unit :=
  r ← catch (send (SentWork taskType body));
  match r with inl e => _ ← quietly (Service_UpdateModel old); fail e | inr _ => mret () end.

Context `{ComponentEnv}.

Definition set_event_status (status : string) : M World unit := modify (SetEventStatus status).

(** The event of the request fails with [m]. *)
Definition or_failure {A} (m : M World A) : M World A :=
  r ← catch m; match r with inl e => _ ← set_event_status "failure"; fail e | inr a => mret a end.

Definition scaled (vs : VerticalRequest) (service : ServiceRow) : ServiceRow :=
  service <| svr_ContainerCPU ::= λ n, default n (vq_ContainerCPU vs) |>
    <| svr_ContainerMemory ::= λ n, default n (vq_ContainerMemory vs) |>
    <| svr_ContainerGPU ::= λ n, if gpu_license then default n (vq_ContainerGPU vs) else 0%Z |>.

(** In the message a nil amount is null, which is read as zero. *)
Definition vertical_body (vs : VerticalRequest) : TaskBody :=
  BVerticalScaling (mkVertical (vq_TenantID vs) (vq_ServiceID vs) (default 0%Z (vq_ContainerCPU vs))
    (default 0%Z (vq_ContainerMemory vs)) (vq_EventID vs)).

Definition ServiceVertical (vs : VerticalRequest) : M World unit :=
  service ← or_failure (GetServiceByID Pool (vq_ServiceID vs));
  let service' := scaled vs service in
  if decide (svr_ContainerMemory service' = svr_ContainerMemory service ∧
             svr_ContainerCPU service' = svr_ContainerCPU service ∧ svr_ContainerGPU service' = svr_ContainerGPU service)
  then set_event_status "success"
  else
    _ ← wrap_err "vertical service faliure" (or_failure (Service_UpdateModel service'));
    or_failure (send_or_undo "vertical_scaling" (vertical_body vs) service).

Definition ServiceHorizontal (hs : HorizontalScalingTaskBody) : M World unit :=
  service ← GetServiceByID Pool (horizontal_ServiceID hs);
  match GetServicePods (svr_ServiceID service) with
  | inl e => fail (EWrap "horizontal service faliure" e)
  | inr pods =>
    if decide (wrap 32 (Z.of_nat pods) = horizontal_Replicas hs) then fail ErrHorizontalDueToNoChange else
    _ ← wrap_err "horizontal service faliure" (Service_UpdateModel (service <| svr_Replicas := horizontal_Replicas hs |>));
    send_or_undo "horizontal_scaling" (BHorizontalScaling hs) service
  end.

(** A version that was not built is not stored, but its message is sent; the
    undoing after a message that cannot be sent writes the row all the same. *)
Definition ServiceUpgrade (ru : RollingUpgradeTaskBody) : M World unit :=
  services ← GetServiceByID Pool (rolling_ServiceID ru);
  version ← GetVersionByDeployVersion (rolling_NewDeployVersion ru) (rolling_ServiceID ru);
  _ ← when (bool_decide (vir_FinalStatus version = "success"%string))
        (wrap_err "horizontal service faliure" (Service_UpdateModel (set_version (rolling_NewDeployVersion ru) services)));
  send_or_undo "rolling_upgrade" (BRollingUpgrade ru) services.

(** [RollBack] of this handler. *)
Definition Service_RollBack (tenantID serviceID eventID deployVersion : string) : M World unit :=
  service ← GetServiceByID Pool serviceID;
  if decide (svr_DeployVersion service = deployVersion) then fail (EMsg "current version, don't need rollback") else
  _ ← Service_UpdateModel (set_version deployVersion service);
  r ← catch (StartStopService (mkStartStop tenantID serviceID eventID "rolling_upgrade"));
  match r with inl e => _ ← quietly (Service_UpdateModel service); fail e | inr _ => mret () end.

Definition LanguageSet (serviceID language : string) : M World unit :=
  services ← GetServiceByID Pool serviceID;
  when (bool_decide (language = "java"%string)) (Service_UpdateModel (services <| svr_ContainerMemory := 512%Z |>)).

(** ** Changing a component *)

(** The first volume that forbids a component to be stateless. *)
Definition volume_forbids (extendMethod : string) (vo : VolumeRow) : bool :=
  negb (bool_decide (vol_VolumeType vo = "share-file" ∨ vol_VolumeType vo = "memoryfs")%string) && negb (is_state extendMethod) &&
  bool_decide (vol_VolumeType vo = "local" ∨ vol_AccessMode vo = "RWO")%string.

(** Amounts that are not negative, the GPU in the place of the CPU, names that are not empty. *)
Definition updated_service (sc : gmap string JsonValue) (ts : ServiceRow) : ServiceRow :=
  let amount key n := match as_int (sc !! key) with Some m => if decide (0 ≤ m)%Z then m else n | None => n end in
  let name key s := match as_string (sc !! key) with Some s' => if decide (s' = ""%string) then s else s' | None => s end in
  ts <| svr_ContainerMemory ::= amount "container_memory"%string |> <| svr_ContainerCPU ::= amount "container_cpu"%string |>
     <| svr_ContainerCPU ::= λ n, default n (as_int (sc !! "container_gpu"%string)) |>
     <| svr_ServiceName ::= name "service_name"%string |> <| svr_AppID ::= name "app_id"%string |>.

(** The new method of the component, if volumes and replicas allow it. *)
Definition change_method (extendMethod : string) (ts : ServiceRow) : M World ServiceRow :=
  if decide (1 < svr_Replicas ts ∧ is_singleton extendMethod = true)%Z
  then fail (EMsg "replicas > 1, can't change service typ to stateless_singleton") else
  volumes ← GetTenantServiceVolumesByServiceID Pool (svr_ServiceID ts);
  if existsb (volume_forbids extendMethod) volumes then fail (EMsg "can't change type to stateless")
  else mret (ts <| svr_ExtendMethod := extendMethod |> <| svr_ServiceType := extendMethod |>).

(** Values of another type are passed over, but for the id and the method, which panic. *)
Definition ServiceUpdate (sc : gmap string JsonValue) : M World unit :=
  match as_string (sc !! "service_id"%string) with
  | None => panic
  | Some serviceID =>
    ts ← GetServiceByID Pool serviceID;
    let ts := updated_service sc ts in
    ts ← (match sc !! "extend_method"%string with
          | None | Some JNull => mret ts
          | Some (JString extendMethod) => change_method extendMethod ts
          | _ => panic
          end);
    Service_UpdateModel ts
  end.

(** ** Deleting a component *)

Definition IsClosedStatus (curStatus : string) : bool :=
  bool_decide (curStatus = ""%string ∨ curStatus = BUILDEFAILURE ∨ curStatus = CLOSED ∨ curStatus = UNDEPLOY ∨
               curStatus = "building"%string ∨ curStatus = UNKNOW).

Definition ErrServiceNotClosed : error := EMsg "Service has not been closed".

Definition isServiceClosed (serviceID : string) : M World unit :=
  service ← GetServiceByID Pool serviceID;
  if decide (svr_Kind service ≠ "third_party"%string ∧ IsClosedStatus (GetStatus serviceID) = false)
  then fail ErrServiceNotClosed else mret ().

(** The events of the component; no list if they cannot be read. *)
Definition gcTaskBody (tenantID serviceID : string) : M World TaskBody :=
  events ← catch (ListByTargetID Pool serviceID);
  mret (BServiceGC (mkServiceGC tenantID serviceID (match events with inr l => evr_EventID <$> l | inl _ => [] end))).

(** The deletions, in their order. *)
Definition deleteServicePropertyFunc (serviceID : string) : list (M World unit) :=
  [delete_owned Tx CodeCheckResults serviceID; DELServiceEnvsByServiceID Tx serviceID;
   delete_owned Tx PluginConfigs serviceID; DeleteALLRelationByServiceID Tx serviceID;
   DeleteAllPluginMappingPortByServiceID Tx serviceID; DeleteServiceByServiceID Tx serviceID;
   DELPortsByServiceID Tx serviceID; DELRelationsByServiceID Tx serviceID;
   DELTenantServiceMountRelationByServiceID Tx serviceID; DeleteTenantServiceVolumesByServiceID Tx serviceID;
   ConfigFile_DelByServiceID Tx serviceID; Endpoint_DeleteByServiceID Tx serviceID;
   Discovery_DeleteByServiceID Tx serviceID; DeleteLabelByServiceID Tx serviceID; DeleteVersionByServiceID Tx serviceID;
   delete_owned Tx PluginEnvs serviceID; DELServiceProbesByServiceID Tx serviceID; DelEventByServiceID Tx serviceID;
   DeleteServiceMonitorByServiceID Tx serviceID; delete_owned Tx ConfigGroupServices serviceID].

Definition unless_absent (del : M World unit) : M World unit :=
  r ← catch del;
  match r with inl e => if decide (e = ERecordNotFound) then mret () else fail e | inr _ => mret () end.

(** What the transaction does. *)
Definition delete_rows (serviceID : string) (service : ServiceRow) : M World unit :=
  _ ← ServiceDelete_AddModel Tx (mkDeletedRow 0 service);
  _ ← DeleteTCPRuleByServiceIDWithTransaction serviceID;
  _ ← DeleteHTTPRuleByServiceIDWithTransaction serviceID;
  forM (deleteServicePropertyFunc serviceID) unless_absent.

Definition delServiceMetadata (serviceID : string) : M World unit :=
  service ← GetServiceByID Pool serviceID;
  in_transaction () (delete_rows serviceID service).

(** A component that is not there is no error; the message to collect what it
    leaves may be lost. *)
Definition TransServieToDelete (tenantID serviceID : string) : M World unit :=
  r ← catch (GetServiceByID Pool serviceID);
  match r with
  | inl ERecordNotFound => mret ()
  | _ =>
    _ ← isServiceClosed serviceID;
    body ← gcTaskBody tenantID serviceID;
    _ ← wrap_err "delete service-related metadata" (delServiceMetadata serviceID);
    quietly (send (SentWork "service_gc" body))
  end.

(** ** Autoscalers *)

Definition add_metrics (req : AutoscalerRuleReq) : M World unit :=
  forM (aq_Metrics req) (λ metric, Metric_AddModel Tx (mkMetricRow 0 (aq_RuleID req) (mt_MetricsType metric)
    (mt_MetricsName metric) (mt_MetricTargetType metric) (mt_MetricTargetValue metric))).

(** The message goes first; if it cannot be sent, the transaction stays open,
    as [defer EnsureEndTransactionFunc()] only makes the function that would
    end it. *)
Definition scaler_transaction (body : M World unit) (serviceID ruleID : string) : M World unit :=
  λ w, match body (Begin w).1 with
       | (w', Ok _) => (_ ← send (SentWork "refreshhpa" (BRefreshHPA (mkRefreshHPA serviceID ruleID ""))); Commit) w'
       | (w', Err e) => ((Rollback w').1, Err e)
       | (w', Panic) => (w', Panic)
       end.

Definition AddAutoscalerRule (req : AutoscalerRuleReq) : M World unit :=
  scaler_transaction
    (_ ← Scaler_AddModel Tx (mkScalerRow 0 (aq_RuleID req) (aq_ServiceID req) (aq_Enable req) (aq_XPAType req)
           (aq_MinReplicas req) (aq_MaxReplicas req));
     add_metrics req)
    (aq_ServiceID req) (aq_RuleID req).

Definition UpdAutoscalerRule (req : AutoscalerRuleReq) : M World unit :=
  rule ← Scaler_GetByRuleID Pool (aq_RuleID req);
  scaler_transaction
    (_ ← Scaler_UpdateModel Tx (rule <| asr_Enable := aq_Enable req |> <| asr_XPAType := aq_XPAType req |>
           <| asr_MinReplicas := aq_MinReplicas req |> <| asr_MaxReplicas := aq_MaxReplicas req |>);
     _ ← Metric_DeleteByRuleID Tx (aq_RuleID req);
     add_metrics req)
    (asr_ServiceID rule) (asr_RuleID rule).
End action.
