(* ===== verification/ComponentParts.v ===== *)
(** * Ports and volumes of a component, and its creation

    [api/handler/service.go]: adding, changing, deleting, opening and closing
    ports with the ports of their network plugin; volumes, their files and
    mounts; and [ServiceCreate], which writes all parts of a component. *)
From stdpp Require Import pretty.
From S2P Require Import Prelude Variables Task ThirdParty Gateway Annotation ComponentRows ApiDao RuleAction Operation ComponentDao ComponentAction.

(** [TenantServicesPort] of [api/model/model.go] *)
Record PortStruct := mkPortStruct {
  po_ContainerPort : Z; po_MappingPort : Z; po_Protocol : string; po_PortAlias : string; po_K8sServiceName : string;
  po_IsInnerService : bool; po_IsOuterService : bool }.

Definition port_row (id : Z) (tenantID serviceID : string) (vp : PortStruct) : PortRow :=
  mkPortRow id tenantID serviceID (po_ContainerPort vp) (po_MappingPort vp) (po_Protocol vp) (po_PortAlias vp)
    (Some (po_IsInnerService vp)) (Some (po_IsOuterService vp)) (po_K8sServiceName vp).

Definition ErrK8sServiceNameExists : error := EMsg "kubernetes service name already exists".

Section ports.
Context `{ApiEnv}.

(** Outside the transaction: the port of that name, if there is one. *)
Definition port_of_name (tenantID name : string) : M World (option PortRow) :=
  if decide (name = ""%string) then mret None else nil_if_absent (GetByTenantAndName Pool tenantID name).

Definition create_port (tenantID serviceID : string) (vp : PortStruct) : M World unit :=
  port ← port_of_name tenantID (po_K8sServiceName vp);
  match port with
  | Some _ => fail ErrK8sServiceNameExists
  | None => Port_AddModel Tx (port_row 0 tenantID serviceID vp)
  end.

Definition CreatePorts (tenantID serviceID : string) (vps : list PortStruct) : M World unit :=
  in_transaction () (forM vps (create_port tenantID serviceID)).

Definition deletePorts (componentID : string) (ports : list PortStruct) : M World unit :=
  Transaction (forM ports (λ port,
    _ ← Port_DeleteModel Tx componentID (po_ContainerPort port);
    DeleteIngressRulesByComponentPort componentID (po_ContainerPort port))).

(** The mapping of a port in the inbound network plugin follows the port; it is read outside the transaction. *)
Definition move_mapping (serviceID : string) (oldPort newPort : Z) : M World unit :=
  pluginPort ← nil_if_absent (GetPluginMappingPort Pool serviceID NetPluginUp oldPort);
  match pluginPort with
  | Some p => PluginPort_UpdateModel Tx (p <| ppr_ContainerPort := newPort |>)
  | None => mret ()
  end.

(** One port of an update; [oldPort] is that of the first one, if it is not given. *)
Definition update_port (tenantID serviceID : string) (crt : bool) (oldPort : Z) (vp : PortStruct) : M World Z :=
  let oldPort := if decide (oldPort = 0%Z) then po_ContainerPort vp else oldPort in
  vpD ← GetPort Pool serviceID oldPort;
  port ← port_of_name tenantID (po_K8sServiceName vp);
  if decide (is_Some port ∧ prt_K8sServiceName vpD ≠ po_K8sServiceName vp) then fail ErrK8sServiceNameExists else
  _ ← Port_UpdateModel Tx (port_row (prt_ID vpD) tenantID serviceID vp);
  _ ← when crt (move_mapping serviceID oldPort (po_ContainerPort vp));
  mret oldPort.

Definition PortVar (action tenantID serviceID : string) (vps : list PortStruct) (oldPort : Z) : M World unit :=
  crt ← CheckSomeModelPluginByServiceID Pool serviceID NetPluginUp;
  if decide (action = "delete"%string) then deletePorts serviceID vps
  else when (bool_decide (action = "update"%string))
    (in_transaction () (_ ← foldM (update_port tenantID serviceID crt) oldPort vps; mret ())).

(** *** Opening and closing *)

(** Dereferencing a flag that is NULL panics. *)
Definition deref_flag (flag : option bool) : M World bool := match flag with Some b => mret b | None => panic end.

(** A mapping for the port, unless there is one. *)
Definition open_mapping (msg1 msg2 tenantID serviceID : string) (port : Z) : M World unit :=
  old ← wrap_err msg1 (nil_if_absent (GetPluginMappingPort Pool serviceID NetPluginUp port));
  match old with
  | Some _ => mret ()
  | None => _ ← wrap_err msg2 (SetPluginMappingPort Tx tenantID serviceID NetPluginUp port); mret ()
  end.

(** The mapping goes when the port is open in no other way. *)
Definition close_mapping (msg1 msg2 serviceID : string) (port : Z) (other : option bool) : M World unit :=
  old ← wrap_err msg1 (nil_if_absent (GetPluginMappingPort Pool serviceID NetPluginUp port));
  match old with
  | None => mret ()
  | Some _ =>
    b ← deref_flag other;
    if (b : bool) then mret ()
    else wrap_err msg2 (DeletePluginMappingPortByContainerPort Tx serviceID NetPluginUp port)
  end.

(** The row of an open port, and whether the component has an inbound network plugin. *)
Definition port_state (msg1 msg2 serviceID : string) (port : Z) : M World bool :=
  _ ← wrap_err msg1 (GetServiceByID Pool serviceID);
  wrap_err msg2 (CheckSomeModelPluginByServiceID Pool serviceID NetPluginUp).

(** The protocol of the port, or nothing: a port that was not open is not closed. *)
Definition PortOuter (serviceID operation : string) (containerPort : Z) : M World (option string) :=
  p ← wrap_err "find service port error" (GetPort Pool serviceID containerPort);
  hasUpStream ← port_state "find service error" "get plugin relations error" serviceID containerPort;
  if decide (operation = "close"%string) then
    outer ← deref_flag (prt_IsOuterService p);
    if (outer : bool) then
      in_transaction None (
        _ ← Port_UpdateModel Tx (p <| prt_IsOuterService := Some false |>);
        _ ← when hasUpStream (close_mapping "outer, get plugin mapping port error" "outer, delete plugin mapping port error"
              serviceID containerPort (prt_IsInnerService p));
        mret (Some (prt_Protocol p)))
    else mret None
  else if decide (operation = "open"%string) then
    in_transaction None (
      _ ← Port_UpdateModel Tx (p <| prt_IsOuterService := Some true |>);
      _ ← when hasUpStream (open_mapping "outer, in setting plugin mapping port, get plugin mapping port error"
            "outer, set plugin mapping port error" (prt_TenantID p) serviceID containerPort);
      mret (Some (prt_Protocol p)))
  else mret (Some (prt_Protocol p)).

Definition PortInner (serviceID operation : string) (port : Z) : M World unit :=
  p ← GetPort Pool serviceID port;
  hasUpStream ← port_state "get service error" "get plugin relations error" serviceID port;
  in_transaction () (
    if decide (operation = "close"%string) then
      inner ← deref_flag (prt_IsInnerService p);
      if (inner : bool) then
        _ ← wrap_err "update service port error" (Port_UpdateModel Tx (p <| prt_IsInnerService := Some false |>));
        when hasUpStream (close_mapping "inner, get plugin mapping port error" "inner, delete plugin mapping port error"
          serviceID port (prt_IsOuterService p))
      else fail (EMsg "already close")
    else if decide (operation = "open"%string) then
      inner ← deref_flag (prt_IsInnerService p);
      if (inner : bool) then fail (EMsg "already open") else
      _ ← Port_UpdateModel Tx (p <| prt_IsInnerService := Some true |>);
      when hasUpStream (open_mapping "inner, in setting plugin mapping port, get plugin mapping port error"
        "inner, set plugin mapping port error" (prt_TenantID p) serviceID port)
    else mret ()).
End ports.

(** ** Volumes *)

Section volumes.
Context `{ApiEnv} `{ComponentEnv}.

Definition data_path (variable dflt : string) : string :=
  if decide (Getenv variable = ""%string) then dflt else Getenv variable.
Definition localPath : string := data_path "LOCAL_DATA_PATH" "/grlocaldata".
Definition sharePath : string := data_path "SHARE_DATA_PATH" "/grdata".

Definition service_path (root tenantID serviceID volumePath : string) : string :=
  (root +:+ "/tenant/" +:+ tenantID +:+ "/service/" +:+ serviceID +:+ volumePath)%string.

(** [util.SetVolumeDefaultValue] *)
Definition SetVolumeDefaultValue (info : VolumeRow) : M World VolumeRow :=
  name ← (if decide (vol_VolumeName info = ""%string) then new_id else mret (vol_VolumeName info));
  mret (info <| vol_VolumeName := name |>
    <| vol_AccessMode ::= λ m, if decide (m = "") then "RWO" else ToUpper m |>%string
    <| vol_SharePolicy ::= column_default "" "exclusive" |>%string <| vol_BackupPolicy ::= column_default "" "exclusive" |>%string
    <| vol_ReclaimPolicy ::= column_default "" "retain" |>%string).

(** The directory of the host; only components with state have local volumes. *)
Definition host_path (tenantID : string) (tsv : VolumeRow) : M World VolumeRow :=
  if decide (vol_HostPath tsv ≠ ""%string) then mret tsv
  else if decide (vol_VolumeType tsv = "share-file"%string) then
    mret (tsv <| vol_HostPath := service_path sharePath tenantID (vol_ServiceID tsv) (vol_VolumePath tsv) |>)
  else if decide (vol_VolumeType tsv = "local"%string) then
    serviceInfo ← wrap_err "service type" (GetServiceTypeByID Pool (vol_ServiceID tsv));
    if is_state (svr_ExtendMethod serviceInfo)
    then mret (tsv <| vol_HostPath := service_path localPath tenantID (vol_ServiceID tsv) (vol_VolumePath tsv) |>)
    else fail (EMsg "The application type is'stateless'. Local storage is not supported")
  else mret tsv.

Definition store_volume (tsv : VolumeRow) (fileContent : string) : M World unit :=
  _ ← wrap_err "add volume" (Volume_AddModel Tx tsv);
  when (bool_decide (fileContent ≠ ""%string))
    (wrap_err "error creating config file" (ConfigFile_AddModel Tx (mkFileRow 0 (vol_ServiceID tsv) (vol_VolumeName tsv) fileContent))).

(** The message about a named volume, of a type that workers do not know, is sent
    inside the transaction. *)
Definition delete_volume (tsv : VolumeRow) (tenantID : string) : M World unit :=
  _ ← (if decide (vol_VolumeName tsv = ""%string)
       then wrap_err "delete volume" (unless_absent (DeleteByServiceIDAndVolumePath Tx (vol_ServiceID tsv) (vol_VolumePath tsv)))
       else
         volume ← wrap_err "find volume" (GetVolumeByServiceIDAndName Tx (vol_ServiceID tsv) (vol_VolumeName tsv));
         _ ← wrap_err "delete volume" (unless_absent (Volume_DeleteModel Tx (vol_ServiceID tsv) (vol_VolumeName tsv)));
         wrap_err "send 'volume_gc' task" (send (SentWork "volume_gc" BDefault)));
  wrap_err "error deleting config files" (DelByVolumeID Tx (vol_ServiceID tsv) (vol_VolumeName tsv)).

(** The texts put before errors of the commit are left out. *)
Definition VolumnVar (tsv : VolumeRow) (tenantID fileContent action : string) : M World unit :=
  if decide (action = "add"%string) then
    tsv ← host_path tenantID tsv;
    tsv ← SetVolumeDefaultValue tsv;
    in_transaction () (store_volume tsv fileContent)
  else when (bool_decide (action = "delete"%string)) (in_transaction () (delete_volume tsv tenantID)).

Record UpdVolumeReq := mkUpdVolume {
  uv_VolumeName : string; uv_VolumeType : string; uv_FileContent : string; uv_VolumePath : string }.

(** An error of the commit is not looked at. *)
Definition UpdVolume (sid : string) (req : UpdVolumeReq) : M World unit := λ w,
  let body :=
    v ← GetVolumeByServiceIDAndName Tx sid (uv_VolumeName req);
    _ ← Volume_UpdateModel Tx (v <| vol_VolumePath := uv_VolumePath req |>);
    when (bool_decide (uv_VolumeType req = "config-file"%string))
      (configfile ← GetByVolumeName Tx sid (uv_VolumeName req);
       ConfigFile_UpdateModel Tx (configfile <| cff_FileContent := uv_FileContent req |>)) in
  match body (Begin w).1 with
  | (w', Ok _) => quietly Commit w'
  | (w', Err e) => ((Rollback w').1, Err e)
  | (w', Panic) => ((Rollback w').1, Ok ())
  end.

Definition VolumeDependency (tsr : MountRow) (action : string) : M World unit :=
  if decide (action = "add"%string) then
    if decide (mnt_VolumeName tsr = ""%string) then
      if decide (mnt_HostPath tsr = ""%string) then fail (EMsg "host path can not be empty when create volume dependency in api v2")
      else wrap_err "add volume mount relation" (Mount_AddModel Pool tsr)
    else
      vm ← wrap_err "get volume" (GetVolumeByServiceIDAndName Pool (mnt_DependServiceID tsr) (mnt_VolumeName tsr));
      wrap_err "add volume mount relation" (Mount_AddModel Pool (tsr <| mnt_HostPath := vol_HostPath vm |>))
  else when (bool_decide (action = "delete"%string)) (wrap_err "delete mount relation"
    (if decide (mnt_VolumeName tsr = ""%string)
     then DElTenantServiceMountRelationByDepService Pool (mnt_ServiceID tsr) (mnt_DependServiceID tsr)
     else DElTenantServiceMountRelationByServiceAndName Pool (mnt_ServiceID tsr) (mnt_VolumeName tsr))).
End volumes.

(** ** Creating a component *)

(** [TenantServiceVolumeStruct] is a row of a volume and the content of its file. *)
Record DiscoveryCfg := mkDiscoveryCfg {
  dc_Type : string; dc_Servers : list string; dc_Key : string; dc_Username : string; dc_Password : string }.

(** [json.Unmarshal] of the two texts of a third-party component. *)
Class ComponentJson := {
  un_discovery : string → error + DiscoveryCfg;
  un_static : string → error + list string
}.

(** [ServiceStruct]: the fields that the row of a component has by the same
    name, what belongs to the component, and what decides on it. *)
Record ServiceStruct := mkServiceStruct {
  sc_Row : ServiceRow; sc_OSType : string; sc_EnvsInfo : list EnvRow; sc_PortsInfo : list PortRow;
  sc_VolumesInfo : list (VolumeRow * string); sc_DepVolumesInfo : list MountRow; sc_DependIDs : list RelationRow;
  sc_Endpoints : option (string * string); sc_ComponentProbes : list ProbeRow; sc_ComponentMonitors : list MonitorRow;
  sc_HTTPRules : list AddHTTPRuleStruct; sc_TCPRules : list AddTCPRuleStruct }.

Section create.
Context `{ApiEnv} `{ComponentEnv} `{ComponentJson} `{!BulkUpserts}.

(** Negative amounts are zero, and nothing is deployed. *)
Definition created_service (ts : ServiceRow) : ServiceRow :=
  ts <| svr_ServiceName ::= column_default ""%string (svr_ServiceAlias ts) |> <| svr_ContainerCPU ::= Z.max 0 |>
     <| svr_ContainerMemory ::= Z.max 0 |> <| svr_ContainerGPU ::= Z.max 0 |> <| svr_DeployVersion := ""%string |>.

(** The loop over volumes: the type of the request decides, not the type it is
    replaced by, and the file keeps the name of the request. *)
Definition create_volume (sc ts : ServiceRow) (volumn : VolumeRow * string) : M World unit :=
  let '(volumn, fileContent) := volumn in
  let volumeType := vol_VolumeType volumn in
  let v := volumn <| vol_ServiceID := svr_ServiceID ts |> <| vol_VolumeType ::= column_default "" "share-file" |>%string in
  let path root := service_path root (svr_TenantID sc) (svr_ServiceID ts) (vol_VolumePath volumn) in
  v ← (if decide (vol_HostPath volumn ≠ ""%string) then mret v
       else if decide (volumeType = "share-file"%string) then mret (v <| vol_HostPath := path sharePath |>)
       else if decide (volumeType = "local"%string) then
         if is_state (svr_ExtendMethod sc) then mret (v <| vol_HostPath := path localPath |>)
         else fail (EMsg "local volume type only support state component")
       else if decide (volumeType = "config-file" ∨ volumeType = "memoryfs")%string then mret v
       else if is_state (svr_ExtendMethod sc) then mret v
       else fail (EMsg "custom volume type only support state component"));
  v ← (if decide (vol_VolumeName volumn = ""%string) then name ← new_id; mret (v <| vol_VolumeName := name |>) else mret v);
  _ ← Volume_AddModel Tx v;
  when (bool_decide (fileContent ≠ ""%string))
    (wrap_err "error creating config file"
      (ConfigFile_AddModel Tx (mkFileRow 0 (svr_ServiceID sc) (vol_VolumeName volumn) fileContent))).

Definition create_mount (ts : ServiceRow) (depVolume : MountRow) : M World unit :=
  volume ← wrap_err "find volume" (GetVolumeByServiceIDAndName Pool (mnt_DependServiceID depVolume) (mnt_VolumeName depVolume));
  wrap_err "add dep volume" (Mount_AddModel Tx (depVolume <| mnt_ServiceID := svr_ServiceID ts |>
    <| mnt_TenantID := svr_TenantID ts |> <| mnt_VolumeType := vol_VolumeType volume |> <| mnt_HostPath := vol_HostPath volume |>)).

(** The scheme of an address, its host and its port; what follows a second scheme
    is lost, and so is a path after the port. *)
Definition static_endpoint (o : string) : string * Z :=
  let https := String.prefix "https://" o in
  let address := strip_scheme "https://" o in
  let http := String.prefix "http://" address in
  let address := strip_scheme "http://" address in
  let pre := if http then "http://"%string else if https then "https://"%string else ""%string in
  match split_char 58 address with
  | host :: port :: _ => ((pre +:+ host)%string, (Atoi port).1)
  | _ => ((pre +:+ address)%string, 0%Z)
  end.

Definition create_endpoints (sc : ServiceRow) (endpoints : option (string * string)) : M World unit :=
  match endpoints with
  | None => fail (EMsg "endpoints can not be empty for third-party service")
  | Some (static, discovery) =>
    if decide (drop_spaces discovery ≠ ""%string) then
      match un_discovery (drop_spaces discovery) with
      | inl e => fail e
      | inr cfg => Discovery_AddModel Tx (mkDiscRow 0 (svr_ServiceID sc) (dc_Type cfg) (String.concat "," (dc_Servers cfg))
                     (dc_Key cfg) (dc_Username cfg) (dc_Password cfg))
      end
    else if decide (drop_spaces static ≠ ""%string) then
      match un_static (drop_spaces static) with
      | inl e => fail e
      | inr obj => forM obj (λ o, uuid ← new_id;
          Endpoint_AddModel Tx (mkEpRow 0 uuid (svr_ServiceID sc) (static_endpoint o).1 (static_endpoint o).2 (Some true)))
      end
    else mret ()
  end.

(** [convertProbeModel] *)
Definition convertProbeModel (req : ProbeRow) (serviceID : string) : ProbeRow :=
  req <| prb_ID := 0%Z |> <| prb_ServiceID := serviceID |>.

(** A port of the gateway that is taken is passed over. *)
Definition create_tcp_rule (tcpRule : AddTCPRuleStruct) : M World unit :=
  taken ← TCPIPPortExists (at_IP tcpRule) (at_Port tcpRule);
  if (taken : bool) then mret () else CreateTCPRule tcpRule.

Definition type_label (ts : ServiceRow) : LabelRow :=
  mkLabelRow 0 (svr_ServiceID ts) "service-type"
    (if is_state (svr_ExtendMethod ts) then "StatefulServiceType" else "StatelessServiceType")%string.

(** What happens in the transaction; [Create] has put the defaults of the
    columns into the struct of the component. *)
Definition create_rows (sc : ServiceStruct) : M World unit :=
  let ts0 := created_service (sc_Row sc) in
  let ts := service_defaults ts0 in
  let sid := svr_ServiceID ts in
  let tid := svr_TenantID ts in
  _ ← Service_AddModel Tx ts0;
  _ ← when (negb (bool_decide (sc_EnvsInfo sc = [])))
        (CreateOrUpdateEnvsInBatch Tx ((λ e, e <| env_ServiceID := sid |> <| env_TenantID := tid |>) <$> sc_EnvsInfo sc));
  _ ← when (negb (bool_decide (sc_PortsInfo sc = [])))
        (CreateOrUpdatePortsInBatch Tx ((λ p, p <| prt_ServiceID := sid |> <| prt_TenantID := tid |>) <$> sc_PortsInfo sc));
  _ ← forM (sc_VolumesInfo sc) (create_volume (sc_Row sc) ts);
  _ ← forM (sc_DepVolumesInfo sc) (create_mount ts);
  _ ← forM (sc_DependIDs sc) (Relation_AddModel Tx);
  _ ← when (bool_decide (sc_OSType sc = "windows"%string)) (Label_AddModel Tx (mkLabelRow 0 sid "node-selector" (sc_OSType sc)));
  _ ← when (bool_decide (svr_Kind (sc_Row sc) = "third_party"%string)) (create_endpoints (sc_Row sc) (sc_Endpoints sc));
  _ ← forM (sc_ComponentProbes sc) (λ pb, Probe_AddModel Tx (convertProbeModel pb sid));
  _ ← forM (sc_ComponentMonitors sc) (λ m, Monitor_AddModel Tx (mkMonRow 0 tid sid (mon_Name m) (mon_ServiceShowName m)
        (mon_Port m) (mon_Path m) (mon_Interval m)));
  _ ← forM (sc_HTTPRules sc) CreateHTTPRule;
  _ ← forM (sc_TCPRules sc) create_tcp_rule;
  Label_AddModel Tx (type_label ts).

Definition ServiceCreate (sc : ServiceStruct) : M World unit := in_transaction () (create_rows sc).
End create.
