(* ===== verification/ComponentSpec.v ===== *)
(** * What becomes of requests about components

    Theorems about [ComponentAction]: what a transaction does, and a component
    that is deleted with what belongs to it or not at all. *)
From S2P Require Import Prelude Task AppStatus ComponentRows ApiDao RuleAction RuleSpec Operation OperationSpec ComponentDao ComponentAction.

(** ** Transactions *)

Section transactions.
Context `{ApiEnv}.

#[export] Instance local_add_unless {R} `{Row R} (P : R → Prop) `{∀ r, Decision (P r)} (r : R) e : local (add_unless Tx P r e).
Proof. unfold add_unless. apply local_bind; [apply _|]. intros []; apply _. Qed.
#[export] Instance local_save_with_id {R} `{Row R} (r : R) msg : local (save_with_id Tx r msg).
Proof. unfold save_with_id. case_decide; apply _. Qed.
#[export] Instance local_delete_found {R} `{Row R} (P : R → Prop) `{∀ r, Decision (P r)} : local (delete_found Tx P).
Proof. unfold delete_found. apply local_bind; [apply _|]. intros; apply _. Qed.
#[export] Instance local_update_where {R} `{Row R} (P : R → Prop) `{∀ r, Decision (P r)} f : local (update_where Tx P f).
Proof. unfold update_where. apply _. Qed.
#[export] Instance local_when b (m : M World unit) : local m → local (when b m).
Proof. intros Hm. destruct b; apply _. Qed.
#[export] Instance local_absent {A} (m : M World A) : local m → local (nil_if_absent m).
Proof. intros Hm. unfold nil_if_absent. apply local_bind; [apply _|]. intros [[]|]; apply _. Qed.

(** A transaction leaves no transaction open, and commits all of its body or nothing. *)
Lemma in_transaction_outcome {A} (zero : A) (body : M World A) w w' r : local body → in_transaction zero body w = (w', r) →
  w_tx w' = None ∧
  ((∃ w1 a, body (Begin w).1 = (w1, Ok a) ∧ w_db w' = visible Tx w1 ∧ r = Ok a) ∨
   w_db w' = w_db w ∧ ((∃ e, r = Err e) ∨ r = Ok zero ∧ (body (Begin w).1).2 = Panic)).
Proof.
  intros [Hl]. unfold in_transaction. specialize (Hl (Begin w).1). change (w_db (Begin w).1) with (w_db w) in Hl.
  destruct (body (Begin w).1) as [w1 [a|e|]] eqn:E; cbn [fst snd] in *.
  - rewrite bind_unfold. destruct (commit_outcome w1) as [(e & E1 & E2 & E3)|(E1 & E2 & E3)];
      destruct (Commit w1) as [w2 r2]; cbn [fst snd] in *; subst r2; intros [= <- <-]; (split; [done|]).
    + right. rewrite E2. eauto.
    + left. eauto.
  - intros [= <- <-]. split; [by destruct w1|]. right. split; [by destruct w1|]. eauto.
  - intros [= <- <-]. split; [by destruct w1|]. right. split; [by destruct w1|]. eauto.
Qed.

(** Reading outside a transaction. *)
Lemma pool_find {R} `{Row R} (P : R → Prop) `{∀ r, Decision (P r)} w :
  w_db (Find_one Pool P w).1 = w_db w ∧ w_tx (Find_one Pool P w).1 = w_tx w ∧ w_tasks (Find_one Pool P w).1 = w_tasks w.
Proof.
  unfold Find_one, Find, statement, mbind, M_bind. destruct (statement_error (w_statements w)); [by destruct w|].
  cbn. destruct (any_order _); by destruct w.
Qed.

(** Statements do not panic. *)
Lemma stmt_safe {A} c (f : Tables → Tables * A) : safe (statement c f).
Proof. split. intros w. unfold statement. destruct (statement_error _); [done|]. by destruct (f _). Qed.
Lemma find_one_safe {R} `{Row R} c (P : R → Prop) `{∀ r, Decision (P r)} : safe (Find_one c P).
Proof. apply safe_bind; [apply stmt_safe|]. intros []; auto with kato. Qed.
Lemma add_unless_safe {R} `{Row R} c (P : R → Prop) `{∀ r, Decision (P r)} r e : safe (add_unless c P r e).
Proof.
  apply safe_bind; [apply safe_bind; [apply total_safe, total_catch, find_one_safe|intros; apply safe_ret]|].
  intros []; [apply stmt_safe|apply safe_fail].
Qed.
Lemma catch_safe {A} (m : M World A) : safe m → safe (catch m).
Proof. intros Hm. by apply total_safe, total_catch. Qed.
Lemma wrap_safe {A} msg (m : M World A) : safe m → safe (wrap_err msg m).
Proof. intros [Hm]. split. intros w. specialize (Hm w). unfold wrap_err. by destruct (m w) as [? []]. Qed.
End transactions.

(** What a function does inside a transaction is local, by its parts. *)
Ltac is_local :=
  repeat first [apply local_bind; [|intros ?] | apply local_catch | apply local_wrap | apply local_forM; intros ? |
                apply _ | case_match].

(** Witnesses of existentials. *)
Ltac destruct_and_ex := repeat match goal with H : ∃ _, _ |- _ => destruct H | H : _ ∧ _ |- _ => destruct H end.

(** ** Deleting a component *)

Section deleting.
Context `{ApiEnv} `{!ApiEnvLaws}.

(** [writes m f]: when [m] returns, the transaction sees the tables through [f]. *)
Definition writes {A} (m : M World A) (f : Tables → Tables → Prop) : Prop :=
  ∀ w w' a, m w = (w', Ok a) → f (visible Tx w) (visible Tx w') ∧ w_tasks w' = w_tasks w.

(** A table without some rows. *)
Definition drop_rows {R} `{Row R} (P : R → Prop) `{∀ r, Decision (P r)} : Tables → Tables :=
  on_rows (base.filter (λ r, ¬ P r)).

Lemma writes_ret {A} (a : A) : writes (mret a) (λ t t', t' = t).
Proof. by intros w w' a' [= <- <-]. Qed.

Lemma writes_bind {A B} (m : M World A) (k : A → M World B) (f g : Tables → Tables → Prop) :
  writes m f → (∀ a, writes (k a) g) → writes (m ≫= k) (λ t t', ∃ t1, f t t1 ∧ g t1 t').
Proof.
  intros Hm Hk w w' b (w1 & a & [Hf Ht]%Hm & [Hg Ht']%Hk)%bind_ok_inv. split; [by eexists|congruence].
Qed.

Lemma writes_weaken {A} (m : M World A) (f g : Tables → Tables → Prop) :
  (∀ t t', f t t' → g t t') → writes m f → writes m g.
Proof. intros Hi Hm w w' a [Hf Ht]%Hm. eauto. Qed.

Lemma statement_ok {A} c (f : Tables → Tables * A) w w' a : statement c f w = (w', Ok a) →
  a = (f (visible c w)).2 ∧ visible c w' = (f (visible c w)).1 ∧ w_tasks w' = w_tasks w ∧ w_ids w' = w_ids w.
Proof.
  unfold statement. destruct (statement_error _); [discriminate|]. destruct (f (visible c w)) as [t a'].
  intros [= <- <-]. by destruct w, c.
Qed.

Lemma writes_delete {R} `{Row R} (P : R → Prop) `{∀ r, Decision (P r)} :
  writes (Delete Tx P) (λ t t', t' = drop_rows P t).
Proof. intros w w' a (_ & E & Ht & _)%statement_ok. done. Qed.

Lemma writes_find {R} `{Row R} (P : R → Prop) `{∀ r, Decision (P r)} w w' l : Find Tx P w = (w', Ok l) →
  visible Tx w' = visible Tx w ∧ w_tasks w' = w_tasks w ∧ (∀ r, r ∈ l ↔ P r ∧ r ∈ rows (visible Tx w)).
Proof.
  intros (-> & E & Ht & _)%statement_ok. split; [done|]. split; [done|]. intros r. cbn.
  by rewrite any_order_perm, list_elem_of_filter.
Qed.

Lemma delete_not_absent {R} `{Row R} c (P : R → Prop) `{∀ r, Decision (P r)} w : (Delete c P w).2 ≠ Err ERecordNotFound.
Proof.
  unfold Delete, statement. destruct (statement_error _) as [e|] eqn:E; cbn; [|done]. intros [= ->].
  by apply statement_error_other in E.
Qed.

(** An absent row is no error. *)
Lemma unless_absent_ok m w w' : unless_absent m w = (w', Ok ()) → m w = (w', Ok ()) ∨ m w = (w', Err ERecordNotFound).
Proof.
  unfold unless_absent. intros (w1 & r & Hc & Hk)%bind_ok_inv. unfold catch in Hc.
  destruct (m w) as [w2 [[]|e|]]; [|destruct (decide (e = ERecordNotFound)) as [->|Hn]|discriminate].
  - injection Hc as <- <-. injection Hk as <-. by left.
  - injection Hc as <- <-. rewrite decide_True in Hk by done. injection Hk as <-. by right.
  - injection Hc as <- <-. by rewrite decide_False in Hk.
Qed.

Lemma writes_unless_delete {R} `{Row R} (P : R → Prop) `{∀ r, Decision (P r)} :
  writes (unless_absent (Delete Tx P)) (λ t t', t' = drop_rows P t).
Proof.
  intros w w' [] [E|E]%unless_absent_ok; [exact (writes_delete _ _ _ _ E)|].
  exfalso. apply (delete_not_absent Tx P w). by rewrite E.
Qed.

(** Of the rows that were found, those with the primary key of the first one go. *)
Definition dropped_found {R} `{Row R} (P : R → Prop) `{∀ r, Decision (P r)} (t t' : Tables) : Prop :=
  t' = t ∧ (∀ r, r ∈ rows t → ¬ P r) ∨ ∃ r, P r ∧ r ∈ rows t ∧ t' = drop_rows (λ x, P x ∧ row_ID x = row_ID r) t.

Lemma find_one_quiet {R} `{Row R} c (P : R → Prop) `{∀ r, Decision (P r)} w : w_tasks (Find_one c P w).1 = w_tasks w.
Proof.
  unfold Find_one, Find, statement, mbind, M_bind. destruct (statement_error (w_statements w)); [by destruct w|].
  cbn. destruct (any_order _); by destruct w, c.
Qed.

Lemma writes_unless_delete_found {R} `{Row R} (P : R → Prop) `{∀ r, Decision (P r)} :
  writes (unless_absent (delete_found Tx P)) (dropped_found P).
Proof.
  intros w w' [] Hu%unless_absent_ok. unfold delete_found in Hu. rewrite bind_unfold in Hu.
  pose proof (find_one_result Tx P w) as Hr. pose proof (find_one_same Tx P w) as [_ Hs]. specialize (Hs Tx).
  pose proof (find_one_quiet Tx P w) as Hq.
  destruct (Find_one Tx P w) as [w1 [r|e|]]; cbn [fst snd] in *; [|destruct Hu as [[=]|[= <- ->]]|by destruct Hu as [[=]|[=]]].
  - destruct Hu as [Hu|Hu].
    + apply writes_delete in Hu as [-> Ht]. rewrite Ht, Hs. split; [|done]. right. exists r. by destruct Hr.
    + exfalso. apply (delete_not_absent Tx (λ x, P x ∧ row_ID x = row_ID r) w1). by rewrite Hu.
  - rewrite Hs. split; [|done]. by left.
Qed.

(** *** What is removed *)

(** The deletions; of the variables the one with the primary key [i] goes. *)
Definition removals (sid : string) (i : Z) : list (Tables → Tables) :=
  [drop_rows (λ r, own_Table r = CodeCheckResults ∧ own_ServiceID r = sid); drop_rows (λ r, env_ServiceID r = sid ∧ env_ID r = i);
   drop_rows (λ r, own_Table r = PluginConfigs ∧ own_ServiceID r = sid); drop_rows (λ r, plg_ServiceID r = sid);
   drop_rows (λ r, ppr_ServiceID r = sid); drop_rows (λ r, svr_ServiceID r = sid); drop_rows (λ r, prt_ServiceID r = sid);
   drop_rows (λ r, rlr_ServiceID r = sid); drop_rows (λ r, mnt_ServiceID r = sid); drop_rows (λ r, vol_ServiceID r = sid);
   drop_rows (λ r, cff_ServiceID r = sid); drop_rows (λ r, ept_ServiceID r = sid); drop_rows (λ r, dsc_ServiceID r = sid);
   drop_rows (λ r, lbr_ServiceID r = sid); drop_rows (λ r, vir_ServiceID r = sid);
   drop_rows (λ r, own_Table r = PluginEnvs ∧ own_ServiceID r = sid); drop_rows (λ r, prb_ServiceID r = sid);
   drop_rows (λ r, evr_ServiceID r = sid); drop_rows (λ r, mon_ServiceID r = sid);
   drop_rows (λ r, own_Table r = ConfigGroupServices ∧ own_ServiceID r = sid)].

Definition run_all (l : list (Tables → Tables)) (t : Tables) : Tables := foldl (λ t f, f t) t l.

(** Rules with what belongs to them. *)
Definition without_tcp (ids : list string) (t : Tables) : Tables :=
  drop_rows (λ r, trr_UUID r ∈ ids) (drop_rows (λ r, rer_RuleID r ∈ ids) t).
Definition without_http (ids : list string) (t : Tables) : Tables :=
  drop_rows (λ r, hrr_UUID r ∈ ids) (drop_rows (λ r, grc_RuleID r ∈ ids) (drop_rows (λ r, rer_RuleID r ∈ ids) t)).

Definition tcp_ids (sid : string) (t : Tables) : list string := trr_UUID <$> base.filter (λ r, trr_ServiceID r = sid) (tb_tcp t).
Definition http_ids (sid : string) (t : Tables) : list string := hrr_UUID <$> base.filter (λ r, hrr_ServiceID r = sid) (tb_http t).

Definition archive (service : ServiceRow) (t : Tables) : Tables :=
  t <| tb_deleted ::= λ l, l ++ [mkDeletedRow (tb_next t) service] |> <| tb_next ::= Z.succ |>.

(** The variable that goes is one of the component, if it has any. *)
Definition variable_of (sid : string) (i : Z) (t : Tables) : Prop :=
  (∃ r, r ∈ pt_envs (tb_parts t) ∧ env_ServiceID r = sid ∧ env_ID r = i) ∨
  (∀ r, r ∈ pt_envs (tb_parts t) → env_ServiceID r ≠ sid).

(** The tables without the component; what it was may be kept. *)
Definition removed (sid : string) (service : ServiceRow) (t t' : Tables) : Prop :=
  ∃ t0 i, (t0 = t ∨ t0 = archive service t) ∧ variable_of sid i t ∧
    t' = run_all (removals sid i) (without_http (http_ids sid t) (without_tcp (tcp_ids sid t) t0)).

Lemma filter_none {R} (P : R → Prop) `{∀ r, Decision (P r)} (l : list R) :
  (∀ r, r ∈ l → ¬ P r) → base.filter (λ r, ¬ P r) l = l.
Proof.
  induction l as [|x l IH]; intros Hn; [done|]. rewrite filter_cons_True by (apply Hn; by left). f_equal. apply IH.
  intros r Hr. apply Hn. by right.
Qed.

Lemma drop_elem {R} `{Row R} (P : R → Prop) `{∀ r, Decision (P r)} (l : list R) r :
  r ∈ base.filter (λ x, ¬ P x) l ↔ r ∈ l ∧ ¬ P r.
Proof. rewrite list_elem_of_filter. tauto. Qed.

(** Tables as records of lists. *)
Ltac on_tables := cbn -[base.filter]; unfold on_parts, set_field; cbn -[base.filter].

Ltac in_cons := rewrite list_filter_filter; apply list_filter_iff; intros r; set_solver.

Lemma filter_nil_in {R} (key : R → string) (l : list R) : base.filter (λ r, ¬ (key r ∈ [])) l = l.
Proof. induction l as [|r l IH]; [done|]. rewrite filter_cons_True by (intros []%not_elem_of_nil). by rewrite IH. Qed.

Lemma without_tcp_cons i ids t : without_tcp ids (without_tcp [i] t) = without_tcp (i :: ids) t.
Proof.
  destruct t. unfold without_tcp, drop_rows. on_tables. f_equal; in_cons.
Qed.

Lemma without_http_cons i ids t : without_http ids (without_http [i] t) = without_http (i :: ids) t.
Proof.
  destruct t. unfold without_http, drop_rows. on_tables. f_equal; in_cons.
Qed.

Lemma without_nil t : without_tcp [] t = t ∧ without_http [] t = t.
Proof. destruct t. unfold without_tcp, without_http, drop_rows. on_tables. by rewrite !filter_nil_in. Qed.

(** Only which rules they are matters. *)
Lemma without_perm ids ids' t : (∀ i, i ∈ ids ↔ i ∈ ids') →
  without_tcp ids t = without_tcp ids' t ∧ without_http ids t = without_http ids' t.
Proof.
  intros Hi. destruct t. unfold without_tcp, without_http, drop_rows. on_tables.
  by split; f_equal; apply list_filter_iff; intros r; rewrite Hi.
Qed.

Lemma drop_single {R} `{Row R} (key : R → string) (i : string) (t : Tables) :
  (∀ f g, (∀ l, f l = g l) → on_rows (R := R) f t = on_rows g t) →
  drop_rows (λ r, key r = i) t = drop_rows (λ r, key r ∈ [i]) t.
Proof. intros Hx. apply Hx. intros l. apply list_filter_iff. intros r. by rewrite list_elem_of_singleton. Qed.

Lemma writes_tcp_loop rules :
  writes (forM rules (λ rule, _ ← DeleteRuleExtensionByRuleID Tx (trr_UUID rule); TCPRuleDao_DeleteByID Tx (trr_UUID rule)))
    (λ t t', t' = without_tcp (trr_UUID <$> rules) t).
Proof.
  induction rules as [|rule rules IH]; cbn [forM].
  - intros w w' a [= <- _]. split; [|done]. symmetry. apply without_nil.
  - eapply writes_weaken; [|apply writes_bind; [apply writes_bind; [apply writes_delete|intros _; apply writes_delete]|intros _; exact IH]].
    cbv beta. intros t t' (t1 & (t2 & -> & ->) & ->). rewrite fmap_cons, <- without_tcp_cons. f_equal.
    unfold without_tcp. rewrite <- !drop_single; [done|..]; by intros f g E; destruct t; on_tables; rewrite E.
Qed.

Lemma writes_http_loop rules :
  writes (forM rules (λ rule, _ ← DeleteRuleExtensionByRuleID Tx (hrr_UUID rule); _ ← DeleteByRuleID Tx (hrr_UUID rule);
      DeleteHTTPRuleByID Tx (hrr_UUID rule)))
    (λ t t', t' = without_http (hrr_UUID <$> rules) t).
Proof.
  induction rules as [|rule rules IH]; cbn [forM].
  - intros w w' a [= <- _]. split; [|done]. symmetry. apply without_nil.
  - eapply writes_weaken; [|apply writes_bind; [apply writes_bind; [apply writes_delete|intros _; apply writes_bind;
      [apply writes_delete|intros _; apply writes_delete]]|intros _; exact IH]].
    cbv beta. intros t t' (t1 & (t2 & -> & t3 & -> & ->) & ->). rewrite fmap_cons, <- without_http_cons. f_equal.
    unfold without_http. rewrite <- !drop_single; [done|..]; by intros f g E; destruct t; on_tables; rewrite E.
Qed.

Lemma writes_tcp sid : writes (DeleteTCPRuleByServiceIDWithTransaction sid) (λ t t', t' = without_tcp (tcp_ids sid t) t).
Proof.
  intros w w' a (w1 & rules & (Hv & Ht & Hin)%writes_find & [Hl Ht']%writes_tcp_loop)%bind_ok_inv.
  split; [|congruence]. rewrite Hl, Hv. apply without_perm. intros i. unfold tcp_ids. rewrite !list_elem_of_fmap.
  split; intros (r & -> & Hr); exists r; (split; [done|]).
  - apply list_elem_of_filter. by apply Hin.
  - apply Hin. by apply list_elem_of_filter in Hr.
Qed.

Lemma writes_http sid : writes (DeleteHTTPRuleByServiceIDWithTransaction sid) (λ t t', t' = without_http (http_ids sid t) t).
Proof.
  intros w w' a (w1 & rules & (Hv & Ht & Hin)%writes_find & [Hl Ht']%writes_http_loop)%bind_ok_inv.
  split; [|congruence]. rewrite Hl, Hv. apply without_perm. intros i. unfold http_ids. rewrite !list_elem_of_fmap.
  split; intros (r & -> & Hr); exists r; (split; [done|]).
  - apply list_elem_of_filter. by apply Hin.
  - apply Hin. by apply list_elem_of_filter in Hr.
Qed.

Lemma writes_create {R} `{Row R} (r : R) :
  writes (Create Tx r) (λ t t', t' = (on_rows (λ l, l ++ [with_ID (tb_next t) r]) t) <| tb_next ::= Z.succ |>).
Proof. intros w w' a (_ & E & Ht & _)%statement_ok. done. Qed.

Lemma writes_events sid : writes (unless_absent (DelEventByServiceID Tx sid)) (λ t t', t' = drop_rows (λ r, evr_ServiceID r = sid) t).
Proof.
  intros w w' [] Hu%unless_absent_ok. unfold DelEventByServiceID in Hu. rewrite bind_unfold in Hu.
  assert (∃ w1 r, catch (Find Tx (λ r : EventRow, evr_ServiceID r = sid)) w = (w1, Ok r) ∧ visible Tx w1 = visible Tx w ∧
    w_tasks w1 = w_tasks w) as (w1 & r & Hc & E1 & E2).
  { unfold catch, Find, statement. destruct (statement_error _); eexists _, _; (split; [reflexivity|]); by destruct w. }
  rewrite Hc in Hu. destruct Hu as [Hu|Hu].
  - apply writes_delete in Hu as [-> Ht]. by rewrite E1, Ht.
  - exfalso. apply (delete_not_absent Tx (λ r, evr_ServiceID r = sid) w1). by rewrite Hu.
Qed.

Lemma writes_archive service : writes (ServiceDelete_AddModel Tx (mkDeletedRow 0 service)) (λ t t', t' = t ∨ t' = archive service t).
Proof.
  intros w w' a (w1 & ok & Hq & Hk)%bind_ok_inv.
  assert (visible Tx w1 = visible Tx w ∧ w_tasks w1 = w_tasks w) as [E1 E2].
  { unfold RecordNotFound in Hq. match type of Hq with (catch (Find_one Tx ?P) ≫= _) _ = _ =>
      pose proof (find_one_same Tx P w) as [_ Hs]; pose proof (find_one_quiet Tx P w) as Ht;
      rewrite bind_unfold in Hq; unfold catch in Hq; destruct (Find_one Tx P w) as [w2 [x|e|]] end;
      [injection Hq as <- _|injection Hq as <- _|done]; (split; [apply (Hs Tx)|exact Ht]). }
  destruct ok.
  - apply writes_create in Hk as [Hk Ht]. rewrite E1 in Hk. split; [|congruence]. by right.
  - injection Hk as <- _. rewrite E1, E2. split; [by left|done].
Qed.

(** Steps one after another. *)
Fixpoint chain (fs : list (Tables → Tables → Prop)) (t t' : Tables) : Prop :=
  match fs with [] => t' = t | f :: fs' => ∃ t1, f t t1 ∧ chain fs' t1 t' end.

Lemma writes_chain ms fs : Forall2 (λ m f, writes (unless_absent m) f) ms fs → writes (forM ms unless_absent) (chain fs).
Proof.
  induction 1 as [|m f ms fs Hm _ IH]; cbn [forM chain]; [apply writes_ret|]. apply writes_bind; [exact Hm|by intros _].
Qed.

Lemma dropped_variable sid t t' : dropped_found (λ r, env_ServiceID r = sid) t t' →
  ∃ i, variable_of sid i t ∧ t' = drop_rows (λ r, env_ServiceID r = sid ∧ env_ID r = i) t.
Proof.
  intros [[-> Hn] | (r & Hr & Hin & ->)]; [|exists (env_ID r); split; [left; by exists r|done]].
  exists 0%Z. split; [by right|]. symmetry. unfold drop_rows. destruct t as [? ? ? ? ? ? ? ? ? ? ? ? [] ?]. on_tables.
  cbn in Hn. rewrite (filter_none (λ r, env_ServiceID r = sid ∧ env_ID r = 0%Z)); [done|]. intros x Hx [Hs _]. by apply (Hn x).
Qed.

Lemma writes_deletions sid : writes (forM (deleteServicePropertyFunc sid) unless_absent)
  (λ t t', ∃ i, variable_of sid i t ∧ t' = run_all (removals sid i) t).
Proof.
  eapply writes_weaken; [|apply writes_chain; unfold deleteServicePropertyFunc;
    repeat first [apply Forall2_nil_2|apply Forall2_cons_2; [first [apply writes_unless_delete|apply writes_unless_delete_found|
      apply writes_events]|]]].
  intros t t' (t1 & -> & t2 & (i & Hi & ->)%dropped_variable & Hrest). exists i. split; [by destruct t|].
  cbn [chain] in Hrest. destruct_and_ex; subst. done.
Qed.

Lemma without_envs ids ids' t : pt_envs (tb_parts (without_http ids (without_tcp ids' t))) = pt_envs (tb_parts t).
Proof. by destruct t. Qed.
Lemma http_ids_tcp sid ids t : http_ids sid (without_tcp ids t) = http_ids sid t.
Proof. by destruct t. Qed.

Lemma writes_delete_rows sid service : writes (delete_rows sid service) (removed sid service).
Proof.
  eapply writes_weaken; [|apply writes_bind; [apply writes_archive|intros _; apply writes_bind; [apply writes_tcp|intros _;
    apply writes_bind; [apply writes_http|intros _; apply writes_deletions]]]].
  intros t t' (t0 & Ha & t1 & -> & t2 & -> & i & Hi & ->).
  assert (tcp_ids sid t0 = tcp_ids sid t ∧ http_ids sid t0 = http_ids sid t ∧ pt_envs (tb_parts t0) = pt_envs (tb_parts t))
    as (E1 & E2 & E3) by (by destruct Ha as [-> | ->]).
  exists t0, i. split; [done|]. rewrite http_ids_tcp, E1, E2 in *. split; [|done].
  unfold variable_of in *. by rewrite without_envs, E3 in Hi.
Qed.

Lemma delete_rows_safe sid service : safe (delete_rows sid service).
Proof.
  unfold delete_rows. apply safe_bind; [apply safe_bind; [apply safe_bind; [apply catch_safe, find_one_safe|intros; apply safe_ret]|
    intros []; [apply stmt_safe|apply safe_ret]]|intros _].
  apply safe_bind; [apply safe_bind; [apply stmt_safe|intros; apply safe_forM; intros; apply safe_bind; [apply stmt_safe|intros; apply stmt_safe]]|intros _].
  apply safe_bind; [apply safe_bind; [apply stmt_safe|intros; apply safe_forM; intros; apply safe_bind; [apply stmt_safe|intros;
    apply safe_bind; [apply stmt_safe|intros; apply stmt_safe]]]|intros _].
  assert (∀ m, safe m → safe (unless_absent m)) as Hu.
  { intros m Hm. apply safe_bind; [by apply catch_safe|]. intros []; [case_decide|]; auto with kato. }
  assert (Forall safe (deleteServicePropertyFunc sid)) as Hf.
  { unfold deleteServicePropertyFunc. repeat constructor; unfold DelEventByServiceID, DELServiceEnvsByServiceID, delete_found;
      try apply stmt_safe; intros w; refine (safe_run _ _ w); apply safe_bind; intros; first [apply find_one_safe|apply catch_safe, stmt_safe|apply stmt_safe]. }
  induction Hf; cbn [forM]; [apply safe_ret|]. apply safe_bind; auto.
Qed.

Lemma local_delete_rows sid service : local (delete_rows sid service).
Proof.
  unfold delete_rows, ServiceDelete_AddModel, DeleteTCPRuleByServiceIDWithTransaction, DeleteHTTPRuleByServiceIDWithTransaction,
    GetTCPRuleByServiceID, HTTPRuleDao_ListByServiceID, TCPRuleDao_DeleteByID, DeleteRuleExtensionByRuleID, DeleteByRuleID, DeleteHTTPRuleByID.
  apply local_bind; [is_local|intros _]. apply local_bind; [is_local|intros _]. apply local_bind; [is_local|intros _].
  assert (∀ m, local m → local (unless_absent m)) as Hu.
  { intros m Hm. unfold unless_absent. is_local. }
  assert (Forall local (deleteServicePropertyFunc sid)) as Hf.
  { unfold deleteServicePropertyFunc, DelEventByServiceID. repeat constructor; refine (λ w, local_run w); is_local. }
  induction Hf; cbn [forM]; [apply _|]. apply local_bind; auto.
Qed.
(** *** The tables afterwards *)

(** The rows of a table that are not the component's. *)
Definition others {R} (owner : R → string) (sid : string) (l : list R) : list R := base.filter (λ r, owner r ≠ sid) l.

(** What the deletion of a component makes of every table. *)
Record deletion (sid : string) (service : ServiceRow) (t t' : Tables) : Prop := {
  del_services : tb_services t' = others svr_ServiceID sid (tb_services t);
  del_archive : tb_deleted t' = tb_deleted t ∨ ∃ i, tb_deleted t' = tb_deleted t ++ [mkDeletedRow i service];
  del_http : tb_http t' = base.filter (λ r, ¬ (hrr_UUID r ∈ http_ids sid t)) (tb_http t);
  del_tcp : tb_tcp t' = base.filter (λ r, ¬ (trr_UUID r ∈ tcp_ids sid t)) (tb_tcp t);
  del_ext : tb_ext t' = base.filter (λ r, ¬ (rer_RuleID r ∈ http_ids sid t)) (base.filter (λ r, ¬ (rer_RuleID r ∈ tcp_ids sid t)) (tb_ext t));
  del_cfg : tb_cfg t' = base.filter (λ r, ¬ (grc_RuleID r ∈ http_ids sid t)) (tb_cfg t);
  del_versions : tb_versions t' = others vir_ServiceID sid (tb_versions t);
  del_labels : tb_labels t' = others lbr_ServiceID sid (tb_labels t);
  del_relations : tb_relations t' = others rlr_ServiceID sid (tb_relations t);
  del_events : tb_events t' = others evr_ServiceID sid (tb_events t);
  del_parts : let p := tb_parts t in let p' := tb_parts t' in
    pt_ports p' = others prt_ServiceID sid (pt_ports p) ∧ pt_volumes p' = others vol_ServiceID sid (pt_volumes p) ∧
    pt_files p' = others cff_ServiceID sid (pt_files p) ∧ pt_mounts p' = others mnt_ServiceID sid (pt_mounts p) ∧
    pt_plugins p' = others plg_ServiceID sid (pt_plugins p) ∧ pt_pluginports p' = others ppr_ServiceID sid (pt_pluginports p) ∧
    pt_probes p' = others prb_ServiceID sid (pt_probes p) ∧ pt_monitors p' = others mon_ServiceID sid (pt_monitors p) ∧
    pt_endpoints p' = others ept_ServiceID sid (pt_endpoints p) ∧ pt_discovery p' = others dsc_ServiceID sid (pt_discovery p) ∧
    pt_owned p' = others own_ServiceID sid (pt_owned p);
  del_variables : ∃ i, variable_of sid i t ∧
    pt_envs (tb_parts t') = base.filter (λ r, ¬ (env_ServiceID r = sid ∧ env_ID r = i)) (pt_envs (tb_parts t));
  del_rest : tb_cert t' = tb_cert t ∧ tb_lb t' = tb_lb t ∧ pt_scalers (tb_parts t') = pt_scalers (tb_parts t) ∧
    pt_metrics (tb_parts t') = pt_metrics (tb_parts t)
}.

Lemma removed_tables sid service t t' : removed sid service t t' → deletion sid service t t'.
Proof.
  intros (t0 & i & Ha & Hi & ->).
  assert (deletion sid service t (run_all (removals sid i) (without_http (http_ids sid t) (without_tcp (tcp_ids sid t) t0)))); [|done].
  destruct Ha as [-> | ->]; split; try (by destruct t as [? ? ? ? ? ? ? ? ? ? ? ? [] ?]); try (by left);
    try (right; by exists (tb_next t)); try (exists i; split; [exact Hi|by destruct t as [? ? ? ? ? ? ? ? ? ? ? ? [] ?]]);
    destruct t as [? ? ? ? ? ? ? ? ? ? ? ? [] ?]; cbn zeta; split_and!; try done.
  all: unfold others; on_tables; unfold removals, run_all, drop_rows; on_tables; rewrite !list_filter_filter;
    apply list_filter_iff; intros [[] ? ?]; cbn; naive_solver.
Qed.

(** *** Before the transaction *)

(** Reading outside a transaction gives the first row there is, and changes nothing. *)
Lemma pool_service sid w : ∃ w1 r, GetServiceByID Pool sid w = (w1, r) ∧
  w_db w1 = w_db w ∧ w_tx w1 = w_tx w ∧ w_tasks w1 = w_tasks w ∧
  match r with
  | Ok s => head (any_order (base.filter (λ r, svr_ServiceID r = sid) (tb_services (w_db w)))) = Some s
  | Err e => e = ERecordNotFound → base.filter (λ r, svr_ServiceID r = sid) (tb_services (w_db w)) = []
  | Panic => False
  end.
Proof.
  unfold GetServiceByID, Find_one, Find, statement, mbind, M_bind.
  destruct (statement_error (w_statements w)) as [e|] eqn:E; [|change (rows (visible Pool w)) with (tb_services (w_db w));
    destruct (any_order _) as [|s l] eqn:El]; eexists _, _; (split; [reflexivity|]); (split; [by destruct w|]); (split; [by destruct w|]);
    (split; [by destruct w|]); [|intros _|done].
  - intros ->. by apply statement_error_other in E.
  - symmetry in El. apply Permutation_nil_r. rewrite El. symmetry. apply any_order_perm.
Qed.

Lemma head_service sid s t : head (any_order (base.filter (λ r, svr_ServiceID r = sid) (tb_services t))) = Some s →
  s ∈ tb_services t ∧ svr_ServiceID s = sid.
Proof.
  intros Hs%head_Some_elem_of. rewrite any_order_perm, list_elem_of_filter in Hs. tauto.
Qed.

Context `{ComponentEnv}.

(** A component may be deleted when it is closed, or runs elsewhere. *)
Definition deletable (service : ServiceRow) (sid : string) : Prop :=
  svr_Kind service = "third_party"%string ∨ IsClosedStatus (GetStatus sid) = true.

Lemma is_closed_outcome sid w : ∃ w1 r, isServiceClosed sid w = (w1, r) ∧
  w_db w1 = w_db w ∧ w_tasks w1 = w_tasks w ∧
  match r with
  | Ok _ => ∃ s, head (any_order (base.filter (λ r, svr_ServiceID r = sid) (tb_services (w_db w)))) = Some s ∧ deletable s sid
  | Err _ => True
  | Panic => False
  end.
Proof.
  unfold isServiceClosed. rewrite bind_unfold. destruct (pool_service sid w) as (w1 & r & -> & Hd & _ & Ht & Hr).
  destruct r as [s|e|]; [|by eexists _, _|done]. case_decide as Hk; eexists _, _; (split; [reflexivity|]); (split; [done|]); (split; [done|]); [done|].
  exists s. split; [done|]. unfold deletable. destruct (decide (svr_Kind s = "third_party"%string)); [by left|right].
  destruct (IsClosedStatus _); [done|]. by destruct Hk.
Qed.

(** The events of the component that the collection is told of. *)
Definition events_of (sid : string) (t : Tables) (ids : list string) : Prop :=
  ∀ i, i ∈ ids → ∃ r, r ∈ tb_events t ∧ evr_TargetID r = sid ∧ evr_EventID r = i.

Lemma gc_body_outcome tid sid w : ∃ w1 ids, gcTaskBody tid sid w = (w1, Ok (BServiceGC (mkServiceGC tid sid ids))) ∧
  w_db w1 = w_db w ∧ w_tasks w1 = w_tasks w ∧ events_of sid (w_db w) ids.
Proof.
  unfold gcTaskBody, catch, ListByTargetID, Find, statement, mbind, M_bind.
  destruct (statement_error (w_statements w)) as [e|]; eexists _, _; (split; [reflexivity|]); (split; [by destruct w|]);
    (split; [by destruct w|]); intros i Hi.
  - by apply not_elem_of_nil in Hi.
  - apply list_elem_of_fmap in Hi as (r & -> & Hr). rewrite any_order_perm, list_elem_of_filter in Hr. exists r. cbn in Hr. tauto.
Qed.

#[local] Instance silent_unless m : silent m → silent (unless_absent m).
Proof. intros Hm. unfold unless_absent. apply silent_bind; [apply _|]. intros []; [case_decide|]; apply _. Qed.

Lemma silent_delete_rows sid service : silent (delete_rows sid service).
Proof.
  unfold delete_rows, ServiceDelete_AddModel, DeleteTCPRuleByServiceIDWithTransaction, DeleteHTTPRuleByServiceIDWithTransaction,
    GetTCPRuleByServiceID, HTTPRuleDao_ListByServiceID, TCPRuleDao_DeleteByID, DeleteRuleExtensionByRuleID, DeleteByRuleID, DeleteHTTPRuleByID.
  apply silent_bind; [apply silent_bind; [apply _|intros []; apply _]|intros _].
  apply silent_bind; [apply _|intros _]. apply silent_bind; [apply _|intros _].
  assert (Forall silent (deleteServicePropertyFunc sid)) as Hf.
  { unfold deleteServicePropertyFunc, DelEventByServiceID. repeat constructor; refine (λ w, silent_run _ w);
      unfold DELServiceEnvsByServiceID, delete_found; apply _. }
  induction Hf; cbn [forM]; apply _.
Qed.

(** The rows of a component are deleted all or not at all. *)
Lemma metadata_outcome sid w : ∃ w1 r, delServiceMetadata sid w = (w1, r) ∧ w_tasks w1 = w_tasks w ∧
  match r with
  | Ok _ => ∃ s, head (any_order (base.filter (λ r, svr_ServiceID r = sid) (tb_services (w_db w)))) = Some s ∧
      deletion sid s (w_db w) (w_db w1)
  | Err _ => w_db w1 = w_db w
  | Panic => False
  end.
Proof.
  unfold delServiceMetadata. rewrite bind_unfold. destruct (pool_service sid w) as (w1 & r & -> & Hd & _ & Ht & Hr).
  destruct r as [s|e|]; [|by eexists _, _|done].
  destruct (in_transaction () (delete_rows sid s) w1) as [w2 r2] eqn:E. exists w2, r2. split; [done|].
  assert (w_tasks w2 = w_tasks w1) as Ht2.
  { pose proof (silent_run _ (silent := silent_delete_rows sid s) (Begin w1).1) as Hs. unfold in_transaction in E.
    assert (w_tasks (Begin w1).1 = w_tasks w1) as Hb by (by destruct w1).
    destruct (delete_rows sid s (Begin w1).1) as [w3 [a|e|]]; cbn [fst] in Hs.
    - rewrite bind_unfold in E. assert (w_tasks (Commit w3).1 = w_tasks w3) as Hc
        by (unfold Commit; destruct (statement_error _); by destruct w3).
      destruct (Commit w3) as [w4 [b|e|]]; injection E as <- _; cbn [fst] in *; congruence.
    - injection E as <- _. destruct w3. cbn in *. congruence.
    - injection E as <- _. destruct w3. cbn in *. congruence. }
  split; [congruence|].
  pose proof (delete_rows_safe sid s) as [Hsafe]. specialize (Hsafe (Begin w1).1).
  apply in_transaction_outcome in E as (_ & [(w3 & a & Hb & Hv & ->)|(Hdb & Hr2)]); [| |apply local_delete_rows].
  - exists s. split; [done|]. apply removed_tables. rewrite Hv, <- Hd, <- (begin_visible w1).
    by apply (writes_delete_rows sid s _ _ _ Hb).
  - destruct Hr2 as [[e ->]|[-> Hp]]; [congruence|]. by destruct (Hsafe Hp).
Qed.

End deleting.

(** ** An example *)

#[local] Instance sure_component_env : ApiEnv := {
  statement_error _ := None; any_order _ l := l; NewUUID _ := "id"%string; queue_error _ := None }.
#[local] Instance sure_component_laws : ApiEnvLaws.
Proof. by split. Qed.
#[local] Instance closed_components : ComponentEnv := {
  gpu_license := false; GetServicePods _ := inr 0; GetStatus _ := CLOSED; Getenv _ := ""%string; SetEventStatus _ w := w;
  ErrHorizontalDueToNoChange := EMsg "no change" }.

(** Two components; the first with a port, two variables, a rule and an event. *)
Definition small_parts : PartTables :=
  no_parts <| pt_ports := [mkPortRow 4 "t" "web" 80 80 "http" "WEB" (Some true) (Some true) "web"] |>%string
           <| pt_envs := [mkEnvVarRow 5 "t" "web" 0 "A" "A" "1" true "outer"; mkEnvVarRow 6 "t" "web" 0 "B" "B" "2" true "outer";
                          mkEnvVarRow 7 "t" "api" 0 "C" "C" "3" true "outer"] |>%string.
Definition small_component (i : Z) (id : string) : ServiceRow :=
  mkServiceRow i "t" id id "ns" "internal" 512 1 "v1" "" "" "stateless_multiple" 0 0 "".
Definition small_tables : Tables :=
  mkTables [] [mkTCPRow 8 "rule" "web" 80 "10.0.0.1" 10000; mkTCPRow 9 "other" "api" 80 "10.0.0.1" 10001]%string []
    [mkExtRow 10 "x" "rule" "k" "v"]%string [] [] [small_component 1 "web"; small_component 2 "api"] []
    [mkEventRow 11 "e11" "t" "service" "web" "" "me" "0" "" "build-service" 0 "" "complete" "" ""]%string []
    [mkRelationRow 3 "web" "api"]%string [] small_parts 12.
Definition small_world : World := mkWorld small_tables None 0 0 ∅ [].
Definition small_deleted : World * result unit := TransServieToDelete "t" "web" small_world.

(** One of the two variables and the event are still there. *)
Example variables_left : small_deleted.2 = Ok () ∧
  tb_services (w_db small_deleted.1) = [small_component 2 "api"] ∧
  env_Name <$> pt_envs (tb_parts (w_db small_deleted.1)) = ["B"; "C"]%string ∧
  evr_EventID <$> tb_events (w_db small_deleted.1) = ["e11"]%string ∧
  (trr_UUID <$> tb_tcp (w_db small_deleted.1), tb_ext (w_db small_deleted.1), tb_relations (w_db small_deleted.1)) = (["other"]%string, [], []) ∧
  w_tasks small_deleted.1 = [SentWork "service_gc" (BServiceGC (mkServiceGC "t" "web" ["e11"]))]%string.
Proof. split_and!; vm_compute; reflexivity. Qed.

