(* ===== verification/ComponentRequests.v ===== *)
(** * What becomes of the other requests about components

    Requests that open a transaction are all or nothing ([requests_all_or_nothing]),
    creating a component among them; a component keeps its state while a
    volume needs it, and is not made single while it has replicas ([state_kept]). *)
From S2P Require Import Prelude Task AppStatus Variables ThirdParty Gateway Annotation ComponentRows ApiDao RuleAction RuleSpec Operation OperationSpec ComponentDao ComponentAction ComponentSpec ComponentParts.

(** A request that fails has left the tables as they were. *)
Class atomic {A} (m : M World A) : Prop := { atomic_run w w' e : m w = (w', Err e) → w_db w' = w_db w }.

Section atomic.
Context `{ApiEnv}.

#[export] Instance atomic_local {A} (m : M World A) : local m → atomic m.
Proof. intros [Hl]. split. intros w w' e E. specialize (Hl w). by rewrite E in Hl. Qed.

#[export] Instance atomic_transaction {A} (zero : A) (body : M World A) : local body → atomic (in_transaction zero body).
Proof.
  intros Hl. split. intros w w' e E. apply in_transaction_outcome in E as (_ & [(w1 & a & _ & _ & [=])|(Hd & _)]); done.
Qed.

#[export] Instance atomic_gorm (body : M World unit) : local body → atomic (Transaction body).
Proof.
  intros [Hl]. split. intros w w' e. unfold Transaction. specialize (Hl (Begin w).1). change (w_db (Begin w).1) with (w_db w) in Hl.
  destruct (body (Begin w).1) as [w1 [a|e1|]]; cbn [fst] in Hl.
  - destruct (commit_outcome w1) as [(e1 & E1 & E2 & _)|(E1 & _)]; destruct (Commit w1) as [w2 r]; cbn in *; intros [= -> ->]; congruence.
  - intros [= <- _]. by destruct w1.
  - intros [=].
Qed.

Lemma atomic_bind {A B} (m : M World A) (k : A → M World B) : local m → (∀ a, atomic (k a)) → atomic (m ≫= k).
Proof.
  intros [Hl] Hk. split. intros w w' e. rewrite bind_unfold. specialize (Hl w).
  destruct (m w) as [w1 [a|e1|]]; cbn [fst] in Hl; [|by intros [= <- _]|by intros [=]].
  intros E. apply (atomic_run (atomic := Hk a)) in E. congruence.
Qed.
End atomic.

(** By its parts. *)
Ltac local_parts :=
  repeat first
    [ apply local_when | apply local_absent | apply local_catch | apply local_wrap | apply local_forM; intros ?
    | solve [apply _] | solve [auto]
    | match goal with |- local (_ ≫= _) => apply local_bind; [|intros ?] end
    | case_match ].

Ltac unfold_dao := unfold Relation_AddModel, Label_AddModel, Env_AddModel, Volume_AddModel, Mount_AddModel, Port_AddModel,
  Probe_AddModel, Monitor_AddModel, Endpoint_AddModel, Discovery_AddModel, Service_AddModel, PluginPort_AddModel,
  Port_UpdateModel, PluginPort_UpdateModel, Volume_UpdateModel, ConfigFile_AddModel, ConfigFile_UpdateModel,
  Volume_DeleteModel, DeleteByServiceIDAndVolumePath, GetVolumeByServiceIDAndName, GetByVolumeName,
  GetPluginMappingPort, GetPluginMappingPorts, CheckSomeModelPluginByServiceID, GetByTenantAndName, GetServiceByID,
  DelByVolumeID, GetServiceTypeByID in *.

Section requests.
Context `{ApiEnv} `{ComponentEnv} `{ComponentJson} `{!BulkUpserts}.
(** Inserting many rows in a transaction is a statement of it. *)
Context (Hbulk : ∀ R (HR : Row R) (l : list R), local (bulk_upsert Tx l)).

Lemma local_get_port c sid port : local (GetPort c sid port).
Proof.
  split. intros w. unfold GetPort. pose proof (local_run (m := Find_one c (λ r : PortRow, prt_ServiceID r = sid ∧ prt_ContainerPort r = port)) w) as Hl.
  by destruct (Find_one c _ w) as [w1 [a|[] |]].
Qed.

Lemma local_port_of_name tid name : local (port_of_name tid name).
Proof. unfold port_of_name. unfold_dao. local_parts. Qed.

Lemma local_create_port tid sid vp : local (create_port tid sid vp).
Proof. unfold create_port. pose proof local_port_of_name. unfold_dao. local_parts. Qed.

Lemma local_update_port tid sid crt old vp : local (update_port tid sid crt old vp).
Proof.
  unfold update_port, move_mapping. pose proof local_port_of_name. pose proof local_get_port. unfold_dao. local_parts.
Qed.

Lemma local_foldM {A B} (f : B → A → M World B) l b : (∀ b a, local (f b a)) → local (foldM f b l).
Proof. intros Hf. revert b. induction l as [|a l IH]; intros b; cbn [foldM]; [apply _|]. by apply local_bind. Qed.
Lemma local_map {A B} (f : A → B) (m : M World A) : local m → local (a ← m; mret (f a)).
Proof. intros Hm. apply local_bind; [done|]. intros; apply _. Qed.

Lemma local_scan newPort p ports : local (scan_ports Tx newPort p ports).
Proof.
  revert p. induction ports as [|q ports IH]; intros p; cbn [scan_ports]; [apply _|]. case_decide; [apply IH|].
  unfold_dao. apply local_bind; [local_parts|]. intros []; [apply _|apply IH].
Qed.

Lemma local_set_mapping tid sid m port : local (SetPluginMappingPort Tx tid sid m port).
Proof.
  unfold SetPluginMappingPort. apply local_bind; [unfold_dao; local_parts|]. intros ports.
  destruct (list_find _ ports) as [[i p]|]; [apply _|]. destruct (last ports) as [p|]; [|unfold_dao; local_parts].
  apply local_bind; [case_decide; [apply local_scan|apply _]|]. intros [q|]; [apply _|]. unfold_dao. local_parts.
Qed.

Lemma local_deref b : local (deref_flag b).
Proof. destruct b; apply _. Qed.

Lemma local_open m1 m2 tid sid port : local (open_mapping m1 m2 tid sid port).
Proof. unfold open_mapping. pose proof local_set_mapping. unfold_dao. local_parts. Qed.

Lemma local_close m1 m2 sid port o : local (close_mapping m1 m2 sid port o).
Proof.
  unfold close_mapping, DeletePluginMappingPortByContainerPort. pose proof local_deref. unfold_dao. local_parts.
Qed.

Lemma local_state m1 m2 sid port : local (port_state m1 m2 sid port).
Proof. unfold port_state. unfold_dao. local_parts. Qed.

Lemma local_delete_ports sid ports : local (forM ports (λ port,
  _ ← Port_DeleteModel Tx sid (po_ContainerPort port); DeleteIngressRulesByComponentPort sid (po_ContainerPort port))).
Proof.
  unfold Port_DeleteModel, DeleteIngressRulesByComponentPort, listHTTPRuleIDs, ListByComponentPort, GwRuleConfigDao_DeleteByRuleIDs,
    RuleExtensionDao_DeleteByRuleIDs, HTTPRuleDao_DeleteByComponentPort, TCPRuleDao_DeleteByComponentPort. local_parts.
Qed.

(** *** Volumes *)

Lemma local_unless m : local m → local (unless_absent m).
Proof. intros Hm. unfold unless_absent. local_parts. Qed.

Lemma local_config_file r : local (ConfigFile_AddModel Tx r).
Proof. unfold ConfigFile_AddModel. local_parts. Qed.

Lemma local_store_volume tsv content : local (store_volume tsv content).
Proof. unfold store_volume. pose proof local_config_file. unfold Volume_AddModel. local_parts. Qed.

Lemma local_send t : local (send t).
Proof. split. intros w. unfold send. destruct (queue_error t); by destruct w. Qed.

Lemma local_delete_volume tsv tid : local (delete_volume tsv tid).
Proof. unfold delete_volume. pose proof local_unless. pose proof local_send. unfold_dao. local_parts. Qed.

Lemma local_host_path tid tsv : local (host_path tid tsv).
Proof. unfold host_path, GetServiceTypeByID. local_parts. Qed.

Lemma local_volume_default tsv : local (SetVolumeDefaultValue tsv).
Proof. unfold SetVolumeDefaultValue. local_parts. Qed.

(** *** Creation *)

Lemma local_create_volume sc ts v : local (create_volume sc ts v).
Proof.
  destruct v as [v content]. unfold create_volume. pose proof local_config_file. unfold Volume_AddModel. local_parts.
Qed.

Lemma local_create_mount ts m : local (create_mount ts m).
Proof. unfold create_mount, GetVolumeByServiceIDAndName, Mount_AddModel. local_parts. Qed.

Lemma local_add_endpoint c : local (Endpoint_AddModel Tx c).
Proof. unfold Endpoint_AddModel. local_parts. Qed.

Lemma local_create_endpoints sc e : local (create_endpoints sc e).
Proof. unfold create_endpoints, Discovery_AddModel. pose proof local_add_endpoint. local_parts. Qed.

Lemma local_tcp_rule r : local (create_tcp_rule r).
Proof. unfold create_tcp_rule, TCPIPPortExists, GetUsedPortsByIP. pose proof local_create_tcp. local_parts. Qed.

Lemma local_create_rows sc : local (create_rows sc).
Proof.
  unfold create_rows, CreateOrUpdateEnvsInBatch, CreateOrUpdatePortsInBatch. cbv zeta.
  pose proof local_create_volume. pose proof local_create_mount. pose proof local_create_endpoints. pose proof local_tcp_rule.
  pose proof local_create_http. unfold Service_AddModel, Relation_AddModel, Label_AddModel, Probe_AddModel, Monitor_AddModel. local_parts.
Qed.

(** Requests that open a transaction are all or nothing: one that reports an error
    has left the tables as they were.  So are the creation of a component with all its
    parts, changes of its labels, ports and volumes, and opening and closing a port. *)
Theorem requests_all_or_nothing :
  (∀ sc, atomic (ServiceCreate sc)) ∧
  (∀ l sid, atomic (AddLabel l sid) ∧ atomic (UpdateLabel l sid) ∧ atomic (DeleteLabel l sid)) ∧
  (∀ tid sid vps, atomic (CreatePorts tid sid vps)) ∧
  (∀ action tid sid vps old, atomic (PortVar action tid sid vps old)) ∧
  (∀ sid op port, atomic (PortOuter sid op port) ∧ atomic (PortInner sid op port)) ∧
  (∀ tsv tid content action, atomic (VolumnVar tsv tid content action)).
Proof.
  pose proof local_close. pose proof local_open. pose proof local_state. pose proof local_deref. pose proof local_get_port.
  split_and!.
  - intros sc. apply atomic_transaction, local_create_rows.
  - intros l sid. split_and!; apply atomic_transaction;
      unfold DelTenantServiceLabelsByServiceIDKey, DelTenantServiceLabelsByServiceIDKeyValue, Label_AddModel; local_parts.
  - intros tid sid vps. apply atomic_transaction. pose proof local_create_port. local_parts.
  - intros action tid sid vps old. unfold PortVar. apply atomic_bind; [unfold_dao; local_parts|]. intros crt.
    case_decide; [apply atomic_gorm, local_delete_ports|]. unfold when. case_match; [|apply atomic_local, _].
    apply atomic_transaction. apply local_bind; [|intros; apply _]. apply local_foldM. intros. apply local_update_port.
  - intros sid op port. split.
    + unfold PortOuter. apply atomic_bind; [local_parts|intros p]. apply atomic_bind; [local_parts|intros up].
      case_decide; [|case_decide; [|apply atomic_local, _]]; unfold_dao.
      * apply atomic_bind; [local_parts|]. intros []; [|apply atomic_local, _]. apply atomic_transaction. local_parts.
      * apply atomic_transaction. local_parts.
    + unfold PortInner. apply atomic_bind; [local_parts|intros p]. apply atomic_bind; [local_parts|intros up].
      apply atomic_transaction. unfold_dao. local_parts.
  - intros tsv tid content action. unfold VolumnVar. case_decide.
    + apply atomic_bind; [apply local_host_path|intros tsv1]. apply atomic_bind; [apply local_volume_default|intros tsv2].
      apply atomic_transaction, local_store_volume.
    + unfold when. case_match; [|apply atomic_local, _]. apply atomic_transaction, local_delete_volume.
Qed.
End requests.

(** A component that is made stateless has no local volume, and none that only one
    pod may write, unless it is a shared file system or memory; one that is made
    single has at most one replica. *)
Theorem state_kept `{ApiEnv} `{!ApiEnvLaws} (sc : gmap string JsonValue) (sid m : string) (w w' : World)
    (Hid : sc !! "service_id"%string = Some (JString sid)) (Hm : sc !! "extend_method"%string = Some (JString m))
    (Hrun : ServiceUpdate sc w = (w', Ok ())) :
  ∃ ts, ts ∈ tb_services (w_db w) ∧ svr_ServiceID ts = sid ∧ (is_singleton m = true → (svr_Replicas ts ≤ 1)%Z) ∧
    (is_state m = false → ∀ v, v ∈ pt_volumes (tb_parts (w_db w)) → vol_ServiceID v = sid →
       vol_VolumeType v ≠ "local"%string ∧
       (vol_AccessMode v = "RWO"%string → vol_VolumeType v = "share-file"%string ∨ vol_VolumeType v = "memoryfs"%string)).
Proof.
  unfold ServiceUpdate in Hrun. rewrite Hid in Hrun. cbn [as_string] in Hrun. rewrite bind_unfold in Hrun.
  destruct (pool_service sid w) as (w1 & r & E & Hd & _ & _ & Hr). rewrite E in Hrun. destruct r as [ts|e|]; [|discriminate..].
  apply head_service in Hr as [Hin Hts]. exists ts. split; [done|]. split; [done|].
  cbv zeta in Hrun. rewrite Hm in Hrun. apply bind_ok_inv in Hrun as (w2 & ts2 & Hc & _). unfold change_method in Hc.
  assert (svr_Replicas (updated_service sc ts) = svr_Replicas ts ∧ svr_ServiceID (updated_service sc ts) = sid) as [E1 E2]
    by (split; [by destruct ts|rewrite <- Hts; by destruct ts]).
  rewrite E1, E2 in Hc. case_decide as Hrep; [done|]. apply bind_ok_inv in Hc as (w3 & volumes & Hf & Hc).
  unfold GetTenantServiceVolumesByServiceID in Hf. apply statement_ok in Hf as (-> & _ & _).
  destruct (existsb _ _) eqn:Ev in Hc; [done|]. split; [intros Hs; apply Z.nlt_ge; tauto|].
  intros Hst v Hv Hsid. assert (volume_forbids m v = false) as Hfv.
  { apply not_true_is_false. intros Ht. apply not_true_iff_false in Ev. destruct Ev. apply existsb_exists. exists v.
    split; [|done]. apply list_elem_of_In. cbn. rewrite any_order_perm, list_elem_of_filter, Hd. done. }
  unfold volume_forbids in Hfv. rewrite Hst in Hfv. cbn [negb] in Hfv. rewrite andb_true_r in Hfv.
  apply andb_false_iff in Hfv as [Hn%negb_false_iff%bool_decide_eq_true|Hn%bool_decide_eq_false].
  - split; [|tauto]. intros Hl. rewrite Hl in Hn. by destruct Hn.
  - split; [tauto|]. intros. tauto.
Qed.
